(* ===== verification/_CoqProject ===== *)
-Q . S2P
Prelude.v
StateLogic.v
TreeMath.v
Codec.v
Crypto.v
SecretTree.v
Data.v
Hpke.v
Identity.v
NodeVec.v
TreeIndex.v
TreeHash.v
ParentHash.v
TreeInv.v
Proposals.v
TreeKem.v
TreePath.v
LeafNodes.v
Kem.v
Framing.v
KeySchedule.v
MessageProtection.v
EpochStore.v
Filtering.v
GroupState.v
Processor.v
Group.v
Commit.v
Client.v
Scenario.v
Snapshots.v
Observer.v
Following.v
Builder.v
PathAgreement.v
GroupInv.v
Agreement.v
StaleIndex.v
Joining.v
