(* ===== verification/Prelude.v ===== *)
(** * A verified model of mls-rs

    mls-rs implements Messaging Layer Security (RFC 9420) in Rust: a group of
    clients agrees on a sequence of epochs, each with a shared key schedule, by
    exchanging signed commits over a ratchet tree.  This development is a shallow
    embedding of the library's logic -- the codec, the ratchet tree and TreeKEM,
    the key schedule, message protection, the filtering of proposals, the state
    of a group and its operations, clients and observers -- with the theorems
    that make each part correct and those about their composition.

    ** How the program is put together

    A [Client] (mls-rs/src/client.rs) with a configuration (client_builder.rs)
    creates, joins and loads [Group]s (group/mod.rs).  A group consists of the
    state all members share ([GroupState]: context, ratchet tree, proposals of
    the epoch, transcript), the member's private keys ([TreeKemPrivate]), the key
    schedule, the secrets of the epoch (a secret tree of message keys), what it
    has pending, and a repository of past epochs over a storage.  Messages come
    in through [MessageProcessor] (group/message_processor.rs), which a member
    and an observer (external_client/) implement; commits go out through
    commit.rs.  Both directions apply the proposals of a commit to the tree
    (group/proposal_filter/, tree_kem/mod.rs), process the update path
    (tree_kem/kem.rs) and derive the next epoch (group/key_schedule.rs).

    ** The files

    Shared vocabulary:
    - Prelude: outcomes of Rust code ([res]), methods on [&mut self] ([SM]),
      machine integers, lists, the tactics used everywhere;
    - StateLogic: [keeps] and [runs], a program logic for methods, with the hint
      database [keeps];
    - Codec: mls-rs-codec.  The class [CodecOk] is what a codec promises to the
      types built from it, [CodecCanonical] that decoding is injective;
    - Crypto: the error type, the trait [CipherSuiteProvider] with its laws
      ([AeadLaws], [KdfLaws], [HashLaws], [SignatureLaws], [HpkeLaws]) and [Toy],
      a provider that satisfies them, in which the witnesses are evaluated;
    - Hpke: the crates mls-rs-crypto-traits and mls-rs-crypto-hpke and the
      provider of mls-rs-crypto-rustcrypto (lib.rs), whose instance of
      [CipherSuiteProvider] satisfies [HpkeLaws] when the KEM and the AEAD are
      lawful;
    - Identity: the implementations of [IdentityProvider]
      (mls-rs/src/identity/basic.rs and mls-rs-identity-x509).

    The ratchet tree (mls-rs/src/tree_kem/, mls-rs-core):
    - TreeMath (math.rs), NodeVec (node.rs), TreeIndex (tree_index.rs), TreeHash
      (tree_hash.rs), ParentHash (parent_hash.rs), TreeKem (mod.rs, with the end
      of update_path.rs), Kem (path_secret.rs, hpke_encryption.rs, private.rs,
      kem.rs); Data and LeafNodes (leaf nodes, credentials, extensions, their
      validation, key packages, tree_validator.rs);
    - TreeInv, the invariant of the tree; TreePath and PathAgreement, what
      installing and processing a path achieves.

    Messages and epochs (mls-rs/src/group/):
    - Proposals (proposal.rs, proposal_filter/bundle.rs, key_package/, psk.rs),
      Framing (framing.rs, message_signature.rs, group_info.rs), KeySchedule
      (key_schedule.rs, transcript_hash.rs, the tags, psk/secret.rs), SecretTree
      (secret_tree.rs), MessageProtection (ciphertext_processor.rs,
      message_verifier.rs, padding.rs), EpochStore (state_repo.rs, psk/resolver.rs,
      storage_provider/), Filtering (proposal_filter/filtering.rs).

    Groups and clients:
    - GroupState (state.rs, roster.rs, mls_rules.rs, proposal_cache.rs,
      update_path.rs), Processor (message_processor.rs, util.rs), Group (mod.rs,
      snapshot.rs), Commit (commit.rs, external_commit.rs), Client (client.rs,
      resumption.rs), Builder (client_builder.rs), Observer (external_client.rs,
      external_client/);
    - Scenario, a concrete group of three clients at work; Snapshots, the stored
      forms; Following, what observers follow; GroupInv, the invariant of groups
      as a transition system; Agreement, a commit from its sender to those that
      process it; StaleIndex, what the sender's own tree is left with; Joining,
      the way of a welcome message from the commit to the members it adds.

    Definitions keep the names of the source; a prefix is added where Rust tells
    two names apart by their type.  Data come first in a file, then the code,
    then the specification and the theorems.

    ** What the theorems show

    - The codec: encoding and decoding are inverse, lengths are as announced,
      decoding never panics, for integers, vectors, messages and snapshots.
    - The tree: the arithmetic is that of the complete binary tree; the index
      implements the scan of the leaves; cached hashes are the recursive hashes;
      parent hashes link a path and are verified soundly; [batch_edit] and
      [apply_update_path] preserve the invariant of the tree.
    - TreeKEM: every member that processes a path ends with the committer's tree
      and commit secret, and with private keys that belong to the tree.
    - The key schedule is that of RFC 9420: joiner secret, epoch secrets and
      exported secrets are derived by the steps and labels of the standard, by
      committers and joiners alike; tags and transcript bind what they should.
    - Message keys: the secret tree refines a counter with skipped keys, and no
      key is handed out twice; sealed messages open to what was sent.
    - Proposals: what a committer's filter leaves, a receiver applies; what the
      commit lists, a receiver resolves; filters drop or refuse exactly what the
      rules say; and which updates a committer drops when they clash.
    - Groups: a member is a transition system (GroupInv.step) whose steps are the
      operations of a group, however they end -- storages may fail at any time --
      and the application of any detached commit it holds.  A group never leaves
      [group_sound].  A careful member applies a detached commit only in the epoch
      it was made in, with no other pending, and has its key packages deleted when
      it stores the group; its group satisfies [group_ok], its epochs grow, and a
      commit that was built can be applied unless the storage fails then.
      (A careless one can take its group back to an older epoch:
      GroupInv.stale_commit_goes_back.)  A refused message leaves the epoch as it
      was; messages of other groups and epochs are refused; a stored group is
      loaded unchanged.
    - Agreement, which brings the parts together: whenever a member of a
      well-formed group builds a commit of valid proposals and sends it as a
      public message, every member of the epoch that it leaves in place accepts
      it and arrives in the epoch the sender has pending, with the same context,
      nodes and secrets ([commit_agreement]).  The hypotheses are those of an
      honest run: the sender's private keys and caches belong to its tree
      ([sender_ready]), the receiver is in the same state with no commit of its
      own pending and its storage answers ([receiver_ready]), the rules of the
      application accept the proposals, both find the pre-shared keys, and the
      new leaf of a path is acceptable and clashes with no other.  The state of the receiver includes
      the index of the tree; a sender's own index is not kept by the code
      (StaleIndex.own_commit_index), so that the theorem speaks of the first
      commit after a group is created, joined or loaded, or after commits of
      others.
    - Joining: a member that such a commit adds decrypts its welcome message,
      accepts the tree and the group info, and arrives in the same epoch, at the
      place and with the keys the committer gave it ([welcome_agreement]); beside
      the committer's hypotheses it has stored the keys of its key package
      ([joiner_ready]) and would accept the tree of the pending epoch, and the
      provider outputs bytes ([OutputLaws]).
    - Observers: an observer follows every member (a simulation).
    - Encryption to public keys: Diffie-Hellman gives a lawful KEM, lawful KEMs
      combine to one, and a lawful KEM and AEAD give a provider that TreeKEM can
      rely on; contexts stay in step, and their first 2^32 nonces are different.

    Some theorems record behaviour that is not intended: the names end in what
    goes wrong (for example TreeKem.batch_edit_revert_loses_members), or they are
    examples in which the members of a group come to differ
    (StaleIndex.members_disagree, Scenario.pending_commit_blocks_newcomers,
    Joining.pathless_identity_lost).

    ** How the code is modelled

    - [Result] is [res]: [Ok], [Err] or [Panic], the last for code that panics
      and for a model that runs out of fuel; theorems that exclude [Panic] are
      total.  A method on [&mut self] is a state monad that keeps the changes made
      before an error, as [?] does.
    - Integers are [Z] with the wrap-around of a release build written out
      ([wrap]); bytes are [list Z]; vectors are lists.
    - A [HashMap] is a [gmap].  Where the order of its entries is visible it is
      the instance of [MapOrder], which the theorems leave arbitrary.
    - Providers (cryptography, identity, rules, storages) are classes; what is
      relied on of them are classes of laws, each with an instance, and no law
      says more than the trait documents: a key derivation function is one of
      RFC 5869, which extracts from a non-empty key and expands a key of its size
      to at most 255 times that size ([KdfLaws], Hpke.kdf_lawful); a storage may
      fail at any call, and one that fails to write has written nothing
      ([GroupStateStorageLaws]).  A storage in a configuration is a shared
      handle: a group threads its own copy.
    - Randomness is an argument of type [Coins]; the clock is the argument [now].
    - Loops over a tree have fuel: a tree has at most 2^31 leaves, so a walk to
      the root takes at most 32 steps, and a traversal at most as many as the
      array has nodes; the theorems show that the fuel is enough.
    - Loops that run in parallel (rayon) are sequential: with several failures
      the build may report another one of the errors.
    - The features are the default ones (std, rayon, rfc_compliant with
      private_message, out_of_order, psk, prior_epoch, by_ref_proposal,
      custom_proposal, x509; tree_index, fast_serialize), and external_client for
      observers.

    ** Not modelled

    The cryptographic primitives (curves, hashes, AEADs, signatures) and the
    crates that bind them to libraries outside of the repository (parameters
    here); the parsing and validation of X.509 certificates; the SQLite storage,
    which is a set of SQL statements;
    the foreign-language bindings; the token manipulation of the derive macros
    (the code they generate is modelled by combinators); the features outside of
    the default build: greasing, self-removal, last-resort key packages, direct
    access to the secret tree, prior-epoch membership keys, [no_std] and
    asynchronous builds; test utilities and the benchmark and harness crates. *)

From stdpp Require Export base tactics list numbers gmap strings.
From Stdlib Require Export ZArith Lia.

#[local] Set Default Goal Selector "!".

(** ** Outcomes of Rust code

    [Ok] and [Err] are the two constructors of [Result].  [Panic] is the
    outcome of code that panics (slice index out of range, [unwrap] on
    [None], an explicit [panic!]) or that exhausts the fuel of its model, so
    that "does not panic" theorems are total-correctness theorems. *)

Inductive res (E A : Type) : Type :=
| Ok (a : A)
| Err (e : E)
| Panic.
Arguments Ok {_ _} _.
Arguments Err {_ _} _.
Arguments Panic {_ _}.

#[global] Instance res_ret {E} : MRet (res E) := fun A => @Ok E A.
#[global] Instance res_bind {E} : MBind (res E) := fun A B f m =>
  match m with
  | Ok a => f a
  | Err e => Err e
  | Panic => Panic
  end.
#[global] Instance res_fmap {E} : FMap (res E) := fun A B f m =>
  match m with
  | Ok a => Ok (f a)
  | Err e => Err e
  | Panic => Panic
  end.

(** [Result::map_err]. *)
Definition map_err {E F A} (f : E -> F) (m : res E A) : res F A :=
  match m with
  | Ok a => Ok a
  | Err e => Err (f e)
  | Panic => Panic
  end.

(** [Option::ok_or]. *)
Definition ok_or {E A} (e : E) (o : option A) : res E A :=
  match o with
  | Some a => Ok a
  | None => Err e
  end.

(** [Result::ok]. *)
Definition res_ok {E A} (m : res E A) : option A :=
  match m with
  | Ok a => Some a
  | _ => None
  end.

(** [Result::is_ok]. *)
Definition is_ok {E A} (m : res E A) : bool :=
  match m with
  | Ok _ => true
  | _ => false
  end.

(** [Option::unwrap] and slice indexing. *)
Definition unwrap {E A} (o : option A) : res E A :=
  match o with
  | Some a => Ok a
  | None => Panic
  end.

(** [cond.then_some(()).ok_or(e)?]. *)
Definition guard_or {E} (e : E) (b : bool) : res E unit :=
  if b then Ok tt else Err e.

#[global] Instance res_eq_decision {E A} `{EqDecision E, EqDecision A} :
  EqDecision (res E A).
Proof. solve_decision. Defined.

Section res_lemmas.
Context {E A B : Type}.
Implicit Types (m : res E A) (f : A -> res E B).

Lemma bind_Ok m f b :
  (m ≫= f) = Ok b <-> exists a, m = Ok a /\ f a = Ok b.
Proof. destruct m; simpl; naive_solver. Qed.

Lemma bind_Err m f e :
  (m ≫= f) = Err e <-> m = Err e \/ exists a, m = Ok a /\ f a = Err e.
Proof. destruct m; simpl; naive_solver. Qed.

Lemma bind_Panic m f :
  (m ≫= f) = Panic <-> m = Panic \/ exists a, m = Ok a /\ f a = Panic.
Proof. destruct m; simpl; naive_solver. Qed.

Lemma fmap_Ok (g : A -> B) m b :
  (g <$> m) = Ok b <-> exists a, m = Ok a /\ b = g a.
Proof. destruct m; simpl; naive_solver. Qed.

Lemma ok_or_Ok (e : E) (o : option A) a : ok_or e o = Ok a <-> o = Some a.
Proof. destruct o; simpl; naive_solver. Qed.

Lemma unwrap_Ok (o : option A) a : (unwrap o : res E A) = Ok a <-> o = Some a.
Proof. destruct o; simpl; naive_solver. Qed.

Lemma map_err_Ok {F} (g : E -> F) m a : map_err g m = Ok a <-> m = Ok a.
Proof. destruct m; simpl; naive_solver. Qed.

Lemma guard_or_Ok (e : E) b : guard_or e b = Ok tt <-> b = true.
Proof. destruct b; simpl; naive_solver. Qed.
End res_lemmas.

Lemma bind_assoc {E A B C} (m : res E A) (f : A -> res E B) (g : B -> res E C) :
  (m ≫= f) ≫= g = m ≫= (fun a => f a ≫= g).
Proof. by destruct m. Qed.

(** Take every [bind] hypothesis apart into its intermediate results. *)
Ltac res_inv :=
  repeat match goal with
    | H : (_ ≫= _) = Ok _ |- _ => apply bind_Ok in H as (? & ? & ?)
    | H : (_ <$> _) = Ok _ |- _ => apply fmap_Ok in H as (? & ? & ?)
    | H : ok_or _ _ = Ok _ |- _ => apply ok_or_Ok in H
    | H : unwrap _ = Ok _ |- _ => apply unwrap_Ok in H
    | H : map_err _ _ = Ok _ |- _ => apply map_err_Ok in H
    | H : guard_or _ _ = Ok ?u |- _ => destruct u; apply guard_or_Ok in H
    | H : mret _ = Ok _ |- _ => injection H as H
    | H : Ok _ = Ok _ |- _ => injection H as H
    | H : Err _ = Ok _ |- _ => discriminate H
    | H : Panic = Ok _ |- _ => discriminate H
    end; simplify_eq/=.

(** ** Methods with a mutable receiver

    A method on [&mut self] is a function from the state to its outcome and
    the new state.  An error keeps the changes made before it, as in the
    source, where a [?] returns without undoing anything. *)

Definition SM (S E A : Type) : Type := S -> res E A * S.

#[global] Instance sm_ret {S E} : MRet (SM S E) := fun A a s => (Ok a, s).
#[global] Instance sm_bind {S E} : MBind (SM S E) := fun A B f m s =>
  match m s with
  | (Ok a, s') => f a s'
  | (Err e, s') => (Err e, s')
  | (Panic, s') => (Panic, s')
  end.

Section state_monad.
Context {S E : Type}.

Definition sm_lift {A} (m : res E A) : SM S E A := fun s => (m, s).
Definition sm_get : SM S E S := fun s => (Ok s, s).
Definition sm_put (s : S) : SM S E unit := fun _ => (Ok tt, s).
Definition sm_modify (f : S -> S) : SM S E unit := fun s => (Ok tt, f s).

(** Run a method of a part [T] of the state, read by [get] and written back
    by [set]. *)
Definition sm_zoom {T A} (get : S -> T) (set : T -> S -> S) (m : SM T E A) : SM S E A :=
  fun s => let '(r, t) := m (get s) in (r, set t s).

(** [result] taken as a value: [let res = ...;] without [?]. *)
Definition sm_try {A} (m : SM S E A) : SM S E (res E A) := fun s =>
  match m s with
  | (Panic, s') => (Panic, s')
  | (r, s') => (Ok r, s')
  end.

Lemma sm_bind_Ok {A B} (m : SM S E A) (f : A -> SM S E B) s b s' :
  (m ≫= f) s = (Ok b, s') <-> exists a s1, m s = (Ok a, s1) /\ f a s1 = (Ok b, s').
Proof. unfold mbind, sm_bind. destruct (m s) as [[]]; naive_solver. Qed.

(** Running a method step by step. *)
Lemma sm_bind_run {A B} (m : SM S E A) (f : A -> SM S E B) s a s' :
  m s = (Ok a, s') -> (m ≫= f) s = f a s'.
Proof. intros Hm. unfold mbind, sm_bind. by rewrite Hm. Qed.

Lemma sm_bind_err {A B} (m : SM S E A) (f : A -> SM S E B) s e s' :
  m s = (Err e, s') -> (m ≫= f) s = (Err e, s').
Proof. intros Hm. unfold mbind, sm_bind. by rewrite Hm. Qed.

Lemma sm_lift_run {A B} (m : res E A) (f : A -> SM S E B) s a :
  m = Ok a -> (sm_lift m ≫= f) s = f a s.
Proof. by intros ->. Qed.

Lemma sm_get_run {B} (f : S -> SM S E B) s : (sm_get ≫= f) s = f s s.
Proof. done. Qed.

Lemma sm_modify_run {B} g (f : unit -> SM S E B) s : (sm_modify g ≫= f) s = f tt (g s).
Proof. done. Qed.
End state_monad.

(** [b"..."]. *)
Definition bstr (s : String.string) : list Z :=
  (fun c => Z.of_nat (Ascii.nat_of_ascii c)) <$> String.list_ascii_of_string s.
Arguments bstr s%_string.

(** [lia] with divisions and remainders by constants. *)
Ltac divlia := Z.to_euclidean_division_equations; lia.

(** ** Machine integers

    A [w]-bit unsigned integer is a [Z] in [[0, 2^w)].  Arithmetic wraps
    around, as in a build without overflow checks; [wrap] makes this visible
    wherever the source computes at a fixed width. *)

Definition wrap (w x : Z) : Z := x `mod` 2 ^ w.

Definition in_uint (w x : Z) : Prop := (0 <= x < 2 ^ w)%Z.

#[global] Instance in_uint_dec w x : Decision (in_uint w x).
Proof. unfold in_uint. apply _. Defined.

Notation is_u8 := (in_uint 8).
Notation is_u16 := (in_uint 16).
Notation is_u32 := (in_uint 32).
Notation is_u64 := (in_uint 64).

(** [Vec<u8>] and [&[u8]]. *)
Notation bytes := (list Z).
Notation bytes_ok := (Forall is_u8).

Local Open Scope Z_scope.

Lemma wrap_small w x : in_uint w x -> wrap w x = x.
Proof. intros H. unfold wrap. by apply Z.mod_small. Qed.

Lemma wrap_small_eq w x y : in_uint w x -> x = y -> wrap w x = y.
Proof. intros H <-. by apply wrap_small. Qed.

Lemma wrap_in_uint w x : 0 <= w -> in_uint w (wrap w x).
Proof. intros H. unfold wrap, in_uint. apply Z.mod_pos_bound. lia. Qed.

(** Shift left at width [w]: the amount is taken modulo [w] and the bits that
    leave the word are lost. *)
Definition ushl (w x k : Z) : Z := wrap w (Z.shiftl x (k `mod` w)).

(** Bitwise complement at width [w]. *)
Definition unot (w x : Z) : Z := Z.lxor x (Z.ones w).

(** [next_power_of_two]. *)
Definition next_power_of_two (n : Z) : Z := 2 ^ Z.log2_up n.

(** [Z]-indexed [get] of a slice. *)
Definition zget {A} (l : list A) (i : Z) : option A :=
  if i <? 0 then None else l !! Z.to_nat i.

Definition zset {A} (l : list A) (i : Z) (x : A) : list A :=
  if i <? 0 then l else <[Z.to_nat i := x]> l.

Definition zlen {A} (l : list A) : Z := Z.of_nat (length l).

Lemma zget_Some_bound {A} (l : list A) i x : zget l i = Some x -> 0 <= i < zlen l.
Proof.
  unfold zget, zlen. destruct (Z.ltb_spec i 0); [done|].
  intros H'%lookup_lt_Some. lia.
Qed.

Lemma zget_None {A} (l : list A) i : zget l i = None <-> i < 0 \/ zlen l <= i.
Proof.
  unfold zget, zlen. destruct (Z.ltb_spec i 0); [naive_solver|].
  rewrite lookup_ge_None. lia.
Qed.

Lemma zget_is_Some {A} (l : list A) i : 0 <= i < zlen l -> is_Some (zget l i).
Proof.
  intros H. destruct (zget l i) eqn:E; [eauto|].
  apply zget_None in E. lia.
Qed.

Lemma zlen_zset {A} (l : list A) i x : zlen (zset l i x) = zlen l.
Proof. unfold zset, zlen. destruct (_ <? _); [done|]. by rewrite length_insert. Qed.

Lemma zget_zset_eq {A} (l : list A) i x :
  0 <= i < zlen l -> zget (zset l i x) i = Some x.
Proof.
  unfold zget, zset, zlen. intros H. destruct (Z.ltb_spec i 0); [lia|].
  apply list_lookup_insert_eq. lia.
Qed.

Lemma zget_zset_ne {A} (l : list A) i j x :
  i <> j -> zget (zset l i x) j = zget l j.
Proof.
  unfold zget, zset. intros H.
  destruct (Z.ltb_spec i 0), (Z.ltb_spec j 0); try done.
  apply list_lookup_insert_ne. lia.
Qed.

Lemma zget_app_l {A} (l k : list A) i : i < zlen l -> zget (l ++ k) i = zget l i.
Proof.
  unfold zget, zlen. intros H. destruct (Z.ltb_spec i 0); [done|].
  apply lookup_app_l. lia.
Qed.

Lemma zget_app_r {A} (l k : list A) i :
  zlen l <= i -> zget (l ++ k) i = zget k (i - zlen l).
Proof.
  unfold zget, zlen. intros H.
  destruct (Z.ltb_spec i 0), (Z.ltb_spec (i - Z.of_nat (length l)) 0); try lia.
  rewrite lookup_app_r by lia. f_equal. lia.
Qed.

Lemma zlen_app {A} (l k : list A) : zlen (l ++ k) = zlen l + zlen k.
Proof. unfold zlen. rewrite length_app. lia. Qed.

#[export] Instance zlen_proper {A} : Proper ((≡ₚ) ==> (=)) (@zlen A).
Proof. intros l k Hlk. unfold zlen. by rewrite Hlk. Qed.

Lemma zlen_nonneg {A} (l : list A) : 0 <= zlen l.
Proof. unfold zlen. lia. Qed.

Create HintDb mls.
#[export] Hint Resolve zlen_nonneg wrap_in_uint : mls.
#[export] Hint Rewrite @zlen_app @zlen_zset : mls.

(** ** Powers of two and bits *)

Lemma next_power_of_two_ge n : n <= next_power_of_two n.
Proof.
  unfold next_power_of_two. destruct (Z.le_gt_cases n 1) as [H|H].
  - pose proof (Z.pow_pos_nonneg 2 (Z.log2_up n) ltac:(lia) (Z.log2_up_nonneg _)). lia.
  - apply Z.log2_up_spec in H. lia.
Qed.

Lemma next_power_of_two_pow d : 0 <= d -> next_power_of_two (2 ^ d) = 2 ^ d.
Proof. intros H. unfold next_power_of_two. by rewrite Z.log2_up_pow2. Qed.

Lemma testbit_pow2 n i : 0 <= n -> Z.testbit (2 ^ n) i = (i =? n).
Proof.
  intros H. destruct (Z.eqb_spec i n) as [->|Hne].
  - by apply Z.pow2_bits_true.
  - apply Z.pow2_bits_false. lia.
Qed.

Lemma testbit_ones w i : 0 <= w -> Z.testbit (Z.ones w) i = (0 <=? i) && (i <? w).
Proof.
  intros H. destruct (Z.leb_spec 0 i); simpl.
  - destruct (Z.ltb_spec i w); [apply Z.ones_spec_low|apply Z.ones_spec_high]; lia.
  - by apply Z.testbit_neg_r.
Qed.

Lemma testbit_high w x i : in_uint w x -> 0 <= w <= i -> Z.testbit x i = false.
Proof.
  intros Hx Hi. rewrite <- (wrap_small w x) by done.
  apply Z.mod_pow2_bits_high. lia.
Qed.

Lemma testbit_wrap w x i :
  0 <= w -> 0 <= i -> Z.testbit (wrap w x) i = (i <? w) && Z.testbit x i.
Proof.
  intros Hw Hi. unfold wrap. destruct (Z.ltb_spec i w); simpl.
  - apply Z.mod_pow2_bits_low. lia.
  - apply Z.mod_pow2_bits_high. lia.
Qed.

Lemma ushl_1 w k : 0 <= k < w -> ushl w 1 k = 2 ^ k.
Proof.
  intros H. unfold ushl. rewrite Z.mod_small by lia.
  rewrite Z.shiftl_1_l. apply wrap_small. split; [lia|].
  apply Z.pow_lt_mono_r; lia.
Qed.
