(* ===== verification/StateLogic.v ===== *)
(** * A small program logic for methods

    Two predicates on the state monad of the prelude: [keeps R m], every outcome
    of [m] is related to the state it starts from, and [runs m s Q X], the
    postcondition [Q] of a successful run and [X] of any other.  Both follow the
    structure of the method; the rules for [keeps] are hints. *)

From S2P Require Import Prelude.

#[local] Set Default Goal Selector "!".

Definition keeps {S E A} (R : S -> S -> Prop) (m : SM S E A) : Prop := forall s, R s (m s).2.

Definition runs {S E A} (m : SM S E A) (s : S) (Q : A -> S -> Prop) (X : S -> Prop) : Prop :=
  match m s with
  | (Ok a, s') => Q a s'
  | (_, s') => X s'
  end.

Create HintDb keeps.

Section keeps.
Context {S E : Type} (R : S -> S -> Prop) `{!PreOrder R}.

Lemma keeps_bind {A B} (m : SM S E A) (f : A -> SM S E B) : keeps R m -> (forall a, keeps R (f a)) -> keeps R (m ≫= f).
Proof using Type*.
  intros Hm Hf s. specialize (Hm s). unfold mbind, sm_bind. destruct (m s) as [[a|e|] s']; [|done..].
  etrans; [exact Hm|apply Hf].
Qed.

Lemma keeps_lift {A} (m : res E A) : keeps R (sm_lift m).
Proof using Type*. by intros s. Qed.

Lemma keeps_ret {A} (a : A) : keeps (E := E) R (mret a).
Proof using Type*. by intros s. Qed.

Lemma keeps_get : keeps (E := E) R sm_get.
Proof using Type*. by intros s. Qed.

(** What follows the reading of a state knows that state. *)
Lemma keeps_get_bind {B} (f : S -> SM S E B) : (forall s, R s (f s s).2) -> keeps R (sm_get ≫= f).
Proof. done. Qed.

Lemma keeps_modify (f : S -> S) : (forall s, R s (f s)) -> keeps (E := E) R (sm_modify f).
Proof. done. Qed.

Lemma keeps_zoom {T A} (get : S -> T) put (m : SM T E A) (R' : T -> T -> Prop) :
  keeps R' m -> (forall s t, R' (get s) t -> R s (put t s)) -> keeps R (sm_zoom get put m).
Proof. intros Hm Hp s. specialize (Hm (get s)). unfold sm_zoom. destruct (m (get s)) as [r t]. by apply Hp. Qed.

Lemma keeps_runs {A} (m : SM S E A) s : keeps R m -> runs m s (fun _ => R s) (R s).
Proof. intros Hm. specialize (Hm s). unfold runs. by destruct (m s) as [[]]. Qed.

Lemma keeps_run {A} (m : SM S E A) s r s' : keeps R m -> m s = (r, s') -> R s s'.
Proof. intros Hm Er. specialize (Hm s). by rewrite Er in Hm. Qed.
End keeps.

#[export] Hint Resolve keeps_lift keeps_ret keeps_get : keeps.
#[export] Hint Extern 1 (PreOrder _) => typeclasses eauto : keeps.

(** Go through a method, splitting its conditionals; leaves the changes. *)
Ltac keeps :=
  repeat first
    [ progress intros
    | solve [auto with keeps typeclass_instances]
    | apply (keeps_bind _)
    | apply keeps_modify
    | match goal with |- keeps _ (if ?b then _ else _) => destruct b end
    | match goal with |- keeps _ (match ?x with _ => _ end) => destruct x end
    | apply (keeps_zoom _ _ _ _ _) ].

Section runs.
Context {S E : Type}.

Lemma runs_bind {A B} (m : SM S E A) (f : A -> SM S E B) s Q R X :
  runs m s Q X -> (forall a s', Q a s' -> runs (f a) s' R X) -> runs (m ≫= f) s R X.
Proof. unfold runs, mbind, sm_bind. destruct (m s) as [[a|e|] s']; naive_solver. Qed.

Lemma runs_lift {A} (m : res E A) s (Q : A -> S -> Prop) (X : S -> Prop) :
  X s -> (forall a, m = Ok a -> Q a s) -> runs (sm_lift m) s Q X.
Proof. unfold runs, sm_lift. destruct m; naive_solver. Qed.

Lemma runs_ret {A} (a : A) s (Q : A -> S -> Prop) (X : S -> Prop) : Q a s -> runs (E := E) (mret a) s Q X.
Proof. done. Qed.

Lemma runs_modify f s (Q : unit -> S -> Prop) (X : S -> Prop) : Q tt (f s) -> runs (E := E) (sm_modify f) s Q X.
Proof. done. Qed.

Lemma runs_mono {A} (m : SM S E A) s (Q Q' : A -> S -> Prop) (X X' : S -> Prop) :
  runs m s Q X -> (forall a s', Q a s' -> Q' a s') -> (forall s', X s' -> X' s') -> runs m s Q' X'.
Proof. unfold runs. destruct (m s) as [[a|e|] s']; naive_solver. Qed.

Lemma runs_zoom {T A} (get : S -> T) put (m : SM T E A) s (Q : A -> S -> Prop) (X : S -> Prop) :
  runs m (get s) (fun a t => Q a (put t s)) (fun t => X (put t s)) -> runs (sm_zoom get put m) s Q X.
Proof. unfold runs, sm_zoom. destruct (m (get s)) as [[a|e|] t]; auto. Qed.

Lemma runs_inv {A} (m : SM S E A) s Q X r s' : runs m s Q X -> m s = (r, s') ->
  match r with Ok a => Q a s' | _ => X s' end.
Proof. unfold runs. intros Hm E'. rewrite E' in Hm. by destruct r. Qed.

Lemma runs_get_bind {B} (f : S -> SM S E B) s Q X : runs (f s) s Q X -> runs (sm_get ≫= f) s Q X.
Proof. done. Qed.

Lemma runs_modify_bind {B} g (f : unit -> SM S E B) s Q X : runs (f tt) (g s) Q X -> runs (sm_modify g ≫= f) s Q X.
Proof. done. Qed.

Lemma runs_ret_bind {A B} (a : A) (f : A -> SM S E B) s Q X : runs (f a) s Q X -> runs (mret a ≫= f) s Q X.
Proof. done. Qed.

Lemma runs_lift_bind {A B} (m : res E A) (f : A -> SM S E B) s Q (X : S -> Prop) :
  X s -> (forall a, m = Ok a -> runs (f a) s Q X) -> runs (sm_lift m ≫= f) s Q X.
Proof. unfold runs, mbind, sm_bind, sm_lift. destruct m; naive_solver. Qed.
End runs.
