(* ===== verification/TreeMath.v ===== *)
(** * Array-based tree arithmetic (mls-rs/src/tree_kem/math.rs)

    The ratchet tree is stored as an array: leaf [i] at index [2*i], parents
    at odd indices.  This file models the [TreeIndex] trait as implemented by
    [impl_tree_stdint!] at an arbitrary width [w] (32 for [u32], 64 for
    [u64]), the loops of [direct_copath] and [leaf_lca_level], [subtree] and
    the breadth-first iterator.  The specification side is [node k j], the
    [j]-th node of level [k]; every operation is shown to be the expected
    operation on [(k, j)] coordinates. *)

From S2P Require Import Prelude.

#[local] Set Default Goal Selector "!".
Local Open Scope Z_scope.

(** ** Operations of the source *)

Fixpoint pos_trailing_ones (p : positive) : Z :=
  match p with
  | xI q => 1 + pos_trailing_ones q
  | xH => 1
  | xO _ => 0
  end.

(** [u32::trailing_ones]. *)
Definition trailing_ones (x : Z) : Z :=
  match x with
  | Zpos p => pos_trailing_ones p
  | _ => 0
  end.

Fixpoint pos_trailing_zeros (p : positive) : Z :=
  match p with
  | xO q => 1 + pos_trailing_zeros q
  | _ => 0
  end.

(** [usize::trailing_zeros]; all bits of zero are zeros. *)
Definition trailing_zeros (w x : Z) : Z :=
  match x with
  | Zpos p => pos_trailing_zeros p
  | _ => w
  end.

Record CopathNode := mk_copath_node { path : Z; copath : Z }.
Record ParentSibling := mk_parent_sibling { parent : Z; sibling : Z }.

#[export] Instance CopathNode_eq_dec : EqDecision CopathNode.
Proof. solve_decision. Defined.

Section width.
Context (w : Z).

Definition root (leaf_count : Z) : Z := wrap w (leaf_count - 1).

Definition left_unchecked (x : Z) : Z :=
  Z.lxor x (ushl w 1 (wrap 32 (trailing_ones x - 1))).

Definition right_unchecked (x : Z) : Z :=
  Z.lxor x (ushl w 3 (wrap 32 (trailing_ones x - 1))).

Definition is_leaf (x : Z) : bool := Z.land x 1 =? 0.

Definition is_in_tree (x root : Z) : bool := x <=? wrap w (2 * root).

Definition left (x : Z) : option Z :=
  if negb (is_leaf x) then Some (left_unchecked x) else None.

Definition right (x : Z) : option Z :=
  if negb (is_leaf x) then Some (right_unchecked x) else None.

Definition parent_sibling (x leaf_count : Z) : option ParentSibling :=
  if x =? root leaf_count then None
  else
    let lvl := trailing_ones x in
    let p := Z.lor (Z.land x (unot w (ushl w 1 (wrap 32 (lvl + 1))))) (ushl w 1 lvl) in
    let s := if x <? p then right_unchecked p else left_unchecked p in
    Some (mk_parent_sibling p s).

Fixpoint direct_copath_loop (fuel : nat) (x leaf_count : Z) : list CopathNode :=
  match fuel with
  | O => []
  | S fuel =>
      match parent_sibling x leaf_count with
      | Some ps =>
          mk_copath_node (parent ps) (sibling ps)
            :: direct_copath_loop fuel (parent ps) leaf_count
      | None => []
      end
  end.

(** The loop climbs one level per iteration, so [w] iterations are enough
    for every tree of the width; [direct_copath_spec] shows that it stops
    at the root before the fuel does. *)
Definition direct_copath (x leaf_count : Z) : list CopathNode :=
  if negb (is_in_tree x (root leaf_count)) then []
  else direct_copath_loop (Z.to_nat w) x leaf_count.
End width.

Fixpoint leaf_lca_level_loop (fuel : nat) (xn yn k : Z) : option Z :=
  if xn =? yn then Some k
  else match fuel with
       | O => None
       | S fuel => leaf_lca_level_loop fuel (Z.shiftr xn 1) (Z.shiftr yn 1) (k + 1)
       end.

(** The [while] loop; [None] would be a loop that is still running after 32
    iterations, which [leaf_lca_level_spec] excludes for [u32] arguments. *)
Definition leaf_lca_level (x y : Z) : option Z := leaf_lca_level_loop 32 x y 0.

(** [LeafIndex::from_node_index_unchecked] and [next_unchecked]. *)
Definition leaf_from_node_index_unchecked (index : Z) : Z := Z.shiftr index 1.
Definition leaf_next_unchecked (l : Z) : Z := wrap 32 (l + 1).

Record SubTree := mk_subtree { st_left : Z; st_right : Z }.

Definition subtree (x : Z) : SubTree :=
  let breadth := ushl 32 1 (trailing_ones x) in
  mk_subtree
    (leaf_from_node_index_unchecked (wrap 32 (wrap 32 (x + 1) - breadth)))
    (leaf_next_unchecked (leaf_from_node_index_unchecked (wrap 32 (x + breadth)))).

Record SubTreeIter := mk_subtree_iter { sti_current : Z; sti_end : Z }.

Definition subtree_into_iter (t : SubTree) : SubTreeIter :=
  mk_subtree_iter (st_left t) (st_right t).

Definition subtree_iter_next (it : SubTreeIter) : option (Z * SubTreeIter) :=
  if sti_current it <? sti_end it then
    Some (sti_current it,
          mk_subtree_iter (leaf_next_unchecked (sti_current it)) (sti_end it))
  else None.

Fixpoint subtree_iter_collect (fuel : nat) (it : SubTreeIter) : list Z :=
  match fuel with
  | O => []
  | S fuel =>
      match subtree_iter_next it with
      | Some (l, it') => l :: subtree_iter_collect fuel it'
      | None => []
      end
  end.

(** [subtree(x).into_iter().collect_vec()]: one element per iteration. *)
Definition subtree_leaves (x : Z) : list Z :=
  let t := subtree x in
  subtree_iter_collect (Z.to_nat (st_right t - st_left t)) (subtree_into_iter t).

Record BfsIterTopDown := mk_bfs {
  level : Z; mask : Z; level_end : Z; ctr : Z }.

Definition bfs_new (num_leaves : Z) : BfsIterTopDown :=
  let depth := trailing_zeros 64 num_leaves in
  mk_bfs (wrap 64 (depth + 1)) (wrap 64 (ushl 64 1 depth - 1)) 1 0.

Definition bfs_emit (it : BfsIterTopDown) : Z * BfsIterTopDown :=
  (Z.lor (ushl 64 (ctr it) (level it)) (mask it),
   mk_bfs (level it) (mask it) (level_end it) (wrap 64 (ctr it + 1))).

Definition bfs_next (it : BfsIterTopDown) : option (Z * BfsIterTopDown) :=
  if ctr it =? level_end it then
    if level it =? 1 then None
    else Some (bfs_emit (mk_bfs
      (wrap 64 (level it - 1))
      (Z.shiftr (mask it) 1)
      (wrap 64 (Z.lor (ushl 64 (wrap 64 (level_end it - 1)) 1) 1 + 1))
      0))
  else Some (bfs_emit it).

Fixpoint bfs_collect (fuel : nat) (it : BfsIterTopDown) : list Z :=
  match fuel with
  | O => []
  | S fuel =>
      match bfs_next it with
      | Some (x, it') => x :: bfs_collect fuel it'
      | None => []
      end
  end.

(** ** Level coordinates *)

(** The [j]-th node of level [k]: [k] low one bits, a zero, then [j]. *)
Definition node (k j : Z) : Z := j * 2 ^ (k + 1) + 2 ^ k - 1.

(** [node k j] belongs to the tree with [2^d] leaves. *)
Definition in_tree (d k j : Z) : Prop := 0 <= k <= d /\ 0 <= j < 2 ^ (d - k).

Lemma pow2_succ k : 0 <= k -> 2 ^ (k + 1) = 2 * 2 ^ k.
Proof. intros H. rewrite Z.pow_add_r by lia. lia. Qed.

Lemma pow2_pos k : 0 <= k -> 0 < 2 ^ k.
Proof. intros. lia. Qed.

#[export] Hint Resolve pow2_pos : mls.

Lemma node_0 j : node 0 j = 2 * j.
Proof. unfold node. change (2 ^ (0 + 1)) with 2. change (2 ^ 0) with 1. lia. Qed.

Lemma node_succ k j : 0 <= k -> node (k + 1) j = 2 * node k j + 1.
Proof. intros H. unfold node. rewrite (pow2_succ (k + 1)), (pow2_succ k) by lia. lia. Qed.

Lemma node_nonneg k j : 0 <= k -> 0 <= j -> 0 <= node k j.
Proof. intros Hk Hj. unfold node. pose proof (pow2_pos k Hk). nia. Qed.

Lemma trailing_ones_double x : trailing_ones (2 * x) = 0.
Proof. by destruct x as [|p|p]. Qed.

Lemma trailing_ones_succ_double x :
  0 <= x -> trailing_ones (2 * x + 1) = 1 + trailing_ones x.
Proof. destruct x as [|p|p]; simpl; [done|done|lia]. Qed.

Lemma trailing_ones_node k j : 0 <= k -> 0 <= j -> trailing_ones (node k j) = k.
Proof.
  intros Hk Hj. revert k Hk. apply natlike_ind.
  - rewrite node_0. apply trailing_ones_double.
  - intros k Hk IH. rewrite <- Z.add_1_r, node_succ by lia.
    rewrite trailing_ones_succ_double, IH by (by apply node_nonneg). lia.
Qed.

(** The coordinates of an index. *)
Lemma node_decompose x :
  0 <= x -> exists k j, 0 <= k /\ 0 <= j /\ x = node k j.
Proof.
  intros Hx0.
  apply (Z_lt_induction (fun x => 0 <= x -> exists k j, 0 <= k /\ 0 <= j /\ x = node k j));
    [|done..].
  clear x Hx0. intros x IH Hx. destruct (Z.Even_or_Odd x) as [[y ->]|[y ->]].
  - exists 0, y. rewrite node_0. lia.
  - destruct (IH y) as (k & j & Hk & Hj & ->); [lia..|].
    exists (k + 1), j. rewrite node_succ by lia. lia.
Qed.

Lemma node_testbit k j i :
  0 <= k -> 0 <= j -> 0 <= i ->
  Z.testbit (node k j) i = (i <? k) || ((k <? i) && Z.testbit j (i - k - 1)).
Proof.
  intros Hk Hj. revert i. pattern k. revert k Hk. apply natlike_ind.
  - intros i Hi. rewrite node_0.
    destruct (Z.ltb_spec i 0); [lia|]. simpl.
    destruct (Z.ltb_spec 0 i); simpl.
    + rewrite Z.double_bits. f_equal. lia.
    + replace i with 0 by lia. by rewrite Z.testbit_even_0.
  - intros k Hk IH i Hi. rewrite <- Z.add_1_r, node_succ by lia.
    destruct (Z.eq_dec i 0) as [->|Hi0].
    + rewrite Z.testbit_odd_0. destruct (Z.ltb_spec 0 (k + 1)); [done|lia].
    + replace i with (Z.succ (i - 1)) at 1 by lia.
      rewrite Z.testbit_odd_succ, IH by lia.
      f_equal; [|f_equal]; [| |f_equal; lia];
        repeat match goal with |- context [?a <? ?b] => destruct (Z.ltb_spec a b) end; lia.
Qed.

Lemma node_lt k j n : 0 <= k <= n -> 0 <= j < 2 ^ (n - k) -> node k j < 2 ^ (n + 1) - 1.
Proof.
  intros Hk Hj. unfold node.
  assert (2 ^ (n + 1) = 2 ^ (k + 1) * 2 ^ (n - k)) as ->.
  { rewrite <- Z.pow_add_r by lia. f_equal. lia. }
  rewrite pow2_succ by lia. pose proof (pow2_pos k). nia.
Qed.

Lemma in_tree_node_bound d k j : in_tree d k j -> 0 <= node k j <= 2 * (2 ^ d - 1).
Proof.
  intros [Hk Hj]. pose proof (node_lt k j d Hk Hj). pose proof (node_nonneg k j).
  rewrite pow2_succ in * by lia. lia.
Qed.

(** Every index of the array is a node of the tree. *)
Lemma in_tree_decompose d x :
  0 <= d -> 0 <= x <= 2 * (2 ^ d - 1) -> exists k j, in_tree d k j /\ x = node k j.
Proof.
  intros Hd Hx. destruct (node_decompose x) as (k & j & Hk & Hj & ->); [lia|].
  exists k, j. split; [|done]. unfold node in Hx.
  assert (k <= d) as Hkd.
  { destruct (Z.le_gt_cases k d) as [|Hgt]; [done|].
    pose proof (Z.pow_le_mono_r 2 (d + 1) k ltac:(lia) ltac:(lia)) as Hp.
    rewrite pow2_succ in Hp by lia. pose proof (pow2_pos (k + 1)). nia. }
  split; [lia|]. split; [done|].
  destruct (Z.le_gt_cases (2 ^ (d - k)) j) as [Hge|]; [|done].
  assert (2 * 2 ^ d = 2 ^ (k + 1) * 2 ^ (d - k)) as Hp.
  { rewrite <- pow2_succ, <- Z.pow_add_r by lia. f_equal. lia. }
  pose proof (pow2_pos k Hk). pose proof (pow2_pos (k + 1)). nia.
Qed.

Lemma node_inj k j k' j' :
  0 <= k -> 0 <= j -> 0 <= k' -> 0 <= j' -> node k j = node k' j' -> k = k' /\ j = j'.
Proof.
  intros Hk Hj Hk' Hj' H.
  assert (k = k') as <-.
  { rewrite <- (trailing_ones_node k j), <- (trailing_ones_node k' j') by done. by f_equal. }
  split; [done|]. unfold node in H. pose proof (pow2_pos (k + 1)). nia.
Qed.

(** ** The operations in level coordinates *)

(** Case analysis on the comparisons of a bit-level goal. *)
Ltac case_bits :=
  repeat match goal with
    | |- context [?a <? ?b] => destruct (Z.ltb_spec a b); try lia; simpl
    | |- context [?a =? ?b] => destruct (Z.eqb_spec a b); try lia; simpl
    | |- context [?a <=? ?b] => destruct (Z.leb_spec a b); try lia; simpl
    end;
  rewrite ?andb_true_r, ?andb_false_r, ?orb_false_r, ?orb_true_r,
    ?xorb_false_r, ?xorb_true_r, ?negb_involutive; try done.

Lemma testbit_3 i : Z.testbit 3 i = (i =? 0) || (i =? 1).
Proof.
  destruct (Z.ltb_spec i 0); [rewrite Z.testbit_neg_r by done; case_bits|].
  destruct (Z.eqb_spec i 0) as [->|]; [done|].
  destruct (Z.eqb_spec i 1) as [->|]; [done|].
  apply (testbit_high 2); [done|lia].
Qed.

Lemma ushl_3_testbit w m i :
  0 <= m -> m + 1 < w -> 0 <= i ->
  Z.testbit (ushl w 3 m) i = (i =? m) || (i =? m + 1).
Proof.
  intros Hm Hw Hi. unfold ushl. rewrite (Z.mod_small m) by lia.
  rewrite testbit_wrap, Z.shiftl_spec, testbit_3 by lia. case_bits.
Qed.

Lemma testbit_double j i : 0 <= i -> Z.testbit (2 * j) i = (0 <? i) && Z.testbit j (i - 1).
Proof.
  intros Hi. destruct (Z.ltb_spec 0 i); simpl.
  - apply Z.double_bits.
  - replace i with 0 by lia. apply Z.testbit_even_0.
Qed.

Lemma testbit_succ_double j i :
  0 <= i -> Z.testbit (2 * j + 1) i = (i =? 0) || Z.testbit j (i - 1).
Proof.
  intros Hi. destruct (Z.eqb_spec i 0) as [->|]; simpl.
  - apply Z.testbit_odd_0.
  - replace i with (Z.succ (i - 1)) at 1 by lia. apply Z.testbit_odd_succ. lia.
Qed.

Section coords.
Context (w : Z) (Hw : 0 < w <= 64).

Lemma level_shift k : 0 < k <= w -> wrap 32 (k - 1) = k - 1.
Proof using Hw. intros H. apply wrap_small. split; [lia|]. change (2 ^ 32) with 4294967296. lia. Qed.

Lemma left_unchecked_node k j :
  0 < k < w -> 0 <= j -> left_unchecked w (node k j) = node (k - 1) (2 * j).
Proof using Hw.
  intros Hk Hj. unfold left_unchecked.
  rewrite trailing_ones_node, level_shift, ushl_1 by lia.
  apply Z.bits_inj'. intros i Hi.
  rewrite Z.lxor_spec, testbit_pow2, !node_testbit by lia.
  destruct (Z.ltb_spec (k - 1) i).
  - rewrite testbit_double by lia.
    replace (i - (k - 1) - 1 - 1) with (i - k - 1) by lia. case_bits.
  - case_bits.
Qed.

Lemma right_unchecked_node k j :
  0 < k < w -> 0 <= j -> right_unchecked w (node k j) = node (k - 1) (2 * j + 1).
Proof using Hw.
  intros Hk Hj. unfold right_unchecked.
  rewrite trailing_ones_node, level_shift by lia.
  apply Z.bits_inj'. intros i Hi.
  rewrite Z.lxor_spec, ushl_3_testbit, !node_testbit by lia.
  destruct (Z.ltb_spec (k - 1) i).
  - rewrite testbit_succ_double by lia.
    replace (i - (k - 1) - 1 - 1) with (i - k - 1) by lia. case_bits.
  - case_bits.
Qed.

Lemma is_leaf_node k j : 0 <= k -> 0 <= j -> is_leaf (node k j) = (k =? 0).
Proof using Hw.
  intros Hk Hj. unfold is_leaf.
  replace 1 with (Z.ones 1) by done. rewrite Z.land_ones by lia. change (2 ^ 1) with 2.
  destruct (Z.eqb_spec k 0) as [->|].
  - rewrite node_0, Z.mul_comm, Z_mod_mult. done.
  - replace k with ((k - 1) + 1) by lia. rewrite node_succ by lia.
    rewrite Z.add_comm, Z.mul_comm, Z_mod_plus_full. done.
Qed.

Lemma root_pow2 d : 0 <= d < w -> root w (2 ^ d) = node d 0.
Proof using Hw.
  intros Hd. unfold root, node. rewrite Z.mul_0_l, Z.add_0_l. apply wrap_small.
  pose proof (pow2_pos d). split; [lia|].
  pose proof (Z.pow_lt_mono_r 2 d w). lia.
Qed.

Lemma is_in_tree_node d x :
  0 <= d < w -> is_in_tree w x (root w (2 ^ d)) = (x <=? 2 * (2 ^ d - 1)).
Proof using Hw.
  intros Hd. unfold is_in_tree. rewrite root_pow2 by done. f_equal.
  unfold node. rewrite Z.mul_0_l, Z.add_0_l. apply wrap_small.
  pose proof (pow2_pos d). split; [lia|].
  pose proof (Z.pow_le_mono_r 2 (d + 1) w). rewrite pow2_succ in * by lia. lia.
Qed.

(** The bit pattern the source computes for the parent. *)
Lemma parent_bits k j :
  0 <= k -> k + 1 < w -> 0 <= j -> in_uint w (node k j) ->
  Z.lor (Z.land (node k j) (unot w (ushl w 1 (wrap 32 (k + 1))))) (ushl w 1 k)
  = node (k + 1) (Z.shiftr j 1).
Proof using Hw.
  intros Hk Hkw Hj Hu.
  rewrite (wrap_small 32) by (split; [lia|]; change (2 ^ 32) with 4294967296; lia).
  rewrite !ushl_1 by lia.
  apply Z.bits_inj'. intros i Hi. unfold unot.
  rewrite Z.lor_spec, Z.land_spec, Z.lxor_spec, testbit_ones, !testbit_pow2 by lia.
  destruct (Z.ltb_spec i w).
  - rewrite !node_testbit by (try lia; apply Z.shiftr_nonneg; lia).
    destruct (Z.ltb_spec (k + 1) i).
    + rewrite Z.shiftr_spec by lia.
      replace (i - (k + 1) - 1 + 1) with (i - k - 1) by lia. case_bits.
    + case_bits.
  - rewrite (testbit_high w (node k j)) by (done || lia).
    rewrite node_testbit by (try lia; apply Z.shiftr_nonneg; lia).
    rewrite Z.shiftr_spec by lia.
    assert (Z.testbit j (i - (k + 1) - 1 + 1) = false) as ->; [|case_bits].
    replace (i - (k + 1) - 1 + 1) with (i - k - 1) by lia.
    pose proof (testbit_high w (node k j) i Hu ltac:(lia)) as Hb.
    rewrite node_testbit in Hb by lia. destruct (Z.ltb_spec k i); [|lia].
    apply orb_false_iff in Hb. tauto.
Qed.

Lemma shiftr1_lxor j : 0 <= j ->
  Z.lxor j 1 = if Z.testbit j 0 then 2 * Z.shiftr j 1 else 2 * Z.shiftr j 1 + 1.
Proof using Type.
  intros Hj. rewrite Z.shiftr_div_pow2 by lia. change (2 ^ 1) with 2.
  rewrite Z.bit0_odd. pose proof (Z.div_mod j 2 ltac:(lia)) as Hd.
  rewrite Zmod_odd in Hd. destruct (Z.odd j) eqn:Ho.
  - rewrite Hd at 1. replace 1 with (2 * 0 + 1) by lia.
    apply Z.bits_inj'. intros i Hi.
    rewrite Z.lxor_spec, !testbit_succ_double, testbit_double, Z.testbit_0_l by lia.
    case_bits.
  - rewrite Hd at 1. rewrite Z.add_0_r. replace 1 with (2 * 0 + 1) at 1 by lia.
    apply Z.bits_inj'. intros i Hi.
    rewrite Z.lxor_spec, !testbit_succ_double, testbit_double, Z.testbit_0_l by lia.
    case_bits.
Qed.

(** [parent_sibling] climbs one level: the position is halved, and the
    sibling is the other child of the parent. *)
Lemma parent_sibling_node d k j :
  d < w -> in_tree d k j ->
  parent_sibling w (node k j) (2 ^ d) =
    if k =? d then None
    else Some (mk_parent_sibling (node (k + 1) (Z.shiftr j 1)) (node k (Z.lxor j 1))).
Proof using Hw.
  intros Hd [Hk Hj]. unfold parent_sibling. rewrite root_pow2 by lia.
  destruct (Z.eqb_spec k d) as [->|Hne].
  { rewrite Z.sub_diag in Hj. replace j with 0 by (change (2 ^ 0) with 1 in Hj; lia).
    by rewrite Z.eqb_refl. }
  destruct (Z.eqb_spec (node k j) (node d 0)) as [He|_].
  { apply node_inj in He; lia. }
  assert (in_uint w (node k j)) as Hu.
  { split; [apply node_nonneg; lia|]. pose proof (node_lt k j d Hk Hj).
    pose proof (Z.pow_le_mono_r 2 (d + 1) w). lia. }
  rewrite trailing_ones_node, parent_bits by (done || lia).
  do 2 f_equal.
  assert (0 <= Z.shiftr j 1) by (apply Z.shiftr_nonneg; lia).
  rewrite left_unchecked_node, right_unchecked_node by lia.
  replace (k + 1 - 1) with k by lia. rewrite shiftr1_lxor by lia.
  assert (node (k + 1) (Z.shiftr j 1)
          = node k j + if Z.testbit j 0 then - 2 ^ k else 2 ^ k) as ->.
  { rewrite node_succ by lia. unfold node. rewrite pow2_succ by lia.
    rewrite Z.shiftr_div_pow2 by lia. change (2 ^ 1) with 2. rewrite Z.bit0_odd.
    pose proof (Z.div_mod j 2 ltac:(lia)) as Hdm. rewrite Zmod_odd in Hdm.
    destruct (Z.odd j); nia. }
  pose proof (pow2_pos k).
  destruct (Z.testbit j 0); case_bits.
Qed.

Lemma shiftr_bound j a b : 0 <= a -> 0 <= b -> 0 <= j < 2 ^ (a + b) -> 0 <= Z.shiftr j a < 2 ^ b.
Proof using Type.
  intros Ha Hb Hj. rewrite Z.shiftr_div_pow2 by lia. split; [apply Z.div_pos; lia|].
  apply Z.div_lt_upper_bound; [lia|]. rewrite <- Z.pow_add_r by lia. lia.
Qed.

Lemma in_tree_parent d k j : in_tree d k j -> k < d -> in_tree d (k + 1) (Z.shiftr j 1).
Proof using Type.
  intros [Hk Hj] Hlt. split; [lia|]. apply shiftr_bound; [lia..|].
  replace (1 + (d - (k + 1))) with (d - k) by lia. done.
Qed.

Lemma in_tree_sibling d k j : in_tree d k j -> k < d -> in_tree d k (Z.lxor j 1).
Proof using Type.
  intros [Hk Hj] Hlt. split; [lia|]. rewrite shiftr1_lxor by lia.
  pose proof (in_tree_parent d k j (conj Hk Hj) Hlt) as [_ Hp].
  replace (d - k) with ((d - (k + 1)) + 1) in * by lia.
  rewrite pow2_succ in * by lia. destruct (Z.testbit j 0); lia.
Qed.

Lemma in_tree_child d k j b :
  in_tree d k j -> 0 < k -> 0 <= b < 2 -> in_tree d (k - 1) (2 * j + b).
Proof using Type.
  intros [Hk Hj] Hpos Hb. split; [lia|].
  replace (d - (k - 1)) with ((d - k) + 1) by lia. rewrite pow2_succ by lia. lia.
Qed.
End coords.

(** ** Direct paths *)

(** The copath of [node k j] in the tree with [2^d] leaves. *)
Definition copath_spec (d k j : Z) : list CopathNode :=
  (fun i => mk_copath_node (node (k + i + 1) (Z.shiftr j (i + 1)))
                           (node (k + i) (Z.lxor (Z.shiftr j i) 1)))
    <$> seqZ 0 (d - k).

Lemma copath_spec_step d k j :
  k < d ->
  copath_spec d k j =
    mk_copath_node (node (k + 1) (Z.shiftr j 1)) (node k (Z.lxor j 1))
      :: copath_spec d (k + 1) (Z.shiftr j 1).
Proof.
  intros Hk. unfold copath_spec. rewrite seqZ_cons by lia. csimpl.
  rewrite Z.add_0_r, Z.shiftr_0_r. f_equal.
  rewrite <- (fmap_add_seqZ 1 0), <- list_fmap_compose.
  replace (Z.pred (d - k)) with (d - (k + 1)) by lia.
  apply list_fmap_ext. intros i x Hx. apply lookup_seqZ in Hx as [-> Hi]. simpl.
  rewrite !Z.shiftr_shiftr by lia. repeat (f_equal; try lia).
Qed.

Lemma copath_spec_root d j : copath_spec d d j = [].
Proof. unfold copath_spec. by rewrite Z.sub_diag. Qed.

Lemma direct_copath_loop_spec w d k j fuel :
  0 < w <= 64 -> d < w -> in_tree d k j -> d - k <= Z.of_nat fuel ->
  direct_copath_loop w fuel (node k j) (2 ^ d) = copath_spec d k j.
Proof.
  intros Hw Hd. revert k j. induction fuel as [|fuel IH]; intros k j Ht Hf.
  - destruct Ht as [Hk _]. replace k with d by lia. by rewrite copath_spec_root.
  - simpl. rewrite parent_sibling_node by done. destruct (Z.eqb_spec k d) as [->|Hne].
    + by rewrite copath_spec_root.
    + assert (k < d) by (destruct Ht; lia).
      rewrite copath_spec_step by done. simpl. f_equal. apply IH; [|lia].
      by apply in_tree_parent.
Qed.

Lemma direct_copath_node w d k j :
  0 < w <= 64 -> d < w -> in_tree d k j ->
  direct_copath w (node k j) (2 ^ d) = copath_spec d k j.
Proof.
  intros Hw Hd Ht. pose proof (in_tree_node_bound _ _ _ Ht). destruct (Ht) as [Hk _].
  unfold direct_copath. rewrite is_in_tree_node by lia.
  destruct (Z.leb_spec (node k j) (2 * (2 ^ d - 1))); [|lia].
  apply direct_copath_loop_spec; [done..|lia].
Qed.

Lemma direct_copath_out w d x :
  0 < w <= 64 -> 0 <= d < w -> 2 * (2 ^ d - 1) < x -> direct_copath w x (2 ^ d) = [].
Proof.
  intros Hw Hd Hx. unfold direct_copath. rewrite is_in_tree_node by lia. case_bits.
Qed.

Lemma length_copath_spec d k j : length (copath_spec d k j) = Z.to_nat (d - k).
Proof. unfold copath_spec. by rewrite length_fmap, length_seqZ. Qed.

Lemma lookup_copath_spec d k j (i : nat) :
  Z.of_nat i < d - k ->
  copath_spec d k j !! i =
    Some (mk_copath_node (node (k + Z.of_nat i + 1) (Z.shiftr j (Z.of_nat i + 1)))
                         (node (k + Z.of_nat i) (Z.lxor (Z.shiftr j (Z.of_nat i)) 1))).
Proof.
  intros Hi. unfold copath_spec. rewrite list_lookup_fmap.
  rewrite (proj2 (lookup_seqZ 0 (d - k) i (0 + Z.of_nat i))) by lia. done.
Qed.

Lemma elem_of_copath_spec d k j c :
  c ∈ copath_spec d k j <->
  exists i, 0 <= i < d - k /\
    c = mk_copath_node (node (k + i + 1) (Z.shiftr j (i + 1)))
                       (node (k + i) (Z.lxor (Z.shiftr j i) 1)).
Proof.
  unfold copath_spec. rewrite list_elem_of_fmap. setoid_rewrite elem_of_seqZ.
  split; intros (i & H1 & H2); exists i; (split; [lia || done|lia || done]).
Qed.

(** ** Lowest common ancestors *)

Lemma leaf_lca_level_loop_spec fuel x y k :
  0 <= x -> 0 <= y -> Z.shiftr x (Z.of_nat fuel) = Z.shiftr y (Z.of_nat fuel) ->
  exists r, leaf_lca_level_loop fuel x y k = Some (k + r) /\ 0 <= r <= Z.of_nat fuel /\
    Z.shiftr x r = Z.shiftr y r /\
    forall i, 0 <= i < r -> Z.shiftr x i <> Z.shiftr y i.
Proof.
  revert x y k. induction fuel as [|fuel IH]; intros x y k Hx Hy He.
  - rewrite !Z.shiftr_0_r in He. subst y. exists 0. simpl. rewrite Z.eqb_refl, Z.add_0_r.
    split; [done|]. split; [lia|]. split; [done|]. intros i ?. lia.
  - destruct (Z.eqb_spec x y) as [->|Hne].
    { exists 0. simpl. rewrite Z.eqb_refl, Z.add_0_r.
      split; [done|]. split; [lia|]. split; [done|]. intros i ?. lia. }
    destruct (IH (Z.shiftr x 1) (Z.shiftr y 1) (k + 1)) as (r & Hr & Hb & Heq & Hmin).
    { by apply Z.shiftr_nonneg. }
    { by apply Z.shiftr_nonneg. }
    { rewrite !Z.shiftr_shiftr by lia. by replace (1 + Z.of_nat fuel) with (Z.of_nat (S fuel)) by lia. }
    exists (r + 1). simpl. destruct (Z.eqb_spec x y); [done|].
    rewrite Hr. split; [f_equal; lia|]. split; [lia|]. split.
    { rewrite !Z.shiftr_shiftr in Heq by lia. by rewrite (Z.add_comm r 1). }
    intros i Hi. destruct (Z.eq_dec i 0) as [->|].
    { by rewrite !Z.shiftr_0_r. }
    specialize (Hmin (i - 1) ltac:(lia)). rewrite !Z.shiftr_shiftr in Hmin by lia.
    by replace (1 + (i - 1)) with i in Hmin by lia.
Qed.

Lemma shiftr_u32 x : is_u32 x -> Z.shiftr x 32 = 0.
Proof. intros H. rewrite Z.shiftr_div_pow2 by lia. by apply Z.div_small. Qed.

(** The level of [u32] arguments always exists and is the least shift that
    identifies them. *)
Lemma leaf_lca_level_least x y :
  is_u32 x -> is_u32 y ->
  exists r, leaf_lca_level x y = Some r /\ 0 <= r <= 32 /\
    Z.shiftr x r = Z.shiftr y r /\
    forall i, 0 <= i < r -> Z.shiftr x i <> Z.shiftr y i.
Proof.
  intros Hx Hy. apply (leaf_lca_level_loop_spec 32 x y 0); [apply Hx|apply Hy|].
  change (Z.of_nat 32) with 32. by rewrite !shiftr_u32.
Qed.

(** ** Subtrees *)

Lemma subtree_node d k j :
  0 <= d < 31 -> in_tree d k j ->
  subtree (node k j) = mk_subtree (j * 2 ^ k) ((j + 1) * 2 ^ k).
Proof.
  intros Hd Ht. pose proof (in_tree_node_bound _ _ _ Ht) as Hb. destruct Ht as [Hk Hj].
  pose proof (pow2_pos k). pose proof (Z.pow_le_mono_r 2 d 30 ltac:(lia) ltac:(lia)) as Hp.
  pose proof (node_lt k j d Hk Hj) as Hlt. rewrite pow2_succ in Hlt by lia.
  pose proof (Z.pow_le_mono_r 2 k d ltac:(lia) ltac:(lia)).
  change (2 ^ 30) with 1073741824 in Hp.
  unfold subtree. rewrite trailing_ones_node, ushl_1 by lia.
  assert (node k j + 1 - 2 ^ k = j * 2 ^ k * 2) as Hl.
  { unfold node. rewrite pow2_succ by lia. lia. }
  assert (node k j + 2 ^ k = (j + 1) * 2 ^ k * 2 - 1) as Hr.
  { unfold node. rewrite pow2_succ by lia. lia. }
  assert (0 <= j * 2 ^ k) by nia.
  rewrite (wrap_small 32 (node k j + 1)) by (split; [lia|]; change (2 ^ 32) with 4294967296; lia).
  rewrite (wrap_small 32 (_ - _)) by (split; [lia|]; change (2 ^ 32) with 4294967296; lia).
  rewrite (wrap_small 32 (_ + _)) by (split; [lia|]; change (2 ^ 32) with 4294967296; lia).
  rewrite Hl, Hr. unfold leaf_from_node_index_unchecked, leaf_next_unchecked.
  rewrite !Z.shiftr_div_pow2 by lia. change (2 ^ 1) with 2.
  rewrite Z.div_mul by lia. f_equal.
  replace ((j + 1) * 2 ^ k * 2 - 1) with (((j + 1) * 2 ^ k - 1) * 2 + 1) by lia.
  rewrite Z.div_add_l by lia. change (1 / 2) with 0.
  rewrite wrap_small; [lia|]. split; [nia|]. change (2 ^ 32) with 4294967296. nia.
Qed.

Lemma subtree_iter_collect_spec fuel l r :
  0 <= l -> r < 2 ^ 32 -> Z.of_nat fuel = r - l ->
  subtree_iter_collect fuel (mk_subtree_iter l r) = seqZ l (r - l).
Proof.
  revert l. induction fuel as [|fuel IH]; intros l Hl Hr Hf; simpl.
  - by replace (r - l) with 0 by lia.
  - unfold subtree_iter_next. simpl. destruct (Z.ltb_spec l r); [|lia].
    rewrite seqZ_cons by lia. f_equal. unfold leaf_next_unchecked.
    rewrite wrap_small by (split; lia). rewrite IH by lia. f_equal; lia.
Qed.

(** ** Breadth-first order *)

Definition bfs_level (d k : Z) : list Z := node k <$> seqZ 0 (2 ^ (d - k)).

(** Levels [k], [k-1], ..., 0, each from left to right. *)
Fixpoint bfs_spec (d : Z) (k : nat) : list Z :=
  bfs_level d (Z.of_nat k) ++ match k with O => [] | S k' => bfs_spec d k' end.

(** All the elements the iterator yields; [2 * num_leaves] calls suffice. *)
Definition bfs_all (num_leaves : Z) : list Z :=
  bfs_collect (Z.to_nat (2 * num_leaves)) (bfs_new num_leaves).

Definition bfs_state (d k c : Z) : BfsIterTopDown :=
  mk_bfs (k + 1) (2 ^ k - 1) (2 ^ (d - k)) c.

Lemma pos_trailing_zeros_pow d : 0 <= d -> trailing_zeros 64 (2 ^ d) = d.
Proof.
  revert d. apply natlike_ind; [done|]. intros d Hd IH.
  rewrite <- Z.add_1_r, pow2_succ by lia. pose proof (pow2_pos d Hd).
  destruct (2 ^ d) as [|p|p]; [lia| |lia].
  change (trailing_zeros 64 (2 * Z.pos p)) with (1 + trailing_zeros 64 (Z.pos p)). lia.
Qed.

Lemma bfs_new_state d : 0 <= d <= 61 -> bfs_new (2 ^ d) = bfs_state d d 0.
Proof.
  intros Hd. unfold bfs_new, bfs_state. rewrite pos_trailing_zeros_pow by lia.
  rewrite ushl_1 by lia. pose proof (Z.pow_lt_mono_r 2 d 64). pose proof (pow2_pos d).
  rewrite !wrap_small by (split; [lia|]; change (2 ^ 64) with 18446744073709551616 in *; lia).
  by rewrite Z.sub_diag.
Qed.

Lemma bfs_emit_state d k c :
  0 <= k <= d -> d <= 61 -> 0 <= c < 2 ^ (d - k) ->
  bfs_emit (bfs_state d k c) = (node k c, bfs_state d k (c + 1)).
Proof.
  intros Hk Hd Hc. unfold bfs_emit, bfs_state. simpl.
  pose proof (Z.pow_le_mono_r 2 (d - k) 61 ltac:(lia) ltac:(lia)) as Hp.
  change (2 ^ 61) with 2305843009213693952 in Hp.
  rewrite (wrap_small 64 (c + 1)) by (split; [lia|]; change (2 ^ 64) with 18446744073709551616; lia).
  f_equal. unfold ushl. rewrite (Z.mod_small (k + 1)) by lia.
  rewrite wrap_small.
  - apply Z.bits_inj'. intros i Hi.
    rewrite Z.lor_spec, Z.shiftl_spec, node_testbit by lia.
    replace (2 ^ k - 1) with (Z.ones k) by (rewrite Z.ones_equiv; lia).
    rewrite testbit_ones by lia. replace (i - (k + 1)) with (i - k - 1) by lia.
    case_bits; by rewrite Z.testbit_neg_r by lia.
  - rewrite Z.shiftl_mul_pow2 by lia. pose proof (pow2_pos (k + 1)). split; [nia|].
    apply Z.lt_le_trans with (2 ^ (d - k) * 2 ^ (k + 1)); [nia|].
    rewrite <- Z.pow_add_r by lia. apply Z.pow_le_mono_r; lia.
Qed.

Lemma bfs_next_state d k c :
  0 <= k <= d -> d <= 61 -> 0 <= c <= 2 ^ (d - k) ->
  bfs_next (bfs_state d k c) =
    if c =? 2 ^ (d - k) then
      if k =? 0 then None else Some (node (k - 1) 0, bfs_state d (k - 1) 1)
    else Some (node k c, bfs_state d k (c + 1)).
Proof.
  intros Hk Hd Hc. unfold bfs_next. simpl.
  destruct (Z.eqb_spec c (2 ^ (d - k))) as [->|Hne].
  2:{ by rewrite bfs_emit_state by lia. }
  destruct (Z.eqb_spec (k + 1) 1), (Z.eqb_spec k 0); try lia; [done|].
  assert (0 < 2 ^ (d - (k - 1))) by (apply pow2_pos; lia).
  transitivity (Some (bfs_emit (bfs_state d (k - 1) 0))); [|by rewrite bfs_emit_state by lia].
  do 2 f_equal. unfold bfs_state.
  pose proof (Z.pow_le_mono_r 2 (d - k) 61 ltac:(lia) ltac:(lia)) as Hp.
  pose proof (pow2_pos (d - k)).
  change (2 ^ 61) with 2305843009213693952 in Hp.
  f_equal.
  - rewrite wrap_small by (split; [lia|]; change (2 ^ 64) with 18446744073709551616; lia). lia.
  - rewrite Z.shiftr_div_pow2 by lia. change (2 ^ 1) with 2.
    replace k with ((k - 1) + 1) at 1 by lia. rewrite pow2_succ by lia.
    replace (2 * 2 ^ (k - 1) - 1) with ((2 ^ (k - 1) - 1) * 2 + 1) by lia.
    rewrite Z.div_add_l by lia. change (1 / 2) with 0. lia.
  - rewrite (wrap_small 64 (_ - 1)) by (split; [lia|]; change (2 ^ 64) with 18446744073709551616; lia).
    unfold ushl. change (1 `mod` 64) with 1. rewrite Z.shiftl_mul_pow2 by lia. change (2 ^ 1) with 2.
    rewrite (wrap_small 64 (_ * 2)) by (split; [lia|]; change (2 ^ 64) with 18446744073709551616; lia).
    assert (Z.lor ((2 ^ (d - k) - 1) * 2) 1 = 2 * (2 ^ (d - k) - 1) + 1) as ->.
    { apply Z.bits_inj'. intros i Hi. rewrite Z.lor_spec, testbit_succ_double by lia.
      rewrite Z.mul_comm, testbit_double by lia.
      rewrite (testbit_pow2 0 i (Z.le_refl 0) : Z.testbit 1 i = _). case_bits. }
    rewrite wrap_small by (split; [lia|]; change (2 ^ 64) with 18446744073709551616; lia).
    replace (d - (k - 1)) with ((d - k) + 1) by lia. rewrite pow2_succ by lia. lia.
Qed.

Lemma bfs_level_length d k : 0 <= k <= d -> Z.of_nat (length (bfs_level d k)) = 2 ^ (d - k).
Proof. intros H. unfold bfs_level. rewrite length_fmap, length_seqZ. pose proof (pow2_pos (d - k)). lia. Qed.

(** The elements still to come from position [c] of level [k]. *)
Definition bfs_from (d : Z) (k : nat) (c : Z) : list Z :=
  (node (Z.of_nat k) <$> seqZ c (2 ^ (d - Z.of_nat k) - c))
    ++ match k with O => [] | S k' => bfs_spec d k' end.

Lemma bfs_from_emit d k c :
  0 <= c < 2 ^ (d - Z.of_nat k) -> bfs_from d k c = node (Z.of_nat k) c :: bfs_from d k (c + 1).
Proof.
  intros Hc. unfold bfs_from. rewrite seqZ_cons by lia. csimpl. do 3 f_equal.
  f_equal; lia.
Qed.

Lemma bfs_from_next d k :
  0 <= Z.of_nat (S k) <= d -> bfs_from d (S k) (2 ^ (d - Z.of_nat (S k))) = bfs_from d k 0.
Proof.
  intros Hk. unfold bfs_from at 1. rewrite Z.sub_diag. csimpl.
  unfold bfs_from. rewrite Z.sub_0_r. by destruct k.
Qed.

Lemma bfs_collect_from fuel d (k : nat) c :
  Z.of_nat k <= d -> d <= 61 -> 0 <= c <= 2 ^ (d - Z.of_nat k) ->
  Z.of_nat (length (bfs_from d k c)) <= Z.of_nat fuel ->
  bfs_collect fuel (bfs_state d (Z.of_nat k) c) = bfs_from d k c.
Proof.
  revert k c. induction fuel as [|fuel IH]; intros k c Hk Hd Hc Hf.
  { symmetry. apply nil_length_inv. lia. }
  simpl. rewrite bfs_next_state by lia.
  destruct (Z.eqb_spec c (2 ^ (d - Z.of_nat k))) as [->|Hne].
  - destruct k as [|k].
    { simpl. unfold bfs_from. by rewrite Z.sub_diag. }
    destruct (Z.eqb_spec (Z.of_nat (S k)) 0); [lia|].
    assert (0 < 2 ^ (d - Z.of_nat k)) by (apply pow2_pos; lia).
    rewrite bfs_from_next in Hf |- * by lia.
    rewrite bfs_from_emit in Hf |- * by lia. simpl in Hf.
    replace (Z.of_nat (S k) - 1) with (Z.of_nat k) by lia.
    f_equal. apply IH; lia.
  - rewrite bfs_from_emit in Hf |- * by lia. simpl in Hf. f_equal. apply IH; lia.
Qed.

Lemma bfs_spec_length d k :
  Z.of_nat k <= d -> Z.of_nat (length (bfs_spec d k)) = 2 ^ (d + 1) - 2 ^ (d - Z.of_nat k).
Proof.
  induction k as [|k IH]; intros Hk; cbn [bfs_spec]; rewrite length_app, Nat2Z.inj_add.
  - rewrite bfs_level_length by lia. simpl.
    rewrite !Z.sub_0_r, pow2_succ by lia. lia.
  - rewrite IH by lia. rewrite bfs_level_length by lia.
    replace (d - Z.of_nat k) with ((d - Z.of_nat (S k)) + 1) by lia.
    rewrite (pow2_succ (d - Z.of_nat (S k))) by lia. lia.
Qed.

Lemma bfs_all_spec d : 0 <= d <= 61 -> bfs_all (2 ^ d) = bfs_spec d (Z.to_nat d).
Proof.
  intros Hd. unfold bfs_all. rewrite bfs_new_state by lia.
  replace d with (Z.of_nat (Z.to_nat d)) at 3 by lia.
  assert (bfs_from d (Z.to_nat d) 0 = bfs_spec d (Z.to_nat d)) as Heq.
  { unfold bfs_from. rewrite Z.sub_0_r. by destruct (Z.to_nat d). }
  rewrite bfs_collect_from; [done|lia..| |].
  - pose proof (pow2_pos (d - Z.of_nat (Z.to_nat d))). lia.
  - rewrite Heq, bfs_spec_length, pow2_succ by lia.
    pose proof (pow2_pos (d - Z.of_nat (Z.to_nat d))). pose proof (pow2_pos d). lia.
Qed.

Lemma elem_of_bfs_spec d k x :
  x ∈ bfs_spec d k <-> exists l j, 0 <= l <= Z.of_nat k /\ 0 <= j < 2 ^ (d - l) /\ x = node l j.
Proof.
  induction k as [|k IH]; cbn [bfs_spec].
  - rewrite app_nil_r. unfold bfs_level. rewrite list_elem_of_fmap. setoid_rewrite elem_of_seqZ.
    change (Z.of_nat 0) with 0. split.
    + intros (j & -> & Hj). exists 0, j. lia.
    + intros (l & j & Hl & Hj & ->). replace l with 0 in * by lia. exists j. lia.
  - rewrite elem_of_app, IH. unfold bfs_level. rewrite list_elem_of_fmap.
    setoid_rewrite elem_of_seqZ. split.
    + intros [(j & -> & Hj)|(l & j & Hl & Hj & ->)];
        [exists (Z.of_nat (S k)), j|exists l, j]; lia.
    + intros (l & j & Hl & Hj & ->). destruct (Z.eq_dec l (Z.of_nat (S k))) as [->|].
      * left. exists j. split; [done|lia].
      * right. exists l, j. lia.
Qed.

Lemma NoDup_bfs_spec d k : NoDup (bfs_spec d k).
Proof.
  assert (forall l, 0 <= l -> NoDup (bfs_level d l)) as Hlev.
  { intros l Hl. unfold bfs_level. apply NoDup_fmap_2_strong; [|apply NoDup_seqZ].
    intros x y Hx%elem_of_seqZ Hy%elem_of_seqZ He. apply node_inj in He; lia. }
  induction k as [|k IH]; cbn [bfs_spec].
  - rewrite app_nil_r. apply Hlev. lia.
  - apply NoDup_app. split; [apply Hlev; lia|]. split; [|done].
    intros x Hx Hx'. unfold bfs_level in Hx. apply list_elem_of_fmap in Hx as (j & -> & Hj%elem_of_seqZ).
    apply elem_of_bfs_spec in Hx' as (l & j' & Hl & Hj' & He).
    apply node_inj in He; lia.
Qed.

(** A node of a higher level comes first. *)
Lemma bfs_spec_order d n k j k' j' l1 l2 :
  0 <= k -> 0 <= j -> k < k' <= Z.of_nat n -> 0 <= j' < 2 ^ (d - k') ->
  bfs_spec d n = l1 ++ node k j :: l2 -> node k' j' ∈ l1.
Proof.
  intros Hk Hj. revert l1. induction n as [|n IH]; intros l1 Hk' Hj' Heq; [lia|].
  cbn [bfs_spec] in Heq.
  assert (node k j ∉ bfs_level d (Z.of_nat (S n))) as Hnot.
  { unfold bfs_level. intros (i & He & Hi%elem_of_seqZ)%list_elem_of_fmap.
    apply node_inj in He; lia. }
  assert (exists l1', l1 = bfs_level d (Z.of_nat (S n)) ++ l1') as [l1' ->].
  { apply app_eq_inv in Heq as [(l & Hl & He)|(l & -> & _)]; [|by exists l].
    destruct l as [|y l]; [rewrite app_nil_r in Hl; rewrite Hl; exists []; by rewrite app_nil_r|].
    simpl in He. injection He as <- He. exfalso. apply Hnot. rewrite Hl. set_solver. }
  rewrite <- app_assoc in Heq. apply app_inv_head in Heq. apply elem_of_app.
  destruct (Z.eq_dec k' (Z.of_nat (S n))) as [->|].
  - left. unfold bfs_level. apply list_elem_of_fmap. exists j'. split; [done|].
    apply elem_of_seqZ. lia.
  - right. apply IH; [lia|done|done].
Qed.

(** ** Properties *)

Lemma node_children k j :
  0 < k -> node (k - 1) (2 * j) = node k j - 2 ^ (k - 1) /\
           node (k - 1) (2 * j + 1) = node k j + 2 ^ (k - 1).
Proof.
  intros Hk. assert (node k j = 2 * node (k - 1) j + 1) as ->.
  { rewrite <- node_succ by lia. f_equal. lia. }
  unfold node. rewrite pow2_succ by lia. lia.
Qed.

Section navigation.
Context (w d : Z) (Hw : 0 < w <= 64) (Hd : 0 <= d < w).

Lemma children_parent k j :
  in_tree d k j -> 0 < k ->
  parent_sibling w (left_unchecked w (node k j)) (2 ^ d)
    = Some (mk_parent_sibling (node k j) (right_unchecked w (node k j))) /\
  parent_sibling w (right_unchecked w (node k j)) (2 ^ d)
    = Some (mk_parent_sibling (node k j) (left_unchecked w (node k j))).
Proof using Hw Hd.
  intros Ht Hk. destruct (Ht) as [Hkd Hj].
  rewrite left_unchecked_node, right_unchecked_node by lia.
  pose proof (in_tree_child d k j 0 Ht Hk ltac:(lia)) as Hl. rewrite Z.add_0_r in Hl.
  pose proof (in_tree_child d k j 1 Ht Hk ltac:(lia)) as Hr.
  rewrite !parent_sibling_node by (done || lia).
  destruct (Z.eqb_spec (k - 1) d); [lia|].
  replace (k - 1 + 1) with k by lia. rewrite !shiftr1_lxor by lia.
  rewrite !Z.shiftr_div_pow2 by lia. change (2 ^ 1) with 2.
  rewrite Z.testbit_even_0, Z.testbit_odd_0.
  replace (2 * j / 2) with j by (rewrite Z.mul_comm, Z.div_mul; lia).
  replace ((2 * j + 1) / 2) with j
    by (rewrite Z.mul_comm, Z.div_add_l by lia; change (1 / 2) with 0; lia).
  done.
Qed.
End navigation.

Lemma node_label k j : 0 <= k -> node k j = 2 ^ k * (2 * j + 1) - 1.
Proof. intros Hk. unfold node. rewrite pow2_succ by lia. ring. Qed.

Lemma lxor_1_even j : 0 <= j -> Z.lxor j 1 = if Z.even j then j + 1 else j - 1.
Proof. by destruct j as [|[p|p|]|p]. Qed.

(** C36: navigation in the array.  The tree of [2^d] leaves has levels 0 (the
    leaves) to [d] (the root); its node at level [k] and position [j] there,
    from the left, is stored at the index [2^k * (2j + 1) - 1].  Every index of
    the array is the index of exactly one node, and for that node [left] and
    [right] are the nodes of the level below at the positions [2j] and [2j + 1],
    and fail on leaves; the parent is the node of the level above at position
    [j / 2] and the sibling that of the same level at the other position under
    it, and only the root has none.  Nothing overflows the word of [w] bits. *)
Theorem tree_navigation w d x (Hw : 0 < w <= 64) (Hd : 0 <= d < w) (Hx : 0 <= x <= 2 * (2 ^ d - 1)) :
  let at_level k j := 2 ^ k * (2 * j + 1) - 1 in
  exists k j, 0 <= k <= d /\ 0 <= j < 2 ^ (d - k) /\ x = at_level k j /\
    (forall k' j', 0 <= k' -> 0 <= j' -> x = at_level k' j' -> k' = k /\ j' = j) /\
    left w x = (if k =? 0 then None else Some (at_level (k - 1) (2 * j))) /\
    right w x = (if k =? 0 then None else Some (at_level (k - 1) (2 * j + 1))) /\
    parent_sibling w x (2 ^ d) =
      (if k =? d then None
       else Some (mk_parent_sibling (at_level (k + 1) (j / 2)) (at_level k (if Z.even j then j + 1 else j - 1)))) /\
    root w (2 ^ d) = at_level d 0 /\ (x = root w (2 ^ d) <-> k = d).
Proof.
  intros at_level. destruct (in_tree_decompose d x) as (k & j & Ht & ->); [lia..|]. pose proof Ht as [Hk Hj].
  exists k, j. unfold at_level. split; [done|]. split; [done|]. split; [apply node_label; lia|].
  split; [intros k' j' Hk' Hj'; rewrite <- node_label by done; intros E; apply node_inj in E; lia|].
  rewrite root_pow2, parent_sibling_node by (done || lia). unfold left, right. rewrite is_leaf_node with (w := w) by lia.
  rewrite <- lxor_1_even by lia.
  rewrite (Z.shiftr_div_pow2 j 1) by lia. change (2 ^ 1) with 2.
  split_and!.
  - destruct (Z.eqb_spec k 0); [done|]. cbn [negb]. by rewrite left_unchecked_node, node_label by lia.
  - destruct (Z.eqb_spec k 0); [done|]. cbn [negb]. by rewrite right_unchecked_node, node_label by lia.
  - destruct (Z.eqb_spec k d); [done|]. by rewrite !node_label by lia.
  - apply node_label. lia.
  - split; [intros E%node_inj; lia|]. intros ->. rewrite Z.sub_diag in Hj. change (2 ^ 0) with 1 in Hj. f_equal. lia.
Qed.

(** The node 11 of a tree of eight leaves. *)
Lemma tree_navigation_witness :
  left 32 11 = Some 9 /\ right 32 11 = Some 13 /\ parent_sibling 32 11 8 = Some (mk_parent_sibling 7 3).
Proof.
  destruct (tree_navigation 32 3 11) as (k & j & Hk & Hj & Hx & Hu & Hl & Hr & Hp & _); [lia|lia|simpl; lia|].
  destruct (Hu 2 1) as [<- <-]; [lia|lia|reflexivity|]. split; [exact Hl|]. split; [exact Hr|exact Hp].
Defined.

(** C35: [direct_copath] of an index of the array terminates at the root
    within its fuel and lists, from the bottom up, each ancestor together with
    the child of that ancestor that is off the path; the length is the
    distance to the root.  Outside the array the result is empty. *)
Theorem direct_copath_correct w d x :
  0 < w <= 64 -> 0 <= d < w -> 0 <= x ->
  (2 * (2 ^ d - 1) < x -> direct_copath w x (2 ^ d) = []) /\
  (x <= 2 * (2 ^ d - 1) -> exists k j,
     in_tree d k j /\ x = node k j /\
     length (direct_copath w x (2 ^ d)) = Z.to_nat (d - k) /\
     (forall i : nat, Z.of_nat i < d - k ->
        direct_copath w x (2 ^ d) !! i =
          Some (mk_copath_node (node (k + Z.of_nat i + 1) (Z.shiftr j (Z.of_nat i + 1)))
                               (node (k + Z.of_nat i) (Z.lxor (Z.shiftr j (Z.of_nat i)) 1)))) /\
     (x <> root w (2 ^ d) ->
        path <$> last (direct_copath w x (2 ^ d)) = Some (root w (2 ^ d))) /\
     (forall fuel, (Z.to_nat (d - k) <= fuel)%nat ->
        direct_copath_loop w fuel x (2 ^ d) = direct_copath w x (2 ^ d))).
Proof.
  intros Hw Hd Hx. split; [by apply direct_copath_out|]. intros Hle.
  destruct (in_tree_decompose d x) as (k & j & Ht & ->); [lia..|].
  exists k, j. destruct (Ht) as [Hk Hj].
  rewrite direct_copath_node by (done || lia).
  split; [done|]. split; [done|]. split; [apply length_copath_spec|].
  split; [intros i; apply lookup_copath_spec|]. split.
  - rewrite root_pow2 by lia. intros Hne.
    assert (k <> d) as Hkd.
    { intros ->. apply Hne. f_equal. rewrite Z.sub_diag in Hj. change (2 ^ 0) with 1 in Hj. lia. }
    rewrite last_lookup, length_copath_spec, lookup_copath_spec by lia. simpl. f_equal.
    replace (k + Z.of_nat (Init.Nat.pred (Z.to_nat (d - k))) + 1) with d by lia.
    replace (Z.of_nat (Init.Nat.pred (Z.to_nat (d - k))) + 1) with (d - k) by lia.
    f_equal. rewrite Z.shiftr_div_pow2 by lia. apply Z.div_small. lia.
  - intros fuel Hf. apply direct_copath_loop_spec; (done || lia).
Qed.

Lemma direct_copath_correct_witness :
  direct_copath 32 4 8 = [mk_copath_node 5 6; mk_copath_node 3 1; mk_copath_node 7 11] /\
  path <$> last (direct_copath 32 4 8) = Some (root 32 8).
Proof.
  split; [reflexivity|].
  destruct (proj2 (direct_copath_correct 32 3 4 ltac:(lia) ltac:(lia) ltac:(lia))
              ltac:(simpl; lia)) as (k & j & _ & _ & _ & _ & Hlast & _).
  apply Hlast. vm_compute. discriminate.
Defined.

Lemma shiftr_double z i : 0 <= z -> 0 <= i -> Z.shiftr (2 * z) (i + 1) = Z.shiftr z i.
Proof.
  intros Hz Hi. rewrite (Z.add_comm i 1), <- Z.shiftr_shiftr by lia. f_equal.
  rewrite Z.shiftr_div_pow2 by lia. change (2 ^ 1) with 2. rewrite Z.mul_comm. by apply Z.div_mul.
Qed.

(** Two distinct positions with the same parent are siblings. *)
Lemma lxor_sibling x y :
  0 <= x -> Z.shiftr x 1 = Z.shiftr y 1 -> x <> y -> Z.lxor x 1 = y.
Proof.
  intros Hx He Hne. rewrite shiftr1_lxor by done.
  pose proof (Z.div_mod x 2 ltac:(lia)) as Hdx. pose proof (Z.div_mod y 2 ltac:(lia)) as Hdy.
  rewrite Zmod_odd, <- Z.bit0_odd in Hdx, Hdy.
  rewrite !(Z.shiftr_div_pow2 _ 1) in * by lia. change (2 ^ 1) with 2 in *.
  destruct (Z.testbit x 0), (Z.testbit y 0); lia.
Qed.

Lemma in_tree_leaf d a : 0 <= d -> 0 <= a < 2 ^ d -> in_tree d 0 a.
Proof. intros Hd Ha. split; [lia|]. by rewrite Z.sub_0_r. Qed.

Lemma in_tree_ancestor d a m :
  0 <= m <= d -> 0 <= a < 2 ^ d -> in_tree d m (Z.shiftr a m).
Proof.
  intros Hm Ha. split; [lia|]. apply shiftr_bound; [lia..|].
  replace (m + (d - m)) with d by lia. lia.
Qed.

(** The path and copath of leaf [a] at position [i]. *)
Lemma direct_copath_leaf d a (i : nat) :
  0 <= d < 32 -> 0 <= a < 2 ^ d -> Z.of_nat i < d ->
  direct_copath 32 (2 * a) (2 ^ d) !! i =
    Some (mk_copath_node (node (Z.of_nat i + 1) (Z.shiftr a (Z.of_nat i + 1)))
                         (node (Z.of_nat i) (Z.lxor (Z.shiftr a (Z.of_nat i)) 1))).
Proof.
  intros Hd Ha Hi. rewrite <- node_0, direct_copath_node by (try lia; apply in_tree_leaf; lia).
  rewrite lookup_copath_spec by lia. done.
Qed.

(** The level of two distinct leaves, in terms of leaf positions. *)
Lemma leaf_lca_level_leaves d a b :
  0 <= d < 31 -> 0 <= a < 2 ^ d -> 0 <= b < 2 ^ d -> a <> b ->
  exists m, leaf_lca_level (2 * a) (2 * b) = Some (m + 2) /\ 0 <= m < d /\
    Z.shiftr a (m + 1) = Z.shiftr b (m + 1) /\
    forall i, 0 <= i <= m -> Z.shiftr a i <> Z.shiftr b i.
Proof.
  intros Hd Ha Hb Hab. pose proof (Z.pow_le_mono_r 2 d 30 ltac:(lia) ltac:(lia)) as Hp.
  change (2 ^ 30) with 1073741824 in Hp.
  destruct (leaf_lca_level_least (2 * a) (2 * b)) as (r & Hr & Hrb & Heq & Hmin).
  { split; [lia|]. change (2 ^ 32) with 4294967296. lia. }
  { split; [lia|]. change (2 ^ 32) with 4294967296. lia. }
  assert (r <> 0). { intros ->. rewrite !Z.shiftr_0_r in Heq. lia. }
  assert (r <> 1).
  { intros ->. change 1 with (0 + 1) in Heq.
    rewrite !shiftr_double, !Z.shiftr_0_r in Heq by lia. done. }
  assert (r <= d + 1).
  { destruct (Z.le_gt_cases r (d + 1)); [done|]. exfalso. apply (Hmin (d + 1)); [lia|].
    rewrite !shiftr_double by lia. rewrite !Z.shiftr_div_pow2, !Z.div_small by lia. done. }
  exists (r - 2). split; [rewrite Hr; f_equal; lia|]. split; [lia|]. split.
  - rewrite <- (shiftr_double a), <- (shiftr_double b) by lia.
    by replace (r - 2 + 1 + 1) with r by lia.
  - intros i Hi. rewrite <- (shiftr_double a), <- (shiftr_double b) by lia. apply Hmin. lia.
Qed.

(** For distinct leaves [a] and [b], [leaf_lca_level] of their node
    indices returns a level [k] in range such that position [k - 2] of their
    direct paths is the lowest common ancestor: the paths agree there and
    above and differ below, and the copath node of [a] at that position
    covers [b]. *)
Theorem leaf_lca_level_correct d a b :
  0 <= d < 31 -> 0 <= a < 2 ^ d -> 0 <= b < 2 ^ d -> a <> b ->
  exists k, leaf_lca_level (2 * a) (2 * b) = Some k /\ 2 <= k <= d + 1 /\
    (forall i : nat, Z.of_nat i < d ->
       (path <$> direct_copath 32 (2 * a) (2 ^ d) !! i
          = path <$> direct_copath 32 (2 * b) (2 ^ d) !! i) <-> k - 2 <= Z.of_nat i) /\
    (exists c, direct_copath 32 (2 * a) (2 ^ d) !! Z.to_nat (k - 2) = Some c /\
       st_left (subtree (copath c)) <= b < st_right (subtree (copath c))).
Proof.
  intros Hd Ha Hb Hab.
  destruct (leaf_lca_level_leaves d a b) as (m & Hm & Hmd & Heq & Hmin); [done..|].
  exists (m + 2). split; [done|]. split; [lia|]. replace (m + 2 - 2) with m by lia. split.
  - intros i Hi. rewrite !direct_copath_leaf by lia. simpl. split.
    + intros [= He]. destruct (Z.le_gt_cases m (Z.of_nat i)); [done|]. exfalso.
      apply node_inj in He as [_ He]; try lia; try (apply Z.shiftr_nonneg; lia).
      apply (Hmin (Z.of_nat i + 1)); [lia|done].
    + intros Hge. do 2 f_equal.
      replace (Z.of_nat i + 1) with ((m + 1) + (Z.of_nat i - m)) by lia.
      rewrite <- (Z.shiftr_shiftr a), <- (Z.shiftr_shiftr b) by lia. by rewrite Heq.
  - rewrite direct_copath_leaf by lia. eexists; split; [done|].
    cbn [copath]. rewrite Z2Nat.id by lia.
    rewrite (lxor_sibling _ (Z.shiftr b m)).
    + rewrite (subtree_node d) by (try lia; apply in_tree_ancestor; lia).
      cbn [st_left st_right]. rewrite Z.shiftr_div_pow2 by lia. pose proof (pow2_pos m).
      pose proof (Z.div_mod b (2 ^ m) ltac:(lia)).
      pose proof (Z.mod_pos_bound b (2 ^ m) ltac:(lia)). nia.
    + apply Z.shiftr_nonneg. lia.
    + by rewrite !Z.shiftr_shiftr by lia.
    + apply Hmin. lia.
Qed.

Lemma leaf_lca_level_correct_witness :
  leaf_lca_level 2 6 = Some 3 /\
  exists k, leaf_lca_level (2 * 1) (2 * 3) = Some k /\ 2 <= k <= 3 + 1.
Proof.
  split; [reflexivity|].
  destruct (leaf_lca_level_correct 3 1 3 ltac:(lia) ltac:(simpl; lia) ltac:(simpl; lia)
              ltac:(lia)) as (k & Hk & Hb & _).
  exists k. split; [exact Hk|exact Hb].
Defined.

(** The leaves enumerated by [subtree(x)] are exactly, in increasing
    order, the leaves of the tree that are [x] itself or have [x] on their
    direct path. *)
Theorem subtree_leaves_correct d x :
  0 <= d < 31 -> 0 <= x <= 2 * (2 ^ d - 1) ->
  (exists l n, subtree_leaves x = seqZ l n) /\
  forall a, a ∈ subtree_leaves x <->
    0 <= a < 2 ^ d /\ (2 * a = x \/ x ∈ path <$> direct_copath 32 (2 * a) (2 ^ d)).
Proof.
  intros Hd Hx. destruct (in_tree_decompose d x) as (k & j & Ht & ->); [lia..|].
  destruct (Ht) as [Hk Hj]. pose proof (pow2_pos k).
  assert (2 ^ (d - k) * 2 ^ k = 2 ^ d) as Hpow.
  { rewrite <- Z.pow_add_r by lia. f_equal. lia. }
  pose proof (Z.pow_le_mono_r 2 d 30 ltac:(lia) ltac:(lia)) as Hp.
  change (2 ^ 30) with 1073741824 in Hp.
  assert (subtree_leaves (node k j) = seqZ (j * 2 ^ k) (2 ^ k)) as Hs.
  { unfold subtree_leaves. rewrite (subtree_node d) by (done || lia).
    cbn [st_left st_right]. unfold subtree_into_iter. cbn [st_left st_right].
    rewrite subtree_iter_collect_spec; [f_equal; lia|nia| |nia].
    change (2 ^ 32) with 4294967296. nia. }
  split; [by eexists _, _|]. intros a. rewrite Hs, elem_of_seqZ.
  assert (j * 2 ^ k <= a < j * 2 ^ k + 2 ^ k <-> 0 <= a /\ Z.shiftr a k = j) as ->.
  { rewrite Z.shiftr_div_pow2 by lia. pose proof (Z.div_mod a (2 ^ k) ltac:(lia)).
    pose proof (Z.mod_pos_bound a (2 ^ k) ltac:(lia)). split; [|nia].
    intros Ha. split; [nia|]. symmetry. apply Z.div_unique with (a - j * 2 ^ k); lia. }
  split.
  - intros [Ha <-]. assert (a < 2 ^ d).
    { rewrite Z.shiftr_div_pow2 in Hj by lia. pose proof (Z.div_mod a (2 ^ k) ltac:(lia)).
      pose proof (Z.mod_pos_bound a (2 ^ k) ltac:(lia)). nia. }
    split; [lia|]. destruct (Z.eq_dec k 0) as [->|Hk0].
    { left. rewrite Z.shiftr_0_r. by rewrite node_0. }
    right. rewrite <- node_0, direct_copath_node by (try lia; apply in_tree_leaf; lia).
    apply list_elem_of_fmap. eexists. split; [|apply elem_of_copath_spec; exists (k - 1); split; [lia|done]].
    simpl. f_equal; [lia|]. f_equal. lia.
  - intros [Ha [Hself|Hpath]]; (split; [lia|]).
    + rewrite <- node_0 in Hself. apply node_inj in Hself as [<- <-]; try lia. by rewrite Z.shiftr_0_r.
    + rewrite <- node_0, direct_copath_node in Hpath by (try lia; apply in_tree_leaf; lia).
      apply list_elem_of_fmap in Hpath as (c & Hc & (i & Hi & ->)%elem_of_copath_spec).
      simpl in Hc. apply node_inj in Hc as [-> ->]; try lia; try done.
      apply Z.shiftr_nonneg. lia.
Qed.

Lemma subtree_leaves_correct_witness :
  subtree_leaves 5 = [2; 3] /\
  (3 ∈ subtree_leaves 5 <->
     0 <= 3 < 2 ^ 3 /\ (2 * 3 = 5 \/ 5 ∈ path <$> direct_copath 32 (2 * 3) (2 ^ 3))).
Proof.
  split; [reflexivity|]. apply (subtree_leaves_correct 3 5); simpl; lia.
Defined.

(** The breadth-first iterator over a tree of [2^d] leaves stops, visits
    every index of the array exactly once, and visits a node only after its
    parent. *)
Theorem bfs_iter_correct d :
  0 <= d <= 61 ->
  NoDup (bfs_all (2 ^ d)) /\
  (forall x, x ∈ bfs_all (2 ^ d) <-> 0 <= x <= 2 * (2 ^ d - 1)) /\
  (forall l1 x l2 ps, bfs_all (2 ^ d) = l1 ++ x :: l2 ->
     parent_sibling 64 x (2 ^ d) = Some ps -> parent ps ∈ l1).
Proof.
  intros Hd. rewrite bfs_all_spec by done. split; [apply NoDup_bfs_spec|].
  assert (forall x, x ∈ bfs_spec d (Z.to_nat d) <-> 0 <= x <= 2 * (2 ^ d - 1)) as Hel.
  { intros x. rewrite elem_of_bfs_spec, Z2Nat.id by lia. split.
    - intros (l & j & Hl & Hj & ->). by apply in_tree_node_bound.
    - intros (l & j & [Hl Hj] & ->)%in_tree_decompose; [|lia]. by exists l, j. }
  split; [done|]. intros l1 x l2 ps Heq Hps.
  assert (x ∈ bfs_spec d (Z.to_nat d)) as Hx by (rewrite Heq; set_solver).
  apply Hel in Hx. apply in_tree_decompose in Hx as (k & j & Ht & ->); [|lia].
  rewrite parent_sibling_node in Hps by (done || lia).
  destruct (Z.eqb_spec k d); [done|]. injection Hps as <-. cbn [parent].
  assert (in_tree d (k + 1) (Z.shiftr j 1)) as [Hk' Hj'].
  { apply in_tree_parent; [done|]. destruct Ht as [? _]. lia. }
  destruct Ht as [Hk Hj].
  by apply (bfs_spec_order d (Z.to_nat d) k j (k + 1) (Z.shiftr j 1) l1 l2); try lia.
Qed.

Lemma bfs_iter_correct_witness :
  bfs_all 8 = [7; 3; 11; 1; 5; 9; 13; 0; 2; 4; 6; 8; 10; 12; 14] /\ NoDup (bfs_all (2 ^ 3)).
Proof. split; [reflexivity|]. apply (bfs_iter_correct 3). lia. Defined.
