(* ===== verification/Codec.v ===== *)
(** * The MLS wire codec (mls-rs-codec)

    Models the crate [mls-rs-codec]: variable-size integers, fixed-width
    integers, byte arrays, byte vectors, vectors, options, booleans, tuples,
    strings and maps, and the shape of the code that the derive macros of
    [mls-rs-codec-derive] generate for structs and enums.

    A type that implements [MlsSize], [MlsEncode] and [MlsDecode] is a value
    of [codec A].  [mls_encode x writer] returns the extended writer and
    [mls_decode reader] the value with the rest of the input, as the source
    does through its [&mut] arguments.  [CodecOk c wf] is the interface the
    codec promises to its clients: encoding appends, the announced length is
    the real one, decoding inverts encoding and never panics; [CodecCanonical]
    adds that decoding accepts only what encoding produces. *)

From S2P Require Import Prelude.

#[local] Set Default Goal Selector "!".
Local Open Scope Z_scope.

(** ** Data *)

Inductive codec_error :=
| VarIntOutOfRange
| InvalidVarIntPrefix (prefix : Z)
| VarIntMinimumLengthEncoding
| UnexpectedEOF
| OptionOutOfRange (n : Z)
| UnsupportedEnumDiscriminant
| Utf8
| Custom (n : Z).

#[export] Instance codec_error_eq_dec : EqDecision codec_error.
Proof. solve_decision. Defined.

Notation cres := (res codec_error).

Record codec (A : Type) := mk_codec {
  mls_encoded_len : A -> Z;
  mls_encode : A -> bytes -> cres bytes;
  mls_decode : bytes -> cres (A * bytes);
}.
Arguments mk_codec {_} & _ _ _.
Arguments mls_encoded_len {_} _ _.
Arguments mls_encode {_} _ _ _.
Arguments mls_decode {_} _ _.

Definition mls_encode_to_vec {A} (c : codec A) (x : A) : cres bytes := mls_encode c x [].

(** ** Fixed-width integers and arrays *)

Fixpoint to_be_bytes (n : nat) (x : Z) : bytes :=
  match n with
  | O => []
  | S n => to_be_bytes n (Z.shiftr x 8) ++ [Z.land x 255]
  end.

Definition from_be_bytes (bs : bytes) : Z :=
  foldl (fun acc b => Z.lor (Z.shiftl acc 8) b) 0 bs.

Definition array_codec (N : nat) : codec bytes := mk_codec
  (fun _ => Z.of_nat N)
  (fun x writer => Ok (writer ++ x))
  (fun reader =>
     if (N <=? length reader)%nat then Ok (take N reader, drop N reader)
     else Err UnexpectedEOF).

(** [impl_stdint!] for an integer of [n] bytes. *)
Definition uint_codec (n : nat) : codec Z := mk_codec
  (fun _ => Z.of_nat n)
  (fun x writer => Ok (writer ++ to_be_bytes n x))
  (fun reader =>
     '(bs, rest) ← mls_decode (array_codec n) reader;
     Ok (from_be_bytes bs, rest)).

Notation u8_codec := (uint_codec 1).
Notation u16_codec := (uint_codec 2).
Notation u32_codec := (uint_codec 4).
Notation u64_codec := (uint_codec 8).

Definition bool_codec : codec bool := mk_codec
  (fun _ => 1)
  (fun b writer => Ok (writer ++ [if b then 1 else 0]))
  (fun reader =>
     '(i, rest) ← mls_decode u8_codec reader;
     Ok (negb (i =? 0), rest)).

(** ** Variable-size integers *)

Definition varint_max : Z := Z.shiftl 1 30 - 1.

(** [u32::leading_zeros]. *)
Definition leading_zeros (n : Z) : Z := if n =? 0 then 32 else 31 - Z.log2 n.

Inductive LengthEncoding := One | Two | Four.

Definition length_encoding_value (l : LengthEncoding) : Z :=
  match l with One => 1 | Two => 2 | Four => 4 end.

Definition count_bytes_to_encode_int (n : Z) : cres LengthEncoding :=
  let used_bits := 32 - leading_zeros n in
  if used_bits <=? 6 then Ok One
  else if used_bits <=? 14 then Ok Two
  else if used_bits <=? 30 then Ok Four
  else Panic.

(** [TryFrom<u32> for VarInt] and [TryFrom<usize> for VarInt]. *)
Definition varint_try_from_u32 (n : Z) : cres Z :=
  if n <=? varint_max then Ok n else Err VarIntOutOfRange.

Definition varint_try_from_usize (n : Z) : cres Z :=
  if n <? 2 ^ 32 then varint_try_from_u32 n else Err VarIntOutOfRange.

Definition varint_encoded_len (n : Z) : Z :=
  match count_bytes_to_encode_int n with
  | Ok l => length_encoding_value l
  | _ => 0
  end.

Definition varint_encode (n : Z) (writer : bytes) : cres bytes :=
  let bs := to_be_bytes 4 n in
  l ← count_bytes_to_encode_int n;
  match l with
  | One => Ok (writer ++ drop 3 bs)
  | Two => Ok (writer ++ drop 2 (alter (fun b => Z.lor b 64) 2%nat bs))
  | Four => Ok (writer ++ alter (fun b => Z.lor b 128) 0%nat bs)
  end.

(** The [try_fold] over the [i] bytes after the first. *)
Fixpoint varint_fold (i : nat) (n : Z) (reader : bytes) : cres (Z * bytes) :=
  match i with
  | O => Ok (n, reader)
  | S i =>
      '(b, rest) ← mls_decode u8_codec reader;
      varint_fold i (Z.lor (ushl 32 n 8) b) rest
  end.

Definition varint_decode (reader : bytes) : cres (Z * bytes) :=
  '(first, rest) ← mls_decode u8_codec reader;
  let prefix := Z.shiftr first 6 in
  if prefix <? 3 then
    let count := Z.shiftl 1 prefix in
    '(n, rest) ← varint_fold (Z.to_nat (count - 1)) (Z.land first 63) rest;
    l ← count_bytes_to_encode_int n;
    if length_encoding_value l =? count then Ok (n, rest)
    else Err VarIntMinimumLengthEncoding
  else Err (InvalidVarIntPrefix prefix).

Definition varint_codec : codec Z :=
  mk_codec varint_encoded_len varint_encode varint_decode.

(** ** Collections *)

(** [VarInt::try_from(len).unwrap_or(VarInt(0)).mls_encoded_len()]. *)
Definition header_length (len : Z) : Z :=
  match varint_try_from_usize len with
  | Ok n => varint_encoded_len n
  | _ => varint_encoded_len 0
  end.

Definition mls_decode_split_on_collection (reader : bytes) : cres (bytes * bytes) :=
  '(len, rest) ← varint_decode reader;
  if zlen rest <? len then Err UnexpectedEOF
  else Ok (take (Z.to_nat len) rest, drop (Z.to_nat len) rest).

Definition mls_decode_collection {T} (item_decode : bytes -> cres T) (reader : bytes) :
    cres (T * bytes) :=
  '(data, rest) ← mls_decode_split_on_collection reader;
  items ← item_decode data;
  Ok (items, rest).

(** [byte_vec]: a [Vec<u8>] copied as a slice. *)
Definition byte_vec_codec : codec bytes := mk_codec
  (fun data => header_length (zlen data) + zlen data)
  (fun data writer =>
     len ← varint_try_from_usize (zlen data);
     writer ← varint_encode len writer;
     Ok (writer ++ data))
  (fun reader => mls_decode_split_on_collection reader).

Section collections.
Context {A : Type} (c : codec A).

Definition iter_items_len (l : list A) : Z :=
  foldr (fun x acc => mls_encoded_len c x + acc) 0 l.

Definition iter_encoded_len (l : list A) : Z :=
  header_length (iter_items_len l) + iter_items_len l.

(** [try_for_each(|x| x.mls_encode(buffer))]. *)
Fixpoint encode_items (l : list A) (buffer : bytes) : cres bytes :=
  match l with
  | [] => Ok buffer
  | x :: l => buffer ← mls_encode c x buffer; encode_items l buffer
  end.

(** [iter::mls_encode] without the feature [preallocate]: the items go
    through a buffer whose length is the header. *)
Definition iter_encode_buffered (l : list A) (writer : bytes) : cres bytes :=
  buffer ← encode_items l [];
  len ← varint_try_from_usize (zlen buffer);
  writer ← varint_encode len writer;
  Ok (writer ++ buffer).

(** [iter::mls_encode] with [preallocate]: the header is the sum of the
    announced lengths and the items are written in place. *)
Definition iter_encode_preallocate (l : list A) (writer : bytes) : cres bytes :=
  len ← varint_try_from_usize (iter_items_len l);
  writer ← varint_encode len writer;
  encode_items l writer.

(** [while !data.is_empty() { items.push(T::mls_decode(data)?) }].  Each
    round must consume input, so the length of the input bounds the rounds
    of a terminating run. *)
Fixpoint decode_items (fuel : nat) (data : bytes) : cres (list A) :=
  match data with
  | [] => Ok []
  | _ :: _ =>
      match fuel with
      | O => Panic
      | S fuel =>
          '(x, data) ← mls_decode c data;
          items ← decode_items fuel data;
          Ok (x :: items)
      end
  end.

Definition vec_codec : codec (list A) := mk_codec
  iter_encoded_len
  iter_encode_preallocate
  (mls_decode_collection (fun data => decode_items (length data) data)).

Definition option_codec : codec (option A) := mk_codec
  (fun o => 1 + match o with Some v => mls_encoded_len c v | None => 0 end)
  (fun o writer =>
     match o with
     | Some item => mls_encode c item (writer ++ [1])
     | None => Ok (writer ++ [0])
     end)
  (fun reader =>
     '(n, rest) ← mls_decode u8_codec reader;
     if n =? 0 then Ok (None, rest)
     else if n =? 1 then '(v, rest) ← mls_decode c rest; Ok (Some v, rest)
     else Err (OptionOutOfRange n)).
End collections.

Definition pair_codec {A B} (c1 : codec A) (c2 : codec B) : codec (A * B) := mk_codec
  (fun x => mls_encoded_len c1 x.1 + mls_encoded_len c2 x.2)
  (fun x writer => writer ← mls_encode c1 x.1 writer; mls_encode c2 x.2 writer)
  (fun reader =>
     '(a, rest) ← mls_decode c1 reader;
     '(b, rest) ← mls_decode c2 rest;
     Ok ((a, b), rest)).

(** ** Derived codecs *)

(** A struct is encoded as its fields, in order: its codec is the one of the
    tuple of its fields seen through the constructor. *)
Definition struct_codec {A B} (fields : A -> B) (make : B -> A) (c : codec B) : codec A :=
  mk_codec
    (fun x => mls_encoded_len c (fields x))
    (fun x writer => mls_encode c (fields x) writer)
    (fun reader => '(b, rest) ← mls_decode c reader; Ok (make b, rest)).

(** The payload of one enum variant; encoding a value of another variant is a
    branch the generated [match] does not have. *)
Definition variant_codec {A B} (inj : B -> A) (proj : A -> option B) (c : codec B) : codec A :=
  mk_codec
    (fun x => match proj x with Some b => mls_encoded_len c b | None => 0 end)
    (fun x writer => match proj x with Some b => mls_encode c b writer | None => Panic end)
    (fun reader => '(b, rest) ← mls_decode c reader; Ok (inj b, rest)).

(** An enum is its discriminant followed by the payload of the variant; an
    unknown discriminant is an error. *)
Definition enum_codec {A} (dc : codec Z) (discriminant : A -> Z)
    (variant : Z -> option (codec A)) : codec A :=
  mk_codec
    (fun x => mls_encoded_len dc (discriminant x) +
       match variant (discriminant x) with Some c => mls_encoded_len c x | None => 0 end)
    (fun x writer =>
       writer ← mls_encode dc (discriminant x) writer;
       match variant (discriminant x) with
       | Some c => mls_encode c x writer
       | None => Panic
       end)
    (fun reader =>
       '(t, rest) ← mls_decode dc reader;
       match variant t with
       | Some c => mls_decode c rest
       | None => Err UnsupportedEnumDiscriminant
       end).

(** A variant without payload. *)
Definition unit_codec : codec unit :=
  mk_codec (fun _ => 0) (fun _ writer => Ok writer) (fun reader => Ok (tt, reader)).

(** A hand-written codec whose later part is decoded by the earlier one. *)
Definition dep_codec {A B} (c1 : codec A) (c2 : A -> codec B) : codec (A * B) := mk_codec
  (fun x => mls_encoded_len c1 x.1 + mls_encoded_len (c2 x.1) x.2)
  (fun x writer => writer ← mls_encode c1 x.1 writer; mls_encode (c2 x.1) x.2 writer)
  (fun reader =>
     '(a, rest) ← mls_decode c1 reader;
     '(b, rest) ← mls_decode (c2 a) rest;
     Ok ((a, b), rest)).

(** An optional field without a tag: written when there is one, read when the
    earlier part says that there is one. *)
Definition tail_codec {A} (present : bool) (c : codec A) : codec (option A) := mk_codec
  (fun o => match o with Some x => mls_encoded_len c x | None => 0 end)
  (fun o writer => match o with Some x => mls_encode c x writer | None => Ok writer end)
  (fun reader =>
     if present then '(x, rest) ← mls_decode c reader; Ok (Some x, rest) else Ok (None, reader)).


(** ** Strings and maps *)

(** The byte ranges of well-formed UTF-8 (Unicode, table 3-7): what
    [String::from_utf8] accepts. *)
Fixpoint utf8_valid (bs : bytes) : bool :=
  let inr lo hi b := (lo <=? b) && (b <=? hi) in
  match bs with
  | [] => true
  | b0 :: r0 =>
      if b0 <? 128 then utf8_valid r0
      else
        match r0 with
        | [] => false
        | b1 :: r1 =>
            if inr 194 223 b0 then inr 128 191 b1 && utf8_valid r1
            else
              match r1 with
              | [] => false
              | b2 :: r2 =>
                  if inr 224 239 b0 then
                    (if b0 =? 224 then inr 160 191 b1
                     else if b0 =? 237 then inr 128 159 b1
                     else inr 128 191 b1)
                    && inr 128 191 b2 && utf8_valid r2
                  else
                    match r2 with
                    | [] => false
                    | b3 :: r3 =>
                        inr 240 244 b0
                        && (if b0 =? 240 then inr 144 191 b1
                            else if b0 =? 244 then inr 128 143 b1
                            else inr 128 191 b1)
                        && inr 128 191 b2 && inr 128 191 b3 && utf8_valid r3
                    end
              end
        end
  end.

(** A [String] is its UTF-8 bytes; [str] is encoded as the slice [[u8]]. *)
Definition string_codec : codec bytes := mk_codec
  (mls_encoded_len (vec_codec u8_codec))
  (mls_encode (vec_codec u8_codec))
  (fun reader =>
     '(bs, rest) ← mls_decode (vec_codec u8_codec) reader;
     if utf8_valid bs then Ok (bs, rest) else Err Utf8).

Section maps.
Context {K V : Type} `{Countable K} (kc : codec K) (vc : codec V).
(** The iteration order: hashing order for [HashMap], key order for
    [BTreeMap]. *)
Context (iter : gmap K V -> list (K * V)).

Fixpoint decode_map_items (fuel : nat) (data : bytes) (items : gmap K V) :
    cres (gmap K V) :=
  match data with
  | [] => Ok items
  | _ :: _ =>
      match fuel with
      | O => Panic
      | S fuel =>
          '(k, data) ← mls_decode kc data;
          '(v, data) ← mls_decode vc data;
          decode_map_items fuel data (<[k := v]> items)
      end
  end.

Definition map_codec : codec (gmap K V) := mk_codec
  (fun m => iter_encoded_len (pair_codec kc vc) (iter m))
  (fun m writer => iter_encode_preallocate (pair_codec kc vc) (iter m) writer)
  (mls_decode_collection (fun data => decode_map_items (length data) data ∅)).
End maps.

(** ** The interface of a codec *)

(** Encoding [x] appends bytes whose number is the announced length and that
    decode to [x]; it can only fail because a length does not fit a
    variable-size integer. *)
Definition enc_good {A} (c : codec A) (x : A) : Prop :=
  match mls_encode c x [] with
  | Ok b => bytes_ok b /\ zlen b = mls_encoded_len c x /\
            forall rest, bytes_ok rest -> mls_decode c (b ++ rest) = Ok (x, rest)
  | Err e => e = VarIntOutOfRange
  | Panic => False
  end.

(** Decoding any byte string returns: a well-formed value with a suffix of the
    input, or an error. *)
Definition dec_good {A} (c : codec A) (wf : A -> Prop) (bs : bytes) : Prop :=
  match mls_decode c bs with
  | Ok (x, rest) => wf x /\ exists p, bs = p ++ rest
  | Err _ => True
  | Panic => False
  end.

Class CodecOk {A} (c : codec A) (wf : A -> Prop) : Prop := {
  enc_len_nonneg x : 0 <= mls_encoded_len c x;
  enc_writer x w : mls_encode c x w = app w <$> mls_encode c x [];
  enc_spec x : wf x -> enc_good c x;
  dec_spec bs : bytes_ok bs -> dec_good c wf bs;
}.

(** Decoding accepts nothing but the encoding of what it returns. *)
Class CodecCanonical {A} (c : codec A) : Prop :=
  dec_canonical bs x rest : bytes_ok bs -> mls_decode c bs = Ok (x, rest) ->
    exists p, bs = p ++ rest /\ mls_encode c x [] = Ok p.

(** Decoding consumes input, so that a loop of decodings ends. *)
Class CodecProgress {A} (c : codec A) : Prop :=
  dec_progress bs x rest : bytes_ok bs -> mls_decode c bs = Ok (x, rest) -> (length rest < length bs)%nat.

Lemma dec_shrinks {A} (c : codec A) wf `{!CodecOk c wf} bs x rest :
  bytes_ok bs -> mls_decode c bs = Ok (x, rest) ->
  wf x /\ bytes_ok rest /\ (length rest <= length bs)%nat.
Proof.
  intros Hbs E. pose proof (dec_spec (c := c) bs Hbs) as Hd. unfold dec_good in Hd.
  rewrite E in Hd. destruct Hd as (Hx & p & ->). apply Forall_app in Hbs as [_ Hr].
  rewrite length_app. split; [done|]. split; [done|lia].
Qed.

(** ** Bytes of integers *)

Lemma lor_shiftl_add a b k : 0 <= k -> 0 <= b < 2 ^ k -> Z.lor (Z.shiftl a k) b = a * 2 ^ k + b.
Proof.
  intros Hk Hb. rewrite Z.shiftl_mul_pow2 by done.
  assert (Z.land (a * 2 ^ k) b = 0) as H0; [|rewrite <- Z.add_lor_land, H0; lia].
  apply Z.bits_inj'. intros i Hi. rewrite Z.land_spec, Z.bits_0.
  destruct (Z.lt_ge_cases i k).
  - rewrite Z.mul_pow2_bits_low by lia. done.
  - rewrite (testbit_high k b i), andb_false_r by (unfold in_uint; lia). done.
Qed.

Lemma lor_low_add b c k : 0 <= k -> 0 <= b < 2 ^ k -> Z.lor b (c * 2 ^ k) = c * 2 ^ k + b.
Proof.
  intros Hk Hb. rewrite Z.lor_comm, <- lor_shiftl_add, Z.shiftl_mul_pow2 by done. done.
Qed.

Lemma land_255 x : Z.land x 255 = x `mod` 256.
Proof. apply (Z.land_ones x 8). lia. Qed.

Lemma shiftr_8 x : Z.shiftr x 8 = x `div` 256.
Proof. by rewrite Z.shiftr_div_pow2. Qed.

Lemma length_to_be_bytes n x : length (to_be_bytes n x) = n.
Proof. revert x. induction n; intros; simpl; [done|]. rewrite length_app, IHn. simpl. lia. Qed.

Lemma to_be_bytes_ok n x : bytes_ok (to_be_bytes n x).
Proof.
  revert x. induction n; intros; simpl; [done|]. apply Forall_app; split; [done|].
  constructor; [|done]. rewrite land_255. unfold in_uint. divlia.
Qed.

Lemma bytes_ok_snoc bs b : bytes_ok (bs ++ [b]) <-> bytes_ok bs /\ is_u8 b.
Proof. by rewrite Forall_app, Forall_singleton. Qed.

Lemma from_be_bytes_snoc bs b :
  is_u8 b -> from_be_bytes (bs ++ [b]) = from_be_bytes bs * 256 + b.
Proof.
  intros Hb. unfold from_be_bytes. rewrite foldl_snoc. apply (lor_shiftl_add _ b 8); [lia|].
  apply Hb.
Qed.

Lemma from_to_be_bytes n x : in_uint (8 * Z.of_nat n) x -> from_be_bytes (to_be_bytes n x) = x.
Proof.
  revert x. induction n as [|n IH]; intros x Hx.
  - unfold in_uint in Hx. change (2 ^ (8 * Z.of_nat 0)) with 1 in Hx.
    change (0 = x). lia.
  - cbn [to_be_bytes]. rewrite land_255, shiftr_8.
    rewrite from_be_bytes_snoc by (unfold in_uint; divlia).
    rewrite IH; [divlia|]. unfold in_uint in *.
    replace (8 * Z.of_nat (S n)) with (8 + 8 * Z.of_nat n) in Hx by lia.
    rewrite Z.pow_add_r in Hx by lia. change (2 ^ 8) with 256 in Hx.
    split; [divlia|]. apply Z.div_lt_upper_bound; lia.
Qed.

Lemma from_be_bytes_in_uint bs :
  bytes_ok bs -> in_uint (8 * zlen bs) (from_be_bytes bs).
Proof.
  induction bs as [|b bs IH] using rev_ind; intros Hbs; [by unfold in_uint|].
  apply bytes_ok_snoc in Hbs as [H1 H2].
  rewrite from_be_bytes_snoc, zlen_app by done. specialize (IH H1). unfold in_uint in *.
  change (zlen [b]) with 1. rewrite Z.mul_add_distr_l, Z.pow_add_r by (unfold zlen; lia).
  change (2 ^ (8 * 1)) with 256. change (2 ^ 8) with 256 in *. nia.
Qed.

Lemma to_from_be_bytes bs : bytes_ok bs -> to_be_bytes (length bs) (from_be_bytes bs) = bs.
Proof.
  induction bs as [|b bs IH] using rev_ind; intros Hbs; [done|].
  apply bytes_ok_snoc in Hbs as [H1 H2].
  rewrite from_be_bytes_snoc, length_app, Nat.add_1_r by done.
  unfold in_uint in H2. change (2 ^ 8) with 256 in H2.
  cbn [to_be_bytes]. rewrite land_255, shiftr_8, Z.div_add_l, Z.div_small by lia.
  rewrite Z.add_0_r, IH by done. do 2 f_equal. symmetry.
  apply Z.mod_unique_pos with (from_be_bytes bs); lia.
Qed.

(** ** Fixed-width integers and arrays *)

Definition array_wf (n : nat) (x : bytes) : Prop := bytes_ok x /\ length x = n.

Lemma array_decode_app n x rest :
  length x = n -> mls_decode (array_codec n) (x ++ rest) = Ok (x, rest).
Proof.
  intros <-. simpl. rewrite length_app.
  destruct (Nat.leb_spec (length x) (length x + length rest)); [|lia].
  by rewrite take_app_length, drop_app_length.
Qed.

Lemma array_decode_Ok n bs x rest :
  mls_decode (array_codec n) bs = Ok (x, rest) -> bs = x ++ rest /\ length x = n.
Proof.
  simpl. destruct (Nat.leb_spec n (length bs)); [|done]. intros [= <- <-].
  rewrite take_drop, length_take. split; [done|lia].
Qed.

#[export] Instance array_codec_ok n : CodecOk (array_codec n) (array_wf n).
Proof.
  split; [simpl; lia|done| |].
  - intros x [Hx Hl]. unfold enc_good. cbn -[mls_decode]. repeat split; [done|unfold zlen; by rewrite Hl|].
    intros rest _. by apply array_decode_app.
  - intros bs Hbs. unfold dec_good.
    destruct (mls_decode (array_codec n) bs) as [[x rest]| |] eqn:E; [|done|].
    + apply array_decode_Ok in E as [-> E]. apply Forall_app in Hbs as [Hx _].
      by split; [split|eexists].
    + revert E. simpl. by case_match.
Qed.

#[export] Instance array_codec_canonical n : CodecCanonical (array_codec n).
Proof. intros bs x rest Hbs [-> _]%array_decode_Ok. by eexists. Qed.

Lemma uint_decode_Ok n bs x rest :
  mls_decode (uint_codec n) bs = Ok (x, rest) ->
  exists p, bs = p ++ rest /\ length p = n /\ x = from_be_bytes p.
Proof.
  cbn -[array_codec]. intros H. res_inv. case_match. simplify_eq.
  apply array_decode_Ok in H as [-> Hl]. eauto.
Qed.

#[export] Instance uint_codec_ok n : CodecOk (uint_codec n) (in_uint (8 * Z.of_nat n)).
Proof.
  split; [simpl; lia|done| |].
  - intros x Hx. unfold enc_good. cbn -[array_codec]. repeat split.
    + apply to_be_bytes_ok.
    + unfold zlen. by rewrite length_to_be_bytes.
    + intros rest _. rewrite array_decode_app by apply length_to_be_bytes. simpl.
      by rewrite from_to_be_bytes.
  - intros bs Hbs. unfold dec_good.
    destruct (mls_decode (uint_codec n) bs) as [[x rest]| |] eqn:E; [|done|].
    + apply uint_decode_Ok in E as (p & -> & Hl & ->). apply Forall_app in Hbs as [Hx _].
      split; [|by eexists]. rewrite <- Hl. by apply from_be_bytes_in_uint.
    + revert E. simpl. by case_match.
Qed.

#[export] Instance uint_codec_canonical n : CodecCanonical (uint_codec n).
Proof.
  intros bs x rest Hbs (p & -> & <- & ->)%uint_decode_Ok. exists p. split; [done|].
  apply Forall_app in Hbs as [Hp _]. simpl. by rewrite to_from_be_bytes.
Qed.

#[export] Instance uint_codec_progress n : CodecProgress (uint_codec (S n)).
Proof. intros bs x rest _ (p & -> & Hl & _)%uint_decode_Ok. rewrite length_app. lia. Qed.

Lemma u8_decode_cons b rest : mls_decode u8_codec (b :: rest) = Ok (b, rest).
Proof. simpl. unfold from_be_bytes. simpl. by rewrite drop_0. Qed.

#[export] Instance bool_codec_ok : CodecOk bool_codec (fun _ => True).
Proof.
  split; [simpl; lia|done| |].
  - intros [] _; (split; [by repeat constructor|]); (split; [done|]); by intros rest.
  - intros bs Hbs. unfold dec_good. destruct bs as [|b bs]; [done|].
    cbn -[uint_codec]. rewrite u8_decode_cons. simpl. split; [done|]. by exists [b].
Qed.

#[export] Instance bool_codec_progress : CodecProgress bool_codec.
Proof.
  intros [|b bs] x rest _; [done|]. cbn -[uint_codec]. rewrite u8_decode_cons.
  intros [= _ <-]. simpl. lia.
Qed.

(** ** Variable-size integers *)

Lemma count_bytes_spec n : 0 <= n ->
  count_bytes_to_encode_int n =
    if n <? 64 then Ok One else if n <? 16384 then Ok Two
    else if n <? 1073741824 then Ok Four else Panic.
Proof.
  intros Hn. unfold count_bytes_to_encode_int, leading_zeros.
  destruct (Z.eqb_spec n 0) as [->|Hne]; [done|].
  assert (forall k, 0 <= k -> (32 - (31 - Z.log2 n) <=? k) = (n <? 2 ^ k)) as Hlog.
  { intros k Hk. pose proof (Z.log2_lt_pow2 n k ltac:(lia)).
    destruct (Z.leb_spec (32 - (31 - Z.log2 n)) k), (Z.ltb_spec n (2 ^ k)); (done || lia). }
  rewrite !Hlog by lia. done.
Qed.

(** The wire format of RFC 9420, section 2.1.2: one, two or four bytes, the
    number of them in the two high bits of the first, and only the shortest
    form of each number. *)
Definition varint_decode_spec (bs : bytes) : cres (Z * bytes) :=
  match bs with
  | [] => Err UnexpectedEOF
  | f :: r =>
      if f <? 64 then Ok (f, r)
      else if f <? 128 then
        match r with
        | b :: r =>
            let n := (f - 64) * 256 + b in
            if n <? 64 then Err VarIntMinimumLengthEncoding else Ok (n, r)
        | _ => Err UnexpectedEOF
        end
      else if f <? 192 then
        match r with
        | b1 :: b2 :: b3 :: r =>
            let n := (((f - 128) * 256 + b1) * 256 + b2) * 256 + b3 in
            if n <? 16384 then Err VarIntMinimumLengthEncoding else Ok (n, r)
        | _ => Err UnexpectedEOF
        end
      else Err (InvalidVarIntPrefix 3)
  end.

Lemma varint_step n b : 0 <= n < 4194304 -> is_u8 b -> Z.lor (ushl 32 n 8) b = n * 256 + b.
Proof.
  intros Hn Hb. unfold ushl. change (8 `mod` 32) with 8. rewrite wrap_small.
  - by apply lor_shiftl_add.
  - rewrite Z.shiftl_mul_pow2 by lia. unfold in_uint. lia.
Qed.

Lemma prefix_split f : is_u8 f ->
  Z.shiftr f 6 = f `div` 64 /\ Z.land f 63 = f `mod` 64.
Proof. intros H. split; [by rewrite Z.shiftr_div_pow2|apply (Z.land_ones f 6); lia]. Qed.

Ltac u8s := unfold in_uint in *; change (2 ^ 8) with 256 in *.

Lemma varint_decode_eq bs : bytes_ok bs -> varint_decode bs = varint_decode_spec bs.
Proof.
  intros Hbs. destruct bs as [|f r]; [done|]. unfold varint_decode.
  rewrite u8_decode_cons. cbn [mbind res_bind].
  apply Forall_cons in Hbs as [Hf Hr]. destruct (prefix_split f Hf) as [-> ->].
  unfold varint_decode_spec. u8s.
  destruct (Z.ltb_spec f 64).
  { rewrite Z.div_small, Z.mod_small by lia. simpl. rewrite count_bytes_spec by lia.
    by destruct (Z.ltb_spec f 64); [|lia]. }
  destruct (Z.ltb_spec f 128).
  { replace (f `div` 64) with 1 by divlia. replace (f `mod` 64) with (f - 64) by divlia.
    destruct r as [|b r]; [done|]. apply Forall_cons in Hr as [Hb _].
    change (Z.to_nat _) with 1%nat. cbn [Z.ltb Z.compare varint_fold].
    rewrite u8_decode_cons. cbn [mbind res_bind]. rewrite varint_step by (done || lia).
    u8s. rewrite count_bytes_spec by lia.
    repeat match goal with |- context [?x <? ?y] => destruct (Z.ltb_spec x y) end;
      first [done | lia]. }
  destruct (Z.ltb_spec f 192).
  { replace (f `div` 64) with 2 by divlia. replace (f `mod` 64) with (f - 128) by divlia.
    change (Z.to_nat _) with 3%nat. cbn [Z.ltb Z.compare varint_fold].
    do 3 (destruct r as [|?b r]; [done|]; apply Forall_cons in Hr as [?Hb Hr];
          rewrite u8_decode_cons; cbn [mbind res_bind];
          rewrite varint_step by (done || (u8s; lia))).
    u8s. rewrite count_bytes_spec by lia.
    repeat match goal with |- context [?x <? ?y] => destruct (Z.ltb_spec x y) end;
      first [done | lia]. }
  replace (f `div` 64) with 3 by divlia. done.
Qed.

(** The bytes of the shortest form. *)
Definition varint_bytes (n : Z) : bytes :=
  if n <? 64 then [n]
  else if n <? 16384 then [64 + n `div` 256; n `mod` 256]
  else [128 + n `div` 16777216; n `div` 65536 `mod` 256; n `div` 256 `mod` 256; n `mod` 256].

Lemma to_be_bytes_4 n : 0 <= n < 4294967296 ->
  to_be_bytes 4 n =
    [n `div` 16777216; n `div` 65536 `mod` 256; n `div` 256 `mod` 256; n `mod` 256].
Proof.
  intros Hn. cbn [to_be_bytes app]. rewrite !land_255, !shiftr_8, !Z.div_div by lia.
  repeat f_equal. apply Z.mod_small. divlia.
Qed.

Lemma varint_encode_eq n w : 0 <= n <= varint_max -> varint_encode n w = Ok (w ++ varint_bytes n).
Proof.
  change varint_max with 1073741823. intros Hn. unfold varint_encode, varint_bytes.
  rewrite count_bytes_spec, to_be_bytes_4 by lia.
  destruct (Z.ltb_spec n 64); cbn [mbind res_bind].
  { cbn [drop]. do 3 f_equal. apply Z.mod_small. lia. }
  destruct (Z.ltb_spec n 16384); cbn [mbind res_bind].
  { cbn [alter list_alter drop]. rewrite (Z.mod_small (n `div` 256)) by divlia.
    by rewrite (lor_low_add _ 1 6) by divlia. }
  destruct (Z.ltb_spec n 1073741824); [|lia]. cbn [mbind res_bind alter list_alter].
  by rewrite (lor_low_add _ 1 7) by divlia.
Qed.

Lemma varint_bytes_ok n : 0 <= n <= varint_max -> bytes_ok (varint_bytes n).
Proof.
  change varint_max with 1073741823. intros Hn. unfold varint_bytes.
  repeat case_match; repeat constructor; u8s; divlia.
Qed.

Lemma varint_bytes_len n : 0 <= n <= varint_max -> zlen (varint_bytes n) = varint_encoded_len n.
Proof.
  change varint_max with 1073741823. intros Hn. unfold varint_bytes, varint_encoded_len.
  rewrite count_bytes_spec by lia.
  repeat match goal with |- context [?x <? ?y] => destruct (Z.ltb_spec x y) end; (done || lia).
Qed.

Lemma varint_spec_bytes n rest : 0 <= n <= varint_max ->
  varint_decode_spec (varint_bytes n ++ rest) = Ok (n, rest).
Proof.
  change varint_max with 1073741823. intros Hn. unfold varint_bytes, varint_decode_spec.
  destruct (Z.ltb_spec n 64); cbn [app].
  { by destruct (Z.ltb_spec n 64); [|lia]. }
  destruct (Z.ltb_spec n 16384); cbn [app];
    repeat match goal with
      |- context [if ?x <? ?y then _ else _] => destruct (Z.ltb_spec x y); [try (exfalso; divlia)|try (exfalso; divlia)]
    end; do 2 f_equal; divlia.
Qed.

Definition varint_wf (n : Z) : Prop := 0 <= n <= varint_max.

Lemma varint_spec_Ok bs n rest : bytes_ok bs -> varint_decode_spec bs = Ok (n, rest) ->
  varint_wf n /\ bs = varint_bytes n ++ rest.
Proof.
  unfold varint_wf, varint_decode_spec, varint_bytes. change varint_max with 1073741823.
  intros Hbs H. repeat case_match; simplify_eq;
    repeat match goal with H : bytes_ok (_ :: _) |- _ => apply Forall_cons in H as [? H] end;
    repeat match goal with
      | H : (_ <? _) = true |- _ => apply Z.ltb_lt in H
      | H : (_ <? _) = false |- _ => apply Z.ltb_ge in H
    end; u8s.
  all: repeat match goal with
      |- context [if ?x <? ?y then _ else _] => destruct (Z.ltb_spec x y); [try (exfalso; lia)|try (exfalso; lia)]
    end; split; [lia|].
  all: cbn [app]; repeat f_equal; divlia.
Qed.

#[export] Instance varint_codec_ok : CodecOk varint_codec varint_wf.
Proof.
  split.
  - intros n. simpl. unfold varint_encoded_len. by destruct (count_bytes_to_encode_int n) as [[]| |].
  - intros n w. simpl. unfold varint_encode. destruct (count_bytes_to_encode_int n) as [[]| |]; done.
  - intros n Hn. unfold enc_good. simpl. rewrite varint_encode_eq by done.
    split; [by apply varint_bytes_ok|]. split; [by apply varint_bytes_len|].
    intros rest Hrest. rewrite app_nil_l, varint_decode_eq; [by apply varint_spec_bytes|].
    apply Forall_app. split; [by apply varint_bytes_ok|done].
  - intros bs Hbs. unfold dec_good. simpl. rewrite varint_decode_eq by done.
    destruct (varint_decode_spec bs) as [[n rest]| |] eqn:E; [|done|].
    + apply varint_spec_Ok in E as [Hn E]; [|done]. eauto.
    + revert E. unfold varint_decode_spec. repeat case_match; done.
Qed.

#[export] Instance varint_codec_canonical : CodecCanonical varint_codec.
Proof.
  intros bs n rest Hbs. simpl. rewrite varint_decode_eq by done.
  intros [Hn E]%varint_spec_Ok; [|done]. eexists. split; [done|]. by apply varint_encode_eq.
Qed.

Lemma varint_fold_len i n bs m rest :
  varint_fold i n bs = Ok (m, rest) -> (length rest <= length bs)%nat.
Proof.
  revert n bs. induction i as [|i IH]; intros n bs; cbn -[uint_codec]; [intros [= _ <-]; lia|].
  destruct bs as [|b bs]; [done|]. rewrite u8_decode_cons. intros H%IH. simpl. lia.
Qed.

#[export] Instance varint_codec_progress : CodecProgress varint_codec.
Proof.
  intros [|b bs] n rest _; [done|]. cbn -[uint_codec]. unfold varint_decode.
  rewrite u8_decode_cons. cbn [mbind res_bind]. case_match; [|done]. intros H'. res_inv.
  destruct x as [m r]. res_inv. case_match; [|done]. simplify_eq.
  match goal with H : varint_fold _ _ _ = _ |- _ => apply varint_fold_len in H end. simpl. lia.
Qed.

(** ** Collections *)

Lemma varint_try_from_usize_eq n :
  varint_try_from_usize n = if n <=? varint_max then Ok n else Err VarIntOutOfRange.
Proof.
  unfold varint_try_from_usize, varint_try_from_u32. change varint_max with 1073741823.
  destruct (Z.ltb_spec n (2 ^ 32)), (Z.leb_spec n 1073741823); (done || lia).
Qed.

Lemma header_length_eq n : n <= varint_max -> header_length n = varint_encoded_len n.
Proof.
  intros H. unfold header_length. rewrite varint_try_from_usize_eq.
  by destruct (Z.leb_spec n varint_max); [|lia].
Qed.

Lemma split_app d rest :
  bytes_ok d -> bytes_ok rest -> zlen d <= varint_max ->
  mls_decode_split_on_collection (varint_bytes (zlen d) ++ d ++ rest) = Ok (d, rest).
Proof.
  intros Hd Hr Hl. pose proof (zlen_nonneg d).
  unfold mls_decode_split_on_collection. rewrite varint_decode_eq.
  - rewrite varint_spec_bytes by done. cbn [mbind res_bind]. rewrite zlen_app.
    destruct (Z.ltb_spec (zlen d + zlen rest) (zlen d)); [unfold zlen in *; lia|].
    unfold zlen. rewrite Nat2Z.id. by rewrite take_app_length, drop_app_length.
  - rewrite !Forall_app. split; [by apply varint_bytes_ok|done].
Qed.

Lemma split_Ok bs d rest :
  bytes_ok bs -> mls_decode_split_on_collection bs = Ok (d, rest) ->
  zlen d <= varint_max /\ bs = varint_bytes (zlen d) ++ d ++ rest.
Proof.
  unfold mls_decode_split_on_collection. intros Hbs H.
  rewrite varint_decode_eq in H by done. res_inv. destruct x as [n r].
  match goal with H : _ = Ok (n, r) |- _ => apply varint_spec_Ok in H as [Hn ->]; [|done] end.
  destruct (Z.ltb_spec (zlen r) n); [done|]. simplify_eq.
  unfold varint_wf, zlen in *. rewrite length_take.
  replace (Z.of_nat (Z.to_nat n `min` length r)) with n by lia.
  rewrite take_drop. split; [lia|done].
Qed.

Lemma split_no_panic bs : bytes_ok bs -> mls_decode_split_on_collection bs <> Panic.
Proof.
  intros Hbs H. apply bind_Panic in H as [H|((n & r) & _ & H)]; [|by case_match].
  pose proof (dec_spec (c := varint_codec) bs Hbs) as Hd. unfold dec_good in Hd.
  simpl in Hd. by rewrite H in Hd.
Qed.

(** What is common to byte vectors, vectors and maps: a header with the length
    of a body.  [body] writes the body and [dec] reads it. *)
Section collection.
Context {T} (c : codec T) (wf : T -> Prop).
Context (body_len : T -> Z) (body : T -> cres bytes) (dec : bytes -> cres T).
Hypothesis len_eq : forall x, mls_encoded_len c x = header_length (body_len x) + body_len x.
Hypothesis encode_eq : forall x w, mls_encode c x w =
  (len ← varint_try_from_usize (body_len x); w ← varint_encode len w; app w <$> body x).
Hypothesis decode_eq : forall bs, mls_decode c bs = mls_decode_collection dec bs.
Hypothesis body_len_nonneg : forall x, 0 <= body_len x.

Lemma collection_ok :
  (forall x, wf x -> match body x with
                  | Ok b => bytes_ok b /\ zlen b = body_len x /\ dec b = Ok x
                  | Err e => e = VarIntOutOfRange
                  | Panic => False
                  end) ->
  (forall bs, bytes_ok bs -> match dec bs with
                       | Ok x => wf x
                       | Err _ => True
                       | Panic => False
                       end) ->
  CodecOk c wf.
Proof using len_eq encode_eq decode_eq body_len_nonneg.
  intros Henc Hdec. split.
  - intros x. rewrite len_eq. specialize (body_len_nonneg x). unfold header_length.
    pose proof (enc_len_nonneg (c := varint_codec)) as Hl. simpl in Hl.
    pose proof (Hl 0). case_match; [specialize (Hl a)| |]; lia.
  - intros x w. rewrite !encode_eq. destruct (varint_try_from_usize (body_len x)) as [n| |]; try done.
    cbn [mbind res_bind]. pose proof (enc_writer (c := varint_codec) n w) as Hw. simpl in Hw.
    rewrite Hw. destruct (varint_encode n []) as [h| |], (body x) as [b| |]; try done.
    simpl. by rewrite app_assoc.
  - intros x Hx. unfold enc_good. rewrite encode_eq, varint_try_from_usize_eq.
    specialize (body_len_nonneg x). specialize (Henc x Hx).
    destruct (Z.leb_spec (body_len x) varint_max); [|done]. cbn [mbind res_bind].
    rewrite varint_encode_eq by done. simpl.
    destruct (body x) as [b| |]; simpl; [|done|done].
    destruct Henc as (Hb & Hl & Hd). rewrite len_eq, header_length_eq by done.
    split; [apply Forall_app; split; [by apply varint_bytes_ok|done]|].
    split; [rewrite zlen_app, varint_bytes_len by done; lia|].
    intros rest Hrest. rewrite <- app_assoc, decode_eq, <- Hl.
    unfold mls_decode_collection. rewrite split_app by (done || lia). simpl. by rewrite Hd.
  - intros bs Hbs. unfold dec_good. rewrite decode_eq. unfold mls_decode_collection.
    destruct (mls_decode_split_on_collection bs) as [[d rest]| |] eqn:E; [|done|].
    + apply split_Ok in E as [_ E]; [|done]. subst bs. rewrite !Forall_app in Hbs.
      destruct Hbs as (_ & Hd & _). specialize (Hdec d Hd). simpl.
      destruct (dec d); simpl; [|done|done]. split; [done|].
      rewrite app_assoc. eauto.
    + by apply split_no_panic in E.
Qed.

Lemma collection_canonical :
  (forall bs x, bytes_ok bs -> dec bs = Ok x -> body x = Ok bs /\ body_len x = zlen bs) ->
  CodecCanonical c.
Proof using encode_eq decode_eq.
  intros Hdec bs x rest Hbs H. rewrite decode_eq in H. unfold mls_decode_collection in H.
  res_inv. destruct x0 as [d r]. res_inv.
  match goal with H : _ = Ok (d, _) |- _ => apply split_Ok in H as [Hl ->]; [|done] end.
  rewrite !Forall_app in Hbs. destruct Hbs as (_ & Hd & _).
  edestruct Hdec as [Hb Hbl]; [done|done|]. pose proof (zlen_nonneg d).
  rewrite app_assoc. eexists. split; [done|].
  rewrite encode_eq, Hbl, varint_try_from_usize_eq.
  destruct (Z.leb_spec (zlen d) varint_max); [|lia]. cbn [mbind res_bind].
  rewrite varint_encode_eq by done. simpl. by rewrite Hb.
Qed.

Lemma collection_progress : CodecProgress c.
Proof using decode_eq.
  intros bs x rest Hbs H. rewrite decode_eq in H. unfold mls_decode_collection in H.
  res_inv. destruct x0 as [d r]. res_inv.
  match goal with H : _ = Ok (d, _) |- _ => unfold mls_decode_split_on_collection in H end.
  res_inv. destruct x0 as [n r']. case_match; [done|]. simplify_eq.
  pose proof (dec_progress (c := varint_codec) bs n r' Hbs ltac:(done)).
  rewrite length_drop. lia.
Qed.
End collection.

Lemma byte_vec_encode_eq x w : mls_encode byte_vec_codec x w =
  (len ← varint_try_from_usize (zlen x); w ← varint_encode len w; app w <$> Ok x).
Proof. done. Qed.

Lemma byte_vec_decode_eq bs :
  mls_decode byte_vec_codec bs = mls_decode_collection Ok bs.
Proof.
  simpl. unfold mls_decode_collection.
  by destruct (mls_decode_split_on_collection bs) as [[]| |].
Qed.

#[export] Instance byte_vec_codec_ok : CodecOk byte_vec_codec bytes_ok.
Proof.
  eapply collection_ok; [done|apply byte_vec_encode_eq|apply byte_vec_decode_eq|apply zlen_nonneg|done|done].
Qed.

#[export] Instance byte_vec_codec_canonical : CodecCanonical byte_vec_codec.
Proof.
  eapply collection_canonical; [apply byte_vec_encode_eq|apply byte_vec_decode_eq|].
  by intros bs x _ [= <-].
Qed.

#[export] Instance byte_vec_codec_progress : CodecProgress byte_vec_codec.
Proof. eapply collection_progress. apply byte_vec_decode_eq. Qed.

(** ** Vectors *)

Section vec_laws.
Context {A} (c : codec A) (wf : A -> Prop) `{!CodecOk c wf}.

Lemma iter_items_len_nonneg l : 0 <= iter_items_len c l.
Proof using Type*.
  induction l as [|x l IH]; simpl; [lia|].
  pose proof (enc_len_nonneg (c := c) x). lia.
Qed.

Lemma encode_items_writer l w : encode_items c l w = app w <$> encode_items c l [].
Proof using Type*.
  revert w. induction l as [|x l IH]; intros w; simpl; [by rewrite app_nil_r|].
  rewrite enc_writer. destruct (mls_encode c x []) as [b| |]; [|done|done]. simpl.
  rewrite IH, (IH b). destruct (encode_items c l []); [|done|done]. simpl. by rewrite app_assoc.
Qed.

Lemma iter_encode_preallocate_eq l w : iter_encode_preallocate c l w =
  (len ← varint_try_from_usize (iter_items_len c l); w ← varint_encode len w;
   app w <$> encode_items c l []).
Proof using Type*.
  unfold iter_encode_preallocate. destruct (varint_try_from_usize _) as [n| |]; [|done|done].
  simpl. destruct (varint_encode n w); [|done|done]. simpl. apply encode_items_writer.
Qed.

Lemma decode_items_no_panic `{!CodecProgress c} fuel data :
  bytes_ok data -> (length data <= fuel)%nat ->
  match decode_items c fuel data with
  | Ok l => Forall wf l
  | Err _ => True
  | Panic => False
  end.
Proof using Type*.
  revert data. induction fuel as [|fuel IH]; intros data Hd Hl.
  { destruct data; simpl in *; [done|lia]. }
  destruct data as [|b data]; [by constructor|]. cbn [decode_items].
  pose proof (dec_spec (c := c) (b :: data) Hd) as Hx. unfold dec_good in Hx.
  destruct (mls_decode c (b :: data)) as [[x r]| |] eqn:E; [|done|done]. simpl.
  destruct Hx as (Hx & p & Hp). apply dec_progress in E; [|done].
  rewrite Hp in Hd. apply Forall_app in Hd as [_ Hr].
  specialize (IH r Hr ltac:(simpl in *; lia)).
  destruct (decode_items c fuel r); simpl; [by constructor|done|done].
Qed.

Lemma encode_items_spec `{!CodecProgress c} l : Forall wf l ->
  match encode_items c l [] with
  | Ok b => bytes_ok b /\ zlen b = iter_items_len c l /\
            forall fuel, (length b <= fuel)%nat -> decode_items c fuel b = Ok l
  | Err e => e = VarIntOutOfRange
  | Panic => False
  end.
Proof using Type*.
  induction 1 as [|x l Hx Hl IH]; cbn [encode_items].
  { split; [done|]. split; [done|]. by intros []. }
  pose proof (enc_spec (c := c) x Hx) as Hg. unfold enc_good in Hg.
  destruct (mls_encode c x []) as [b| |]; [|done|done]. simpl. rewrite encode_items_writer.
  destruct (encode_items c l []) as [bl| |]; [|done|done]. simpl.
  destruct Hg as (Hb & Hbl & Hdec), IH as (Hb' & Hbl' & Hdec').
  split; [by apply Forall_app|]. split; [rewrite zlen_app; lia|].
  intros fuel Hf. specialize (Hdec bl Hb'). pose proof (dec_progress (b ++ bl) x bl ltac:(by apply Forall_app) Hdec) as Hp.
  rewrite length_app in Hp, Hf. destruct b as [|b0 b]; [simpl in *; lia|].
  destruct fuel as [|fuel]; [simpl in *; lia|]. cbn [app decode_items].
  change (b0 :: b ++ bl) with ((b0 :: b) ++ bl). rewrite Hdec. simpl.
  rewrite Hdec' by (simpl in *; lia). done.
Qed.

Lemma decode_items_canonical `{!CodecCanonical c} fuel data l :
  bytes_ok data -> decode_items c fuel data = Ok l -> encode_items c l [] = Ok data.
Proof using Type*.
  revert data l. induction fuel as [|fuel IH]; intros [|b data] l Hd;
    cbn [decode_items]; intros H; try (by simplify_eq). res_inv. destruct x as [x r]. res_inv.
  match goal with H : mls_decode c _ = _ |- _ =>
    apply (dec_canonical (c := c)) in H as (p & Hp & He); [|done] end.
  rewrite Hp in Hd |- *. apply Forall_app in Hd as [_ Hr].
  simpl. rewrite He. simpl. rewrite encode_items_writer. erewrite IH by done. done.
Qed.

Lemma encode_items_zlen l b :
  Forall wf l -> encode_items c l [] = Ok b -> zlen b = iter_items_len c l.
Proof using Type*.
  revert b. induction l as [|x l IH]; intros b Hl; cbn [encode_items]; [by intros [= <-]|].
  apply Forall_cons in Hl as [Hx Hl].
  pose proof (enc_spec (c := c) x Hx) as Hg. unfold enc_good in Hg.
  destruct (mls_encode c x []) as [bx| |]; [|done|done]. simpl. rewrite encode_items_writer.
  destruct (encode_items c l []) as [bl| |]; [|done|done]. intros [= <-].
  rewrite zlen_app, (IH bl) by done. lia.
Qed.

Lemma encode_items_err l : Forall wf l ->
  match encode_items c l [] with
  | Ok _ => True
  | Err e => e = VarIntOutOfRange
  | Panic => False
  end.
Proof using Type*.
  induction 1 as [|x l Hx Hl IH]; cbn [encode_items]; [done|].
  pose proof (enc_spec (c := c) x Hx) as Hg. unfold enc_good in Hg.
  destruct (mls_encode c x []) as [bx| |]; [|done|done]. simpl. rewrite encode_items_writer.
  by destruct (encode_items c l []).
Qed.
End vec_laws.

Lemma u8_items_len l : iter_items_len u8_codec l = zlen l.
Proof.
  induction l as [|x l IH]; [done|]. change (iter_items_len u8_codec (x :: l)) with
    (1 + iter_items_len u8_codec l). rewrite IH. unfold zlen. simpl. lia.
Qed.

Lemma u8_items_encode l : bytes_ok l -> encode_items u8_codec l [] = Ok l.
Proof.
  induction 1 as [|x l Hx Hl IH]; [done|]. cbn [encode_items].
  cbn [mls_encode uint_codec mbind res_bind app to_be_bytes]. rewrite (encode_items_writer u8_codec (in_uint (8 * Z.of_nat 1))).
  rewrite IH. simpl. rewrite land_255, Z.mod_small by apply Hx. done.
Qed.

Lemma u8_items_decode fuel l : (length l <= fuel)%nat -> decode_items u8_codec fuel l = Ok l.
Proof.
  revert l. induction fuel as [|fuel IH]; intros [|x l] Hl; simpl in Hl; try (done || lia).
  cbn [decode_items]. rewrite u8_decode_cons. simpl. by rewrite IH by lia.
Qed.

#[export] Instance vec_codec_ok {A} (c : codec A) wf `{!CodecOk c wf, !CodecProgress c} :
  CodecOk (vec_codec c) (Forall wf).
Proof.
  eapply collection_ok with (body_len := iter_items_len c) (body := fun l => encode_items c l []);
    [done|apply (iter_encode_preallocate_eq c wf)|done|apply (iter_items_len_nonneg c wf)| |].
  - intros l Hl. pose proof (encode_items_spec c wf l Hl). case_match; [|done|done]. naive_solver.
  - intros bs Hbs. by apply (decode_items_no_panic c wf).
Qed.

#[export] Instance vec_codec_canonical {A} (c : codec A) wf
  `{!CodecOk c wf, !CodecProgress c, !CodecCanonical c} : CodecCanonical (vec_codec c).
Proof.
  eapply collection_canonical with (body_len := iter_items_len c) (body := fun l => encode_items c l []);
    [apply (iter_encode_preallocate_eq c wf)|done|].
  intros bs l Hbs H. pose proof (decode_items_no_panic c wf (length bs) bs Hbs (le_n _)) as Hwf.
  rewrite H in Hwf. apply (decode_items_canonical c wf) in H as H'; [|done].
  split; [done|]. symmetry. by apply (encode_items_zlen c wf).
Qed.

#[export] Instance vec_codec_progress {A} (c : codec A) : CodecProgress (vec_codec c).
Proof. by eapply collection_progress. Qed.

(** ** Options, pairs, structs and enums *)

Definition option_wf {A} (wf : A -> Prop) (o : option A) : Prop :=
  match o with Some x => wf x | None => True end.

Section option_laws.
Context {A} (c : codec A) (wf : A -> Prop) `{!CodecOk c wf}.

#[export] Instance option_codec_ok : CodecOk (option_codec c) (option_wf wf).
Proof using Type*.
  split.
  - intros [x|]; simpl; [|lia]. pose proof (enc_len_nonneg (c := c) x). lia.
  - intros [x|] w; simpl; [|done]. rewrite (enc_writer x [1]), (enc_writer x (w ++ [1])).
    destruct (mls_encode c x []); simpl; [|done|done]. by rewrite <- app_assoc.
  - intros [x|] Hx; unfold enc_good; cbn -[uint_codec mls_decode].
    + rewrite enc_writer. pose proof (enc_spec (c := c) x Hx) as Hg. unfold enc_good in Hg.
      destruct (mls_encode c x []) as [b| |]; [|done|done]. destruct Hg as (Hb & Hl & Hd).
      simpl (app _ <$> _). cbn [app]. split; [by constructor|].
      split; [change (1 :: b) with ([1] ++ b); rewrite zlen_app; simpl; by rewrite Hl|].
      intros rest Hr. cbn -[uint_codec]. rewrite u8_decode_cons. simpl. by rewrite Hd.
    + split; [by repeat constructor|]. done.
  - intros bs Hbs. unfold dec_good. cbn -[uint_codec]. destruct bs as [|b bs]; [done|].
    rewrite u8_decode_cons. cbn [mbind res_bind]. apply Forall_cons in Hbs as [_ Hbs].
    destruct (b =? 0); [split; [done|by exists [b]]|]. destruct (b =? 1); [|done].
    pose proof (dec_spec (c := c) bs Hbs) as Hd. unfold dec_good in Hd.
    destruct (mls_decode c bs) as [[x r]| |]; [|done|done]. simpl.
    destruct Hd as (? & p & ->). split; [done|]. by exists (b :: p).
Qed.

#[export] Instance option_codec_canonical `{!CodecCanonical c} : CodecCanonical (option_codec c).
Proof using Type*.
  intros [|b bs] x rest Hbs; [done|]. cbn -[uint_codec]. rewrite u8_decode_cons.
  cbn [mbind res_bind]. destruct (Z.eqb_spec b 0) as [->|]; [intros [= <- <-]; by exists [0]|].
  destruct (Z.eqb_spec b 1) as [->|]; [|done]. intros H. res_inv. destruct x0 as [v r]. res_inv.
  apply Forall_cons in Hbs as [_ Hbs].
  match goal with H : mls_decode c _ = _ |- _ =>
    apply (dec_canonical (c := c)) in H as (p & -> & He); [|done] end.
  exists (1 :: p). split; [done|]. rewrite enc_writer, He. done.
Qed.
End option_laws.

#[export] Instance option_codec_progress {A} (c : codec A) wf `{!CodecOk c wf} :
  CodecProgress (option_codec c).
Proof.
  intros [|b bs] x rest Hbs; [done|]. apply Forall_cons in Hbs as [_ Hbs].
  cbn -[uint_codec]. rewrite u8_decode_cons.
  cbn [mbind res_bind]. case_match; [intros [= _ <-]; simpl; lia|]. case_match; [|done].
  intros ([v r] & Hv & [= _ <-])%bind_Ok.
  edestruct (dec_shrinks c wf bs) as (_ & _ & ?); [done|done|]. lia.
Qed.

Section pair_laws.
Context {A B} (c1 : codec A) (c2 : codec B) (wf1 : A -> Prop) (wf2 : B -> Prop).
Context `{!CodecOk c1 wf1, !CodecOk c2 wf2}.

Lemma pair_decode_Ok bs x rest : bytes_ok bs ->
  mls_decode (pair_codec c1 c2) bs = Ok (x, rest) ->
  exists r, bytes_ok r /\ mls_decode c1 bs = Ok (x.1, r) /\ mls_decode c2 r = Ok (x.2, rest).
Proof using Type*.
  intros Hbs H. simpl in H. res_inv. destruct x0 as [a r]. res_inv. destruct x0 as [b r']. res_inv.
  edestruct (dec_shrinks c1 wf1 bs) as (_ & Hr & _); [done|done|]. eauto.
Qed.

#[export] Instance pair_codec_ok : CodecOk (pair_codec c1 c2) (fun x => wf1 x.1 /\ wf2 x.2).
Proof using Type*.
  split.
  - intros [a b]. simpl. pose proof (enc_len_nonneg (c := c1) a).
    pose proof (enc_len_nonneg (c := c2) b). lia.
  - intros [a b] w. simpl. rewrite (enc_writer a w).
    destruct (mls_encode c1 a []) as [ba| |]; [|done|done]. simpl.
    rewrite (enc_writer b ba), (enc_writer b (w ++ ba)).
    destruct (mls_encode c2 b []); simpl; [|done|done]. by rewrite app_assoc.
  - intros [a b] [Ha Hb]. simpl in Ha, Hb. unfold enc_good. cbn -[mls_decode].
    pose proof (enc_spec (c := c1) a Ha) as Hga. pose proof (enc_spec (c := c2) b Hb) as Hgb.
    unfold enc_good in Hga, Hgb.
    destruct (mls_encode c1 a []) as [ba| |]; [|done|done]. simpl. rewrite enc_writer.
    destruct (mls_encode c2 b []) as [bb| |]; [|done|done]. simpl.
    destruct Hga as (? & ? & Hda), Hgb as (? & ? & Hdb).
    split; [by apply Forall_app|]. split; [rewrite zlen_app; lia|].
    intros rest Hr. rewrite <- app_assoc, Hda by (by apply Forall_app). simpl. by rewrite Hdb.
  - intros bs Hbs. unfold dec_good. cbn.
    pose proof (dec_spec (c := c1) bs Hbs) as Hd. unfold dec_good in Hd.
    destruct (mls_decode c1 bs) as [[a r]| |]; [|done|done]. simpl.
    destruct Hd as (Ha & p & ->). apply Forall_app in Hbs as [_ Hr].
    pose proof (dec_spec (c := c2) r Hr) as Hd'. unfold dec_good in Hd'.
    destruct (mls_decode c2 r) as [[b r']| |]; [|done|done]. simpl.
    destruct Hd' as (Hb & p' & ->). split; [done|]. exists (p ++ p'). by rewrite app_assoc.
Qed.

#[export] Instance pair_codec_canonical `{!CodecCanonical c1, !CodecCanonical c2} :
  CodecCanonical (pair_codec c1 c2).
Proof using Type*.
  intros bs x rest Hbs H. apply pair_decode_Ok in H as (r & Hr & H1 & H2); [|done].
  apply (dec_canonical (c := c1)) in H1 as (p1 & -> & E1); [|done].
  apply (dec_canonical (c := c2)) in H2 as (p2 & -> & E2); [|done].
  exists (p1 ++ p2). split; [by rewrite app_assoc|]. simpl. rewrite E1. simpl.
  by rewrite enc_writer, E2.
Qed.

Lemma pair_codec_progress : CodecProgress c1 \/ CodecProgress c2 ->
  CodecProgress (pair_codec c1 c2).
Proof using Type*.
  intros Hp bs x rest Hbs H. apply pair_decode_Ok in H as (r & Hr & H1 & H2); [|done].
  pose proof (dec_shrinks c1 wf1 _ _ _ Hbs H1) as (_ & _ & ?).
  pose proof (dec_shrinks c2 wf2 _ _ _ Hr H2) as (_ & _ & ?).
  destruct Hp as [Hp|Hp]; [apply Hp in H1; [lia|done]|apply Hp in H2; [lia|done]].
Qed.
End pair_laws.

#[export] Instance pair_codec_progress_l {A B} (c1 : codec A) (c2 : codec B) wf1 wf2
  `{!CodecOk c1 wf1, !CodecOk c2 wf2, !CodecProgress c1} : CodecProgress (pair_codec c1 c2).
Proof. eapply pair_codec_progress; eauto. Qed.

Lemma codec_ok_iff {A} (c : codec A) (wf wf' : A -> Prop) :
  (forall x, wf x <-> wf' x) -> CodecOk c wf -> CodecOk c wf'.
Proof.
  intros Hwf Hc. split; [apply enc_len_nonneg|apply enc_writer| |].
  - intros x Hx. apply (enc_spec (c := c)). by apply Hwf.
  - intros bs Hbs. pose proof (dec_spec (c := c) bs Hbs) as Hd. unfold dec_good in *.
    case_match; [|done|done]. case_match. by rewrite <- Hwf.
Qed.

#[export] Instance unit_codec_ok : CodecOk unit_codec (fun _ => True).
Proof.
  split; [simpl; lia|by intros [] w; simpl; rewrite app_nil_r| |].
  - intros [] _. split; [done|]. by split.
  - intros bs _. split; [done|]. by exists [].
Qed.

#[export] Instance unit_codec_canonical : CodecCanonical unit_codec.
Proof. intros bs [] rest _ [= <-]. by exists []. Qed.

Section view_laws.
Context {A B : Type} (c : codec B) (wf : B -> Prop) `{!CodecOk c wf}.

Lemma struct_codec_ok (fields : A -> B) (make : B -> A) :
  (forall x, make (fields x) = x) -> (forall b, fields (make b) = b) ->
  CodecOk (struct_codec fields make c) (fun x => wf (fields x)).
Proof using Type*.
  intros Hmf Hfm. split.
  - intros x. apply (enc_len_nonneg (c := c)).
  - intros x w. apply (enc_writer (c := c)).
  - intros x Hx. pose proof (enc_spec (c := c) (fields x) Hx) as Hg. unfold enc_good in *. simpl.
    case_match; [|done|done]. destruct Hg as (? & ? & Hd). split; [done|]. split; [done|].
    intros rest Hr. rewrite Hd by done. simpl. by rewrite Hmf.
  - intros bs Hbs. pose proof (dec_spec (c := c) bs Hbs) as Hd. unfold dec_good in *. simpl.
    destruct (mls_decode c bs) as [[b r]| |]; [|done|done]. simpl. by rewrite Hfm.
Qed.

Lemma struct_codec_canonical `{!CodecCanonical c} (fields : A -> B) (make : B -> A) :
  (forall b, fields (make b) = b) -> CodecCanonical (struct_codec fields make c).
Proof using Type*.
  intros Hfm bs x rest Hbs. simpl. intros ([b r] & Hb & [= <- <-])%bind_Ok.
  rewrite Hfm. by apply (dec_canonical (c := c)).
Qed.

Lemma struct_codec_progress `{!CodecProgress c} (fields : A -> B) (make : B -> A) :
  CodecProgress (struct_codec fields make c).
Proof using Type*.
  intros bs x rest Hbs. simpl. intros ([b r] & Hb & [= <- <-])%bind_Ok.
  by apply (dec_progress (c := c) bs b r).
Qed.

Lemma variant_codec_ok (inj : B -> A) (proj : A -> option B) :
  (forall x b, proj x = Some b <-> inj b = x) ->
  CodecOk (variant_codec inj proj c) (fun x => exists b, x = inj b /\ wf b).
Proof using Type*.
  intros Hp. assert (forall b, proj (inj b) = Some b) as Hpi by (intros b; by apply Hp).
  split.
  - intros x. simpl. case_match; [apply enc_len_nonneg|lia].
  - intros x w. simpl. case_match; [apply enc_writer|done].
  - intros x (b & -> & Hb). pose proof (enc_spec (c := c) b Hb) as Hg. unfold enc_good in *. simpl.
    rewrite Hpi. case_match; [|done|done]. destruct Hg as (? & ? & Hd).
    split; [done|]. split; [done|]. intros rest Hr. by rewrite Hd.
  - intros bs Hbs. pose proof (dec_spec (c := c) bs Hbs) as Hd. unfold dec_good in *. simpl.
    destruct (mls_decode c bs) as [[b r]| |]; [|done|done]. simpl. naive_solver.
Qed.

Lemma variant_codec_canonical `{!CodecCanonical c} (inj : B -> A) (proj : A -> option B) :
  (forall x b, proj x = Some b <-> inj b = x) -> CodecCanonical (variant_codec inj proj c).
Proof using Type*.
  intros Hp bs x rest Hbs. simpl. intros ([b r] & Hb & [= <- <-])%bind_Ok.
  replace (proj (inj b)) with (Some b) by (symmetry; by apply Hp).
  by apply (dec_canonical (c := c)).
Qed.
End view_laws.

Lemma struct_codec_ok_iff {A B} (c : codec B) (wf : B -> Prop) (fields : A -> B) (make : B -> A)
    (wf' : A -> Prop) :
  CodecOk c wf -> (forall x, make (fields x) = x) -> (forall b, fields (make b) = b) ->
  (forall x, wf (fields x) <-> wf' x) -> CodecOk (struct_codec fields make c) wf'.
Proof. intros Hc H1 H2 H3. eapply codec_ok_iff; [apply H3|]. by apply struct_codec_ok. Qed.

(** The laws of a derived struct codec from the ones of its fields. *)
Ltac split_pairs := repeat match goal with x : prod _ _ |- _ => destruct x end.
Ltac struct_ok :=
  eapply struct_codec_ok_iff;
  [apply _|by intros []|by intros; split_pairs|by intros []].
Ltac struct_canonical := eapply struct_codec_canonical; [apply _|apply _|by intros; split_pairs].

Ltac struct_progress := eapply struct_codec_progress; apply _.

Section enum_laws.
Context {A : Type} (dc : codec Z) (wfd : Z -> Prop) `{!CodecOk dc wfd}.
Context (disc : A -> Z) (variant : Z -> option (codec A)) (wf : A -> Prop).
Hypothesis variants_ok : forall t cv, variant t = Some cv ->
  CodecOk cv (fun x => disc x = t /\ wf x).

Lemma enum_codec_ok :
  (forall x, wf x -> is_Some (variant (disc x))) ->
  CodecOk (enum_codec dc disc variant) (fun x => wfd (disc x) /\ wf x).
Proof using Type*.
  intros Hwf. split.
  - intros x. simpl. pose proof (enc_len_nonneg (c := dc) (disc x)).
    destruct (variant (disc x)) as [cv|] eqn:E; [|lia].
    pose proof (variants_ok _ _ E). pose proof (enc_len_nonneg (c := cv) x). lia.
  - intros x w. simpl. rewrite (enc_writer (c := dc) (disc x) w).
    destruct (mls_encode dc (disc x) []) as [b| |]; [|done|done]. simpl.
    destruct (variant (disc x)) as [cv|] eqn:E; [|done]. pose proof (variants_ok _ _ E).
    rewrite (enc_writer (c := cv) x (w ++ b)), (enc_writer (c := cv) x b).
    destruct (mls_encode cv x []); [|done|done]. simpl. by rewrite app_assoc.
  - intros x [Hd Hx]. destruct (Hwf x Hx) as [cv E]. pose proof (variants_ok _ _ E) as Hcv.
    pose proof (enc_spec (c := dc) _ Hd) as Hg1.
    pose proof (enc_spec (c := cv) x (conj eq_refl Hx)) as Hg2.
    unfold enc_good in *. cbn -[mls_decode]. rewrite E.
    destruct (mls_encode dc (disc x) []) as [b| |]; [|done|done]. simpl. rewrite enc_writer.
    destruct (mls_encode cv x []) as [bv| |]; [|done|done]. simpl.
    destruct Hg1 as (? & ? & Hd1), Hg2 as (? & ? & Hd2).
    split; [by apply Forall_app|]. split; [rewrite zlen_app; lia|].
    intros rest Hr. rewrite <- app_assoc, Hd1 by (by apply Forall_app). simpl.
    rewrite E. by apply Hd2.
  - intros bs Hbs. pose proof (dec_spec (c := dc) bs Hbs) as Hd. unfold dec_good in *. simpl.
    destruct (mls_decode dc bs) as [[t r]| |]; [|done|done]. simpl.
    destruct (variant t) as [cv|] eqn:E; [|done]. pose proof (variants_ok _ _ E) as Hcv.
    destruct Hd as (Ht & p & ->). apply Forall_app in Hbs as [_ Hr].
    pose proof (dec_spec (c := cv) r Hr) as Hd2. unfold dec_good in Hd2.
    destruct (mls_decode cv r) as [[x r']| |]; [|done|done].
    destruct Hd2 as ((<- & ?) & p' & ->). split; [done|]. exists (p ++ p'). by rewrite app_assoc.
Qed.

Lemma enum_codec_canonical `{!CodecCanonical dc} :
  (forall t cv, variant t = Some cv -> CodecCanonical cv) ->
  CodecCanonical (enum_codec dc disc variant).
Proof using Type*.
  intros Hvc bs x rest Hbs. simpl. intros ([t r] & Ht & H)%bind_Ok.
  destruct (variant t) as [cv|] eqn:E; [|done].
  pose proof (variants_ok _ _ E) as Hcv. pose proof (Hvc _ _ E) as Hcc.
  edestruct (dec_shrinks dc wfd bs) as (_ & Hr & _); [done|done|].
  apply (dec_canonical (c := dc)) in Ht as (p & -> & Hp); [|done].
  edestruct (dec_shrinks cv (fun x => disc x = t /\ wf x) r) as ((Hdx & _) & _); [done|done|].
  rewrite Hdx, Hp, E. apply (dec_canonical (c := cv)) in H as (p' & -> & Hp'); [|done].
  exists (p ++ p'). split; [by rewrite app_assoc|]. simpl. by rewrite enc_writer, Hp'.
Qed.

Lemma enum_codec_progress `{!CodecProgress dc} : CodecProgress (enum_codec dc disc variant).
Proof using Type*.
  intros bs x rest Hbs. simpl. intros ([t r] & Ht & H)%bind_Ok.
  destruct (variant t) as [cv|] eqn:E; [|done]. pose proof (variants_ok _ _ E) as Hcv.
  edestruct (dec_shrinks dc wfd bs) as (_ & Hr & _); [done|done|].
  apply dec_progress in Ht; [|done].
  edestruct (dec_shrinks cv _ r) as (_ & _ & ?); [done|done|]. lia.
Qed.
End enum_laws.

(** The codec of one variant, as [enum_codec_ok] wants it. *)
Lemma variant_ok_disc {A B} (c : codec B) (wfb : B -> Prop) (inj : B -> A) (proj : A -> option B)
    (disc : A -> Z) (t : Z) (wf : A -> Prop) :
  CodecOk c wfb -> (forall x b, proj x = Some b <-> inj b = x) ->
  (forall b, disc (inj b) = t /\ (wf (inj b) <-> wfb b)) ->
  (forall x, disc x = t -> wf x -> exists b, x = inj b) ->
  CodecOk (variant_codec inj proj c) (fun x => disc x = t /\ wf x).
Proof.
  intros Hc Hp Hd Hx. eapply codec_ok_iff; [|by apply (variant_codec_ok c wfb)].
  intros x. split.
  - intros (b & -> & Hb). destruct (Hd b) as [-> Hw]. by rewrite Hw.
  - intros [Ht Hw]. destruct (Hx x Ht Hw) as [b ->]. exists b. split; [done|]. by apply Hd.
Qed.

(** ** Strings and maps *)

Definition string_wf (bs : bytes) : Prop := bytes_ok bs /\ utf8_valid bs = true.

#[export] Instance string_codec_ok : CodecOk string_codec string_wf.
Proof.
  split; [apply (enc_len_nonneg (c := vec_codec u8_codec))
         |apply (enc_writer (c := vec_codec u8_codec))| |].
  - intros x [Hx Hu]. pose proof (enc_spec (c := vec_codec u8_codec) x Hx) as Hg.
    unfold enc_good in *. cbn [mls_encode mls_decode mls_encoded_len string_codec].
    case_match; [|done|done]. destruct Hg as (? & ? & Hd). split; [done|]. split; [done|].
    intros rest Hr. rewrite Hd by done. simpl. by rewrite Hu.
  - intros bs Hbs. pose proof (dec_spec (c := vec_codec u8_codec) bs Hbs) as Hd.
    unfold dec_good in *. cbn [mls_decode string_codec].
    destruct (mls_decode (vec_codec u8_codec) bs) as [[x r]| |]; [|done|done]. simpl.
    destruct (utf8_valid x) eqn:E; [|done]. destruct Hd as [Hx Hp]. by split; [split|].
Qed.

Section map_laws.
Context {K V : Type} `{Countable K} (kc : codec K) (vc : codec V).
Context (wfk : K -> Prop) (wfv : V -> Prop).
Context `{!CodecOk kc wfk, !CodecOk vc wfv, !CodecProgress kc}.

Definition insert_all (items : gmap K V) (l : list (K * V)) : gmap K V :=
  foldl (fun m kv => <[kv.1 := kv.2]> m) items l.

Lemma decode_map_items_eq fuel data items :
  decode_map_items kc vc fuel data items =
    insert_all items <$> decode_items (pair_codec kc vc) fuel data.
Proof using Type.
  revert data items. induction fuel as [|fuel IH]; intros [|b data] items; try done.
  cbn [decode_map_items decode_items]. cbn -[decode_items decode_map_items].
  destruct (mls_decode kc (b :: data)) as [[k r]| |]; [|done|done]. simpl.
  destruct (mls_decode vc r) as [[v r']| |]; [|done|done]. simpl. rewrite IH.
  by destruct (decode_items _ fuel r').
Qed.

Lemma insert_all_union l items : NoDup l.*1 -> insert_all items l = list_to_map l ∪ items.
Proof using Type.
  revert items. induction l as [|[k v] l IH]; intros items Hl; simpl; [by rewrite (left_id_L ∅ (∪))|].
  apply NoDup_cons in Hl as [Hk Hl]. unfold insert_all in *. simpl. rewrite IH by done.
  rewrite <- insert_union_r, insert_union_l; [done|]. by apply not_elem_of_list_to_map.
Qed.

Lemma insert_all_perm l m : l ≡ₚ map_to_list m -> insert_all ∅ l = m.
Proof using Type.
  intros Hp. assert (NoDup l.*1) as Hnd by (rewrite Hp; apply NoDup_fst_map_to_list).
  rewrite insert_all_union, (right_id_L ∅ (∪)) by done.
  rewrite (list_to_map_proper l (map_to_list m)) by done. apply list_to_map_to_list.
Qed.

Definition map_wf (m : gmap K V) : Prop := map_Forall (fun k v => wfk k /\ wfv v) m.

Lemma insert_all_wf l items :
  map_wf items -> Forall (fun kv => wfk kv.1 /\ wfv kv.2) l -> map_wf (insert_all items l).
Proof using Type.
  revert items. induction l as [|[k v] l IH]; intros items Hi Hl; [done|].
  apply Forall_cons in Hl as [Hkv Hl]. apply IH; [|done]. by apply map_Forall_insert_2.
Qed.

Lemma map_codec_ok iter : (forall m, iter m ≡ₚ map_to_list m) ->
  CodecOk (map_codec kc vc iter) map_wf.
Proof using Type*.
  intros Hiter. set (pc := pair_codec kc vc). set (wfp := fun kv : K * V => wfk kv.1 /\ wfv kv.2).
  eapply collection_ok with (body_len := fun m => iter_items_len pc (iter m))
    (body := fun m => encode_items pc (iter m) [])
    (dec := fun data => decode_map_items kc vc (length data) data ∅).
  - done.
  - intros m w. apply (iter_encode_preallocate_eq pc wfp).
  - done.
  - intros m. apply (iter_items_len_nonneg pc wfp).
  - intros m Hm. assert (Forall wfp (iter m)) as Hl.
    { rewrite Hiter. apply Forall_forall. intros [k v] ?%elem_of_map_to_list. by apply (Hm k v). }
    pose proof (encode_items_spec pc wfp (iter m) Hl) as Hs. case_match; [|done|done].
    destruct Hs as (? & ? & Hd). split; [done|]. split; [done|].
    rewrite decode_map_items_eq, Hd by done. simpl. f_equal. by apply insert_all_perm.
  - intros bs Hbs. rewrite decode_map_items_eq.
    pose proof (decode_items_no_panic pc wfp _ bs Hbs (le_n _)) as Hd. fold pc.
    destruct (decode_items pc (length bs) bs); [|done|done]. simpl.
    apply insert_all_wf; [apply map_Forall_empty|done].
Qed.
End map_laws.

(** Encodings are prefix-free. *)
Lemma encode_inj {A} (c : codec A) wf `{!CodecOk c wf} x x' b b' r r' :
  wf x -> wf x' -> bytes_ok r -> bytes_ok r' ->
  mls_encode c x [] = Ok b -> mls_encode c x' [] = Ok b' -> b ++ r = b' ++ r' -> x = x' /\ r = r'.
Proof.
  intros Hx Hx' Hr Hr' E E' Heq.
  pose proof (enc_spec (c := c) x Hx) as Hg. pose proof (enc_spec (c := c) x' Hx') as Hg'.
  unfold enc_good in *. rewrite E in Hg. rewrite E' in Hg'.
  destruct Hg as (_ & _ & Hd), Hg' as (_ & _ & Hd').
  specialize (Hd r Hr). rewrite Heq, (Hd' r' Hr') in Hd. by injection Hd as -> ->.
Qed.

(** What encoding writes after [w]. *)
Lemma encode_app {A} (c : codec A) wf `{!CodecOk c wf} x w b :
  mls_encode c x w = Ok b -> exists b', mls_encode c x [] = Ok b' /\ b = w ++ b'.
Proof.
  rewrite (enc_writer (c := c)). destruct (mls_encode c x []) as [b'| |]; [|done|done]. intros [= <-]. eauto.
Qed.

Lemma encode_bytes_ok {A} (c : codec A) wf `{!CodecOk c wf} x b :
  wf x -> mls_encode c x [] = Ok b -> bytes_ok b.
Proof. intros Hx E. pose proof (enc_spec (c := c) x Hx) as Hg. unfold enc_good in Hg. rewrite E in Hg. tauto. Qed.

(** ** Dependent and optional fields *)

Section dep_laws.
Context {A B} (c1 : codec A) (c2 : A -> codec B) (wf1 : A -> Prop) (wf2 : A -> B -> Prop).
Context `{!CodecOk c1 wf1} (c2_ok : forall a, CodecOk (c2 a) (wf2 a)).

Lemma dep_codec_ok : CodecOk (dep_codec c1 c2) (fun x => wf1 x.1 /\ wf2 x.1 x.2).
Proof using Type*.
  assert (forall a, CodecOk (pair_codec c1 (c2 a)) (fun x => wf1 x.1 /\ wf2 a x.2)) as Hp by (intros a; apply _).
  split.
  - intros [a b]. apply (enc_len_nonneg (c := pair_codec c1 (c2 a))).
  - intros [a b] w. apply (enc_writer (c := pair_codec c1 (c2 a))).
  - intros [a b] [Ha Hb]. pose proof (enc_spec (c := pair_codec c1 (c2 a)) (a, b) (conj Ha Hb)) as Hg.
    pose proof (enc_spec (c := c1) a Ha) as Hg1. pose proof (enc_spec (c := c2 a) b Hb) as Hg2.
    unfold enc_good in *. cbn [mls_encode dep_codec pair_codec fst snd] in *.
    destruct (mls_encode c1 a []) as [ba| |]; [|done|done]. cbn [mbind res_bind] in *.
    rewrite (enc_writer b ba) in *.
    destruct (mls_encode (c2 a) b []) as [bb| |]; [|done|done]. cbn [fmap res_fmap] in *.
    destruct Hg as (Hok & Hl & _), Hg1 as (? & ? & Hd1), Hg2 as (? & ? & Hd2).
    split; [done|]. split; [done|]. intros rest Hr. cbn [mls_decode dep_codec].
    rewrite <- app_assoc, Hd1 by (by apply Forall_app). cbn [mbind res_bind]. by rewrite Hd2.
  - intros bs Hbs. unfold dec_good. cbn [mls_decode dep_codec].
    pose proof (dec_spec (c := c1) bs Hbs) as Hd. unfold dec_good in Hd.
    destruct (mls_decode c1 bs) as [[a r]| |]; [|done|done]. cbn [mbind res_bind].
    destruct Hd as (Ha & p & ->). apply Forall_app in Hbs as [_ Hr].
    pose proof (dec_spec (c := c2 a) r Hr) as Hd'. unfold dec_good in Hd'.
    destruct (mls_decode (c2 a) r) as [[b r']| |]; [|done|done]. cbn [mbind res_bind].
    destruct Hd' as (Hb & p' & ->). split; [done|]. exists (p ++ p'). by rewrite app_assoc.
Qed.

Lemma dep_codec_canonical : CodecCanonical c1 -> (forall a, CodecCanonical (c2 a)) ->
  CodecCanonical (dep_codec c1 c2).
Proof using Type*.
  intros H1 H2 bs [a b] rest Hbs H. apply (dec_canonical (c := pair_codec c1 (c2 a)) bs (a, b) rest Hbs).
  cbn [mls_decode dep_codec pair_codec] in *. apply bind_Ok in H as ([a' r] & -> & H). cbn [mbind res_bind].
  apply bind_Ok in H as ([b' r'] & H & [= -> -> ->]). by rewrite H.
Qed.
End dep_laws.

Section tail_laws.
Context {A} (present : bool) (c : codec A) (wf : A -> Prop) `{!CodecOk c wf}.

Definition tail_wf (o : option A) : Prop :=
  match o with Some x => present = true /\ wf x | None => present = false end.

#[export] Instance tail_codec_ok : CodecOk (tail_codec present c) tail_wf.
Proof using Type*.
  split.
  - intros [x|]; simpl; [apply enc_len_nonneg|lia].
  - intros [x|] w; simpl; [apply enc_writer|by rewrite app_nil_r].
  - intros [x|] Hx; unfold enc_good; cbn [mls_encode tail_codec].
    + destruct Hx as [Hp Hx]. pose proof (enc_spec (c := c) x Hx) as Hg. unfold enc_good in Hg.
      destruct (mls_encode c x []) as [b| |]; [|done|done]. destruct Hg as (? & ? & Hd).
      split; [done|]. split; [done|]. intros rest Hr. cbn [mls_decode tail_codec]. by rewrite Hp, Hd.
    + simpl in Hx. split; [done|]. split; [done|]. intros rest _. cbn [mls_decode tail_codec]. by rewrite Hx.
  - intros bs Hbs. unfold dec_good, tail_wf. cbn [mls_decode tail_codec]. destruct present; [|split; [done|by exists (@nil Z)]].
    pose proof (dec_spec (c := c) bs Hbs) as Hd. unfold dec_good in Hd.
    destruct (mls_decode c bs) as [[x r]| |]; [|done|done]. cbn [mbind res_bind]. naive_solver.
Qed.

#[export] Instance tail_codec_canonical `{!CodecCanonical c} : CodecCanonical (tail_codec present c).
Proof using Type*.
  intros bs o rest Hbs. cbn [mls_decode tail_codec]. destruct present.
  - intros ([x r] & Hx & [= <- <-])%bind_Ok. by apply (dec_canonical (c := c)).
  - intros [= <- <-]. by exists (@nil Z).
Qed.
End tail_laws.

(** ** Codecs that agree

    A codec that refuses some values is the codec that does not on the values
    of [P]; this is kept by the ways codecs are put together. *)

Record codec_agree {A} (P : A -> Prop) (c c' : codec A) : Prop := {
  agree_len x : P x -> mls_encoded_len c x = mls_encoded_len c' x;
  agree_enc x w : P x -> mls_encode c x w = mls_encode c' x w;
  agree_dec bs : mls_decode c bs = mls_decode c' bs;
}.

Lemma agree_refl {A} (P : A -> Prop) c : codec_agree P c c.
Proof. done. Qed.

Lemma agree_weaken {A} (P Q : A -> Prop) c c' :
  (forall x, Q x -> P x) -> codec_agree P c c' -> codec_agree Q c c'.
Proof. intros HQ [H1 H2 H3]. split; auto. Qed.

Section agree.
Context {A B : Type}.

Lemma agree_dep (P1 : A -> Prop) (P2 : A -> B -> Prop) c1 c1' c2 c2' :
  codec_agree P1 c1 c1' -> (forall a, codec_agree (P2 a) (c2 a) (c2' a)) ->
  codec_agree (fun x => P1 x.1 /\ P2 x.1 x.2) (dep_codec c1 c2) (dep_codec c1' c2').
Proof.
  intros [L1 E1 D1] H2. split.
  - intros [a b] [Ha Hb]. destruct (H2 a) as [L2 _ _]. cbn in *. by rewrite L1, L2.
  - intros [a b] w [Ha Hb]. destruct (H2 a) as [_ E2 _]. cbn in *. rewrite E1 by done.
    destruct (mls_encode c1' a w); [|done|done]. cbn. by apply E2.
  - intros bs. cbn. rewrite D1. destruct (mls_decode c1' bs) as [[a r]| |]; [|done|done]. cbn.
    destruct (H2 a) as [_ _ D2]. by rewrite D2.
Qed.

Lemma agree_pair (P1 : A -> Prop) (P2 : B -> Prop) c1 c1' c2 c2' :
  codec_agree P1 c1 c1' -> codec_agree P2 c2 c2' ->
  codec_agree (fun x => P1 x.1 /\ P2 x.2) (pair_codec c1 c2) (pair_codec c1' c2').
Proof. intros H1 H2. by apply (agree_dep P1 (fun _ => P2) c1 c1' (fun _ => c2) (fun _ => c2')). Qed.

Lemma agree_struct (P : B -> Prop) (fields : A -> B) (make : B -> A) c c' :
  codec_agree P c c' -> codec_agree (fun x => P (fields x)) (struct_codec fields make c) (struct_codec fields make c').
Proof.
  intros [L E D]. split; [intros x; apply L|intros x w; apply E|]. intros bs. cbn. by rewrite D.
Qed.

Lemma agree_variant (P : B -> Prop) (inj : B -> A) proj c c' :
  codec_agree P c c' ->
  codec_agree (fun x => forall b, proj x = Some b -> P b) (variant_codec inj proj c) (variant_codec inj proj c').
Proof.
  intros [L E D]. split.
  - intros x Hx. cbn. destruct (proj x); [by apply L, Hx|done].
  - intros x w Hx. cbn. destruct (proj x); [by apply E, Hx|done].
  - intros bs. cbn. by rewrite D.
Qed.

Lemma agree_enum (P : A -> Prop) dc disc variant variant' :
  (forall t, match variant t, variant' t with
             | Some c, Some c' => codec_agree P c c'
             | None, None => True
             | _, _ => False
             end) ->
  codec_agree P (enum_codec dc disc variant) (enum_codec dc disc variant').
Proof.
  intros Hv. split.
  - intros x Hx. cbn. specialize (Hv (disc x)). destruct (variant (disc x)), (variant' (disc x)); try done.
    by rewrite (agree_len _ _ _ Hv).
  - intros x w Hx. cbn. destruct (mls_encode dc (disc x) w); [|done|done]. cbn.
    specialize (Hv (disc x)). destruct (variant (disc x)), (variant' (disc x)); try done.
    by apply (agree_enc _ _ _ Hv).
  - intros bs. cbn. destruct (mls_decode dc bs) as [[t r]| |]; [|done|done]. cbn.
    specialize (Hv t). destruct (variant t), (variant' t); try done. apply (agree_dec _ _ _ Hv).
Qed.

Lemma agree_vec (P : A -> Prop) c c' :
  codec_agree P c c' -> codec_agree (Forall P) (vec_codec c) (vec_codec c').
Proof.
  intros [L E D].
  assert (forall l, Forall P l -> iter_items_len c l = iter_items_len c' l) as HL.
  { induction 1 as [|x l Hx Hl IH]; [done|]. cbn. unfold iter_items_len in IH. by rewrite L, IH. }
  assert (forall l w, Forall P l -> encode_items c l w = encode_items c' l w) as HE.
  { intros l w Hl. revert w. induction Hl as [|x l Hx Hl IH]; intros w; [done|]. cbn. rewrite E by done.
    destruct (mls_encode c' x w); [|done|done]. cbn. apply IH. }
  assert (forall n bs, decode_items c n bs = decode_items c' n bs) as HD.
  { induction n as [|n IH]; intros [|b bs]; try done. cbn. rewrite D.
    destruct (mls_decode c' (b :: bs)) as [[x r]| |]; [|done|done]. cbn. by rewrite IH. }
  split.
  - intros l Hl. cbn. unfold iter_encoded_len. by rewrite (HL l Hl).
  - intros l w Hl. cbn. unfold iter_encode_preallocate. rewrite (HL l Hl).
    destruct (varint_try_from_usize _) as [n| |]; [|done|done]. cbn.
    destruct (varint_encode n w); [|done|done]. cbn. by apply HE.
  - intros bs. cbn [mls_decode vec_codec]. unfold mls_decode_collection.
    destruct (mls_decode_split_on_collection bs) as [[d r]| |]; cbn [mbind res_bind]; [|done|done]. by rewrite HD.
Qed.
End agree.

(** What agreement gives: the laws of the other codec on the values of [P]. *)
Lemma agree_good {A} (P wf : A -> Prop) (c c' : codec A) `{!CodecOk c' wf} :
  codec_agree P c c' ->
  (forall x, wf x -> P x -> enc_good c x) /\ (forall bs, bytes_ok bs -> dec_good c wf bs).
Proof.
  intros [L E D]. split.
  - intros x Hx HP. pose proof (enc_spec (c := c') x Hx) as Hg. unfold enc_good in *. rewrite E, L by done.
    case_match; [|done|done]. destruct Hg as (? & ? & Hd). split; [done|]. split; [done|].
    intros rest Hr. by rewrite D, Hd.
  - intros bs Hbs. unfold dec_good. rewrite D. by apply (dec_spec (c := c')).
Qed.

Lemma agree_canonical {A} (P wf : A -> Prop) (c c' : codec A) `{!CodecCanonical c'} bs x rest :
  codec_agree P c c' -> bytes_ok bs -> mls_decode c bs = Ok (x, rest) -> P x ->
  exists p, bs = p ++ rest /\ mls_encode c x [] = Ok p.
Proof. intros [L E D] Hbs. rewrite D. intros Hd HP. rewrite E by done. by apply (dec_canonical (c := c')). Qed.

(** ** Values that can be encoded

    Encoding fails only for lengths beyond the range of a varint. *)

Definition encodable {A} (c : codec A) (x : A) : Prop := exists b, mls_encode_to_vec c x = Ok b.

Lemma encodable_writer {A} (c : codec A) wf `{!CodecOk c wf} x w :
  encodable c x <-> exists b, mls_encode c x w = Ok b.
Proof.
  unfold encodable, mls_encode_to_vec. rewrite (enc_writer (c := c) x w).
  destruct (mls_encode c x []); simpl; naive_solver.
Qed.

Lemma encodable_byte_vec x : encodable byte_vec_codec x <-> zlen x <= varint_max.
Proof.
  unfold encodable, mls_encode_to_vec. rewrite byte_vec_encode_eq, varint_try_from_usize_eq.
  pose proof (zlen_nonneg x). destruct (Z.leb_spec (zlen x) varint_max).
  - cbn [mbind res_bind]. rewrite varint_encode_eq by done. simpl. naive_solver.
  - simpl. split; [naive_solver|lia].
Qed.

Lemma encodable_uint n x : encodable (uint_codec n) x.
Proof. by eexists. Qed.

Section encodable.
Context {A B : Type} (c1 : codec A) (c2 : codec B) (wf1 : A -> Prop) (wf2 : B -> Prop)
  `{!CodecOk c1 wf1, !CodecOk c2 wf2}.

Lemma encodable_pair x y : encodable (pair_codec c1 c2) (x, y) <-> encodable c1 x /\ encodable c2 y.
Proof using Type*.
  unfold encodable at 1 2, mls_encode_to_vec. simpl. split.
  - intros (b & (w & Hw & Hb)%bind_Ok). split; [by exists w|]. rewrite (encodable_writer c2 wf2). by exists b.
  - intros ((w & Hw) & Hy). rewrite Hw. by apply (encodable_writer c2 wf2).
Qed.

Lemma encodable_option (o : option A) :
  encodable (option_codec c1) o <-> (forall x, o = Some x -> encodable c1 x).
Proof using Type*.
  unfold encodable at 1, mls_encode_to_vec. destruct o as [x|]; simpl.
  - rewrite <- (encodable_writer c1 wf1). naive_solver.
  - split; [naive_solver|]. intros _. by eexists.
Qed.

(** A value of the variant [inj] of a derived enum. *)
Lemma encodable_enum {E : Type} discriminant (variant : Z -> option (codec E)) (inj : A -> E) proj x :
  variant (discriminant (inj x)) = Some (variant_codec inj proj c1) -> proj (inj x) = Some x ->
  encodable (enum_codec u8_codec discriminant variant) (inj x) <-> encodable c1 x.
Proof using Type*.
  intros Hv Hp. unfold encodable at 1, mls_encode_to_vec. cbn [mls_encode enum_codec].
  rewrite Hv. simpl. rewrite Hp. by rewrite (encodable_writer c1 wf1).
Qed.
End encodable.

Lemma encodable_struct {A B} (fields : A -> B) (make : B -> A) (c : codec B) x :
  encodable (struct_codec fields make c) x <-> encodable c (fields x).
Proof. done. Qed.

(** ** Theorems *)

(** C34: variable-size integers.  Decoding accepts exactly the shortest form of
    a number below 2^30 and returns what follows it, encoding writes that
    form, and every other input is rejected with the error of the wire format:
    end of input, a prefix of 3, or a form that is too long. *)
Theorem varint_wire_format (bs : bytes) (Hbs : bytes_ok bs) :
  varint_decode bs = varint_decode_spec bs /\
  (forall n rest, varint_decode bs = Ok (n, rest) <->
     is_Some (res_ok (varint_try_from_u32 n)) /\ 0 <= n /\
     exists p, bs = p ++ rest /\ varint_encode n [] = Ok p).
Proof.
  split; [by apply varint_decode_eq|]. intros n rest. split.
  - rewrite varint_decode_eq by done. intros [[H1 H2] ->]%varint_spec_Ok; [|done].
    unfold varint_try_from_u32. destruct (Z.leb_spec n varint_max); [|lia].
    split; [done|]. split; [done|]. eexists. split; [done|]. by rewrite varint_encode_eq.
  - intros (Hn & H0 & p & -> & Hp). unfold varint_try_from_u32 in Hn.
    destruct (Z.leb_spec n varint_max); [|by destruct Hn].
    rewrite varint_encode_eq in Hp by done. simplify_eq/=.
    rewrite varint_decode_eq by done. by apply varint_spec_bytes.
Qed.

Lemma varint_wire_format_witness :
  varint_decode [64; 64; 7] = Ok (64, [7]) /\ varint_decode [64; 63] = Err VarIntMinimumLengthEncoding.
Proof.
  destruct (varint_wire_format [64; 64; 7] ltac:(by repeat constructor)) as [H _].
  destruct (varint_wire_format [64; 63] ltac:(by repeat constructor)) as [H' _].
  rewrite H, H'. by split.
Defined.

(** The encoder with the feature [preallocate], which announces the
    length before it writes the items, produces the same bytes and the same
    errors as the encoder that buffers the items, for every item type whose
    announced length is right. *)
Theorem preallocate_equiv {A} (c : codec A) (wf : A -> Prop) (Hc : CodecOk c wf)
    (l : list A) (w : bytes) (Hl : Forall wf l) :
  iter_encode_preallocate c l w = iter_encode_buffered c l w.
Proof.
  rewrite (iter_encode_preallocate_eq c wf). unfold iter_encode_buffered.
  destruct (encode_items c l []) as [b|e|] eqn:E.
  - cbn [mbind res_bind]. by rewrite (encode_items_zlen c wf l b Hl E).
  - assert (e = VarIntOutOfRange) as ->.
    { pose proof (encode_items_err c wf l Hl) as He. by rewrite E in He. }
    rewrite varint_try_from_usize_eq. pose proof (iter_items_len_nonneg c wf l).
    destruct (Z.leb_spec (iter_items_len c l) varint_max); [|done]. cbn [mbind res_bind].
    by rewrite varint_encode_eq.
  - pose proof (encode_items_err c wf l Hl) as He. by rewrite E in He.
Qed.

Lemma preallocate_equiv_witness :
  iter_encode_preallocate u16_codec [1; 515] [9] = Ok [9; 4; 0; 1; 2; 3] /\
  iter_encode_buffered u16_codec [1; 515] [9] = Ok [9; 4; 0; 1; 2; 3].
Proof.
  rewrite <- (preallocate_equiv u16_codec (in_uint 16) (uint_codec_ok 2) [1; 515] [9]
    ltac:(by repeat constructor)).
  by split.
Defined.

(** The codec of vectors is right for every item codec that is: what it
    writes has the announced length and decodes to the same items, the only
    failure is a body of 2^30 bytes or more, and decoding any bytes ends with
    well-formed items, which encode to exactly the bytes read, or an error. *)
Theorem vec_codec_correct {A} (c : codec A) (wf : A -> Prop)
    (Hc : CodecOk c wf) (Hp : CodecProgress c) (Hcan : CodecCanonical c) :
  (forall l, Forall wf l ->
     match mls_encode_to_vec (vec_codec c) l with
     | Ok b => zlen b = mls_encoded_len (vec_codec c) l /\
               forall rest, bytes_ok rest -> mls_decode (vec_codec c) (b ++ rest) = Ok (l, rest)
     | Err e => e = VarIntOutOfRange
     | Panic => False
     end) /\
  (forall bs, bytes_ok bs ->
     match mls_decode (vec_codec c) bs with
     | Ok (l, rest) => Forall wf l /\
         exists p, bs = p ++ rest /\ mls_encode_to_vec (vec_codec c) l = Ok p
     | Err _ => True
     | Panic => False
     end).
Proof.
  split.
  - intros l Hl. pose proof (enc_spec (c := vec_codec c) l Hl) as H. unfold enc_good in H.
    unfold mls_encode_to_vec. case_match; naive_solver.
  - intros bs Hbs. pose proof (dec_spec (c := vec_codec c) bs Hbs) as H. unfold dec_good in H.
    destruct (mls_decode (vec_codec c) bs) as [[l rest]| |] eqn:E; [|done|done].
    split; [apply H|].
    apply (vec_codec_canonical c wf bs l rest Hbs E).
Qed.

Lemma vec_codec_correct_witness :
  mls_encode_to_vec (vec_codec (option_codec u16_codec)) [Some 258; None] = Ok [4; 1; 1; 2; 0] /\
  mls_decode (vec_codec (option_codec u16_codec)) ([4; 1; 1; 2; 0] ++ [5]) = Ok ([Some 258; None], [5]).
Proof.
  split; [done|].
  destruct (vec_codec_correct (option_codec u16_codec) (option_wf (in_uint 16))
    ltac:(apply (option_codec_ok u16_codec (in_uint 16)))
    ltac:(apply (option_codec_progress u16_codec (in_uint 16)))
    ltac:(apply (option_codec_canonical u16_codec (in_uint 16)))) as [H _].
  specialize (H [Some 258; None] ltac:(by repeat constructor)).
  cbn -[mls_decode] in H. apply (proj2 H). by repeat constructor.
Defined.

(** A byte vector copied as one slice has the same length, the same bytes
    and the same decoder as a [Vec<u8>] encoded byte by byte, errors
    included. *)
Theorem byte_vec_same_wire (data writer reader : bytes)
    (Hd : bytes_ok data) (Hr : bytes_ok reader) :
  mls_encoded_len byte_vec_codec data = mls_encoded_len (vec_codec u8_codec) data /\
  mls_encode byte_vec_codec data writer = mls_encode (vec_codec u8_codec) data writer /\
  mls_decode byte_vec_codec reader = mls_decode (vec_codec u8_codec) reader.
Proof.
  assert (iter_items_len u8_codec data = zlen data) as Hl by apply u8_items_len.
  split; [simpl; unfold iter_encoded_len; by rewrite Hl|]. split.
  - cbn [mls_encode vec_codec]. rewrite (iter_encode_preallocate_eq u8_codec (in_uint 8)), Hl.
    by rewrite u8_items_encode.
  - rewrite byte_vec_decode_eq. cbn [mls_decode vec_codec]. unfold mls_decode_collection.
    destruct (mls_decode_split_on_collection reader) as [[d r]| |] eqn:E; [|done|done].
    cbn [mbind res_bind]. by rewrite u8_items_decode.
Qed.

Lemma byte_vec_same_wire_witness :
  mls_encode (vec_codec u8_codec) [1; 2] [9] = Ok [9; 2; 1; 2] /\
  mls_decode (vec_codec u8_codec) [2; 8; 7; 6] = Ok ([8; 7], [6]).
Proof.
  destruct (byte_vec_same_wire [1; 2] [9] [2; 8; 7; 6] ltac:(by repeat constructor)
    ltac:(by repeat constructor)) as (_ & He & Hd).
  rewrite <- He, <- Hd. by split.
Defined.

(** A map decodes to itself whatever the order its entries are written
    in: the hashing order of a [HashMap] or the key order of a [BTreeMap]. *)
Theorem map_roundtrip {K V} `{Countable K} (kc : codec K) (vc : codec V) (wfk : K -> Prop)
    (wfv : V -> Prop) (Hk : CodecOk kc wfk) (Hv : CodecOk vc wfv) (Hp : CodecProgress kc)
    (iter : gmap K V -> list (K * V)) (Hiter : forall m, iter m ≡ₚ map_to_list m)
    (m : gmap K V) (Hm : map_wf wfk wfv m) :
  match mls_encode_to_vec (map_codec kc vc iter) m with
  | Ok b => forall rest, bytes_ok rest -> mls_decode (map_codec kc vc iter) (b ++ rest) = Ok (m, rest)
  | Err e => e = VarIntOutOfRange
  | Panic => False
  end.
Proof.
  pose proof (map_codec_ok kc vc wfk wfv iter Hiter) as Hc.
  pose proof (enc_spec (c := map_codec kc vc iter) m Hm) as H'. unfold enc_good in H'.
  unfold mls_encode_to_vec. case_match; naive_solver.
Qed.

Lemma map_roundtrip_witness :
  mls_decode (map_codec u8_codec u16_codec (fun m => reverse (map_to_list m))) [6; 9; 0; 1; 7; 1; 0]
  = Ok (<[7 := 256]> {[9 := 1]}, []).
Proof.
  pose proof (map_roundtrip (K := Z) u8_codec u16_codec (in_uint 8) (in_uint 16)
    (uint_codec_ok 1) (uint_codec_ok 2) (uint_codec_progress 0)
    (fun m => reverse (map_to_list m)) (fun m => reverse_Permutation _)
    (<[7 := 256]> {[9 := 1]})
    ltac:(apply map_Forall_insert_2; [done|by apply map_Forall_singleton])) as H.
  vm_compute in H. vm_compute. apply (H []). constructor.
Defined.
