(* ===== verification/Crypto.v ===== *)
(** * Errors, the cryptographic provider and labelled key derivation

    [MlsError] is the error type of the library (client.rs), [AnyError] the
    wrapper for errors of providers.  The class [CipherSuiteProvider] is the
    trait of the same name (mls-rs-core, crypto.rs): the cryptographic
    primitives, which are implemented outside the library and are parameters
    here.  An operation that draws randomness takes the coins it draws as an
    argument, so that each operation is a function.  The classes [AeadLaws] and
    [KdfLaws] state what the trait documents and the theorems rely on.
    [kdf_expand_with_label] and [kdf_derive_secret] are the derivations of
    key_schedule.rs that every other component uses.  [Toy] is a provider that
    satisfies the laws. *)

From S2P Require Import Prelude Codec.

#[local] Set Default Goal Selector "!".
Local Open Scope Z_scope.

(** ** Errors *)

(** [MlsError], with the wrapper of provider errors and the errors of extensions
    (mls-rs-core, extension.rs) that its variants carry. *)
Inductive MlsError :=
| IdentityProviderError (e : AnyError)
| CryptoProviderError (e : AnyError)
| KeyPackageRepoError (e : AnyError)
| GroupStorageError (e : AnyError)
| PskStoreError (e : AnyError)
| MlsRulesError (e : AnyError)
| SerializationError (e : AnyError)
| ExtensionError (e : AnyError)
| CipherSuiteMismatch
| CommitMissingPath
| InvalidEpoch
| InvalidSignature
| InvalidConfirmationTag
| InvalidMembershipTag
| InvalidTreeKemPrivateKey
| WelcomeKeyPackageNotFound
| LeafNotFound (n : Z)
| CantProcessMessageFromSelf
| CommitRequired
| RatchetTreeNotFound
| ExternalSenderCannotCommit
| UnsupportedProtocolVersion (n : Z)
| ProtocolVersionMismatch
| UnsupportedCipherSuite (n : Z)
| UnknownSigningIdentityForExternalSender
| ExternalProposalsDisabled
| InvalidExternalSigningIdentity
| MissingExternalPubExtension
| EpochNotFound
| UnencryptedApplicationMessage
| ExpectedCommitForNewMemberCommit
| ExpectedAddProposalForNewMemberProposal
| ExternalCommitMissingExternalInit
| GroupUsedAfterReInit
| PendingReInitNotFound
| ReInitExtensionsMismatch
| SignerNotFound
| ExistingPendingCommit
| PendingCommitNotFound
| UnexpectedMessageType
| MembershipTagForNonMember
| MemberNotFound
| GroupNotFound
| UnexpectedPskId
| InvalidSender
| GroupIdMismatch
| NonZeroRetentionRequired
| TooManyPskIds
| MissingRequiredPsk
| OldGroupStateNotFound
| InvalidLeafConsumption
| KeyMissing (n : Z)
| InvalidFutureGeneration (n : Z)
| LeafNodeNoChildren
| LeafNodeNoParent
| InvalidTreeIndex
| TimeOverflow
| InvalidLeafNodeSource
| InvalidLifetime (not_before not_after timestamp : Z)
| RequiredExtensionNotFound (n : Z)
| RequiredProposalNotFound (n : Z)
| RequiredCredentialNotFound (n : Z)
| ExtensionNotInCapabilities (n : Z)
| ExpectedNode
| InvalidNodeIndex (n : Z)
| UnexpectedEmptyNode
| DuplicateLeafData (n : Z)
| InUseCredentialTypeUnsupportedByNewLeaf
| CredentialTypeOfNewLeafIsUnsupported
| WrongPathLen
| SameHpkeKey (n : Z)
| InvalidInitKey
| InitLeafKeyEquality
| DifferentIdentityInUpdate (n : Z)
| PubKeyMismatch
| TreeHashMismatch
| UpdateErrorNoSecretKey
| LcaNotFoundInDirectPath
| ParentHashMismatch
| UnmergedLeavesMismatch
| UnexpectedEmptyTree
| UnexpectedTrailingBlanks
| InvalidCommitSelfUpdate
| InvalidTypeOrUsageInPreSharedKeyProposal
| InvalidPskNonceLength
| InvalidProtocolVersionInReInit
| MoreThanOneProposalForLeaf (n : Z)
| MoreThanOneGroupContextExtensionsProposal
| InvalidProposalTypeForSender
| ExternalCommitMustHaveExactlyOneExternalInit
| ExternalCommitMustHaveNewLeaf
| ExternalCommitRemovesOtherIdentity
| ExternalCommitWithMoreThanOneRemove
| DuplicatePskIds
| InvalidProposalTypeInExternalCommit (n : Z)
| CommitterSelfRemoval
| OnlyMembersCanCommitProposalsByRef
| OtherProposalWithReInit
| UnsupportedGroupExtension (n : Z)
| UnsupportedCustomProposal (n : Z)
| ProposalNotFound
| RemovingNonExistingMember
| InvalidSuccessor
| UpdatingNonExistingMember
| FailedGeneratingPathSecret
| InvalidGroupInfo
| InvalidWelcomeMessage
| ExporterDeleted
| SelfRemoveAlreadyProposed
with AnyError :=
| any_codec (e : codec_error)
| any_extension (e : ExtensionErr)
| any_mls (e : MlsError)
| any_provider (code : Z)
with ExtensionErr :=
| ExtSerializationError (e : AnyError)
| ExtDeserializationError (e : AnyError)
| IncorrectType (extension_type : Z).

Notation mres := (res MlsError).

(** [From<mls_rs_codec::Error> for MlsError], applied by [?]. *)
Definition from_codec {A} (m : cres A) : mres A :=
  map_err (fun e => SerializationError (any_codec e)) m.

(** [From<ExtensionError> for MlsError]. *)
Definition from_extension_error {A} (m : res ExtensionErr A) : mres A :=
  map_err (fun e => ExtensionError (any_extension e)) m.

(** [map_err(|e| MlsError::CryptoProviderError(e.into_any_error()))]. *)
Definition from_crypto {A} (m : res AnyError A) : mres A := map_err CryptoProviderError m.

(** ** Keys and ciphertexts *)

Record HpkeCiphertext := mk_hpke_ciphertext { kem_output : bytes; hpke_ct : bytes }.

#[export] Instance HpkeCiphertext_eq_dec : EqDecision HpkeCiphertext.
Proof. solve_decision. Defined.

Definition hpke_ciphertext_codec : codec HpkeCiphertext :=
  struct_codec (fun c => (kem_output c, hpke_ct c))
    (fun '(k, c) => mk_hpke_ciphertext k c) (pair_codec byte_vec_codec byte_vec_codec).

(** Newtypes over a byte vector: [HpkePublicKey], [HpkeSecretKey],
    [SignaturePublicKey] and [SignatureSecretKey] are encoded as it is. *)
Notation HpkePublicKey := bytes (only parsing).
Notation HpkeSecretKey := bytes (only parsing).
Notation SignaturePublicKey := bytes (only parsing).
Notation SignatureSecretKey := bytes (only parsing).

(** ** The provider *)

Class CipherSuiteProvider := {
  Coins : Type;
  HpkeContextS : Type;
  HpkeContextR : Type;
  cipher_suite : Z;
  hash : bytes -> res AnyError bytes;
  mac : bytes -> bytes -> res AnyError bytes;
  aead_seal : forall (key data : bytes) (aad : option bytes) (nonce : bytes), res AnyError bytes;
  aead_open : forall (key ct : bytes) (aad : option bytes) (nonce : bytes), res AnyError bytes;
  aead_key_size : Z;
  aead_nonce_size : Z;
  kdf_extract : forall (salt ikm : bytes), res AnyError bytes;
  kdf_expand : forall (prk info : bytes) (len : Z), res AnyError bytes;
  kdf_extract_size : Z;
  hpke_seal : Coins -> forall (remote_key : HpkePublicKey) (info : bytes) (aad : option bytes)
    (pt : bytes), res AnyError HpkeCiphertext;
  hpke_open : forall (ct : HpkeCiphertext) (local_secret : HpkeSecretKey)
    (local_public : HpkePublicKey) (info : bytes) (aad : option bytes), res AnyError bytes;
  hpke_setup_s : Coins -> forall (remote_key : HpkePublicKey) (info : bytes),
    res AnyError (bytes * HpkeContextS);
  hpke_setup_r : forall (kem_output : bytes) (local_secret : HpkeSecretKey)
    (local_public : HpkePublicKey) (info : bytes), res AnyError HpkeContextR;
  context_s_export : HpkeContextS -> forall (exporter_context : bytes) (len : Z), res AnyError bytes;
  context_r_export : HpkeContextR -> forall (exporter_context : bytes) (len : Z), res AnyError bytes;
  kem_derive : forall ikm : bytes, res AnyError (HpkeSecretKey * HpkePublicKey);
  kem_generate : Coins -> res AnyError (HpkeSecretKey * HpkePublicKey);
  kem_public_key_validate : HpkePublicKey -> res AnyError unit;
  random_bytes_vec : Coins -> forall count : Z, res AnyError bytes;
  signature_key_generate : Coins -> res AnyError (SignatureSecretKey * SignaturePublicKey);
  signature_key_derive_public : SignatureSecretKey -> res AnyError SignaturePublicKey;
  sign : Coins -> SignatureSecretKey -> bytes -> res AnyError bytes;
  verify : SignaturePublicKey -> forall (signature data : bytes), res AnyError unit;
}.

(** An AEAD ciphertext opens under the key, nonce and associated data it was
    sealed with. *)
Class AeadLaws `{CipherSuiteProvider} : Prop := {
  aead_open_seal key data aad nonce ct :
    aead_seal key data aad nonce = Ok ct -> aead_open key ct aad nonce = Ok data;
}.

(** The KDF is HKDF (RFC 5869): extracting from some key material gives a key of
    [kdf_extract_size] bytes, and a key of that size expands to any length up to
    255 times that size.  Nothing is said of keys of another size, of longer
    outputs or of empty key material, which providers refuse.  The keys and
    nonces of the AEAD are not longer than what can be expanded. *)
Class KdfLaws `{CipherSuiteProvider} : Prop := {
  kdf_extract_ok salt ikm : ikm <> [] ->
    exists prk, kdf_extract salt ikm = Ok prk /\ zlen prk = kdf_extract_size /\ bytes_ok prk;
  kdf_expand_ok prk info len : zlen prk = kdf_extract_size -> 0 <= len <= 255 * kdf_extract_size ->
    exists out, kdf_expand prk info len = Ok out /\ zlen out = len /\ bytes_ok out;
  kdf_size : 0 < kdf_extract_size /\ 255 * kdf_extract_size < 2 ^ 16;
  aead_sizes : 0 <= aead_key_size <= 255 * kdf_extract_size /\ 0 <= aead_nonce_size <= 255 * kdf_extract_size;
}.

(** What the KDF has made is a key that can be expanded. *)
Definition secret_sized `{CipherSuiteProvider} (x : bytes) : Prop := zlen x = kdf_extract_size /\ bytes_ok x.

(** The hash succeeds, with an output of at most 255 bytes. *)
Class HashLaws `{CipherSuiteProvider} : Prop := {
  hash_total data : exists out, hash data = Ok out /\ zlen out <= 255 /\ bytes_ok out;
}.

(** Signatures verify under the public key of their secret key. *)
Class SignatureLaws `{CipherSuiteProvider} : Prop := {
  verify_sign coins sk pk data sig :
    signature_key_derive_public sk = Ok pk -> sign coins sk data = Ok sig -> verify pk sig data = Ok tt;
}.

(** The key pairs of the KEM. *)
Definition is_key_pair `{CipherSuiteProvider} (sk : HpkeSecretKey) (pk : HpkePublicKey) : Prop :=
  (exists ikm, kem_derive ikm = Ok (sk, pk)) \/ (exists coins, kem_generate coins = Ok (sk, pk)).

(** The keys of a pair are valid and short, and what is sealed to the public key opens
    with the pair under the same info and associated data. *)
Class HpkeLaws `{CipherSuiteProvider} : Prop := {
  validate_key_pair sk pk : is_key_pair sk pk -> kem_public_key_validate pk = Ok tt;
  key_pair_size sk pk : is_key_pair sk pk -> zlen pk < 2 ^ 16;
  hpke_open_seal coins sk pk info aad pt ct : is_key_pair sk pk ->
    hpke_seal coins pk info aad pt = Ok ct -> hpke_open ct sk pk info aad = Ok pt;
}.

(** ** Labelled key derivation *)

Record Label := mk_label { lbl_length : Z; lbl_label : bytes; lbl_context : bytes }.

Definition label_codec : codec Label :=
  struct_codec (fun l => (lbl_length l, (lbl_label l, lbl_context l)))
    (fun '(n, (l, c)) => mk_label n l c)
    (pair_codec u16_codec (pair_codec byte_vec_codec byte_vec_codec)).

Definition label_new (length : Z) (label context : bytes) : Label :=
  mk_label length (bstr "MLS 1.0 " ++ label) context.

Section derivation.
Context `{CipherSuiteProvider}.

Definition kdf_expand_with_label (secret label context : bytes) (len : option Z) : mres bytes :=
  let extract_size := kdf_extract_size in
  let len := default extract_size len in
  let label := label_new (wrap 16 len) label context in
  info ← from_codec (mls_encode_to_vec label_codec label);
  from_crypto (kdf_expand secret info len).

Definition kdf_derive_secret (secret label : bytes) : mres bytes :=
  kdf_expand_with_label secret label [] None.
End derivation.

(** ** Codec laws *)

Definition hpke_ciphertext_wf (c : HpkeCiphertext) : Prop :=
  bytes_ok (kem_output c) /\ bytes_ok (hpke_ct c).

#[export] Instance hpke_ciphertext_codec_ok : CodecOk hpke_ciphertext_codec hpke_ciphertext_wf.
Proof. struct_ok. Qed.

#[export] Instance hpke_ciphertext_codec_canonical : CodecCanonical hpke_ciphertext_codec.
Proof. struct_canonical. Qed.

Definition label_wf (l : Label) : Prop :=
  is_u16 (lbl_length l) /\ bytes_ok (lbl_label l) /\ bytes_ok (lbl_context l).

#[export] Instance label_codec_ok : CodecOk label_codec label_wf.
Proof. struct_ok. Qed.

(** ** Derivation succeeds *)

Lemma label_encode_total l :
  zlen (lbl_label l) <= varint_max -> zlen (lbl_context l) <= varint_max ->
  exists b, mls_encode_to_vec label_codec l = Ok b.
Proof.
  intros H1 H2. pose proof (zlen_nonneg (lbl_label l)). pose proof (zlen_nonneg (lbl_context l)).
  unfold mls_encode_to_vec. cbn -[byte_vec_codec to_be_bytes].
  rewrite !byte_vec_encode_eq, !varint_try_from_usize_eq.
  destruct (Z.leb_spec (zlen (lbl_label l)) varint_max); [|lia]. cbn [mbind res_bind].
  rewrite varint_encode_eq by done. simpl.
  rewrite varint_try_from_usize_eq.
  destruct (Z.leb_spec (zlen (lbl_context l)) varint_max); [|lia]. cbn [mbind res_bind].
  rewrite varint_encode_eq by done. simpl. eauto.
Qed.

Lemma kdf_expand_with_label_total `{KdfLaws} secret label context len :
  zlen secret = kdf_extract_size -> zlen label <= 1000 -> zlen context <= varint_max ->
  0 <= default 0 len <= 255 * kdf_extract_size ->
  exists out, kdf_expand_with_label secret label context len = Ok out /\
    zlen out = default kdf_extract_size len /\ bytes_ok out.
Proof.
  intros H0' H1 H2 H3. unfold kdf_expand_with_label.
  destruct (label_encode_total (label_new (wrap 16 (default kdf_extract_size len)) label context))
    as [b Hb]; [|done|].
  { change varint_max with 1073741823. unfold zlen in *. simpl. lia. }
  rewrite Hb. cbn [from_codec map_err mbind res_bind].
  destruct (kdf_expand_ok secret b (default kdf_extract_size len) H0') as (out & -> & Hl & Ho).
  - destruct kdf_size as [? _]. destruct len; simpl in *; lia.
  - simpl. eauto.
Qed.

(** A secret derived without a length is one that can be expanded again. *)
Lemma kdf_expand_sized `{KdfLaws} secret label context :
  zlen secret = kdf_extract_size -> zlen label <= 1000 -> zlen context <= varint_max ->
  exists out, kdf_expand_with_label secret label context None = Ok out /\ secret_sized out.
Proof.
  intros H1 H2 H3. apply (kdf_expand_with_label_total secret label context None); try done.
  destruct kdf_size. simpl. lia.
Qed.

(** ** A provider that satisfies the laws

    Its KDF refuses short keys and empty key material. *)

Module Toy.

Definition sum (l : bytes) : Z := foldr Z.add 0 l.

(** The first byte depends on every byte of the inputs, so that different
    secrets stay different. *)
Definition expand (prk info : bytes) (len : Z) : bytes :=
  (fun i => (if i =? 0 then sum prk * 3 + sum info * 7 else i * (1 + sum info)) `mod` 256) <$> seqZ 0 len.

Definition tag (key data : bytes) (aad : option bytes) (nonce : bytes) : Z :=
  (sum key + 3 * sum data + 5 * sum (default [] aad) + 7 * sum nonce) `mod` 256.

Definition open_tagged (key ct : bytes) (aad : option bytes) (nonce : bytes) : res AnyError bytes :=
  match reverse ct with
  | t :: d => if tag key (reverse d) aad nonce =? t then Ok (reverse d) else Err (any_provider 1)
  | [] => Err (any_provider 1)
  end.

#[export] Instance provider : CipherSuiteProvider := {|
  Coins := nat;
  HpkeContextS := bytes;
  HpkeContextR := bytes;
  cipher_suite := 1;
  hash d := Ok (expand [] d 4);
  mac k d := Ok (expand k d 4);
  aead_seal key data aad nonce := Ok (data ++ [tag key data aad nonce]);
  aead_open := open_tagged;
  aead_key_size := 4;
  aead_nonce_size := 4;
  kdf_extract salt ikm := match ikm with [] => Err (any_provider 3) | _ => Ok (expand salt ikm 4) end;
  kdf_expand prk info len := if zlen prk <? 4 then Err (any_provider 4) else Ok (expand prk info len);
  kdf_extract_size := 4;
  hpke_seal _ key info aad pt := Ok (mk_hpke_ciphertext key (pt ++ [tag key pt aad info]));
  hpke_open ct _ key info aad := open_tagged key (hpke_ct ct) aad info;
  hpke_setup_s _ key info := Ok (key, expand key info 4);
  hpke_setup_r kem _ key info := Ok (expand key info 4);
  context_s_export c e len := Ok (expand c e len);
  context_r_export c e len := Ok (expand c e len);
  kem_derive ikm := Ok (expand ikm [] 4, expand ikm [] 4);
  kem_generate n := Ok ([Z.of_nat n], [Z.of_nat n]);
  kem_public_key_validate _ := Ok tt;
  random_bytes_vec n count := Ok (expand [Z.of_nat n] [] count);
  signature_key_generate n := Ok ([Z.of_nat n], [Z.of_nat n]);
  signature_key_derive_public k := Ok k;
  sign _ k d := Ok (expand k d 4);
  verify k s d := if bool_decide (s = expand k d 4) then Ok tt else Err (any_provider 2);
|}.

#[export] Instance aead_laws : AeadLaws.
Proof.
  split. intros key data aad nonce ct [= <-]. simpl. unfold open_tagged. rewrite reverse_snoc.
  by rewrite reverse_involutive, Z.eqb_refl.
Qed.

Lemma expand_ok prk info len : 0 <= len ->
  zlen (expand prk info len) = len /\ bytes_ok (expand prk info len).
Proof.
  intros Hl. unfold expand, zlen. rewrite length_fmap, length_seqZ. split; [lia|].
  apply Forall_fmap, Forall_forall. intros i _. simpl. unfold in_uint.
  apply Z.mod_pos_bound. lia.
Qed.

#[export] Instance kdf_laws : KdfLaws.
Proof.
  split.
  - intros salt [|b ikm] Hi; [done|]. eexists. split; [done|]. by apply expand_ok.
  - intros prk info len Hp Hl. simpl in *. destruct (Z.ltb_spec (zlen prk) 4); [lia|].
    eexists. split; [done|]. apply expand_ok. lia.
  - simpl. lia.
  - simpl. lia.
Qed.

#[export] Instance hash_laws : HashLaws.
Proof.
  split. intros data. eexists. split; [done|]. split; [|apply expand_ok; lia].
  by destruct (expand_ok [] data 4 ltac:(lia)) as [-> _].
Qed.

#[export] Instance signature_laws : SignatureLaws.
Proof. split. intros _ sk pk data sig [= <-] [= <-]. simpl. by rewrite bool_decide_true. Qed.

#[export] Instance hpke_laws : HpkeLaws.
Proof.
  split; [done| |].
  - intros sk pk [[ikm E]|[n E]]; injection E as <- <-; [|done].
    by destruct (expand_ok ikm [] 4 ltac:(lia)) as [-> _].
  - intros _ sk pk info aad pt ct _ [= <-]. by apply (@aead_open_seal _ aead_laws).
Qed.

End Toy.
