(* ===== verification/SecretTree.v ===== *)
(** * The secret tree: per-message keys

    Models mls-rs/src/group/secret_tree.rs with the feature [out_of_order].
    Every member derives the key of the [n]-th message of every sender from one
    encryption secret: down the tree to the sender's leaf, then along a ratchet.
    Secrets are deleted as soon as they are used.

    The first part is the code: [SecretTree] and its operations as methods on a
    mutable receiver.  The second part is the specification: the key of
    (leaf, type, generation) as a function of the encryption secret, and, per
    leaf and type, a counter with the set of skipped generations that are still
    available.  The theorems show that the tree implements that specification,
    so that it returns only the specified keys and each of them at most once. *)

From S2P Require Import Prelude Codec Crypto TreeMath.

#[local] Set Default Goal Selector "!".
Local Open Scope Z_scope.

(** ** Data *)

Definition MAX_RATCHET_BACK_HISTORY : Z := 1024.

Inductive KeyType := Handshake | Application.

#[export] Instance KeyType_eq_dec : EqDecision KeyType.
Proof. solve_decision. Defined.

Record MessageKeyData := mk_message_key_data {
  mk_nonce : bytes;
  mk_key : bytes;
  mk_generation : Z;
}.

Record SecretKeyRatchet := mk_ratchet {
  rt_secret : bytes;
  rt_generation : Z;
  rt_history : gmap Z MessageKeyData;
}.

Record SecretRatchets := mk_ratchets {
  application : SecretKeyRatchet;
  handshake : SecretKeyRatchet;
}.

Inductive SecretTreeNode :=
| Secret (s : bytes)
| Ratchet (r : SecretRatchets).

Definition into_secret (n : SecretTreeNode) : option bytes :=
  match n with Secret s => Some s | Ratchet _ => None end.

Record SecretTree := mk_secret_tree {
  known_secrets : gmap Z SecretTreeNode;
  st_leaf_count : Z;
}.

#[export] Instance MessageKeyData_eq_dec : EqDecision MessageKeyData.
Proof. solve_decision. Defined.

Definition secret_tree_empty : SecretTree := mk_secret_tree ∅ 0.

Definition set_node (index : Z) (value : SecretTreeNode) : SM SecretTree MlsError unit :=
  sm_modify (fun t => mk_secret_tree (<[index := value]> (known_secrets t)) (st_leaf_count t)).

Definition take_node (index : Z) : SM SecretTree MlsError (option SecretTreeNode) := fun t =>
  (Ok (known_secrets t !! index),
   mk_secret_tree (delete index (known_secrets t)) (st_leaf_count t)).

Section secret_tree.
Context {cs : CipherSuiteProvider}.

(** ** Ratchets *)

Definition derive_secret (r : SecretKeyRatchet) (label : bytes) (len : Z) : mres bytes :=
  map_err (fun e => CryptoProviderError (any_mls e))
    (kdf_expand_with_label (rt_secret r) label (to_be_bytes 4 (rt_generation r)) (Some len)).

Definition ratchet_new (secret : bytes) (key_type : KeyType) : mres SecretKeyRatchet :=
  let label := match key_type with
               | Handshake => bstr "handshake"
               | Application => bstr "application"
               end in
  secret ← map_err (fun e => CryptoProviderError (any_mls e))
             (kdf_expand_with_label secret label [] None);
  Ok (mk_ratchet secret 0 ∅).

Definition ratchet_next_message_key : SM SecretKeyRatchet MlsError MessageKeyData :=
  r ← sm_get;
  let generation := rt_generation r in
  nonce ← sm_lift (derive_secret r (bstr "nonce") aead_nonce_size);
  key ← sm_lift (derive_secret r (bstr "key") aead_key_size);
  secret ← sm_lift (derive_secret r (bstr "secret") kdf_extract_size);
  _ ← sm_put (mk_ratchet secret (wrap 32 (generation + 1)) (rt_history r));
  mret (mk_message_key_data nonce key generation).

(** [while self.generation < generation { ... }]. *)
Fixpoint ratchet_advance (fuel : nat) (generation : Z) : SM SecretKeyRatchet MlsError unit :=
  r ← sm_get;
  if rt_generation r <? generation then
    match fuel with
    | O => sm_lift Panic
    | S fuel =>
        key_data ← ratchet_next_message_key;
        _ ← sm_modify (fun r =>
              mk_ratchet (rt_secret r) (rt_generation r)
                (<[mk_generation key_data := key_data]> (rt_history r)));
        ratchet_advance fuel generation
    end
  else mret tt.

Definition get_message_key (generation : Z) : SM SecretKeyRatchet MlsError MessageKeyData :=
  r ← sm_get;
  if generation <? rt_generation r then
    _ ← sm_put (mk_ratchet (rt_secret r) (rt_generation r) (delete generation (rt_history r)));
    sm_lift (ok_or (KeyMissing generation) (rt_history r !! generation))
  else
    let max_generation_allowed := wrap 32 (rt_generation r + MAX_RATCHET_BACK_HISTORY) in
    if max_generation_allowed <? generation then
      sm_lift (Err (InvalidFutureGeneration generation))
    else
      _ ← ratchet_advance (Z.to_nat (generation - rt_generation r)) generation;
      ratchet_next_message_key.

Definition with_ratchet {A} (key_type : KeyType) (m : SM SecretKeyRatchet MlsError A) :
    SM SecretRatchets MlsError A :=
  match key_type with
  | Handshake => sm_zoom handshake (fun r rs => mk_ratchets (application rs) r) m
  | Application => sm_zoom application (fun r rs => mk_ratchets r (handshake rs)) m
  end.

Definition ratchets_message_key_generation (generation : Z) (key_type : KeyType) :=
  with_ratchet key_type (get_message_key generation).

Definition ratchets_next_message_key (key_type : KeyType) :=
  with_ratchet key_type ratchet_next_message_key.

(** ** The tree *)

Context (w : Z).

Definition secret_tree_new (leaf_count : Z) (encryption_secret : bytes) : SecretTree :=
  mk_secret_tree {[root w leaf_count := Secret encryption_secret]} leaf_count.

Definition consume_node (index : Z) : SM SecretTree MlsError unit :=
  node ← take_node index;
  match node ≫= into_secret with
  | Some secret =>
      left_index ← sm_lift (ok_or LeafNodeNoChildren (left w index));
      right_index ← sm_lift (ok_or LeafNodeNoChildren (right w index));
      left_secret ← sm_lift (kdf_expand_with_label secret (bstr "tree") (bstr "left") None);
      right_secret ← sm_lift (kdf_expand_with_label secret (bstr "tree") (bstr "right") None);
      _ ← set_node left_index (Secret left_secret);
      set_node right_index (Secret right_secret)
  | None => mret tt
  end.

Fixpoint consume_nodes (path : list CopathNode) : SM SecretTree MlsError unit :=
  match path with
  | [] => mret tt
  | i :: path => _ ← consume_node (TreeMath.path i); consume_nodes path
  end.

Definition take_leaf_ratchet (leaf_index : Z) : SM SecretTree MlsError SecretRatchets :=
  taken ← take_node leaf_index;
  node ← match taken with
         | Some node => mret node
         | None =>
             t ← sm_get;
             _ ← consume_nodes (reverse (direct_copath w leaf_index (st_leaf_count t)));
             taken ← take_node leaf_index;
             sm_lift (ok_or InvalidLeafConsumption taken)
         end;
  match node with
  | Ratchet ratchet => mret ratchet
  | Secret secret =>
      application ← sm_lift (ratchet_new secret Application);
      handshake ← sm_lift (ratchet_new secret Handshake);
      mret (mk_ratchets application handshake)
  end.

Definition next_message_key (leaf_index : Z) (key_type : KeyType) :
    SM SecretTree MlsError MessageKeyData :=
  ratchet ← take_leaf_ratchet leaf_index;
  let '(result, ratchet) := ratchets_next_message_key key_type ratchet in
  key ← sm_lift result;
  _ ← set_node leaf_index (Ratchet ratchet);
  mret key.

Definition message_key_generation (leaf_index : Z) (key_type : KeyType) (generation : Z) :
    SM SecretTree MlsError MessageKeyData :=
  ratchet ← take_leaf_ratchet leaf_index;
  let '(result, ratchet) := ratchets_message_key_generation generation key_type ratchet in
  _ ← set_node leaf_index (Ratchet ratchet);
  sm_lift result.

End secret_tree.

(** ** Storage *)

Definition message_key_data_codec : codec MessageKeyData :=
  struct_codec (fun k => (mk_nonce k, (mk_key k, mk_generation k)))
    (fun '(n, (k, g)) => mk_message_key_data n k g)
    (pair_codec byte_vec_codec (pair_codec byte_vec_codec u32_codec)).

Section storage.
(** The iteration orders of the two hash maps. *)
Context (values : gmap Z MessageKeyData -> list MessageKeyData).
Context (entries : gmap Z SecretTreeNode -> list (Z * SecretTreeNode)).

Fixpoint decode_history (fuel : nat) (data : bytes) (items : gmap Z MessageKeyData) :
    cres (gmap Z MessageKeyData) :=
  match data with
  | [] => Ok items
  | _ :: _ =>
      match fuel with
      | O => Panic
      | S fuel =>
          '(item, data) ← mls_decode message_key_data_codec data;
          decode_history fuel data (<[mk_generation item := item]> items)
      end
  end.

(** The history is stored as the list of its values. *)
Definition history_codec : codec (gmap Z MessageKeyData) := mk_codec
  (fun h => iter_encoded_len message_key_data_codec (values h))
  (fun h writer => iter_encode_preallocate message_key_data_codec (values h) writer)
  (mls_decode_collection (fun data => decode_history (length data) data ∅)).

Definition ratchet_codec : codec SecretKeyRatchet :=
  struct_codec (fun r => (rt_secret r, (rt_generation r, rt_history r)))
    (fun '(s, (g, h)) => mk_ratchet s g h)
    (pair_codec byte_vec_codec (pair_codec u32_codec history_codec)).

Definition ratchets_codec : codec SecretRatchets :=
  struct_codec (fun r => (application r, handshake r)) (fun '(a, h) => mk_ratchets a h)
    (pair_codec ratchet_codec ratchet_codec).

Definition secret_tree_node_codec : codec SecretTreeNode :=
  enum_codec u8_codec (fun n => match n with Secret _ => 0 | Ratchet _ => 1 end)
    (fun t =>
       if t =? 0 then
         Some (variant_codec Secret (fun n => match n with Secret s => Some s | _ => None end)
                 byte_vec_codec)
       else if t =? 1 then
         Some (variant_codec Ratchet (fun n => match n with Ratchet r => Some r | _ => None end)
                 ratchets_codec)
       else None).

Definition secret_tree_codec : codec SecretTree :=
  struct_codec (fun t => (known_secrets t, st_leaf_count t)) (fun '(k, n) => mk_secret_tree k n)
    (pair_codec (map_codec u32_codec secret_tree_node_codec entries) u32_codec).
End storage.

(** ** Specification *)

Section spec.
Context {cs : CipherSuiteProvider}.

Definition the (m : mres bytes) : bytes := match m with Ok x => x | _ => [] end.

(** The tree of depth [d] below the encryption secret [enc]. *)
Context (d : Z) (enc : bytes).

(** The secret of the [j]-th node [n] levels below the root. *)
Fixpoint level_secret (n : nat) (j : Z) : bytes :=
  match n with
  | O => enc
  | S n =>
      the (kdf_expand_with_label (level_secret n (Z.shiftr j 1)) (bstr "tree")
             (if Z.odd j then bstr "right" else bstr "left") None)
  end.

Definition node_secret (k j : Z) : bytes := level_secret (Z.to_nat (d - k)) j.

Definition type_label (ty : KeyType) : bytes :=
  match ty with Handshake => bstr "handshake" | Application => bstr "application" end.

Definition expand_gen (secret label : bytes) (generation len : Z) : bytes :=
  the (kdf_expand_with_label secret label (to_be_bytes 4 generation) (Some len)).

(** The ratchet secret of leaf [i] after [n] messages. *)
Fixpoint ratchet_secret (i : Z) (ty : KeyType) (n : nat) : bytes :=
  match n with
  | O => the (kdf_expand_with_label (node_secret 0 i) (type_label ty) [] None)
  | S n => expand_gen (ratchet_secret i ty n) (bstr "secret") (Z.of_nat n) kdf_extract_size
  end.

(** The key of the message [g] of leaf [i]. *)
Definition spec_key (i : Z) (ty : KeyType) (g : Z) : MessageKeyData :=
  let s := ratchet_secret i ty (Z.to_nat g) in
  mk_message_key_data (expand_gen s (bstr "nonce") g aead_nonce_size)
    (expand_gen s (bstr "key") g aead_key_size) g.
End spec.

(** What a receiver may still ask of one ratchet: the generations from [next]
    on, and the skipped ones in [kept]. *)
Record RatchetSpec := mk_ratchet_spec { next_gen : Z; kept : gset Z }.

Definition fresh : RatchetSpec := mk_ratchet_spec 0 ∅.

Definition range (a b : Z) : gset Z := list_to_set (seqZ a (b - a)).

Definition spec_next (a : RatchetSpec) : Z * RatchetSpec :=
  (next_gen a, mk_ratchet_spec (next_gen a + 1) (kept a)).

Definition spec_get (g : Z) (a : RatchetSpec) : mres Z * RatchetSpec :=
  if g <? next_gen a then
    if bool_decide (g ∈ kept a) then (Ok g, mk_ratchet_spec (next_gen a) (kept a ∖ {[g]}))
    else (Err (KeyMissing g), a)
  else if next_gen a + MAX_RATCHET_BACK_HISTORY <? g then (Err (InvalidFutureGeneration g), a)
  else (Ok g, mk_ratchet_spec (g + 1) (kept a ∪ range (next_gen a) g)).

Definition SpecState : Type := Z -> KeyType -> RatchetSpec.

Definition spec_set (a : SpecState) (i : Z) (ty : KeyType) (r : RatchetSpec) : SpecState :=
  fun i' ty' => if decide (i' = i /\ ty' = ty) then r else a i' ty'.

Lemma spec_set_eq (a : SpecState) i ty r : spec_set a i ty r i ty = r.
Proof. unfold spec_set. by rewrite decide_True. Qed.

Lemma spec_set_ne (a : SpecState) i ty r i' ty' :
  (i' <> i \/ ty' <> ty) -> spec_set a i ty r i' ty' = a i' ty'.
Proof. intros Hne. unfold spec_set. rewrite decide_False by naive_solver. done. Qed.

(** ** Ratchets implement counters *)

Section ratchet.
Context {cs : CipherSuiteProvider} {laws : KdfLaws} (d : Z) (enc : bytes) (Henc : zlen enc = kdf_extract_size).

Lemma the_kdf s l c len : zlen s = kdf_extract_size ->
  zlen l <= 1000 -> zlen c <= varint_max -> 0 <= default 0 len <= 255 * kdf_extract_size ->
  kdf_expand_with_label s l c len = Ok (the (kdf_expand_with_label s l c len)) /\
  zlen (the (kdf_expand_with_label s l c len)) = default kdf_extract_size len.
Proof using laws.
  intros H0 H1 H2 H3. by destruct (kdf_expand_with_label_total s l c len H0 H1 H2 H3) as (? & -> & ? & _).
Qed.

(** The secrets of the specification are keys of the KDF. *)
Lemma level_secret_len n j : zlen (level_secret enc n j) = kdf_extract_size.
Proof using Henc laws.
  revert j. induction n as [|n IH]; intros j; [done|]. cbn [level_secret]. destruct kdf_size.
  by destruct (the_kdf (level_secret enc n (Z.shiftr j 1)) (bstr "tree") (if Z.odd j then bstr "right" else bstr "left") None);
    [apply IH|by vm_compute|destruct (Z.odd j); by vm_compute|simpl; lia|].
Qed.

Lemma generation_label g : zlen (to_be_bytes 4 g) <= varint_max.
Proof using Type. unfold zlen. rewrite length_to_be_bytes. change varint_max with 1073741823. lia. Qed.

Lemma ratchet_secret_len i ty n : zlen (ratchet_secret d enc i ty n) = kdf_extract_size.
Proof using Henc laws.
  destruct kdf_size. induction n as [|n IH]; cbn [ratchet_secret].
  - by destruct (the_kdf (node_secret d enc 0 i) (type_label ty) [] None) as [_ ->];
      [apply level_secret_len|destruct ty; by vm_compute|by vm_compute|simpl; lia|].
  - by destruct (the_kdf (ratchet_secret d enc i ty n) (bstr "secret") (to_be_bytes 4 (Z.of_nat n)) (Some kdf_extract_size)) as [_ E];
      [done|by vm_compute|apply generation_label|simpl; lia|].
Qed.

Definition ratchet_rep (i : Z) (ty : KeyType) (r : SecretKeyRatchet) (a : RatchetSpec) : Prop :=
  0 <= next_gen a /\
  rt_generation r = next_gen a /\
  rt_secret r = ratchet_secret d enc i ty (Z.to_nat (next_gen a)) /\
  (forall g, g ∈ kept a -> 0 <= g < next_gen a) /\
  (forall g, rt_history r !! g =
     if bool_decide (g ∈ kept a) then Some (spec_key d enc i ty g) else None).

Lemma ratchet_new_rep i ty :
  exists r, ratchet_new (node_secret d enc 0 i) ty = Ok r /\ ratchet_rep i ty r fresh.
Proof using Type*.
  unfold ratchet_new. destruct kdf_size.
  destruct (the_kdf (node_secret d enc 0 i) (match ty with Handshake => bstr "handshake" | Application => bstr "application" end) [] None)
    as [-> _]; [apply level_secret_len|destruct ty; by vm_compute|by vm_compute|simpl; lia|]. eexists. split; [done|].
  split; [done|]. split; [done|]. split; [by destruct ty|]. split; [set_solver|].
  intros g. simpl. rewrite lookup_empty. by rewrite bool_decide_eq_false_2 by set_solver.
Qed.

Lemma derive_secret_spec i ty r a label len :
  ratchet_rep i ty r a -> zlen label <= 1000 -> 0 <= len <= 255 * kdf_extract_size ->
  derive_secret r label len =
    Ok (expand_gen (ratchet_secret d enc i ty (Z.to_nat (next_gen a))) label (next_gen a) len).
Proof using Type*.
  intros (_ & Hg & Hs & _) Hl Hn. unfold derive_secret, expand_gen. rewrite Hg, Hs.
  by destruct (the_kdf (ratchet_secret d enc i ty (Z.to_nat (next_gen a))) label (to_be_bytes 4 (next_gen a)) (Some len)) as [-> _];
    [apply ratchet_secret_len|done|apply generation_label|done|].
Qed.

Lemma ratchet_next_rep i ty r a :
  ratchet_rep i ty r a -> next_gen a + 1 < 2 ^ 32 ->
  exists r', ratchet_next_message_key r = (Ok (spec_key d enc i ty (next_gen a)), r') /\
    ratchet_rep i ty r' (spec_next a).2.
Proof using Type*.
  intros Hr Hb. destruct kdf_size as [Hz1 _], aead_sizes as [Hz2 Hz3].
  unfold ratchet_next_message_key, mbind, sm_bind, sm_get, sm_lift, sm_put, mret, sm_ret.
  rewrite !(derive_secret_spec i ty r a) by (done || lia).
  destruct Hr as (H0 & Hg & Hs & Hk & Hh). rewrite Hg. eexists. split; [done|].
  split; [simpl; lia|]. split; [simpl; apply wrap_small; unfold in_uint; lia|].
  split.
  { simpl. rewrite Z2Nat.inj_add, Nat.add_1_r by lia. cbn [ratchet_secret].
    by rewrite Z2Nat.id by lia. }
  split; [|done]. intros g Hg'. simpl in *. specialize (Hk g Hg'). lia.
Qed.

Lemma ratchet_advance_rep i ty fuel g r a :
  ratchet_rep i ty r a -> g < 2 ^ 32 -> g - next_gen a = Z.of_nat fuel ->
  exists r', ratchet_advance fuel g r = (Ok tt, r') /\
    ratchet_rep i ty r' (mk_ratchet_spec g (kept a ∪ range (next_gen a) g)).
Proof using Type*.
  revert r a. induction fuel as [|fuel IH]; intros r a Hr Hb Hf.
  { exists r. assert (g = next_gen a) as -> by lia. split.
    - destruct Hr as (_ & Hg & _). simpl. unfold mbind, sm_bind, sm_get. rewrite Hg.
      by destruct (Z.ltb_spec (next_gen a) (next_gen a)); [lia|].
    - unfold range. rewrite Z.sub_diag. simpl. rewrite (right_id_L ∅ (∪)). by destruct a. }
  destruct (ratchet_next_rep i ty r a Hr ltac:(lia)) as (r1 & E1 & Hr1).
  pose proof Hr1 as (H0 & Hg1 & Hs1 & Hk1 & Hh1). simpl in *.
  set (kd := spec_key d enc i ty (next_gen a)) in *.
  set (r2 := mk_ratchet (rt_secret r1) (rt_generation r1)
               (<[mk_generation kd := kd]> (rt_history r1))).
  set (a2 := mk_ratchet_spec (next_gen a + 1) (kept a ∪ {[next_gen a]})).
  assert (ratchet_rep i ty r2 a2) as Hr2.
  { split; [done|]. split; [done|]. split; [done|].
    destruct Hr as (Ha0 & _ & _ & Hk & _). split.
    - intros g' Hg'. simpl in *. apply elem_of_union in Hg' as [Hg'|Hg'%elem_of_singleton].
      + specialize (Hk g' Hg'). lia.
      + lia.
    - intros g'. simpl. destruct (decide (g' = next_gen a)) as [->|Hne].
      + rewrite lookup_insert_eq. by rewrite bool_decide_eq_true_2 by set_solver.
      + rewrite lookup_insert_ne, Hh1 by done.
        repeat case_bool_decide; (done || set_solver). }
  destruct (IH r2 a2 Hr2 Hb ltac:(simpl; lia)) as (r' & E' & Hr').
  exists r'. split.
  - cbn [ratchet_advance]. unfold mbind, sm_bind, sm_get at 1.
    destruct Hr as (_ & -> & _). destruct (Z.ltb_spec (next_gen a) g); [|lia].
    rewrite E1. unfold sm_modify. cbn -[ratchet_advance]. exact E'.
  - simpl in Hr'. replace (kept a ∪ range (next_gen a) g)
      with (kept a ∪ {[next_gen a]} ∪ range (next_gen a + 1) g); [done|].
    unfold range. rewrite (seqZ_cons (next_gen a)) by lia.
    replace (Z.pred (g - next_gen a)) with (g - (next_gen a + 1)) by lia.
    unfold Z.succ. simpl. set_solver.
Qed.

(** The outcome of [get_message_key] is the outcome of [spec_get], with the
    key for its generation. *)
Lemma get_message_key_rep i ty g r a :
  ratchet_rep i ty r a -> 0 <= g -> next_gen a + MAX_RATCHET_BACK_HISTORY + 1 < 2 ^ 32 ->
  exists r', get_message_key g r = (spec_key d enc i ty <$> (spec_get g a).1, r') /\
    ratchet_rep i ty r' (spec_get g a).2.
Proof using Type*.
  intros Hr Hg0 Hb. pose proof Hr as (H0 & Hg & Hs & Hk & Hh).
  change MAX_RATCHET_BACK_HISTORY with 1024 in *.
  unfold get_message_key, spec_get. unfold mbind at 1, sm_bind at 1, sm_get. rewrite Hg.
  destruct (Z.ltb_spec g (next_gen a)).
  { unfold mbind, sm_bind, sm_put, sm_lift. rewrite Hh.
    destruct (bool_decide_reflect (g ∈ kept a)) as [Hin|Hin].
    - eexists. split; [done|]. split; [done|]. split; [done|]. split; [done|]. split.
      + intros g' Hg'. simpl in *. apply Hk. set_solver.
      + intros g'. simpl. destruct (decide (g' = g)) as [->|Hne].
        * rewrite lookup_delete_eq. by rewrite bool_decide_eq_false_2 by set_solver.
        * rewrite lookup_delete_ne, Hh by done.
          repeat case_bool_decide; (done || set_solver).
    - eexists. split; [done|]. simpl. split; [done|]. split; [done|]. split; [done|].
      split; [done|]. intros g'. simpl. rewrite delete_id; [done|].
      rewrite Hh. by rewrite bool_decide_eq_false_2. }
  change MAX_RATCHET_BACK_HISTORY with 1024.
  rewrite wrap_small by (unfold in_uint; lia).
  destruct (Z.ltb_spec (next_gen a + 1024) g); [by exists r|].
  destruct (ratchet_advance_rep i ty (Z.to_nat (g - next_gen a)) g r a Hr) as (r1 & E1 & Hr1);
    [lia|lia|].
  destruct (ratchet_next_rep i ty r1 _ Hr1) as (r2 & E2 & Hr2); [simpl; lia|].
  exists r2. split; [|done]. unfold mbind, sm_bind. rewrite E1. exact E2.
Qed.
End ratchet.

(** ** The tree implements one counter per leaf and type *)

Section tree.
Context {cs : CipherSuiteProvider} {laws : KdfLaws} (w d : Z) (enc : bytes).
Context (Hw : 0 < w <= 64) (Hd : 0 <= d < w) (Henc : zlen enc = kdf_extract_size).

(** The node at level [k] and position [j]. *)
Definition known (t : SecretTree) (k j : Z) : option SecretTreeNode :=
  known_secrets t !! node k j.

Definition ratchets_rep (i : Z) (rs : SecretRatchets) (a : SpecState) : Prop :=
  ratchet_rep d enc i Application (application rs) (a i Application) /\
  ratchet_rep d enc i Handshake (handshake rs) (a i Handshake).

(** Secrets are the specified ones, ratchets sit at leaves, and on the path
    from every leaf to the root exactly one node is known: no secret is left
    from which a used one could be derived again. *)
Record tree_rep (t : SecretTree) (a : SpecState) : Prop := {
  rep_count : st_leaf_count t = 2 ^ d;
  rep_secret k j s : in_tree d k j -> known t k j = Some (Secret s) -> s = node_secret d enc k j;
  rep_ratchet k j r : in_tree d k j -> known t k j = Some (Ratchet r) -> k = 0 /\ ratchets_rep j r a;
  rep_fresh i ty : 0 <= i < 2 ^ d -> (forall r, known t 0 i <> Some (Ratchet r)) -> a i ty = fresh;
  rep_cut i : 0 <= i < 2 ^ d -> exists k, 0 <= k <= d /\
    forall k', 0 <= k' <= d -> is_Some (known t k' (Z.shiftr i k')) <-> k' = k;
}.

Lemma secret_tree_new_rep : tree_rep (secret_tree_new w (2 ^ d) enc) (fun _ _ => fresh).
Proof using All.
  unfold secret_tree_new. rewrite root_pow2 by lia.
  assert (forall k j, in_tree d k j ->
    known (mk_secret_tree {[node d 0 := Secret enc]} (2 ^ d)) k j =
      if decide (k = d) then Some (Secret enc) else None) as Hkn.
  { intros k j [Hk Hj]. unfold known. simpl. case_decide as Hkd.
    - subst k. rewrite Z.sub_diag in Hj. replace j with 0 by lia. apply lookup_singleton_eq.
    - apply lookup_singleton_ne. intros He. apply node_inj in He; lia. }
  split.
  - done.
  - intros k j s Ht. rewrite Hkn by done. case_decide; [|done]. intros [= <-]. subst k.
    unfold node_secret. by rewrite Z.sub_diag.
  - intros k j r Ht. rewrite Hkn by done. by case_decide.
  - done.
  - intros i Hi. exists d. split; [lia|]. intros k' Hk'.
    rewrite Hkn by (by apply in_tree_ancestor).
    case_decide; [naive_solver|]. split; [by intros []|lia].
Qed.

Lemma shiftr_shiftr_1 i k : 0 < k -> Z.shiftr (Z.shiftr i (k - 1)) 1 = Z.shiftr i k.
Proof using All. intros Hk. rewrite Z.shiftr_shiftr by lia. f_equal. lia. Qed.

Lemma node_secret_child k j c : 0 < k <= d -> 0 <= j -> 0 <= c < 2 ->
  Ok (node_secret d enc (k - 1) (2 * j + c)) =
    kdf_expand_with_label (node_secret d enc k j) (bstr "tree")
      (if c =? 1 then bstr "right" else bstr "left") None.
Proof using All.
  intros Hk Hj Hc. unfold node_secret.
  replace (Z.to_nat (d - (k - 1))) with (S (Z.to_nat (d - k))) by lia. cbn [level_secret].
  replace (Z.shiftr (2 * j + c) 1) with j
    by (rewrite Z.shiftr_div_pow2 by lia; change (2 ^ 1) with 2; divlia).
  rewrite Z.add_comm, Z.odd_add_mul_2.
  destruct kdf_size. symmetry.
  assert (c = 0 \/ c = 1) as [->| ->] by lia; cbn [Z.eqb Z.add Z.odd xorb];
    (apply the_kdf; [by apply level_secret_len|by vm_compute|by vm_compute|simpl; lia]).
Qed.

(** Consuming a parent node that is known replaces it by its children. *)
Definition expand (t : SecretTree) (k j : Z) : SecretTree :=
  mk_secret_tree
    (<[node (k - 1) (2 * j + 1) := Secret (node_secret d enc (k - 1) (2 * j + 1))]>
      (<[node (k - 1) (2 * j) := Secret (node_secret d enc (k - 1) (2 * j))]>
        (delete (node k j) (known_secrets t)))) (st_leaf_count t).

Lemma known_expand t k j k' j' :
  0 < k -> 0 <= j -> 0 <= k' -> 0 <= j' ->
  known (expand t k j) k' j' =
    if decide (k' = k - 1 /\ Z.shiftr j' 1 = j) then Some (Secret (node_secret d enc k' j'))
    else if decide (k' = k /\ j' = j) then None
    else known t k' j'.
Proof using All.
  intros Hk Hj Hk' Hj'. unfold known, expand. cbn [known_secrets].
  assert (j' = 2 * Z.shiftr j' 1 \/ j' = 2 * Z.shiftr j' 1 + 1) as Hpar
    by (rewrite Z.shiftr_div_pow2 by lia; change (2 ^ 1) with 2; divlia).
  assert (Z.shiftr (2 * j) 1 = j) as Hs0
    by (rewrite Z.shiftr_div_pow2 by lia; change (2 ^ 1) with 2; divlia).
  assert (Z.shiftr (2 * j + 1) 1 = j) as Hs1
    by (rewrite Z.shiftr_div_pow2 by lia; change (2 ^ 1) with 2; divlia).
  case_decide as Hc.
  - destruct Hc as [-> Hj2]. rewrite Hj2 in Hpar. destruct Hpar as [->| ->].
    + rewrite lookup_insert_ne, lookup_insert_eq; [done|].
      intros He. apply node_inj in He; lia.
    + by rewrite lookup_insert_eq.
  - rewrite !lookup_insert_ne.
    + case_decide as Hc'; [destruct Hc' as [-> ->]; by rewrite lookup_delete_eq|].
      apply lookup_delete_ne. intros He. apply node_inj in He; [|lia..]. naive_solver.
    + intros He. apply node_inj in He as [<- <-]; [naive_solver|lia..].
    + intros He. apply node_inj in He as [<- <-]; [naive_solver|lia..].
Qed.

Lemma consume_known t a k j :
  tree_rep t a -> in_tree d k j -> 0 < k -> is_Some (known t k j) ->
  consume_node w (node k j) t = (Ok tt, expand t k j).
Proof using All.
  intros Hrep Ht Hk [n Hn]. pose proof Ht as [Hkd Hj].
  assert (n = Secret (node_secret d enc k j)) as ->.
  { destruct n as [s|r]; [by rewrite (rep_secret t a Hrep k j s)|].
    apply (rep_ratchet t a Hrep) in Hn as [-> _]; [lia|done]. }
  unfold consume_node, mbind, sm_bind, take_node. unfold known in Hn. rewrite Hn.
  cbn [mbind option_bind into_secret]. unfold left, right. rewrite (is_leaf_node w) by (done || lia).
  destruct (Z.eqb_spec k 0); [lia|]. cbn [negb ok_or sm_lift].
  rewrite left_unchecked_node, right_unchecked_node by (done || lia).
  unfold sm_lift. change (bstr "left") with (if 0 =? 1 then bstr "right" else bstr "left").
  change (bstr "right") with (if 1 =? 1 then bstr "right" else bstr "left") at 2.
  rewrite <- (node_secret_child k j 0), <- (node_secret_child k j 1) by lia.
  rewrite Z.add_0_r. done.
Qed.

Lemma consume_unknown t k j :
  known t k j = None -> consume_node w (node k j) t = (Ok tt, t).
Proof using All.
  intros Hn. unfold consume_node, mbind, sm_bind, take_node. unfold known in Hn. rewrite Hn.
  simpl. rewrite delete_id by done. by destruct t.
Qed.

Lemma expand_rep t a k j :
  tree_rep t a -> in_tree d k j -> 0 < k -> is_Some (known t k j) ->
  tree_rep (expand t k j) a.
Proof using All.
  intros Hrep [Hk Hj] Hpos Hn.
  (* A leaf below the node has no other known node on its path. *)
  assert (forall i k', 0 <= i < 2 ^ d -> 0 <= k' <= d -> Z.shiftr i k = j ->
    is_Some (known t k' (Z.shiftr i k')) <-> k' = k) as Hcut.
  { intros i k' Hi Hk' <-. destruct (rep_cut t a Hrep i Hi) as (k0 & Hk0 & Hu).
    assert (k = k0) as -> by (by apply Hu). by apply Hu. }
  split.
  - apply (rep_count t a Hrep).
  - intros k' j' s Ht. pose proof Ht as [? ?]. rewrite known_expand by lia.
    case_decide as Hc; [intros [= <-]; naive_solver|]. case_decide; [done|].
    by apply (rep_secret t a Hrep).
  - intros k' j' r Ht. pose proof Ht as [? ?]. rewrite known_expand by lia.
    case_decide; [done|]. case_decide; [done|]. by apply (rep_ratchet t a Hrep).
  - intros i ty Hi Hno. apply (rep_fresh t a Hrep); [done|]. intros r Hr.
    apply (Hno r). rewrite known_expand by lia. case_decide as Hc.
    + destruct Hc as [Hk1 Hij]. exfalso.
      assert (0 = k) as He; [|lia]. apply (Hcut i 0 Hi).
      * lia.
      * by replace k with 1 by lia.
      * rewrite Z.shiftr_0_r. eauto.
    + case_decide as Hc'; [lia|done].
  - intros i Hi. destruct (decide (Z.shiftr i k = j)) as [Hij|Hij].
    + exists (k - 1). split; [lia|]. intros k' Hk'.
      pose proof (shiftr_bound i k' (d - k') ltac:(lia) ltac:(lia)
        ltac:(by replace (k' + (d - k')) with d by lia)).
      rewrite known_expand by lia. case_decide as Hc.
      * split; [lia|eauto].
      * case_decide as Hc'; [split; [by intros []|lia]|].
        split.
        -- intros Hs. apply Hcut in Hs; [|done..]. naive_solver.
        -- intros ->. exfalso. apply Hc. split; [done|]. by rewrite shiftr_shiftr_1 by lia.
    + destruct (rep_cut t a Hrep i Hi) as (k0 & Hk0 & Hu). exists k0. split; [done|].
      intros k' Hk'. rewrite <- Hu by done.
      pose proof (shiftr_bound i k' (d - k') ltac:(lia) ltac:(lia)
        ltac:(by replace (k' + (d - k')) with d by lia)).
      rewrite known_expand by lia.
      case_decide as Hc; [destruct Hc as [-> Hc]; by rewrite shiftr_shiftr_1 in Hc by lia|].
      case_decide as Hc'; [naive_solver|done].
Qed.

(** Walking down from level [n] to a leaf whose known ancestor is at level [n]
    or below makes the leaf known. *)
Lemma consume_nodes_rep (n : nat) i t a :
  0 <= i < 2 ^ d -> Z.of_nat n <= d -> tree_rep t a ->
  (forall k, Z.of_nat n < k <= d -> known t k (Z.shiftr i k) = None) ->
  exists t', consume_nodes w (reverse ((fun m => mk_copath_node (node (0 + m + 1) (Z.shiftr i (m + 1)))
      (node (0 + m) (Z.lxor (Z.shiftr i m) 1))) <$> seqZ 0 (Z.of_nat n))) t = (Ok tt, t') /\
    tree_rep t' a /\ is_Some (known t' 0 i).
Proof using All.
  revert t. induction n as [|n IH]; intros t Hi Hn Hrep Habove.
  { exists t. split; [done|]. split; [done|].
    destruct (rep_cut t a Hrep i Hi) as (k & Hk & Hu).
    assert (k = 0) as ->.
    { destruct (decide (k = 0)); [done|]. assert (is_Some (known t k (Z.shiftr i k))) as Hs
        by (by apply Hu). rewrite Habove in Hs by lia. by destruct Hs. }
    rewrite <- (Z.shiftr_0_r i). apply Hu; lia. }
  rewrite seqZ_S, fmap_app, reverse_app by lia. cbn [fmap list_fmap].
  rewrite reverse_singleton. cbn [app consume_nodes TreeMath.path].
  replace (0 + (0 + Z.of_nat n) + 1) with (Z.of_nat (S n)) by lia.
  replace (0 + Z.of_nat n + 1) with (Z.of_nat (S n)) by lia.
  pose proof (in_tree_ancestor d i (Z.of_nat (S n)) ltac:(lia) Hi) as Hin.
  destruct (known t (Z.of_nat (S n)) (Z.shiftr i (Z.of_nat (S n)))) as [nd|] eqn:E.
  - pose proof (expand_rep t a _ _ Hrep Hin ltac:(lia) ltac:(eauto)) as Hrep'.
    destruct (IH (expand t (Z.of_nat (S n)) (Z.shiftr i (Z.of_nat (S n)))) Hi ltac:(lia) Hrep')
      as (t' & Et & Hr & Hk).
    + intros k Hk. pose proof Hin as [? ?].
      pose proof (shiftr_bound i k (d - k) ltac:(lia) ltac:(lia)
        ltac:(by replace (k + (d - k)) with d by lia)).
      rewrite known_expand by lia.
      case_decide as Hc; [lia|]. case_decide as Hc'; [done|].
      apply Habove. destruct (decide (k = Z.of_nat (S n))) as [->|]; [naive_solver|lia].
    + exists t'. split; [|done]. unfold mbind, sm_bind.
      rewrite (consume_known t a) by (done || eauto || lia). exact Et.
  - destruct (IH t Hi ltac:(lia) Hrep) as (t' & Et & Hr & Hk).
    + intros k Hk. destruct (decide (k = Z.of_nat (S n))) as [->|]; [done|apply Habove; lia].
    + exists t'. split; [|done]. unfold mbind, sm_bind. rewrite consume_unknown by done. exact Et.
Qed.

Definition put_leaf (t : SecretTree) (i : Z) (rs : SecretRatchets) : SecretTree :=
  mk_secret_tree (<[node 0 i := Ratchet rs]> (known_secrets t)) (st_leaf_count t).

Lemma put_leaf_rep t a a' i rs :
  0 <= i < 2 ^ d -> tree_rep t a -> is_Some (known t 0 i) -> ratchets_rep i rs a' ->
  (forall i' ty, i' <> i -> a' i' ty = a i' ty) -> tree_rep (put_leaf t i rs) a'.
Proof using All.
  intros Hi Hrep Hs Hrs Ha.
  assert (forall k j, 0 <= k -> 0 <= j -> known (put_leaf t i rs) k j =
    if decide (k = 0 /\ j = i) then Some (Ratchet rs) else known t k j) as Hkn.
  { intros k j Hk Hj. unfold known, put_leaf. cbn [known_secrets]. case_decide as Hc.
    - destruct Hc as [-> ->]. apply lookup_insert_eq.
    - apply lookup_insert_ne. intros He. apply node_inj in He; [|lia..]. naive_solver. }
  assert (forall j r b b', (forall ty, b' j ty = b j ty) -> ratchets_rep j r b -> ratchets_rep j r b')
    as Hext by (intros j r b b' Hb; unfold ratchets_rep; by rewrite !Hb).
  split.
  - apply (rep_count t a Hrep).
  - intros k j s Ht. pose proof Ht as [? ?]. rewrite Hkn by lia. case_decide; [done|].
    by apply (rep_secret t a Hrep).
  - intros k j r Ht. pose proof Ht as [? ?]. rewrite Hkn by lia. case_decide as Hc.
    + destruct Hc as [-> ->]. intros [= <-]. done.
    + intros Hr. apply (rep_ratchet t a Hrep) in Hr as [-> Hr]; [|done]. split; [done|].
      eapply Hext; [|done]. intros ty. apply Ha. naive_solver.
  - intros i' ty Hi' Hno. destruct (decide (i' = i)) as [->|Hne].
    + exfalso. apply (Hno rs). rewrite Hkn by lia. by rewrite decide_True.
    + rewrite Ha by done. apply (rep_fresh t a Hrep); [done|]. intros r Hr. apply (Hno r).
      rewrite Hkn by lia. rewrite decide_False by naive_solver. done.
  - intros i' Hi'. destruct (rep_cut t a Hrep i' Hi') as (k & Hk & Hu). exists k. split; [done|].
    intros k' Hk'. rewrite <- Hu by done.
    pose proof (shiftr_bound i' k' (d - k') ltac:(lia) ltac:(lia)
      ltac:(by replace (k' + (d - k')) with d by lia)).
    rewrite Hkn by lia. case_decide as Hc; [|done]. destruct Hc as [-> Hc].
    rewrite Hc. naive_solver.
Qed.

(** Taking the ratchets of a leaf leaves a tree in which only that leaf is
    missing. *)
Lemma take_leaf_ratchet_rep i t a :
  0 <= i < 2 ^ d -> tree_rep t a ->
  exists rs t2, tree_rep t2 a /\ is_Some (known t2 0 i) /\ ratchets_rep i rs a /\
    take_leaf_ratchet w (node 0 i) t =
      (Ok rs, mk_secret_tree (delete (node 0 i) (known_secrets t2)) (st_leaf_count t2)).
Proof using All.
  intros Hi Hrep.
  assert (exists t2 n, tree_rep t2 a /\ known t2 0 i = Some n /\
    take_leaf_ratchet w (node 0 i) t =
      match n with
      | Ratchet ratchet => mret ratchet
      | Secret secret =>
          app ← sm_lift (ratchet_new secret Application);
          hs ← sm_lift (ratchet_new secret Handshake);
          mret (mk_ratchets app hs)
      end (mk_secret_tree (delete (node 0 i) (known_secrets t2)) (st_leaf_count t2)))
    as (t2 & n & Hrep2 & Hn & ->).
  { unfold take_leaf_ratchet. destruct (known t 0 i) as [n|] eqn:E.
    - exists t, n. split; [done|]. split; [done|].
      unfold mbind, sm_bind, take_node. unfold known in E. rewrite E. done.
    - destruct (consume_nodes_rep (Z.to_nat d) i t a) as (t2 & Et & Hrep2 & [n Hn]);
        [done|lia|done|intros k Hk; lia|].
      exists t2, n. split; [done|]. split; [done|].
      unfold mbind, sm_bind, take_node. unfold known in E, Hn. rewrite E. unfold sm_get.
      rewrite delete_id by done. cbn [st_leaf_count]. rewrite (rep_count t a Hrep).
      rewrite direct_copath_node by (try lia; apply in_tree_leaf; lia).
      unfold copath_spec. rewrite Z.sub_0_r, <- (Z2Nat.id d) at 1 by lia.
      replace (mk_secret_tree (known_secrets t) (2 ^ d)) with t
        by (rewrite <- (rep_count t a Hrep); by destruct t).
      rewrite Et, Hn. done. }
  pose proof (in_tree_leaf d i ltac:(lia) Hi) as Hin.
  destruct n as [s|r].
  - assert (forall ty, a i ty = fresh) as Hfr.
    { intros ty. apply (rep_fresh t2 a Hrep2); [done|]. intros r. by rewrite Hn. }
    rewrite (rep_secret t2 a Hrep2 0 i s) by done.
    destruct (ratchet_new_rep d enc Henc i Application) as (r1 & E1 & Hr1).
    destruct (ratchet_new_rep d enc Henc i Handshake) as (r2 & E2 & Hr2).
    exists (mk_ratchets r1 r2), t2. split; [done|]. split; [eauto|].
    split; [unfold ratchets_rep; rewrite !Hfr; done|].
    unfold mbind, sm_bind, sm_lift. rewrite E1, E2. done.
  - exists r, t2. split; [done|]. split; [eauto|]. split; [|done].
    by apply (rep_ratchet t2 a Hrep2 0).
Qed.

Lemma put_taken t i rs :
  mk_secret_tree (<[node 0 i := Ratchet rs]> (delete (node 0 i) (known_secrets t))) (st_leaf_count t)
  = put_leaf t i rs.
Proof using Type. unfold put_leaf. by rewrite insert_delete_eq. Qed.

(** Running a ratchet operation inside the pair of ratchets of a leaf. *)
Lemma with_ratchet_rep {A} (m : SM SecretKeyRatchet MlsError A) i ty rs a res b :
  ratchets_rep i rs a ->
  (forall r, ratchet_rep d enc i ty r (a i ty) ->
     exists r', m r = (res, r') /\ ratchet_rep d enc i ty r' b) ->
  exists rs', with_ratchet ty m rs = (res, rs') /\ ratchets_rep i rs' (spec_set a i ty b).
Proof using All.
  intros [Ha Hh] Hm. destruct ty; simpl; unfold sm_zoom.
  - destruct (Hm _ Hh) as (r' & -> & Hr'). eexists. split; [done|]. split; simpl.
    + by rewrite spec_set_ne by naive_solver.
    + by rewrite spec_set_eq.
  - destruct (Hm _ Ha) as (r' & -> & Hr'). eexists. split; [done|]. split; simpl.
    + by rewrite spec_set_eq.
    + by rewrite spec_set_ne by naive_solver.
Qed.

Lemma next_message_key_rep i ty t a :
  0 <= i < 2 ^ d -> tree_rep t a -> next_gen (a i ty) + 1 < 2 ^ 32 ->
  exists t', next_message_key w (node 0 i) ty t =
      (Ok (spec_key d enc i ty (next_gen (a i ty))), t') /\
    tree_rep t' (spec_set a i ty (spec_next (a i ty)).2).
Proof using All.
  intros Hi Hrep Hb.
  destruct (take_leaf_ratchet_rep i t a Hi Hrep) as (rs & t2 & Hrep2 & Hs & Hrs & Et).
  destruct (with_ratchet_rep ratchet_next_message_key i ty rs a
    (Ok (spec_key d enc i ty (next_gen (a i ty)))) (spec_next (a i ty)).2 Hrs) as (rs' & Ew & Hrs').
  { intros r Hr. by apply ratchet_next_rep. }
  exists (put_leaf t2 i rs'). split.
  - unfold next_message_key, mbind, sm_bind. rewrite Et. unfold ratchets_next_message_key.
    rewrite Ew. unfold sm_lift, set_node, sm_modify, mret, sm_ret. cbn [known_secrets st_leaf_count].
    by rewrite put_taken.
  - eapply put_leaf_rep; [done|done|done|done|]. intros i' ty' Hne. by apply spec_set_ne; left.
Qed.

Lemma message_key_generation_rep i ty g t a :
  0 <= i < 2 ^ d -> tree_rep t a -> 0 <= g ->
  next_gen (a i ty) + MAX_RATCHET_BACK_HISTORY + 1 < 2 ^ 32 ->
  exists t', message_key_generation w (node 0 i) ty g t =
      (spec_key d enc i ty <$> (spec_get g (a i ty)).1, t') /\
    tree_rep t' (spec_set a i ty (spec_get g (a i ty)).2).
Proof using All.
  intros Hi Hrep Hg Hb.
  destruct (take_leaf_ratchet_rep i t a Hi Hrep) as (rs & t2 & Hrep2 & Hs & Hrs & Et).
  destruct (with_ratchet_rep (get_message_key g) i ty rs a
    (spec_key d enc i ty <$> (spec_get g (a i ty)).1) (spec_get g (a i ty)).2 Hrs)
    as (rs' & Ew & Hrs').
  { intros r Hr. by apply get_message_key_rep. }
  exists (put_leaf t2 i rs'). split.
  - unfold message_key_generation, mbind, sm_bind. rewrite Et.
    unfold ratchets_message_key_generation. rewrite Ew.
    unfold sm_lift, set_node, sm_modify. cbn [known_secrets st_leaf_count].
    by rewrite put_taken.
  - eapply put_leaf_rep; [done|done|done|done|]. intros i' ty' Hne. by apply spec_set_ne; left.
Qed.
End tree.

(** ** Runs *)

(** A request for the next key of a leaf, or for the key of a generation. *)
Record Request := mk_request { rq_leaf : Z; rq_type : KeyType; rq_generation : option Z }.

Section runs.
Context {cs : CipherSuiteProvider} (w : Z).

Definition handle (o : Request) : SM SecretTree MlsError MessageKeyData :=
  match rq_generation o with
  | None => next_message_key w (2 * rq_leaf o) (rq_type o)
  | Some g => message_key_generation w (2 * rq_leaf o) (rq_type o) g
  end.

Fixpoint run (ops : list Request) (t : SecretTree) : list (mres MessageKeyData) :=
  match ops with
  | [] => []
  | o :: ops => let '(r, t) := handle o t in r :: run ops t
  end.
End runs.

Definition spec_handle (o : Request) (a : SpecState) : mres Z * SpecState :=
  let c := a (rq_leaf o) (rq_type o) in
  match rq_generation o with
  | None => (Ok (spec_next c).1, spec_set a (rq_leaf o) (rq_type o) (spec_next c).2)
  | Some g => ((spec_get g c).1, spec_set a (rq_leaf o) (rq_type o) (spec_get g c).2)
  end.

Fixpoint spec_run (ops : list Request) (a : SpecState) : list (mres Z) :=
  match ops with
  | [] => []
  | o :: ops => (spec_handle o a).1 :: spec_run ops (spec_handle o a).2
  end.

Definition request_ok (d : Z) (o : Request) : Prop :=
  0 <= rq_leaf o < 2 ^ d /\ match rq_generation o with Some g => is_u32 g | None => True end.

Lemma spec_handle_bound o a (n : Z) :
  (forall i ty, next_gen (a i ty) <= n) ->
  forall i ty, next_gen ((spec_handle o a).2 i ty) <= n + 1025.
Proof.
  intros Hb i ty. pose proof (Hb i ty) as Hi. unfold spec_handle. destruct o as [l ty' og]. simpl.
  assert (forall r, next_gen r <= n + 1025 -> next_gen (spec_set a l ty' r i ty) <= n + 1025) as Hset.
  { intros r Hr. unfold spec_set. case_decide; [done|lia]. }
  pose proof (Hb l ty'). destruct og as [g|]; apply Hset; simpl; [|lia].
  unfold spec_get. change MAX_RATCHET_BACK_HISTORY with 1024.
  repeat case_match; simpl; lia.
Qed.

Section refinement.
Context {cs : CipherSuiteProvider} {laws : KdfLaws} (w d : Z) (enc : bytes).
Context (Hw : 0 < w <= 64) (Hd : 0 <= d < w) (Henc : zlen enc = kdf_extract_size).

Lemma handle_rep o t a :
  request_ok d o -> tree_rep d enc t a -> (forall i ty, next_gen (a i ty) + 1025 < 2 ^ 32) ->
  exists t', handle w o t = (spec_key d enc (rq_leaf o) (rq_type o) <$> (spec_handle o a).1, t') /\
    tree_rep d enc t' (spec_handle o a).2.
Proof using All.
  intros [Hl Hg] Hrep Hb. specialize (Hb (rq_leaf o) (rq_type o)).
  unfold handle, spec_handle. rewrite <- node_0. destruct (rq_generation o) as [g|].
  - destruct (message_key_generation_rep w d enc Hw Hd Henc (rq_leaf o) (rq_type o) g t a)
      as (t' & -> & Hr); [done|done|apply Hg|unfold MAX_RATCHET_BACK_HISTORY; lia|]. eauto.
  - destruct (next_message_key_rep w d enc Hw Hd Henc (rq_leaf o) (rq_type o) t a)
      as (t' & -> & Hr); [done|done|lia|]. eauto.
Qed.

Lemma run_rep ops n t a :
  Forall (request_ok d) ops -> tree_rep d enc t a -> (forall i ty, next_gen (a i ty) <= n) ->
  n + 1025 * zlen ops < 2 ^ 32 ->
  run w ops t = zip_with (fun o r => spec_key d enc (rq_leaf o) (rq_type o) <$> r) ops (spec_run ops a).
Proof using All.
  revert n t a. induction ops as [|o ops IH]; intros n t a Hok Hrep Hn Hb; [done|].
  apply Forall_cons in Hok as [Ho Hok].
  assert (zlen (o :: ops) = zlen ops + 1) as Hz by (unfold zlen; simpl; lia).
  pose proof (zlen_nonneg ops).
  destruct (handle_rep o t a Ho Hrep) as (t' & E & Hrep').
  { intros i ty. specialize (Hn i ty). lia. }
  simpl. rewrite E. f_equal. apply (IH (n + 1025)); [done|done| |lia].
  by apply spec_handle_bound.
Qed.
End refinement.

(** The generations a ratchet can still hand out. *)
Definition available (a : RatchetSpec) (g : Z) : Prop := g ∈ kept a \/ next_gen a <= g.

Definition spec_inv (a : SpecState) : Prop :=
  forall i ty, forall g, g ∈ kept (a i ty) -> g < next_gen (a i ty).

Lemma elem_of_range a b g : g ∈ range a b <-> a <= g < b.
Proof. unfold range. rewrite elem_of_list_to_set, elem_of_seqZ. lia. Qed.

Lemma spec_get_available g a :
  (forall x, x ∈ kept a -> x < next_gen a) ->
  (forall x, x ∈ kept (spec_get g a).2 -> x < next_gen (spec_get g a).2) /\
  (forall x, available (spec_get g a).2 x -> available a x) /\
  (forall x, (spec_get g a).1 = Ok x -> x = g /\ available a g /\ ~ available (spec_get g a).2 g).
Proof.
  intros Hk. unfold spec_get, available.
  destruct (Z.ltb_spec g (next_gen a)).
  { case_bool_decide; simpl; [set_solver by lia|naive_solver]. }
  destruct (Z.ltb_spec (next_gen a + MAX_RATCHET_BACK_HISTORY) g); simpl; [naive_solver|].
  split; [|split].
  - intros x [Hx|Hx%elem_of_range]%elem_of_union; [specialize (Hk x Hx)|]; lia.
  - intros x [[Hx|Hx%elem_of_range]%elem_of_union|Hx]; [by left|right; lia|right; lia].
  - intros x [= <-]. split; [done|]. split; [right; lia|].
    intros [[Hx|Hx%elem_of_range]%elem_of_union|Hx]; [specialize (Hk g Hx)| |]; lia.
Qed.

Lemma spec_handle_available o a :
  spec_inv a ->
  spec_inv (spec_handle o a).2 /\
  (forall i ty g, available ((spec_handle o a).2 i ty) g -> available (a i ty) g) /\
  (forall g, (spec_handle o a).1 = Ok g ->
     available (a (rq_leaf o) (rq_type o)) g /\
     ~ available ((spec_handle o a).2 (rq_leaf o) (rq_type o)) g).
Proof.
  intros Hinv. set (c := a (rq_leaf o) (rq_type o)).
  assert (exists r c', spec_handle o a = (r, spec_set a (rq_leaf o) (rq_type o) c') /\
    (forall x, x ∈ kept c' -> x < next_gen c') /\ (forall x, available c' x -> available c x) /\
    (forall x, r = Ok x -> available c x /\ ~ available c' x)) as (r & c' & -> & Hk & Hs & Hr).
  { unfold spec_handle. fold c. specialize (Hinv (rq_leaf o) (rq_type o)). fold c in Hinv.
    destruct (rq_generation o) as [g|].
    - destruct (spec_get_available g c Hinv) as (H1 & H2 & H3).
      eexists _, _. split; [done|]. split; [done|]. split; [done|].
      intros x Hx. by destruct (H3 x Hx) as [-> ?].
    - eexists _, _. split; [done|]. unfold available. simpl. split; [|split].
      + intros x Hx. specialize (Hinv x Hx). lia.
      + intros x [?|?]; [by left|right; lia].
      + intros x [= <-]. split; [right; lia|]. intros [Hx|Hx]; [specialize (Hinv _ Hx)|]; lia. }
  simpl. split; [|split].
  - intros i ty. unfold spec_set. case_decide; [done|apply Hinv].
  - intros i ty g. unfold spec_set. case_decide as Hc; [destruct Hc as [-> ->]; apply Hs|done].
  - intros g Hg. rewrite spec_set_eq. by apply Hr.
Qed.

Lemma spec_run_available ops a q o g :
  spec_inv a -> ops !! q = Some o -> spec_run ops a !! q = Some (Ok g) ->
  available (a (rq_leaf o) (rq_type o)) g.
Proof.
  revert a q. induction ops as [|o' ops IH]; intros a q Hinv Ho Hr; [done|].
  destruct (spec_handle_available o' a Hinv) as (Hinv' & Hs & Hok).
  destruct q as [|q]; simpl in *; simplify_eq.
  - naive_solver.
  - apply Hs. by eapply IH.
Qed.

Lemma spec_run_no_reuse ops a p q o o' g :
  spec_inv a -> (p < q)%nat -> ops !! p = Some o -> ops !! q = Some o' ->
  rq_leaf o = rq_leaf o' -> rq_type o = rq_type o' ->
  spec_run ops a !! p = Some (Ok g) -> spec_run ops a !! q <> Some (Ok g).
Proof.
  revert a p q. induction ops as [|o1 ops IH]; intros a p q Hinv Hpq Hp Hq Hl Ht Hrp Hrq; [done|].
  destruct (spec_handle_available o1 a Hinv) as (Hinv' & Hs & Hok).
  destruct q as [|q]; [lia|]. destruct p as [|p]; simpl in *; simplify_eq.
  - destruct (Hok g) as [_ Hno]; [done|]. apply Hno. rewrite Hl, Ht.
    by eapply spec_run_available.
  - by eapply (IH _ p q Hinv'); [lia|..].
Qed.

(** ** Storage *)

Definition message_key_data_wf (k : MessageKeyData) : Prop :=
  bytes_ok (mk_nonce k) /\ bytes_ok (mk_key k) /\ is_u32 (mk_generation k).

#[export] Instance message_key_data_codec_ok : CodecOk message_key_data_codec message_key_data_wf.
Proof. struct_ok. Qed.

#[export] Instance message_key_data_codec_progress : CodecProgress message_key_data_codec.
Proof. eapply struct_codec_progress; apply _. Qed.

Section storage_laws.
Context (values : gmap Z MessageKeyData -> list MessageKeyData).
Context (entries : gmap Z SecretTreeNode -> list (Z * SecretTreeNode)).
Context (Hvalues : forall h, values h ≡ₚ (map_to_list h).*2).
Context (Hentries : forall m, entries m ≡ₚ map_to_list m).

(** Each key is filed under its own generation. *)
Definition history_wf (h : gmap Z MessageKeyData) : Prop :=
  map_Forall (fun g k => mk_generation k = g /\ message_key_data_wf k) h.

Definition by_generation (k : MessageKeyData) : Z * MessageKeyData := (mk_generation k, k).

Lemma decode_history_eq fuel data items :
  decode_history fuel data items =
    (fun l => insert_all items (by_generation <$> l)) <$> decode_items message_key_data_codec fuel data.
Proof using Type.
  revert data items. induction fuel as [|fuel IH]; intros [|b data] items; try done.
  cbn [decode_history decode_items].
  destruct (mls_decode message_key_data_codec (b :: data)) as [[k r]| |]; [|done|done]. simpl.
  rewrite IH. by destruct (decode_items _ fuel r).
Qed.

Lemma by_generation_values h : history_wf h -> by_generation <$> values h ≡ₚ map_to_list h.
Proof using Hvalues.
  intros Hh. rewrite Hvalues, <- list_fmap_compose.
  assert (by_generation ∘ snd <$> map_to_list h = map_to_list h) as ->; [|done].
  rewrite <- (list_fmap_id (map_to_list h)) at 2.
  apply list_fmap_ext. intros i [g k] Hi%list_elem_of_lookup_2%elem_of_map_to_list.
  unfold by_generation. simpl. by destruct (Hh g k Hi) as [-> _].
Qed.

#[export] Instance history_codec_ok : CodecOk (history_codec values) history_wf.
Proof using Hvalues.
  eapply collection_ok with (body_len := fun h => iter_items_len message_key_data_codec (values h))
    (body := fun h => encode_items message_key_data_codec (values h) [])
    (dec := fun data => decode_history (length data) data ∅).
  - done.
  - intros h w. apply (iter_encode_preallocate_eq _ message_key_data_wf).
  - done.
  - intros h. apply (iter_items_len_nonneg _ message_key_data_wf).
  - intros h Hh. assert (Forall message_key_data_wf (values h)) as Hl.
    { rewrite Hvalues. apply Forall_fmap, Forall_forall.
      intros [g k] Hk%elem_of_map_to_list. by apply (Hh g k). }
    pose proof (encode_items_spec _ message_key_data_wf (values h) Hl) as Hs.
    case_match; [|done|done]. destruct Hs as (? & ? & Hdec). split; [done|]. split; [done|].
    rewrite decode_history_eq, Hdec by done. simpl. f_equal.
    apply insert_all_perm. by apply by_generation_values.
  - intros bs Hbs. rewrite decode_history_eq.
    pose proof (decode_items_no_panic _ message_key_data_wf _ bs Hbs (le_n _)) as Hdec.
    destruct (decode_items message_key_data_codec (length bs) bs) as [l| |]; [|done|done].
    simpl. clear -Hdec. assert (history_wf ∅) as Hempty by apply map_Forall_empty.
    revert Hempty. generalize (∅ : gmap Z MessageKeyData).
    induction Hdec as [|k l Hk Hl IH]; intros m Hm; [done|]. simpl. apply IH.
    by apply map_Forall_insert_2.
Qed.

Definition ratchet_wf (r : SecretKeyRatchet) : Prop :=
  bytes_ok (rt_secret r) /\ is_u32 (rt_generation r) /\ history_wf (rt_history r).

#[export] Instance ratchet_codec_ok : CodecOk (ratchet_codec values) ratchet_wf.
Proof using Hvalues. struct_ok. Qed.

Definition node_wf (n : SecretTreeNode) : Prop :=
  match n with
  | Secret s => bytes_ok s
  | Ratchet r => ratchet_wf (application r) /\ ratchet_wf (handshake r)
  end.

#[export] Instance ratchets_codec_ok :
  CodecOk (ratchets_codec values) (fun r => ratchet_wf (application r) /\ ratchet_wf (handshake r)).
Proof using Hvalues. struct_ok. Qed.

#[export] Instance secret_tree_node_codec_ok : CodecOk (secret_tree_node_codec values) node_wf.
Proof using Hvalues.
  eapply codec_ok_iff; [|apply (enum_codec_ok u8_codec (in_uint 8) _ _ node_wf)].
  - intros x. split; [by intros []|]. intros Hx. split; [by destruct x|done].
  - intros t cv. destruct (Z.eqb_spec t 0) as [->|]; [|destruct (Z.eqb_spec t 1) as [->|]; [|done]].
    + intros [= <-]. eapply codec_ok_iff; [|apply (variant_codec_ok byte_vec_codec bytes_ok)].
      * intros [s|r]; simpl; naive_solver.
      * intros [] ?; simpl; naive_solver.
    + intros [= <-]. eapply codec_ok_iff; [|eapply (variant_codec_ok (ratchets_codec values)); [apply _|]].
      * intros [s|r]; simpl; split; [by intros (? & ? & _)|by intros []
          |by intros (? & [= <-] & ?)|intros [_ ?]; by exists r].
      * intros [] ?; simpl; naive_solver.
  - by intros [].
Qed.

Definition secret_tree_wf (t : SecretTree) : Prop :=
  map_Forall (fun i n => is_u32 i /\ node_wf n) (known_secrets t) /\ is_u32 (st_leaf_count t).

#[export] Instance secret_tree_codec_ok : CodecOk (secret_tree_codec values entries) secret_tree_wf.
Proof using Hvalues Hentries.
  pose proof (map_codec_ok u32_codec (secret_tree_node_codec values) (in_uint 32) node_wf
    entries Hentries) as Hmap.
  struct_ok.
Qed.
End storage_laws.

(** ** Theorems *)

(** C15: the secret tree implements its specification.  For every sequence of
    requests for leaves of the tree on a fresh tree of 2^d leaves below a secret
    of the size of the KDF, short enough for no counter to wrap (1025 per
    request, in 32 bits), the tree answers each request as one counter per leaf and type
    does: the next generation, a skipped generation once, [KeyMissing] for a
    generation that was used, [InvalidFutureGeneration] for one more than 1024
    ahead; and the key it returns is the one that the encryption secret
    determines for the leaf, the type and the generation, in whatever order
    the requests come. *)
Theorem secret_tree_refines {cs : CipherSuiteProvider} (laws : KdfLaws) (w d : Z) (enc : bytes)
    (ops : list Request) (Hw : 0 < w <= 64) (Hd : 0 <= d < w) (Henc : zlen enc = kdf_extract_size)
    (Hops : Forall (request_ok d) ops) (Hlen : 1025 * zlen ops < 2 ^ 32) :
  run w ops (secret_tree_new w (2 ^ d) enc) =
    zip_with (fun o r => spec_key d enc (rq_leaf o) (rq_type o) <$> r) ops
      (spec_run ops (fun _ _ => fresh)).
Proof.
  apply (run_rep w d enc Hw Hd Henc ops 0); [done|by apply secret_tree_new_rep|done|lia].
Qed.

Definition sample_requests : list Request :=
  [mk_request 2 Application (Some 2); mk_request 2 Application (Some 0);
   mk_request 2 Application (Some 0); mk_request 1 Handshake None;
   mk_request 2 Application (Some 5000); mk_request 2 Application None].

Lemma secret_tree_refines_witness :
  map (fmap mk_generation)
    (run (cs := Toy.provider) 32 sample_requests (secret_tree_new 32 (2 ^ 2) [1; 2; 3; 4])) =
    [Ok 2; Ok 0; Err (KeyMissing 0); Ok 0; Err (InvalidFutureGeneration 5000); Ok 3].
Proof.
  rewrite (secret_tree_refines Toy.kdf_laws 32 2 [1; 2; 3; 4] sample_requests ltac:(lia) ltac:(lia) eq_refl
    ltac:(repeat constructor; simpl; unfold in_uint; lia) ltac:(done)).
  vm_compute. reflexivity.
Defined.

(** C31: no message key is handed out twice.  If two requests of a sequence as
    above, for the same leaf and key type, both succeed, the keys they return
    have different generations. *)
Theorem message_keys_used_once {cs : CipherSuiteProvider} (laws : KdfLaws) (w d : Z) (enc : bytes)
    (ops : list Request) (Hw : 0 < w <= 64) (Hd : 0 <= d < w) (Henc : zlen enc = kdf_extract_size)
    (Hops : Forall (request_ok d) ops) (Hlen : 1025 * zlen ops < 2 ^ 32)
    (p q : nat) (o o' : Request) (key key' : MessageKeyData) (Hpq : (p < q)%nat)
    (Hp : ops !! p = Some o) (Hq : ops !! q = Some o')
    (Hleaf : rq_leaf o = rq_leaf o') (Htype : rq_type o = rq_type o')
    (Hkey : run w ops (secret_tree_new w (2 ^ d) enc) !! p = Some (Ok key))
    (Hkey' : run w ops (secret_tree_new w (2 ^ d) enc) !! q = Some (Ok key')) :
  mk_generation key <> mk_generation key'.
Proof.
  rewrite (run_rep w d enc Hw Hd Henc ops 0 _ (fun _ _ => fresh)) in Hkey, Hkey'
    by (done || lia || by apply secret_tree_new_rep).
  rewrite lookup_zip_with in Hkey, Hkey'. rewrite Hp in Hkey. rewrite Hq in Hkey'. simpl in *.
  destruct (spec_run ops _ !! p) as [[g| |]|] eqn:Eg; simplify_eq/=.
  destruct (spec_run ops _ !! q) as [[g'| |]|] eqn:Eg'; simplify_eq/=.
  intros ->. by eapply (spec_run_no_reuse ops (fun _ _ => fresh) p q).
Qed.

Lemma message_keys_used_once_witness :
  map (fmap mk_generation)
    (run (cs := Toy.provider) 32 [mk_request 1 Handshake (Some 1); mk_request 1 Handshake (Some 0)]
      (secret_tree_new 32 (2 ^ 1) [7; 7; 7; 7])) = [Ok 1; Ok 0] /\ 1 <> 0.
Proof.
  split; [vm_compute; reflexivity|].
  eapply (message_keys_used_once Toy.kdf_laws 32 1 [7; 7; 7; 7]
    [mk_request 1 Handshake (Some 1); mk_request 1 Handshake (Some 0)] ltac:(lia) ltac:(lia) eq_refl
    ltac:(repeat constructor; simpl; unfold in_uint; lia) ltac:(done) 0 1
    (mk_request 1 Handshake (Some 1)) (mk_request 1 Handshake (Some 0))
    (spec_key (cs := Toy.provider) 1 [7; 7; 7; 7] 1 Handshake 1)
    (spec_key (cs := Toy.provider) 1 [7; 7; 7; 7] 1 Handshake 0)
    ltac:(lia) eq_refl eq_refl eq_refl eq_refl); vm_compute; reflexivity.
Defined.

(** The secret tree survives storage.  A well-formed tree, in which every
    skipped key is filed under its generation, encodes unless it exceeds the
    size limit of a vector, and decodes to itself for every iteration order of
    its hash maps, although the history is written without its keys. *)
Theorem secret_tree_storage
    (values : gmap Z MessageKeyData -> list MessageKeyData)
    (entries : gmap Z SecretTreeNode -> list (Z * SecretTreeNode))
    (Hvalues : forall h, values h ≡ₚ (map_to_list h).*2)
    (Hentries : forall m, entries m ≡ₚ map_to_list m)
    (t : SecretTree) (Ht : secret_tree_wf t) :
  match mls_encode_to_vec (secret_tree_codec values entries) t with
  | Ok b => zlen b = mls_encoded_len (secret_tree_codec values entries) t /\
            forall rest, bytes_ok rest ->
              mls_decode (secret_tree_codec values entries) (b ++ rest) = Ok (t, rest)
  | Err e => e = VarIntOutOfRange
  | Panic => False
  end.
Proof.
  pose proof (secret_tree_codec_ok values entries Hvalues Hentries) as Hc.
  pose proof (enc_spec (c := secret_tree_codec values entries) t Ht) as H.
  unfold enc_good, mls_encode_to_vec in *. case_match; naive_solver.
Qed.

Definition sample_tree : SecretTree :=
  mk_secret_tree
    {[0 := Ratchet (mk_ratchets (mk_ratchet [1] 3 {[2 := mk_message_key_data [4] [5] 2]})
                      (mk_ratchet [6] 0 ∅))]} 2.

Lemma secret_tree_storage_witness :
  match mls_encode_to_vec (secret_tree_codec (fun h => (map_to_list h).*2) map_to_list) sample_tree with
  | Ok b => mls_decode (secret_tree_codec (fun h => (map_to_list h).*2) map_to_list) (b ++ []) =
            Ok (sample_tree, [])
  | _ => False
  end.
Proof.
  pose proof (secret_tree_storage (fun h => (map_to_list h).*2) map_to_list
    (fun h => Permutation_refl _) (fun m => Permutation_refl _) sample_tree) as H.
  destruct (mls_encode_to_vec _ sample_tree) as [b| |] eqn:E; [|vm_compute in E; discriminate..].
  apply H; [|constructor].
  split; [|done]. apply map_Forall_singleton. split; [done|].
  split; (split; [by repeat constructor|]); (split; [done|]); [|apply map_Forall_empty].
  apply map_Forall_singleton. split; [done|]. split; [by repeat constructor|].
  split; [by repeat constructor|done].
Defined.
