(* ===== verification/Data.v ===== *)
(** * Credentials, extensions, capabilities and leaf nodes

    The data that members publish (mls-rs-core: identity, extension, group/roster,
    time; mls-rs: tree_kem/lifetime.rs, leaf_node.rs and the node types of
    node.rs), with the wire format of each type and the operations of
    [ExtensionList] and [Lifetime].

    Newtypes over a 16-bit number ([ProtocolVersion], [CipherSuite],
    [ExtensionType], [ProposalType], [CredentialType]) are that number, and
    [MlsTime] is a 64-bit number of seconds. *)

From S2P Require Import Prelude Codec Crypto.

#[local] Set Default Goal Selector "!".
Local Open Scope Z_scope.

(** ** Credentials *)

Definition CREDENTIAL_BASIC : Z := 1.
Definition CREDENTIAL_X509 : Z := 2.

Inductive Credential :=
| Basic (identifier : bytes)
| X509 (chain : list bytes)
| CustomCredential (custom_type : Z) (data : bytes).

#[export] Instance Credential_eq_dec : EqDecision Credential.
Proof. solve_decision. Defined.

Definition credential_type (c : Credential) : Z :=
  match c with
  | Basic _ => CREDENTIAL_BASIC
  | X509 _ => CREDENTIAL_X509
  | CustomCredential t _ => t
  end.

Definition credential_codec : codec Credential :=
  enum_codec u16_codec credential_type
    (fun t =>
       Some (if t =? CREDENTIAL_BASIC then
               variant_codec Basic (fun c => match c with Basic i => Some i | _ => None end)
                 byte_vec_codec
             else if t =? CREDENTIAL_X509 then
               variant_codec X509 (fun c => match c with X509 i => Some i | _ => None end)
                 (vec_codec byte_vec_codec)
             else
               variant_codec (CustomCredential t)
                 (fun c => match c with
                           | CustomCredential t' d => if t' =? t then Some d else None
                           | _ => None
                           end) byte_vec_codec)).

Record SigningIdentity := mk_signing_identity {
  signature_key : SignaturePublicKey;
  credential : Credential;
}.

#[export] Instance SigningIdentity_eq_dec : EqDecision SigningIdentity.
Proof. solve_decision. Defined.

Definition signing_identity_codec : codec SigningIdentity :=
  struct_codec (fun s => (signature_key s, credential s)) (fun '(k, c) => mk_signing_identity k c)
    (pair_codec byte_vec_codec credential_codec).

(** ** Capabilities *)

Record Capabilities := mk_capabilities {
  protocol_versions : list Z;
  cipher_suites : list Z;
  cap_extensions : list Z;
  cap_proposals : list Z;
  cap_credentials : list Z;
}.

#[export] Instance Capabilities_eq_dec : EqDecision Capabilities.
Proof. solve_decision. Defined.

Definition capabilities_codec : codec Capabilities :=
  struct_codec
    (fun c => (protocol_versions c, (cipher_suites c, (cap_extensions c,
                (cap_proposals c, cap_credentials c)))))
    (fun '(v, (s, (e, (p, c)))) => mk_capabilities v s e p c)
    (pair_codec (vec_codec u16_codec) (pair_codec (vec_codec u16_codec)
      (pair_codec (vec_codec u16_codec) (pair_codec (vec_codec u16_codec) (vec_codec u16_codec))))).

(** ** Extensions *)

Record Extension := mk_extension { extension_type : Z; extension_data : bytes }.

#[export] Instance Extension_eq_dec : EqDecision Extension.
Proof. solve_decision. Defined.

Definition extension_codec : codec Extension :=
  struct_codec (fun e => (extension_type e, extension_data e)) (fun '(t, d) => mk_extension t d)
    (pair_codec u16_codec byte_vec_codec).

Notation ExtensionList := (list Extension) (only parsing).

Definition has_extension (l : ExtensionList) (ext_id : Z) : bool :=
  existsb (fun e => extension_type e =? ext_id) l.

Definition ext_get (l : ExtensionList) (ext_type : Z) : option Extension :=
  List.find (fun e => extension_type e =? ext_type) l.

Fixpoint ext_set (l : ExtensionList) (ext : Extension) : ExtensionList :=
  match l with
  | [] => [ext]
  | e :: l => if extension_type e =? extension_type ext then ext :: l else e :: ext_set l ext
  end.

Definition ext_remove (l : ExtensionList) (ext_type : Z) : ExtensionList :=
  List.filter (fun e => negb (extension_type e =? ext_type)) l.

Definition ext_append (l others : ExtensionList) : ExtensionList := l ++ others.

Definition ext_extend (l others : ExtensionList) : ExtensionList := foldl ext_set l others.

Definition ext_from_iter (exts : list Extension) : ExtensionList := ext_extend [] exts.

(** [PartialEq]: the order of the entries does not matter. *)
Definition ext_list_eq (l other : ExtensionList) : bool :=
  (length l =? length other)%nat
  && forallb (fun e => bool_decide (ext_get other (extension_type e) = Some e)) l.

(** The decoder rejects a second extension of a type. *)
Fixpoint decode_extensions (fuel : nat) (data : bytes) (l : ExtensionList) : cres ExtensionList :=
  match data with
  | [] => Ok l
  | _ :: _ =>
      match fuel with
      | O => Panic
      | S fuel =>
          '(ext, data) ← mls_decode extension_codec data;
          if has_extension l (extension_type ext) then Err (Custom 1)
          else decode_extensions fuel data (l ++ [ext])
      end
  end.

Definition extension_list_codec : codec ExtensionList := mk_codec
  (mls_encoded_len (vec_codec extension_codec))
  (mls_encode (vec_codec extension_codec))
  (mls_decode_collection (fun data => decode_extensions (length data) data [])).

(** An extension type with its own codec ([MlsCodecExtension]). *)
Section typed_extensions.
Context {E : Type} (etype : Z) (c : codec E).

Definition into_extension (e : E) : res ExtensionErr Extension :=
  data ← map_err (fun e => ExtSerializationError (any_codec e)) (mls_encode_to_vec c e);
  Ok (mk_extension etype data).

Definition from_extension (ext : Extension) : res ExtensionErr E :=
  if negb (extension_type ext =? etype) then Err (IncorrectType (extension_type ext))
  else fst <$> map_err (fun e => ExtDeserializationError (any_codec e))
                 (mls_decode c (extension_data ext)).

Definition ext_get_as (l : ExtensionList) : res ExtensionErr (option E) :=
  match List.find (fun e => extension_type e =? etype) l with
  | Some e => Some <$> from_extension e
  | None => Ok None
  end.

Definition ext_set_from (l : ExtensionList) (e : E) : res ExtensionErr ExtensionList :=
  ext ← into_extension e;
  Ok (ext_set l ext).
End typed_extensions.

(** ** Lifetimes *)

Record Lifetime := mk_lifetime { not_before : Z; not_after : Z }.

#[export] Instance Lifetime_eq_dec : EqDecision Lifetime.
Proof. solve_decision. Defined.

Definition lifetime_codec : codec Lifetime :=
  struct_codec (fun l => (not_before l, not_after l)) (fun '(b, a) => mk_lifetime b a)
    (pair_codec u64_codec u64_codec).

(** [now] is the system clock. *)
Definition lifetime_seconds (now s : Z) (maybe_not_before : option Z) : mres Lifetime :=
  let not_before := default now maybe_not_before in
  not_after ← (if not_before + s <? 2 ^ 64 then Ok (not_before + s) else Err TimeOverflow);
  Ok (mk_lifetime (wrap 64 (not_before - 3600)) not_after).

Definition lifetime_days (now d : Z) (maybe_not_before : option Z) : mres Lifetime :=
  lifetime_seconds now (wrap 32 (d * 86400)) maybe_not_before.

Definition lifetime_years (now y : Z) (maybe_not_before : option Z) : mres Lifetime :=
  lifetime_days now (wrap 32 (365 * y)) maybe_not_before.

Definition within_lifetime (l : Lifetime) (time : Z) : bool :=
  (not_before l <=? time) && (time <=? not_after l).

(** ** Leaf nodes *)

Notation ParentHash := bytes (only parsing).

Inductive LeafNodeSource :=
| SourceKeyPackage (lifetime : Lifetime)
| SourceUpdate
| SourceCommit (parent_hash : ParentHash).

#[export] Instance LeafNodeSource_eq_dec : EqDecision LeafNodeSource.
Proof. solve_decision. Defined.

Definition leaf_node_source_discriminant (s : LeafNodeSource) : Z :=
  match s with SourceKeyPackage _ => 1 | SourceUpdate => 2 | SourceCommit _ => 3 end.

Definition leaf_node_source_codec : codec LeafNodeSource :=
  enum_codec u8_codec leaf_node_source_discriminant
    (fun t =>
       if t =? 1 then
         Some (variant_codec SourceKeyPackage
                 (fun s => match s with SourceKeyPackage l => Some l | _ => None end) lifetime_codec)
       else if t =? 2 then
         Some (variant_codec (fun _ => SourceUpdate)
                 (fun s => match s with SourceUpdate => Some tt | _ => None end) unit_codec)
       else if t =? 3 then
         Some (variant_codec SourceCommit
                 (fun s => match s with SourceCommit h => Some h | _ => None end) byte_vec_codec)
       else None).

Record LeafNode := mk_leaf_node {
  leaf_public_key : HpkePublicKey;
  signing_identity : SigningIdentity;
  capabilities : Capabilities;
  leaf_node_source : LeafNodeSource;
  leaf_extensions : ExtensionList;
  leaf_signature : bytes;
}.

#[export] Instance LeafNode_eq_dec : EqDecision LeafNode.
Proof. solve_decision. Defined.

Definition leaf_node_codec : codec LeafNode :=
  struct_codec
    (fun l => (leaf_public_key l, (signing_identity l, (capabilities l, (leaf_node_source l,
                (leaf_extensions l, leaf_signature l))))))
    (fun '(k, (i, (c, (s, (e, g))))) => mk_leaf_node k i c s e g)
    (pair_codec byte_vec_codec (pair_codec signing_identity_codec (pair_codec capabilities_codec
      (pair_codec leaf_node_source_codec (pair_codec extension_list_codec byte_vec_codec))))).

(** ** Tree nodes *)

Definition MAX_LEAF_INDEX : Z := 2 ^ 24 - 1.

Definition leaf_index_try_from (value : Z) : mres Z :=
  if MAX_LEAF_INDEX <? value then Err InvalidTreeIndex else Ok value.

Definition leaf_index_codec : codec Z := mk_codec
  (mls_encoded_len u32_codec)
  (mls_encode u32_codec)
  (fun reader =>
     '(val, rest) ← mls_decode u32_codec reader;
     val ← map_err (fun _ => Custom 6) (leaf_index_try_from val);
     Ok (val, rest)).

Record Parent := mk_parent {
  parent_public_key : HpkePublicKey;
  parent_hash : ParentHash;
  unmerged_leaves : list Z;
}.

#[export] Instance Parent_eq_dec : EqDecision Parent.
Proof. solve_decision. Defined.

Definition parent_codec : codec Parent :=
  struct_codec (fun p => (parent_public_key p, (parent_hash p, unmerged_leaves p)))
    (fun '(k, (h, u)) => mk_parent k h u)
    (pair_codec byte_vec_codec (pair_codec byte_vec_codec (vec_codec leaf_index_codec))).

Inductive Node :=
| NodeLeaf (l : LeafNode)
| NodeParent (p : Parent).

#[export] Instance Node_eq_dec : EqDecision Node.
Proof. solve_decision. Defined.

Definition node_codec : codec Node :=
  enum_codec u8_codec (fun n => match n with NodeLeaf _ => 1 | NodeParent _ => 2 end)
    (fun t =>
       if t =? 1 then
         Some (variant_codec NodeLeaf (fun n => match n with NodeLeaf l => Some l | _ => None end)
                 leaf_node_codec)
       else if t =? 2 then
         Some (variant_codec NodeParent (fun n => match n with NodeParent p => Some p | _ => None end)
                 parent_codec)
       else None).

Definition node_public_key (n : Node) : HpkePublicKey :=
  match n with NodeParent p => parent_public_key p | NodeLeaf l => leaf_public_key l end.

Definition node_vec_codec : codec (list (option Node)) := vec_codec (option_codec node_codec).

(** ** The group context *)

Record GroupContext := mk_group_context {
  protocol_version : Z;
  gc_cipher_suite : Z;
  group_id : bytes;
  epoch : Z;
  tree_hash : bytes;
  confirmed_transcript_hash : bytes;
  gc_extensions : ExtensionList;
}.

#[export] Instance GroupContext_eq_dec : EqDecision GroupContext.
Proof. solve_decision. Defined.

Definition group_context_codec : codec GroupContext :=
  struct_codec
    (fun c => (protocol_version c, (gc_cipher_suite c, (group_id c, (epoch c, (tree_hash c,
                (confirmed_transcript_hash c, gc_extensions c)))))))
    (fun '(v, (s, (g, (e, (t, (h, x)))))) => mk_group_context v s g e t h x)
    (pair_codec u16_codec (pair_codec u16_codec (pair_codec byte_vec_codec (pair_codec u64_codec
      (pair_codec byte_vec_codec (pair_codec byte_vec_codec extension_list_codec)))))).

Definition group_context_new (protocol_version cipher_suite : Z) (group_id tree_hash : bytes)
    (extensions : ExtensionList) : GroupContext :=
  mk_group_context protocol_version cipher_suite group_id 0 tree_hash [] extensions.

(** ** The identity provider *)

Inductive MemberValidationContext :=
| ForCommit (current_context : GroupContext) (new_extensions : ExtensionList)
| ForNewGroup (current_context : GroupContext)
| NoContext.

(** The trait of mls-rs-core/src/identity/provider.rs, implemented by the
    application. *)
Class IdentityProvider := {
  validate_member : SigningIdentity -> option Z -> MemberValidationContext -> res AnyError unit;
  validate_external_sender :
    SigningIdentity -> option Z -> option ExtensionList -> res AnyError unit;
  identity : SigningIdentity -> ExtensionList -> res AnyError bytes;
  valid_successor : SigningIdentity -> SigningIdentity -> ExtensionList -> res AnyError bool;
  supported_types : list Z;
}.

(** [map_err(|e| MlsError::IdentityProviderError(e.into_any_error()))]. *)
Definition from_identity {A} (m : res AnyError A) : mres A := map_err IdentityProviderError m.

(** ** Well-formed data and the laws of its codecs *)

Definition credential_data_wf (c : Credential) : Prop :=
  match c with
  | Basic i => bytes_ok i
  | X509 chain => Forall bytes_ok chain
  | CustomCredential t d =>
      t <> CREDENTIAL_BASIC /\ t <> CREDENTIAL_X509 /\ bytes_ok d
  end.

Lemma custom_proj t c d :
  match c with CustomCredential t' d => if t' =? t then Some d else None | _ => None end = Some d <->
  CustomCredential t d = c.
Proof. destruct c as [| |t' d']; try done. destruct (Z.eqb_spec t' t); naive_solver. Qed.

Lemma credential_variant_ok t cv :
  cv = (if t =? CREDENTIAL_BASIC then
          variant_codec Basic (fun c => match c with Basic i => Some i | _ => None end) byte_vec_codec
        else if t =? CREDENTIAL_X509 then
          variant_codec X509 (fun c => match c with X509 i => Some i | _ => None end)
            (vec_codec byte_vec_codec)
        else
          variant_codec (CustomCredential t)
            (fun c => match c with
                      | CustomCredential t' d => if t' =? t then Some d else None
                      | _ => None
                      end) byte_vec_codec) ->
  CodecOk cv (fun x => credential_type x = t /\ credential_data_wf x) /\ CodecCanonical cv.
Proof.
  intros ->. destruct (Z.eqb_spec t CREDENTIAL_BASIC) as [->|H1];
    [|destruct (Z.eqb_spec t CREDENTIAL_X509) as [->|H2]].
  - split; [|eapply variant_codec_canonical; [apply _..|]; by intros [] ?; naive_solver].
    eapply variant_ok_disc; [apply byte_vec_codec_ok|by intros [] ?; naive_solver|done|].
    intros []; simpl; naive_solver.
  - split; [|eapply variant_codec_canonical; [apply _..|]; by intros [] ?; naive_solver].
    eapply variant_ok_disc; [apply vec_codec_ok; apply _|by intros [] ?; naive_solver|done|].
    intros []; simpl; naive_solver.
  - split; [|eapply variant_codec_canonical; [apply _..|]; intros; apply custom_proj].
    eapply variant_ok_disc; [apply byte_vec_codec_ok|intros; apply custom_proj|simpl; naive_solver|].
    intros []; simpl; naive_solver.
Qed.

Definition credential_wf (c : Credential) : Prop :=
  is_u16 (credential_type c) /\ credential_data_wf c.

#[export] Instance credential_codec_ok : CodecOk credential_codec credential_wf.
Proof.
  apply (enum_codec_ok u16_codec (in_uint 16)); [|eauto].
  intros t cv [= <-]. by eapply credential_variant_ok.
Qed.

#[export] Instance credential_codec_canonical : CodecCanonical credential_codec.
Proof.
  eapply (enum_codec_canonical u16_codec (in_uint 16) _ _ credential_data_wf); [|apply _|];
    intros t cv [= <-]; by eapply credential_variant_ok.
Qed.

Definition signing_identity_wf (s : SigningIdentity) : Prop :=
  bytes_ok (signature_key s) /\ credential_wf (credential s).

#[export] Instance signing_identity_codec_ok : CodecOk signing_identity_codec signing_identity_wf.
Proof. struct_ok. Qed.
#[export] Instance signing_identity_codec_canonical : CodecCanonical signing_identity_codec.
Proof. struct_canonical. Qed.

Definition capabilities_wf (c : Capabilities) : Prop :=
  Forall is_u16 (protocol_versions c) /\ Forall is_u16 (cipher_suites c) /\
  Forall is_u16 (cap_extensions c) /\ Forall is_u16 (cap_proposals c) /\
  Forall is_u16 (cap_credentials c).

#[export] Instance u16_vec_codec_ok : CodecOk (vec_codec u16_codec) (Forall is_u16).
Proof. apply (vec_codec_ok u16_codec (in_uint 16)). Qed.
#[export] Instance u16_vec_codec_canonical : CodecCanonical (vec_codec u16_codec).
Proof. apply (vec_codec_canonical u16_codec (in_uint 16)). Qed.

#[export] Instance capabilities_codec_ok : CodecOk capabilities_codec capabilities_wf.
Proof. struct_ok. Qed.
#[export] Instance capabilities_codec_canonical : CodecCanonical capabilities_codec.
Proof. struct_canonical. Qed.

Definition extension_wf (e : Extension) : Prop :=
  is_u16 (extension_type e) /\ bytes_ok (extension_data e).

#[export] Instance extension_codec_ok : CodecOk extension_codec extension_wf.
Proof. struct_ok. Qed.
#[export] Instance extension_codec_canonical : CodecCanonical extension_codec.
Proof. struct_canonical. Qed.
#[export] Instance extension_codec_progress : CodecProgress extension_codec.
Proof. struct_progress. Qed.

(** *** Extension lists *)

Notation types l := (extension_type <$> l).

Lemma has_extension_true l t : has_extension l t = true <-> t ∈ types l.
Proof.
  unfold has_extension. rewrite existsb_exists, list_elem_of_fmap. setoid_rewrite Z.eqb_eq.
  setoid_rewrite list_elem_of_In. naive_solver.
Qed.

Lemma has_extension_false l t : has_extension l t = false <-> t ∉ types l.
Proof. rewrite <- has_extension_true. destruct (has_extension l t); naive_solver. Qed.

Lemma decode_extensions_eq fuel data l k :
  decode_items extension_codec fuel data = Ok k -> NoDup (types (l ++ k)) ->
  decode_extensions fuel data l = Ok (l ++ k).
Proof.
  revert data l k. induction fuel as [|fuel IH]; intros [|b data] l k; cbn [decode_items decode_extensions];
    try (intros [= <-]; by rewrite app_nil_r).
  intros ([e r] & He & (k' & Hk & [= <-])%bind_Ok)%bind_Ok Hnd. rewrite He. simpl.
  assert (has_extension l (extension_type e) = false) as ->.
  { apply has_extension_false. rewrite fmap_app in Hnd. apply NoDup_app in Hnd as (_ & Hnd & _).
    intros Hin. apply (Hnd _ Hin). rewrite fmap_cons. left. }
  rewrite (IH r (l ++ [e]) k' Hk) by (by rewrite <- app_assoc). by rewrite <- app_assoc.
Qed.

Lemma decode_extensions_Ok fuel data l k :
  decode_extensions fuel data l = Ok k -> NoDup (types l) ->
  NoDup (types k) /\ exists k', k = l ++ k' /\ decode_items extension_codec fuel data = Ok k'.
Proof.
  revert data l k. induction fuel as [|fuel IH]; intros [|b data] l k; cbn [decode_items decode_extensions];
    try (intros [= <-] Hnd; split; [done|]; exists []; by rewrite app_nil_r); [done|].
  intros ([e r] & -> & Hk)%bind_Ok Hnd. simpl.
  destruct (has_extension l (extension_type e)) eqn:Eh; [done|]. apply has_extension_false in Eh.
  apply IH in Hk as (Hk & k' & -> & ->).
  - split; [done|]. exists (e :: k'). simpl. by rewrite <- app_assoc.
  - rewrite fmap_app. apply NoDup_app. split; [done|]. split; [|apply NoDup_singleton].
    intros x Hx [= ->]%list_elem_of_singleton. done.
Qed.

Lemma decode_extensions_no_panic fuel data l :
  bytes_ok data -> (length data <= fuel)%nat -> decode_extensions fuel data l <> Panic.
Proof.
  revert data l. induction fuel as [|fuel IH]; intros [|b data] l Hd Hl; try done; [simpl in *; lia|].
  cbn [decode_extensions]. pose proof (dec_spec (c := extension_codec) (b :: data) Hd) as Hx.
  unfold dec_good in Hx.
  destruct (mls_decode extension_codec (b :: data)) as [[e r]| |] eqn:E; [|done|done]. simpl.
  destruct (has_extension l (extension_type e)); [done|].
  apply (dec_shrinks extension_codec extension_wf) in E as E'; [|done].
  apply dec_progress in E; [|done]. apply IH; [naive_solver|]. simpl in *. lia.
Qed.

Definition extension_list_wf (l : ExtensionList) : Prop :=
  Forall extension_wf l /\ NoDup (types l).

#[export] Instance extension_list_codec_ok : CodecOk extension_list_codec extension_list_wf.
Proof.
  eapply collection_ok with (body_len := iter_items_len extension_codec)
    (body := fun l => encode_items extension_codec l [])
    (dec := fun data => decode_extensions (length data) data []);
    [done|apply (iter_encode_preallocate_eq _ extension_wf)|done
    |apply (iter_items_len_nonneg _ extension_wf)| |].
  - intros l [Hl Hnd]. pose proof (encode_items_spec _ extension_wf l Hl) as Hs.
    case_match; [|done|done]. destruct Hs as (? & ? & Hdec). split; [done|]. split; [done|].
    by apply (decode_extensions_eq _ _ [] l); [apply Hdec|].
  - intros bs Hbs. pose proof (decode_extensions_no_panic (length bs) bs [] Hbs (le_n _)) as Hnp.
    destruct (decode_extensions (length bs) bs []) as [l| |] eqn:E; [|done|done].
    apply decode_extensions_Ok in E as (Hnd & k & -> & E); [|constructor].
    pose proof (decode_items_no_panic _ extension_wf _ bs Hbs (le_n _)) as Hd. by rewrite E in Hd.
Qed.

#[export] Instance extension_list_codec_canonical : CodecCanonical extension_list_codec.
Proof.
  eapply collection_canonical with (body_len := iter_items_len extension_codec)
    (body := fun l => encode_items extension_codec l [])
    (dec := fun data => decode_extensions (length data) data []);
    [apply (iter_encode_preallocate_eq _ extension_wf)|done|].
  intros bs l Hbs (_ & k & -> & E)%decode_extensions_Ok; [|constructor].
  pose proof (decode_items_no_panic _ extension_wf _ bs Hbs (le_n _)) as Hd. rewrite E in Hd.
  apply (decode_items_canonical _ extension_wf) in E as E'; [|done].
  split; [done|]. symmetry. by apply (encode_items_zlen _ extension_wf).
Qed.

(** *** Lifetimes and leaf nodes *)

Definition lifetime_wf (l : Lifetime) : Prop := is_u64 (not_before l) /\ is_u64 (not_after l).

#[export] Instance lifetime_codec_ok : CodecOk lifetime_codec lifetime_wf.
Proof. struct_ok. Qed.
#[export] Instance lifetime_codec_canonical : CodecCanonical lifetime_codec.
Proof. struct_canonical. Qed.

Definition leaf_node_source_wf (s : LeafNodeSource) : Prop :=
  match s with
  | SourceKeyPackage l => lifetime_wf l
  | SourceUpdate => True
  | SourceCommit h => bytes_ok h
  end.

(** The variants of a derived enum, tried one after the other. *)
Ltac variant_cases :=
  intros t cv;
  repeat match goal with
    |- context [if ?a =? ?b then _ else _] => destruct (Z.eqb_spec a b) as [->|]
  end; [..|done]; intros [= <-].
Lemma leaf_node_source_variants t cv :
  (if t =? 1 then
     Some (variant_codec SourceKeyPackage
             (fun s => match s with SourceKeyPackage l => Some l | _ => None end) lifetime_codec)
   else if t =? 2 then
     Some (variant_codec (fun _ => SourceUpdate)
             (fun s => match s with SourceUpdate => Some tt | _ => None end) unit_codec)
   else if t =? 3 then
     Some (variant_codec SourceCommit
             (fun s => match s with SourceCommit h => Some h | _ => None end) byte_vec_codec)
   else None) = Some cv ->
  CodecOk cv (fun x => leaf_node_source_discriminant x = t /\ leaf_node_source_wf x).
Proof.
  revert t cv. variant_cases.
  - eapply variant_ok_disc; [apply _|by intros [] ?; naive_solver|done|intros []; simpl; naive_solver].
  - eapply variant_ok_disc; [apply _|by intros [] []; naive_solver|done|].
    intros []; simpl; try lia. by exists tt.
  - eapply variant_ok_disc; [apply _|by intros [] ?; naive_solver|done|intros []; simpl; naive_solver].
Qed.

#[export] Instance leaf_node_source_codec_ok : CodecOk leaf_node_source_codec leaf_node_source_wf.
Proof.
  eapply codec_ok_iff; [|apply (enum_codec_ok u8_codec (in_uint 8) _ _ leaf_node_source_wf)].
  - intros x. split; [by intros []|]. intros Hx. split; [by destruct x|done].
  - apply leaf_node_source_variants.
  - by intros [].
Qed.

#[export] Instance leaf_node_source_codec_canonical : CodecCanonical leaf_node_source_codec.
Proof.
  eapply (enum_codec_canonical u8_codec (in_uint 8) _ _ leaf_node_source_wf);
    [apply leaf_node_source_variants|apply _|].
  variant_cases; (eapply variant_codec_canonical; [apply _..|]).
  - by intros [] ?; naive_solver.
  - by intros [] []; naive_solver.
  - by intros [] ?; naive_solver.
Qed.

Definition leaf_node_wf (l : LeafNode) : Prop :=
  bytes_ok (leaf_public_key l) /\ signing_identity_wf (signing_identity l) /\
  capabilities_wf (capabilities l) /\ leaf_node_source_wf (leaf_node_source l) /\
  extension_list_wf (leaf_extensions l) /\ bytes_ok (leaf_signature l).

#[export] Instance leaf_node_codec_ok : CodecOk leaf_node_codec leaf_node_wf.
Proof. struct_ok. Qed.
#[export] Instance leaf_node_codec_canonical : CodecCanonical leaf_node_codec.
Proof. struct_canonical. Qed.

Definition leaf_index_wf (i : Z) : Prop := 0 <= i <= MAX_LEAF_INDEX.

#[export] Instance leaf_index_codec_ok : CodecOk leaf_index_codec leaf_index_wf.
Proof.
  split; [apply (enc_len_nonneg (c := u32_codec))|apply (enc_writer (c := u32_codec))| |].
  - intros i [Hi1 Hi2]. assert (is_u32 i) as Hu by (unfold in_uint, MAX_LEAF_INDEX in *; lia).
    pose proof (enc_spec (c := u32_codec) i Hu) as Hg. unfold enc_good in *.
    cbn [mls_encode mls_encoded_len mls_decode leaf_index_codec].
    case_match; [|done|done]. destruct Hg as (? & ? & Hd). split; [done|]. split; [done|].
    intros rest Hr. rewrite Hd by done. simpl. unfold leaf_index_try_from.
    destruct (Z.ltb_spec MAX_LEAF_INDEX i); [lia|done].
  - intros bs Hbs. pose proof (dec_spec (c := u32_codec) bs Hbs) as Hd. unfold dec_good in *.
    cbn [mls_decode leaf_index_codec].
    destruct (mls_decode u32_codec bs) as [[i r]| |]; [|done|done]. simpl.
    unfold leaf_index_try_from. destruct (Z.ltb_spec MAX_LEAF_INDEX i); [done|]. simpl.
    destruct Hd as [[] ?]. by split.
Qed.

#[export] Instance leaf_index_codec_canonical : CodecCanonical leaf_index_codec.
Proof.
  intros bs i rest Hbs. cbn [mls_decode mls_encode leaf_index_codec].
  intros ([v r] & Hv & (v' & Hv' & [= <- <-])%bind_Ok)%bind_Ok.
  unfold leaf_index_try_from in Hv'. case_match; simplify_eq/=.
  by apply (dec_canonical (c := u32_codec)).
Qed.

#[export] Instance leaf_index_codec_progress : CodecProgress leaf_index_codec.
Proof.
  intros bs i rest Hbs. cbn [mls_decode leaf_index_codec].
  intros ([v r] & Hv & (v' & Hv' & [= <- <-])%bind_Ok)%bind_Ok.
  by eapply (dec_progress (c := u32_codec)).
Qed.

Definition parent_wf (p : Parent) : Prop :=
  bytes_ok (parent_public_key p) /\ bytes_ok (parent_hash p) /\
  Forall leaf_index_wf (unmerged_leaves p).

#[export] Instance unmerged_codec_ok : CodecOk (vec_codec leaf_index_codec) (Forall leaf_index_wf).
Proof. apply vec_codec_ok; apply _. Qed.
#[export] Instance unmerged_codec_canonical : CodecCanonical (vec_codec leaf_index_codec).
Proof. eapply vec_codec_canonical; apply _. Qed.

#[export] Instance parent_codec_ok : CodecOk parent_codec parent_wf.
Proof. struct_ok. Qed.
#[export] Instance parent_codec_canonical : CodecCanonical parent_codec.
Proof. struct_canonical. Qed.

Definition tree_node_wf (n : Node) : Prop :=
  match n with NodeLeaf l => leaf_node_wf l | NodeParent p => parent_wf p end.

Lemma node_variants t cv :
  (if t =? 1 then
     Some (variant_codec NodeLeaf (fun n => match n with NodeLeaf l => Some l | _ => None end)
             leaf_node_codec)
   else if t =? 2 then
     Some (variant_codec NodeParent (fun n => match n with NodeParent p => Some p | _ => None end)
             parent_codec)
   else None) = Some cv ->
  CodecOk cv (fun x => match x with NodeLeaf _ => 1 | NodeParent _ => 2 end = t /\ tree_node_wf x).
Proof.
  revert t cv. variant_cases;
    (eapply (variant_ok_disc _ _ _ _ (fun x => match x with NodeLeaf _ => 1 | NodeParent _ => 2 end));
     [apply _|by intros [] ?; naive_solver|done|]); intros [] ? _; try done; eauto.
Qed.

#[export] Instance node_codec_ok : CodecOk node_codec tree_node_wf.
Proof.
  eapply codec_ok_iff; [|apply (enum_codec_ok u8_codec (in_uint 8) _ _ tree_node_wf)].
  - intros x. split; [by intros []|]. intros Hx. split; [by destruct x|done].
  - apply node_variants.
  - by intros [].
Qed.

#[export] Instance node_codec_canonical : CodecCanonical node_codec.
Proof.
  eapply (enum_codec_canonical u8_codec (in_uint 8) _ _ tree_node_wf);
    [apply node_variants|apply _|].
  variant_cases; (eapply variant_codec_canonical; [apply _..|by intros [] ?; naive_solver]).
Qed.

#[export] Instance node_vec_codec_ok : CodecOk node_vec_codec (Forall (option_wf tree_node_wf)).
Proof. apply vec_codec_ok; [apply option_codec_ok; apply _|eapply option_codec_progress; apply _]. Qed.

#[export] Instance node_vec_codec_canonical : CodecCanonical node_vec_codec.
Proof.
  eapply vec_codec_canonical;
    [apply option_codec_ok; apply _|eapply option_codec_progress; apply _
    |eapply option_codec_canonical; apply _].
Qed.

Definition group_context_wf (c : GroupContext) : Prop :=
  is_u16 (protocol_version c) /\ is_u16 (gc_cipher_suite c) /\ bytes_ok (group_id c) /\
  is_u64 (epoch c) /\ bytes_ok (tree_hash c) /\ bytes_ok (confirmed_transcript_hash c) /\
  extension_list_wf (gc_extensions c).

#[export] Instance group_context_codec_ok : CodecOk group_context_codec group_context_wf.
Proof. struct_ok. Qed.
#[export] Instance group_context_codec_canonical : CodecCanonical group_context_codec.
Proof. struct_canonical. Qed.

(** ** Extension lists as maps *)

Lemma ext_get_set l e t :
  ext_get (ext_set l e) t = if extension_type e =? t then Some e else ext_get l t.
Proof.
  induction l as [|x l IH]; simpl; [by destruct (_ =? _)|].
  destruct (Z.eqb_spec (extension_type x) (extension_type e)) as [Hxe|Hxe]; simpl.
  - rewrite <- Hxe. by destruct (Z.eqb_spec (extension_type x) t).
  - rewrite IH. destruct (Z.eqb_spec (extension_type x) t), (Z.eqb_spec (extension_type e) t); congruence.
Qed.

Lemma types_ext_set l e :
  types (ext_set l e) =
    if has_extension l (extension_type e) then types l else types l ++ [extension_type e].
Proof.
  induction l as [|x l IH]; [done|]. cbn [ext_set].
  change (has_extension (x :: l) (extension_type e)) with
    ((extension_type x =? extension_type e) || has_extension l (extension_type e)).
  destruct (Z.eqb_spec (extension_type x) (extension_type e)) as [Hxe|Hxe];
    rewrite !fmap_cons; cbn [orb].
  - by rewrite Hxe.
  - rewrite IH. by destruct (has_extension l (extension_type e)).
Qed.

Lemma NoDup_ext_set l e : NoDup (types l) -> NoDup (types (ext_set l e)).
Proof.
  intros Hnd. rewrite types_ext_set. destruct (has_extension l (extension_type e)) eqn:E; [done|].
  apply has_extension_false in E. apply NoDup_app. split; [done|]. split; [|apply NoDup_singleton].
  intros x Hx [= ->]%list_elem_of_singleton. done.
Qed.

Lemma ext_get_remove l t t' :
  ext_get (ext_remove l t) t' = if t =? t' then None else ext_get l t'.
Proof.
  unfold ext_get, ext_remove. induction l as [|x l IH]; cbn [List.filter List.find]; [by destruct (_ =? _)|].
  destruct (Z.eqb_spec (extension_type x) t) as [->|Hx]; cbn [negb List.find]; rewrite IH.
  - by destruct (Z.eqb_spec t t').
  - destruct (Z.eqb_spec (extension_type x) t'), (Z.eqb_spec t t'); congruence.
Qed.

Lemma types_ext_remove l t : types (ext_remove l t) = List.filter (fun x => negb (x =? t)) (types l).
Proof.
  induction l as [|x l IH]; [done|]. rewrite fmap_cons. unfold ext_remove in *. cbn [List.filter].
  destruct (extension_type x =? t); cbn [negb]; [done|]. by rewrite fmap_cons, IH.
Qed.

Lemma NoDup_ext_remove l t : NoDup (types l) -> NoDup (types (ext_remove l t)).
Proof. intros H. rewrite types_ext_remove. apply NoDup_ListNoDup, List.NoDup_filter. by apply NoDup_ListNoDup. Qed.

Lemma ext_get_elem l e :
  NoDup (types l) -> ext_get l (extension_type e) = Some e <-> e ∈ l.
Proof.
  induction l as [|x l IH]; [by intros _; split; [|intros ?%elem_of_nil]|].
  rewrite fmap_cons, NoDup_cons. intros [Hx Hnd]. simpl. rewrite elem_of_cons.
  destruct (Z.eqb_spec (extension_type x) (extension_type e)) as [Heq|Hne].
  - split; [intros [= ->]; by left|]. intros [->|Hin]; [done|]. exfalso. apply Hx.
    rewrite Heq. by apply list_elem_of_fmap_2.
  - rewrite IH by done. naive_solver.
Qed.

Lemma ext_list_eq_perm l k :
  NoDup (types l) -> NoDup (types k) -> ext_list_eq l k = true <-> l ≡ₚ k.
Proof.
  intros Hl Hk. unfold ext_list_eq. rewrite andb_true_iff, Nat.eqb_eq, forallb_forall.
  setoid_rewrite bool_decide_eq_true. split.
  - intros [Hlen Hin]. apply submseteq_length_Permutation; [|lia].
    apply NoDup_submseteq; [by apply NoDup_fmap_1 in Hl|].
    intros e He. apply ext_get_elem; [done|]. apply Hin. by apply list_elem_of_In.
  - intros Hp. split; [by rewrite Hp|]. intros e He%list_elem_of_In.
    apply ext_get_elem; [done|]. by rewrite <- Hp.
Qed.

Lemma ext_extend_nodup l k : NoDup (types l) -> NoDup (types (ext_extend l k)).
Proof.
  revert l. induction k as [|e k IH]; intros l Hl; [done|]. apply IH. by apply NoDup_ext_set.
Qed.

Lemma ext_get_extend l k t :
  ext_get (ext_extend l k) t =
    match ext_get (reverse k) t with Some e => Some e | None => ext_get l t end.
Proof.
  induction k as [|e k IH] using rev_ind; [done|].
  unfold ext_extend in *. rewrite foldl_snoc, ext_get_set, reverse_snoc. simpl.
  destruct (Z.eqb_spec (extension_type e) t); [done|]. apply IH.
Qed.

(** ** Theorems *)

(** The wire format of the ratchet tree, hence of leaf nodes with their
    credentials, capabilities, lifetimes and extensions.  Encoding a
    well-formed tree gives the announced number of bytes, which decode to the
    tree; decoding any bytes ends with an error or with a well-formed tree (a
    leaf index below 2^24, no two extensions of a type, ...) that encodes to
    exactly the bytes read. *)
Theorem ratchet_tree_wire_format (tree : list (option Node)) (bs : bytes)
    (Ht : Forall (option_wf tree_node_wf) tree) (Hbs : bytes_ok bs) :
  match mls_encode_to_vec node_vec_codec tree with
  | Ok b => zlen b = mls_encoded_len node_vec_codec tree /\
            forall rest, bytes_ok rest -> mls_decode node_vec_codec (b ++ rest) = Ok (tree, rest)
  | Err e => e = VarIntOutOfRange
  | Panic => False
  end /\
  match mls_decode node_vec_codec bs with
  | Ok (t, rest) => Forall (option_wf tree_node_wf) t /\
      exists p, bs = p ++ rest /\ mls_encode_to_vec node_vec_codec t = Ok p
  | Err _ => True
  | Panic => False
  end.
Proof.
  split.
  - pose proof (enc_spec (c := node_vec_codec) tree Ht) as H. unfold enc_good in H.
    unfold mls_encode_to_vec. case_match; naive_solver.
  - pose proof (dec_spec (c := node_vec_codec) bs Hbs) as H. unfold dec_good in H.
    destruct (mls_decode node_vec_codec bs) as [[t rest]| |] eqn:E; [|done|done].
    split; [apply H|]. by apply (dec_canonical (c := node_vec_codec)).
Qed.

Definition sample_leaf : LeafNode :=
  mk_leaf_node [1; 2] (mk_signing_identity [3] (Basic [97; 98]))
    (mk_capabilities [1] [1; 2] [] [] [1]) (SourceKeyPackage (mk_lifetime 0 100))
    [mk_extension 1 [7]] [9; 9].

Lemma sample_leaf_wf : leaf_node_wf sample_leaf.
Proof.
  split; [by repeat constructor|]. split; [split; [by repeat constructor|split; by repeat constructor]|].
  split; [repeat split; by repeat constructor|]. split; [done|].
  split; [split; [by repeat constructor|apply NoDup_singleton]|by repeat constructor].
Qed.

Lemma ratchet_tree_wire_format_witness :
  match mls_encode_to_vec node_vec_codec [Some (NodeLeaf sample_leaf); None] with
  | Ok b => mls_decode node_vec_codec (b ++ [5]) = Ok ([Some (NodeLeaf sample_leaf); None], [5])
  | _ => False
  end.
Proof.
  destruct (ratchet_tree_wire_format [Some (NodeLeaf sample_leaf); None] [1]) as [H _].
  - constructor; [exact sample_leaf_wf|by repeat constructor].
  - by repeat constructor.
  - destruct (mls_encode_to_vec _ _) as [b| |] eqn:E; [|vm_compute in E; discriminate..].
    apply H. by repeat constructor.
Defined.

(** An extension list without duplicates behaves as a map from types to
    extensions: [set] replaces or adds, [remove] removes, [extend] keeps the
    last value of each type, all keep the list free of duplicates, and the
    library's equality of lists is equality up to order. *)
Theorem extension_list_is_a_map (l k : ExtensionList) (e : Extension) (t t' : Z)
    (Hl : NoDup (types l)) (Hk : NoDup (types k)) :
  ext_get (ext_set l e) t = (if extension_type e =? t then Some e else ext_get l t) /\
  ext_get (ext_remove l t) t' = (if t =? t' then None else ext_get l t') /\
  ext_get (ext_extend l k) t =
    match ext_get (reverse k) t with Some e => Some e | None => ext_get l t end /\
  has_extension l t = bool_decide (is_Some (ext_get l t)) /\
  NoDup (types (ext_set l e)) /\ NoDup (types (ext_remove l t)) /\ NoDup (types (ext_extend l k)) /\
  (ext_list_eq l k = true <-> l ≡ₚ k).
Proof.
  split; [apply ext_get_set|]. split; [apply ext_get_remove|]. split; [apply ext_get_extend|].
  split.
  { induction l as [|x l IH]; [done|]. simpl. destruct (_ =? _); [done|]. simpl. apply IH.
    by inversion Hl. }
  split; [by apply NoDup_ext_set|]. split; [by apply NoDup_ext_remove|].
  split; [by apply ext_extend_nodup|]. by apply ext_list_eq_perm.
Qed.

Lemma extension_list_is_a_map_witness :
  ext_list_eq [mk_extension 1 [7]; mk_extension 2 []] [mk_extension 2 []; mk_extension 1 [7]] = true /\
  [mk_extension 1 [7]; mk_extension 2 []] ≡ₚ [mk_extension 2 []; mk_extension 1 [7]].
Proof.
  destruct (extension_list_is_a_map [mk_extension 1 [7]; mk_extension 2 []]
    [mk_extension 2 []; mk_extension 1 [7]] (mk_extension 3 []) 1 2
    ltac:(by apply (bool_decide_unpack _); vm_compute) ltac:(by apply (bool_decide_unpack _); vm_compute))
    as (_ & _ & _ & _ & _ & _ & _ & H).
  split; [reflexivity|]. by apply H.
Defined.

(** C16: [append] does not keep the promise of its documentation.  Appending
    an extension of a type that is already set leaves two entries of the type,
    and [get] still returns the one that should have been removed. *)
Theorem ext_append_keeps_duplicates (l : ExtensionList) (e e' : Extension)
    (Hl : NoDup (types l)) (Htype : extension_type e' = extension_type e) :
  ~ NoDup (types (ext_append (ext_set l e) [e'])) /\
  ext_get (ext_append (ext_set l e) [e']) (extension_type e) = Some e.
Proof.
  split.
  - unfold ext_append. rewrite fmap_app. intros (_ & Hd & _)%NoDup_app.
    apply (Hd (extension_type e)); [|rewrite <- Htype; by left].
    apply has_extension_true. pose proof (ext_get_set l e (extension_type e)) as Hg.
    rewrite Z.eqb_refl in Hg. apply List.find_some in Hg as [Hin _].
    apply has_extension_true, list_elem_of_fmap_2. by apply list_elem_of_In.
  - unfold ext_append, ext_get. pose proof (ext_get_set l e (extension_type e)) as Hg.
    rewrite Z.eqb_refl in Hg. unfold ext_get in Hg.
    induction (ext_set l e) as [|x k IH]; [done|]. simpl in *. destruct (_ =? _); [done|]. by apply IH.
Qed.

Lemma ext_append_keeps_duplicates_witness :
  ext_get (ext_append (ext_set [] (mk_extension 1 [7])) [mk_extension 1 [8]]) 1 =
    Some (mk_extension 1 [7]).
Proof.
  destruct (ext_append_keeps_duplicates [] (mk_extension 1 [7]) (mk_extension 1 [8])
    ltac:(constructor) ltac:(reflexivity)) as [_ H]. exact H.
Defined.

(** A lifetime given in years is right up to 136 years and wraps after
    that: from 137 years on, the number of seconds is the one intended minus
    2^32 (or 2^33), because [days] multiplies at 32 bits, so that a key package
    for 137 years expires in less than a year. *)
Theorem lifetime_years_overflow (now y nb : Z) (Hy : is_u8 y)
    (Hnb : 3600 <= nb < 2 ^ 63) :
  lifetime_years now y (Some nb) =
    Ok (mk_lifetime (nb - 3600)
          (nb + (if y <=? 136 then y * 31536000 else (y * 31536000) `mod` 2 ^ 32))) /\
  (136 < y -> (y * 31536000) `mod` 2 ^ 32 <= y * 31536000 - 2 ^ 32).
Proof.
  unfold in_uint in Hy. unfold lifetime_years, lifetime_days, lifetime_seconds.
  rewrite (wrap_small 32 (365 * y)) by (unfold in_uint; lia).
  replace (365 * y * 86400) with (y * 31536000) by lia. unfold wrap.
  assert (0 <= (y * 31536000) `mod` 2 ^ 32 < 2 ^ 32) by (apply Z.mod_pos_bound; lia).
  cbn [default from_option id]. destruct (Z.ltb_spec (nb + (y * 31536000) `mod` 2 ^ 32) (2 ^ 64)); [|lia].
  cbn [mbind res_bind]. rewrite (Z.mod_small (nb - 3600)) by lia. split.
  - destruct (Z.leb_spec y 136); [|done]. by rewrite (Z.mod_small (y * 31536000)) by lia.
  - intros H1. pose proof (Z.div_mod (y * 31536000) (2 ^ 32) ltac:(lia)) as Hdm.
    assert (1 <= (y * 31536000) `div` 2 ^ 32) by (apply Z.div_le_lower_bound; lia). lia.
Qed.

Lemma lifetime_years_overflow_witness :
  lifetime_years 0 137 (Some 1700000000) = Ok (mk_lifetime (1700000000 - 3600) (1700000000 + 25464704)).
Proof.
  destruct (lifetime_years_overflow 0 137 1700000000 ltac:(unfold in_uint; lia) ltac:(lia)) as [H _].
  exact H.
Defined.
