(* ===== verification/Hpke.v ===== *)
(** * Hybrid public key encryption

    The crates mls-rs-crypto-traits and mls-rs-crypto-hpke: the operations a
    backend has to supply ([KdfType], [AeadType], [KemType], [DhType], with the
    primitives themselves as parameters), the Diffie-Hellman KEM (dhkem.rs), the
    combination of two KEMs (kem_combiner.rs), the key schedule and the contexts
    of RFC 9180 (kdf.rs, hpke.rs, context.rs), and the provider that the crate
    mls-rs-crypto-rustcrypto makes of them (lib.rs).

    The laws of each layer follow from those of the layer below: Diffie-Hellman
    gives a KEM, KEMs combine, a KEM and an AEAD give what [HpkeLaws] asks of a
    provider. *)

From S2P Require Import Prelude Codec Crypto StateLogic.

#[local] Set Default Goal Selector "!".
Local Open Scope Z_scope.

(** ** The operations of a backend *)

(** [IntoAnyError]: an error of a layer as an opaque one. *)
Class IntoAnyError (E : Type) := into_any_error : E -> AnyError.

#[export] Instance any_into_any : IntoAnyError AnyError := fun e => e.

Record KdfType := mk_kdf_type {
  kt_kdf_id : Z;
  kt_expand : forall (prk info : bytes) (len : Z), res AnyError bytes;
  kt_extract : forall salt ikm : bytes, res AnyError bytes;
  kt_extract_size : Z;
}.

Record AeadType := mk_aead_type {
  at_aead_id : Z;
  at_seal : forall (key data : bytes) (aad : option bytes) (nonce : bytes), res AnyError bytes;
  at_open : forall (key ciphertext : bytes) (aad : option bytes) (nonce : bytes), res AnyError bytes;
  at_key_size : Z;
  at_nonce_size : Z;
}.

Record KemResult := mk_kem_result { shared_secret : bytes; enc : bytes }.

(** A KEM with errors in [E]; [Coins] is what a random operation draws. *)
Record KemType (Coins E : Type) := mk_kem_type {
  km_kem_id : Z;
  km_generate_deterministic : bytes -> res E (HpkeSecretKey * HpkePublicKey);
  km_generate : Coins -> res E (HpkeSecretKey * HpkePublicKey);
  km_public_key_validate : HpkePublicKey -> res E unit;
  km_encap : Coins -> HpkePublicKey -> res E KemResult;
  km_decap : forall (enc : bytes) (secret_key : HpkeSecretKey) (local_public : HpkePublicKey), res E bytes;
  km_seed_length_for_derive : Z;
  km_public_key_size : Z;
  km_secret_key_size : Z;
  km_enc_size : Z;
}.
Arguments mk_kem_type {_ _}.
Arguments km_kem_id {_ _} _.
Arguments km_generate_deterministic {_ _} _ _.
Arguments km_generate {_ _} _ _.
Arguments km_public_key_validate {_ _} _ _.
Arguments km_encap {_ _} _ _ _.
Arguments km_decap {_ _} _ _ _ _.
Arguments km_seed_length_for_derive {_ _} _.
Arguments km_public_key_size {_ _} _.
Arguments km_secret_key_size {_ _} _.
Arguments km_enc_size {_ _} _.

Inductive SamplingMethod :=
| HpkeWithBitmask (bitmask : Z)
| HpkeWithoutBitmask
| Raw.

Record DhType (Coins : Type) := mk_dh_type {
  dh_dh : forall (secret_key : HpkeSecretKey) (public_key : HpkePublicKey), res AnyError bytes;
  dh_generate : Coins -> res AnyError (HpkeSecretKey * HpkePublicKey);
  dh_to_public : HpkeSecretKey -> res AnyError HpkePublicKey;
  dh_bitmask_for_rejection_sampling : SamplingMethod;
  dh_secret_key_size : Z;
  dh_public_key_size : Z;
  dh_public_key_validate : HpkePublicKey -> res AnyError unit;
}.
Arguments mk_dh_type {_}.
Arguments dh_dh {_} _ _ _.
Arguments dh_generate {_} _ _.
Arguments dh_to_public {_} _ _.
Arguments dh_bitmask_for_rejection_sampling {_} _.
Arguments dh_secret_key_size {_} _.
Arguments dh_public_key_size {_} _.
Arguments dh_public_key_validate {_} _ _.

(** ** Identifiers (mls-rs-crypto-traits) *)

Definition CURVE25519_AES128 : Z := 1.
Definition P256_AES128 : Z := 2.
Definition CURVE25519_CHACHA : Z := 3.
Definition CURVE448_AES256 : Z := 4.
Definition P521_AES256 : Z := 5.
Definition CURVE448_CHACHA : Z := 6.
Definition P384_AES256 : Z := 7.

Definition AEAD_ID_EXPORT_ONLY : Z := 65535.

Inductive KemId := DhKemP256Sha256 | DhKemP384Sha384 | DhKemP521Sha512 | DhKemX25519Sha256 | DhKemX448Sha512.

Definition kem_id_value (k : KemId) : Z :=
  match k with
  | DhKemP256Sha256 => 16
  | DhKemP384Sha384 => 17
  | DhKemP521Sha512 => 18
  | DhKemX25519Sha256 => 32
  | DhKemX448Sha512 => 33
  end.

Definition kem_id_new (cipher_suite : Z) : option KemId :=
  if (cipher_suite =? CURVE25519_AES128) || (cipher_suite =? CURVE25519_CHACHA) then Some DhKemX25519Sha256
  else if cipher_suite =? P256_AES128 then Some DhKemP256Sha256
  else if (cipher_suite =? CURVE448_AES256) || (cipher_suite =? CURVE448_CHACHA) then Some DhKemX448Sha512
  else if cipher_suite =? P384_AES256 then Some DhKemP384Sha384
  else if cipher_suite =? P521_AES256 then Some DhKemP521Sha512
  else None.

Definition n_secret (k : KemId) : Z :=
  match k with
  | DhKemP256Sha256 => 32
  | DhKemP384Sha384 => 48
  | DhKemP521Sha512 => 64
  | DhKemX25519Sha256 => 32
  | DhKemX448Sha512 => 64
  end.

Inductive KdfId := HkdfSha256 | HkdfSha384 | HkdfSha512.

Definition kdf_id_value (k : KdfId) : Z := match k with HkdfSha256 => 1 | HkdfSha384 => 2 | HkdfSha512 => 3 end.

Definition kdf_id_new (cipher_suite : Z) : option KdfId :=
  if (cipher_suite =? CURVE25519_AES128) || (cipher_suite =? P256_AES128) || (cipher_suite =? CURVE25519_CHACHA) then Some HkdfSha256
  else if cipher_suite =? P384_AES256 then Some HkdfSha384
  else if (cipher_suite =? CURVE448_CHACHA) || (cipher_suite =? CURVE448_AES256) || (cipher_suite =? P521_AES256)
  then Some HkdfSha512
  else None.

Definition kdf_id_extract_size (k : KdfId) : Z := match k with HkdfSha256 => 32 | HkdfSha384 => 48 | HkdfSha512 => 64 end.

Inductive AeadId := Aes128Gcm | Aes256Gcm | Chacha20Poly1305.

Definition aead_id_value (a : AeadId) : Z := match a with Aes128Gcm => 1 | Aes256Gcm => 2 | Chacha20Poly1305 => 3 end.

Definition aead_id_new (cipher_suite : Z) : option AeadId :=
  if (cipher_suite =? P256_AES128) || (cipher_suite =? CURVE25519_AES128) then Some Aes128Gcm
  else if (cipher_suite =? CURVE448_AES256) || (cipher_suite =? P384_AES256) || (cipher_suite =? P521_AES256) then Some Aes256Gcm
  else if (cipher_suite =? CURVE25519_CHACHA) || (cipher_suite =? CURVE448_CHACHA) then Some Chacha20Poly1305
  else None.

Definition aead_id_key_size (a : AeadId) : Z := match a with Aes128Gcm => 16 | Aes256Gcm => 32 | Chacha20Poly1305 => 32 end.
Definition aead_id_nonce_size (a : AeadId) : Z := 12.

(** ** Labelled derivation (kdf.rs) *)

Record HpkeKdf := mk_hpke_kdf { suite_id : bytes; hk_kdf : KdfType }.

Definition labeled_extract (k : HpkeKdf) (salt label ikm : bytes) : res AnyError bytes :=
  kt_extract (hk_kdf k) salt (bstr "HPKE-v1" ++ suite_id k ++ label ++ ikm).

Definition labeled_expand (k : HpkeKdf) (key label info : bytes) (len : Z) : res AnyError bytes :=
  let labeled_info := to_be_bytes 2 (wrap 16 len) ++ bstr "HPKE-v1" ++ suite_id k ++ label ++ info in
  kt_expand (hk_kdf k) key labeled_info len.

Definition labeled_extract_then_expand (k : HpkeKdf) (ikm ctx : bytes) (len : Z) : res AnyError bytes :=
  eae_prk ← labeled_extract k [] (bstr "eae_prk") ikm;
  labeled_expand k eae_prk (bstr "shared_secret") ctx len.

(** ** The Diffie-Hellman KEM (dhkem.rs) *)

Inductive DhKemError :=
| DhKem_KdfError (e : AnyError)
| DhKem_DhError (e : AnyError)
| KeyDerivationError.

Record DhKem (Coins : Type) := mk_dh_kem {
  dk_dh : DhType Coins;
  dk_kdf : HpkeKdf;
  dk_kem_id : Z;
  dk_n_secret : Z;
}.
Arguments mk_dh_kem {_}.
Arguments dk_dh {_} _.
Arguments dk_kdf {_} _.
Arguments dk_kem_id {_} _.
Arguments dk_n_secret {_} _.

Definition dh_kem_new {Coins} (dh : DhType Coins) (kdf : KdfType) (kem_id n_secret : Z) : DhKem Coins :=
  mk_dh_kem dh (mk_hpke_kdf (bstr "KEM" ++ to_be_bytes 2 kem_id) kdf) kem_id n_secret.

Section dh_kem.
Context {Coins : Type} (k : DhKem Coins).

Definition derive_raw (seed : bytes) : res DhKemError (HpkeSecretKey * HpkePublicKey) :=
  pk ← map_err DhKem_DhError (dh_to_public (dk_dh k) seed);
  Ok (seed, pk).

Definition derive_without_rejection_sampling (dkp_prk : bytes) : res DhKemError (HpkeSecretKey * HpkePublicKey) :=
  sk ← map_err DhKem_KdfError (labeled_expand (dk_kdf k) dkp_prk (bstr "sk") [] (dh_secret_key_size (dk_dh k)));
  derive_raw sk.

(** [secret_key[0] &= bitmask]. *)
Definition mask_first (bitmask : Z) (secret_key : bytes) : res DhKemError bytes :=
  match secret_key with
  | [] => Panic
  | b :: secret_key => Ok (Z.land b bitmask :: secret_key)
  end.

Definition candidate (dkp_prk : bytes) (bitmask i : Z) : res DhKemError bytes :=
  secret_key ← map_err DhKem_KdfError (labeled_expand (dk_kdf k) dkp_prk (bstr "candidate") [i] (dh_secret_key_size (dk_dh k)));
  mask_first bitmask secret_key.

(** The iterations of [for i in 0u8..255]. *)
Fixpoint sampling_loop (dkp_prk : bytes) (bitmask : Z) (rest : list Z) : res DhKemError (HpkeSecretKey * HpkePublicKey) :=
  match rest with
  | [] => Err KeyDerivationError
  | i :: rest =>
      secret_key ← candidate dkp_prk bitmask i;
      match dh_to_public (dk_dh k) secret_key with
      | Ok pk => Ok (secret_key, pk)
      | Err _ => sampling_loop dkp_prk bitmask rest
      | Panic => Panic
      end
  end.

Definition derive_with_rejection_sampling (dkp_prk : bytes) (bitmask : Z) : res DhKemError (HpkeSecretKey * HpkePublicKey) :=
  sampling_loop dkp_prk bitmask (seqZ 0 255).

Definition dh_kem_generate_deterministic (seed : bytes) : res DhKemError (HpkeSecretKey * HpkePublicKey) :=
  match dh_bitmask_for_rejection_sampling (dk_dh k) with
  | HpkeWithBitmask bitmask => derive_with_rejection_sampling seed bitmask
  | HpkeWithoutBitmask => derive_without_rejection_sampling seed
  | Raw => derive_raw seed
  end.

Definition dh_kem_generate (coins : Coins) : res DhKemError (HpkeSecretKey * HpkePublicKey) :=
  map_err DhKem_DhError (dh_generate (dk_dh k) coins).

Definition dh_kem_encap (coins : Coins) (remote_pk : HpkePublicKey) : res DhKemError KemResult :=
  '(ephemeral_sk, ephemeral_pk) ← dh_kem_generate coins;
  ecdh_ss ← map_err DhKem_DhError (dh_dh (dk_dh k) ephemeral_sk remote_pk);
  let kem_context := ephemeral_pk ++ remote_pk in
  shared_secret ← map_err DhKem_KdfError (labeled_extract_then_expand (dk_kdf k) ecdh_ss kem_context (dk_n_secret k));
  Ok (mk_kem_result shared_secret ephemeral_pk).

Definition dh_kem_decap (enc : bytes) (secret_key : HpkeSecretKey) (public_key : HpkePublicKey) : res DhKemError bytes :=
  ecdh_ss ← map_err DhKem_DhError (dh_dh (dk_dh k) secret_key enc);
  let kem_context := enc ++ public_key in
  map_err DhKem_KdfError (labeled_extract_then_expand (dk_kdf k) ecdh_ss kem_context (dk_n_secret k)).

(** [impl KemType for DhKem]. *)
Definition dh_kem : KemType Coins DhKemError := mk_kem_type (dk_kem_id k) dh_kem_generate_deterministic dh_kem_generate
  (fun key => map_err DhKem_DhError (dh_public_key_validate (dk_dh k) key)) dh_kem_encap dh_kem_decap (dk_n_secret k)
  (dh_public_key_size (dk_dh k)) (dh_secret_key_size (dk_dh k)) (dh_public_key_size (dk_dh k)).
End dh_kem.

(** ** Combining two KEMs (kem_combiner.rs) *)

Inductive CombinerError :=
| Combiner_KemError (e : AnyError)
| InvalidKeyData.

Record SharedSecretDetails := mk_shared_secret_details { ss_shared_secret : bytes; ss_enc : bytes; ss_public_key : HpkePublicKey }.

Definition default_shared_secret_input (d1 d2 : SharedSecretDetails) : bytes :=
  ss_enc d1 ++ ss_shared_secret d1 ++ ss_public_key d1 ++ ss_enc d2 ++ ss_shared_secret d2 ++ ss_public_key d2.

(** The bytes of the literal, in which the two slashes are on separate lines. *)
Definition xwing_label : bytes := [92; 46; 47; 10; 47; 94; 92].

Definition xwing_shared_secret_input (d1 d2 : SharedSecretDetails) : bytes :=
  xwing_label ++ ss_shared_secret d1 ++ ss_shared_secret d2 ++ ss_enc d2 ++ ss_public_key d2.

Record CombinedKem (C1 E1 C2 E2 : Type) := mk_combined_kem {
  ck_kem1 : KemType C1 E1;
  ck_kem2 : KemType C2 E2;
  ck_hash : bytes -> res AnyError bytes;
  ck_variable_length_hash : bytes -> Z -> res AnyError bytes;
  ck_shared_secret_hash_input : SharedSecretDetails -> SharedSecretDetails -> bytes;
}.
Arguments mk_combined_kem {_ _ _ _}.
Arguments ck_kem1 {_ _ _ _} _.
Arguments ck_kem2 {_ _ _ _} _.
Arguments ck_hash {_ _ _ _} _ _.
Arguments ck_variable_length_hash {_ _ _ _} _ _ _.
Arguments ck_shared_secret_hash_input {_ _ _ _} _ _ _.

Section combined_kem.
Context {C1 E1 C2 E2 : Type} `{!IntoAnyError E1, !IntoAnyError E2}.

Definition combined_kem_new (kem1 : KemType C1 E1) (kem2 : KemType C2 E2) hash variable_length_hash : CombinedKem C1 E1 C2 E2 :=
  mk_combined_kem kem1 kem2 hash variable_length_hash default_shared_secret_input.

Definition combined_kem_new_xwing (kem1 : KemType C1 E1) (kem2 : KemType C2 E2) hash variable_length_hash : CombinedKem C1 E1 C2 E2 :=
  mk_combined_kem kem1 kem2 hash variable_length_hash xwing_shared_secret_input.

Context (k : CombinedKem C1 E1 C2 E2).

Definition kem_error {E A} `{!IntoAnyError E} (m : res E A) : res CombinerError A :=
  map_err (fun e => Combiner_KemError (into_any_error e)) m.

(** [split_at]: panics when [size] is past the end. *)
Definition split_at (l : bytes) (size : Z) : res CombinerError (bytes * bytes) :=
  if size <=? zlen l then Ok (take (Z.to_nat size) l, drop (Z.to_nat size) l) else Panic.

Definition parse_key (key : bytes) (size : Z) : res CombinerError (bytes * bytes) :=
  _ ← guard_or InvalidKeyData (size <=? zlen key);
  split_at key size.

Definition generate_key_pair_derand (ikm1 ikm2 : bytes) : res CombinerError (HpkeSecretKey * HpkePublicKey) :=
  '(sk1, pk1) ← kem_error (km_generate_deterministic (ck_kem1 k) ikm1);
  '(sk2, pk2) ← kem_error (km_generate_deterministic (ck_kem2 k) ikm2);
  Ok (sk1 ++ sk2, pk1 ++ pk2).

Definition combined_seed_length : Z := km_seed_length_for_derive (ck_kem1 k) + km_seed_length_for_derive (ck_kem2 k).

Definition combined_generate_deterministic (ikm : bytes) : res CombinerError (HpkeSecretKey * HpkePublicKey) :=
  ikm ← kem_error (ck_variable_length_hash k ikm combined_seed_length);
  '(ikm1, ikm2) ← split_at ikm (km_seed_length_for_derive (ck_kem1 k));
  generate_key_pair_derand ikm1 ikm2.

Definition combined_generate (coins : C1 * C2) : res CombinerError (HpkeSecretKey * HpkePublicKey) :=
  '(sk1, pk1) ← kem_error (km_generate (ck_kem1 k) coins.1);
  '(sk2, pk2) ← kem_error (km_generate (ck_kem2 k) coins.2);
  Ok (sk1 ++ sk2, pk1 ++ pk2).

Definition combined_encap (coins : C1 * C2) (remote_key : HpkePublicKey) : res CombinerError KemResult :=
  '(pk1, pk2) ← parse_key remote_key (km_public_key_size (ck_kem1 k));
  ct1 ← kem_error (km_encap (ck_kem1 k) coins.1 pk1);
  ct2 ← kem_error (km_encap (ck_kem2 k) coins.2 pk2);
  let both := enc ct1 ++ enc ct2 in
  let shared_secret_input := ck_shared_secret_hash_input k (mk_shared_secret_details (shared_secret ct1) (enc ct1) pk1)
                               (mk_shared_secret_details (shared_secret ct2) (enc ct2) pk2) in
  shared_secret ← kem_error (ck_hash k shared_secret_input);
  Ok (mk_kem_result shared_secret both).

Definition combined_decap (enc : bytes) (secret_key : HpkeSecretKey) (local_public : HpkePublicKey) : res CombinerError bytes :=
  '(pk1, pk2) ← parse_key local_public (km_public_key_size (ck_kem1 k));
  '(sk1, sk2) ← parse_key secret_key (km_secret_key_size (ck_kem1 k));
  '(enc1, enc2) ← parse_key enc (km_enc_size (ck_kem1 k));
  shared_secret1 ← kem_error (km_decap (ck_kem1 k) enc1 sk1 pk1);
  shared_secret2 ← kem_error (km_decap (ck_kem2 k) enc2 sk2 pk2);
  let shared_secret_input := ck_shared_secret_hash_input k (mk_shared_secret_details shared_secret1 enc1 pk1)
                               (mk_shared_secret_details shared_secret2 enc2 pk2) in
  kem_error (ck_hash k shared_secret_input).

(** [impl KemType for CombinedKem]. *)
Definition combined_kem : KemType (C1 * C2) CombinerError := mk_kem_type 15 combined_generate_deterministic combined_generate
  (fun _ => Ok tt) combined_encap combined_decap combined_seed_length
  (km_public_key_size (ck_kem1 k) + km_public_key_size (ck_kem2 k)) (km_secret_key_size (ck_kem1 k) + km_secret_key_size (ck_kem2 k))
  (km_enc_size (ck_kem1 k) + km_enc_size (ck_kem2 k)).
End combined_kem.

(** ** Contexts (context.rs) *)

Inductive HpkeError :=
| KemError (e : AnyError)
| KdfError (e : AnyError)
| AeadError (e : AnyError)
| InsufficientPskLength
| IncorrectNonceLen (len expected : Z)
| IncorrectKeyLen (len expected : Z)
| ExportOnlyMode
| SequenceNumberOverflow.

Record EncryptionContext := mk_encryption_context {
  base_nonce : bytes;
  seq_number : Z;
  ec_aead : AeadType;
  aead_key : bytes;
}.

Definition encryption_context_new (base_nonce : bytes) (aead : AeadType) (aead_key : bytes) : res HpkeError EncryptionContext :=
  _ ← guard_or (IncorrectNonceLen (zlen base_nonce) (at_nonce_size aead)) (zlen base_nonce =? at_nonce_size aead);
  _ ← guard_or (IncorrectKeyLen (zlen aead_key) (at_key_size aead)) (zlen aead_key =? at_key_size aead);
  Ok (mk_encryption_context base_nonce 0 aead aead_key).

(** [iter_mut().zip(bytes).for_each(|(n, s)| *n ^= s)]. *)
Fixpoint xor_into (n s : bytes) : bytes :=
  match n, s with
  | a :: n, b :: s => Z.lxor a b :: xor_into n s
  | n, _ => n
  end.

(** The nonce for the number [seq], whose little-endian bytes go into the base
    nonce from its end. *)
Definition nonce_at (base_nonce : bytes) (seq : Z) : bytes :=
  reverse (xor_into (reverse base_nonce) (reverse (to_be_bytes 8 seq))).

Definition compute_nonce (c : EncryptionContext) : bytes := nonce_at (base_nonce c) (seq_number c).

Definition increment_seq : SM EncryptionContext HpkeError unit := fun c =>
  if seq_number c + 1 <? 2 ^ 64
  then (Ok tt, mk_encryption_context (base_nonce c) (seq_number c + 1) (ec_aead c) (aead_key c))
  else (Err SequenceNumberOverflow, c).

Definition encryption_context_seal (aad : option bytes) (pt : bytes) : SM EncryptionContext HpkeError bytes :=
  c ← sm_get;
  ct ← sm_lift (map_err AeadError (at_seal (ec_aead c) (aead_key c) pt aad (compute_nonce c)));
  _ ← increment_seq;
  mret ct.

Definition encryption_context_open (aad : option bytes) (ct : bytes) : SM EncryptionContext HpkeError bytes :=
  c ← sm_get;
  pt ← sm_lift (map_err AeadError (at_open (ec_aead c) (aead_key c) ct aad (compute_nonce c)));
  _ ← increment_seq;
  mret pt.

Record HpkeContext := mk_context {
  exporter_secret : bytes;
  encryption_context : option EncryptionContext;
  ctx_kdf : HpkeKdf;
}.

(** A method of the encryption context, if there is one. *)
Definition with_encryption {A} (m : SM EncryptionContext HpkeError A) : SM HpkeContext HpkeError A := fun c =>
  match encryption_context c with
  | None => (Err ExportOnlyMode, c)
  | Some e => let '(r, e) := m e in (r, mk_context (exporter_secret c) (Some e) (ctx_kdf c))
  end.

Definition context_seal (aad : option bytes) (data : bytes) : SM HpkeContext HpkeError bytes :=
  with_encryption (encryption_context_seal aad data).

Definition context_open (aad : option bytes) (ciphertext : bytes) : SM HpkeContext HpkeError bytes :=
  with_encryption (encryption_context_open aad ciphertext).

Definition context_export (c : HpkeContext) (exporter_context : bytes) (len : Z) : res HpkeError bytes :=
  map_err KdfError (labeled_expand (ctx_kdf c) (exporter_secret c) (bstr "sec") exporter_context len).

(** ** The key schedule and the single-shot functions (hpke.rs) *)

Record Psk := mk_psk { hpsk_id : bytes; hpsk_value : bytes }.

Record Hpke (Coins E : Type) := mk_hpke {
  hpke_kem : KemType Coins E;
  hpke_kdf : HpkeKdf;
  hpke_aead : option AeadType;
  hpke_kem_kdf : HpkeKdf;
}.
Arguments mk_hpke {_ _}.
Arguments hpke_kem {_ _} _.
Arguments hpke_kdf {_ _} _.
Arguments hpke_aead {_ _} _.
Arguments hpke_kem_kdf {_ _} _.

Inductive HpkeModeId := ModeBase | ModePsk | ModeAuth | ModeAuthPsk.

Definition mode_value (m : HpkeModeId) : Z := match m with ModeBase => 0 | ModePsk => 1 | ModeAuth => 2 | ModeAuthPsk => 3 end.

Section hpke.
Context {Coins E : Type} `{!IntoAnyError E}.

Definition hpke_new (kem : KemType Coins E) (kdf : KdfType) (aead : option AeadType) : Hpke Coins E :=
  let aead_id := default AEAD_ID_EXPORT_ONLY (at_aead_id <$> aead) in
  let suite_id := bstr "HPKE" ++ to_be_bytes 2 (km_kem_id kem) ++ to_be_bytes 2 (kt_kdf_id kdf) ++ to_be_bytes 2 aead_id in
  let kem_suite_id := bstr "KEM" ++ to_be_bytes 2 (km_kem_id kem) in
  mk_hpke kem (mk_hpke_kdf suite_id kdf) aead (mk_hpke_kdf kem_suite_id kdf).

Context (h : Hpke Coins E).

Definition check_psk (psk : option Psk) : res HpkeError unit :=
  match psk with
  | Some psk => guard_or InsufficientPskLength (32 <=? zlen (hpsk_value psk))
  | None => Ok tt
  end.

Definition base_mode (psk : option Psk) : HpkeModeId := match psk with Some _ => ModePsk | None => ModeBase end.

Definition hpke_key_schedule (mode : HpkeModeId) (shared_secret info : bytes) (psk : option Psk) : res HpkeError HpkeContext :=
  _ ← check_psk psk;
  let psk := default (mk_psk [] []) psk in
  psk_id_hash ← map_err KdfError (labeled_extract (hpke_kdf h) [] (bstr "psk_id_hash") (hpsk_id psk));
  info_hash ← map_err KdfError (labeled_extract (hpke_kdf h) [] (bstr "info_hash") info);
  secret ← map_err KdfError (labeled_extract (hpke_kdf h) shared_secret (bstr "secret") (hpsk_value psk));
  let key_schedule_context := [mode_value mode] ++ psk_id_hash ++ info_hash in
  encryption_context ←
    match hpke_aead h with
    | Some aead =>
        key ← map_err KdfError (labeled_expand (hpke_kdf h) secret (bstr "key") key_schedule_context (at_key_size aead));
        base_nonce ← map_err KdfError (labeled_expand (hpke_kdf h) secret (bstr "base_nonce") key_schedule_context (at_nonce_size aead));
        Some <$> encryption_context_new base_nonce aead key
    | None => Ok None
    end;
  exporter_secret ← map_err KdfError (labeled_expand (hpke_kdf h) secret (bstr "exp") key_schedule_context
                                        (kt_extract_size (hk_kdf (hpke_kdf h))));
  Ok (mk_context exporter_secret encryption_context (hpke_kdf h)).

(** [map_err(|e| HpkeError::KemError(e.into_any_error()))]. *)
Definition from_kem {A} (m : res E A) : res HpkeError A := map_err (fun e => KemError (into_any_error e)) m.

Definition setup_sender (coins : Coins) (remote_key : HpkePublicKey) (info : bytes) (psk : option Psk) :
    res HpkeError (bytes * HpkeContext) :=
  let mode := base_mode psk in
  kem_res ← from_kem (km_encap (hpke_kem h) coins remote_key);
  ctx ← hpke_key_schedule mode (shared_secret kem_res) info psk;
  Ok (enc kem_res, ctx).

Definition setup_receiver (enc : bytes) (local_secret : HpkeSecretKey) (local_public : HpkePublicKey) (info : bytes) (psk : option Psk) :
    res HpkeError HpkeContext :=
  let mode := base_mode psk in
  shared_secret ← from_kem (km_decap (hpke_kem h) enc local_secret local_public);
  hpke_key_schedule mode shared_secret info psk.

Definition hpke_seal_single (coins : Coins) (remote_key : HpkePublicKey) (info : bytes) (psk : option Psk) (aad : option bytes) (pt : bytes) :
    res HpkeError HpkeCiphertext :=
  '(kem_output, ctx) ← setup_sender coins remote_key info psk;
  ciphertext ← (context_seal aad pt ctx).1;
  Ok (mk_hpke_ciphertext kem_output ciphertext).

Definition hpke_open_single (ciphertext : HpkeCiphertext) (local_secret : HpkeSecretKey) (local_public : HpkePublicKey) (info : bytes)
    (psk : option Psk) (aad : option bytes) : res HpkeError bytes :=
  hpke_ctx ← setup_receiver (kem_output ciphertext) local_secret local_public info psk;
  (context_open aad (hpke_ct ciphertext) hpke_ctx).1.

Definition hpke_derive (ikm : bytes) : res HpkeError (HpkeSecretKey * HpkePublicKey) :=
  dkp_prk ← map_err KdfError (labeled_extract (hpke_kem_kdf h) [] (bstr "dkp_prk") ikm);
  from_kem (km_generate_deterministic (hpke_kem h) dkp_prk).

Definition hpke_generate (coins : Coins) : res HpkeError (HpkeSecretKey * HpkePublicKey) := from_kem (km_generate (hpke_kem h) coins).

Definition hpke_public_key_validate (key : HpkePublicKey) : res HpkeError unit := from_kem (km_public_key_validate (hpke_kem h) key).
End hpke.

(** ** The provider (mls-rs-crypto-rustcrypto) *)

Inductive RustCryptoError :=
| RustAeadError (e : AnyError)
| RustHpkeError (e : HpkeError)
| RustKdfError (e : AnyError)
| RustHashError (e : AnyError)
| RandError (e : AnyError)
| EcSignerError (e : AnyError).

(** What the provider takes from other files: the hash and the MAC (mac.rs), the
    signer (ec_signer.rs) and the source of random bytes; their errors are
    opaque. *)
Record Primitives (Coins : Type) := mk_primitives {
  pr_hash : bytes -> bytes;
  pr_mac : bytes -> bytes -> res AnyError bytes;
  pr_random_bytes : Coins -> Z -> res AnyError bytes;
  pr_sign : Coins -> SignatureSecretKey -> bytes -> res AnyError bytes;
  pr_verify : SignaturePublicKey -> bytes -> bytes -> res AnyError unit;
  pr_signature_key_generate : Coins -> res AnyError (SignatureSecretKey * SignaturePublicKey);
  pr_signature_key_derive_public : SignatureSecretKey -> res AnyError SignaturePublicKey;
}.
Arguments mk_primitives {_}.
Arguments pr_hash {_} _ _.
Arguments pr_mac {_} _ _ _.
Arguments pr_random_bytes {_} _ _ _.
Arguments pr_sign {_} _ _ _ _.
Arguments pr_verify {_} _ _ _ _.
Arguments pr_signature_key_generate {_} _ _.
Arguments pr_signature_key_derive_public {_} _ _.

Definition all_supported_cipher_suites : list Z := [P256_AES128; P384_AES256; CURVE25519_AES128; CURVE25519_CHACHA].

Section provider.
Context {Coins E : Type} `{!IntoAnyError E, !IntoAnyError RustCryptoError}.

(** An error of a part of the provider, as the caller sees it. *)
Definition rust_error {F A} (f : F -> RustCryptoError) (m : res F A) : res AnyError A := map_err (fun e => into_any_error (f e)) m.
Definition from_hpke {A} (m : res HpkeError A) : res AnyError A := rust_error RustHpkeError m.

(** [RustCryptoCipherSuite::new] and its operations. *)
Definition rust_crypto_suite (suite : Z) (kem : KemType Coins E) (kdf : KdfType) (aead : AeadType) (p : Primitives Coins) :
    CipherSuiteProvider :=
  let hpke := hpke_new kem kdf (Some aead) in {|
  Crypto.Coins := Coins;
  HpkeContextS := HpkeContext;
  HpkeContextR := HpkeContext;
  cipher_suite := suite;
  hash data := Ok (pr_hash p data);
  mac key data := rust_error RustHashError (pr_mac p key data);
  aead_seal key data aad nonce := rust_error RustAeadError (at_seal aead key data aad nonce);
  aead_open key ct aad nonce := rust_error RustAeadError (at_open aead key ct aad nonce);
  aead_key_size := at_key_size aead;
  aead_nonce_size := at_nonce_size aead;
  kdf_extract salt ikm := rust_error RustKdfError (kt_extract kdf salt ikm);
  kdf_expand prk info len := rust_error RustKdfError (kt_expand kdf prk info len);
  kdf_extract_size := kt_extract_size kdf;
  hpke_seal coins remote_key info aad pt := from_hpke (hpke_seal_single hpke coins remote_key info None aad pt);
  hpke_open ct local_secret local_public info aad := from_hpke (hpke_open_single hpke ct local_secret local_public info None aad);
  hpke_setup_s coins remote_key info := from_hpke (setup_sender hpke coins remote_key info None);
  hpke_setup_r enc local_secret local_public info := from_hpke (setup_receiver hpke enc local_secret local_public info None);
  context_s_export c exporter_context len := from_hpke (context_export c exporter_context len);
  context_r_export c exporter_context len := from_hpke (context_export c exporter_context len);
  kem_derive ikm := from_hpke (hpke_derive hpke ikm);
  kem_generate coins := from_hpke (hpke_generate hpke coins);
  kem_public_key_validate key := from_hpke (hpke_public_key_validate hpke key);
  random_bytes_vec coins count := rust_error RandError (pr_random_bytes p coins count);
  signature_key_generate coins := rust_error EcSignerError (pr_signature_key_generate p coins);
  signature_key_derive_public sk := rust_error EcSignerError (pr_signature_key_derive_public p sk);
  sign coins sk data := rust_error EcSignerError (pr_sign p coins sk data);
  verify pk signature data := rust_error EcSignerError (pr_verify p pk signature data);
|}.
End provider.

(** ** Nonces *)

Lemma length_xor_into n s : length (xor_into n s) = length n.
Proof. revert s. induction n as [|a n IH]; intros [|b s]; cbn; auto. Qed.

Lemma length_nonce_at b s : length (nonce_at b s) = length b.
Proof. unfold nonce_at. by rewrite length_reverse, length_xor_into, length_reverse. Qed.

Lemma xor_into_inj n s s' : length s = length s' -> (length s <= length n)%nat -> xor_into n s = xor_into n s' -> s = s'.
Proof.
  revert s s'. induction n as [|a n IH]; intros [|b s] [|b' s'] Hl Hn E; cbn in *; try done; try lia.
  injection E as E1 E2. f_equal; [|apply IH; [lia|lia|done]].
  rewrite <- (Z.lxor_0_l b), <- (Z.lxor_0_l b'), <- (Z.lxor_nilpotent a), !Z.lxor_assoc. by rewrite E1.
Qed.

(** Different numbers have different nonces. *)
Lemma nonce_at_inj base s s' : 8 <= zlen base -> in_uint 64 s -> in_uint 64 s' -> nonce_at base s = nonce_at base s' -> s = s'.
Proof.
  intros Hb Hs Hs' E. unfold nonce_at in E. apply (f_equal reverse) in E. rewrite !reverse_involutive in E.
  apply xor_into_inj in E; rewrite ?length_reverse, ?length_to_be_bytes; [|done|unfold zlen in Hb; lia].
  apply (f_equal reverse) in E. rewrite !reverse_involutive in E.
  rewrite <- (from_to_be_bytes 8 s), <- (from_to_be_bytes 8 s') by done. by rewrite E.
Qed.

Lemma to_be_bytes_zero n : to_be_bytes n 0 = replicate n 0.
Proof.
  induction n as [|n IH]; [done|]. cbn [to_be_bytes]. rewrite Z.shiftr_0_l, IH. change (Z.land 0 255) with 0.
  by rewrite <- replicate_cons_app.
Qed.

Lemma to_be_bytes_pad m n x : in_uint (8 * Z.of_nat n) x -> to_be_bytes (m + n) x = replicate m 0 ++ to_be_bytes n x.
Proof.
  revert x. induction n as [|n IH]; intros x Hx.
  - assert (x = 0) as -> by (unfold in_uint in Hx; cbn in Hx; lia). by rewrite Nat.add_0_r, to_be_bytes_zero, app_nil_r.
  - rewrite Nat.add_succ_r. cbn [to_be_bytes]. rewrite IH; [by rewrite app_assoc|].
    unfold in_uint in *. rewrite shiftr_8. replace (8 * Z.of_nat (S n)) with (8 * Z.of_nat n + 8) in Hx by lia.
    rewrite Z.pow_add_r in Hx by lia. change (2 ^ 8) with 256 in Hx. split; [apply Z.div_pos; lia|apply Z.div_lt_upper_bound; lia].
Qed.

Lemma xor_into_app a b s : length a = length s -> xor_into (a ++ b) s = zip_with Z.lxor a s ++ b.
Proof. revert s. induction a as [|x a IH]; intros [|y s] Hl; try done; [by destruct b|]. cbn. f_equal. apply IH. by injection Hl. Qed.

Lemma reverse_zip_with {A B C} (f : A -> B -> C) l k : length l = length k -> reverse (zip_with f l k) = zip_with f (reverse l) (reverse k).
Proof.
  revert k. induction l as [|x l IH]; intros [|y k] Hl; try done. cbn [zip_with]. injection Hl as Hl.
  rewrite !reverse_cons, IH, zip_with_app by (rewrite ?length_reverse; done). done.
Qed.

Lemma zip_with_lxor_zeros l n : n = length l -> zip_with Z.lxor l (replicate n 0) = l.
Proof. intros ->. induction l as [|x l IH]; [done|]. cbn. by rewrite Z.lxor_0_r, IH. Qed.

(** The nonce of RFC 9180: the base nonce with the number, as wide as the nonce,
    added bit by bit. *)
Lemma nonce_at_spec base s : 8 <= zlen base -> in_uint 64 s -> nonce_at base s = zip_with Z.lxor base (to_be_bytes (length base) s).
Proof.
  intros Hb Hs. unfold zlen in Hb. set (m := (length base - 8)%nat).
  assert (length base = m + 8)%nat as El by lia. rewrite El, to_be_bytes_pad by done.
  rewrite <- (take_drop m base) at 2. rewrite zip_with_app by (rewrite length_take, length_replicate; lia).
  rewrite zip_with_lxor_zeros by (rewrite length_take; lia). unfold nonce_at.
  rewrite <- (take_drop m base) at 1. rewrite reverse_app.
  assert (length (drop m base) = length (to_be_bytes 8 s)) as E8 by (rewrite length_drop, length_to_be_bytes; lia).
  rewrite xor_into_app by (rewrite !length_reverse; done).
  rewrite <- reverse_zip_with by done. by rewrite <- reverse_app, reverse_involutive.
Qed.

(** A number of 32 bits goes into the last four bytes. *)
Lemma nonce_at_low base s : 8 <= zlen base -> in_uint 32 s ->
  nonce_at base s = take (length base - 4) base ++ zip_with Z.lxor (drop (length base - 4) base) (to_be_bytes 4 s).
Proof.
  intros Hb Hs. rewrite nonce_at_spec; [|done|].
  2: { unfold in_uint in *. change (2 ^ 32) with 4294967296 in Hs. change (2 ^ 64) with 18446744073709551616. lia. }
  unfold zlen in Hb. set (m := (length base - 4)%nat). assert (length base = m + 4)%nat as El by lia.
  rewrite El, to_be_bytes_pad by done. rewrite <- (take_drop m base) at 1.
  rewrite zip_with_app by (rewrite length_take, length_replicate; lia).
  by rewrite zip_with_lxor_zeros by (rewrite length_take; lia).
Qed.

(** ** Contexts in step *)

(** What the documentation of an AEAD promises. *)
Definition aead_lawful (a : AeadType) : Prop := forall key data aad nonce ct,
  at_seal a key data aad nonce = Ok ct -> at_open a key ct aad nonce = Ok data.

(** Sealing and opening a sequence of messages. *)
Fixpoint seal_all (msgs : list (option bytes * bytes)) : SM HpkeContext HpkeError (list bytes) :=
  match msgs with
  | [] => mret []
  | (aad, pt) :: msgs => ct ← context_seal aad pt; cts ← seal_all msgs; mret (ct :: cts)
  end.

Fixpoint open_all (msgs : list (option bytes * bytes)) : SM HpkeContext HpkeError (list bytes) :=
  match msgs with
  | [] => mret []
  | (aad, ct) :: msgs => pt ← context_open aad ct; pts ← open_all msgs; mret (pt :: pts)
  end.

(** A context after [n] messages. *)
Definition advance (n : Z) (e : EncryptionContext) : EncryptionContext :=
  mk_encryption_context (base_nonce e) (seq_number e + n) (ec_aead e) (aead_key e).

Lemma advance_0 e : advance 0 e = e.
Proof. unfold advance. rewrite Z.add_0_r. by destruct e. Qed.

Lemma advance_add m n e : advance m (advance n e) = advance (n + m) e.
Proof. unfold advance. cbn. f_equal. lia. Qed.

Lemma context_seal_inv c aad pt ct c' : context_seal aad pt c = (Ok ct, c') ->
  exists e, encryption_context c = Some e /\ at_seal (ec_aead e) (aead_key e) pt aad (compute_nonce e) = Ok ct /\
    seq_number e + 1 < 2 ^ 64 /\ c' = mk_context (exporter_secret c) (Some (advance 1 e)) (ctx_kdf c).
Proof.
  unfold context_seal, with_encryption. destruct (encryption_context c) as [e|]; [|done].
  unfold encryption_context_seal. rewrite sm_get_run.
  destruct (at_seal _ _ _ _ _) as [x| |] eqn:Es; [|done..]. cbn [map_err]. rewrite (sm_lift_run _ _ _ x) by done.
  unfold mbind, sm_bind, increment_seq. destruct (Z.ltb_spec (seq_number e + 1) (2 ^ 64)); [|done].
  intros [= -> <-]. by exists e.
Qed.

Lemma context_open_run c e aad ct pt : encryption_context c = Some e ->
  at_open (ec_aead e) (aead_key e) ct aad (compute_nonce e) = Ok pt -> seq_number e + 1 < 2 ^ 64 ->
  context_open aad ct c = (Ok pt, mk_context (exporter_secret c) (Some (advance 1 e)) (ctx_kdf c)).
Proof.
  intros He Ho Hs. unfold context_open, with_encryption. rewrite He. unfold encryption_context_open. rewrite sm_get_run, Ho. cbn [map_err].
  rewrite (sm_lift_run _ _ _ pt) by done. unfold mbind, sm_bind, increment_seq.
  by destruct (Z.ltb_spec (seq_number e + 1) (2 ^ 64)); [|lia].
Qed.

(** Sealing in the last number fails, and changes nothing. *)
Lemma context_seal_exhausted c e aad pt : encryption_context c = Some e -> 2 ^ 64 <= seq_number e + 1 ->
  is_ok (at_seal (ec_aead e) (aead_key e) pt aad (compute_nonce e)) = true ->
  context_seal aad pt c = (Err SequenceNumberOverflow, c).
Proof.
  intros He Hs Hok. unfold context_seal, with_encryption. rewrite He. unfold encryption_context_seal. rewrite sm_get_run.
  destruct (at_seal _ _ _ _ _) as [x| |] eqn:Es; [|done..]. cbn [map_err]. rewrite (sm_lift_run _ _ _ x) by done.
  unfold mbind, sm_bind, increment_seq. destruct (Z.ltb_spec (seq_number e + 1) (2 ^ 64)); [lia|].
  destruct c; cbn in *. by subst.
Qed.

(** The messages of a run are sealed with the nonces of consecutive numbers. *)
Lemma seal_all_inv msgs : forall c cts c', seal_all msgs c = (Ok cts, c') -> msgs <> [] ->
  exists e, encryption_context c = Some e /\ length cts = length msgs /\ seq_number e + zlen msgs < 2 ^ 64 /\
    c' = mk_context (exporter_secret c) (Some (advance (zlen msgs) e)) (ctx_kdf c) /\
    forall i m ct, msgs !! i = Some m -> cts !! i = Some ct ->
      at_seal (ec_aead e) (aead_key e) m.2 m.1 (nonce_at (base_nonce e) (seq_number e + Z.of_nat i)) = Ok ct.
Proof.
  induction msgs as [|[aad pt] msgs IH]; intros c cts c' Hr Hne; [done|].
  cbn [seal_all] in Hr. apply sm_bind_Ok in Hr as (ct & c1 & H1 & Hr). apply sm_bind_Ok in Hr as (cts1 & c2 & H2 & [= <- <-]).
  apply context_seal_inv in H1 as (e & He & Hs & Hb & ->). exists e.
  destruct msgs as [|m2 msgs].
  { injection H2 as <- <-. split_and!; [done|done|unfold zlen; cbn; lia|done|].
    intros [|i] m ct' Hm Hct; [|by destruct i]. injection Hm as <-. injection Hct as <-. cbn [fst snd]. rewrite Z.add_0_r. exact Hs. }
  destruct (IH _ _ _ H2 ltac:(done)) as (e1 & [= <-] & Hl & Hb1 & -> & Hall). cbn [seq_number advance base_nonce ec_aead aead_key] in *.
  assert (zlen ((aad, pt) :: m2 :: msgs) = 1 + zlen (m2 :: msgs)) as El by (unfold zlen; cbn [length]; lia).
  split_and!; [done|cbn [length] in *; lia|rewrite El; lia| |].
  - cbn [exporter_secret ctx_kdf]. change (mk_encryption_context (base_nonce e) (seq_number e + 1) (ec_aead e) (aead_key e)) with (advance 1 e).
    by rewrite advance_add, El.
  - intros [|i] m ct' Hm Hct; cbn in Hm, Hct.
    + injection Hm as <-. injection Hct as <-. cbn [fst snd]. rewrite Z.add_0_r. exact Hs.
    + rewrite Nat2Z.inj_succ. replace (seq_number e + Z.succ (Z.of_nat i)) with (seq_number e + 1 + Z.of_nat i) by lia. by apply Hall.
Qed.

(** A context in the state of the sealing one opens what was sealed, in order. *)
Lemma open_all_sealed msgs : forall c cts c', (forall e, encryption_context c = Some e -> aead_lawful (ec_aead e)) ->
  seal_all msgs c = (Ok cts, c') -> open_all (zip (fst <$> msgs) cts) c = (Ok (snd <$> msgs), c').
Proof.
  induction msgs as [|[aad pt] msgs IH]; intros c cts c' Ha Hr; [by injection Hr as <- <-|].
  cbn [seal_all] in Hr. apply sm_bind_Ok in Hr as (ct & c1 & H1 & Hr). apply sm_bind_Ok in Hr as (cts1 & c2 & H2 & [= <- <-]).
  apply context_seal_inv in H1 as (e & He & Hs & Hb & ->).
  assert (forall e', encryption_context (mk_context (exporter_secret c) (Some (advance 1 e)) (ctx_kdf c)) = Some e' -> aead_lawful (ec_aead e')) as Ha'
    by (intros e' [= <-]; by apply (Ha e)).
  cbn [fmap list_fmap fst snd zip zip_with open_all].
  rewrite (sm_bind_run _ _ _ _ _ (context_open_run _ _ _ _ _ He (Ha e He _ _ _ _ _ Hs) Hb)).
  by rewrite (sm_bind_run _ _ _ _ _ (IH _ _ _ Ha' H2)).
Qed.

(** ** Key encapsulation *)

Definition kem_pair {Coins E} (k : KemType Coins E) (sk : HpkeSecretKey) (pk : HpkePublicKey) : Prop :=
  (exists seed, km_generate_deterministic k seed = Ok (sk, pk)) \/ (exists coins, km_generate k coins = Ok (sk, pk)).

(** What a KEM promises: the keys of a pair are valid and have the announced
    sizes, and what is encapsulated to the public key the secret key obtains. *)
Class KemLaws {Coins E} (k : KemType Coins E) : Prop := {
  kem_validate sk pk : kem_pair k sk pk -> km_public_key_validate k pk = Ok tt;
  kem_sizes sk pk : kem_pair k sk pk -> zlen sk = km_secret_key_size k /\ zlen pk = km_public_key_size k;
  kem_agree coins sk pk r : kem_pair k sk pk -> km_encap k coins pk = Ok r ->
    km_decap k (enc r) sk pk = Ok (shared_secret r) /\ zlen (enc r) = km_enc_size k;
}.

(** What Diffie-Hellman promises. *)
Class DhLaws {Coins} (d : DhType Coins) : Prop := {
  dh_generated coins sk pk : dh_generate d coins = Ok (sk, pk) -> dh_to_public d sk = Ok pk;
  dh_valid sk pk : dh_to_public d sk = Ok pk ->
    dh_public_key_validate d pk = Ok tt /\ zlen sk = dh_secret_key_size d /\ zlen pk = dh_public_key_size d;
  dh_commutes sk pk sk' pk' s : dh_to_public d sk = Ok pk -> dh_to_public d sk' = Ok pk' ->
    dh_dh d sk' pk = Ok s -> dh_dh d sk pk' = Ok s;
}.

Section dh_kem_laws.
Context {Coins : Type} (k : DhKem Coins) `{!DhLaws (dk_dh k)}.

Lemma sampling_loop_public prk mask l sk pk : sampling_loop k prk mask l = Ok (sk, pk) -> dh_to_public (dk_dh k) sk = Ok pk.
Proof using Type.
  induction l as [|i l IH]; [done|]. cbn [sampling_loop]. intros Hr. apply bind_Ok in Hr as (c & _ & Hr).
  destruct (dh_to_public (dk_dh k) c) as [pk'|e|] eqn:Ep; [|by apply IH|done]. by injection Hr as <- <-.
Qed.

Lemma derive_raw_public seed sk pk : derive_raw k seed = Ok (sk, pk) -> dh_to_public (dk_dh k) sk = Ok pk.
Proof using Type. intros (p & Hp%map_err_Ok & [= <- <-])%bind_Ok. done. Qed.

Lemma dh_kem_pair_public sk pk : kem_pair (dh_kem k) sk pk -> dh_to_public (dk_dh k) sk = Ok pk.
Proof using DhLaws0.
  intros [[seed Hs]|[coins Hc]]; cbn in *.
  - unfold dh_kem_generate_deterministic in Hs. destruct (dh_bitmask_for_rejection_sampling _).
    + by eapply sampling_loop_public.
    + apply bind_Ok in Hs as (s & _ & Hs). by eapply derive_raw_public.
    + by eapply derive_raw_public.
  - apply map_err_Ok in Hc. by eapply dh_generated.
Qed.

#[export] Instance dh_kem_laws : KemLaws (dh_kem k).
Proof using DhLaws0.
  split.
  - intros sk pk Hp%dh_kem_pair_public. apply dh_valid in Hp as (Hv & _). cbn. by rewrite Hv.
  - intros sk pk Hp%dh_kem_pair_public. by apply dh_valid in Hp as (_ & Hs).
  - intros coins sk pk r Hp%dh_kem_pair_public Hr. cbn in Hr. unfold dh_kem_encap in Hr.
    apply bind_Ok in Hr as ([esk epk] & He%map_err_Ok & Hr). apply dh_generated in He.
    apply bind_Ok in Hr as (ss & Hss%map_err_Ok & Hr). apply bind_Ok in Hr as (x & Hx & [= <-]). cbn [enc shared_secret].
    split; [|by apply dh_valid in He as (_ & _ & ?)].
    cbn. unfold dh_kem_decap. rewrite (dh_commutes _ _ _ _ _ Hp He Hss). exact Hx.
Qed.
End dh_kem_laws.

Section combined_kem_laws.
Context {C1 E1 C2 E2 : Type} `{!IntoAnyError E1, !IntoAnyError E2} (k : CombinedKem C1 E1 C2 E2).
Context `{!KemLaws (ck_kem1 k), !KemLaws (ck_kem2 k)}.

Lemma parse_key_app a b n : zlen a = n -> parse_key (a ++ b) n = Ok (a, b).
Proof using Type.
  intros <-. unfold parse_key, split_at. rewrite zlen_app. pose proof (zlen_nonneg a). pose proof (zlen_nonneg b).
  destruct (Z.leb_spec (zlen a) (zlen a + zlen b)); [|lia]. cbn. unfold zlen. by rewrite Nat2Z.id, take_app_length, drop_app_length.
Qed.

Lemma combined_pair sk pk : kem_pair (combined_kem k) sk pk -> exists sk1 pk1 sk2 pk2,
  sk = sk1 ++ sk2 /\ pk = pk1 ++ pk2 /\ kem_pair (ck_kem1 k) sk1 pk1 /\ kem_pair (ck_kem2 k) sk2 pk2.
Proof using Type.
  intros [[seed Hs]|[coins Hc]]; cbn in *.
  - apply bind_Ok in Hs as (ikm & _ & Hs). apply bind_Ok in Hs as ([ikm1 ikm2] & _ & Hs).
    apply bind_Ok in Hs as ([sk1 pk1] & H1%map_err_Ok & Hs). apply bind_Ok in Hs as ([sk2 pk2] & H2%map_err_Ok & [= <- <-]).
    exists sk1, pk1, sk2, pk2. split_and!; [done|done|left; by eexists|left; by eexists].
  - apply bind_Ok in Hc as ([sk1 pk1] & H1%map_err_Ok & Hs). apply bind_Ok in Hs as ([sk2 pk2] & H2%map_err_Ok & [= <- <-]).
    exists sk1, pk1, sk2, pk2. split_and!; [done|done|right; by eexists|right; by eexists].
Qed.

#[export] Instance combined_kem_laws : KemLaws (combined_kem k).
Proof using All.
  split.
  - done.
  - intros sk pk (sk1 & pk1 & sk2 & pk2 & -> & -> & H1 & H2)%combined_pair. rewrite !zlen_app. cbn.
    apply kem_sizes in H1 as [-> ->], H2 as [-> ->]. done.
  - intros coins sk pk r (sk1 & pk1 & sk2 & pk2 & -> & -> & H1 & H2)%combined_pair Hr.
    destruct (kem_sizes _ _ H1) as [Hs1 Hp1]. cbn in Hr. unfold combined_encap in Hr. rewrite parse_key_app in Hr by done. cbn [mbind res_bind] in Hr.
    apply bind_Ok in Hr as (ct1 & Hc1%map_err_Ok & Hr). apply bind_Ok in Hr as (ct2 & Hc2%map_err_Ok & Hr).
    apply bind_Ok in Hr as (ss & Hss & [= <-]). cbn [enc shared_secret].
    destruct (kem_agree _ _ _ _ H1 Hc1) as [Hd1 He1], (kem_agree _ _ _ _ H2 Hc2) as [Hd2 He2].
    split; [|rewrite zlen_app, He1, He2; done].
    cbn. unfold combined_decap. rewrite !parse_key_app by done. cbn [mbind res_bind]. unfold kem_error at 1 2. rewrite Hd1, Hd2. exact Hss.
Qed.
End combined_kem_laws.

(** ** A provider from its parts *)

Section provider_laws.
Context {Coins E : Type} `{!IntoAnyError E, !IntoAnyError RustCryptoError}.
Context (suite : Z) (kem : KemType Coins E) (kdf : KdfType) (aead : AeadType) (p : Primitives Coins).
Notation hpke := (hpke_new kem kdf (Some aead)).
Notation provider := (rust_crypto_suite suite kem kdf aead p).

Lemma rust_error_Ok {F A} (f : F -> RustCryptoError) (m : res F A) a : rust_error f m = Ok a <-> m = Ok a.
Proof using Type. apply map_err_Ok. Qed.

Lemma provider_pair sk pk : is_key_pair (H := provider) sk pk -> kem_pair kem sk pk.
Proof using Type.
  intros [[ikm Hk]|[coins Hk]]; cbn in Hk; apply rust_error_Ok in Hk.
  - unfold hpke_derive in Hk. apply bind_Ok in Hk as (prk & _ & Hk%map_err_Ok). left. by eexists.
  - apply map_err_Ok in Hk. right. by eexists.
Qed.

(** The receiver of an encapsulation has the context of the sender. *)
Lemma setup_agrees `{!KemLaws kem} (h : Hpke Coins E) coins sk pk info psk kem_output ctx : hpke_kem h = kem -> kem_pair kem sk pk ->
  setup_sender h coins pk info psk = Ok (kem_output, ctx) -> setup_receiver h kem_output sk pk info psk = Ok ctx.
Proof using Type.
  intros Hh Hp Hs. unfold setup_sender in Hs. apply bind_Ok in Hs as (r & Hr%map_err_Ok & Hs). rewrite Hh in Hr.
  apply bind_Ok in Hs as (c & Hc & [= <- <-]). destruct (kem_agree _ _ _ _ Hp Hr) as [Hd _].
  unfold setup_receiver. rewrite Hh, Hd. exact Hc.
Qed.

(** The encryption context of a key schedule, before the first message. *)
Lemma key_schedule_aead (h : Hpke Coins E) mode ss info psk ctx : hpke_key_schedule h mode ss info psk = Ok ctx ->
  match hpke_aead h with
  | Some a => exists e, encryption_context ctx = Some e /\ ec_aead e = a /\ seq_number e = 0 /\ zlen (base_nonce e) = at_nonce_size a
  | None => encryption_context ctx = None
  end.
Proof using Type.
  unfold hpke_key_schedule. intros Hr. apply bind_Ok in Hr as ([] & _ & Hr). do 3 apply bind_Ok in Hr as (? & _ & Hr).
  apply bind_Ok in Hr as (e & He & Hr). apply bind_Ok in Hr as (? & _ & [= <-]). cbn [encryption_context].
  destruct (hpke_aead h) as [a|]; [|by injection He as <-].
  apply bind_Ok in He as (key & _ & He). apply bind_Ok in He as (n & _ & He).
  apply fmap_Ok in He as (c & Hc & ->). exists c. split; [done|]. unfold encryption_context_new in Hc.
  apply bind_Ok in Hc as ([] & Hn%guard_or_Ok & Hc). apply bind_Ok in Hc as ([] & _ & [= <-]). cbn. apply Z.eqb_eq in Hn. done.
Qed.

(** C20: the provider of mls-rs-crypto-rustcrypto, over any lawful KEM and AEAD,
    is what the ratchet tree needs of a provider: the public keys it makes are
    valid and short, and what is sealed to a public key opens under its secret
    key, the same info and the same associated data. *)
Theorem rust_crypto_hpke_laws (Hk : KemLaws kem) (Ha : aead_lawful aead) (Hs : km_public_key_size kem < 2 ^ 16) :
  HpkeLaws (H := provider).
Proof.
  split.
  - intros sk pk Hp%provider_pair. cbn. apply rust_error_Ok, map_err_Ok. by eapply kem_validate.
  - intros sk pk Hp%provider_pair. apply kem_sizes in Hp as [_ ->]. exact Hs.
  - intros coins sk pk info aad pt ct Hp%provider_pair Hsl. cbn in *. apply rust_error_Ok in Hsl. apply rust_error_Ok.
    unfold hpke_seal_single in Hsl. apply bind_Ok in Hsl as ([kout ctx] & Hset & Hsl). apply bind_Ok in Hsl as (c & Hc & [= <-]).
    unfold hpke_open_single. cbn [kem_output hpke_ct]. rewrite (setup_agrees hpke _ _ _ _ _ _ _ eq_refl Hp Hset). cbn [mbind res_bind].
    destruct (context_seal aad pt ctx) as [r ctx'] eqn:Er. cbn [fst] in Hc. subst r.
    apply context_seal_inv in Er as (e & He & Hse & Hb & _).
    unfold setup_sender in Hset. apply bind_Ok in Hset as (r & _ & Hset). apply bind_Ok in Hset as (c' & Hks & [= _ ->]).
    apply key_schedule_aead in Hks as (e' & He' & Hea & _). rewrite He in He'. injection He' as <-.
    rewrite <- Hea in Ha. by rewrite (context_open_run _ _ _ _ _ He (Ha _ _ _ _ _ Hse) Hb).
Qed.
End provider_laws.

(** C32: contexts of hybrid encryption, in step.  The context a receiver sets up
    from an encapsulation is that of the sender, so that both export the same
    secrets, and whatever sequence of messages the sender seals the receiver
    opens in the same order.  The nonces of the first 2^32 messages are
    different, and each is the base nonce with the number of the message, in
    four bytes, added bit by bit to its last four bytes. *)
Theorem hpke_contexts_agree {Coins E} `{!IntoAnyError E} (h : Hpke Coins E) (a : AeadType) (coins : Coins) sk pk info psk kem_output ctx msgs cts ctx'
    (Hk : KemLaws (hpke_kem h)) (Ha : aead_lawful a) (Hh : hpke_aead h = Some a) (Hn : 8 <= at_nonce_size a)
    (Hp : kem_pair (hpke_kem h) sk pk)
    (Hset : setup_sender h coins pk info psk = Ok (kem_output, ctx)) (Hseal : seal_all msgs ctx = (Ok cts, ctx')) :
  setup_receiver h kem_output sk pk info psk = Ok ctx /\
  open_all (zip (fst <$> msgs) cts) ctx = (Ok (snd <$> msgs), ctx') /\
  exists key base, NoDup (nonce_at base <$> seqZ 0 (2 ^ 32)) /\
    forall (i : nat) m ct, Z.of_nat i < 2 ^ 32 -> msgs !! i = Some m -> cts !! i = Some ct ->
      at_seal a key m.2 m.1 (nonce_at base (Z.of_nat i)) = Ok ct /\
      nonce_at base (Z.of_nat i) =
        take (length base - 4) base ++ zip_with Z.lxor (drop (length base - 4) base) (to_be_bytes 4 (Z.of_nat i)).
Proof.
  split; [by eapply setup_agrees|].
  unfold setup_sender in Hset. apply bind_Ok in Hset as (r & _ & Hset). apply bind_Ok in Hset as (c & Hks & [= _ ->]).
  apply key_schedule_aead in Hks. rewrite Hh in Hks. destruct Hks as (e & He & Ea & Es & Eb).
  split; [apply open_all_sealed; [|done]; intros e'; rewrite He; intros [= <-]; by rewrite Ea|].
  exists (aead_key e), (base_nonce e). split.
  - apply NoDup_fmap_2_strong; [|apply NoDup_seqZ]. intros x y Hx%elem_of_seqZ Hy%elem_of_seqZ.
    change (2 ^ 32) with 4294967296 in *.
    apply nonce_at_inj; unfold in_uint; rewrite ?Eb; change (2 ^ 64) with 18446744073709551616; lia.
  - intros i m ct Hi Hm Hct. assert (msgs <> []) as Hne by (intros ->; by rewrite lookup_nil in Hm).
    destruct (seal_all_inv _ _ _ _ Hseal Hne) as (e' & He' & _ & _ & _ & Hall). rewrite He in He'. injection He' as <-.
    split; [|apply nonce_at_low; unfold in_uint; rewrite ?Eb; lia].
    specialize (Hall i m ct Hm Hct). by rewrite Es, Z.add_0_l, Ea in Hall.
Qed.

(** What a key derivation function promises (RFC 5869): a key of its size expands
    to any length up to 255 times that size. *)
Definition kdf_lawful (k : KdfType) : Prop := forall prk info len,
  zlen prk = kt_extract_size k -> 0 <= len <= 255 * kt_extract_size k ->
  exists out, kt_expand k prk info len = Ok out /\ zlen out = len.

(** C33: rejection sampling ends.  The derivation of a key pair for a curve whose
    secret keys are sampled, from a key of the size of the KDF, returns the first of at most 255 candidates that the
    curve accepts, with its public key, and [KeyDerivationError] if it accepts
    none. *)
Theorem rejection_sampling_ends {Coins} (k : DhKem Coins) prk mask (Hkdf : kdf_lawful (hk_kdf (dk_kdf k)))
    (Hprk : zlen prk = kt_extract_size (hk_kdf (dk_kdf k)))
    (Hsize : 0 < dh_secret_key_size (dk_dh k) <= 255 * kt_extract_size (hk_kdf (dk_kdf k)))
    (Hdh : forall sk, dh_to_public (dk_dh k) sk <> Panic) :
  exists candidates, Forall2 (fun i sk => candidate k prk mask i = Ok sk) (seqZ 0 255) candidates /\
  derive_with_rejection_sampling k prk mask =
    match list_find (fun sk => is_ok (dh_to_public (dk_dh k) sk) = true) candidates with
    | Some (_, sk) => (fun pk => (sk, pk)) <$> map_err DhKem_DhError (dh_to_public (dk_dh k) sk)
    | None => Err KeyDerivationError
    end.
Proof.
  unfold derive_with_rejection_sampling. generalize (seqZ 0 255) as l. induction l as [|i l (cs & Hcs & IH)]; [by exists []|].
  assert (exists c, candidate k prk mask i = Ok c) as (c & Hc).
  { unfold candidate, labeled_expand. destruct (Hkdf prk (to_be_bytes 2 (wrap 16 (dh_secret_key_size (dk_dh k))) ++ bstr "HPKE-v1" ++
      suite_id (dk_kdf k) ++ bstr "candidate" ++ [i]) (dh_secret_key_size (dk_dh k)) Hprk ltac:(lia)) as ([|b out] & -> & Hl).
    - unfold zlen in Hl. cbn in Hl. lia.
    - by eexists. }
  exists (c :: cs). split; [by constructor|].
  cbn [sampling_loop list_find]. rewrite Hc. cbn [mbind res_bind]. specialize (Hdh c).
  destruct (dh_to_public (dk_dh k) c) as [pk|e|] eqn:Ep; [|  |done].
  - rewrite decide_True by done. by rewrite Ep.
  - rewrite decide_False by done. rewrite IH. by destruct (list_find _ cs) as [[? ?]|].
Qed.

(** ** Small primitives, at work *)

(** Diffie-Hellman with numbers; a secret key is an even number. *)
Definition toy_dh : DhType nat := mk_dh_type
  (fun sk pk => match sk, pk with [a], [b] => Ok [(a * b) `mod` 251] | _, _ => Err (any_provider 3) end)
  (fun n => Ok ([2 * Z.of_nat n], [2 * Z.of_nat n]))
  (fun sk => match sk with [a] => if Z.even a then Ok [a] else Err (any_provider 3) | _ => Err (any_provider 3) end)
  (HpkeWithBitmask 255) 1 1 (fun _ => Ok tt).

Definition toy_kdf : KdfType := mk_kdf_type 1 
  (fun prk info len => if zlen prk <? 4 then Err (any_provider 7) else Ok (Toy.expand prk info len))
  (fun salt ikm => match ikm with [] => Err (any_provider 8) | _ => Ok (Toy.expand salt ikm 4) end) 4.

Definition toy_aead : AeadType :=
  mk_aead_type 1 (fun key data aad nonce => Ok (data ++ [Toy.tag key data aad nonce])) Toy.open_tagged 4 12.

Definition toy_dh_kem : DhKem nat := dh_kem_new toy_dh toy_kdf (kem_id_value DhKemX25519Sha256) (n_secret DhKemX25519Sha256).

#[local] Instance toy_kem_any : IntoAnyError DhKemError := fun _ => any_provider 4.
#[local] Instance toy_combiner_any : IntoAnyError CombinerError := fun _ => any_provider 5.
#[local] Instance toy_rust_any : IntoAnyError RustCryptoError := fun _ => any_provider 6.

#[local] Instance toy_dh_laws : DhLaws toy_dh.
Proof.
  split.
  - intros n sk pk [= <- <-]. cbn [dh_to_public toy_dh]. by rewrite Z.even_mul.
  - intros [|a [|b sk]] pk Hp; cbn in Hp; try done. destruct (Z.even a); [|done]. by injection Hp as <-.
  - intros sk pk sk' pk' s Hp Hp' Hd. cbn in *. destruct sk as [|a [|? ?]]; try done. destruct sk' as [|b [|? ?]]; try done.
    destruct (Z.even a); [|done]. destruct (Z.even b); [|done]. injection Hp as <-. injection Hp' as <-. injection Hd as <-.
    by rewrite Z.mul_comm.
Qed.

Lemma toy_aead_lawful : aead_lawful toy_aead.
Proof. intros key data aad nonce ct Hs. exact (aead_open_seal (H := Toy.provider) (AeadLaws := Toy.aead_laws) key data aad nonce ct Hs). Qed.

Lemma toy_kdf_lawful : kdf_lawful toy_kdf.
Proof.
  intros prk info len Hp Hl. simpl in *. destruct (Z.ltb_spec (zlen prk) 4); [lia|].
  eexists. split; [done|]. apply Toy.expand_ok. lia.
Qed.

(** The KEM of the provider combines the toy KEM with itself. *)
Definition toy_combined : CombinedKem nat DhKemError nat DhKemError :=
  combined_kem_new_xwing (dh_kem toy_dh_kem) (dh_kem toy_dh_kem) (fun d => Ok (Toy.expand [] d 4)) (fun d n => Ok (Toy.expand [] d n)).

Definition toy_primitives : Primitives (nat * nat) := mk_primitives (fun d => Toy.expand [] d 4) (fun k d => Ok (Toy.expand k d 4))
  (fun n count => Ok (Toy.expand [Z.of_nat n.1] [] count)) (fun _ k d => Ok (Toy.expand k d 4))
  (fun k s d => if bool_decide (s = Toy.expand k d 4) then Ok tt else Err (any_provider 2))
  (fun n => Ok ([Z.of_nat n.1], [Z.of_nat n.1])) (fun k => Ok k).

Lemma rust_crypto_hpke_laws_witness :
  HpkeLaws (H := rust_crypto_suite 1 (combined_kem toy_combined) toy_kdf toy_aead toy_primitives).
Proof.
  apply (rust_crypto_hpke_laws 1 (combined_kem toy_combined) toy_kdf toy_aead toy_primitives).
  - apply (combined_kem_laws toy_combined (KemLaws0 := dh_kem_laws toy_dh_kem (DhLaws0 := toy_dh_laws)) (KemLaws1 := dh_kem_laws toy_dh_kem (DhLaws0 := toy_dh_laws))).
  - exact toy_aead_lawful.
  - reflexivity.
Defined.

Definition toy_hpke : Hpke nat DhKemError := hpke_new (dh_kem toy_dh_kem) toy_kdf (Some toy_aead).
Definition toy_msgs : list (option bytes * bytes) := [(None, [1; 2]); (Some [9], [3])].

Lemma hpke_contexts_agree_witness : exists kem_output ctx cts ctx',
  setup_sender toy_hpke 3%nat [10] [1] None = Ok (kem_output, ctx) /\ seal_all toy_msgs ctx = (Ok cts, ctx') /\
  setup_receiver toy_hpke kem_output [10] [10] [1] None = Ok ctx /\
  open_all (zip (fst <$> toy_msgs) cts) ctx = (Ok [[1; 2]; [3]], ctx').
Proof.
  assert (match setup_sender toy_hpke 3%nat [10] [1] None with Ok (_, c) => is_ok (seal_all toy_msgs c).1 | _ => false end = true) as Hok
    by (vm_compute; reflexivity).
  destruct (setup_sender toy_hpke 3%nat [10] [1] None) as [[kem_output ctx]|e|] eqn:E; [|discriminate Hok..].
  destruct (seal_all toy_msgs ctx) as [[cts|e|] ctx'] eqn:Es; [|discriminate Hok..].
  destruct (hpke_contexts_agree toy_hpke toy_aead 3%nat [10] [10] [1] None kem_output ctx toy_msgs cts ctx'
    (dh_kem_laws toy_dh_kem (DhLaws0 := toy_dh_laws)) toy_aead_lawful eq_refl ltac:(vm_compute; discriminate)
    ltac:(right; exists 5%nat; reflexivity) E Es) as (Hr & Ho & _).
  exists kem_output, ctx, cts, ctx'. exact (conj eq_refl (conj Es (conj Hr Ho))).
Defined.

Lemma rejection_sampling_ends_witness : exists candidates,
  derive_with_rejection_sampling toy_dh_kem [7; 7; 7; 7] 255 =
    match list_find (fun sk => is_ok (dh_to_public toy_dh sk) = true) candidates with
    | Some (_, sk) => (fun pk => (sk, pk)) <$> map_err DhKem_DhError (dh_to_public toy_dh sk)
    | None => Err KeyDerivationError
    end /\ is_ok (derive_with_rejection_sampling toy_dh_kem [7; 7; 7; 7] 255) = true.
Proof.
  destruct (rejection_sampling_ends toy_dh_kem [7; 7; 7; 7] 255 toy_kdf_lawful eq_refl ltac:(split; [reflexivity|discriminate])) as (cs & _ & Hd).
  - intros [|a [|b sk]]; cbn; try done. by destruct (Z.even a).
  - exists cs. split; [exact Hd|vm_compute; reflexivity].
Defined.

(** The identifiers of a suite agree on the sizes of its secrets. *)
Lemma suite_ids suite : 1 <= suite <= 7 -> exists k d a, kem_id_new suite = Some k /\ kdf_id_new suite = Some d /\
  aead_id_new suite = Some a /\ n_secret k = kdf_id_extract_size d /\ aead_id_nonce_size a = 12.
Proof.
  intros Hs. assert (suite = 1 \/ suite = 2 \/ suite = 3 \/ suite = 4 \/ suite = 5 \/ suite = 6 \/ suite = 7)
    as [->|[->|[->|[->|[->|[->| ->]]]]]] by lia; by eexists _, _, _.
Qed.
