(* ===== verification/Identity.v ===== *)
(** * Identity providers

    The two implementations of [IdentityProvider] in the repository:
    [BasicIdentityProvider] (mls-rs/src/identity/basic.rs), and
    [X509IdentityProvider] of mls-rs-identity-x509 (provider.rs) with its
    extractor of identities from subjects (identity_extractor.rs).  Reading and
    validating certificates is done by other crates and a parameter here. *)

From S2P Require Import Prelude Codec Crypto Data Hpke.

#[local] Set Default Goal Selector "!".
Local Open Scope Z_scope.

(** ** Credentials (mls-rs-core) *)

Definition as_basic (c : Credential) : option bytes := match c with Basic b => Some b | _ => None end.
Definition as_x509 (c : Credential) : option (list bytes) := match c with X509 chain => Some chain | _ => None end.
Definition as_custom (c : Credential) : option (Z * bytes) := match c with CustomCredential t d => Some (t, d) | _ => None end.

(** ** Basic credentials *)

Inductive BasicIdentityProviderError := basic_provider_error (credential_type : Z).

Definition resolve_basic_identity (signing_id : SigningIdentity) : res BasicIdentityProviderError bytes :=
  ok_or (basic_provider_error (credential_type (credential signing_id))) (as_basic (credential signing_id)).

Section basic.
Context `{!IntoAnyError BasicIdentityProviderError}.

(** The errors of a provider as the library sees them. *)
Definition any_err {E A} `{!IntoAnyError E} (m : res E A) : res AnyError A := map_err into_any_error m.

Definition basic_identity_provider : IdentityProvider := {|
  validate_member s _ _ := any_err ((fun _ => tt) <$> resolve_basic_identity s);
  validate_external_sender s _ _ := any_err ((fun _ => tt) <$> resolve_basic_identity s);
  identity s _ := any_err (resolve_basic_identity s);
  valid_successor predecessor successor _ := any_err (
    p ← resolve_basic_identity predecessor;
    s ← resolve_basic_identity successor;
    Ok (bool_decide (p = s)));
  supported_types := [CREDENTIAL_BASIC];
|}.
End basic.

(** ** X.509 *)

Inductive X509IdentityError :=
| UnsupportedCredentialType (t : Z)
| SignatureKeyMismatch
| InvalidOffset
| EmptyCertificateChain
| X509ReaderError (e : AnyError)
| IdentityExtractorError (e : AnyError)
| X509ValidationError (e : AnyError).

Inductive SubjectComponent :=
| CommonName (s : bytes)
| Surname (s : bytes)
| SerialNumber (s : bytes)
| CountryName (s : bytes)
| Locality (s : bytes)
| State (s : bytes)
| StreetAddress (s : bytes)
| OrganizationName (s : bytes)
| OrganizationalUnit (s : bytes)
| Title (s : bytes)
| GivenName (s : bytes)
| EmailAddress (s : bytes)
| UserId (s : bytes)
| DomainComponent (s : bytes)
| Initials (s : bytes)
| GenerationQualifier (s : bytes)
| DistinguishedNameQualifier (s : bytes)
| Pseudonym (s : bytes).

#[export] Instance SubjectComponent_eq_dec : EqDecision SubjectComponent.
Proof. solve_decision. Defined.

(** The methods of [X509CertificateReader] that identities need. *)
Class X509CertificateReader (R : Type) := {
  reader_subject_bytes : R -> bytes -> res AnyError bytes;
  reader_subject_components : R -> bytes -> res AnyError (list SubjectComponent);
}.

Class X509IdentityExtractor (T : Type) := {
  extractor_identity : T -> list bytes -> res X509IdentityError bytes;
  extractor_valid_successor : T -> list bytes -> list bytes -> res X509IdentityError bool;
}.

Class X509CredentialValidator (V : Type) := {
  validator_validate_chain : V -> list bytes -> option Z -> res AnyError SignaturePublicKey;
}.

Record SubjectIdentityExtractor (R : Type) := mk_subject_extractor { sx_offset : Z; sx_reader : R }.
Arguments mk_subject_extractor {_}.
Arguments sx_offset {_} _.
Arguments sx_reader {_} _.

Definition get_certificate (certificate_chain : list bytes) (offset : Z) : res X509IdentityError bytes :=
  ok_or InvalidOffset (zget certificate_chain offset).

Section extractor.
Context {R : Type} `{!X509CertificateReader R} (x : SubjectIdentityExtractor R) `{!IntoAnyError X509IdentityError}.

Definition is_common_name (c : SubjectComponent) : bool := match c with CommonName _ => true | _ => false end.

Definition extract_common_name (certificate : bytes) : res X509IdentityError (option SubjectComponent) :=
  components ← map_err IdentityExtractorError (reader_subject_components (sx_reader x) certificate);
  Ok (List.find is_common_name components).

Definition subject_bytes (certificate : bytes) : res X509IdentityError bytes :=
  map_err X509ReaderError (reader_subject_bytes (sx_reader x) certificate).

Definition subject_identity (certificate_chain : list bytes) : res X509IdentityError bytes :=
  cert ← get_certificate certificate_chain (sx_offset x);
  common_name_value ← extract_common_name cert;
  match common_name_value with
  | Some (CommonName common_name) => Ok common_name
  | _ => subject_bytes cert
  end.

Definition subject_valid_successor (predecessor successor : list bytes) : res X509IdentityError bool :=
  predecessor_cert ← get_certificate predecessor 0;
  successor_cert ← get_certificate successor 0;
  predecessor_common_name ← extract_common_name predecessor_cert;
  successor_common_name ← extract_common_name successor_cert;
  match predecessor_common_name, successor_common_name with
  | Some pre_common_name, Some succ_common_name => Ok (bool_decide (pre_common_name = succ_common_name))
  | _, _ =>
      p ← subject_bytes predecessor_cert;
      s ← subject_bytes successor_cert;
      Ok (bool_decide (p = s))
  end.
End extractor.

#[export] Instance subject_extractor {R} `{!X509CertificateReader R} : X509IdentityExtractor (SubjectIdentityExtractor R) := {|
  extractor_identity := subject_identity;
  extractor_valid_successor := subject_valid_successor;
|}.

Definition credential_to_chain (c : Credential) : res X509IdentityError (list bytes) :=
  ok_or (UnsupportedCredentialType (credential_type c)) (as_x509 c).

Section provider.
Context {T V : Type} `{!X509IdentityExtractor T, !X509CredentialValidator V, !IntoAnyError X509IdentityError}.
Context (identity_extractor : T) (validator : V).

Definition x509_validate (s : SigningIdentity) (timestamp : option Z) : res X509IdentityError unit :=
  chain ← credential_to_chain (credential s);
  leaf_public_key ← map_err X509ValidationError (validator_validate_chain validator chain timestamp);
  if bool_decide (leaf_public_key = signature_key s) then Ok tt else Err SignatureKeyMismatch.

Definition x509_identity (s : SigningIdentity) : res X509IdentityError bytes :=
  chain ← credential_to_chain (credential s);
  map_err (fun e => IdentityExtractorError (into_any_error e)) (extractor_identity identity_extractor chain).

Definition x509_valid_successor (predecessor successor : SigningIdentity) : res X509IdentityError bool :=
  p ← credential_to_chain (credential predecessor);
  s ← credential_to_chain (credential successor);
  map_err (fun e => IdentityExtractorError (into_any_error e)) (extractor_valid_successor identity_extractor p s).

Definition x509_identity_provider : IdentityProvider := {|
  validate_member s timestamp _ := any_err (x509_validate s timestamp);
  validate_external_sender s timestamp _ := any_err (x509_validate s timestamp);
  identity s _ := any_err (x509_identity s);
  valid_successor predecessor successor _ := any_err (x509_valid_successor predecessor successor);
  supported_types := [CREDENTIAL_X509];
|}.
End provider.

(** ** Successors keep the identity *)

(** A provider that accepts a successor gives it the identity of its predecessor. *)
Definition keeps_identity (p : IdentityProvider) : Prop := forall s s' ext i,
  valid_successor (IdentityProvider := p) s s' ext = Ok true -> identity (IdentityProvider := p) s ext = Ok i ->
  identity (IdentityProvider := p) s' ext = Ok i.

(** The components of a subject are read from its bytes. *)
Class ReaderLaws {R} `{!X509CertificateReader R} (r : R) : Prop := {
  components_of_subject c c' b : reader_subject_bytes r c = Ok b -> reader_subject_bytes r c' = Ok b ->
    reader_subject_components r c = reader_subject_components r c';
}.

Lemma basic_keeps_identity `{!IntoAnyError BasicIdentityProviderError} : keeps_identity basic_identity_provider.
Proof.
  intros s s' ext i Hs Hi. cbn in *. apply map_err_Ok in Hs, Hi. apply map_err_Ok. rewrite Hi in Hs. cbn [mbind res_bind] in Hs.
  apply bind_Ok in Hs as (j & -> & [= Hj%bool_decide_eq_true]). by subst.
Qed.

Section subjects.
Context {R : Type} `{!X509CertificateReader R} (r : R) `{!ReaderLaws r}.
Notation x := (mk_subject_extractor 0 r).

Lemma find_common_name l c : List.find is_common_name l = Some c -> exists n, c = CommonName n.
Proof using Type. intros [_ Hc]%find_some. destruct c; try done. by eexists. Qed.

Lemma subject_keeps_identity p s i : subject_valid_successor x p s = Ok true -> subject_identity x p = Ok i -> subject_identity x s = Ok i.
Proof using All.
  unfold subject_valid_successor, subject_identity. cbn [sx_offset].
  destruct (get_certificate p 0) as [cp| |]; [|done..]. destruct (get_certificate s 0) as [cs| |]; [|done..]. cbn [mbind res_bind].
  unfold extract_common_name, subject_bytes. cbn [sx_reader].
  destruct (reader_subject_components r cp) as [kp| |] eqn:Ep; [|done..]. cbn [map_err mbind res_bind].
  destruct (reader_subject_components r cs) as [ks| |] eqn:Es; [|done..]. cbn [map_err mbind res_bind].
  assert ((p ← map_err X509ReaderError (reader_subject_bytes r cp); s ← map_err X509ReaderError (reader_subject_bytes r cs);
    Ok (bool_decide (p = s))) = Ok true -> exists b, reader_subject_bytes r cp = Ok b /\ reader_subject_bytes r cs = Ok b /\ kp = ks) as Hsub.
  { intros Hb. apply bind_Ok in Hb as (b & Hb%map_err_Ok & Hr). apply bind_Ok in Hr as (b' & Hb'%map_err_Ok & [= He%bool_decide_eq_true]).
    subst b'. exists b. split_and!; [done|done|]. pose proof (components_of_subject _ _ _ Hb Hb') as E. rewrite Ep, Es in E. by injection E. }
  destruct (List.find is_common_name kp) as [np|] eqn:Fp.
  - destruct (find_common_name _ _ Fp) as [n ->]. destruct (List.find is_common_name ks) as [ns|] eqn:Fs.
    + destruct (find_common_name _ _ Fs) as [n' ->]. intros [= E%bool_decide_eq_true] Hi. by injection E as <-.
    + intros (b & _ & _ & ->)%Hsub _. congruence.
  - intros (b & Hb & Hb' & ->)%Hsub Hi. rewrite Fp. rewrite Hb in Hi. rewrite Hb'. exact Hi.
Qed.
End subjects.

(** C35: the providers of the repository give a successor the identity of its
    predecessor: the basic one, and that of X.509 certificates when it takes the
    identity from the leaf, for any validator and any reader that reads the
    components of a subject from its bytes. *)
Theorem providers_keep_identity {R V : Type} `{!X509CertificateReader R, !X509CredentialValidator V, !IntoAnyError X509IdentityError,
    !IntoAnyError BasicIdentityProviderError} (r : R) (v : V) (Hr : ReaderLaws r) :
  keeps_identity basic_identity_provider /\ keeps_identity (x509_identity_provider (mk_subject_extractor 0 r) v).
Proof.
  split; [exact basic_keeps_identity|]. intros s s' ext i Hs Hi. cbn in *. apply map_err_Ok in Hs, Hi. apply map_err_Ok.
  unfold x509_valid_successor, x509_identity in *. apply bind_Ok in Hs as (p & Hp & Hs). rewrite Hp in Hi. cbn [mbind res_bind] in Hi.
  apply bind_Ok in Hs as (q & -> & Hs%map_err_Ok). apply map_err_Ok in Hi. cbn [mbind res_bind]. apply map_err_Ok.
  by apply (subject_keeps_identity r p q).
Qed.

(** ** Examples *)

(** A reader whose certificates are their subjects, the first byte of which
    says whether it is a common name. *)
#[local] Instance toy_reader : X509CertificateReader unit := {|
  reader_subject_bytes _ c := Ok c;
  reader_subject_components _ c := Ok (match c with 1 :: n => [CountryName [0]; CommonName n] | n => [CountryName n] end);
|}.
#[local] Instance toy_validator : X509CredentialValidator unit := {| validator_validate_chain _ chain _ := Ok (default [] (head chain)) |}.
#[local] Instance toy_x509_any : IntoAnyError X509IdentityError := fun _ => any_provider 7.
#[local] Instance toy_basic_any : IntoAnyError BasicIdentityProviderError := fun _ => any_provider 8.

Definition chain_identity (chain : list bytes) : SigningIdentity := mk_signing_identity [1; 5] (X509 chain).

Lemma providers_keep_identity_witness :
  identity (IdentityProvider := x509_identity_provider (mk_subject_extractor 0 tt) tt) (chain_identity [[1; 5]; [8]]) [] = Ok [5].
Proof.
  destruct (providers_keep_identity tt tt) as [_ Hx].
  { split. intros c c' b Hc Hc'. cbn in *. by injection Hc as ->; injection Hc' as ->. }
  apply (Hx (chain_identity [[1; 5]; [9]])); vm_compute; reflexivity.
Defined.

(** Taken from the second certificate of a chain, the identity of an accepted
    successor is another one: successors are always compared by their leaves. *)
Example successor_changes_identity :
  let p := x509_identity_provider (mk_subject_extractor 1 tt) tt in
  valid_successor (IdentityProvider := p) (chain_identity [[1; 5]; [9]]) (chain_identity [[1; 5]; [8]]) [] = Ok true /\
  identity (IdentityProvider := p) (chain_identity [[1; 5]; [9]]) [] = Ok [9] /\
  identity (IdentityProvider := p) (chain_identity [[1; 5]; [8]]) [] = Ok [8].
Proof. split_and!; vm_compute; reflexivity. Qed.
