(* ===== verification/NodeVec.v ===== *)
(** * The node array of the ratchet tree

    Models [NodeVec] of mls-rs/src/tree_kem/node.rs: a vector of optional nodes
    with leaves at even and parents at odd indices, of which trailing blanks are
    not stored.  Accessors are functions, mutators are methods on a mutable
    receiver; [as_*_mut] borrows are updates by a function of the node.

    [resolution] is the recursive definition of RFC 9420, section 4.1.1; the
    library computes it with an explicit stack ([get_resolution_index]) and
    decides its emptiness with another loop ([find_in_resolution]). *)

From S2P Require Import Prelude Codec Crypto TreeMath Data.

#[local] Set Default Goal Selector "!".
Local Open Scope Z_scope.

Notation NodeVec := (list (option Node)).

(** ** [NodeTypeResolver] *)

Definition as_parent (n : option Node) : mres Parent :=
  ok_or ExpectedNode (match n with Some (NodeParent p) => Some p | _ => None end).

Definition as_leaf (n : option Node) : mres LeafNode :=
  ok_or ExpectedNode (match n with Some (NodeLeaf l) => Some l | _ => None end).

Definition as_non_empty (n : option Node) : mres Node := ok_or UnexpectedEmptyNode n.

(** ** Accessors *)

Definition node_index (leaf_index : Z) : Z := wrap 32 (leaf_index * 2).

Definition total_leaf_count (v : NodeVec) : Z :=
  next_power_of_two (wrap 32 (zlen v) `div` 2 + 1).

Definition validate_index (v : NodeVec) (index : Z) : mres Z :=
  if next_power_of_two (zlen v) <=? index then Err (InvalidNodeIndex index) else Ok index.

Definition borrow_node (v : NodeVec) (index : Z) : mres (option Node) :=
  i ← validate_index v index;
  Ok (default None (zget v i)).

(** [iter().step_by(2)]. *)
Fixpoint step_by_2 {A} (l : list A) : list A :=
  match l with
  | [] => []
  | x :: l => x :: match l with [] => [] | _ :: l => step_by_2 l end
  end.

Definition leaves (v : NodeVec) : list (option LeafNode) :=
  (fun n => res_ok (as_leaf n)) <$> step_by_2 v.

Definition enumerate {A} (l : list A) : list (Z * A) := zip (seqZ 0 (zlen l)) l.

Definition non_empty_leaves (v : NodeVec) : list (Z * LeafNode) :=
  omap (fun '(i, l) => (fun l => (i, l)) <$> l) (enumerate (leaves v)).

Definition non_empty_parents (v : NodeVec) : list (Z * Parent) :=
  omap (fun '(i, n) => (fun p => (i, p)) <$> res_ok (as_parent n)) (step_by_2 (drop 1 (enumerate v))).

Definition occupied_leaf_count (v : NodeVec) : Z := wrap 32 (zlen (non_empty_leaves v)).

Definition vec_direct_copath (v : NodeVec) (index : Z) : list CopathNode :=
  direct_copath 32 (node_index index) (total_leaf_count v).

Definition is_blank (v : NodeVec) (index : Z) : mres bool :=
  (fun n : option Node => match n with None => true | _ => false end) <$> borrow_node v index.

Definition borrow_as_parent (v : NodeVec) (node_index : Z) : mres Parent :=
  borrow_node v node_index ≫= as_parent.

Definition borrow_as_leaf (v : NodeVec) (index : Z) : mres LeafNode :=
  borrow_node v (node_index index) ≫= as_leaf.

(** ** Mutators *)

Definition blank_leaf_node (leaf_index : Z) : SM NodeVec MlsError LeafNode := fun v =>
  match validate_index v (node_index leaf_index) with
  | Ok node_index =>
      match zget v node_index with
      | Some (Some (NodeLeaf l)) => (Ok l, zset v node_index None)
      | Some _ => (Err RemovingNonExistingMember, zset v node_index None)
      | None => (Err RemovingNonExistingMember, v)
      end
  | Err e => (Err e, v)
  | Panic => (Panic, v)
  end.

(** [if let Some(n) = self.get_mut(i) { *n = None }] for every node of the
    path; [zset] outside of the vector changes nothing. *)
Definition blank_direct_path (leaf : Z) (v : NodeVec) : NodeVec :=
  foldl (fun v i => zset v (path i) None) v (vec_direct_copath v leaf).

Fixpoint trim_rev (r : list (option Node)) : list (option Node) :=
  match r with None :: r => trim_rev r | _ => r end.

(** [while self.last() == Some(&None) { self.pop(); }]. *)
Definition trim (v : NodeVec) : NodeVec := reverse (trim_rev (reverse v)).

(** The mutable borrows also fail on nodes that are in the tree but not in the
    vector. *)
Definition borrow_as_parent_mut (v : NodeVec) (node_index : Z) : mres Parent :=
  index ← validate_index v node_index;
  n ← ok_or (InvalidNodeIndex node_index) (zget v index);
  as_parent n.

Definition borrow_as_leaf_mut (v : NodeVec) (index : Z) : mres LeafNode :=
  i ← validate_index v (node_index index);
  n ← ok_or (InvalidNodeIndex (node_index index)) (zget v i);
  as_leaf n.

(** [borrow_as_parent_mut] followed by an update [f] of the node. *)
Definition update_parent (node_index : Z) (f : Parent -> Parent) : SM NodeVec MlsError unit := fun v =>
  match borrow_as_parent_mut v node_index with
  | Ok p => (Ok tt, zset v node_index (Some (NodeParent (f p))))
  | Err e => (Err e, v)
  | Panic => (Panic, v)
  end.

(** [borrow_as_leaf_mut] followed by an update [f] of the node. *)
Definition update_leaf (index : Z) (f : LeafNode -> LeafNode) : SM NodeVec MlsError unit := fun v =>
  match borrow_as_leaf_mut v index with
  | Ok l => (Ok tt, zset v (node_index index) (Some (NodeLeaf (f l))))
  | Err e => (Err e, v)
  | Panic => (Panic, v)
  end.

(** [while self.len() <= index { self.push(None) }]. *)
Definition grow (v : NodeVec) (index : Z) : NodeVec :=
  v ++ replicate (Z.to_nat (index + 1 - zlen v)) None.

Definition parent_hash_empty : ParentHash := [].

(** [borrow_or_fill_node_as_parent] followed by an update [f] of the node. *)
Definition update_or_fill_parent (node_index : Z) (public_key : HpkePublicKey) (f : Parent -> Parent) :
    SM NodeVec MlsError unit := fun v =>
  match validate_index v node_index with
  | Ok index =>
      let v := grow v index in
      match zget v index with
      | None => (Err (InvalidNodeIndex node_index), v)
      | Some n =>
          let n := match n with
                   | None => Some (NodeParent (mk_parent public_key parent_hash_empty []))
                   | _ => n
                   end in
          match as_parent n with
          | Ok p => (Ok tt, zset v index (Some (NodeParent (f p))))
          | Err e => (Err e, zset v index n)
          | Panic => (Panic, v)
          end
      end
  | Err e => (Err e, v)
  | Panic => (Panic, v)
  end.

(** ** Resolutions *)

(** The loops keep a stack of the nodes still to visit; each round pops one. *)
Fixpoint resolution_loop (fuel : nat) (v : NodeVec) (indexes resolution : list Z) : mres (list Z) :=
  match indexes with
  | [] => Ok resolution
  | index :: indexes =>
      match fuel with
      | O => Panic
      | S fuel =>
          match zget v index with
          | Some (Some node) =>
              let resolution := resolution ++ [index] in
              let resolution :=
                match node with
                | NodeParent p => resolution ++ (node_index <$> unmerged_leaves p)
                | NodeLeaf _ => resolution
                end in
              resolution_loop fuel v indexes resolution
          | _ =>
              if negb (is_leaf index) then
                resolution_loop fuel v
                  (left_unchecked 32 index :: right_unchecked 32 index :: indexes) resolution
              else resolution_loop fuel v indexes resolution
          end
      end
  end.

(** A node of level [k] has 2^(k+1) - 1 descendants, itself included. *)
Definition get_resolution_index (v : NodeVec) (index : Z) : mres (list Z) :=
  resolution_loop (Z.to_nat (2 ^ (trailing_ones index + 1))) v [index] [].

Fixpoint find_loop (fuel : nat) (v : NodeVec) (to_find : option Z) (indexes : list Z)
    (resolution_len : Z) : mres (option Z) :=
  match indexes with
  | [] => Ok None
  | index :: indexes =>
      match fuel with
      | O => Panic
      | S fuel =>
          match zget v index with
          | Some (Some node) =>
              if bool_decide (Some index = to_find) || bool_decide (to_find = None) then
                Ok (Some resolution_len)
              else
                match node with
                | NodeParent p =>
                    find_loop fuel v to_find (reverse (node_index <$> unmerged_leaves p) ++ indexes)
                      (resolution_len + 1)
                | NodeLeaf _ => find_loop fuel v to_find indexes (resolution_len + 1)
                end
          | _ =>
              if negb (is_leaf index) then
                find_loop fuel v to_find
                  (left_unchecked 32 index :: right_unchecked 32 index :: indexes) resolution_len
              else find_loop fuel v to_find indexes resolution_len
          end
      end
  end.

Definition unmerged_count (v : NodeVec) : nat :=
  foldr (fun n acc => match n with Some (NodeParent p) => length (unmerged_leaves p) | _ => 0 end + acc)%nat
    0%nat v.

Definition find_in_resolution (v : NodeVec) (index : Z) (to_find : option Z) : mres (option Z) :=
  find_loop (Z.to_nat (2 ^ (trailing_ones index + 1)) + unmerged_count v) v to_find [index] 0.

Definition is_resolution_empty (v : NodeVec) (index : Z) : mres bool :=
  (fun o : option Z => match o with None => true | Some _ => false end)
    <$> find_in_resolution v index None.

Fixpoint mapM_res {E A B} (f : A -> res E B) (l : list A) : res E (list B) :=
  match l with
  | [] => Ok []
  | x :: l => y ← f x; ys ← mapM_res f l; Ok (y :: ys)
  end.

Definition filtered (v : NodeVec) (index : Z) : mres (list bool) :=
  mapM_res (fun cp => is_resolution_empty v (copath cp))
    (direct_copath 32 (node_index index) (total_leaf_count v)).

(** ** Adding leaves *)

Fixpoint next_empty_loop (fuel : nat) (v : NodeVec) (n : Z) : mres Z :=
  if n <? zlen v then
    match fuel with
    | O => Panic
    | S fuel =>
        match zget v n with
        | Some None => Ok (leaf_from_node_index_unchecked (wrap 32 n))
        | _ => next_empty_loop fuel v (n + 2)
        end
    end
  else Ok (leaf_from_node_index_unchecked (wrap 32 (wrap 32 (zlen v) + 1))).

Definition next_empty_leaf (v : NodeVec) (start : Z) : mres Z :=
  next_empty_loop (length v) v (node_index start).

(** [self.0[node_index] = Some(leaf)] panics out of range. *)
Definition insert_leaf (index : Z) (leaf : LeafNode) (v : NodeVec) : mres NodeVec :=
  let node_index := index * 2 in
  let v :=
    if zlen v <? node_index then v ++ [None; None]
    else match v with [] => [None] | _ => v end in
  if node_index <? zlen v then Ok (zset v node_index (Some (NodeLeaf leaf))) else Panic.

(** ** Resolutions *)

Fixpoint resolution (v : NodeVec) (k : nat) (j : Z) : list Z :=
  match zget v (node (Z.of_nat k) j) with
  | Some (Some n) =>
      node (Z.of_nat k) j ::
        match n with NodeParent p => node_index <$> unmerged_leaves p | NodeLeaf _ => [] end
  | _ =>
      match k with
      | O => []
      | S k => resolution v k (2 * j) ++ resolution v k (2 * j + 1)
      end
  end.

Lemma resolution_present v k j n :
  zget v (node (Z.of_nat k) j) = Some (Some n) ->
  resolution v k j = node (Z.of_nat k) j ::
    match n with NodeParent p => node_index <$> unmerged_leaves p | NodeLeaf _ => [] end.
Proof. intros H. destruct k; cbn [resolution]; by rewrite H. Qed.

Lemma resolution_blank v k j :
  (forall n, zget v (node (Z.of_nat k) j) <> Some (Some n)) ->
  resolution v k j =
    match k with O => [] | S k => resolution v k (2 * j) ++ resolution v k (2 * j + 1) end.
Proof.
  intros H. destruct k; cbn [resolution];
    destruct (zget v _) as [[n|]|] eqn:E; try done; by destruct (H n).
Qed.

(** The children of a parent node, and the absence of children of a leaf. *)
Lemma node_children_unchecked k j :
  Z.of_nat (S k) < 32 -> 0 <= j ->
  is_leaf (node (Z.of_nat (S k)) j) = false /\
  left_unchecked 32 (node (Z.of_nat (S k)) j) = node (Z.of_nat k) (2 * j) /\
  right_unchecked 32 (node (Z.of_nat (S k)) j) = node (Z.of_nat k) (2 * j + 1).
Proof.
  intros Hk Hj. rewrite (is_leaf_node 32), left_unchecked_node, right_unchecked_node by lia.
  replace (Z.of_nat (S k) - 1) with (Z.of_nat k) by lia.
  split; [apply Z.eqb_neq; lia|done].
Qed.

Definition subtree_size (k : nat) : nat := (2 ^ S k - 1)%nat.

Lemma subtree_size_S k : subtree_size (S k) = (2 * subtree_size k + 1)%nat.
Proof.
  unfold subtree_size. pose proof (Nat.pow_nonzero 2 (S k) ltac:(lia)) as Hx.
  rewrite (Nat.pow_succ_r' 2 (S k)). revert Hx. generalize (2 ^ S k)%nat. lia.
Qed.

Lemma subtree_size_0 : subtree_size 0 = 1%nat.
Proof. done. Qed.

(** Either a node is occupied or it is blank. *)
Lemma node_cases (v : NodeVec) i :
  (exists n, zget v i = Some (Some n)) \/ (forall n, zget v i <> Some (Some n)).
Proof. destruct (zget v i) as [[n|]|]; [left; eauto|right; naive_solver..]. Qed.

Lemma blank_match {A} (v : NodeVec) i (f : Node -> A) (x : A) :
  (forall n, zget v i <> Some (Some n)) ->
  match zget v i with Some (Some n) => f n | _ => x end = x.
Proof. intros H. destruct (zget v i) as [[n|]|]; [by destruct (H n)|done..]. Qed.

Lemma resolution_loop_step v k j :
  Z.of_nat k < 32 -> 0 <= j -> forall fuel stack acc, (subtree_size k <= fuel)%nat ->
  exists fuel', (fuel - subtree_size k <= fuel')%nat /\
    resolution_loop fuel v (node (Z.of_nat k) j :: stack) acc =
    resolution_loop fuel' v stack (acc ++ resolution v k j).
Proof.
  revert j. induction k as [|k IH]; intros j Hk Hj fuel stack acc Hf;
    (destruct fuel as [|fuel]; [rewrite ?subtree_size_S, ?subtree_size_0 in Hf; lia|]);
    cbn [resolution_loop].
  - destruct (node_cases v (node (Z.of_nat 0) j)) as [[n Hn]|Hn].
    + rewrite (resolution_present v 0 j n Hn), Hn, subtree_size_0. exists fuel. split; [lia|].
      destruct n; [done|]. by rewrite <- app_assoc.
    + rewrite blank_match, (resolution_blank v 0 j Hn), app_nil_r by done.
      rewrite (is_leaf_node 32) by lia. exists fuel. split; [rewrite subtree_size_0; lia|done].
  - destruct (node_cases v (node (Z.of_nat (S k)) j)) as [[n Hn]|Hn].
    + rewrite (resolution_present v (S k) j n Hn), Hn. exists fuel. rewrite subtree_size_S.
      split; [lia|]. destruct n; [done|]. by rewrite <- app_assoc.
    + rewrite blank_match, (resolution_blank v (S k) j Hn) by done.
      destruct (node_children_unchecked k j Hk Hj) as (-> & -> & ->). cbn [negb].
      rewrite subtree_size_S in Hf.
      destruct (IH (2 * j) ltac:(lia) ltac:(lia) fuel (node (Z.of_nat k) (2 * j + 1) :: stack) acc
        ltac:(lia)) as (f1 & Hf1 & ->).
      destruct (IH (2 * j + 1) ltac:(lia) ltac:(lia) f1 stack (acc ++ resolution v k (2 * j))
        ltac:(lia)) as (f2 & Hf2 & ->).
      exists f2. rewrite subtree_size_S, app_assoc. split; [lia|done].
Qed.

Lemma resolution_fuel k j : Z.of_nat k < 32 -> 0 <= j ->
  Z.to_nat (2 ^ (trailing_ones (node (Z.of_nat k) j) + 1)) = S (subtree_size k).
Proof.
  intros Hk Hj. rewrite trailing_ones_node by lia. unfold subtree_size.
  pose proof (Nat.pow_nonzero 2 (S k) ltac:(lia)) as Hx.
  replace (Z.of_nat k + 1) with (Z.of_nat (S k)) by lia.
  change 2 with (Z.of_nat 2) at 1. rewrite <- Nat2Z.inj_pow, Nat2Z.id.
  revert Hx. generalize (2 ^ S k)%nat. lia.
Qed.

Lemma get_resolution_index_eq v k j :
  Z.of_nat k < 32 -> 0 <= j ->
  get_resolution_index v (node (Z.of_nat k) j) = Ok (resolution v k j).
Proof.
  intros Hk Hj. unfold get_resolution_index. rewrite resolution_fuel by done.
  destruct (resolution_loop_step v k j Hk Hj (S (subtree_size k)) [] [] ltac:(lia)) as (f & _ & ->).
  by destruct f.
Qed.

(** With nothing to find, the search stops at the first occupied node. *)
Lemma find_loop_step v k j :
  Z.of_nat k < 32 -> 0 <= j -> forall fuel stack n, (subtree_size k <= fuel)%nat ->
  (resolution v k j <> [] /\ find_loop fuel v None (node (Z.of_nat k) j :: stack) n = Ok (Some n)) \/
  (resolution v k j = [] /\ exists fuel', (fuel - subtree_size k <= fuel')%nat /\
     find_loop fuel v None (node (Z.of_nat k) j :: stack) n = find_loop fuel' v None stack n).
Proof.
  revert j. induction k as [|k IH]; intros j Hk Hj fuel stack n Hf;
    (destruct fuel as [|fuel]; [rewrite ?subtree_size_S, ?subtree_size_0 in Hf; lia|]);
    cbn [find_loop].
  - destruct (node_cases v (node (Z.of_nat 0) j)) as [[nd Hn]|Hn].
    + left. rewrite (resolution_present v 0 j nd Hn), Hn. split; [done|].
      by rewrite (bool_decide_eq_true_2 (None = None)), orb_true_r by done.
    + right. rewrite blank_match, (resolution_blank v 0 j Hn) by done. split; [done|].
      rewrite (is_leaf_node 32) by lia. exists fuel. split; [rewrite subtree_size_0; lia|done].
  - destruct (node_cases v (node (Z.of_nat (S k)) j)) as [[nd Hn]|Hn].
    + left. rewrite (resolution_present v (S k) j nd Hn), Hn. split; [done|].
      by rewrite (bool_decide_eq_true_2 (None = None)), orb_true_r by done.
    + rewrite blank_match, (resolution_blank v (S k) j Hn) by done.
      destruct (node_children_unchecked k j Hk Hj) as (-> & -> & ->). cbn [negb].
      rewrite subtree_size_S in *.
      destruct (IH (2 * j) ltac:(lia) ltac:(lia) fuel (node (Z.of_nat k) (2 * j + 1) :: stack) n
        ltac:(lia)) as [[Hr1 ->]|[Hr1 (f1 & Hf1 & ->)]].
      { left. split; [|done]. intros [? _]%app_eq_nil. done. }
      destruct (IH (2 * j + 1) ltac:(lia) ltac:(lia) f1 stack n ltac:(lia))
        as [[Hr2 ->]|[Hr2 (f2 & Hf2 & ->)]].
      { left. split; [|done]. intros [_ ?]%app_eq_nil. done. }
      right. rewrite Hr1, Hr2. split; [done|]. exists f2. split; [lia|done].
Qed.

Lemma is_resolution_empty_eq v k j :
  Z.of_nat k < 32 -> 0 <= j ->
  is_resolution_empty v (node (Z.of_nat k) j) = Ok (bool_decide (resolution v k j = [])).
Proof.
  intros Hk Hj. unfold is_resolution_empty, find_in_resolution. rewrite resolution_fuel by done.
  destruct (find_loop_step v k j Hk Hj (S (subtree_size k) + unmerged_count v) [] 0 ltac:(lia))
    as [[Hr ->]|[Hr (f & _ & ->)]].
  - by rewrite bool_decide_eq_false_2.
  - rewrite bool_decide_eq_true_2 by done. by destruct f.
Qed.

(** ** Looking nodes up *)

(** The node at an index, blank outside of the vector. *)
Definition nd (v : NodeVec) (i : Z) : option Node := default None (zget v i).

Lemma nd_app_blanks v n i : nd (v ++ replicate n None) i = nd v i.
Proof.
  unfold nd. destruct (Z.lt_ge_cases i (zlen v)) as [Hi|Hi]; [by rewrite zget_app_l|].
  rewrite zget_app_r by done. rewrite (proj2 (zget_None v i)) by lia. unfold zget.
  destruct (_ <? _); [done|]. destruct (replicate n None !! _) eqn:E; [|done].
  apply lookup_replicate in E as [-> _]. done.
Qed.

Lemma nd_zset_eq v i n : 0 <= i < zlen v -> nd (zset v i n) i = n.
Proof. intros Hi. unfold nd. by rewrite zget_zset_eq. Qed.

Lemma nd_zset_ne v i i' n : i <> i' -> nd (zset v i n) i' = nd v i'.
Proof. intros Hi. unfold nd. by rewrite zget_zset_ne. Qed.

Lemma nd_bound v i n : nd v i = Some n -> 0 <= i < zlen v.
Proof. unfold nd. intros H. destruct (zget v i) eqn:E; [|done]. by eapply zget_Some_bound. Qed.

Lemma nd_zget v i n : nd v i = Some n <-> zget v i = Some (Some n).
Proof. unfold nd. destruct (zget v i) as [[]|]; naive_solver. Qed.

Lemma trim_rev_split r :
  exists n, r = replicate n None ++ trim_rev r /\ forall x r', trim_rev r = x :: r' -> x <> None.
Proof.
  induction r as [|[x|] r IH].
  - by exists 0%nat.
  - exists 0%nat. split; [done|]. by intros y r' [= <-].
  - destruct IH as (n & E & IH). exists (S n). cbn [trim_rev replicate app].
    split; [by f_equal|exact IH].
Qed.

(** Trimming drops exactly the trailing blanks. *)
Lemma trim_spec v :
  exists n, v = trim v ++ replicate n None /\ forall l x, trim v = l ++ [x] -> x <> None.
Proof.
  destruct (trim_rev_split (reverse v)) as (n & E & Hx). exists n. split.
  - unfold trim. rewrite <- (reverse_involutive v) at 1. rewrite E at 1.
    by rewrite reverse_app, reverse_replicate.
  - intros l x Hl. unfold trim in Hl. apply (Hx x (reverse l)).
    rewrite <- (reverse_involutive (trim_rev _)), Hl. by rewrite reverse_snoc.
Qed.

Lemma nd_trim v i : nd (trim v) i = nd v i.
Proof. destruct (trim_spec v) as (n & E & _). rewrite E at 2. by rewrite nd_app_blanks. Qed.

(** ** Iterating over the nodes *)

Lemma elem_of_enumerate {A} (l : list A) i x : (i, x) ∈ enumerate l <-> zget l i = Some x.
Proof.
  unfold enumerate, zget. rewrite list_elem_of_lookup. setoid_rewrite lookup_zip_Some. split.
  - intros (m & Hm & Hx). apply lookup_seqZ in Hm as [-> Hm].
    destruct (Z.ltb_spec (0 + Z.of_nat m) 0); [lia|]. by replace (Z.to_nat (0 + Z.of_nat m)) with m by lia.
  - destruct (Z.ltb_spec i 0); [done|]. intros Hx. exists (Z.to_nat i). split; [|done].
    apply lookup_seqZ. apply lookup_lt_Some in Hx. unfold zlen. lia.
Qed.

Lemma lookup_step_by_2 {A} (l : list A) (n : nat) : step_by_2 l !! n = l !! (2 * n)%nat.
Proof.
  revert l. induction n as [|n IH]; intros l; [by destruct l|].
  replace (2 * S n)%nat with (S (S (2 * n))) by lia. destruct l as [|x [|y l]]; [done|done|].
  cbn [step_by_2 lookup list_lookup]. apply IH.
Qed.

Lemma zget_leaves v i : zget (leaves v) i = (fun n => res_ok (as_leaf n)) <$> zget v (2 * i).
Proof.
  unfold zget, leaves. destruct (Z.ltb_spec i 0), (Z.ltb_spec (2 * i) 0); try lia; [done|].
  rewrite list_lookup_fmap, lookup_step_by_2. do 2 f_equal. lia.
Qed.

Lemma elem_of_non_empty_leaves v i l :
  (i, l) ∈ non_empty_leaves v <-> nd v (2 * i) = Some (NodeLeaf l).
Proof.
  unfold non_empty_leaves. rewrite list_elem_of_omap, nd_zget. split.
  - intros ([i' o] & Hin%elem_of_enumerate & Ho). destruct o as [l'|]; [|done]. injection Ho as -> ->.
    rewrite zget_leaves in Hin. apply fmap_Some in Hin as ([[l''|]|] & -> & E); simpl in E; congruence.
  - intros E. exists (i, Some l). split; [|done]. apply elem_of_enumerate. by rewrite zget_leaves, E.
Qed.

Lemma elem_of_non_empty_parents v x p :
  (x, p) ∈ non_empty_parents v <-> nd v x = Some (NodeParent p) /\ Z.odd x = true.
Proof.
  unfold non_empty_parents. rewrite list_elem_of_omap, nd_zget. split.
  - intros ([x' o] & Hin & Ho). destruct o as [[l'|p']|]; simplify_eq/=.
    apply list_elem_of_lookup in Hin as [n Hn]. rewrite lookup_step_by_2, lookup_drop in Hn.
    assert (zget v x = Some (Some (NodeParent p))) as E by (apply elem_of_enumerate, list_elem_of_lookup; by eexists).
    split; [done|]. unfold enumerate in Hn. apply lookup_zip_Some in Hn as [Hn _].
    apply lookup_seqZ in Hn as [-> _]. apply Z.odd_spec. exists (Z.of_nat n). lia.
  - intros [E [m Hm]%Z.odd_spec]. exists (x, Some (NodeParent p)). split; [|done].
    pose proof (zget_Some_bound _ _ _ E). apply list_elem_of_lookup. exists (Z.to_nat m).
    rewrite lookup_step_by_2, lookup_drop. unfold enumerate. apply lookup_zip_Some. split.
    + apply lookup_seqZ. unfold zlen in *. lia.
    + unfold zget in E. destruct (Z.ltb_spec x 0); [done|]. rewrite <- E. f_equal. lia.
Qed.

(** ** Adding leaves *)

(** The vector is empty or ends with a leaf, and its indices are far from
    the limits of the index types: a leaf index has at most 24 bits. *)
Definition leaf_shaped (v : NodeVec) : Prop :=
  (v = [] \/ Z.odd (zlen v) = true) /\ zlen v <= 2 ^ 25.

Lemma node_index_eq i : 0 <= i < 2 ^ 31 -> node_index i = 2 * i.
Proof. intros Hi. unfold node_index. rewrite wrap_small; [lia|]. unfold in_uint. lia. Qed.

Lemma total_leaf_count_pow v :
  zlen v <= 2 ^ 26 ->
  exists d, 0 <= d <= 26 /\ total_leaf_count v = 2 ^ d /\ zlen v <= 2 * 2 ^ d - 1.
Proof.
  intros Hv. pose proof (zlen_nonneg v). unfold total_leaf_count.
  rewrite wrap_small by (unfold in_uint; lia).
  exists (Z.log2_up (zlen v `div` 2 + 1)). split.
  - split; [apply Z.log2_up_nonneg|]. rewrite <- (Z.log2_up_pow2 26) by lia.
    apply Z.log2_up_le_mono. change (2 ^ 26) with 67108864 in *. divlia.
  - split; [done|]. pose proof (next_power_of_two_ge (zlen v `div` 2 + 1)) as Hge.
    unfold next_power_of_two in Hge. divlia.
Qed.

Lemma next_empty_loop_spec v fuel n :
  zlen v <= 2 ^ 25 -> (v = [] \/ Z.odd (zlen v) = true) -> 0 <= n -> 2 * n <= zlen v + 1 ->
  zlen v - 2 * n <= Z.of_nat fuel ->
  exists i, next_empty_loop fuel v (2 * n) = Ok i /\ n <= i /\ nd v (2 * i) = None /\
    (forall i', n <= i' < i -> is_Some (nd v (2 * i'))) /\
    (2 * i < zlen v \/ (v <> [] /\ 2 * i = zlen v + 1) \/ (v = [] /\ i = 0)).
Proof.
  intros Hlen Hodd. revert n. induction fuel as [|fuel IH]; intros n Hn Hn2 Hf; cbn [next_empty_loop].
  all: destruct (Z.ltb_spec (2 * n) (zlen v)) as [Hlt|Hge]; [try lia|].
  1, 3: exists n; pose proof (zlen_nonneg v);
    rewrite (wrap_small 32 (zlen v)), wrap_small by (unfold in_uint; lia);
    unfold leaf_from_node_index_unchecked; rewrite Z.shiftr_div_pow2 by lia; change (2 ^ 1) with 2;
    (assert (nd v (2 * n) = None) as Hnone
      by (unfold nd; by rewrite (proj2 (zget_None v (2 * n))) by lia));
    (assert ((zlen v + 1) `div` 2 = n /\ ((v <> [] /\ 2 * n = zlen v + 1) \/ (v = [] /\ n = 0))) as [-> ?];
     [destruct Hodd as [->|Hodd]; [change (zlen []) with 0 in *; split; [divlia|right; split; [done|lia]]|];
      apply Z.odd_spec in Hodd as [m Hm]; split; [divlia|left; split; [|lia]];
      intros ->; change (zlen []) with 0 in *; lia|]);
    (split; [done|]); (split; [lia|]); (split; [done|]); (split; [lia|tauto]).
  destruct (zget_is_Some v (2 * n) ltac:(lia)) as [[x|] Hx]; rewrite Hx.
  - replace (2 * n + 2) with (2 * (n + 1)) by lia.
    assert (2 * (n + 1) <= zlen v + 1) as Hn'.
    { destruct Hodd as [->|Hodd]; [change (zlen []) with 0 in *; lia|].
      apply Z.odd_spec in Hodd as [m Hm]. lia. }
    destruct (IH (n + 1) ltac:(lia) Hn' ltac:(lia)) as (i & Hi & Hge & Hnone & Hlow & Hend).
    exists i. split; [done|]. split; [lia|]. split; [done|]. split; [|done].
    intros i' Hi'. destruct (decide (i' = n)) as [->|]; [|apply Hlow; lia].
    unfold nd. rewrite Hx. simpl. eauto.
  - exists n. rewrite wrap_small by (unfold in_uint; lia).
    unfold leaf_from_node_index_unchecked. rewrite Z.shiftr_div_pow2 by lia. change (2 ^ 1) with 2.
    replace ((2 * n) `div` 2) with n by divlia. split; [done|]. split; [lia|].
    split; [unfold nd; by rewrite Hx|]. split; [lia|left; lia].
Qed.

Lemma insert_leaf_spec v i leaf :
  leaf_shaped v -> 0 <= i ->
  (2 * i < zlen v \/ (v <> [] /\ 2 * i = zlen v + 1) \/ (v = [] /\ i = 0)) ->
  exists v', insert_leaf i leaf v = Ok v' /\ nd v' (2 * i) = Some (NodeLeaf leaf) /\
    (forall x, x <> 2 * i -> nd v' x = nd v x) /\
    zlen v' = Z.max (zlen v) (2 * i + 1) /\ Z.odd (zlen v') = true.
Proof.
  intros [Hodd Hlen] Hi Hc. unfold insert_leaf.
  set (v1 := if zlen v <? i * 2 then v ++ [None; None] else match v with [] => [None] | _ => v end).
  assert (exists n, v1 = v ++ replicate n None) as [n Hv1].
  { unfold v1. case_match; [by exists 2%nat|]. destruct v; [by exists 1%nat|].
    exists 0%nat. by rewrite app_nil_r. }
  assert (i * 2 < zlen v1 /\ zlen v1 = Z.max (zlen v) (2 * i + 1) /\ Z.odd (zlen v1) = true)
    as (Hlt & Hmax & Hodd1).
  { unfold v1. destruct Hc as [Hc|[[Hne Hc]|[-> ->]]].
    - destruct (Z.ltb_spec (zlen v) (i * 2)); [lia|].
      destruct v as [|x v]; [change (zlen []) with 0 in *; lia|].
      split; [lia|]. split; [lia|]. by destruct Hodd.
    - destruct (Z.ltb_spec (zlen v) (i * 2)); [|lia]. rewrite zlen_app.
      change (zlen [None; None]) with 2. split; [lia|]. split; [lia|].
      destruct Hodd as [?|Hodd]; [done|]. rewrite Z.odd_add. by rewrite Hodd.
    - done. }
  destruct (Z.ltb_spec (i * 2) (zlen v1)); [|lia]. eexists. split; [done|].
  replace (i * 2) with (2 * i) in * by lia. split; [apply nd_zset_eq; lia|].
  split; [intros x Hx; rewrite nd_zset_ne by done; by rewrite Hv1, nd_app_blanks|].
  by rewrite zlen_zset.
Qed.

Lemma borrow_node_nd v i :
  0 <= i < zlen v -> borrow_node v i = Ok (nd v i).
Proof.
  intros Hi. unfold borrow_node, validate_index.
  pose proof (next_power_of_two_ge (zlen v)).
  by destruct (Z.leb_spec (next_power_of_two (zlen v)) i); [lia|].
Qed.

(** ** Theorems *)

(** The resolution of a node.  The stack loop terminates and returns the
    resolution of RFC 9420 (the node with its unmerged leaves if it is
    occupied, otherwise the resolutions of its children, left to right), and
    the search loop that decides whether a resolution is empty agrees with it. *)
Theorem resolution_correct (v : NodeVec) (k : nat) (j : Z)
    (Hk : Z.of_nat k < 32) (Hj : 0 <= j) :
  get_resolution_index v (node (Z.of_nat k) j) = Ok (resolution v k j) /\
  is_resolution_empty v (node (Z.of_nat k) j) = Ok (bool_decide (resolution v k j = [])).
Proof. split; [by apply get_resolution_index_eq|by apply is_resolution_empty_eq]. Qed.

Definition sample_vec : NodeVec :=
  [Some (NodeLeaf sample_leaf); Some (NodeParent (mk_parent [1] [] [1])); Some (NodeLeaf sample_leaf);
   None; Some (NodeLeaf sample_leaf)].

Lemma resolution_correct_witness :
  get_resolution_index sample_vec 3 = Ok [1; 2; 4] /\ is_resolution_empty sample_vec 6 = Ok true.
Proof.
  destruct (resolution_correct sample_vec 2 0 ltac:(lia) ltac:(lia)) as [H _].
  destruct (resolution_correct sample_vec 0 3 ltac:(lia) ltac:(lia)) as [_ H'].
  split; [exact H|exact H'].
Defined.

(** Adding a leaf.  Starting from the left, [next_empty_leaf] returns the
    first blank leaf or the one after the last, and inserting there succeeds:
    the leaf can be read back, and no other node changes. *)
Theorem leaf_insertion (v : NodeVec) (leaf : LeafNode) (Hv : leaf_shaped v) :
  exists i v', next_empty_leaf v 0 = Ok i /\ insert_leaf i leaf v = Ok v' /\
    (forall i', 0 <= i' < i -> is_Some (nd v (2 * i'))) /\ nd v (2 * i) = None /\
    borrow_as_leaf v' i = Ok leaf /\ (forall x, x <> 2 * i -> nd v' x = nd v x).
Proof.
  pose proof Hv as [Hodd Hlen]. pose proof (zlen_nonneg v).
  destruct (next_empty_loop_spec v (length v) 0) as (i & Hi & H0 & Hnone & Hlow & Hend);
    [done|done|lia|lia|unfold zlen; lia|].
  destruct (insert_leaf_spec v i leaf Hv H0 Hend) as (v' & Hv' & Hnd & Hother & Hz & _).
  exists i, v'. split; [exact Hi|]. split; [done|]. split; [done|]. split; [done|].
  split; [|done]. unfold borrow_as_leaf.
  assert (2 * i <= zlen v + 1) as Hib
    by (destruct Hend as [|[[]|[-> ->]]]; [lia|lia|change (zlen []) with 0; lia]).
  rewrite node_index_eq by lia. rewrite borrow_node_nd by lia. cbn [mbind res_bind].
  by rewrite Hnd.
Qed.

Lemma leaf_insertion_witness :
  exists i v', next_empty_leaf sample_vec 0 = Ok i /\ insert_leaf i sample_leaf sample_vec = Ok v' /\
    borrow_as_leaf v' i = Ok sample_leaf.
Proof.
  destruct (leaf_insertion sample_vec sample_leaf ltac:(split; [by right|done]))
    as (i & v' & H1 & H2 & _ & _ & H3 & _).
  exists i, v'. split; [exact H1|]. split; [exact H2|exact H3].
Defined.

(** C20: [insert_leaf] past the end.  Its documentation says that a leaf whose
    index does not fit is inserted as the last leaf; the code indexes the
    vector out of range instead and panics, unless the index is the next one. *)
Theorem insert_leaf_out_of_range (v : NodeVec) (i : Z) (leaf : LeafNode)
    (Hi : zlen v + 1 < 2 * i) :
  insert_leaf i leaf v = Panic.
Proof.
  unfold insert_leaf. destruct (Z.ltb_spec (zlen v) (i * 2)); [|lia].
  rewrite zlen_app. change (zlen [None; None]) with 2.
  by destruct (Z.ltb_spec (i * 2) (zlen v + 2)); [lia|].
Qed.

Lemma insert_leaf_out_of_range_witness : insert_leaf 4 sample_leaf sample_vec = Panic.
Proof. apply (insert_leaf_out_of_range sample_vec 4 sample_leaf). reflexivity. Defined.
