(* ===== verification/TreeIndex.v ===== *)
(** * The index of the ratchet tree

    Models mls-rs/src/tree_kem/tree_index.rs.  With the feature [tree_index] the
    library keeps, beside the node array, maps from signature keys, encryption
    keys and identities to leaves and counters of the credential and proposal
    types in use and supported; without the feature it scans all leaves.  The
    theorems show that the index implements the scan.

    [index_rep] relates an index to the list of occupied leaves.  The identity
    provider is a parameter; the theorems are about a provider that assigns an
    identity to every member. *)

From S2P Require Import Prelude Codec Crypto TreeMath Data NodeVec.

#[local] Set Default Goal Selector "!".
Local Open Scope Z_scope.

(** ** The index *)

Record TypeCounter := mk_type_counter { supported : Z; used : Z }.

Definition type_counter_default : TypeCounter := mk_type_counter 0 0.

Record TreeIndex := mk_tree_index {
  credential_signature_key : gmap bytes Z;
  hpke_key : gmap bytes Z;
  identities : gmap bytes Z;
  credential_type_counters : gmap Z TypeCounter;
  proposal_type_counter : gmap Z Z;
}.

Definition tree_index_new : TreeIndex := mk_tree_index ∅ ∅ ∅ ∅ ∅.

Definition is_initialized (t : TreeIndex) : bool := negb (bool_decide (identities t = ∅)).

Definition set_counters (t : TreeIndex) (c : gmap Z TypeCounter) : TreeIndex :=
  mk_tree_index (credential_signature_key t) (hpke_key t) (identities t) c (proposal_type_counter t).

(** [entry(cred_type).or_default().supported += 1] for each type. *)
Definition add_supported (types : list Z) (m : gmap Z TypeCounter) : gmap Z TypeCounter :=
  foldl (fun m ty =>
           let c := default type_counter_default (m !! ty) in
           <[ty := mk_type_counter (wrap 32 (supported c + 1)) (used c)]> m) m types.

(** [*entry(proposal_type).or_default() += 1] for each type. *)
Definition add_proposals (types : list Z) (m : gmap Z Z) : gmap Z Z :=
  foldl (fun m ty => <[ty := wrap 32 (default 0 (m !! ty) + 1)]> m) m types.

Definition tree_index_insert (index : Z) (leaf_node : LeafNode) (id : bytes) :
    SM TreeIndex MlsError unit := fun t =>
  let old_leaf_count := Z.of_nat (size (credential_signature_key t)) in
  let pub_key := signature_key (signing_identity leaf_node) in
  match credential_signature_key t !! pub_key with
  | Some i => (Err (DuplicateLeafData i), t)
  | None =>
  match hpke_key t !! leaf_public_key leaf_node with
  | Some i => (Err (DuplicateLeafData i), t)
  | None =>
  match identities t !! id with
  | Some i => (Err (DuplicateLeafData i), t)
  | None =>
      let credentials := cap_credentials (capabilities leaf_node) in
      if existsb (fun '(ty, c) => (0 <? used c) && negb (bool_decide (ty ∈ credentials)))
           (map_to_list (credential_type_counters t))
      then (Err InUseCredentialTypeUnsupportedByNewLeaf, t)
      else
        let ty := credential_type (credential (signing_identity leaf_node)) in
        let c := default type_counter_default (credential_type_counters t !! ty) in
        if negb (supported c =? wrap 32 old_leaf_count) then
          (Err CredentialTypeOfNewLeafIsUnsupported,
           set_counters t (<[ty := c]> (credential_type_counters t)))
        else
          let counters :=
            <[ty := mk_type_counter (supported c) (wrap 32 (used c + 1))]>
              (credential_type_counters t) in
          (Ok tt,
           mk_tree_index
             (<[pub_key := index]> (credential_signature_key t))
             (<[leaf_public_key leaf_node := index]> (hpke_key t))
             (<[id := index]> (identities t))
             (add_supported (remove_dups credentials) counters)
             (add_proposals (remove_dups (cap_proposals (capabilities leaf_node)))
                (proposal_type_counter t)))
  end
  end
  end.

Definition get_leaf_index_with_identity (t : TreeIndex) (id : bytes) : option Z :=
  identities t !! id.

(** [if let Some(counters) = get_mut(cred_type) { counters.supported -= 1 }]. *)
Definition sub_supported (types : list Z) (m : gmap Z TypeCounter) : gmap Z TypeCounter :=
  foldl (fun m ty => alter (fun c => mk_type_counter (wrap 32 (supported c - 1)) (used c)) ty m) m types.

Definition sub_proposals (types : list Z) (m : gmap Z Z) : gmap Z Z :=
  foldl (fun m ty => alter (fun c => wrap 32 (c - 1)) ty m) m types.

Definition tree_index_remove (leaf_node : LeafNode) (id : bytes) (t : TreeIndex) : TreeIndex :=
  let existed := bool_decide (is_Some (identities t !! id)) in
  let csk := delete (signature_key (signing_identity leaf_node)) (credential_signature_key t) in
  let hk := delete (leaf_public_key leaf_node) (hpke_key t) in
  let ids := delete id (identities t) in
  if negb existed then
    mk_tree_index csk hk ids (credential_type_counters t) (proposal_type_counter t)
  else
    let ty := credential_type (credential (signing_identity leaf_node)) in
    let counters :=
      alter (fun c => mk_type_counter (supported c) (wrap 32 (used c - 1))) ty
        (credential_type_counters t) in
    mk_tree_index csk hk ids
      (sub_supported (remove_dups (cap_credentials (capabilities leaf_node))) counters)
      (sub_proposals (remove_dups (cap_proposals (capabilities leaf_node))) (proposal_type_counter t)).

Definition count_supporting_proposal (t : TreeIndex) (proposal_type : Z) : Z :=
  default 0 (proposal_type_counter t !! proposal_type).

Section insertion.
Context {idp : IdentityProvider}.

(** [index_insert] with the feature [tree_index]. *)
Definition index_insert (new_leaf : LeafNode) (new_leaf_idx : Z) (extensions : ExtensionList) :
    SM TreeIndex MlsError unit :=
  new_id ← sm_lift (from_identity (identity (signing_identity new_leaf) extensions));
  tree_index_insert new_leaf_idx new_leaf new_id.

(** [index_insert] without the feature: the scan. *)
Fixpoint scan_leaves (new_leaf : LeafNode) (new_id : bytes) (extensions : ExtensionList)
    (ls : list (Z * LeafNode)) : mres unit :=
  match ls with
  | [] => Ok tt
  | (i, leaf) :: ls =>
      _ ← guard_or (DuplicateLeafData i)
            (negb (bool_decide (leaf_public_key new_leaf = leaf_public_key leaf)));
      _ ← guard_or (DuplicateLeafData i)
            (negb (bool_decide (signature_key (signing_identity new_leaf)
                                = signature_key (signing_identity leaf))));
      id ← from_identity (identity (signing_identity leaf) extensions);
      _ ← guard_or (DuplicateLeafData i) (negb (bool_decide (new_id = id)));
      let cred_type := credential_type (credential (signing_identity leaf)) in
      _ ← guard_or InUseCredentialTypeUnsupportedByNewLeaf
            (bool_decide (cred_type ∈ cap_credentials (capabilities new_leaf)));
      let new_cred_type := credential_type (credential (signing_identity new_leaf)) in
      _ ← guard_or CredentialTypeOfNewLeafIsUnsupported
            (bool_decide (new_cred_type ∈ cap_credentials (capabilities leaf)));
      scan_leaves new_leaf new_id extensions ls
  end.

Definition index_insert_scan (ls : list (Z * LeafNode)) (new_leaf : LeafNode) (new_leaf_idx : Z)
    (extensions : ExtensionList) : mres unit :=
  new_id ← from_identity (identity (signing_identity new_leaf) extensions);
  scan_leaves new_leaf new_id extensions (List.filter (fun '(i, _) => negb (i =? new_leaf_idx)) ls).
End insertion.

(** ** Counting *)

Notation leaf_key l := (signature_key (signing_identity l)) (only parsing).
Notation leaf_type l := (credential_type (credential (signing_identity l))) (only parsing).

Definition count (P : LeafNode -> bool) (ls : list (Z * LeafNode)) : Z :=
  zlen (List.filter (fun il => P il.2) ls).

Definition supports (ty : Z) (l : LeafNode) : bool :=
  bool_decide (ty ∈ cap_credentials (capabilities l)).
Definition supports_proposal (ty : Z) (l : LeafNode) : bool :=
  bool_decide (ty ∈ cap_proposals (capabilities l)).
Definition has_type (ty : Z) (l : LeafNode) : bool := bool_decide (leaf_type l = ty).

Lemma count_cons P i l ls : count P ((i, l) :: ls) = count P ls + if P l then 1 else 0.
Proof. unfold count, zlen. simpl. destruct (P l); simpl; lia. Qed.

Lemma count_bound P ls : 0 <= count P ls <= zlen ls.
Proof.
  unfold count, zlen. split; [lia|]. pose proof (List.filter_length_le (fun il => P il.2) ls). lia.
Qed.

Lemma count_perm P ls ls' : ls ≡ₚ ls' -> count P ls = count P ls'.
Proof.
  induction 1 as [|[i l] ls ls' _ IH|[i l] [i' l'] ls|ls1 ls2 ls3 _ IH1 _ IH2];
    [done|by rewrite !count_cons, IH| |congruence].
  rewrite !count_cons. lia.
Qed.

Lemma count_pos P ls : 0 < count P ls <-> exists i l, (i, l) ∈ ls /\ P l = true.
Proof.
  induction ls as [|[i l] ls IH].
  - split; [done|]. intros (? & ? & ?%elem_of_nil & _). done.
  - rewrite count_cons. pose proof (count_bound P ls). setoid_rewrite elem_of_cons.
    destruct (P l) eqn:E; split.
    + intros _. exists i, l. by split; [left|].
    + lia.
    + intros H'. destruct (proj1 IH ltac:(lia)) as (i' & l' & ? & ?). exists i', l'. by split; [right|].
    + intros (i' & l' & [[= -> ->]|Hin] & Hp); [congruence|].
      assert (0 < count P ls) by (apply IH; eauto). lia.
Qed.

Lemma count_all P ls : count P ls = zlen ls <-> forall i l, (i, l) ∈ ls -> P l = true.
Proof.
  induction ls as [|[i l] ls IH].
  - split; [|done]. intros _ ? ? ?%elem_of_nil. done.
  - rewrite count_cons. pose proof (count_bound P ls).
    assert (zlen ((i, l) :: ls) = zlen ls + 1) as -> by (unfold zlen; simpl; lia).
    setoid_rewrite elem_of_cons. destruct (P l) eqn:E; split.
    + intros H' i' l' [[= -> ->]|Hin]; [done|]. by eapply (proj1 IH ltac:(lia)).
    + intros H'. rewrite (proj2 IH); [lia|]. intros i' l' Hin. apply (H' i'). by right.
    + lia.
    + intros H'. rewrite (H' i l) in E by (by left). done.
Qed.

(** ** Counters *)

Definition ctr (m : gmap Z TypeCounter) (ty : Z) : TypeCounter :=
  default type_counter_default (m !! ty).

Lemma add_supported_lookup types m ty :
  NoDup types ->
  ctr (add_supported types m) ty =
    if bool_decide (ty ∈ types) then mk_type_counter (wrap 32 (supported (ctr m ty) + 1)) (used (ctr m ty))
    else ctr m ty.
Proof.
  revert m. induction types as [|x types IH]; intros m Hnd.
  { by rewrite bool_decide_eq_false_2 by apply not_elem_of_nil. }
  apply NoDup_cons in Hnd as [Hx Hnd]. unfold add_supported in *. simpl. rewrite IH by done.
  destruct (decide (ty = x)) as [->|Hne].
  - rewrite (bool_decide_eq_false_2 (x ∈ types)), (bool_decide_eq_true_2 (x ∈ x :: types))
      by (done || left). unfold ctr. by rewrite lookup_insert_eq.
  - unfold ctr. rewrite lookup_insert_ne by done.
    rewrite (bool_decide_ext (ty ∈ x :: types) (ty ∈ types)) by (rewrite elem_of_cons; naive_solver).
    done.
Qed.

Lemma sub_supported_lookup types m ty :
  NoDup types ->
  sub_supported types m !! ty =
    if bool_decide (ty ∈ types)
    then (fun c => mk_type_counter (wrap 32 (supported c - 1)) (used c)) <$> m !! ty
    else m !! ty.
Proof.
  revert m. induction types as [|x types IH]; intros m Hnd.
  { by rewrite bool_decide_eq_false_2 by apply not_elem_of_nil. }
  apply NoDup_cons in Hnd as [Hx Hnd]. unfold sub_supported in *. simpl. rewrite IH by done.
  destruct (decide (ty = x)) as [->|Hne].
  - rewrite (bool_decide_eq_false_2 (x ∈ types)), (bool_decide_eq_true_2 (x ∈ x :: types))
      by (done || left). by rewrite lookup_alter_eq.
  - rewrite lookup_alter_ne by done.
    by rewrite (bool_decide_ext (ty ∈ x :: types) (ty ∈ types)) by (rewrite elem_of_cons; naive_solver).
Qed.

Lemma add_proposals_lookup types m ty :
  NoDup types ->
  default 0 (add_proposals types m !! ty) =
    if bool_decide (ty ∈ types) then wrap 32 (default 0 (m !! ty) + 1) else default 0 (m !! ty).
Proof.
  revert m. induction types as [|x types IH]; intros m Hnd.
  { by rewrite bool_decide_eq_false_2 by apply not_elem_of_nil. }
  apply NoDup_cons in Hnd as [Hx Hnd]. unfold add_proposals in *. simpl. rewrite IH by done.
  destruct (decide (ty = x)) as [->|Hne].
  - rewrite (bool_decide_eq_false_2 (x ∈ types)), (bool_decide_eq_true_2 (x ∈ x :: types))
      by (done || left). by rewrite lookup_insert_eq.
  - rewrite lookup_insert_ne by done.
    by rewrite (bool_decide_ext (ty ∈ x :: types) (ty ∈ types)) by (rewrite elem_of_cons; naive_solver).
Qed.

Lemma sub_proposals_lookup types m ty :
  NoDup types ->
  sub_proposals types m !! ty =
    if bool_decide (ty ∈ types) then (fun c => wrap 32 (c - 1)) <$> m !! ty else m !! ty.
Proof.
  revert m. induction types as [|x types IH]; intros m Hnd.
  { by rewrite bool_decide_eq_false_2 by apply not_elem_of_nil. }
  apply NoDup_cons in Hnd as [Hx Hnd]. unfold sub_proposals in *. simpl. rewrite IH by done.
  destruct (decide (ty = x)) as [->|Hne].
  - rewrite (bool_decide_eq_false_2 (x ∈ types)), (bool_decide_eq_true_2 (x ∈ x :: types))
      by (done || left). by rewrite lookup_alter_eq.
  - rewrite lookup_alter_ne by done.
    by rewrite (bool_decide_ext (ty ∈ x :: types) (ty ∈ types)) by (rewrite elem_of_cons; naive_solver).
Qed.

Lemma lookup_alter_at {A} (f : A -> A) (m : gmap Z A) i j :
  alter f i m !! j = if decide (i = j) then f <$> m !! j else m !! j.
Proof. case_decide; [subst; apply lookup_alter_eq|by apply lookup_alter_ne]. Qed.

(** ** The index represents the leaves *)

(** [m] maps the key [f l] of every leaf to its index, and nothing else. *)
Definition key_rep (f : LeafNode -> bytes) (m : gmap bytes Z) (ls : list (Z * LeafNode)) : Prop :=
  forall k i, m !! k = Some i <-> exists l, (i, l) ∈ ls /\ f l = k.

Lemma key_rep_None f m ls k :
  key_rep f m ls -> m !! k = None <-> forall i l, (i, l) ∈ ls -> f l <> k.
Proof.
  intros Hm. split.
  - intros Hn i l Hin Hk. assert (m !! k = Some i) by (apply Hm; eauto). congruence.
  - intros H. destruct (m !! k) as [i|] eqn:E; [|done].
    apply Hm in E as (l & Hin & Hk). by destruct (H i l Hin).
Qed.

Lemma key_rep_insert f m ls i l :
  key_rep f m ls -> m !! f l = None -> key_rep f (<[f l := i]> m) ((i, l) :: ls).
Proof.
  intros Hm Hn k i'. setoid_rewrite elem_of_cons. destruct (decide (k = f l)) as [->|Hne].
  - rewrite lookup_insert_eq. split; [intros [= <-]; exists l; by split; [left|]|].
    intros (l' & [[= -> ->]|Hin] & Hk); [done|].
    exfalso. by eapply (key_rep_None f m ls (f l)).
  - rewrite lookup_insert_ne by done. rewrite (Hm k i'). naive_solver.
Qed.

Lemma key_rep_delete f m ls i l :
  NoDup ((i, l) :: ls).*1 -> key_rep f m ((i, l) :: ls) -> key_rep f (delete (f l) m) ls.
Proof.
  intros Hnd Hm k i'. rewrite fmap_cons in Hnd. apply NoDup_cons in Hnd as [Hi _].
  assert (forall l', (i, l') ∉ ls) as Hi'.
  { intros l' Hin. apply Hi. by apply (list_elem_of_fmap_2 fst _ _ Hin). }
  assert (m !! f l = Some i) as Hfl by (apply Hm; exists l; by split; [left|]).
  destruct (decide (k = f l)) as [->|Hne].
  - rewrite lookup_delete_eq. split; [done|]. intros (l' & Hin & Hk).
    assert (m !! f l = Some i') as E by (apply Hm; exists l'; by split; [right|]).
    rewrite Hfl in E. simplify_eq. by destruct (Hi' l').
  - rewrite lookup_delete_ne by done. rewrite (Hm k i'). setoid_rewrite elem_of_cons. naive_solver.
Qed.

Lemma key_rep_perm f m ls ls' : ls ≡ₚ ls' -> key_rep f m ls -> key_rep f m ls'.
Proof. intros Hp Hm k i. rewrite (Hm k i). by setoid_rewrite Hp. Qed.

Section representation.
Context (idf : SigningIdentity -> bytes).

Notation leaf_id l := (idf (signing_identity l)) (only parsing).

Record index_rep (t : TreeIndex) (ls : list (Z * LeafNode)) : Prop := {
  ir_nodup : NoDup ls.*1;
  ir_sig : key_rep (fun l => leaf_key l) (credential_signature_key t) ls;
  ir_hpke : key_rep leaf_public_key (hpke_key t) ls;
  ir_id : key_rep (fun l => leaf_id l) (identities t) ls;
  ir_size : size (credential_signature_key t) = length ls;
  ir_supported ty : supported (ctr (credential_type_counters t) ty) = count (supports ty) ls;
  ir_used ty : used (ctr (credential_type_counters t) ty) = count (has_type ty) ls;
  ir_proposals ty :
    default 0 (proposal_type_counter t !! ty) = count (supports_proposal ty) ls;
}.

Lemma index_rep_new : index_rep tree_index_new [].
Proof.
  assert (forall f, key_rep f ∅ []) as Hk.
  { intros f k i. rewrite lookup_empty. split; [done|]. intros (l & Hl & _).
    by apply not_elem_of_nil in Hl. }
  split; [constructor|apply Hk|apply Hk|apply Hk|done|done|done|done].
Qed.

Lemma index_rep_perm t ls ls' : ls ≡ₚ ls' -> index_rep t ls -> index_rep t ls'.
Proof.
  intros Hp []. split.
  - by rewrite <- Hp.
  - by eapply key_rep_perm.
  - by eapply key_rep_perm.
  - by eapply key_rep_perm.
  - by rewrite <- Hp.
  - intros ty. by rewrite <- (count_perm _ _ _ Hp).
  - intros ty. by rewrite <- (count_perm _ _ _ Hp).
  - intros ty. by rewrite <- (count_perm _ _ _ Hp).
Qed.

(** What a new leaf must satisfy with respect to a present one. *)
Definition compatible (new l : LeafNode) : Prop :=
  leaf_public_key new <> leaf_public_key l /\ leaf_key new <> leaf_key l /\
  leaf_id new <> leaf_id l /\ leaf_type l ∈ cap_credentials (capabilities new) /\
  leaf_type new ∈ cap_credentials (capabilities l).

Lemma in_use_spec t ls new :
  index_rep t ls ->
  existsb (fun '(ty, c) => (0 <? used c)
             && negb (bool_decide (ty ∈ cap_credentials (capabilities new))))
    (map_to_list (credential_type_counters t)) = false <->
  forall i l, (i, l) ∈ ls -> leaf_type l ∈ cap_credentials (capabilities new).
Proof.
  intros Ht. rewrite <- not_true_iff_false, existsb_exists. split.
  - intros H i l Hin. destruct (decide (leaf_type l ∈ cap_credentials (capabilities new))); [done|].
    exfalso. apply H.
    assert (0 < used (ctr (credential_type_counters t) (leaf_type l))) as Hu.
    { rewrite (ir_used t ls Ht). apply count_pos. exists i, l. split; [done|].
      by apply bool_decide_eq_true. }
    destruct (credential_type_counters t !! leaf_type l) as [c|] eqn:E;
      unfold ctr in Hu; rewrite E in Hu; [|done].
    exists (leaf_type l, c). split; [by apply list_elem_of_In, elem_of_map_to_list|].
    simpl in Hu. apply andb_true_iff. split; [by apply Z.ltb_lt|].
    by rewrite bool_decide_eq_false_2.
  - intros H ([ty c] & Hin & [Hu Hn]%andb_true_iff).
    apply list_elem_of_In, elem_of_map_to_list in Hin. apply Z.ltb_lt in Hu.
    assert (0 < count (has_type ty) ls) as Hc.
    { rewrite <- (ir_used t ls Ht). unfold ctr. by rewrite Hin. }
    apply count_pos in Hc as (i & l & Hil & Hty%bool_decide_eq_true). subst ty.
    rewrite bool_decide_eq_true_2 in Hn; [done|]. by eapply H.
Qed.

(** The index after a successful insertion. *)
Definition inserted (t : TreeIndex) (i : Z) (new : LeafNode) : TreeIndex :=
  let c := ctr (credential_type_counters t) (leaf_type new) in
  mk_tree_index
    (<[leaf_key new := i]> (credential_signature_key t))
    (<[leaf_public_key new := i]> (hpke_key t))
    (<[leaf_id new := i]> (identities t))
    (add_supported (remove_dups (cap_credentials (capabilities new)))
       (<[leaf_type new := mk_type_counter (supported c) (wrap 32 (used c + 1))]>
          (credential_type_counters t)))
    (add_proposals (remove_dups (cap_proposals (capabilities new))) (proposal_type_counter t)).

Lemma index_rep_inserted t ls i new :
  index_rep t ls -> i ∉ ls.*1 -> zlen ls + 1 < 2 ^ 32 ->
  credential_signature_key t !! leaf_key new = None ->
  hpke_key t !! leaf_public_key new = None -> identities t !! leaf_id new = None ->
  index_rep (inserted t i new) ((i, new) :: ls).
Proof.
  intros Ht Hi Hlen E1 E2 E3. pose proof Ht as []. pose proof count_bound as Hcb.
  split; unfold inserted; rewrite ?ir_supported0;
    cbn [credential_signature_key hpke_key identities credential_type_counters proposal_type_counter].
  - rewrite fmap_cons. by constructor.
  - by apply (key_rep_insert (fun l => leaf_key l)).
  - by apply key_rep_insert.
  - by apply (key_rep_insert (fun l => leaf_id l)).
  - by rewrite map_size_insert_None, ir_size0.
  - intros ty. rewrite add_supported_lookup by apply NoDup_remove_dups. rewrite count_cons.
      assert (forall c, supported (ctr (<[leaf_type new := mk_type_counter
        (count (supports (leaf_type new)) ls) c]> (credential_type_counters t)) ty)
        = count (supports ty) ls) as Hct.
      { intros c. unfold ctr. destruct (decide (ty = leaf_type new)) as [->|].
        * by rewrite lookup_insert_eq.
        * rewrite lookup_insert_ne by done. apply ir_supported0. }
      assert (supports ty new = bool_decide (ty ∈ remove_dups (cap_credentials (capabilities new))))
        as -> by (apply bool_decide_ext; by rewrite elem_of_remove_dups).
      pose proof (Hcb (supports ty) ls). destruct (bool_decide _); cbn [supported]; rewrite Hct; [|lia].
      apply wrap_small. unfold in_uint. lia.
  - intros ty. rewrite add_supported_lookup by apply NoDup_remove_dups. rewrite count_cons.
      pose proof (Hcb (has_type ty) ls).
      assert (used (ctr (<[leaf_type new := mk_type_counter (count (supports (leaf_type new)) ls)
        (wrap 32 (used (ctr (credential_type_counters t) (leaf_type new)) + 1))]>
        (credential_type_counters t)) ty)
        = count (has_type ty) ls + (if has_type ty new then 1 else 0)) as Hct.
      { unfold ctr. unfold has_type at 2. destruct (decide (ty = leaf_type new)) as [->|].
        * rewrite lookup_insert_eq, bool_decide_eq_true_2 by done. cbn [default used from_option id].
          fold (ctr (credential_type_counters t) (leaf_type new)). rewrite ir_used0.
          apply wrap_small. unfold in_uint. lia.
        * rewrite lookup_insert_ne, bool_decide_eq_false_2 by done.
          fold (ctr (credential_type_counters t) ty). rewrite ir_used0. lia. }
      by case_bool_decide; cbn [used]; rewrite Hct.
  - intros ty. rewrite add_proposals_lookup by apply NoDup_remove_dups. rewrite count_cons, ir_proposals0.
      assert (supports_proposal ty new = bool_decide (ty ∈ remove_dups (cap_proposals (capabilities new))))
        as -> by (apply bool_decide_ext; by rewrite elem_of_remove_dups).
      pose proof (Hcb (supports_proposal ty) ls). destruct (bool_decide _); [|lia].
      apply wrap_small. unfold in_uint. lia.
Qed.

Lemma tree_index_insert_spec t ls i new :
  index_rep t ls -> i ∉ ls.*1 -> zlen ls + 1 < 2 ^ 32 ->
  ((forall i' l, (i', l) ∈ ls -> compatible new l) /\
   exists t', tree_index_insert i new (leaf_id new) t = (Ok tt, t') /\ index_rep t' ((i, new) :: ls)) \/
  (~ (forall i' l, (i', l) ∈ ls -> compatible new l) /\
   exists e t', tree_index_insert i new (leaf_id new) t = (Err e, t') /\ index_rep t' ls).
Proof.
  intros Ht Hi Hlen. unfold tree_index_insert.
  destruct (credential_signature_key t !! leaf_key new) as [i1|] eqn:E1.
  { right. split; [|eauto]. intros Hc. apply (ir_sig t ls Ht) in E1 as (l & Hin & Hk).
    by destruct (Hc _ _ Hin) as (_ & ? & _). }
  destruct (hpke_key t !! leaf_public_key new) as [i2|] eqn:E2.
  { right. split; [|eauto]. intros Hc. apply (ir_hpke t ls Ht) in E2 as (l & Hin & Hk).
    by destruct (Hc _ _ Hin) as (? & _). }
  destruct (identities t !! leaf_id new) as [i3|] eqn:E3.
  { right. split; [|eauto]. intros Hc. apply (ir_id t ls Ht) in E3 as (l & Hin & Hk).
    by destruct (Hc _ _ Hin) as (_ & _ & ? & _). }
  destruct (existsb _ _) eqn:E4.
  { right. split; [|eauto]. intros Hc. apply not_false_iff_true in E4. apply E4.
    apply (in_use_spec t ls new Ht). intros i' l Hin. apply (Hc _ _ Hin). }
  pose proof (proj1 (in_use_spec t ls new Ht) E4) as E4'. clear E4. rename E4' into E4. fold (ctr (credential_type_counters t) (leaf_type new)).
  rewrite (ir_size t ls Ht), wrap_small by (unfold in_uint, zlen in *; lia).
  rewrite (ir_supported t ls Ht). change (Z.of_nat (length ls)) with (zlen ls).
  destruct (Z.eqb_spec (count (supports (leaf_type new)) ls) (zlen ls)) as [Hsup|Hsup]; cbn [negb].
  - left. assert (forall i' l, (i', l) ∈ ls -> compatible new l) as Hc.
    { intros i' l Hin. split; [|split; [|split; [|split]]].
      - intros ?. by eapply (key_rep_None _ _ _ _ (ir_hpke t ls Ht)).
      - intros ?. by eapply (key_rep_None _ _ _ _ (ir_sig t ls Ht)).
      - intros ?. by eapply (key_rep_None _ _ _ _ (ir_id t ls Ht)).
      - by eapply E4.
      - apply (proj1 (count_all _ _)) with (i := i') (l := l) in Hsup; [|done].
        by apply bool_decide_eq_true in Hsup. }
    split; [done|]. exists (inserted t i new). split; [|by apply index_rep_inserted].
    unfold inserted. by rewrite (ir_supported t ls Ht).
  - right. split.
    { intros Hc. apply Hsup. apply count_all. intros i' l Hin. apply bool_decide_eq_true.
      apply (Hc _ _ Hin). }
    eexists _, _. split; [done|]. pose proof Ht as [].
    assert (forall ty, ctr (<[leaf_type new := ctr (credential_type_counters t) (leaf_type new)]>
      (credential_type_counters t)) ty = ctr (credential_type_counters t) ty) as Hct.
    { intros ty. unfold ctr. destruct (decide (ty = leaf_type new)) as [->|].
      - by rewrite lookup_insert_eq.
      - by rewrite lookup_insert_ne. }
    split; try done; cbn; intros ty; by rewrite Hct.
Qed.

Lemma index_rep_remove t ls i l :
  zlen ls + 1 < 2 ^ 32 -> index_rep t ((i, l) :: ls) ->
  index_rep (tree_index_remove l (leaf_id l) t) ls.
Proof.
  intros Hlen Ht. pose proof Ht as []. pose proof count_bound as Hcb.
  assert (identities t !! leaf_id l = Some i) as Hid
    by (apply ir_id0; exists l; by split; [left|]).
  assert (credential_signature_key t !! leaf_key l = Some i) as Hsig
    by (apply ir_sig0; exists l; by split; [left|]).
  unfold tree_index_remove. rewrite Hid, bool_decide_eq_true_2 by eauto. cbn [negb].
  split; cbn [credential_signature_key hpke_key identities credential_type_counters proposal_type_counter].
  - rewrite fmap_cons in ir_nodup0. by inversion ir_nodup0.
  - by apply (key_rep_delete (fun l => leaf_key l) _ ls i l).
  - by apply (key_rep_delete leaf_public_key _ ls i l).
  - by apply (key_rep_delete (fun l => leaf_id l) _ ls i l).
  - rewrite map_size_delete, Hsig, ir_size0. simpl. lia.
  - intros ty. specialize (ir_supported0 ty). rewrite count_cons in ir_supported0.
    pose proof (Hcb (supports ty) ls).
    assert (supports ty l = bool_decide (ty ∈ remove_dups (cap_credentials (capabilities l)))) as Hs
      by (apply bool_decide_ext; by rewrite elem_of_remove_dups).
    unfold ctr in *. rewrite sub_supported_lookup, <- Hs by apply NoDup_remove_dups.
    rewrite lookup_alter_at. destruct (credential_type_counters t !! ty) as [c|] eqn:E; simpl in ir_supported0.
    + clear Hs. destruct (supports ty l), (decide (leaf_type l = ty)); simpl;
        first [lia | apply wrap_small_eq; unfold in_uint; lia].
    + clear Hs. destruct (supports ty l), (decide (leaf_type l = ty)); simpl; lia.
  - intros ty. specialize (ir_used0 ty). rewrite count_cons in ir_used0.
    pose proof (Hcb (has_type ty) ls).
    assert (has_type ty l = bool_decide (leaf_type l = ty)) as Hs by done. rewrite Hs in ir_used0.
    unfold ctr in *. rewrite sub_supported_lookup by apply NoDup_remove_dups.
    rewrite lookup_alter_at. destruct (credential_type_counters t !! ty) as [c|] eqn:E; simpl in ir_used0.
    + clear Hs. case_bool_decide as Hty; destruct (decide (leaf_type l = ty)); try done;
        destruct (bool_decide (ty ∈ _)); simpl;
        first [lia | apply wrap_small_eq; unfold in_uint; lia].
    + clear Hs. case_bool_decide as Hty; destruct (decide (leaf_type l = ty)); try done;
        destruct (bool_decide (ty ∈ _)); simpl; lia.
  - intros ty. specialize (ir_proposals0 ty). rewrite count_cons in ir_proposals0.
    pose proof (Hcb (supports_proposal ty) ls).
    assert (supports_proposal ty l = bool_decide (ty ∈ remove_dups (cap_proposals (capabilities l))))
      as Hs by (apply bool_decide_ext; by rewrite elem_of_remove_dups).
    rewrite sub_proposals_lookup, <- Hs by apply NoDup_remove_dups.
    destruct (proposal_type_counter t !! ty) as [c|] eqn:E;
      simpl in ir_proposals0; destruct (supports_proposal ty l); simpl; try lia.
    apply wrap_small_eq; unfold in_uint; lia.
Qed.

(** Any leaf can be removed. *)
Lemma without_leaf (ls : list (Z * LeafNode)) i l : NoDup ls.*1 -> (i, l) ∈ ls ->
  ls ≡ₚ (i, l) :: List.filter (fun '(j, _) => negb (j =? i)) ls.
Proof.
  induction ls as [|[j k] ls IH]; intros Hnd Hin; [by apply elem_of_nil in Hin|].
  rewrite fmap_cons in Hnd. apply NoDup_cons in Hnd as [Hj Hnd]. cbn [List.filter].
  apply elem_of_cons in Hin as [[= <- <-]|Hin].
  - rewrite Z.eqb_refl. cbn [negb]. f_equiv. rewrite List.forallb_filter_id; [done|]. apply forallb_forall.
    intros [j' k'] Hin%list_elem_of_In. apply negb_true_iff, Z.eqb_neq. intros ->. apply Hj.
    by apply (list_elem_of_fmap_2 fst _ _ Hin).
  - assert (j <> i) as Hne by (intros ->; apply Hj; by apply (list_elem_of_fmap_2 fst _ _ Hin)).
    destruct (Z.eqb_spec j i); [done|]. cbn [negb]. etrans; [apply perm_skip, (IH Hnd Hin)|apply Permutation_swap].
Qed.

Lemma index_rep_without t ls i l : zlen ls < 2 ^ 32 -> index_rep t ls -> (i, l) ∈ ls ->
  index_rep (tree_index_remove l (leaf_id l) t) (List.filter (fun '(j, _) => negb (j =? i)) ls).
Proof.
  intros Hlen Ht Hin. pose proof (without_leaf ls i l (ir_nodup _ _ Ht) Hin) as Hp.
  apply (index_rep_remove _ _ i); [|by apply (index_rep_perm _ ls)].
  apply Permutation_length in Hp. unfold zlen in *. simpl in Hp. lia.
Qed.

(** What an error says of the leaves. *)
Definition conflict (new : LeafNode) (ls : list (Z * LeafNode)) (e : MlsError) : Prop :=
  match e with
  | DuplicateLeafData j => exists l, (j, l) ∈ ls /\
      (leaf_public_key new = leaf_public_key l \/ leaf_key new = leaf_key l \/ leaf_id new = leaf_id l)
  | InUseCredentialTypeUnsupportedByNewLeaf => exists j l, (j, l) ∈ ls /\ leaf_type l ∉ cap_credentials (capabilities new)
  | CredentialTypeOfNewLeafIsUnsupported => exists j l, (j, l) ∈ ls /\ leaf_type new ∉ cap_credentials (capabilities l)
  | _ => False
  end.

Lemma incompatible_in (P : LeafNode -> Prop) (ls : list (Z * LeafNode)) : (forall l, Decision (P l)) ->
  ~ (forall i l, (i, l) ∈ ls -> P l) -> exists i l, (i, l) ∈ ls /\ ~ P l.
Proof.
  intros Hdec Hn. induction ls as [|[j k] ls IH]; [by destruct Hn; intros i l Hl%elem_of_nil|].
  destruct (Hdec k) as [Hk|Hk]; [|exists j, k; by split; [left|]].
  destruct IH as (i & l & Hin & Hl); [|exists i, l; by split; [right|]].
  intros Hall. apply Hn. intros i l [[= -> ->]|Hin]%elem_of_cons; [done|by eapply Hall].
Qed.

Lemma insert_conflict t ls i new e t' : index_rep t ls -> zlen ls < 2 ^ 32 ->
  tree_index_insert i new (leaf_id new) t = (Err e, t') -> conflict new ls e.
Proof.
  intros Ht Hlen. unfold tree_index_insert.
  destruct (credential_signature_key t !! leaf_key new) as [i1|] eqn:E1.
  { intros [= <- _]. apply (ir_sig t ls Ht) in E1 as (l & Hin & Hk). exists l. auto. }
  destruct (hpke_key t !! leaf_public_key new) as [i2|] eqn:E2.
  { intros [= <- _]. apply (ir_hpke t ls Ht) in E2 as (l & Hin & Hk). exists l. auto. }
  destruct (identities t !! leaf_id new) as [i3|] eqn:E3.
  { intros [= <- _]. apply (ir_id t ls Ht) in E3 as (l & Hin & Hk). exists l. auto. }
  destruct (existsb _ _) eqn:E4.
  { intros [= <- _]. apply (incompatible_in (fun l => leaf_type l ∈ cap_credentials (capabilities new))); [intros l; apply _|].
    rewrite <- (in_use_spec t ls new Ht). congruence. }
  fold (ctr (credential_type_counters t) (leaf_type new)).
  rewrite (ir_size t ls Ht), wrap_small by (unfold in_uint, zlen in *; lia).
  rewrite (ir_supported t ls Ht). change (Z.of_nat (length ls)) with (zlen ls).
  destruct (Z.eqb_spec (count (supports (leaf_type new)) ls) (zlen ls)) as [Hsup|Hsup]; cbn [negb]; [done|].
  intros [= <- _]. apply (incompatible_in (fun l => leaf_type new ∈ cap_credentials (capabilities l))); [intros l; apply _|].
  intros Hall. apply Hsup, count_all. intros j l Hin. apply bool_decide_eq_true. by eapply Hall.
Qed.

(** ** The scan *)

Lemma scan_leaves_ok {idp : IdentityProvider} ext new ls :
  (forall s, identity s ext = Ok (idf s)) ->
  is_ok (scan_leaves new (leaf_id new) ext ls) = true <->
  forall i l, (i, l) ∈ ls -> compatible new l.
Proof.
  intros Hid. induction ls as [|[i l] ls IH].
  - split; [|done]. intros _ i l Hl. by apply not_elem_of_nil in Hl.
  - cbn [scan_leaves]. rewrite Hid. setoid_rewrite elem_of_cons.
    assert ((forall i0 l0, (i0, l0) = (i, l) \/ (i0, l0) ∈ ls -> compatible new l0) <->
            compatible new l /\ (forall i0 l0, (i0, l0) ∈ ls -> compatible new l0)) as ->.
    { split; [intros H; split; [apply (H i l); by left|intros i0 l0 Hin; apply (H i0 l0); by right]|].
      intros [H1 H2] i0 l0 [[= -> ->]|Hin]; [done|]. by eapply H2. }
    unfold compatible at 1.
    destruct (bool_decide_reflect (leaf_public_key new = leaf_public_key l)); cbn [negb guard_or mbind res_bind from_identity map_err];
      [split; [done|intros [(? & _) _]; done]|].
    destruct (bool_decide_reflect (leaf_key new = leaf_key l)); cbn [negb guard_or mbind res_bind from_identity map_err];
      [split; [done|intros [(_ & ? & _) _]; done]|].
    destruct (bool_decide_reflect (leaf_id new = leaf_id l)); cbn [negb guard_or mbind res_bind from_identity map_err];
      [split; [done|intros [(_ & _ & ? & _) _]; done]|].
    destruct (bool_decide_reflect (leaf_type l ∈ cap_credentials (capabilities new))); cbn [negb guard_or mbind res_bind from_identity map_err];
      [|split; [done|intros [(_ & _ & _ & ? & _) _]; done]].
    destruct (bool_decide_reflect (leaf_type new ∈ cap_credentials (capabilities l))); cbn [negb guard_or mbind res_bind from_identity map_err];
      [|split; [done|intros [(_ & _ & _ & _ & ?) _]; done]].
    rewrite IH. tauto.
Qed.

Lemma conflict_cons new i l ls e : conflict new ls e -> conflict new ((i, l) :: ls) e.
Proof.
  unfold conflict. destruct e; try done.
  - intros (k & Hk & H). exists k. split; [by right|done].
  - intros (j & k & Hk & H). exists j, k. split; [by right|done].
  - intros (j & k & Hk & H). exists j, k. split; [by right|done].
Qed.

Lemma scan_conflict {idp : IdentityProvider} ext new ls : (forall s, identity s ext = Ok (idf s)) ->
  match scan_leaves new (leaf_id new) ext ls with
  | Ok _ => True
  | Err e => conflict new ls e
  | Panic => False
  end.
Proof.
  intros Hid. induction ls as [|[i l] ls IH]; [done|]. cbn [scan_leaves]. rewrite Hid.
  destruct (bool_decide_reflect (leaf_public_key new = leaf_public_key l)); cbn [negb guard_or mbind res_bind from_identity map_err];
    [exists l; split; [by left|by auto]|].
  destruct (bool_decide_reflect (leaf_key new = leaf_key l)); cbn [negb guard_or mbind res_bind from_identity map_err];
    [exists l; split; [by left|by auto]|].
  destruct (bool_decide_reflect (leaf_id new = leaf_id l)); cbn [negb guard_or mbind res_bind from_identity map_err];
    [exists l; split; [by left|by auto]|].
  destruct (bool_decide_reflect (leaf_type l ∈ cap_credentials (capabilities new))); cbn [negb guard_or mbind res_bind from_identity map_err];
    [|exists i, l; split; [by left|done]].
  destruct (bool_decide_reflect (leaf_type new ∈ cap_credentials (capabilities l))); cbn [negb guard_or mbind res_bind from_identity map_err];
    [|exists i, l; split; [by left|done]].
  destruct (scan_leaves new _ ext ls) as [u|er|]; [done| |done]. by apply conflict_cons.
Qed.
End representation.

(** ** Theorems *)

(** C27: the index implements the scan.  For an index that represents the
    occupied leaves, inserting a leaf succeeds exactly when the scan over all
    leaves accepts it; after a success the index represents the leaves with the
    new one, after a failure the same leaves as before.  When they fail, each
    reports a conflict that the new leaf really has -- a leaf with the same key
    or identity, a credential type that one side does not support -- though not
    always the same one, since the scan looks leaf by leaf and the index
    criterion by criterion.  Removing any of the leaves makes the index
    represent the others; and the proposal counters answer whether all members
    support a proposal type. *)
Theorem index_implements_scan {idp : IdentityProvider} (idf : SigningIdentity -> bytes)
    (ext : ExtensionList) (Hid : forall s, identity s ext = Ok (idf s))
    (t : TreeIndex) (ls : list (Z * LeafNode)) (i : Z) (leaf : LeafNode)
    (Ht : index_rep idf t ls) (Hi : i ∉ ls.*1) (Hlen : zlen ls + 1 < 2 ^ 32) :
  match index_insert leaf i ext t with
  | (Ok _, t') => index_insert_scan ls leaf i ext = Ok tt /\ index_rep idf t' ((i, leaf) :: ls)
  | (Err e, t') =>
      conflict idf leaf ls e /\ index_rep idf t' ls /\
      exists e', index_insert_scan ls leaf i ext = Err e' /\ conflict idf leaf ls e'
  | (Panic, _) => False
  end /\
  (forall i' l, (i', l) ∈ ls ->
     index_rep idf (tree_index_remove l (idf (signing_identity l)) t) (List.filter (fun '(j, _) => negb (j =? i')) ls)) /\
  (forall ty, count_supporting_proposal t ty = zlen ls <->
     forall i' l, (i', l) ∈ ls -> ty ∈ cap_proposals (capabilities l)).
Proof.
  split; [|split].
  - unfold index_insert, index_insert_scan, mbind, sm_bind, sm_lift, res_bind.
    rewrite Hid. cbn [from_identity map_err].
    assert (List.filter (fun '(i', _) => negb (i' =? i)) ls = ls) as ->.
    { apply List.forallb_filter_id, forallb_forall. intros [i' l] Hin%list_elem_of_In.
      apply negb_true_iff, Z.eqb_neq. intros ->. apply Hi.
      by apply (list_elem_of_fmap_2 fst _ _ Hin). }
    pose proof (scan_leaves_ok idf ext leaf ls Hid) as Hscan. pose proof (scan_conflict idf ext leaf ls Hid) as Hsc.
    destruct (tree_index_insert_spec idf t ls i leaf Ht Hi Hlen)
      as [[Hc (t' & -> & Ht')]|[Hc (e & t' & E & Ht')]].
    + split; [|done]. apply Hscan in Hc. by destruct (scan_leaves leaf _ ext ls) as [[]| |].
    + rewrite E. apply (insert_conflict _ _ _ _ _ _ _ Ht) in E; [|lia]. split; [done|]. split; [done|].
      rewrite <- Hscan in Hc. destruct (scan_leaves leaf _ ext ls) as [u|e'|]; [done| |done]. by exists e'.
  - intros i' l Hin. apply index_rep_without; [lia|done|done].
  - intros ty. unfold count_supporting_proposal. rewrite (ir_proposals idf t ls Ht), count_all.
    by setoid_rewrite bool_decide_eq_true.
Qed.

Definition plain_provider : IdentityProvider := {|
  validate_member _ _ _ := Ok tt;
  validate_external_sender _ _ _ := Ok tt;
  identity s _ := Ok (signature_key s);
  valid_successor _ _ _ := Ok true;
  supported_types := [1];
|}.

Lemma index_implements_scan_witness :
  is_ok (index_insert (idp := plain_provider) sample_leaf 0 [] tree_index_new).1 = true /\
  index_insert_scan (idp := plain_provider) [] sample_leaf 0 [] = Ok tt.
Proof.
  destruct (index_implements_scan (idp := plain_provider) signature_key [] (fun s => eq_refl)
    tree_index_new [] 0 sample_leaf (index_rep_new signature_key) (not_elem_of_nil 0)
    ltac:(reflexivity)) as [H _].
  split; [vm_compute; reflexivity|]. exact (proj1 H).
Defined.
