(* ===== verification/TreeHash.v ===== *)
(** * Tree hashes

    Models mls-rs/src/tree_kem/tree_hash.rs and the record [TreeKemPublic] of
    mls-rs/src/tree_kem/mod.rs.  The library keeps the hash of every node of
    the tree in an array and recomputes, after an edit, the nodes above the
    edited leaves with a queue ([compute_tree_hash]).  [node_hash] is the
    recursive definition of RFC 9420, section 7.8. *)

From S2P Require Import Prelude Codec Crypto TreeMath Data NodeVec TreeIndex.

#[local] Set Default Goal Selector "!".
Local Open Scope Z_scope.

Notation TreeHash := bytes (only parsing).

(** ** The public tree *)

Record TreeKemPublic := mk_tree_kem_public {
  index : TreeIndex;
  nodes : NodeVec;
  tree_hashes : list TreeHash;
}.

Definition tree_kem_new : TreeKemPublic := mk_tree_kem_public tree_index_new [] [].

Definition set_index (i : TreeIndex) (t : TreeKemPublic) : TreeKemPublic :=
  mk_tree_kem_public i (nodes t) (tree_hashes t).
Definition set_nodes (v : NodeVec) (t : TreeKemPublic) : TreeKemPublic :=
  mk_tree_kem_public (index t) v (tree_hashes t).
Definition set_tree_hashes (hs : list TreeHash) (t : TreeKemPublic) : TreeKemPublic :=
  mk_tree_kem_public (index t) (nodes t) hs.

(** ** Hash inputs *)

Record LeafNodeHashInput := mk_leaf_node_hash_input { lh_leaf_index : Z; lh_leaf_node : option LeafNode }.

Record ParentNodeTreeHashInput := mk_parent_node_hash_input {
  ph_parent_node : option Parent; ph_left_hash : bytes; ph_right_hash : bytes }.

Inductive TreeHashInput :=
| HashInputLeaf (l : LeafNodeHashInput)
| HashInputParent (p : ParentNodeTreeHashInput).

Definition leaf_node_hash_input_codec : codec LeafNodeHashInput :=
  struct_codec (fun l => (lh_leaf_index l, lh_leaf_node l))
    (fun '(i, l) => mk_leaf_node_hash_input i l)
    (pair_codec leaf_index_codec (option_codec leaf_node_codec)).

Definition parent_node_hash_input_codec : codec ParentNodeTreeHashInput :=
  struct_codec (fun p => (ph_parent_node p, (ph_left_hash p, ph_right_hash p)))
    (fun '(p, (l, r)) => mk_parent_node_hash_input p l r)
    (pair_codec (option_codec parent_codec) (pair_codec byte_vec_codec byte_vec_codec)).

Definition tree_hash_input_codec : codec TreeHashInput :=
  enum_codec u8_codec (fun i => match i with HashInputLeaf _ => 1 | HashInputParent _ => 2 end)
    (fun t =>
       if t =? 1 then
         Some (variant_codec HashInputLeaf
                 (fun i => match i with HashInputLeaf l => Some l | _ => None end)
                 leaf_node_hash_input_codec)
       else if t =? 2 then
         Some (variant_codec HashInputParent
                 (fun i => match i with HashInputParent p => Some p | _ => None end)
                 parent_node_hash_input_codec)
       else None).

Section tree_hash.
Context `{CipherSuiteProvider}.

Definition hash_for_leaf (leaf_index : Z) (leaf_node : option LeafNode) : mres bytes :=
  input ← from_codec (mls_encode_to_vec tree_hash_input_codec
    (HashInputLeaf (mk_leaf_node_hash_input leaf_index leaf_node)));
  from_crypto (hash input).

(** [unmerged_leaves.retain(|i| !filtered.contains(i))]. *)
Definition retain_unmerged (filtered : list Z) (p : Parent) : Parent :=
  mk_parent (parent_public_key p) (parent_hash p)
    (List.filter (fun i => negb (bool_decide (i ∈ filtered))) (unmerged_leaves p)).

Definition hash_for_parent (parent_node : option Parent) (filtered : list Z)
    (left_hash right_hash : bytes) : mres bytes :=
  input ← from_codec (mls_encode_to_vec tree_hash_input_codec
    (HashInputParent (mk_parent_node_hash_input (retain_unmerged filtered <$> parent_node)
       left_hash right_hash)));
  from_crypto (hash input).

(** ** Recomputing hashes *)

(** [Vec::resize] with the default hash. *)
Definition resize (n : Z) (hs : list TreeHash) : list TreeHash :=
  take (Z.to_nat n) hs ++ replicate (Z.to_nat n - length hs) [].

(** [hashes[i] = h]. *)
Definition store_hash (i : Z) (h : bytes) : SM (list TreeHash) MlsError unit := fun hs =>
  if (0 <=? i) && (i <? zlen hs) then (Ok tt, zset hs i h) else (Panic, hs).

(** The first loop of [tree_hash] hashes the leaves and returns the queue of
    their parents. *)
Fixpoint hash_leaves (v : NodeVec) (filtered : list Z) (num_leaves : Z) (ls : list Z) :
    SM (list TreeHash) MlsError (list Z) :=
  match ls with
  | [] => mret []
  | l :: ls =>
      let leaf := if bool_decide (l ∈ filtered) then None else res_ok (borrow_as_leaf v l) in
      h ← sm_lift (hash_for_leaf l leaf);
      _ ← store_hash (2 * l) h;
      queue ← hash_leaves v filtered num_leaves ls;
      mret (match parent_sibling 32 (wrap 32 (2 * l)) num_leaves with
            | Some ps => parent ps :: queue
            | None => queue
            end)
  end.

(** The second loop takes a node from the front of the queue, hashes it and
    puts its parent at the back. *)
Fixpoint hash_queue (fuel : nat) (v : NodeVec) (filtered : list Z) (num_leaves : Z) (queue : list Z) :
    SM (list TreeHash) MlsError unit :=
  match queue with
  | [] => mret tt
  | n :: queue =>
      match fuel with
      | O => sm_lift Panic
      | S fuel =>
          hs ← sm_get;
          l ← sm_lift (unwrap (zget hs (left_unchecked 32 n)));
          r ← sm_lift (unwrap (zget hs (right_unchecked 32 n)));
          h ← sm_lift (hash_for_parent (res_ok (borrow_as_parent v n)) filtered l r);
          _ ← store_hash n h;
          hash_queue fuel v filtered num_leaves
            (queue ++ match parent_sibling 32 n num_leaves with Some ps => [parent ps] | None => [] end)
      end
  end.

(** The function [tree_hash]; a tree has at most 32 levels, so each queued
    leaf causes fewer than 32 rounds of the second loop. *)
Definition compute_tree_hash (v : NodeVec) (leaves_to_update : option (list Z)) (filtered : list Z)
    (num_leaves : Z) : SM (list TreeHash) MlsError unit :=
  let leaves_to_update := default (seqZ 0 num_leaves) leaves_to_update in
  _ ← sm_modify (resize (num_leaves * 2 - 1));
  queue ← hash_leaves v filtered num_leaves (List.filter (fun l => l <? num_leaves) leaves_to_update);
  hash_queue (32 * length queue) v filtered num_leaves queue.

(** [(0..num_leaves).rev().map_while(...)]: the trailing leaves without a hash. *)
Fixpoint missing_leaves (hs : list TreeHash) (n : nat) : list Z :=
  match n with
  | O => []
  | S n =>
      match zget hs (2 * Z.of_nat n) with
      | None => Z.of_nat n :: missing_leaves hs n
      | Some _ => []
      end
  end.

Definition zoom_hashes {A} : SM (list TreeHash) MlsError A -> SM TreeKemPublic MlsError A :=
  sm_zoom tree_hashes set_tree_hashes.

Definition update_hashes (updated_leaves : list Z) : SM TreeKemPublic MlsError unit :=
  t ← sm_get;
  let num_leaves := total_leaf_count (nodes t) in
  let leaves := updated_leaves ++ missing_leaves (tree_hashes t) (Z.to_nat num_leaves) in
  zoom_hashes (compute_tree_hash (nodes t) (Some leaves) [] num_leaves).

Definition initialize_hashes : SM TreeKemPublic MlsError unit :=
  t ← sm_get;
  match tree_hashes t with
  | [] => zoom_hashes (compute_tree_hash (nodes t) None [] (total_leaf_count (nodes t)))
  | _ => mret tt
  end.

(** [TreeKemPublic::tree_hash]. *)
Definition tree_kem_tree_hash : SM TreeKemPublic MlsError bytes :=
  _ ← initialize_hashes;
  t ← sm_get;
  sm_lift (unwrap (zget (tree_hashes t) (root 32 (total_leaf_count (nodes t))))).

(** ** Original hashes *)

(** [while start < len && unmerged[start] < bound]. *)
Fixpoint drop_below (bound : Z) (l : list Z) : list Z :=
  match l with x :: l' => if x <? bound then drop_below bound l' else l | [] => [] end.
Fixpoint take_below (bound : Z) (l : list Z) : list Z :=
  match l with x :: l' => if x <? bound then x :: take_below bound l' else [] | [] => [] end.

Definition unmerged_in_subtree (v : NodeVec) (node_unmerged subtree_root : Z) : mres (list Z) :=
  p ← borrow_as_parent v node_unmerged;
  let st := subtree subtree_root in
  Ok (take_below (st_right st) (drop_below (st_left st) (unmerged_leaves p))).

Definition different_unmerged (v : NodeVec) (ancestor descendant : Z) : mres bool :=
  b ← is_blank v ancestor;
  if (b : bool) then Ok false else
  b ← is_blank v descendant;
  if (b : bool) then Ok false else
  u ← unmerged_in_subtree v ancestor descendant;
  p ← borrow_as_parent v descendant;
  Ok (bool_decide (u <> unmerged_leaves p)).

Record OriginalState := mk_original_state {
  filtered_sets : list (list Z);
  filtered_hashes : list (list TreeHash);
}.

(** One round of the loop over the nodes in breadth-first order.  The nodes of
    the iterator index the arrays within their length, so that the stores at
    [n] and [p] are in range. *)
Definition original_step (v : NodeVec) (num_leaves n : Z) (p : Z) (s : OriginalState) : mres OriginalState :=
  fp ← unwrap (zget (filtered_sets s) p);
  a ← unwrap (last fp);
  b ← different_unmerged v a p;
  if (b : bool) then
    q ← borrow_as_parent v p;
    hs ← unwrap (zget (filtered_hashes s) p);
    match compute_tree_hash v (Some (subtree_leaves (wrap 32 n))) (unmerged_leaves q) num_leaves hs with
    | (Ok _, hs) => Ok (mk_original_state (zset (filtered_sets s) n (fp ++ [p])) (zset (filtered_hashes s) p hs))
    | (Err e, _) => Err e
    | (Panic, _) => Panic
    end
  else Ok (mk_original_state (zset (filtered_sets s) n fp) (filtered_hashes s)).

Fixpoint original_loop (v : NodeVec) (num_leaves : Z) (ns : list Z) (s : OriginalState) : mres OriginalState :=
  match ns with
  | [] => Ok s
  | n :: ns =>
      match parent_sibling 32 (wrap 32 n) num_leaves with
      | None => Ok s
      | Some ps => original_step v num_leaves n (parent ps) s ≫= original_loop v num_leaves ns
      end
  end.

(** The hashes with the unmerged leaves of the root left out, when it has any. *)
Definition root_original (v : NodeVec) (num_leaves root : Z) : mres (option (list TreeHash)) :=
  b ← is_blank v root;
  if negb b && negb (is_leaf root) then
    p ← borrow_as_parent v root;
    match unmerged_leaves p with
    | [] => Ok None
    | u =>
        match compute_tree_hash v None u num_leaves [] with
        | (Ok _, hs) => Ok (Some hs)
        | (Err e, _) => Err e
        | (Panic, _) => Panic
        end
    end
  else Ok None.

Definition original_hash (t : TreeKemPublic) (root : Z) (root_original : option (list TreeHash))
    (s : OriginalState) (i : Z) : mres TreeHash :=
  f ← unwrap (zget (filtered_sets s) i);
  a ← unwrap (last f);
  b ← is_blank (nodes t) a;
  if b || (a =? root) then
    match root_original with
    | Some hs => unwrap (zget hs i)
    | None => unwrap (zget (tree_hashes t) i)
    end
  else hs ← unwrap (zget (filtered_hashes s) a); unwrap (zget hs i).

Definition compute_original_hashes (t : TreeKemPublic) : mres (list TreeHash) :=
  let num_leaves := total_leaf_count (nodes t) in
  let root := root 32 num_leaves in
  let len := num_leaves * 2 - 1 in
  let s := mk_original_state (zset (replicate (Z.to_nat len) []) root [root])
             (replicate (Z.to_nat len) []) in
  s ← original_loop (nodes t) num_leaves (drop 1 (bfs_all num_leaves)) s;
  ro ← root_original (nodes t) num_leaves root;
  mapM_res (original_hash t root ro s) (seqZ 0 len).
End tree_hash.

(** ** The tree hash of RFC 9420 *)

Definition leaf_at (v : NodeVec) (i : Z) : option LeafNode :=
  match nd v (2 * i) with Some (NodeLeaf l) => Some l | _ => None end.

Definition parent_at (v : NodeVec) (x : Z) : option Parent :=
  match nd v x with Some (NodeParent p) => Some p | _ => None end.

Lemma res_ok_borrow_node v i :
  0 <= i -> borrow_node v i = Ok (nd v i) \/ (nd v i = None /\ exists e, borrow_node v i = Err e).
Proof.
  intros Hi. destruct (Z.lt_ge_cases i (zlen v)) as [Hlt|Hge]; [left; by apply borrow_node_nd|].
  assert (nd v i = None) as Hn by (unfold nd; by rewrite (proj2 (zget_None v i)) by lia).
  unfold borrow_node, validate_index. destruct (_ <=? _).
  - right. split; [done|]. by eexists.
  - by left.
Qed.

Lemma res_ok_borrow_as_leaf v i : 0 <= i < 2 ^ 31 -> res_ok (borrow_as_leaf v i) = leaf_at v i.
Proof.
  intros Hi. unfold borrow_as_leaf, leaf_at. rewrite node_index_eq by done.
  destruct (res_ok_borrow_node v (2 * i) ltac:(lia)) as [->|[-> [e ->]]]; [|done].
  cbn [mbind res_bind]. by destruct (nd v (2 * i)) as [[]|].
Qed.

Lemma res_ok_borrow_as_parent v x : 0 <= x -> res_ok (borrow_as_parent v x) = parent_at v x.
Proof.
  intros Hx. unfold borrow_as_parent, parent_at.
  destruct (res_ok_borrow_node v x Hx) as [->|[-> [e ->]]]; [|done].
  cbn [mbind res_bind]. by destruct (nd v x) as [[]|].
Qed.

Section spec.
Context `{CipherSuiteProvider} (v : NodeVec) (filtered : list Z).

Fixpoint node_hash (k : nat) (j : Z) : mres bytes :=
  match k with
  | O => hash_for_leaf j (if bool_decide (j ∈ filtered) then None else leaf_at v j)
  | S k' =>
      l ← node_hash k' (2 * j);
      r ← node_hash k' (2 * j + 1);
      hash_for_parent (parent_at v (node (Z.of_nat k) j)) filtered l r
  end.

(** The stored hash of a node is its tree hash. *)
Definition good (hs : list TreeHash) (k : nat) (j : Z) : Prop :=
  exists h, node_hash k j = Ok h /\ zget hs (node (Z.of_nat k) j) = Some h.

Context (d : nat) (Hd : Z.of_nat d <= 26).
Notation D := (Z.of_nat d).
Notation inside k j := (in_tree D (Z.of_nat k) j).

(** When the root has a tree hash, every node below it has one. *)
Lemma node_hash_below h : node_hash d 0 = Ok h ->
  forall k j, inside k j -> exists h, node_hash k j = Ok h.
Proof using Type*.
  intros Hroot. assert (forall n k j, (d - k)%nat = n -> inside k j -> exists h, node_hash k j = Ok h) as Hn;
    [|by eauto].
  induction n as [|n IH]; intros k j Hk Hin.
  - destruct Hin as [Hk' Hj]. assert (k = d) as -> by lia. rewrite Z.sub_diag in Hj.
    assert (j = 0) as -> by (change (2 ^ 0) with 1 in Hj; lia). eauto.
  - assert (Z.of_nat k < D) as Hlt by lia.
    pose proof (in_tree_parent D _ j Hin Hlt) as Hp. replace (Z.of_nat k + 1) with (Z.of_nat (S k)) in Hp by lia.
    destruct (IH (S k) (Z.shiftr j 1) ltac:(lia) Hp) as [h' Hh']. cbn [node_hash] in Hh'. res_inv.
    assert (j = 2 * Z.shiftr j 1 \/ j = 2 * Z.shiftr j 1 + 1) as [Hj| Hj].
    { rewrite Z.shiftr_div_pow2 by lia. change (2 ^ 1) with 2. divlia. }
    all: rewrite Hj; eauto.
Qed.

Lemma store_hash_ok hs i h : 0 <= i < zlen hs -> store_hash i h hs = (Ok tt, zset hs i h).
Proof.
  intros Hi. unfold store_hash. destruct (Z.leb_spec 0 i), (Z.ltb_spec i (zlen hs)); try lia. done.
Qed.

Lemma good_zset hs k j h : node_hash k j = Ok h -> 0 <= node (Z.of_nat k) j < zlen hs ->
  good (zset hs (node (Z.of_nat k) j) h) k j.
Proof. intros Hh Hb. exists h. split; [done|by apply zget_zset_eq]. Qed.

Lemma good_zset_ne hs k j x h : x <> node (Z.of_nat k) j -> good hs k j -> good (zset hs x h) k j.
Proof. intros Hx (h' & Hh & Hz). exists h'. split; [done|by rewrite zget_zset_ne]. Qed.

Context (Hall : forall k j, inside k j -> exists h, node_hash k j = Ok h).
Definition sized (hs : list TreeHash) : Prop := zlen hs = 2 * 2 ^ D - 1.

Lemma inside_bound hs k j : sized hs -> inside k j -> 0 <= node (Z.of_nat k) j < zlen hs.
Proof. intros Hs Hin. rewrite Hs. apply in_tree_node_bound in Hin. lia. Qed.

(** A node other than those at the level [k] of the list keeps its hash. *)
Definition keeps (k : nat) (js : list Z) (hs hs' : list TreeHash) : Prop :=
  sized hs' /\ (forall j, j ∈ js -> good hs' k j) /\
  (forall k' j', inside k' j' -> good hs k' j' -> good hs' k' j').

Lemma keeps_store k j js hs hs' h :
  inside k j -> node_hash k j = Ok h -> sized hs ->
  keeps k js (zset hs (node (Z.of_nat k) j) h) hs' -> keeps k (j :: js) hs hs'.
Proof using Hd.
  intros Hin Hh Hs (Hs' & Hjs & Hold). pose proof (inside_bound hs k j Hs Hin) as Hb.
  assert (good hs' k j) as Hg by (apply Hold; [done|by apply good_zset]).
  split; [done|]. split; [intros j' [->|?]%elem_of_cons; auto|].
  intros k' j' Hin' Hg'. destruct (decide (node (Z.of_nat k) j = node (Z.of_nat k') j')) as [E|E].
  - destruct Hin, Hin'. apply node_inj in E as [E1 ->]; [|lia..]. by apply Nat2Z.inj in E1 as ->.
  - apply Hold; [done|]. by apply good_zset_ne.
Qed.

Lemma node_u32 k j : inside k j -> is_u32 (node (Z.of_nat k) j).
Proof using Hd.
  intros Hin. apply in_tree_node_bound in Hin. unfold in_uint.
  pose proof (Z.pow_le_mono_r 2 D 26 ltac:(lia) Hd). change (2 ^ 26) with 67108864 in *. lia.
Qed.

Lemma hash_leaves_spec ls : forall hs, sized hs -> Forall (fun l => 0 <= l < 2 ^ D) ls ->
  exists hs', hash_leaves v filtered (2 ^ D) ls hs =
      (Ok (if bool_decide (d = 0%nat) then [] else (fun l => node 1 (Z.shiftr l 1)) <$> ls), hs') /\
    keeps 0 ls hs hs'.
Proof using Hd Hall.
  induction ls as [|l ls IH]; intros hs Hs Hls.
  { exists hs. split; [by case_bool_decide|]. split; [done|]. split; [|done]. by intros ? ?%elem_of_nil. }
  apply Forall_cons in Hls as [Hl Hls].
  assert (inside 0 l) as Hin by (apply in_tree_leaf; lia).
  assert (2 ^ D <= 2 ^ 26) by (apply Z.pow_le_mono_r; lia).
  destruct (Hall 0%nat l Hin) as [h Hh]. pose proof (inside_bound hs 0 l Hs Hin) as Hb.
  assert (2 * l = node 0 l) as E by (by rewrite node_0).
  destruct (IH (zset hs (2 * l) h)) as (hs' & IHq & IHk); [unfold sized; by rewrite zlen_zset|done|].
  exists hs'. split.
  - cbn [hash_leaves]. rewrite res_ok_borrow_as_leaf by (change (2 ^ 26) with 67108864 in *; lia).
    rewrite (sm_lift_run _ _ _ h) by exact Hh.
    erewrite sm_bind_run by (apply store_hash_ok; rewrite E; exact Hb).
    erewrite sm_bind_run by exact IHq. unfold mret, sm_ret. do 2 f_equal.
    rewrite wrap_small by (rewrite E; by apply (node_u32 0)). rewrite E, parent_sibling_node by (lia || done).
    destruct (Z.eqb_spec 0 D) as [E0|E0].
    + by rewrite (bool_decide_eq_true_2 (d = 0%nat)) by lia.
    + by rewrite (bool_decide_eq_false_2 (d = 0%nat)) by lia.
  - rewrite E in *. by eapply (keeps_store 0).
Qed.

(** One level of the queue: the nodes of level [k] are hashed, and the queue
    then holds nodes of the next level only. *)
Lemma hash_queue_level k as_ : (1 <= k <= d)%nat ->
  forall hs bs fuel, sized hs -> Forall (fun j => inside k j) as_ ->
  (forall j, inside (k - 1) j -> good hs (k - 1) j) ->
  exists hs',
    hash_queue (length as_ + fuel) v filtered (2 ^ D)
      ((node (Z.of_nat k) <$> as_) ++ (node (Z.of_nat (S k)) <$> bs)) hs =
    hash_queue fuel v filtered (2 ^ D)
      (node (Z.of_nat (S k)) <$> (bs ++ if bool_decide (k = d) then [] else flip Z.shiftr 1 <$> as_)) hs' /\
    keeps k as_ hs hs'.
Proof using Hd Hall.
  intros Hk. induction as_ as [|j as_ IH]; intros hs bs fuel Hs Has Hlow.
  { exists hs. split; [by case_bool_decide; rewrite app_nil_r|].
    split; [done|]. split; [|done]. by intros ? ?%elem_of_nil. }
  apply Forall_cons in Has as [Hin Has].
  destruct (Hall k j Hin) as [h Hh]. pose proof (inside_bound hs k j Hs Hin) as Hb.
  destruct k as [|k]; [lia|]. replace (S k - 1)%nat with k in * by lia.
  assert (inside k (2 * j) /\ inside k (2 * j + 1)) as [Hl Hr].
  { pose proof (in_tree_child D _ j 0 Hin ltac:(lia) ltac:(lia)) as H0.
    pose proof (in_tree_child D _ j 1 Hin ltac:(lia) ltac:(lia)) as H1.
    replace (Z.of_nat (S k) - 1) with (Z.of_nat k) in * by lia. by rewrite Z.add_0_r in H0. }
  destruct (Hlow _ Hl) as (hl & Hhl & Hzl). destruct (Hlow _ Hr) as (hr & Hhr & Hzr).
  assert (sized (zset hs (node (Z.of_nat (S k)) j) h)) as Hs' by (unfold sized; by rewrite zlen_zset).
  assert (0 <= j) as Hj by (destruct Hin; lia).
  destruct (IH (zset hs (node (Z.of_nat (S k)) j) h)
              (bs ++ if bool_decide (S k = d) then [] else [Z.shiftr j 1]) fuel) as (hs' & IHq & IHk);
    [done|done| |].
  { intros j' Hin'. apply good_zset_ne; [|by apply Hlow]. intros E. destruct Hin, Hin'.
    apply node_inj in E; lia. }
  exists hs'. split; [|by eapply keeps_store].
  cbn [length Nat.add fmap list_fmap app hash_queue].
  destruct (node_children_unchecked k j ltac:(lia) Hj) as (_ & -> & ->).
  rewrite sm_get_run, (sm_lift_run _ _ _ hl) by (by rewrite Hzl).
  rewrite (sm_lift_run _ _ _ hr) by (by rewrite Hzr).
  rewrite (sm_lift_run _ _ _ h); cycle 1.
  { rewrite res_ok_borrow_as_parent by lia. cbn [node_hash] in Hh. by rewrite Hhl, Hhr in Hh. }
  erewrite sm_bind_run by (apply store_hash_ok; exact Hb).
  rewrite parent_sibling_node by (lia || done).
  etransitivity; [|etransitivity; [exact IHq|]].
  - f_equal. rewrite fmap_app, app_assoc. f_equal. destruct (Z.eqb_spec (Z.of_nat (S k)) D) as [E|E].
    + by rewrite bool_decide_eq_true_2 by lia.
    + rewrite bool_decide_eq_false_2 by lia. cbn [parent fmap list_fmap]. do 2 f_equal. lia.
  - f_equal. rewrite <- app_assoc. do 2 f_equal. by case_bool_decide.
Qed.

(** Every node is hashed, or lies above a queued node of level [k]. *)
Definition covered (hs : list TreeHash) (k : nat) (as_ : list Z) : Prop :=
  (forall k' j', inside k' j' -> (k' < k)%nat -> good hs k' j') /\
  (forall k' j', inside k' j' -> (k <= k')%nat ->
     good hs k' j' \/ exists a, a ∈ as_ /\ j' = Z.shiftr a (Z.of_nat k' - Z.of_nat k)).

Lemma covered_next hs hs' k as_ : (k <= d)%nat -> Forall (fun j => inside k j) as_ ->
  covered hs k as_ -> keeps k as_ hs hs' ->
  covered hs' (S k) (if bool_decide (k = d) then [] else flip Z.shiftr 1 <$> as_).
Proof using Hd.
  intros Hk Has [Hlow Hhigh] (Hs & Hjs & Hold). split.
  - intros k' j' Hin Hlt. destruct (decide (k' = k)) as [->|]; [|apply Hold, Hlow; [done..|lia]].
    destruct (Hhigh k j' Hin (le_n _)) as [?|(a & Ha & ->)]; [by apply Hold|].
    rewrite Z.sub_diag, Z.shiftr_0_r. by apply Hjs.
  - intros k' j' Hin Hle. destruct (Hhigh k' j' Hin ltac:(lia)) as [?|(a & Ha & ->)]; [left; by apply Hold|].
    right. exists (Z.shiftr a 1). destruct Hin as [? _]. rewrite bool_decide_eq_false_2 by lia.
    split; [apply list_elem_of_fmap; by exists a|]. rewrite Z.shiftr_shiftr by lia. f_equal. lia.
Qed.

Lemma inside_parents k as_ : (k < d)%nat -> Forall (fun j => inside k j) as_ ->
  Forall (fun j => inside (S k) j) (flip Z.shiftr 1 <$> as_).
Proof using Hd.
  intros Hk Has. apply Forall_fmap. eapply Forall_impl; [exact Has|]. intros j Hin. simpl.
  apply in_tree_parent in Hin; [|lia]. by replace (Z.of_nat k + 1) with (Z.of_nat (S k)) in Hin by lia.
Qed.

Lemma hash_queue_spec m : forall k as_ hs fuel, (1 <= k)%nat -> (k + m = S d)%nat ->
  sized hs -> Forall (fun j => inside k j) as_ -> covered hs k as_ ->
  (m * length as_ <= fuel)%nat ->
  exists hs', hash_queue fuel v filtered (2 ^ D) (node (Z.of_nat k) <$> as_) hs = (Ok tt, hs') /\
    sized hs' /\ forall k' j', inside k' j' -> good hs' k' j'.
Proof using Hd Hall.
  induction m as [|m IH]; intros k as_ hs fuel Hk Hm Hs Has Hcov Hf.
  - assert (as_ = []) as ->.
    { destruct as_ as [|a as_]; [done|]. apply Forall_cons in Has as [[? _] _]. lia. }
    exists hs. split; [by destruct fuel|]. split; [done|]. intros k' j' Hin. apply Hcov; [done|].
    destruct Hin. lia.
  - replace fuel with (length as_ + (fuel - length as_))%nat by lia.
    destruct (hash_queue_level k as_ ltac:(lia) hs [] (fuel - length as_) Hs Has) as (hs1 & Hq & Hkeep).
    { intros j Hin. apply Hcov; [done|lia]. }
    rewrite app_nil_r in Hq. rewrite Hq. cbn [app]. pose proof Hkeep as [Hs1 _].
    apply (IH (S k)); [lia|lia|done| | |].
    + case_bool_decide; [by constructor|]. apply inside_parents; [lia|done].
    + apply (covered_next hs); [lia|done..].
    + case_bool_decide; [simpl; lia|]. rewrite length_fmap. lia.
Qed.

(** The whole computation, when the nodes that lie above none of the leaves
    to update already have their hashes. *)
Lemma compute_tree_hash_spec ls hs :
  Forall (fun l => 0 <= l) ls ->
  (forall k j, inside k j -> good (resize (2 ^ D * 2 - 1) hs) k j \/
     exists l, l ∈ ls /\ j = Z.shiftr l (Z.of_nat k)) ->
  exists hs', compute_tree_hash v (Some ls) filtered (2 ^ D) hs = (Ok tt, hs') /\
    sized hs' /\ forall k j, inside k j -> good hs' k j.
Proof using Hd Hall.
  intros Hls Hgood. unfold compute_tree_hash. cbn [default]. rewrite sm_modify_run.
  assert (sized (resize (2 ^ D * 2 - 1) hs)) as Hs.
  { unfold sized, resize, zlen. rewrite length_app, length_take, length_replicate.
    pose proof (Z.pow_pos_nonneg 2 D ltac:(lia) ltac:(lia)). lia. }
  set (fs := List.filter (fun l => l <? 2 ^ D) ls).
  assert (forall l, l ∈ fs <-> l ∈ ls /\ l < 2 ^ D) as Hfs.
  { intros l. unfold fs. rewrite !list_elem_of_In, filter_In. by rewrite Z.ltb_lt. }
  destruct (hash_leaves_spec fs (resize (2 ^ D * 2 - 1) hs) Hs) as (hs1 & Hq & Hkeep).
  { apply Forall_forall. intros l [Hl ?]%Hfs. rewrite Forall_forall in Hls. by auto. }
  erewrite sm_bind_run by exact Hq. clear Hq.
  assert (covered (resize (2 ^ D * 2 - 1) hs) 0 fs) as Hcov.
  { split; [lia|]. intros k j Hin _. destruct (Hgood k j Hin) as [?|(l & Hl & ->)]; [by left|right].
    exists l. split; [|f_equal; lia]. apply Hfs. split; [done|].
    rewrite Forall_forall in Hls. specialize (Hls l Hl). destruct Hin as [Hk Hj].
    rewrite Z.shiftr_div_pow2 in Hj by lia.
    replace D with (Z.of_nat k + (D - Z.of_nat k)) by lia. rewrite Z.pow_add_r by lia.
    rewrite Z.mul_comm.
    apply Z.nle_gt. intros Hge. destruct Hj as [_ Hj]. apply Z.nle_gt in Hj. apply Hj.
    apply Z.div_le_lower_bound; [apply Z.pow_pos_nonneg; lia|]. by rewrite Z.mul_comm. }
  assert (Forall (fun j => inside 0 j) fs) as Hin0.
  { apply Forall_forall. intros l [Hl ?]%Hfs. rewrite Forall_forall in Hls. apply in_tree_leaf; [lia|]. auto. }
  pose proof (covered_next _ _ 0 fs ltac:(lia) Hin0 Hcov Hkeep) as Hcov1.
  pose proof Hkeep as [Hs1 _].
  rewrite (bool_decide_ext (0%nat = d) (d = 0%nat)) in Hcov1 by lia.
  destruct (bool_decide_reflect (d = 0%nat)) as [E|E].
  - exists hs1. split; [done|]. split; [done|]. intros k j Hin. apply Hcov1; [done|]. destruct Hin. lia.
  - replace ((fun l => node 1 (Z.shiftr l 1)) <$> fs) with (node (Z.of_nat 1) <$> (flip Z.shiftr 1 <$> fs))
      by (by rewrite <- list_fmap_compose).
    apply (hash_queue_spec d 1); [lia|lia|done| |done|].
    + apply (inside_parents 0); [lia|done].
    + rewrite !length_fmap. apply Nat.mul_le_mono_r. lia.
Qed.
End spec.

(** Every node of the tree can be encoded. *)
Definition tree_encodable (v : NodeVec) : Prop :=
  (forall i l, leaf_at v i = Some l -> encodable leaf_node_codec l) /\
  (forall x p, parent_at v x = Some p -> encodable parent_codec p).

Lemma retain_unmerged_nil p : retain_unmerged [] p = p.
Proof.
  destruct p as [k h u]. unfold retain_unmerged. cbn [parent_public_key parent_hash unmerged_leaves].
  f_equal. induction u as [|x u IH]; [done|]. cbn [List.filter].
  rewrite bool_decide_eq_false_2 by apply not_elem_of_nil. cbn [negb]. by f_equal.
Qed.

#[export] Instance leaf_node_hash_input_codec_ok : CodecOk leaf_node_hash_input_codec
  (fun i => leaf_index_wf (lh_leaf_index i) /\ option_wf leaf_node_wf (lh_leaf_node i)).
Proof. struct_ok. Qed.

#[export] Instance parent_node_hash_input_codec_ok : CodecOk parent_node_hash_input_codec
  (fun i => option_wf parent_wf (ph_parent_node i) /\ bytes_ok (ph_left_hash i) /\ bytes_ok (ph_right_hash i)).
Proof. struct_ok. Qed.

Section total.
Context `{CipherSuiteProvider, !HashLaws}.

Lemma hash_for_leaf_total i l :
  (forall l', l = Some l' -> encodable leaf_node_codec l') ->
  exists h, hash_for_leaf i l = Ok h /\ zlen h <= 255.
Proof.
  intros Hl. unfold hash_for_leaf.
  assert (encodable tree_hash_input_codec (HashInputLeaf (mk_leaf_node_hash_input i l))) as [b Hb].
  { unfold tree_hash_input_codec. rewrite encodable_enum by (apply _ || done).
    apply encodable_struct. eapply encodable_pair; [apply _..|].
    split; [apply encodable_uint|by eapply encodable_option; [apply _|]]. }
  rewrite Hb. destruct (hash_total b) as (h & E & Hz & _). exists h. cbn [from_codec map_err mbind res_bind].
  by rewrite E.
Qed.

Lemma hash_for_parent_total p l r :
  (forall p', p = Some p' -> encodable parent_codec p') -> zlen l <= 255 -> zlen r <= 255 ->
  exists h, hash_for_parent p [] l r = Ok h /\ zlen h <= 255.
Proof.
  intros Hp Hl Hr. unfold hash_for_parent.
  assert (encodable tree_hash_input_codec
    (HashInputParent (mk_parent_node_hash_input (retain_unmerged [] <$> p) l r))) as [b Hb].
  { unfold tree_hash_input_codec. rewrite encodable_enum by (apply _ || done).
    apply encodable_struct.
    eapply encodable_pair; [apply _..|]. split.
    - eapply encodable_option; [apply _|]. intros p' (q & -> & ->)%fmap_Some. rewrite retain_unmerged_nil. auto.
    - eapply encodable_pair; [apply _..|]. rewrite !encodable_byte_vec. cbn [ph_left_hash ph_right_hash]. change varint_max with 1073741823. lia. }
  rewrite Hb. destruct (hash_total b) as (h & E & Hz & _). exists h. cbn [from_codec map_err mbind res_bind].
  by rewrite E.
Qed.

Lemma node_hash_total v k j : tree_encodable v ->
  exists h, node_hash v [] k j = Ok h /\ zlen h <= 255.
Proof using Type*.
  intros [Hl Hp]. revert j. induction k as [|k IH]; intros j; cbn [node_hash].
  - rewrite bool_decide_eq_false_2 by apply not_elem_of_nil. apply hash_for_leaf_total. intros l. apply Hl.
  - destruct (IH (2 * j)) as (l & -> & Hzl). destruct (IH (2 * j + 1)) as (r & -> & Hzr).
    cbn [mbind res_bind]. apply hash_for_parent_total; [|done..]. intros p. apply Hp.
Qed.
End total.

(** ** The stored hashes *)

Definition depth (v : NodeVec) : nat := Z.to_nat (Z.log2 (total_leaf_count v)).

Lemma total_leaf_count_depth v : zlen v <= 2 ^ 26 ->
  total_leaf_count v = 2 ^ Z.of_nat (depth v) /\ Z.of_nat (depth v) <= 26.
Proof.
  intros (d & Hd & E & _)%total_leaf_count_pow. unfold depth. rewrite E, Z.log2_pow2 by lia.
  rewrite Z2Nat.id by lia. split; [done|lia].
Qed.

Lemma elem_of_missing_leaves hs n l :
  l ∈ missing_leaves hs n <-> 0 <= l < Z.of_nat n /\ zlen hs <= 2 * l.
Proof.
  induction n as [|n IH]; cbn [missing_leaves]; [split; [by intros ?%elem_of_nil|lia]|].
  destruct (zget hs (2 * Z.of_nat n)) as [h|] eqn:E.
  - apply zget_Some_bound in E. split; [by intros ?%elem_of_nil|lia].
  - apply zget_None in E. rewrite elem_of_cons, IH. lia.
Qed.

Section current.
Context `{CipherSuiteProvider}.

(** The tree hash depends on the nodes of the subtree only. *)
Lemma node_hash_ext v v' filtered k j : 0 <= j ->
  (forall k' j', (k' <= k)%nat -> 0 <= j' -> j = Z.shiftr j' (Z.of_nat k - Z.of_nat k') ->
     nd v' (node (Z.of_nat k') j') = nd v (node (Z.of_nat k') j')) ->
  node_hash v' filtered k j = node_hash v filtered k j.
Proof.
  revert j. induction k as [|k IH]; intros j Hj Heq.
  - cbn [node_hash]. unfold leaf_at. rewrite <- node_0. by rewrite (Heq 0%nat) by (try rewrite Z.shiftr_0_r; lia || done).
  - assert (forall j1, 0 <= j1 -> j = Z.shiftr j1 1 -> node_hash v' filtered k j1 = node_hash v filtered k j1) as Hsub.
    { intros j1 Hj1 E. apply IH; [done|]. intros k' j' Hk' Hj' E'. apply Heq; [lia|done|].
      rewrite E, E', Z.shiftr_shiftr by lia. f_equal. lia. }
    assert (j = Z.shiftr (2 * j) 1 /\ j = Z.shiftr (2 * j + 1) 1) as [E1 E2]
      by (rewrite !Z.shiftr_div_pow2 by lia; change (2 ^ 1) with 2; divlia).
    cbn [node_hash]. rewrite !Hsub by (lia || done). unfold parent_at.
    by rewrite (Heq (S k) j) by (rewrite ?Z.sub_diag, ?Z.shiftr_0_r; lia || done).
Qed.

(** Each stored hash is the tree hash of its node. *)
Definition hashes_current (v : NodeVec) (hs : list TreeHash) : Prop :=
  forall (k : nat) j, 0 <= j -> node (Z.of_nat k) j < zlen hs -> good v [] hs k j.

Lemma zget_resize n hs i h : 0 <= i < n -> zget hs i = Some h -> zget (resize n hs) i = Some h.
Proof.
  intros Hi Hh. pose proof (zget_Some_bound _ _ _ Hh). unfold resize.
  rewrite zget_app_l by (unfold zlen in *; rewrite length_take; lia).
  unfold zget in *. destruct (_ <? _); [done|]. by rewrite lookup_take_lt by lia.
Qed.

Lemma rightmost_leaf (k : nat) j :
  Z.shiftr ((j + 1) * 2 ^ Z.of_nat k - 1) (Z.of_nat k) = j /\
  node (Z.of_nat k) j <= 2 * ((j + 1) * 2 ^ Z.of_nat k - 1).
Proof.
  assert (0 < 2 ^ Z.of_nat k) as Hp by (apply Z.pow_pos_nonneg; lia). split.
  - rewrite Z.shiftr_div_pow2 by lia. symmetry. apply Z.div_unique with (2 ^ Z.of_nat k - 1); lia.
  - unfold node. rewrite Z.pow_add_r by lia. lia.
Qed.

Lemma sized_current v d hs : 0 <= Z.of_nat d -> sized d hs ->
  (forall k j, in_tree (Z.of_nat d) (Z.of_nat k) j -> good v [] hs k j) -> hashes_current v hs.
Proof.
  intros Hd Hs Hg k j Hj Hlt. apply Hg. rewrite Hs in Hlt.
  destruct (in_tree_decompose (Z.of_nat d) (node (Z.of_nat k) j) Hd) as (k' & j' & Hin & E).
  { pose proof (node_nonneg (Z.of_nat k) j ltac:(lia) Hj). lia. }
  apply node_inj in E as [-> ->]; [done|lia|done|destruct Hin; lia..].
Qed.

(** Recomputing the leaves [ls] of a tree whose other subtrees did not change. *)
Lemma update_hashes_spec v t ls h :
  zlen (nodes t) <= 2 ^ 26 -> Forall (fun l => 0 <= l) ls ->
  hashes_current v (tree_hashes t) ->
  (forall (k : nat) j, 0 <= j -> nd (nodes t) (node (Z.of_nat k) j) <> nd v (node (Z.of_nat k) j) ->
     exists l, l ∈ ls /\ j = Z.shiftr l (Z.of_nat k)) ->
  node_hash (nodes t) [] (depth (nodes t)) 0 = Ok h ->
  exists hs, update_hashes ls t = (Ok tt, set_tree_hashes hs t) /\
    sized (depth (nodes t)) hs /\ hashes_current (nodes t) hs /\
    zget hs (root 32 (total_leaf_count (nodes t))) = Some h.
Proof.
  intros Hlen Hls Hcur Hch Hh. destruct (total_leaf_count_depth _ Hlen) as [E Hd].
  unfold update_hashes. rewrite sm_get_run, E. unfold zoom_hashes, sm_zoom.
  set (d := depth (nodes t)) in *.
  pose proof (node_hash_below (nodes t) [] d Hd h Hh) as Hall.
  assert (0 < 2 ^ Z.of_nat d) by (apply Z.pow_pos_nonneg; lia).
  destruct (compute_tree_hash_spec (nodes t) [] d Hd Hall
              (ls ++ missing_leaves (tree_hashes t) (Z.to_nat (2 ^ Z.of_nat d))) (tree_hashes t))
    as (hs & Hc & Hs & Hg).
  - apply Forall_app. split; [done|]. apply Forall_forall. intros l Hl%elem_of_missing_leaves. lia.
  - intros k j Hin. assert (0 <= j) as Hj by (destruct Hin; lia).
    destruct (decide (Exists (fun l => j = Z.shiftr l (Z.of_nat k)) ls)) as [(l & Hl & Ej)%Exists_exists|Hno].
    { right. exists l. split; [apply elem_of_app; by left|done]. }
    assert (forall l, l ∈ ls -> j <> Z.shiftr l (Z.of_nat k)) as Hno'.
    { intros l Hl Ej. apply Hno, Exists_exists. eauto. }
    destruct (Z.lt_ge_cases (node (Z.of_nat k) j) (zlen (tree_hashes t))) as [Hlt|Hge].
    + left. destruct (Hcur k j Hj Hlt) as (h' & Hh' & Hz). exists h'. split.
      * rewrite <- Hh'. apply node_hash_ext; [done|]. intros k' j' Hk' Hj' Ej.
        apply dec_stable. intros Hne. destruct (Hch k' j' Hj' Hne) as (l & Hl & ->).
        apply (Hno' l Hl). rewrite Ej, Z.shiftr_shiftr by lia. f_equal. lia.
      * apply zget_resize; [|done]. apply in_tree_node_bound in Hin. lia.
    + right. destruct (rightmost_leaf k j) as [E1 E2].
      exists ((j + 1) * 2 ^ Z.of_nat k - 1). split; [|done].
      apply elem_of_app. right. apply elem_of_missing_leaves. split; [|lia].
      assert (0 < 2 ^ Z.of_nat k) by (apply Z.pow_pos_nonneg; lia). split; [lia|].
      destruct Hin as [Hk [_ Hj2]]. rewrite Z2Nat.id by lia.
      replace (Z.of_nat d) with (Z.of_nat k + (Z.of_nat d - Z.of_nat k)) by lia.
      rewrite Z.pow_add_r by lia. nia.
  - exists hs. rewrite Hc. split; [done|]. split; [done|]. split; [eapply sized_current; eauto; lia|].
    rewrite root_pow2 by lia. destruct (Hg d 0) as (h' & Hh' & Hz).
    { split; [lia|]. rewrite Z.sub_diag. change (2 ^ 0) with 1. lia. }
    congruence.
Qed.

Lemma initialize_hashes_spec t h :
  zlen (nodes t) <= 2 ^ 26 -> tree_hashes t = [] ->
  node_hash (nodes t) [] (depth (nodes t)) 0 = Ok h ->
  exists hs, initialize_hashes t = (Ok tt, set_tree_hashes hs t) /\
    sized (depth (nodes t)) hs /\ hashes_current (nodes t) hs /\
    zget hs (root 32 (total_leaf_count (nodes t))) = Some h.
Proof.
  intros Hlen He Hh. destruct (total_leaf_count_depth _ Hlen) as [E Hd].
  unfold initialize_hashes. rewrite sm_get_run, He, E. unfold zoom_hashes, sm_zoom. rewrite He.
  set (d := depth (nodes t)) in *.
  pose proof (node_hash_below (nodes t) [] d Hd h Hh) as Hall.
  change (compute_tree_hash (nodes t) None [] (2 ^ Z.of_nat d) [])
    with (compute_tree_hash (nodes t) (Some (seqZ 0 (2 ^ Z.of_nat d))) [] (2 ^ Z.of_nat d) []).
  destruct (compute_tree_hash_spec (nodes t) [] d Hd Hall (seqZ 0 (2 ^ Z.of_nat d)) [])
    as (hs & Hc & Hs & Hg).
  - apply Forall_seqZ. lia.
  - intros k j Hin. right. destruct (rightmost_leaf k j) as [E1 E2].
    exists ((j + 1) * 2 ^ Z.of_nat k - 1). split; [|done].
    assert (0 < 2 ^ Z.of_nat k) by (apply Z.pow_pos_nonneg; lia).
    destruct Hin as [Hk [? Hj2]]. apply elem_of_seqZ.
    replace (Z.of_nat d) with (Z.of_nat k + (Z.of_nat d - Z.of_nat k)) by lia.
    rewrite Z.pow_add_r by lia. nia.
  - exists hs. rewrite Hc. split; [done|]. split; [done|]. split; [eapply sized_current; eauto; lia|].
    rewrite root_pow2 by lia. destruct (Hg d 0) as (h' & Hh' & Hz).
    { split; [lia|]. rewrite Z.sub_diag. change (2 ^ 0) with 1. lia. }
    congruence.
Qed.

(** ** Theorems *)

(** C24: incremental tree hashing.  When the stored hashes are those of an
    earlier state [v] of the tree, and every node that changed since lies on
    the path of one of the given leaves (or is new), [update_hashes] brings
    every stored hash up to date, and the hash of the tree is the recursively
    defined hash of its root.  A tree without stored hashes gets all of them. *)
Theorem tree_hash_current (v : NodeVec) (t : TreeKemPublic) (ls : list Z) (h : bytes)
    (Hlen : zlen (nodes t) <= 2 ^ 26) (Hls : Forall (fun l => 0 <= l) ls)
    (Hcur : hashes_current v (tree_hashes t))
    (Hch : forall (k : nat) j, 0 <= j ->
       nd (nodes t) (node (Z.of_nat k) j) <> nd v (node (Z.of_nat k) j) ->
       exists l, l ∈ ls /\ j = Z.shiftr l (Z.of_nat k))
    (Hh : node_hash (nodes t) [] (depth (nodes t)) 0 = Ok h) :
  (exists t', update_hashes ls t = (Ok tt, t') /\ nodes t' = nodes t /\ index t' = index t /\
     hashes_current (nodes t') (tree_hashes t') /\ tree_kem_tree_hash t' = (Ok h, t')) /\
  (exists t', tree_kem_tree_hash (set_tree_hashes [] t) = (Ok h, t') /\
     hashes_current (nodes t') (tree_hashes t')).
Proof.
  split.
  - destruct (update_hashes_spec v t ls h Hlen Hls Hcur Hch Hh) as (hs & Hu & Hs & Hc & Hr).
    exists (set_tree_hashes hs t). split; [done|]. split; [done|]. split; [done|]. split; [done|].
    unfold tree_kem_tree_hash, initialize_hashes.
    assert (exists x hs1, hs = x :: hs1) as (x & hs1 & ->).
    { destruct hs as [|x hs1]; [|by eexists _, _]. apply zget_Some_bound in Hr. change (zlen []) with 0 in Hr. lia. }
    rewrite (sm_bind_run _ _ _ tt (set_tree_hashes (x :: hs1) t)) by done.
    rewrite sm_get_run. unfold sm_lift. cbn [nodes tree_hashes set_tree_hashes]. by rewrite Hr.
  - destruct (initialize_hashes_spec (set_tree_hashes [] t) h Hlen eq_refl Hh) as (hs & Hu & Hs & Hc & Hr).
    exists (set_tree_hashes hs t). split; [|done]. unfold tree_kem_tree_hash.
    erewrite sm_bind_run by exact Hu. rewrite sm_get_run. unfold sm_lift. cbn [nodes tree_hashes set_tree_hashes] in *.
    by rewrite Hr.
Qed.
End current.

Lemma tree_hash_current_witness :
  exists h t', update_hashes (H := Toy.provider) [1] (mk_tree_kem_public tree_index_new sample_vec []) = (Ok tt, t') /\
    tree_kem_tree_hash (H := Toy.provider) t' = (Ok h, t').
Proof.
  destruct (node_hash (H := Toy.provider) sample_vec [] (depth sample_vec) 0) as [h| |] eqn:E;
    [|vm_compute in E; discriminate..].
  exists h.
  destruct (tree_hash_current (H := Toy.provider) sample_vec
    (mk_tree_kem_public tree_index_new sample_vec []) [1] h) as [(t' & H1 & _ & _ & _ & H2) _].
  - done.
  - by repeat constructor.
  - intros k j Hj Hlt. pose proof (node_nonneg (Z.of_nat k) j ltac:(lia) Hj).
    change (zlen (tree_hashes _)) with 0 in Hlt. lia.
  - done.
  - exact E.
  - exists t'. split; [exact H1|exact H2].
Defined.
