(* ===== verification/ParentHash.v ===== *)
(** * Parent hashes

    Models mls-rs/src/tree_kem/parent_hash.rs: the chain of hashes that links
    a committed leaf to the parent nodes of its path, its computation and
    verification when a commit is applied, and the validation of all chains of
    an imported tree. *)

From S2P Require Import Prelude Codec Crypto TreeMath Data NodeVec TreeIndex TreeHash.

#[local] Set Default Goal Selector "!".
Local Open Scope Z_scope.

Record ParentHashInput := mk_parent_hash_input {
  phi_public_key : HpkePublicKey;
  phi_parent_hash : bytes;
  phi_original_sibling_tree_hash : bytes;
}.

Definition parent_hash_input_codec : codec ParentHashInput :=
  struct_codec (fun i => (phi_public_key i, (phi_parent_hash i, phi_original_sibling_tree_hash i)))
    (fun '(k, (p, s)) => mk_parent_hash_input k p s)
    (pair_codec byte_vec_codec (pair_codec byte_vec_codec byte_vec_codec)).

(** [ParentHash::matches]. *)
Definition matches (self h : ParentHash) : bool := bool_decide (h = self).

(** [Node::get_parent_hash]. *)
Definition get_parent_hash (n : Node) : option ParentHash :=
  match n with
  | NodeParent p => Some (parent_hash p)
  | NodeLeaf l => match leaf_node_source l with SourceCommit h => Some h | _ => None end
  end.

Definition set_parent_hash (h : ParentHash) (p : Parent) : Parent :=
  mk_parent (parent_public_key p) h (unmerged_leaves p).

Definition set_leaf_node_source (s : LeafNodeSource) (l : LeafNode) : LeafNode :=
  mk_leaf_node (leaf_public_key l) (signing_identity l) (capabilities l) s (leaf_extensions l)
    (leaf_signature l).

Definition zoom_nodes {A} : SM NodeVec MlsError A -> SM TreeKemPublic MlsError A :=
  sm_zoom nodes set_nodes.

Section parent_hash.
Context `{CipherSuiteProvider}.

(** [ParentHash::new]. *)
Definition parent_hash_new (public_key : HpkePublicKey) (parent_hash : ParentHash)
    (original_sibling_tree_hash : bytes) : mres ParentHash :=
  input ← from_codec (mls_encode_to_vec parent_hash_input_codec
    (mk_parent_hash_input public_key parent_hash original_sibling_tree_hash));
  from_crypto (hash input).

(** The loop of [parent_hash_for_leaf] over the reversed path; [h] is the
    running hash. *)
Fixpoint parent_hash_loop (cps : list CopathNode) (h : ParentHash) : SM TreeKemPublic MlsError ParentHash :=
  match cps with
  | [] => mret h
  | cp :: cps =>
      t ← sm_get;
      empty ← sm_lift (is_resolution_empty (nodes t) (copath cp));
      if (empty : bool) then parent_hash_loop cps h
      else
        parent ← sm_lift (borrow_as_parent_mut (nodes t) (path cp));
        sibling_hash ← sm_lift (unwrap (zget (tree_hashes t) (copath cp)));
        calculated ← sm_lift (parent_hash_new (parent_public_key parent) h sibling_hash);
        _ ← zoom_nodes (update_parent (path cp) (set_parent_hash h));
        parent_hash_loop cps calculated
  end.

Definition parent_hash_for_leaf (index : Z) : SM TreeKemPublic MlsError ParentHash :=
  t ← sm_get;
  parent_hash_loop (reverse (vec_direct_copath (nodes t) index)) parent_hash_empty.

Definition update_parent_hashes (index : Z) (verify_leaf_hash : bool) : SM TreeKemPublic MlsError unit :=
  _ ← update_hashes [index];
  leaf_hash ← parent_hash_for_leaf index;
  t ← sm_get;
  leaf ← sm_lift (borrow_as_leaf_mut (nodes t) index);
  _ ← (if verify_leaf_hash then
         match leaf_node_source leaf with
         | SourceCommit parent_hash =>
             if matches leaf_hash parent_hash then mret tt else sm_lift (Err ParentHashMismatch)
         | _ => sm_lift (Err InvalidLeafNodeSource)
         end
       else zoom_nodes (update_leaf index (set_leaf_node_source (SourceCommit leaf_hash))));
  update_hashes [index].

(** ** Validation of an imported tree *)

(** The first non-blank ancestor, or [None] when the root is reached. *)
Fixpoint skip_blanks (fuel : nat) (v : NodeVec) (num_leaves : Z) (ps : ParentSibling) :
    mres (option ParentSibling) :=
  b ← is_blank v (parent ps);
  if negb b then Ok (Some ps) else
  match fuel with
  | O => Panic
  | S fuel =>
      match parent_sibling 32 (parent ps) num_leaves with
      | None => Ok None
      | Some ps => skip_blanks fuel v num_leaves ps
      end
  end.

(** How the walk up from one leaf ends: the outer loop goes on with the nodes
    still to validate, or the whole function returns [Ok(())]. *)
Inductive ChainEnd :=
| ChainDone (to_validate : gset Z)
| ReturnOk.

(** "[n] is in the resolution of [c], and the intersection of the unmerged
    leaves of [p] with the subtree under [c] is the resolution of [c] with [n]
    removed". *)
Definition resolution_matches (v : NodeVec) (p c n : Z) : mres bool :=
  c_resolution ← get_resolution_index v c;
  p_unmerged ← unmerged_in_subtree v p c;
  let r : gset Z := list_to_set c_resolution in
  Ok (bool_decide (n ∈ r) &&
      bool_decide (r ∖ {[n]} = list_to_set ((fun x => wrap 32 (x * 2)) <$> p_unmerged))).

Fixpoint validate_chain (fuel : nat) (v : NodeVec) (original_hashes : list TreeHash) (num_leaves : Z)
    (n : Z) (to_validate : gset Z) : mres ChainEnd :=
  match parent_sibling 32 n num_leaves with
  | None => Ok (ChainDone to_validate)
  | Some ps =>
      match fuel with
      | O => Panic
      | S fuel =>
          ps ← skip_blanks 32 v num_leaves ps;
          match ps with
          | None => Ok ReturnOk
          | Some ps =>
              p_parent ← borrow_as_parent v (parent ps);
              n_node ← borrow_node v n ≫= ok_or ExpectedNode;
              sibling_hash ← unwrap (zget original_hashes (sibling ps));
              calculated ← parent_hash_new (parent_public_key p_parent) (parent_hash p_parent) sibling_hash;
              if bool_decide (get_parent_hash n_node = Some calculated) then
                cp ← ok_or ParentHashMismatch (parent_sibling 32 (sibling ps) num_leaves);
                m ← resolution_matches v (parent ps) (sibling cp) n;
                if m && bool_decide (parent ps ∈ to_validate) then
                  validate_chain fuel v original_hashes num_leaves (parent ps) (to_validate ∖ {[parent ps]})
                else Err ParentHashMismatch
              else Ok (ChainDone to_validate)
          end
      end
  end.

Fixpoint validate_chains (v : NodeVec) (original_hashes : list TreeHash) (num_leaves : Z)
    (leaves : list Z) (to_validate : gset Z) : mres ChainEnd :=
  match leaves with
  | [] => Ok (ChainDone to_validate)
  | l :: leaves =>
      e ← validate_chain 32 v original_hashes num_leaves (node_index l) to_validate;
      match e with
      | ReturnOk => Ok ReturnOk
      | ChainDone to_validate => validate_chains v original_hashes num_leaves leaves to_validate
      end
  end.

Definition validate_parent_hashes (t : TreeKemPublic) : mres unit :=
  original_hashes ← compute_original_hashes t;
  let v := nodes t in
  let nodes_to_validate : gset Z := list_to_set (fst <$> non_empty_parents v) in
  e ← validate_chains v original_hashes (total_leaf_count v) (fst <$> non_empty_leaves v) nodes_to_validate;
  match e with
  | ReturnOk => Ok tt
  | ChainDone to_validate => guard_or ParentHashMismatch (bool_decide (to_validate = ∅))
  end.
End parent_hash.

(** ** The links of a committed path *)

(** Equal nodes up to the parent hashes of parent nodes, which are hashes. *)
Definition node_shape (n n' : option Node) : Prop :=
  n = n' \/ exists p h, zlen h <= 255 /\ n = Some (NodeParent p) /\ n' = Some (NodeParent (set_parent_hash h p)).

Definition same_shape (v v' : NodeVec) : Prop := forall x, node_shape (nd v x) (nd v' x).

#[export] Instance node_shape_preorder : PreOrder node_shape.
Proof.
  split; [intros n; by left|].
  intros n1 n2 n3 [->|(p & h & Hz & -> & ->)] [<-|(p' & h' & Hz' & E & ->)];
    [by left|right; by eexists _, _|right; by eexists _, _|].
  right. injection E as <-. by exists p, h'.
Qed.

#[export] Instance same_shape_preorder : PreOrder same_shape.
Proof.
  split; [intros v x; by left|]. intros v1 v2 v3 H1 H2 x. exact (transitivity (H1 x) (H2 x)).
Qed.

Lemma resolution_nd v k j : resolution v k j =
  match nd v (node (Z.of_nat k) j) with
  | Some n => node (Z.of_nat k) j :: match n with NodeParent p => node_index <$> unmerged_leaves p | NodeLeaf _ => [] end
  | None => match k with O => [] | S k => resolution v k (2 * j) ++ resolution v k (2 * j + 1) end
  end.
Proof.
  destruct (nd v _) as [n|] eqn:E.
  - apply nd_zget in E. by rewrite (resolution_present v k j n).
  - rewrite resolution_blank; [done|]. intros n Hn. apply nd_zget in Hn. congruence.
Qed.

Lemma resolution_shape v v' k j : same_shape v v' -> resolution v' k j = resolution v k j.
Proof.
  intros Hs. revert j. induction k as [|k IH]; intros j; rewrite !(resolution_nd _ _ j).
  - by destruct (Hs (node (Z.of_nat 0) j)) as [->|(p & h & _ & -> & ->)].
  - rewrite !IH. by destruct (Hs (node (Z.of_nat (S k)) j)) as [->|(p & h & _ & -> & ->)].
Qed.

(** The nodes of a path whose copath child has members below it. *)
Definition live (v : NodeVec) (cps : list CopathNode) : list CopathNode :=
  List.filter (fun cp => match is_resolution_empty v (copath cp) with Ok false => true | _ => false end) cps.

(** The copath nodes are nodes of a tree of at most 32 levels. *)
Definition copaths_ok (cps : list CopathNode) : Prop :=
  Forall (fun cp => exists (k : nat) j, Z.of_nat k < 32 /\ 0 <= j /\ copath cp = node (Z.of_nat k) j) cps.

Lemma live_shape v v' cps : copaths_ok cps -> same_shape v v' -> live v' cps = live v cps.
Proof.
  intros Hc Hs. induction Hc as [|cp cps (k & j & Hk & Hj & E) _ IH]; [done|].
  unfold live in *. cbn [List.filter]. rewrite E, !is_resolution_empty_eq, (resolution_shape v v'), IH by done. done.
Qed.

Lemma live_path_sub v cps x : x ∈ path <$> live v cps -> x ∈ path <$> cps.
Proof.
  intros (cp & -> & Hcp)%list_elem_of_fmap. apply list_elem_of_fmap. exists cp. split; [done|]. unfold live in Hcp.
  by apply list_elem_of_In, filter_In in Hcp as [?%list_elem_of_In _].
Qed.

Lemma filter_reverse_list {A} (f : A -> bool) (l : list A) : List.filter f (reverse l) = reverse (List.filter f l).
Proof.
  induction l as [|a l IH]; [done|]. rewrite reverse_cons, List.filter_app, IH. cbn [List.filter].
  destruct (f a); [by rewrite reverse_cons|by rewrite app_nil_r].
Qed.

Lemma nd_parent_at v x p : parent_at v x = Some p -> nd v x = Some (NodeParent p).
Proof. unfold parent_at. intros. by repeat case_match; simplify_eq. Qed.

Lemma nd_leaf_at v i l : leaf_at v i = Some l -> nd v (2 * i) = Some (NodeLeaf l).
Proof. unfold leaf_at. intros. by repeat case_match; simplify_eq. Qed.

Lemma borrow_as_parent_mut_eq v x p : parent_at v x = Some p -> borrow_as_parent_mut v x = Ok p.
Proof.
  intros Hp%nd_parent_at. pose proof (nd_bound _ _ _ Hp). apply nd_zget in Hp.
  unfold borrow_as_parent_mut, validate_index. pose proof (next_power_of_two_ge (zlen v)).
  destruct (Z.leb_spec (next_power_of_two (zlen v)) x); [lia|]. cbn [mbind res_bind]. by rewrite Hp.
Qed.

Lemma borrow_as_leaf_mut_eq v i l : leaf_at v i = Some l -> 0 <= i < 2 ^ 31 -> borrow_as_leaf_mut v i = Ok l.
Proof.
  intros Hp%nd_leaf_at Hi. pose proof (nd_bound _ _ _ Hp). apply nd_zget in Hp.
  unfold borrow_as_leaf_mut, validate_index. rewrite node_index_eq by done.
  pose proof (next_power_of_two_ge (zlen v)).
  destruct (Z.leb_spec (next_power_of_two (zlen v)) (2 * i)); [lia|]. cbn [mbind res_bind]. by rewrite Hp.
Qed.

Lemma same_shape_set_parent v x p h :
  parent_at v x = Some p -> zlen h <= 255 ->
  same_shape v (zset v x (Some (NodeParent (set_parent_hash h p)))).
Proof.
  intros Hp%nd_parent_at Hz. pose proof (nd_bound _ _ _ Hp) as Hb. intros y.
  destruct (decide (x = y)) as [<-|]; [|rewrite nd_zset_ne by done; reflexivity].
  rewrite nd_zset_eq by done. right. by exists p, h.
Qed.

Section links.
Context `{CipherSuiteProvider}.

(** [h] is the parent hash that the node below the path carries: it is the
    hash of the first node of the path and of its sibling subtree, that node
    carries the parent hash of the rest, and the last one carries the empty
    hash. *)
Fixpoint linked (v : NodeVec) (hs : list TreeHash) (h : ParentHash) (cps : list CopathNode) : Prop :=
  match cps with
  | [] => h = parent_hash_empty
  | cp :: cps => exists p s,
      parent_at v (path cp) = Some p /\ zget hs (copath cp) = Some s /\
      parent_hash_new (parent_public_key p) (parent_hash p) s = Ok h /\
      linked v hs (parent_hash p) cps
  end.

Lemma linked_ext v v' hs hs' cps : forall h,
  (forall cp, cp ∈ cps -> parent_at v' (path cp) = parent_at v (path cp) /\
     zget hs' (copath cp) = zget hs (copath cp)) ->
  linked v hs h cps -> linked v' hs' h cps.
Proof.
  induction cps as [|cp cps IH]; intros h Heq; [done|]. cbn [linked].
  intros (p & s & Hp & Hs & Hn & Hl). exists p, s.
  destruct (Heq cp (list_elem_of_here _ _)) as [-> ->]. split; [done|]. split; [done|]. split; [done|].
  apply IH; [|done]. intros cp' Hcp. apply Heq. by right.
Qed.

Context `{!HashLaws}.

Lemma parent_hash_new_total k h s :
  zlen k <= varint_max -> zlen h <= 255 -> zlen s <= 255 ->
  exists o, parent_hash_new k h s = Ok o /\ zlen o <= 255.
Proof using Type*.
  intros Hk Hh Hs. unfold parent_hash_new.
  assert (encodable parent_hash_input_codec (mk_parent_hash_input k h s)) as [b ->].
  { apply encodable_struct. eapply encodable_pair; [apply _..|]. split; [by apply encodable_byte_vec|].
    eapply encodable_pair; [apply _..|]. rewrite !encodable_byte_vec.
    cbn [phi_parent_hash phi_original_sibling_tree_hash]. change varint_max with 1073741823. lia. }
  destruct (hash_total b) as (o & E & Ho & _). exists o. cbn [from_codec map_err mbind res_bind]. by rewrite E.
Qed.

(** The loop links the live nodes of the (reversed) path to a chain above it. *)
Lemma parent_hash_loop_spec rcps : forall t h above,
  copaths_ok rcps -> NoDup ((path <$> rcps) ++ (path <$> above)) ->
  (forall cp, cp ∈ rcps -> exists s, zget (tree_hashes t) (copath cp) = Some s /\ zlen s <= 255) ->
  (forall cp, cp ∈ live (nodes t) rcps ->
     exists p, parent_at (nodes t) (path cp) = Some p /\ zlen (parent_public_key p) <= varint_max) ->
  linked (nodes t) (tree_hashes t) h above -> zlen h <= 255 ->
  exists h' v', parent_hash_loop rcps h t = (Ok h', set_nodes v' t) /\ zlen h' <= 255 /\
    linked v' (tree_hashes t) h' (live (nodes t) (reverse rcps) ++ above) /\
    same_shape (nodes t) v' /\ zlen v' = zlen (nodes t) /\
    (forall x, x ∉ path <$> live (nodes t) rcps -> nd v' x = nd (nodes t) x).
Proof using Type*.
  induction rcps as [|cp rcps IH]; intros t h above Hc Hnd Hs Hp Hl Hh.
  { exists h, (nodes t). destruct t. by split_and!. }
  apply Forall_cons in Hc as [(k & j & Hk & Hj & E) Hc]. cbn [parent_hash_loop]. rewrite sm_get_run.
  rewrite fmap_cons in Hnd. apply NoDup_cons in Hnd as [Hni Hnd].
  assert (live (nodes t) (reverse (cp :: rcps)) = live (nodes t) (reverse rcps) ++ live (nodes t) [cp]) as ->.
  { rewrite reverse_cons. unfold live. by rewrite List.filter_app. }
  erewrite sm_lift_run by (rewrite E; by apply is_resolution_empty_eq).
  destruct (bool_decide (resolution (nodes t) k j = [])) eqn:Hb.
  - destruct (IH t h above Hc Hnd) as (h' & v' & Hr & Hh' & Hl' & Hsh & Hz & Ho); [| |done..|].
    { intros cp' Hcp. apply Hs. by right. }
    { intros cp' Hcp. apply Hp. unfold live in *. cbn [List.filter].
      rewrite E, is_resolution_empty_eq, Hb by done. done. }
    exists h', v'. split; [done|]. split; [done|]. split.
    { unfold live at 2. cbn [List.filter]. rewrite E, is_resolution_empty_eq, Hb by done. by rewrite app_nil_r. }
    split; [done|]. split; [done|]. intros x Hx. apply Ho. unfold live in Hx. cbn [List.filter] in Hx.
    rewrite E, is_resolution_empty_eq, Hb in Hx by done. exact Hx.
  - assert (live (nodes t) (cp :: rcps) = cp :: live (nodes t) rcps) as Hlive.
    { unfold live. cbn [List.filter]. by rewrite E, is_resolution_empty_eq, Hb by done. }
    destruct (Hp cp) as (p & Hpc & Hpk); [rewrite Hlive; by left|].
    destruct (Hs cp (list_elem_of_here _ _)) as (s & Hsc & Hzs).
    destruct (parent_hash_new_total (parent_public_key p) h s Hpk Hh Hzs) as (o & Ho & Hzo).
    rewrite (sm_lift_run _ _ _ p) by (by apply borrow_as_parent_mut_eq).
    rewrite (sm_lift_run _ _ _ s) by (by rewrite Hsc). rewrite (sm_lift_run _ _ _ o Ho).
    set (v1 := zset (nodes t) (path cp) (Some (NodeParent (set_parent_hash h p)))).
    assert (same_shape (nodes t) v1) as Hsh1 by (by apply same_shape_set_parent).
    assert (forall x, x <> path cp -> nd v1 x = nd (nodes t) x) as Hne.
    { intros x Hx. apply nd_zset_ne. congruence. }
    rewrite (sm_bind_run _ _ _ tt (set_nodes v1 t)); cycle 1.
    { unfold zoom_nodes, sm_zoom, update_parent. by rewrite (borrow_as_parent_mut_eq _ _ p). }
    destruct (IH (set_nodes v1 t) o (cp :: above) Hc) as (h' & v' & Hr & Hh' & Hl' & Hsh & Hz & Hoth).
    { rewrite fmap_cons. apply NoDup_app in Hnd as (N1 & N2 & N3).
      apply NoDup_app. split; [done|]. split.
      - intros x Hx [->|Hx2]%elem_of_cons; [apply Hni, elem_of_app; by left|by apply (N2 x)].
      - apply NoDup_cons. split; [|done]. intros Hx. apply Hni, elem_of_app. by right. }
    { intros cp' Hcp. apply Hs. by right. }
    { cbn [nodes set_nodes]. rewrite (live_shape (nodes t)) by done. intros cp' Hcp.
      destruct (Hp cp') as (q & Hq & Hqk); [rewrite Hlive; by right|]. exists q. split; [|done].
      unfold parent_at in *. rewrite Hne; [done|]. intros Eq. apply Hni. rewrite <- Eq. apply elem_of_app. left.
      apply list_elem_of_fmap. exists cp'. split; [done|]. unfold live in Hcp.
      by apply list_elem_of_In, filter_In in Hcp as [?%list_elem_of_In _]. }
    { cbn [linked nodes set_nodes tree_hashes]. exists (set_parent_hash h p), s. split.
      - unfold parent_at, v1. rewrite nd_zset_eq; [done|]. by eapply nd_bound, nd_parent_at.
      - split; [done|]. split; [done|]. cbn [set_parent_hash parent_hash].
        eapply linked_ext; [|exact Hl]. intros cp' Hcp'. split; [|done]. unfold parent_at. rewrite Hne; [done|].
        intros Eq. apply Hni, elem_of_app. right. apply list_elem_of_fmap. by exists cp'. }
    { done. }
    exists h', v'. split; [exact Hr|]. split; [done|]. split.
    { unfold live at 2. cbn [List.filter]. rewrite E, is_resolution_empty_eq, Hb by done. rewrite <- app_assoc.
      cbn [app]. cbn [nodes set_nodes] in Hl'. rewrite (live_shape (nodes t)) in Hl' by (done || by apply Forall_reverse).
      exact Hl'. }
    split; [by etransitivity|]. split; [rewrite Hz; apply zlen_zset|]. intros x Hx. rewrite Hlive, fmap_cons in Hx.
    apply not_elem_of_cons in Hx as [Hx1 Hx2]. rewrite Hoth; [by apply Hne|]. cbn [nodes set_nodes]. by rewrite (live_shape (nodes t)) by done.
Qed.
End links.

(** ** Updating the parent hashes of a path *)

Lemma encodable_parent p :
  encodable parent_codec p <->
  zlen (parent_public_key p) <= varint_max /\ zlen (parent_hash p) <= varint_max /\
  encodable (vec_codec leaf_index_codec) (unmerged_leaves p).
Proof.
  unfold parent_codec. rewrite encodable_struct. rewrite encodable_pair by apply _.
  rewrite encodable_pair by apply _. by rewrite !encodable_byte_vec.
Qed.

Lemma encodable_set_parent_hash p h :
  encodable parent_codec p -> zlen h <= 255 -> encodable parent_codec (set_parent_hash h p).
Proof.
  rewrite !encodable_parent. cbn [set_parent_hash parent_public_key parent_hash unmerged_leaves].
  change varint_max with 1073741823. intros (? & ? & ?) ?. split; [done|]. split; [lia|done].
Qed.

Lemma encodable_set_commit l h :
  encodable leaf_node_codec l -> zlen h <= 255 ->
  encodable leaf_node_codec (set_leaf_node_source (SourceCommit h) l).
Proof.
  unfold leaf_node_codec. rewrite !encodable_struct. do 5 rewrite encodable_pair by apply _.
  do 5 rewrite encodable_pair by apply _.
  intros (H1 & H2 & H3 & H4 & H5 & H6) Hh. do 3 (split; [done|]). split; [|done].
  unfold leaf_node_source_codec. cbn [set_leaf_node_source leaf_node_source].
  eapply (encodable_enum byte_vec_codec); [apply _|done|done|]. apply encodable_byte_vec.
  change varint_max with 1073741823. lia.
Qed.

Section path.
Context (d : nat) (i : Z) (Hd : Z.of_nat d <= 26) (Hi : 0 <= i < 2 ^ Z.of_nat d).
Notation D := (Z.of_nat d).

Lemma copath_spec_ok : copaths_ok (copath_spec D 0 i).
Proof using Type*.
  apply Forall_forall. intros cp (m & Hm & ->)%elem_of_copath_spec.
  exists (Z.to_nat (0 + m)), (Z.lxor (Z.shiftr i m) 1). cbn [copath]. rewrite Z2Nat.id by lia.
  split; [lia|]. split; [|done].
  assert (in_tree D (0 + m) (Z.shiftr i m)) as Hin by (apply in_tree_ancestor; lia).
  pose proof (in_tree_sibling D _ _ Hin ltac:(lia)) as [_ ?]. lia.
Qed.

Lemma copath_spec_in_tree cp : cp ∈ copath_spec D 0 i ->
  exists (k : nat), Z.of_nat k < D /\ in_tree D (Z.of_nat k) (Z.lxor (Z.shiftr i (Z.of_nat k)) 1) /\
    copath cp = node (Z.of_nat k) (Z.lxor (Z.shiftr i (Z.of_nat k)) 1) /\
    path cp = node (Z.of_nat (S k)) (Z.shiftr i (Z.of_nat (S k))).
Proof using Type*.
  intros (m & Hm & ->)%elem_of_copath_spec. exists (Z.to_nat m). rewrite Nat2Z.inj_succ, Z2Nat.id by lia.
  split; [lia|]. split; [|done].
  assert (in_tree D m (Z.shiftr i m)) as Hin by (apply in_tree_ancestor; lia).
  apply in_tree_sibling; [done|lia].
Qed.

Lemma path_in_spec x : x ∈ path <$> copath_spec D 0 i ->
  exists k : nat, x = node (Z.of_nat k) (Z.shiftr i (Z.of_nat k)) /\ (0 < k)%nat.
Proof using Type*.
  intros (cp & -> & (k & _ & _ & _ & E)%copath_spec_in_tree)%list_elem_of_fmap.
  exists (S k). split; [done|lia].
Qed.

Lemma copath_spec_NoDup : NoDup (path <$> copath_spec D 0 i).
Proof using Type*.
  unfold copath_spec. rewrite <- list_fmap_compose. apply NoDup_fmap_2_strong; [|apply NoDup_seqZ].
  intros a b Ha Hb E. apply elem_of_seqZ in Ha, Hb. cbn [compose path] in E.
  apply node_inj in E as [E _]; [lia|lia|apply Z.shiftr_nonneg; lia|lia|apply Z.shiftr_nonneg; lia].
Qed.

(** A change on the path of leaf [i] does not touch the copath subtrees. *)
Lemma copath_hash_ext `{CipherSuiteProvider} v v' k :
  (forall (k : nat) j, 0 <= j -> nd v' (node (Z.of_nat k) j) <> nd v (node (Z.of_nat k) j) ->
     j = Z.shiftr i (Z.of_nat k)) ->
  0 <= Z.lxor (Z.shiftr i (Z.of_nat k)) 1 ->
  node_hash v' [] k (Z.lxor (Z.shiftr i (Z.of_nat k)) 1) = node_hash v [] k (Z.lxor (Z.shiftr i (Z.of_nat k)) 1).
Proof using Type.
  clear Hi Hd d. intros Hch Hj. apply node_hash_ext; [done|]. intros k' j' Hk' Hj' E. apply dec_stable. intros Hne.
  apply Hch in Hne as ->; [|done]. rewrite Z.shiftr_shiftr in E by lia.
  replace (Z.of_nat k' + (Z.of_nat k - Z.of_nat k')) with (Z.of_nat k) in E by lia.
  apply (f_equal (fun x => Z.testbit x 0)) in E. rewrite Z.lxor_spec in E. change (Z.testbit 1 0) with true in E.
  by destruct (Z.testbit (Z.shiftr i (Z.of_nat k)) 0).
Qed.
End path.

Lemma leaf_at_depth v i l : zlen v <= 2 ^ 26 -> leaf_at v i = Some l ->
  0 <= i < 2 ^ Z.of_nat (depth v) /\ Z.of_nat (depth v) <= 26 /\
  vec_direct_copath v i = copath_spec (Z.of_nat (depth v)) 0 i.
Proof.
  intros Hv Hl%nd_leaf_at%nd_bound. destruct (total_leaf_count_depth v Hv) as [E Hd].
  destruct (total_leaf_count_pow v Hv) as (d & _ & E' & Hz). rewrite E in E'. rewrite <- E' in Hz.
  assert (2 ^ Z.of_nat (depth v) <= 2 ^ 26) as Hp by (apply Z.pow_le_mono_r; lia).
  change (2 ^ 26) with 67108864 in *.
  split; [lia|]. split; [done|]. unfold vec_direct_copath. rewrite E, node_index_eq by lia.
  rewrite <- node_0. apply direct_copath_node; [lia|lia|]. apply in_tree_leaf; lia.
Qed.

Lemma encodable_shape v v' : tree_encodable v -> same_shape v v' -> tree_encodable v'.
Proof.
  intros [H1 H2] Hs. split.
  - intros i' l' Hl'%nd_leaf_at. apply (H1 i'). unfold leaf_at.
    destruct (Hs (2 * i')) as [->|(p & h & _ & _ & E)]; [by rewrite Hl'|congruence].
  - intros x p Hp%nd_parent_at. destruct (Hs x) as [E|(p' & h & Hz & E & E')].
    + apply (H2 x). unfold parent_at. by rewrite E, Hp.
    + rewrite E' in Hp. injection Hp as <-. apply encodable_set_parent_hash; [|done].
      apply (H2 x). unfold parent_at. by rewrite E.
Qed.

Lemma encodable_set_leaf v i l h : tree_encodable v -> leaf_at v i = Some l -> zlen h <= 255 ->
  tree_encodable (zset v (2 * i) (Some (NodeLeaf (set_leaf_node_source (SourceCommit h) l)))).
Proof.
  intros [H1 H2] Hl Hz. pose proof (nd_bound _ _ _ (nd_leaf_at _ _ _ Hl)) as Hb. split.
  - intros i' l'. unfold leaf_at. destruct (decide (2 * i = 2 * i')) as [E|E].
    + rewrite <- E, nd_zset_eq by done. intros [= <-]. apply encodable_set_commit; [|done]. by apply (H1 i).
    + rewrite nd_zset_ne by done. apply H1.
  - intros x p. unfold parent_at. destruct (decide (2 * i = x)) as [E|E].
    + rewrite <- E, nd_zset_eq by done. done.
    + rewrite nd_zset_ne by done. apply H2.
Qed.

(** Between [v] and [v'], only nodes on the path of leaf [i] change. *)
Definition path_change (i : Z) (v v' : NodeVec) : Prop :=
  forall (k : nat) j, 0 <= j -> nd v' (node (Z.of_nat k) j) <> nd v (node (Z.of_nat k) j) ->
    j = Z.shiftr i (Z.of_nat k).

Section update.
Context `{CipherSuiteProvider, !HashLaws}.

Lemma update_hashes_total i v t : zlen (nodes t) <= 2 ^ 26 -> tree_encodable (nodes t) ->
  hashes_current v (tree_hashes t) -> path_change i v (nodes t) -> 0 <= i ->
  exists hs, update_hashes [i] t = (Ok tt, set_tree_hashes hs t) /\
    sized (depth (nodes t)) hs /\ hashes_current (nodes t) hs.
Proof using Type*.
  intros H1 H2 H3 H4 H5. destruct (node_hash_total (nodes t) (depth (nodes t)) 0 H2) as (h & Hh & _).
  destruct (update_hashes_spec v t [i] h) as (hs & Hu & Hs & Hc & _); [done|by constructor|done| |done|].
  - intros k j Hj Hne. exists i. split; [by left|]. by apply H4.
  - by exists hs.
Qed.

Lemma path_change_same i v v' d : Z.of_nat d <= 26 -> 0 <= i < 2 ^ Z.of_nat d ->
  (forall x, x <> 2 * i -> x ∉ path <$> copath_spec (Z.of_nat d) 0 i -> nd v' x = nd v x) -> path_change i v v'.
Proof.
  intros Hd Hi Heq k j Hj Hne.
  destruct (decide (node (Z.of_nat k) j = 2 * i)) as [E|E].
  - rewrite <- node_0 in E. apply node_inj in E as [-> ->]; [|lia..]. by rewrite Z.shiftr_0_r.
  - destruct (decide (node (Z.of_nat k) j ∈ path <$> copath_spec (Z.of_nat d) 0 i)) as [Hin|Hin].
    + destruct (path_in_spec d i Hd Hi _ Hin) as (k' & E' & _).
      apply node_inj in E' as [Ek ->]; [|lia|done|lia|apply Z.shiftr_nonneg; lia]. by rewrite Ek.
    + by destruct Hne; apply Heq.
Qed.

(** What is known of the tree [t'] after the path of leaf [i] of [t] is linked. *)
Definition committed (i : Z) (t : TreeKemPublic) (h : ParentHash) (t' : TreeKemPublic) : Prop :=
  linked (nodes t') (tree_hashes t') h (live (nodes t) (vec_direct_copath (nodes t) i)) /\
  hashes_current (nodes t') (tree_hashes t') /\ index t' = index t /\ zlen (nodes t') = zlen (nodes t) /\
  (forall x, x <> 2 * i -> node_shape (nd (nodes t) x) (nd (nodes t') x)) /\
  (forall x, x <> 2 * i -> x ∉ path <$> live (nodes t) (vec_direct_copath (nodes t) i) -> nd (nodes t') x = nd (nodes t) x) /\
  sized (depth (nodes t)) (tree_hashes t').

Lemma committed_off i t h t' x : committed i t h t' -> x <> 2 * i -> x ∉ path <$> vec_direct_copath (nodes t) i ->
  nd (nodes t') x = nd (nodes t) x.
Proof. intros (_ & _ & _ & _ & _ & Ho & _) Hx Hn. apply Ho; [done|]. intros Hlive. by apply Hn, (live_path_sub (nodes t)). Qed.
End update.

Section update_theorem.
Context `{CipherSuiteProvider, !HashLaws} (v0 : NodeVec) (t : TreeKemPublic) (i : Z) (l : LeafNode).
Context (Hlen : zlen (nodes t) <= 2 ^ 26) (Hl : leaf_at (nodes t) i = Some l)
  (Henc : tree_encodable (nodes t)) (Hcur : hashes_current v0 (tree_hashes t))
  (Hch : path_change i v0 (nodes t))
  (Hpath : forall cp, cp ∈ live (nodes t) (vec_direct_copath (nodes t) i) ->
     is_Some (parent_at (nodes t) (path cp))).

(** The first two steps: recompute the hashes, then link the path. *)
Lemma link_path : exists hs h v',
  update_hashes [i] t = (Ok tt, set_tree_hashes hs t) /\
  parent_hash_for_leaf i (set_tree_hashes hs t) = (Ok h, set_nodes v' (set_tree_hashes hs t)) /\
  zlen h <= 255 /\ linked v' hs h (live (nodes t) (vec_direct_copath (nodes t) i)) /\
  same_shape (nodes t) v' /\ zlen v' = zlen (nodes t) /\ sized (depth (nodes t)) hs /\ hashes_current (nodes t) hs /\
  (forall x, x ∉ path <$> live (nodes t) (vec_direct_copath (nodes t) i) -> nd v' x = nd (nodes t) x).
Proof using Type*.
  destruct (leaf_at_depth _ _ _ Hlen Hl) as (Hi & Hd & Ecp).
  destruct (update_hashes_total i v0 t Hlen Henc Hcur Hch ltac:(lia)) as (hs & Hu & Hs & Hc).
  set (cps := vec_direct_copath (nodes t) i) in *.
  destruct (parent_hash_loop_spec (reverse cps) (set_tree_hashes hs t) parent_hash_empty [])
    as (h & v' & Hloop & Hzh & Hlink & Hsh & Hz & Ho).
  - apply Forall_reverse. rewrite Ecp. by apply copath_spec_ok.
  - rewrite app_nil_r, fmap_reverse, reverse_Permutation, Ecp. by apply copath_spec_NoDup.
  - intros cp Hcp. rewrite elem_of_reverse in Hcp. cbn [tree_hashes set_tree_hashes]. rewrite Ecp in Hcp.
    destruct (copath_spec_in_tree _ i Hd Hi cp Hcp) as (k & _ & Hin & -> & _).
    assert (node (Z.of_nat k) (Z.lxor (Z.shiftr i (Z.of_nat k)) 1) < zlen hs) as Hb
      by (rewrite Hs; apply in_tree_node_bound in Hin; lia).
    destruct Hin as [_ [Hnn _]]. destruct (Hc k _ Hnn Hb) as (x & Hx & Hzx). exists x. split; [done|].
    destruct (node_hash_total (nodes t) k (Z.lxor (Z.shiftr i (Z.of_nat k)) 1) Henc) as (y & Hy & Hzy).
    congruence.
  - cbn [nodes set_tree_hashes]. intros cp Hcp. destruct (Hpath cp) as [p Hp].
    { unfold live in *. apply list_elem_of_In, filter_In in Hcp as [Hcp%list_elem_of_In Hb].
      apply list_elem_of_In, filter_In. split; [|done]. apply list_elem_of_In. by rewrite elem_of_reverse in Hcp. }
    exists p. split; [done|]. destruct Henc as [_ He]. apply He in Hp. by apply encodable_parent in Hp as [? _].
  - done.
  - done.
  - exists hs, h, v'. split; [done|]. split.
    { unfold parent_hash_for_leaf. rewrite sm_get_run. exact Hloop. }
    split; [done|]. rewrite reverse_involutive, app_nil_r in Hlink. split; [exact Hlink|].
    split; [exact Hsh|]. split; [exact Hz|]. split; [done|]. split; [done|]. intros x Hx. apply Ho.
    unfold live in *. cbn [nodes set_tree_hashes]. by rewrite filter_reverse_list, fmap_reverse, elem_of_reverse.
Qed.

(** The last step: recompute the hashes after the leaf was installed. *)
Lemma finish_commit hs h v' v'' :
  linked v' hs h (live (nodes t) (vec_direct_copath (nodes t) i)) ->
  same_shape (nodes t) v' -> sized (depth (nodes t)) hs -> hashes_current (nodes t) hs ->
  (forall x, x ∉ path <$> live (nodes t) (vec_direct_copath (nodes t) i) -> nd v' x = nd (nodes t) x) ->
  zlen v'' = zlen (nodes t) -> tree_encodable v'' -> (forall x, x <> 2 * i -> nd v'' x = nd v' x) ->
  exists hs', update_hashes [i] (mk_tree_kem_public (index t) v'' hs) = (Ok tt, mk_tree_kem_public (index t) v'' hs') /\
    committed i t h (mk_tree_kem_public (index t) v'' hs').
Proof using Type*.
  intros Hlink Hsh Hs Hc Ho Hz He Hleaf.
  destruct (leaf_at_depth _ _ _ Hlen Hl) as (Hi & Hd & Ecp). rewrite Ecp in *.
  set (cps := copath_spec (Z.of_nat (depth (nodes t))) 0 i) in *.
  assert (path_change i (nodes t) v'') as Hpc.
  { apply (path_change_same i _ _ (depth (nodes t)) Hd Hi). intros x Hx1 Hx2. rewrite Hleaf by done. apply Ho. intros Hx3. by apply Hx2, (live_path_sub (nodes t)). }
  destruct (update_hashes_total i (nodes t) (mk_tree_kem_public (index t) v'' hs))
    as (hs' & Hu & Hs' & Hc'); [by cbn; rewrite Hz|done|done|done|lia|].
  exists hs'. split; [exact Hu|]. cbn [nodes] in *.
  assert (depth v'' = depth (nodes t)) as Edep by (unfold depth, total_leaf_count; by rewrite Hz).
  rewrite Edep in Hs'.
  unfold committed. rewrite Ecp. cbn [nodes tree_hashes index].
  split; [|split; [done|split; [done|split; [exact Hz|split; [|split; [|exact Hs']]]]]].
  - assert (linked v'' hs h (live (nodes t) cps)) as Hlink'.
    { eapply linked_ext; [|exact Hlink]. intros cp Hcp. split; [|done]. unfold parent_at. rewrite Hleaf; [done|].
      assert (path cp ∈ path <$> cps) as Hin.
      { apply list_elem_of_fmap. exists cp. split; [done|]. unfold live in Hcp.
        by apply list_elem_of_In, filter_In in Hcp as [?%list_elem_of_In _]. }
      intros E. destruct (path_in_spec _ i Hd Hi _ Hin) as (k & Ek & Hk). rewrite E, <- node_0 in Ek.
      apply node_inj in Ek; [lia|lia|lia|lia|apply Z.shiftr_nonneg; lia]. }
    eapply (linked_ext v''); [|exact Hlink']. intros cp Hcp. split; [done|].
    unfold live in Hcp. apply list_elem_of_In, filter_In in Hcp as [Hcp%list_elem_of_In _].
    destruct (copath_spec_in_tree _ i Hd Hi cp Hcp) as (k & Hk & Hin & E & _).
    assert (node (Z.of_nat k) (Z.lxor (Z.shiftr i (Z.of_nat k)) 1) < 2 * 2 ^ Z.of_nat (depth (nodes t)) - 1) as Hb
      by (apply in_tree_node_bound in Hin; lia).
    destruct Hin as [_ [Hnn _]].
    destruct (Hc k _ Hnn ltac:(by rewrite Hs)) as (x & Hx & Hzx).
    destruct (Hc' k _ Hnn ltac:(by rewrite Hs')) as (y & Hy & Hzy).
    rewrite (copath_hash_ext i (nodes t) v'') in Hy by done. rewrite E. congruence.
  - intros x Hx. rewrite Hleaf by done. apply Hsh.
  - intros x Hx Hnp. by rewrite Hleaf, Ho.
Qed.
End update_theorem.

Lemma same_shape_leaf v v' i l : same_shape v v' -> leaf_at v i = Some l -> leaf_at v' i = Some l.
Proof.
  intros Hs Hl%nd_leaf_at. unfold leaf_at. destruct (Hs (2 * i)) as [<-|(p & h & _ & E & _)]; [by rewrite Hl|congruence].
Qed.

(** ** Validation *)

Section validate.
Context `{CipherSuiteProvider} (v : NodeVec) (hs : list TreeHash) (d : nat) (Hd : Z.of_nat d <= 26).
Notation D := (Z.of_nat d).

(** RFC 9420, section 7.9.2: the parent node [x] is valid with respect to a
    node [n] below one of its children [c], with [s] the other child. *)
Definition parent_hash_valid (x : Z) : Prop :=
  exists p n nd_n c s sh r u,
    ((c = left_unchecked 32 x /\ s = right_unchecked 32 x) \/
     (c = right_unchecked 32 x /\ s = left_unchecked 32 x)) /\
    borrow_as_parent v x = Ok p /\ nd v n = Some nd_n /\ zget hs s = Some sh /\
    get_parent_hash nd_n = res_ok (parent_hash_new (parent_public_key p) (parent_hash p) sh) /\
    is_Some (get_parent_hash nd_n) /\
    get_resolution_index v c = Ok r /\ n ∈ r /\
    unmerged_in_subtree v x c = Ok u /\
    (list_to_set r ∖ {[n]} : gset Z) = list_to_set ((fun l => wrap 32 (l * 2)) <$> u).

Lemma skip_blanks_spec fuel : forall k j r, in_tree D k j -> k < D ->
  skip_blanks fuel v (2 ^ D) (mk_parent_sibling (node (k + 1) (Z.shiftr j 1)) (node k (Z.lxor j 1))) = Ok r ->
  match r with
  | Some ps => exists k j, in_tree D k j /\ k < D /\
      ps = mk_parent_sibling (node (k + 1) (Z.shiftr j 1)) (node k (Z.lxor j 1)) /\
      is_blank v (parent ps) = Ok false
  | None => is_blank v (root 32 (2 ^ D)) = Ok true
  end.
Proof using Hd.
  induction fuel as [|fuel IH]; intros k j r Hin Hk; cbn [skip_blanks parent].
  all: intros (b & Hb & Hr)%bind_Ok; destruct b; cbn [negb] in Hr;
    [|injection Hr as <-; exists k, j; by split_and!].
  - done.
  - pose proof (in_tree_parent D k j Hin Hk) as Hp. rewrite parent_sibling_node in Hr by (lia || done).
    destruct (Z.eqb_spec (k + 1) D) as [E|E].
    + injection Hr as <-. rewrite root_pow2 by lia. rewrite E in Hb, Hp. destruct Hp as [_ Hp].
      rewrite Z.sub_diag in Hp. change (2 ^ 0) with 1 in Hp. by replace (Z.shiftr j 1) with 0 in Hb by lia.
    + apply (IH _ _ _ Hp) in Hr; [done|lia].
Qed.

Lemma lxor_1_1 j : Z.lxor (Z.lxor j 1) 1 = j.
Proof. by rewrite Z.lxor_assoc, Z.lxor_nilpotent, Z.lxor_0_r. Qed.

Lemma children_of k j : in_tree D k j -> k < D ->
  (node k j = left_unchecked 32 (node (k + 1) (Z.shiftr j 1)) /\
     node k (Z.lxor j 1) = right_unchecked 32 (node (k + 1) (Z.shiftr j 1))) \/
  (node k j = right_unchecked 32 (node (k + 1) (Z.shiftr j 1)) /\
     node k (Z.lxor j 1) = left_unchecked 32 (node (k + 1) (Z.shiftr j 1))).
Proof using Hd.
  intros [Hk Hj] Hlt. pose proof (Z.shiftr_nonneg j 1) as Hs.
  rewrite left_unchecked_node, right_unchecked_node by lia. replace (k + 1 - 1) with k by lia.
  rewrite (shiftr1_lxor j) by lia.
  assert (j = 2 * Z.shiftr j 1 + Z.b2z (Z.testbit j 0)) as E.
  { rewrite Z.bit0_odd, <- Z.div2_spec. apply Z.div2_odd. }
  destruct (Z.testbit j 0); cbn [Z.b2z] in E; [right|left]; split; f_equal; lia.
Qed.

Lemma validate_chain_sound fuel : forall k j to_validate e, in_tree D k j ->
  validate_chain fuel v hs (2 ^ D) (node k j) to_validate = Ok e ->
  match e with
  | ChainDone left => left ⊆ to_validate /\ forall x, x ∈ to_validate -> x ∉ left -> parent_hash_valid x
  | ReturnOk => is_blank v (root 32 (2 ^ D)) = Ok true
  end.
Proof using Hd.
  induction fuel as [|fuel IH]; intros k j tv e Hin; cbn [validate_chain];
    rewrite parent_sibling_node by (lia || done);
    (destruct (Z.eqb_spec k D) as [E|E]; [intros [= <-]; by split|]); [done|].
  intros (ps & Hps & He)%bind_Ok. apply skip_blanks_spec in Hps; [|done|destruct Hin; lia].
  destruct ps as [ps|]; [|by injection He as <-].
  destruct Hps as (k1 & j1 & Hin1 & Hk1 & -> & Hblank). cbn [parent sibling] in *.
  apply bind_Ok in He as (p & Hp & He). apply bind_Ok in He as (nn & Hnn & He).
  apply bind_Ok in He as (sh & Hsh & He). apply bind_Ok in He as (h & Hh & He).
  case_bool_decide as Hmatch; [|injection He as <-; by split].
  apply bind_Ok in He as (cp & Hcp & He). apply bind_Ok in He as (m & Hm & He).
  apply ok_or_Ok in Hcp. pose proof (in_tree_sibling D k1 j1 Hin1 Hk1) as Hsib.
  rewrite parent_sibling_node in Hcp by (lia || done).
  destruct (Z.eqb_spec k1 D); [lia|]. injection Hcp as <-. cbn [sibling] in Hm. rewrite lxor_1_1 in Hm.
  destruct m; cbn [andb] in He; [|done]. case_bool_decide as Htv; [|done].
  unfold resolution_matches in Hm. apply bind_Ok in Hm as (r & Hr & Hm). apply bind_Ok in Hm as (u & Hu & Hm).
  injection Hm as Hm. apply andb_true_iff in Hm as [Hm1 Hm2].
  apply bool_decide_eq_true in Hm1. apply bool_decide_eq_true in Hm2. rewrite elem_of_list_to_set in Hm1.
  assert (parent_hash_valid (node (k1 + 1) (Z.shiftr j1 1))) as Hvalid.
  { apply bind_Ok in Hnn as (on & Hon & Hnn). apply ok_or_Ok in Hnn as ->. apply unwrap_Ok in Hsh.
    exists p, (node k j), nn, (node k1 j1), (node k1 (Z.lxor j1 1)), sh, r, u.
    split; [by apply children_of|]. split; [done|]. split.
    { destruct (res_ok_borrow_node v (node k j)) as [E'|[_ [e' E']]]; [apply node_nonneg; destruct Hin; lia|congruence..]. }
    split; [done|]. rewrite Hh. split; [done|]. by rewrite Hmatch. }
  apply IH in He; [|apply in_tree_parent; [done|lia]]. destruct e as [left|]; [|done].
  destruct He as [Hsub Hv]. split; [set_solver|]. intros x Hx Hnx.
  destruct (decide (x = node (k1 + 1) (Z.shiftr j1 1))) as [->|Hne]; [done|]. apply Hv; set_solver.
Qed.

Lemma validate_chains_sound ls : forall to_validate e,
  Forall (fun l => 0 <= l < 2 ^ D) ls ->
  validate_chains v hs (2 ^ D) ls to_validate = Ok e ->
  match e with
  | ChainDone left => left ⊆ to_validate /\ forall x, x ∈ to_validate -> x ∉ left -> parent_hash_valid x
  | ReturnOk => is_blank v (root 32 (2 ^ D)) = Ok true
  end.
Proof using Hd.
  induction ls as [|l ls IH]; intros tv e Hls; cbn [validate_chains]; [intros [= <-]; by split|].
  apply Forall_cons in Hls as [Hl Hls]. assert (2 ^ D <= 2 ^ 26) by (apply Z.pow_le_mono_r; lia).
  change (2 ^ 26) with 67108864 in *.
  intros (e1 & He1 & He)%bind_Ok. rewrite node_index_eq, <- node_0 in He1 by lia.
  apply validate_chain_sound in He1; [|apply in_tree_leaf; lia].
  destruct e1 as [left|]; [|by injection He as <-]. destruct He1 as [Hsub Hv].
  apply IH in He; [|done]. destruct e as [left'|]; [|done]. destruct He as [Hsub' Hv'].
  split; [set_solver|]. intros x Hx Hnx. destruct (decide (x ∈ left)) as [Hin|Hin]; [by apply Hv'|by apply Hv].
Qed.
End validate.


Lemma update_parent_hashes_spec `{CipherSuiteProvider, !HashLaws} (v0 : NodeVec) (t : TreeKemPublic)
    (i : Z) (l : LeafNode)
    (Hlen : zlen (nodes t) <= 2 ^ 26) (Hl : leaf_at (nodes t) i = Some l)
    (Henc : tree_encodable (nodes t)) (Hcur : hashes_current v0 (tree_hashes t))
    (Hch : path_change i v0 (nodes t))
    (Hpath : forall cp, cp ∈ live (nodes t) (vec_direct_copath (nodes t) i) ->
       is_Some (parent_at (nodes t) (path cp))) :
  exists h,
    (exists t', update_parent_hashes i false t = (Ok tt, t') /\ committed i t h t' /\
       leaf_at (nodes t') i = Some (set_leaf_node_source (SourceCommit h) l)) /\
    match leaf_node_source l with
    | SourceCommit h' =>
        if decide (h' = h) then
          exists t', update_parent_hashes i true t = (Ok tt, t') /\ committed i t h t' /\
            leaf_at (nodes t') i = Some l
        else exists t', update_parent_hashes i true t = (Err ParentHashMismatch, t')
    | _ => exists t', update_parent_hashes i true t = (Err InvalidLeafNodeSource, t')
    end.
Proof.
  destruct (link_path v0 t i l) as (hs & h & v' & Hu & Hloop & Hzh & Hlink & Hsh & Hz & Hs & Hc & Ho); [done..|].
  destruct (leaf_at_depth _ _ _ Hlen Hl) as (Hi & Hd & _).
  pose proof (same_shape_leaf _ _ _ _ Hsh Hl) as Hl'. pose proof (encodable_shape _ _ Henc Hsh) as Henc'.
  assert (0 <= i < 2 ^ 31) as Hi31.
  { assert (2 ^ Z.of_nat (depth (nodes t)) <= 2 ^ 26) by (apply Z.pow_le_mono_r; lia).
    change (2 ^ 26) with 67108864 in *. lia. }
  pose proof (nd_bound _ _ _ (nd_leaf_at _ _ _ Hl')) as Hb.
  assert (forall verify, update_parent_hashes i verify t =
    (_ ← (if verify : bool then
         match leaf_node_source l with
         | SourceCommit parent_hash =>
             if matches h parent_hash then mret tt else sm_lift (Err ParentHashMismatch)
         | _ => sm_lift (Err InvalidLeafNodeSource)
         end
       else zoom_nodes (update_leaf i (set_leaf_node_source (SourceCommit h))));
     update_hashes [i]) (mk_tree_kem_public (index t) v' hs)) as Hrun.
  { intros verify. unfold update_parent_hashes. rewrite (sm_bind_run _ _ _ _ _ Hu), (sm_bind_run _ _ _ _ _ Hloop).
    rewrite sm_get_run, (sm_lift_run _ _ _ l) by (apply borrow_as_leaf_mut_eq; [exact Hl'|exact Hi31]). reflexivity. }
  exists h. split.
  - set (v'' := zset v' (2 * i) (Some (NodeLeaf (set_leaf_node_source (SourceCommit h) l)))).
    destruct (finish_commit v0 t i l Hlen Hl Henc Hcur Hch Hpath hs h v' v'') as (hs' & Hu' & Hcom);
      [exact Hlink|exact Hsh|exact Hs|exact Hc|exact Ho|..].
    { unfold v''. by rewrite zlen_zset. }
    { by apply encodable_set_leaf. }
    { intros x Hx. by apply nd_zset_ne. }
    eexists. rewrite Hrun. erewrite sm_bind_run; [split; [exact Hu'|]|]; cycle 1.
    { unfold zoom_nodes, sm_zoom, update_leaf. cbn [nodes]. rewrite (borrow_as_leaf_mut_eq _ _ l) by done.
      by rewrite node_index_eq. }
    split; [done|]. unfold leaf_at. cbn [nodes]. unfold v''. by rewrite nd_zset_eq.
  - specialize (Hrun true). destruct (leaf_node_source l) as [| |h'] eqn:Esrc; [eexists; rewrite Hrun; reflexivity..|].
    unfold matches in Hrun. destruct (decide (h' = h)) as [E|E].
    + rewrite bool_decide_eq_true_2 in Hrun by done.
      destruct (finish_commit v0 t i l Hlen Hl Henc Hcur Hch Hpath hs h v' v') as (hs' & Hu' & Hcom);
        [exact Hlink|exact Hsh|exact Hs|exact Hc|exact Ho|exact Hz|exact Henc'|done|].
      eexists. rewrite Hrun. split; [exact Hu'|]. split; [done|]. exact Hl'.
    + rewrite bool_decide_eq_false_2 in Hrun by done. eexists. rewrite Hrun. reflexivity.
Qed.

(** ** Theorems *)

(** C25: parent hashes of a committed path.  A tree has stored hashes that are
    out of date at most on the path of leaf [i], and the nodes of that path
    whose other child has members below it are present.  Then
    [update_parent_hashes] computes one parent hash [h] for the leaf such that
    each of these nodes carries the hash of the next of them and the last the
    empty hash ([committed]), and leaves all stored hashes current.  In these
    nodes nothing but the parent hash changes, and no other node changes but the
    leaf: without verification [h] is stored in it; with verification the call
    succeeds exactly when the leaf already carries [h]. *)
Theorem update_parent_hashes_links `{CipherSuiteProvider, !HashLaws} (v0 : NodeVec) (t : TreeKemPublic)
    (i : Z) (l : LeafNode)
    (Hlen : zlen (nodes t) <= 2 ^ 26) (Hl : leaf_at (nodes t) i = Some l)
    (Henc : tree_encodable (nodes t)) (Hcur : hashes_current v0 (tree_hashes t))
    (Hch : path_change i v0 (nodes t))
    (Hpath : forall cp, cp ∈ live (nodes t) (vec_direct_copath (nodes t) i) ->
       is_Some (parent_at (nodes t) (path cp))) :
  exists h,
    (exists t', update_parent_hashes i false t = (Ok tt, t') /\ committed i t h t' /\
       leaf_at (nodes t') i = Some (set_leaf_node_source (SourceCommit h) l)) /\
    match leaf_node_source l with
    | SourceCommit h' =>
        if decide (h' = h) then
          exists t', update_parent_hashes i true t = (Ok tt, t') /\ committed i t h t' /\
            leaf_at (nodes t') i = Some l
        else exists t', update_parent_hashes i true t = (Err ParentHashMismatch, t')
    | _ => exists t', update_parent_hashes i true t = (Err InvalidLeafNodeSource, t')
    end.
Proof. by apply (update_parent_hashes_spec v0). Qed.

Definition sample_hash_tree : TreeKemPublic :=
  mk_tree_kem_public tree_index_new
    [Some (NodeLeaf sample_leaf); Some (NodeParent (mk_parent [1] [] [])); Some (NodeLeaf sample_leaf);
     Some (NodeParent (mk_parent [2] [] [])); Some (NodeLeaf sample_leaf)] [].

Lemma update_parent_hashes_links_witness :
  exists h t', update_parent_hashes (H := Toy.provider) 0 false sample_hash_tree = (Ok tt, t') /\
    committed (H := Toy.provider) 0 sample_hash_tree h t'.
Proof.
  destruct (update_parent_hashes_links (H := Toy.provider) (H0 := Toy.hash_laws) (nodes sample_hash_tree) sample_hash_tree 0 sample_leaf)
    as (h & (t' & H1 & H2 & _) & _).
  - done.
  - done.
  - split.
    + intros i l Hl%nd_leaf_at. exists (default [] (res_ok (mls_encode_to_vec leaf_node_codec sample_leaf))).
      pose proof (nd_bound _ _ _ Hl) as Hb. change (zlen (nodes sample_hash_tree)) with 5 in Hb.
      assert (i = 0 \/ i = 1 \/ i = 2) as [->|[->| ->]] by lia; injection Hl as <-; by vm_compute.
    + intros x p Hp%nd_parent_at. pose proof (nd_bound _ _ _ Hp) as Hb.
      change (zlen (nodes sample_hash_tree)) with 5 in Hb.
      assert (x = 0 \/ x = 1 \/ x = 2 \/ x = 3 \/ x = 4) as [->|[->|[->|[->| ->]]]] by lia;
        try discriminate Hp; injection Hp as <-; by eexists.
  - intros k j Hj Hlt. pose proof (node_nonneg (Z.of_nat k) j ltac:(lia) Hj).
    change (zlen (tree_hashes _)) with 0 in Hlt. lia.
  - by intros k j Hj Hne.
  - intros cp Hcp.
    assert (live (nodes sample_hash_tree) (vec_direct_copath (nodes sample_hash_tree) 0)
      = [mk_copath_node 1 2; mk_copath_node 3 5]) as E by (by vm_compute).
    rewrite E in Hcp. apply elem_of_cons in Hcp as [->|Hcp]; [by eexists|].
    apply elem_of_cons in Hcp as [->|Hcp]; [by eexists|]. destruct (not_elem_of_nil _ Hcp).
  - exists h, t'. split; [exact H1|exact H2].
Defined.

(** A walk over blank ancestors only reaches the root. *)
Lemma skip_blanks_all v d fuel : Z.of_nat d <= 26 -> forall k j, in_tree (Z.of_nat d) k j -> k < Z.of_nat d ->
  Z.of_nat d - k <= Z.of_nat fuel ->
  (forall m, 0 <= m < Z.of_nat d - k -> is_blank v (node (k + m + 1) (Z.shiftr j (m + 1))) = Ok true) ->
  skip_blanks fuel v (2 ^ Z.of_nat d) (mk_parent_sibling (node (k + 1) (Z.shiftr j 1)) (node k (Z.lxor j 1))) = Ok None.
Proof.
  intros Hd. induction fuel as [|fuel IH]; intros k j Hin Hk Hf Hb; cbn [skip_blanks parent]; [lia|].
  pose proof (Hb 0 ltac:(lia)) as Hb0. rewrite Z.add_0_r in Hb0. change (0 + 1) with 1 in Hb0. rewrite Hb0.
  cbn [mbind res_bind negb].
  pose proof (in_tree_parent _ k j Hin Hk) as Hp. rewrite parent_sibling_node by (lia || done).
  destruct (Z.eqb_spec (k + 1) (Z.of_nat d)) as [E|E]; [done|].
  apply IH; [done|lia|lia|]. intros m Hm. rewrite Z.shiftr_shiftr by lia.
  specialize (Hb (m + 1) ltac:(lia)).
  replace (k + 1 + m + 1) with (k + (m + 1) + 1) by lia. by replace (1 + (m + 1)) with (m + 1 + 1) by lia.
Qed.

(** C26: validation of an imported tree.  When the root is not blank and
    validation succeeds, every parent node of the tree satisfies the condition
    of RFC 9420, section 7.9.2, with respect to the original tree hashes. *)
Theorem validate_parent_hashes_sound `{CipherSuiteProvider} (t : TreeKemPublic)
    (Hlen : zlen (nodes t) <= 2 ^ 26)
    (Hroot : is_blank (nodes t) (root 32 (total_leaf_count (nodes t))) <> Ok true)
    (Hok : validate_parent_hashes t = Ok tt) :
  exists hs, compute_original_hashes t = Ok hs /\
    forall x p, nd (nodes t) x = Some (NodeParent p) -> Z.odd x = true ->
      parent_hash_valid (nodes t) hs x.
Proof.
  destruct (total_leaf_count_depth _ Hlen) as [E Hd]. unfold validate_parent_hashes in Hok.
  apply bind_Ok in Hok as (hs & Hhs & Hok). exists hs. split; [done|]. apply bind_Ok in Hok as (e & He & Hok).
  rewrite E in *. apply validate_chains_sound in He; [|done|]; cycle 1.
  { apply Forall_fmap, Forall_forall. intros [l leaf] Hl%elem_of_non_empty_leaves.
    destruct (leaf_at_depth (nodes t) l leaf Hlen) as (? & _); [unfold leaf_at; by rewrite Hl|done]. }
  destruct e as [left|]; [|done]. res_inv. destruct He as [_ Hv]. intros x p Hx Hodd.
  apply bool_decide_eq_true in Hok as ->. apply Hv; [|set_solver].
  apply elem_of_list_to_set, list_elem_of_fmap. exists (x, p). split; [done|].
  by apply elem_of_non_empty_parents.
Qed.

(** What validation misses.  When the path of the first member is blank up
    to the root, the walk from its leaf returns from the whole function instead
    of ending this walk only: the tree is accepted whatever its other parent
    nodes contain. *)
Theorem validate_parent_hashes_returns_early `{CipherSuiteProvider} (t : TreeKemPublic) (hs : list TreeHash)
    (l : Z) (leaf : LeafNode) (rest : list (Z * LeafNode))
    (Hlen : zlen (nodes t) <= 2 ^ 26) (Hd : (0 < depth (nodes t))%nat)
    (Hhs : compute_original_hashes t = Ok hs)
    (Hfirst : non_empty_leaves (nodes t) = (l, leaf) :: rest)
    (Hblank : forall cp, cp ∈ vec_direct_copath (nodes t) l -> is_blank (nodes t) (path cp) = Ok true) :
  validate_parent_hashes t = Ok tt.
Proof.
  unfold validate_parent_hashes. rewrite Hhs, Hfirst. cbn [mbind res_bind fmap list_fmap fst validate_chains].
  assert (leaf_at (nodes t) l = Some leaf) as Hl.
  { unfold leaf_at. rewrite (proj1 (elem_of_non_empty_leaves (nodes t) l leaf)); [done|]. rewrite Hfirst. by left. }
  destruct (leaf_at_depth _ _ _ Hlen Hl) as (Hi & Hd26 & Ecp). rewrite Ecp in Hblank.
  destruct (total_leaf_count_depth _ Hlen) as [E _]. rewrite E.
  assert (2 ^ Z.of_nat (depth (nodes t)) <= 2 ^ 26) by (apply Z.pow_le_mono_r; lia).
  change (2 ^ 26) with 67108864 in *. rewrite node_index_eq, <- node_0 by lia.
  assert (in_tree (Z.of_nat (depth (nodes t))) 0 l) as Hin by (apply in_tree_leaf; lia).
  cbn [validate_chain]. rewrite parent_sibling_node by (lia || done).
  destruct (Z.eqb_spec 0 (Z.of_nat (depth (nodes t)))); [lia|].
  rewrite (skip_blanks_all _ _ 32 Hd26 0 l Hin); [done|lia|lia|]. intros m Hm.
  apply (Hblank (mk_copath_node _ (node (0 + m) (Z.lxor (Z.shiftr l m) 1)))).
  apply elem_of_copath_spec. by exists m.
Qed.

(** A tree whose only occupied parent node is not linked to any leaf. *)
Definition unlinked_tree : TreeKemPublic :=
  snd (initialize_hashes (H := Toy.provider) (mk_tree_kem_public tree_index_new
    [Some (NodeLeaf sample_leaf); None; Some (NodeLeaf sample_leaf); None;
     Some (NodeLeaf sample_leaf); Some (NodeParent (mk_parent [66] [6; 6; 6] [])); Some (NodeLeaf sample_leaf)] [])).

Lemma validate_parent_hashes_returns_early_witness :
  validate_parent_hashes (H := Toy.provider) unlinked_tree = Ok tt /\
  forall hs, ~ parent_hash_valid (H := Toy.provider) (nodes unlinked_tree) hs 5.
Proof.
  split.
  - destruct (compute_original_hashes (H := Toy.provider) unlinked_tree) as [hs| |] eqn:E;
      [|vm_compute in E; discriminate..].
    apply (validate_parent_hashes_returns_early unlinked_tree hs 0 sample_leaf
      [(1, sample_leaf); (2, sample_leaf); (3, sample_leaf)]).
    + by vm_compute.
    + vm_compute. lia.
    + exact E.
    + by vm_compute.
    + clear E. intros cp Hcp.
      assert (vec_direct_copath (nodes unlinked_tree) 0 = [mk_copath_node 1 2; mk_copath_node 3 5]) as E'
        by (vm_compute; reflexivity).
      rewrite E' in Hcp. apply elem_of_cons in Hcp as [->|Hcp]; [vm_compute; reflexivity|].
      apply elem_of_cons in Hcp as [->|Hcp]; [vm_compute; reflexivity|]. destruct (not_elem_of_nil _ Hcp).
  - intros hs (p & n & nd_n & c & s & sh & r & u & Hcs & _ & Hn & _ & _ & Hsome & Hr & Hin & _).
    assert (nodes unlinked_tree = [Some (NodeLeaf sample_leaf); None; Some (NodeLeaf sample_leaf); None;
      Some (NodeLeaf sample_leaf); Some (NodeParent (mk_parent [66] [6; 6; 6] [])); Some (NodeLeaf sample_leaf)])
      as E by (vm_compute; reflexivity).
    rewrite E in Hn, Hr. clear E.
    assert (c = 4 \/ c = 6) as Hc by (destruct Hcs as [[-> _]|[-> _]]; [left|right]; vm_compute; reflexivity).
    clear Hcs. destruct Hc as [-> | ->].
    + assert (r = [4]) as -> by (injection Hr; congruence).
      apply list_elem_of_singleton in Hin as ->. injection Hn as <-. by destruct Hsome.
    + assert (r = [6]) as -> by (injection Hr; congruence).
      apply list_elem_of_singleton in Hin as ->. injection Hn as <-. by destruct Hsome.
Defined.

Definition linked_tree : TreeKemPublic :=
  snd (update_parent_hashes (H := Toy.provider) 0 false sample_hash_tree).

Lemma validate_parent_hashes_sound_witness :
  exists hs, compute_original_hashes (H := Toy.provider) linked_tree = Ok hs /\
    parent_hash_valid (H := Toy.provider) (nodes linked_tree) hs 3.
Proof.
  destruct (validate_parent_hashes_sound (H := Toy.provider) linked_tree) as (hs & H1 & H2).
  - by vm_compute.
  - by vm_compute.
  - by vm_compute.
  - exists hs. split; [exact H1|]. eapply (H2 3); [|done]. vm_compute. reflexivity.
Defined.
