(* ===== verification/TreeInv.v ===== *)
(** * The invariant of the ratchet tree

    What the operations of mls-rs/src/tree_kem/mod.rs maintain of a node vector
    (mls-rs/src/tree_kem/node.rs) and of its index
    (mls-rs/src/tree_kem/tree_index.rs), and the lemmas by which the vector's
    mutators preserve it.  While a batch of updates is applied, the parent
    nodes above the leaves being replaced are temporarily out of order: these
    leaves are the [dirty] ones. *)

From Stdlib Require Import Sorted.
From S2P Require Import Prelude Codec Crypto TreeMath Data NodeVec TreeIndex TreeHash ParentHash.

#[local] Set Default Goal Selector "!".
Local Open Scope Z_scope.

(** The unmerged leaves of the parent at level [k] and position [j]: they are
    listed in order, are members below the node, and precede every blank leaf
    below it. *)
Definition unmerged_ok (v : NodeVec) (k : nat) (j : Z) (u : list Z) : Prop :=
  StronglySorted Z.lt u /\
  forall l, l ∈ u -> 0 <= l /\ j = Z.shiftr l (Z.of_nat k) /\ is_Some (leaf_at v l) /\
    forall b, 0 <= b -> j = Z.shiftr b (Z.of_nat k) -> leaf_at v b = None -> l < b.

Record vec_inv (dirty : list Z) (v : NodeVec) : Prop := {
  vi_shape : leaf_shaped v;
  vi_parity x n : nd v x = Some n ->
    match n with NodeLeaf _ => Z.odd x = false | NodeParent _ => Z.odd x = true end;
  vi_unmerged (k : nat) j p : 0 <= j -> parent_at v (node (Z.of_nat k) j) = Some p ->
    (forall i, i ∈ dirty -> j <> Z.shiftr i (Z.of_nat k)) -> unmerged_ok v k j (unmerged_leaves p);
  (** both subtrees of a parent node have members *)
  vi_members (k : nat) j p : 0 <= j -> parent_at v (node (Z.of_nat (S k)) j) = Some p ->
    (forall i, i ∈ dirty -> j <> Z.shiftr i (Z.of_nat (S k))) ->
    forall b, b = 0 \/ b = 1 ->
    exists l, 0 <= l /\ Z.shiftr l (Z.of_nat k) = 2 * j + b /\ is_Some (leaf_at v l);
}.

(** ** Lists of members *)

Lemma elem_of_members v i l : (i, l) ∈ non_empty_leaves v <-> leaf_at v i = Some l.
Proof.
  rewrite elem_of_non_empty_leaves. unfold leaf_at.
  destruct (nd v (2 * i)) as [[]|]; naive_solver.
Qed.

Lemma enumerate_NoDup {A} (l : list A) : NoDup (enumerate l).*1.
Proof.
  unfold enumerate. rewrite fst_zip; [apply NoDup_seqZ|]. rewrite length_seqZ. unfold zlen. lia.
Qed.

Lemma omap_fst_NoDup {A B C} (f : B -> option C) (l : list (A * B)) :
  NoDup l.*1 -> NoDup (omap (fun '(i, x) => (fun y => (i, y)) <$> f x) l).*1.
Proof.
  induction l as [|[i x] l IH]; [done|]. rewrite fmap_cons. intros [Hi Hn]%NoDup_cons. cbn [omap list_omap].
  destruct (f x) as [y|]; cbn [fmap option_fmap option_map]; [|by apply IH].
  rewrite fmap_cons. apply NoDup_cons. split; [|by apply IH]. intros Hin. apply Hi.
  apply list_elem_of_fmap in Hin as ([i' y'] & Ei & Hin). simpl in *. subst i'.
  apply list_elem_of_omap in Hin as ([i' x'] & Hin & E). destruct (f x'); simplify_eq/=.
  apply list_elem_of_fmap. by exists (i, x').
Qed.

Lemma members_NoDup v : NoDup (non_empty_leaves v).*1.
Proof. exact (omap_fst_NoDup id _ (enumerate_NoDup (leaves v))). Qed.

Lemma members_perm v ls : NoDup ls.*1 ->
  (forall i l, (i, l) ∈ ls <-> leaf_at v i = Some l) -> ls ≡ₚ non_empty_leaves v.
Proof.
  intros Hn Hl. apply NoDup_Permutation.
  - by apply NoDup_fmap_1 in Hn.
  - pose proof (members_NoDup v) as Hm. by apply NoDup_fmap_1 in Hm.
  - intros [i l]. by rewrite Hl, elem_of_members.
Qed.

Lemma members_same v v' : (forall i, leaf_at v' i = leaf_at v i) ->
  non_empty_leaves v ≡ₚ non_empty_leaves v'.
Proof. intros H. apply members_perm; [apply members_NoDup|]. intros i l. by rewrite H, elem_of_members. Qed.

Lemma members_add v v' i l : leaf_at v i = None -> leaf_at v' i = Some l ->
  (forall i', i' <> i -> leaf_at v' i' = leaf_at v i') ->
  (i, l) :: non_empty_leaves v ≡ₚ non_empty_leaves v'.
Proof.
  intros Hn Hs Ho. apply members_perm.
  - rewrite fmap_cons. apply NoDup_cons. split; [|apply members_NoDup]. intros Hin.
    apply list_elem_of_fmap in Hin as ([i' l'] & E & Hin). simpl in E. subst i'.
    apply elem_of_members in Hin. congruence.
  - intros i' l'. rewrite elem_of_cons, elem_of_members. destruct (decide (i' = i)) as [->|Hne].
    + rewrite Hs, Hn. naive_solver.
    + rewrite Ho by done. naive_solver.
Qed.

Lemma members_fresh v i : leaf_at v i = None -> i ∉ (non_empty_leaves v).*1.
Proof.
  intros Hn Hin. apply list_elem_of_fmap in Hin as ([i' l'] & E & Hin). simpl in E. subst i'.
  apply elem_of_members in Hin. congruence.
Qed.

Lemma members_bound v : zlen (non_empty_leaves v) <= zlen v.
Proof.
  assert (forall A B (f : A -> option B) l, length (omap f l) <= length l)%nat as Ho.
  { intros A B f l. induction l as [|x l IH]; [done|]. cbn [omap list_omap]. destruct (f x); simpl; lia. }
  assert (forall A (l : list A), (length (step_by_2 l) <= length l)%nat /\
    forall x, (length (step_by_2 (x :: l)) <= S (length l))%nat) as Hs.
  { intros A l. induction l as [|y l [IH1 IH2]]; [split; [done|intros x; simpl; lia]|].
    split; [apply IH2|]. intros x. cbn [step_by_2 length]. lia. }
  assert (length (leaves v) <= length v)%nat as H2 by (unfold leaves; rewrite length_fmap; apply Hs).
  unfold non_empty_leaves, zlen at 1. apply Nat2Z.inj_le. etransitivity; [apply Ho|].
  unfold enumerate. rewrite length_zip. lia.
Qed.

(** ** Paths *)

Definition path_of (v : NodeVec) (i : Z) : list Z := path <$> vec_direct_copath v i.

Section paths.
Context (v : NodeVec) (i : Z) (Hv : zlen v <= 2 ^ 26) (Hi : 0 <= i < 2 ^ Z.of_nat (depth v)).

Lemma path_of_eq : path_of v i = path <$> copath_spec (Z.of_nat (depth v)) 0 i.
Proof using Type*.
  destruct (total_leaf_count_depth v Hv) as [E Hd].
  assert (2 ^ Z.of_nat (depth v) <= 2 ^ 26) as Hp by (apply Z.pow_le_mono_r; lia).
  change (2 ^ 26) with 67108864 in *.
  unfold path_of, vec_direct_copath. rewrite E, node_index_eq by lia. rewrite <- node_0.
  rewrite (direct_copath_node 32 _ 0); [done|lia|lia|]. apply in_tree_leaf; lia.
Qed.

Lemma path_of_NoDup : NoDup (path_of v i).
Proof using Type*.
  rewrite path_of_eq. destruct (total_leaf_count_depth v Hv) as [_ Hd]. by apply copath_spec_NoDup.
Qed.

Lemma elem_of_path_of (k : nat) j : 0 <= j -> node (Z.of_nat k) j < zlen v ->
  node (Z.of_nat k) j ∈ path_of v i <-> (0 < k)%nat /\ j = Z.shiftr i (Z.of_nat k).
Proof using Type*.
  intros Hj Hlt. rewrite path_of_eq. destruct (total_leaf_count_depth v Hv) as [E Hd]. split.
  - intros Hin. destruct (path_in_spec _ i Hd Hi _ Hin) as (k' & E' & Hk').
    apply node_inj in E' as [Ek ->]; [|lia|done|lia|apply Z.shiftr_nonneg; lia].
    apply Nat2Z.inj in Ek as ->. done.
  - intros [Hk ->]. apply list_elem_of_fmap.
    exists (mk_copath_node (node (Z.of_nat k) (Z.shiftr i (Z.of_nat k)))
              (node (Z.of_nat k - 1) (Z.lxor (Z.shiftr i (Z.of_nat k - 1)) 1))).
    split; [done|]. apply elem_of_copath_spec. exists (Z.of_nat k - 1).
    replace (0 + (Z.of_nat k - 1) + 1) with (Z.of_nat k) by lia.
    replace (Z.of_nat k - 1 + 1) with (Z.of_nat k) by lia. split; [|done].
    destruct (total_leaf_count_pow v Hv) as (d & _ & E' & Hz). rewrite E in E'. rewrite <- E' in Hz.
    destruct (Z.lt_ge_cases (Z.of_nat (depth v)) (Z.of_nat k)) as [Hlt'|]; [|lia]. exfalso.
    pose proof (Z.pow_le_mono_r 2 (Z.of_nat (depth v) + 1) (Z.of_nat k) ltac:(lia) ltac:(lia)) as Hp.
    rewrite Z.pow_add_r in Hp by lia. unfold node in Hlt.
    assert (0 <= Z.shiftr i (Z.of_nat k) * 2 ^ (Z.of_nat k + 1)) by
      (apply Z.mul_nonneg_nonneg; [done|apply Z.pow_nonneg; lia]). lia.
Qed.
End paths.

Lemma leaf_at_bound v i l : zlen v <= 2 ^ 26 -> leaf_at v i = Some l ->
  0 <= i < 2 ^ Z.of_nat (depth v) /\ 2 * i < zlen v.
Proof.
  intros Hv Hl. destruct (leaf_at_depth v i l Hv Hl) as (? & _). split; [done|].
  apply nd_leaf_at, nd_bound in Hl. lia.
Qed.

Lemma nd_zset_None v x y : nd (zset v y None) x = if decide (x = y) then None else nd v x.
Proof.
  destruct (decide (x = y)) as [->|Hne]; [|by rewrite nd_zset_ne].
  unfold nd. destruct (decide (0 <= y < zlen v)); [by rewrite zget_zset_eq|].
  rewrite (proj2 (zget_None _ y)); [done|]. rewrite zlen_zset. lia.
Qed.

Lemma foldl_blank_spec (cps : list CopathNode) v :
  zlen (foldl (fun v i => zset v (path i) None) v cps) = zlen v /\
  forall x, nd (foldl (fun v i => zset v (path i) None) v cps) x =
    if decide (x ∈ path <$> cps) then None else nd v x.
Proof.
  revert v. induction cps as [|cp cps IH]; intros v; [done|]. cbn [foldl].
  destruct (IH (zset v (path cp) None)) as [Hz Hn]. split; [by rewrite Hz, zlen_zset|].
  intros x. rewrite Hn, nd_zset_None. rewrite fmap_cons.
  destruct (decide (x ∈ path <$> cps)), (decide (x = path cp)), (decide (x ∈ path cp :: (path <$> cps)));
    try done; exfalso; set_solver.
Qed.

Lemma blank_direct_path_spec v i :
  zlen (blank_direct_path i v) = zlen v /\
  forall x, nd (blank_direct_path i v) x = if decide (x ∈ path_of v i) then None else nd v x.
Proof. apply foldl_blank_spec. Qed.

Lemma blank_direct_path_leaf v i i' : zlen v <= 2 ^ 26 -> 0 <= i < 2 ^ Z.of_nat (depth v) ->
  leaf_at (blank_direct_path i v) i' = leaf_at v i'.
Proof.
  intros Hv Hi. unfold leaf_at. rewrite (proj2 (blank_direct_path_spec v i)). destruct (decide _) as [Hin|]; [|done].
  destruct (nd v (2 * i')) as [n|] eqn:E; [|done]. pose proof (nd_bound _ _ _ E). rewrite <- node_0 in Hin.
  apply (elem_of_path_of v i Hv Hi 0) in Hin; [lia|lia|rewrite node_0; lia].
Qed.

Lemma borrow_as_parent_mut_inv v x p : borrow_as_parent_mut v x = Ok p -> parent_at v x = Some p.
Proof.
  unfold borrow_as_parent_mut, validate_index. intros H. destruct (_ <=? _); [done|]. cbn [mbind res_bind] in H.
  apply bind_Ok in H as (n & Hn & Hp). apply ok_or_Ok in Hn, Hp. unfold parent_at, nd. rewrite Hn. simpl.
  destruct n as [[]|]; by simplify_eq.
Qed.

Definition add_unmerged (i : Z) (p : Parent) : Parent :=
  mk_parent (parent_public_key p) (parent_hash p) (unmerged_leaves p ++ [i]).

(** ** Preservation *)

Lemma unmerged_ok_change v v' k j u :
  (forall l, 0 <= l -> j = Z.shiftr l (Z.of_nat k) -> leaf_at v' l = None <-> leaf_at v l = None) ->
  unmerged_ok v k j u -> unmerged_ok v' k j u.
Proof.
  intros Hl [Hs Hu]. split; [done|]. intros l Hin. destruct (Hu l Hin) as (H0 & Hj & Hm & Hb).
  split; [done|]. split; [done|]. split.
  - destruct (leaf_at v' l) eqn:E; [by eexists|]. apply Hl in E; [|done..]. rewrite E in Hm. by destruct Hm.
  - intros b Hb0 Hbj Hbl. apply Hb; [done..|]. by apply Hl.
Qed.

(** Changes of leaves below dirty paths, and blanking of parent nodes. *)
Lemma vec_inv_change dirty dirty' v v' :
  vec_inv dirty v -> zlen v' = zlen v -> (forall i, i ∈ dirty -> i ∈ dirty' \/
    forall (k : nat) p, parent_at v' (node (Z.of_nat k) (Z.shiftr i (Z.of_nat k))) <> Some p) ->
  (forall x n, nd v' x = Some n -> nd v x = Some n \/ ((exists l, n = NodeLeaf l) /\ Z.odd x = false)) ->
  (forall i, i ∉ dirty' -> leaf_at v' i = None <-> leaf_at v i = None) ->
  vec_inv dirty' v'.
Proof.
  intros [Hsh Hpar Hunm Hmem] Hz Hd Hnd Hleaf.
  assert (forall x p, parent_at v' x = Some p -> parent_at v x = Some p) as Hp.
  { intros x p Hp%nd_parent_at. destruct (Hnd _ _ Hp) as [E|[[l ?] _]]; [|done]. unfold parent_at. by rewrite E. }
  assert (forall (k : nat) j, (forall i, i ∈ dirty' -> j <> Z.shiftr i (Z.of_nat k)) ->
    forall l, 0 <= l -> j = Z.shiftr l (Z.of_nat k) -> leaf_at v' l = None <-> leaf_at v l = None) as Hl.
  { intros k j Hj l Hl0 ->. apply Hleaf. intros Hin. by apply (Hj l). }
  assert (forall (k : nat) j p, 0 <= j -> parent_at v' (node (Z.of_nat k) j) = Some p ->
    (forall i, i ∈ dirty' -> j <> Z.shiftr i (Z.of_nat k)) ->
    forall i, i ∈ dirty -> j <> Z.shiftr i (Z.of_nat k)) as Hdd.
  { intros k j p Hj0 Hpp Hj i Hi ->. destruct (Hd i Hi) as [Hin|Hin]; [by apply (Hj i)|by apply (Hin k p)]. }
  split.
  - destruct Hsh as [Ho Hlen]. split; rewrite Hz; [|done]. destruct Ho as [->|]; [|by right].
    left. change (zlen []) with 0 in Hz. destruct v'; [done|]. unfold zlen in Hz. simpl in Hz. lia.
  - intros x n Hn. destruct (Hnd _ _ Hn) as [E|[[l ->] Ho]]; [by apply Hpar|done].
  - intros k j p Hj Hpp Hdirty. eapply unmerged_ok_change; [by apply (Hl k j)|]. apply (Hunm k j p); eauto.
  - intros k j p Hj Hpp Hdirty b Hb. destruct (Hmem k j p Hj ltac:(eauto) ltac:(eauto) b Hb) as (l & Hl0 & Hlj & Hm).
    exists l. split; [done|]. split; [done|]. destruct (leaf_at v' l) eqn:E; [by eexists|].
    assert (j = Z.shiftr l (Z.of_nat (S k))) as Ej.
    { replace (Z.of_nat (S k)) with (Z.of_nat k + 1) by lia. rewrite <- Z.shiftr_shiftr, Hlj by lia.
      rewrite Z.shiftr_div_pow2 by lia. change (2 ^ 1) with 2. divlia. }
    apply (Hl (S k) j Hdirty l Hl0 Ej) in E. rewrite E in Hm. by destruct Hm.
Qed.

Lemma leaf_at_zset_ne v i i' n : i' <> i -> leaf_at (zset v (2 * i) n) i' = leaf_at v i'.
Proof. intros Hne. unfold leaf_at. by rewrite nd_zset_ne by lia. Qed.

Lemma odd_double i : Z.odd (2 * i) = false.
Proof. by rewrite Z.odd_mul. Qed.

Lemma vec_inv_set_leaf dirty v i n : vec_inv dirty v ->
  match n with Some (NodeParent _) => False | _ => True end ->
  (i ∈ dirty \/ (is_Some (leaf_at v i) /\ is_Some n)) ->
  vec_inv dirty (zset v (2 * i) n).
Proof.
  intros Hv Hn Hi. apply (vec_inv_change dirty dirty v); [done|by rewrite zlen_zset|by left| |].
  - intros x m. destruct (decide (2 * i = x)) as [<-|Hne]; [|rewrite nd_zset_ne by done; by left].
    intros Hm. pose proof (nd_bound _ _ _ Hm) as Hb. rewrite zlen_zset in Hb. rewrite nd_zset_eq in Hm by done.
    right. rewrite odd_double. split; [|done]. subst n. destruct m; [by eexists|done].
  - intros i' Hi'. destruct (decide (i' = i)) as [->|Hne]; [|by rewrite leaf_at_zset_ne].
    destruct Hi as [?|[[l Hl] [m ->]]]; [done|]. rewrite Hl. unfold leaf_at.
    rewrite nd_zset_eq by (by eapply nd_bound, nd_leaf_at). by destruct m.
Qed.

Lemma vec_inv_dirty dirty dirty' v : vec_inv dirty v -> dirty ⊆ dirty' -> vec_inv dirty' v.
Proof.
  intros Hv Hs. apply (vec_inv_change dirty dirty' v); [done|done| |by left|done].
  intros i Hi. left. by apply Hs.
Qed.

Lemma vec_inv_blank_path dirty v i : vec_inv (i :: dirty) v -> 0 <= i < 2 ^ Z.of_nat (depth v) ->
  vec_inv dirty (blank_direct_path i v).
Proof.
  intros Hv Hi. destruct (blank_direct_path_spec v i) as [Hz Hn].
  pose proof (vi_shape _ _ Hv) as [_ Hlen].
  assert (zlen v <= 2 ^ 26) as Hlen' by (change (2 ^ 25) with 33554432 in Hlen; change (2 ^ 26) with 67108864; lia).
  pose proof (blank_direct_path_leaf v i) as Hleaf.
  apply (vec_inv_change (i :: dirty) dirty v); [done|done| | |].
  - intros i' [->|Hin]%elem_of_cons; [|by left]. right. intros k p Hp. apply nd_parent_at in Hp as Hp'.
    rewrite Hn in Hp'. destruct (decide _) as [|Hnin]; [done|]. apply Hnin.
    apply elem_of_path_of; [done|done|apply Z.shiftr_nonneg; lia|by eapply nd_bound|].
    split; [|done]. destruct k; [|lia]. exfalso.
    pose proof (vi_parity _ _ Hv _ _ Hp') as Ho. simpl in Ho. rewrite node_0, odd_double in Ho. done.
  - intros x n. rewrite Hn. destruct (decide _); [done|by left].
  - intros i' _. by rewrite (Hleaf i' Hlen' Hi).
Qed.

(** ** Adding a leaf *)

Lemma push_unmerged_nd (f : NodeVec -> Z -> NodeVec) i :
  (forall v x, f v x = match borrow_as_parent_mut v x with
     | Ok p => zset v x (Some (NodeParent (add_unmerged i p))) | _ => v end) ->
  forall xs v, NoDup xs ->
  zlen (foldl f v xs) = zlen v /\
  forall x, nd (foldl f v xs) x =
    match parent_at v x with
    | Some p => if decide (x ∈ xs) then Some (NodeParent (add_unmerged i p)) else nd v x
    | None => nd v x
    end.
Proof.
  intros Hf xs. induction xs as [|y xs IH]; intros v Hnd; cbn [foldl].
  { split; [done|]. intros x. destruct (parent_at v x); [|done]. rewrite decide_False; [done|apply not_elem_of_nil]. }
  apply NoDup_cons in Hnd as [Hy Hnd]. rewrite Hf.
  assert (forall x, parent_at v x = None \/ exists p, parent_at v x = Some p /\ nd v x = Some (NodeParent p)) as Hc.
  { intros x. destruct (parent_at v x) as [p|] eqn:E; [right|by left]. exists p. split; [done|by apply nd_parent_at]. }
  destruct (borrow_as_parent_mut v y) as [p|e|] eqn:E.
  - pose proof (borrow_as_parent_mut_inv _ _ _ E) as Hp. pose proof (nd_bound _ _ _ (nd_parent_at _ _ _ Hp)) as Hb.
    destruct (IH (zset v y (Some (NodeParent (add_unmerged i p)))) Hnd) as [Hz Hn].
    split; [by rewrite Hz, zlen_zset|]. intros x. rewrite Hn. unfold parent_at at 1.
    destruct (decide (y = x)) as [<-|Hne].
    + rewrite nd_zset_eq, Hp by done. rewrite decide_False by done. by rewrite decide_True by (by left).
    + rewrite nd_zset_ne by done. fold (parent_at v x). destruct (parent_at v x); [|done].
      destruct (decide (x ∈ xs)), (decide (x ∈ y :: xs)); try done; exfalso; set_solver.
  - destruct (IH v Hnd) as [Hz Hn]. split; [done|]. intros x. rewrite Hn.
    destruct (parent_at v x) as [p|] eqn:Ep; [|done].
    destruct (decide (x ∈ xs)), (decide (x ∈ y :: xs)) as [Hin|]; try done; [exfalso; set_solver|].
    apply elem_of_cons in Hin as [->|]; [|done]. by rewrite (borrow_as_parent_mut_eq _ _ _ Ep) in E.
  - destruct (IH v Hnd) as [Hz Hn]. split; [done|]. intros x. rewrite Hn.
    destruct (parent_at v x) as [p|] eqn:Ep; [|done].
    destruct (decide (x ∈ xs)), (decide (x ∈ y :: xs)) as [Hin|]; try done; [exfalso; set_solver|].
    apply elem_of_cons in Hin as [->|]; [|done]. by rewrite (borrow_as_parent_mut_eq _ _ _ Ep) in E.
Qed.

Lemma sorted_snoc (u : list Z) i : StronglySorted Z.lt u -> (forall l, l ∈ u -> l < i) -> StronglySorted Z.lt (u ++ [i]).
Proof.
  induction u as [|x u IH]; intros Hs Hi; [by repeat constructor|].
  apply StronglySorted_inv in Hs as [Hs Hx]. cbn [app]. constructor.
  - apply IH; [done|]. intros l Hl. apply Hi. by right.
  - apply Forall_app. split; [done|]. constructor; [|done]. apply Hi. by left.
Qed.

(** The first blank leaf [i] gets a member, and the occupied parents above it
    get an unmerged leaf: [v1] is [v] with the leaf, [v2] with the parents. *)
Lemma vec_inv_add v v1 v2 i l : vec_inv [] v ->
  leaf_at v i = None -> (forall i', 0 <= i' < i -> is_Some (leaf_at v i')) -> 0 <= i ->
  nd v1 (2 * i) = Some (NodeLeaf l) -> (forall x, x <> 2 * i -> nd v1 x = nd v x) ->
  Z.odd (zlen v1) = true -> zlen v1 <= 2 ^ 25 -> zlen v2 = zlen v1 ->
  (forall x, nd v2 x = match parent_at v1 x with
     | Some p => if decide (x ∈ path_of v1 i) then Some (NodeParent (add_unmerged i p)) else nd v1 x
     | None => nd v1 x end) ->
  vec_inv [] v2.
Proof.
  intros Hv Hnone Hlow Hi Hl1 Ho1 Hodd Hlen Hz2 Hn2.
  assert (zlen v1 <= 2 ^ 26) as Hlen' by (change (2 ^ 25) with 33554432 in Hlen; change (2 ^ 26) with 67108864; lia).
  assert (leaf_at v1 i = Some l) as Hl1' by (unfold leaf_at; by rewrite Hl1).
  destruct (leaf_at_bound v1 i l Hlen' Hl1') as [Hid Hib].
  assert (forall x p, parent_at v x = Some p <-> parent_at v1 x = Some p) as Hpar1.
  { intros x p. unfold parent_at. destruct (decide (x = 2 * i)) as [->|]; [|by rewrite Ho1].
    rewrite Hl1. destruct (nd v (2 * i)) as [[]|] eqn:E; [done| |done].
    pose proof (vi_parity _ _ Hv _ _ E) as Ho. simpl in Ho. by rewrite odd_double in Ho. }
  assert (forall i', leaf_at v2 i' = leaf_at v1 i') as Hleaf2.
  { intros i'. unfold leaf_at. rewrite Hn2. destruct (parent_at v1 (2 * i')) as [p|] eqn:E; [|done].
    apply Hpar1, nd_parent_at in E. pose proof (vi_parity _ _ Hv _ _ E) as Ho. simpl in Ho. by rewrite odd_double in Ho. }
  assert (forall i', i' <> i -> leaf_at v2 i' = leaf_at v i') as Hleaf.
  { intros i' Hne. rewrite Hleaf2. unfold leaf_at. rewrite Ho1 by lia. done. }
  assert (leaf_at v2 i = Some l) as Hleafi by (by rewrite Hleaf2).
  assert (forall (k : nat) j p, 0 <= j -> parent_at v2 (node (Z.of_nat k) j) = Some p ->
    exists p0, parent_at v (node (Z.of_nat k) j) = Some p0 /\
      (p = p0 /\ j <> Z.shiftr i (Z.of_nat k) \/ p = add_unmerged i p0 /\ j = Z.shiftr i (Z.of_nat k))) as Hpar2.
  { intros k j p Hj Hp%nd_parent_at. pose proof (nd_bound _ _ _ Hp) as Hb. rewrite Hn2 in Hp.
    destruct (parent_at v1 (node (Z.of_nat k) j)) as [p0|] eqn:E.
    - exists p0. split; [by apply Hpar1|].
      assert (0 < k)%nat as Hk.
      { destruct k; [|lia]. exfalso. apply Hpar1, nd_parent_at in E.
        pose proof (vi_parity _ _ Hv _ _ E) as Ho. cbn beta iota in Ho. by rewrite node_0, odd_double in Ho. }
      rewrite Hz2 in Hb. destruct (decide _) as [Hin|Hnin].
      + right. injection Hp as <-. split; [done|]. by destruct (proj1 (elem_of_path_of v1 i Hlen' Hid k j Hj ltac:(lia)) Hin).
      + left. split; [apply nd_parent_at in E; congruence|]. intros ->. apply Hnin.
        apply (elem_of_path_of v1 i Hlen' Hid k _ Hj ltac:(lia)). done.
    - exfalso. unfold parent_at in E. by rewrite Hp in E. }
  split.
  - split; [right; by rewrite Hz2|lia].
  - intros x n Hn. rewrite Hn2 in Hn. destruct (parent_at v1 x) as [p|] eqn:E.
    + apply Hpar1, nd_parent_at in E. pose proof (vi_parity _ _ Hv _ _ E) as Ho.
      destruct (decide _); [by injection Hn as <-|]. destruct (decide (x = 2 * i)) as [->|Hne]; [by rewrite odd_double in Ho|].
      rewrite Ho1, E in Hn by done. by injection Hn as <-.
    + destruct (decide (x = 2 * i)) as [->|Hne].
      * rewrite Hl1 in Hn. injection Hn as <-. apply odd_double.
      * rewrite Ho1 in Hn by done. by apply (vi_parity _ _ Hv).
  - intros k j p Hj Hp _. destruct (Hpar2 k j p Hj Hp) as (p0 & Hp0 & Hcase).
    pose proof (vi_unmerged _ _ Hv k j p0 Hj Hp0 ltac:(by intros ? ?%elem_of_nil)) as Hok.
    destruct Hcase as [[-> Hne]|[-> ->]].
    + eapply unmerged_ok_change; [|exact Hok]. intros l' Hl' ->. rewrite Hleaf; [done|]. by intros ->.
    + destruct Hok as [Hs Hu]. cbn [add_unmerged unmerged_leaves]. split.
      * apply sorted_snoc; [done|]. intros l' Hin. destruct (Hu l' Hin) as (_ & _ & _ & Hb). by apply Hb.
      * intros l' [Hin|Hin]%elem_of_app.
        -- destruct (Hu l' Hin) as (H0 & Hj' & Hm & Hb). split; [done|]. split; [done|].
           assert (l' <> i) as Hne by (intros ->; rewrite Hnone in Hm; by destruct Hm).
           split; [by rewrite Hleaf|]. intros b Hb0 Hbj Hbn. apply Hb; [done..|].
           rewrite <- Hleaf; [done|]. intros ->. by rewrite Hleafi in Hbn.
        -- apply list_elem_of_singleton in Hin as ->. split; [done|]. split; [done|].
           rewrite Hleafi. split; [by eexists|]. intros b Hb0 Hbj Hbn.
           assert (b <> i) as Hne by (intros ->; by rewrite Hleafi in Hbn). rewrite Hleaf in Hbn by done.
           destruct (Z.lt_ge_cases b i) as [Hlt|]; [|lia]. destruct (Hlow b ltac:(lia)) as [? E]. congruence.
  - intros k j p Hj Hp _ b Hb. destruct (Hpar2 (S k) j p Hj Hp) as (p0 & Hp0 & _).
    destruct (vi_members _ _ Hv k j p0 Hj Hp0 ltac:(by intros ? ?%elem_of_nil) b Hb) as (l' & H0 & Hj' & Hm).
    exists l'. split; [done|]. split; [done|]. rewrite Hleaf; [done|].
    intros ->. rewrite Hnone in Hm. by destruct Hm.
Qed.

(** ** Trimming *)

Lemma leaf_right (k : nat) j l : 0 <= j -> 0 <= l -> Z.shiftr l (Z.of_nat k) = 2 * j + 1 ->
  node (Z.of_nat (S k)) j < 2 * l.
Proof.
  intros Hj Hl E. rewrite Z.shiftr_div_pow2 in E by lia.
  assert (0 < 2 ^ Z.of_nat k) as Hp by (apply Z.pow_pos_nonneg; lia).
  pose proof (Z.mul_div_le l (2 ^ Z.of_nat k) Hp) as Hm. rewrite E in Hm. unfold node.
  replace (Z.of_nat (S k) + 1) with (Z.of_nat k + 2) by lia. replace (Z.of_nat (S k)) with (Z.of_nat k + 1) by lia.
  rewrite !Z.pow_add_r by lia. change (2 ^ 1) with 2. change (2 ^ 2) with 4. nia.
Qed.

Lemma vec_inv_trim v : vec_inv [] v -> vec_inv [] (trim v).
Proof.
  intros Hv. destruct (trim_spec v) as (n & E & Hlast). pose proof (nd_trim v) as Hn.
  assert (forall i, leaf_at (trim v) i = leaf_at v i) as Hleaf by (intros i; unfold leaf_at; by rewrite Hn).
  assert (forall x, parent_at (trim v) x = parent_at v x) as Hpar by (intros i; unfold parent_at; by rewrite Hn).
  split.
  - destruct (vi_shape _ _ Hv) as [_ Hlen]. split.
    + destruct (trim v) as [|x0 v'] eqn:Et using rev_ind; [by left|right].
      specialize (Hlast v' x0 eq_refl). rewrite zlen_app. change (zlen [x0]) with 1.
      destruct x0 as [nn|]; [|done].
      assert (nd (v' ++ [Some nn]) (zlen v') = Some nn) as Hx.
      { unfold nd. rewrite zget_app_r, Z.sub_diag by lia. done. }
      assert (Z.odd (zlen v') = false) as Ho; [|by rewrite Z.odd_add, Ho].
      destruct nn as [l|p]; [by apply (vi_parity _ _ Hv (zlen v') (NodeLeaf l)); rewrite <- Hn|]. exfalso.
      rewrite Hn in Hx. pose proof (vi_parity _ _ Hv _ _ Hx) as Ho. cbn beta iota in Ho.
      pose proof (zlen_nonneg v') as H0. destruct (node_decompose (zlen v') H0) as (k & j & Hk & Hj & Ek).
      rewrite <- (Z2Nat.id k) in Ek by done. destruct (Z.to_nat k) as [|k'] eqn:Ekk.
      { change (Z.of_nat 0) with 0 in Ek. rewrite node_0 in Ek. rewrite Ek, odd_double in Ho. done. }
      rewrite Ek in Hx.
      destruct (vi_members _ _ Hv k' j p Hj ltac:(unfold parent_at; by rewrite Hx) ltac:(by intros ? ?%elem_of_nil) 1
        ltac:(by right)) as (l & Hl0 & Hlj & [lf Hm]).
      apply leaf_right in Hlj; [|done..]. rewrite <- Hleaf in Hm. apply nd_leaf_at, nd_bound in Hm.
      rewrite zlen_app in Hm. change (zlen [Some (NodeParent p)]) with 1 in Hm. lia.
    + pose proof (zlen_nonneg (replicate n (@None Node))). rewrite E, zlen_app in Hlen. lia.
  - intros x m. rewrite Hn. apply (vi_parity _ _ Hv).
  - intros k j p Hj. rewrite Hpar. intros Hp Hd. eapply unmerged_ok_change; [|by apply (vi_unmerged _ _ Hv k j p)].
    intros l _ _. by rewrite Hleaf.
  - intros k j p Hj. rewrite Hpar. intros Hp Hd b Hb. destruct (vi_members _ _ Hv k j p Hj Hp Hd b Hb) as (l & ? & ? & ?).
    exists l. by rewrite Hleaf.
Qed.
