(* ===== verification/Proposals.v ===== *)
(** * Proposals

    Models mls-rs/src/group/proposal.rs (the proposals and their wire form),
    mls-rs/src/group/proposal_filter/bundle.rs (the bundle of the proposals of a
    commit), and the data they contain: key packages
    (mls-rs/src/key_package/mod.rs), pre-shared key identifiers
    (mls-rs/src/psk.rs), senders (mls-rs/src/group/framing.rs) and hash
    references (mls-rs/src/hash_reference.rs, mls-rs/src/group/proposal_ref.rs).
    The features are the default ones: there are no self-remove proposals. *)

From S2P Require Import Prelude Codec Crypto Data.

#[local] Set Default Goal Selector "!".
Local Open Scope Z_scope.

(** ** Key packages *)

Record KeyPackage := mk_key_package {
  kp_version : Z;
  kp_cipher_suite : Z;
  hpke_init_key : HpkePublicKey;
  kp_leaf_node : LeafNode;
  kp_extensions : ExtensionList;
  kp_signature : bytes;
}.

#[export] Instance KeyPackage_eq_dec : EqDecision KeyPackage.
Proof. solve_decision. Defined.

Definition key_package_codec : codec KeyPackage :=
  struct_codec
    (fun k => (kp_version k, (kp_cipher_suite k, (hpke_init_key k, (kp_leaf_node k,
                (kp_extensions k, kp_signature k))))))
    (fun '(v, (c, (i, (l, (e, s))))) => mk_key_package v c i l e s)
    (pair_codec u16_codec (pair_codec u16_codec (pair_codec byte_vec_codec
      (pair_codec leaf_node_codec (pair_codec extension_list_codec byte_vec_codec))))).

Definition kp_signing_identity (k : KeyPackage) : SigningIdentity := signing_identity (kp_leaf_node k).

(** [KeyPackage::expiration]. *)
Definition expiration (k : KeyPackage) : mres Z :=
  match leaf_node_source (kp_leaf_node k) with
  | SourceKeyPackage lifetime => Ok (not_after lifetime)
  | _ => Err InvalidLeafNodeSource
  end.

(** ** Pre-shared key identifiers *)

Inductive ResumptionPSKUsage := UsageApplication | UsageReinit | UsageBranch.

Record ResumptionPsk := mk_resumption_psk {
  usage : ResumptionPSKUsage;
  psk_group_id : bytes;
  psk_epoch : Z;
}.

Inductive JustPreSharedKeyID :=
| External (id : bytes)
| Resumption (psk : ResumptionPsk).

Record PreSharedKeyID := mk_psk_id { key_id : JustPreSharedKeyID; psk_nonce : bytes }.

#[export] Instance ResumptionPSKUsage_eq_dec : EqDecision ResumptionPSKUsage.
Proof. solve_decision. Defined.
#[export] Instance ResumptionPsk_eq_dec : EqDecision ResumptionPsk.
Proof. solve_decision. Defined.
#[export] Instance JustPreSharedKeyID_eq_dec : EqDecision JustPreSharedKeyID.
Proof. solve_decision. Defined.
#[export] Instance PreSharedKeyID_eq_dec : EqDecision PreSharedKeyID.
Proof. solve_decision. Defined.

Definition usage_discriminant (u : ResumptionPSKUsage) : Z :=
  match u with UsageApplication => 1 | UsageReinit => 2 | UsageBranch => 3 end.

Definition usage_codec : codec ResumptionPSKUsage :=
  enum_codec u8_codec usage_discriminant
    (fun t =>
       if t =? 1 then
         Some (variant_codec (fun _ => UsageApplication)
                 (fun u => match u with UsageApplication => Some tt | _ => None end) unit_codec)
       else if t =? 2 then
         Some (variant_codec (fun _ => UsageReinit)
                 (fun u => match u with UsageReinit => Some tt | _ => None end) unit_codec)
       else if t =? 3 then
         Some (variant_codec (fun _ => UsageBranch)
                 (fun u => match u with UsageBranch => Some tt | _ => None end) unit_codec)
       else None).

Definition resumption_psk_codec : codec ResumptionPsk :=
  struct_codec (fun r => (usage r, (psk_group_id r, psk_epoch r)))
    (fun '(u, (g, e)) => mk_resumption_psk u g e)
    (pair_codec usage_codec (pair_codec byte_vec_codec u64_codec)).

Definition just_psk_id_discriminant (i : JustPreSharedKeyID) : Z :=
  match i with External _ => 1 | Resumption _ => 2 end.

Definition just_psk_id_codec : codec JustPreSharedKeyID :=
  enum_codec u8_codec just_psk_id_discriminant
    (fun t =>
       if t =? 1 then
         Some (variant_codec External (fun i => match i with External e => Some e | _ => None end)
                 byte_vec_codec)
       else if t =? 2 then
         Some (variant_codec Resumption (fun i => match i with Resumption r => Some r | _ => None end)
                 resumption_psk_codec)
       else None).

Definition psk_id_codec : codec PreSharedKeyID :=
  struct_codec (fun p => (key_id p, psk_nonce p)) (fun '(k, n) => mk_psk_id k n)
    (pair_codec just_psk_id_codec byte_vec_codec).

(** [PreSharedKeyID::new] with a nonce from [PskNonce::random]. *)
Definition psk_id_new `{CipherSuiteProvider} (coins : Coins) (key_id : JustPreSharedKeyID) :
    mres PreSharedKeyID :=
  nonce ← from_crypto (random_bytes_vec coins kdf_extract_size);
  Ok (mk_psk_id key_id nonce).

(** ** Hash references *)

Notation ProposalRef := bytes (only parsing).
Notation KeyPackageRef := bytes (only parsing).

Record RefHashInput := mk_ref_hash_input { rh_label : bytes; rh_value : bytes }.

Definition ref_hash_input_codec : codec RefHashInput :=
  struct_codec (fun r => (rh_label r, rh_value r)) (fun '(l, v) => mk_ref_hash_input l v)
    (pair_codec byte_vec_codec byte_vec_codec).

(** [HashReference::compute]. *)
Definition hash_reference_compute `{CipherSuiteProvider} (value label : bytes) : mres bytes :=
  input ← from_codec (mls_encode_to_vec ref_hash_input_codec (mk_ref_hash_input label value));
  from_crypto (hash input).

(** [KeyPackage::to_reference]. *)
Definition to_reference `{CipherSuiteProvider} (k : KeyPackage) : mres KeyPackageRef :=
  if negb (cipher_suite =? kp_cipher_suite k) then Err CipherSuiteMismatch
  else
    value ← from_codec (mls_encode_to_vec key_package_codec k);
    hash_reference_compute value (bstr "MLS 1.0 KeyPackage Reference").

(** ** Senders *)

Inductive Sender :=
| SenderMember (index : Z)
| SenderExternal (index : Z)
| NewMemberProposal
| NewMemberCommit.

#[export] Instance Sender_eq_dec : EqDecision Sender.
Proof. solve_decision. Defined.

Definition sender_discriminant (s : Sender) : Z :=
  match s with SenderMember _ => 1 | SenderExternal _ => 2 | NewMemberProposal => 3 | NewMemberCommit => 4 end.

Definition sender_codec : codec Sender :=
  enum_codec u8_codec sender_discriminant
    (fun t =>
       if t =? 1 then
         Some (variant_codec SenderMember (fun s => match s with SenderMember i => Some i | _ => None end)
                 u32_codec)
       else if t =? 2 then
         Some (variant_codec SenderExternal (fun s => match s with SenderExternal i => Some i | _ => None end)
                 u32_codec)
       else if t =? 3 then
         Some (variant_codec (fun _ => NewMemberProposal)
                 (fun s => match s with NewMemberProposal => Some tt | _ => None end) unit_codec)
       else if t =? 4 then
         Some (variant_codec (fun _ => NewMemberCommit)
                 (fun s => match s with NewMemberCommit => Some tt | _ => None end) unit_codec)
       else None).

(** ** Proposals *)

Definition PT_ADD : Z := 1.
Definition PT_UPDATE : Z := 2.
Definition PT_REMOVE : Z := 3.
Definition PT_PSK : Z := 4.
Definition PT_RE_INIT : Z := 5.
Definition PT_EXTERNAL_INIT : Z := 6.
Definition PT_GROUP_CONTEXT_EXTENSIONS : Z := 7.

Record AddProposal := mk_add { key_package : KeyPackage }.
Record UpdateProposal := mk_update { up_leaf_node : LeafNode }.
Record RemoveProposal := mk_remove { to_remove : Z }.
Record PreSharedKeyProposal := mk_psk_proposal { psk : PreSharedKeyID }.
Record ReInitProposal := mk_reinit {
  ri_group_id : bytes; ri_version : Z; ri_cipher_suite : Z; ri_extensions : ExtensionList }.
Record ExternalInit := mk_external_init { ei_kem_output : bytes }.
Record CustomProposal := mk_custom { custom_proposal_type : Z; custom_data : bytes }.

#[export] Instance AddProposal_eq_dec : EqDecision AddProposal.
Proof. solve_decision. Defined.
#[export] Instance UpdateProposal_eq_dec : EqDecision UpdateProposal.
Proof. solve_decision. Defined.
#[export] Instance RemoveProposal_eq_dec : EqDecision RemoveProposal.
Proof. solve_decision. Defined.
#[export] Instance PreSharedKeyProposal_eq_dec : EqDecision PreSharedKeyProposal.
Proof. solve_decision. Defined.
#[export] Instance ReInitProposal_eq_dec : EqDecision ReInitProposal.
Proof. solve_decision. Defined.
#[export] Instance ExternalInit_eq_dec : EqDecision ExternalInit.
Proof. solve_decision. Defined.
#[export] Instance CustomProposal_eq_dec : EqDecision CustomProposal.
Proof. solve_decision. Defined.

(** [Proposal], and [BorrowedProposal], which is the same value by reference. *)
Inductive Proposal :=
| PAdd (p : AddProposal)
| PUpdate (p : UpdateProposal)
| PRemove (p : RemoveProposal)
| PPsk (p : PreSharedKeyProposal)
| PReInit (p : ReInitProposal)
| PExternalInit (p : ExternalInit)
| PGroupContextExtensions (p : ExtensionList)
| PCustom (p : CustomProposal).

#[export] Instance Proposal_eq_dec : EqDecision Proposal.
Proof. solve_decision. Defined.

Definition add_codec : codec AddProposal := struct_codec key_package mk_add key_package_codec.
Definition update_codec : codec UpdateProposal := struct_codec up_leaf_node mk_update leaf_node_codec.
Definition remove_codec : codec RemoveProposal := struct_codec to_remove mk_remove leaf_index_codec.
Definition psk_proposal_codec : codec PreSharedKeyProposal := struct_codec psk mk_psk_proposal psk_id_codec.
Definition reinit_codec : codec ReInitProposal :=
  struct_codec (fun r => (ri_group_id r, (ri_version r, (ri_cipher_suite r, ri_extensions r))))
    (fun '(g, (v, (c, e))) => mk_reinit g v c e)
    (pair_codec byte_vec_codec (pair_codec u16_codec (pair_codec u16_codec extension_list_codec))).
Definition external_init_codec : codec ExternalInit := struct_codec ei_kem_output mk_external_init byte_vec_codec.

Definition proposal_type (p : Proposal) : Z :=
  match p with
  | PAdd _ => PT_ADD
  | PUpdate _ => PT_UPDATE
  | PRemove _ => PT_REMOVE
  | PPsk _ => PT_PSK
  | PReInit _ => PT_RE_INIT
  | PExternalInit _ => PT_EXTERNAL_INIT
  | PGroupContextExtensions _ => PT_GROUP_CONTEXT_EXTENSIONS
  | PCustom c => custom_proposal_type c
  end.

(** The hand-written codec of [Proposal]: a custom proposal whose type is at
    most 7 is not encoded, and every unknown type decodes to a custom one. *)
Definition proposal_codec : codec Proposal := mk_codec
  (fun p => mls_encoded_len u16_codec (proposal_type p) +
     match p with
     | PAdd p => mls_encoded_len add_codec p
     | PUpdate p => mls_encoded_len update_codec p
     | PRemove p => mls_encoded_len remove_codec p
     | PPsk p => mls_encoded_len psk_proposal_codec p
     | PReInit p => mls_encoded_len reinit_codec p
     | PExternalInit p => mls_encoded_len external_init_codec p
     | PGroupContextExtensions p => mls_encoded_len extension_list_codec p
     | PCustom p => mls_encoded_len byte_vec_codec (custom_data p)
     end)
  (fun p writer =>
     writer ← mls_encode u16_codec (proposal_type p) writer;
     match p with
     | PAdd p => mls_encode add_codec p writer
     | PUpdate p => mls_encode update_codec p writer
     | PRemove p => mls_encode remove_codec p writer
     | PPsk p => mls_encode psk_proposal_codec p writer
     | PReInit p => mls_encode reinit_codec p writer
     | PExternalInit p => mls_encode external_init_codec p writer
     | PGroupContextExtensions p => mls_encode extension_list_codec p writer
     | PCustom p =>
         if custom_proposal_type p <=? 7 then Err (Custom 2)
         else mls_encode byte_vec_codec (custom_data p) writer
     end)
  (fun reader =>
     '(t, rest) ← mls_decode u16_codec reader;
     if t =? PT_ADD then '(p, rest) ← mls_decode add_codec rest; Ok (PAdd p, rest)
     else if t =? PT_UPDATE then '(p, rest) ← mls_decode update_codec rest; Ok (PUpdate p, rest)
     else if t =? PT_REMOVE then '(p, rest) ← mls_decode remove_codec rest; Ok (PRemove p, rest)
     else if t =? PT_PSK then '(p, rest) ← mls_decode psk_proposal_codec rest; Ok (PPsk p, rest)
     else if t =? PT_RE_INIT then '(p, rest) ← mls_decode reinit_codec rest; Ok (PReInit p, rest)
     else if t =? PT_EXTERNAL_INIT then
       '(p, rest) ← mls_decode external_init_codec rest; Ok (PExternalInit p, rest)
     else if t =? PT_GROUP_CONTEXT_EXTENSIONS then
       '(p, rest) ← mls_decode extension_list_codec rest; Ok (PGroupContextExtensions p, rest)
     else '(d, rest) ← mls_decode byte_vec_codec rest; Ok (PCustom (mk_custom t d), rest)).

(** [MlsCustomProposal]: a user type [A] carried by custom proposals of type [ty]. *)
Definition to_custom_proposal {A} (ty : Z) (c : codec A) (x : A) : cres CustomProposal :=
  d ← mls_encode_to_vec c x;
  Ok (mk_custom ty d).

Definition from_custom_proposal {A} (ty : Z) (c : codec A) (p : CustomProposal) : cres A :=
  if negb (custom_proposal_type p =? ty) then Err (Custom 4)
  else fst <$> mls_decode c (custom_data p).

Inductive ProposalOrRef :=
| OrProposal (p : Proposal)
| OrReference (r : ProposalRef).

(** The codec of [ProposalOrRef], for the codec [pc] of the proposals in it. *)
Definition proposal_or_ref_codec_with (pc : codec Proposal) : codec ProposalOrRef :=
  enum_codec u8_codec (fun p => match p with OrProposal _ => 1 | OrReference _ => 2 end)
    (fun t =>
       if t =? 1 then
         Some (variant_codec OrProposal (fun p => match p with OrProposal p => Some p | _ => None end) pc)
       else if t =? 2 then
         Some (variant_codec OrReference (fun p => match p with OrReference r => Some r | _ => None end)
                 byte_vec_codec)
       else None).

Definition proposal_or_ref_codec : codec ProposalOrRef := proposal_or_ref_codec_with proposal_codec.

(** ** Proposals with their origin *)

Inductive ProposalSource :=
| ByValue
| ByReference (r : ProposalRef)
| Local_.

#[export] Instance ProposalSource_eq_dec : EqDecision ProposalSource.
Proof. solve_decision. Defined.

Definition proposal_source_codec : codec ProposalSource :=
  enum_codec u8_codec (fun s => match s with ByValue => 1 | ByReference _ => 2 | Local_ => 3 end)
    (fun t =>
       if t =? 1 then
         Some (variant_codec (fun _ => ByValue) (fun s => match s with ByValue => Some tt | _ => None end)
                 unit_codec)
       else if t =? 2 then
         Some (variant_codec ByReference (fun s => match s with ByReference r => Some r | _ => None end)
                 byte_vec_codec)
       else if t =? 3 then
         Some (variant_codec (fun _ => Local_) (fun s => match s with Local_ => Some tt | _ => None end)
                 unit_codec)
       else None).

Record ProposalInfo (T : Type) := mk_info { proposal : T; sender : Sender; source : ProposalSource }.
Arguments mk_info {_} _ _ _.
Arguments proposal {_} _.
Arguments sender {_} _.
Arguments source {_} _.

#[export] Instance ProposalInfo_eq_dec {T} `{EqDecision T} : EqDecision (ProposalInfo T).
Proof. solve_decision. Defined.

Definition proposal_info_codec {T} (c : codec T) : codec (ProposalInfo T) :=
  struct_codec (fun i => (proposal i, (sender i, source i))) (fun '(p, (s, o)) => mk_info p s o)
    (pair_codec c (pair_codec sender_codec proposal_source_codec)).

(** [ProposalInfo::new]. *)
Definition proposal_info_new {T} (p : T) (s : Sender) (can_transmit : bool) : ProposalInfo T :=
  mk_info p s (if can_transmit then ByValue else Local_).

Definition is_by_reference {T} (i : ProposalInfo T) : bool :=
  match source i with ByReference _ => true | _ => false end.
Definition is_by_value {T} (i : ProposalInfo T) : bool := negb (is_by_reference i).
Definition proposal_ref {T} (i : ProposalInfo T) : option ProposalRef :=
  match source i with ByReference r => Some r | _ => None end.
(** [ProposalInfo::map]. *)
Definition info_map {T U} (f : T -> U) (i : ProposalInfo T) : ProposalInfo U :=
  mk_info (f (proposal i)) (sender i) (source i).

(** ** The bundle of a commit *)

Record ProposalBundle := mk_bundle {
  additions : list (ProposalInfo AddProposal);
  updates : list (ProposalInfo UpdateProposal);
  update_senders : list Z;
  removals : list (ProposalInfo RemoveProposal);
  psks : list (ProposalInfo PreSharedKeyProposal);
  reinitializations : list (ProposalInfo ReInitProposal);
  external_initializations : list (ProposalInfo ExternalInit);
  group_context_extensions : list (ProposalInfo ExtensionList);
  custom_proposals : list (ProposalInfo CustomProposal);
}.

Definition bundle_empty : ProposalBundle := mk_bundle [] [] [] [] [] [] [] [] [].

Definition set_additions l b := mk_bundle l (updates b) (update_senders b) (removals b) (psks b)
  (reinitializations b) (external_initializations b) (group_context_extensions b) (custom_proposals b).
Definition set_updates l b := mk_bundle (additions b) l (update_senders b) (removals b) (psks b)
  (reinitializations b) (external_initializations b) (group_context_extensions b) (custom_proposals b).
Definition set_update_senders l b := mk_bundle (additions b) (updates b) l (removals b) (psks b)
  (reinitializations b) (external_initializations b) (group_context_extensions b) (custom_proposals b).
Definition set_removals l b := mk_bundle (additions b) (updates b) (update_senders b) l (psks b)
  (reinitializations b) (external_initializations b) (group_context_extensions b) (custom_proposals b).
Definition set_psks l b := mk_bundle (additions b) (updates b) (update_senders b) (removals b) l
  (reinitializations b) (external_initializations b) (group_context_extensions b) (custom_proposals b).
Definition set_reinitializations l b := mk_bundle (additions b) (updates b) (update_senders b) (removals b)
  (psks b) l (external_initializations b) (group_context_extensions b) (custom_proposals b).
Definition set_external_initializations l b := mk_bundle (additions b) (updates b) (update_senders b)
  (removals b) (psks b) (reinitializations b) l (group_context_extensions b) (custom_proposals b).
Definition set_group_context_extensions l b := mk_bundle (additions b) (updates b) (update_senders b)
  (removals b) (psks b) (reinitializations b) (external_initializations b) l (custom_proposals b).
Definition set_custom_proposals l b := mk_bundle (additions b) (updates b) (update_senders b) (removals b)
  (psks b) (reinitializations b) (external_initializations b) (group_context_extensions b) l.

(** [Proposable]: a proposal type with its constant and its field of the
    bundle. *)
Class Proposable (T : Type) := {
  TYPE : Z;
  inject : T -> Proposal;
  project : Proposal -> option T;
  bundle_filter : ProposalBundle -> list (ProposalInfo T);
  bundle_set : list (ProposalInfo T) -> ProposalBundle -> ProposalBundle;
}.

#[export] Instance add_proposable : Proposable AddProposal :=
  {| TYPE := PT_ADD; inject := PAdd; project p := match p with PAdd p => Some p | _ => None end;
     bundle_filter := additions; bundle_set := set_additions |}.
#[export] Instance update_proposable : Proposable UpdateProposal :=
  {| TYPE := PT_UPDATE; inject := PUpdate; project p := match p with PUpdate p => Some p | _ => None end;
     bundle_filter := updates; bundle_set := set_updates |}.
#[export] Instance remove_proposable : Proposable RemoveProposal :=
  {| TYPE := PT_REMOVE; inject := PRemove; project p := match p with PRemove p => Some p | _ => None end;
     bundle_filter := removals; bundle_set := set_removals |}.
#[export] Instance psk_proposable : Proposable PreSharedKeyProposal :=
  {| TYPE := PT_PSK; inject := PPsk; project p := match p with PPsk p => Some p | _ => None end;
     bundle_filter := psks; bundle_set := set_psks |}.
#[export] Instance reinit_proposable : Proposable ReInitProposal :=
  {| TYPE := PT_RE_INIT; inject := PReInit; project p := match p with PReInit p => Some p | _ => None end;
     bundle_filter := reinitializations;
     bundle_set := set_reinitializations |}.
#[export] Instance external_init_proposable : Proposable ExternalInit :=
  {| TYPE := PT_EXTERNAL_INIT; inject := PExternalInit; project p := match p with PExternalInit p => Some p | _ => None end;
     bundle_filter := external_initializations;
     bundle_set := set_external_initializations |}.
#[export] Instance extensions_proposable : Proposable ExtensionList :=
  {| TYPE := PT_GROUP_CONTEXT_EXTENSIONS; inject := PGroupContextExtensions; project p := match p with PGroupContextExtensions p => Some p | _ => None end;
    
     bundle_filter := group_context_extensions; bundle_set := set_group_context_extensions |}.

(** [ProposalBundle::add]. *)
Definition bundle_add (p : Proposal) (s : Sender) (o : ProposalSource) (b : ProposalBundle) : ProposalBundle :=
  match p with
  | PAdd p => set_additions (additions b ++ [mk_info p s o]) b
  | PUpdate p => set_updates (updates b ++ [mk_info p s o]) b
  | PRemove p => set_removals (removals b ++ [mk_info p s o]) b
  | PPsk p => set_psks (psks b ++ [mk_info p s o]) b
  | PReInit p => set_reinitializations (reinitializations b ++ [mk_info p s o]) b
  | PExternalInit p => set_external_initializations (external_initializations b ++ [mk_info p s o]) b
  | PGroupContextExtensions p =>
      set_group_context_extensions (group_context_extensions b ++ [mk_info p s o]) b
  | PCustom p => set_custom_proposals (custom_proposals b ++ [mk_info p s o]) b
  end.

(** [FromIterator] for bundles, from the empty one. *)
Definition bundle_from_iter (l : list (Proposal * Sender * ProposalSource)) : ProposalBundle :=
  foldl (fun b '(p, s, o) => bundle_add p s o b) bundle_empty l.

(** [Proposable::remove], called by [ProposalBundle::remove]. *)
Definition bundle_remove (T : Type) `{Proposable T} (index : Z) (b : ProposalBundle) : ProposalBundle :=
  if index <? zlen (bundle_filter b) then bundle_set (delete (Z.to_nat index) (bundle_filter b)) b else b.

(** [Vec::retain] with a closure that keeps the first error in [res] and drops
    the elements for which it fails. *)
Fixpoint retain_loop {T E} (f : ProposalInfo T -> res E bool) (l : list (ProposalInfo T)) :
    res E unit * list (ProposalInfo T) :=
  match l with
  | [] => (Ok tt, [])
  | p :: l =>
      match f p with
      | Ok keep => let '(r, l) := retain_loop f l in (r, if keep then p :: l else l)
      | Err e =>
          let '(r, l) := retain_loop f l in
          (match r with Panic => Panic | _ => Err e end, l)
      | Panic => (Panic, p :: l)
      end
  end.

Definition retain_by_type {T E} `{Proposable T} (f : ProposalInfo T -> res E bool) : SM ProposalBundle E unit :=
  fun b => let '(r, l) := retain_loop f (bundle_filter b) in (r, bundle_set l b).

Definition retain_custom {E} (f : ProposalInfo CustomProposal -> res E bool) : SM ProposalBundle E unit :=
  fun b => let '(r, l) := retain_loop f (custom_proposals b) in (r, set_custom_proposals l b).

(** [ProposalBundle::retain]: the standard proposals, type by type. *)
Definition bundle_retain {E} (f : ProposalInfo Proposal -> res E bool) : SM ProposalBundle E unit :=
  _ ← retain_by_type (fun p => f (info_map PAdd p));
  _ ← retain_by_type (fun p => f (info_map PUpdate p));
  _ ← retain_by_type (fun p => f (info_map PRemove p));
  _ ← retain_by_type (fun p => f (info_map PPsk p));
  _ ← retain_by_type (fun p => f (info_map PReInit p));
  _ ← retain_by_type (fun p => f (info_map PExternalInit p));
  _ ← retain_by_type (fun p => f (info_map PGroupContextExtensions p));
  mret tt.

Definition bundle_length (b : ProposalBundle) : Z :=
  zlen (psks b) + zlen (external_initializations b) + zlen (custom_proposals b) + zlen (updates b) +
  zlen (additions b) + zlen (removals b) + zlen (reinitializations b) + zlen (group_context_extensions b).

Definition iter_proposals (b : ProposalBundle) : list (ProposalInfo Proposal) :=
  (info_map PAdd <$> additions b) ++ (info_map PRemove <$> removals b) ++
  (info_map PReInit <$> reinitializations b) ++ (info_map PUpdate <$> updates b) ++
  (info_map PPsk <$> psks b) ++ (info_map PExternalInit <$> external_initializations b) ++
  (info_map PGroupContextExtensions <$> group_context_extensions b) ++
  (info_map PCustom <$> custom_proposals b).

Definition into_proposals (b : ProposalBundle) : list (ProposalInfo Proposal) :=
  (info_map PCustom <$> custom_proposals b) ++ (info_map PExternalInit <$> external_initializations b) ++
  (info_map PPsk <$> psks b) ++ (info_map PUpdate <$> updates b) ++ (info_map PAdd <$> additions b) ++
  (info_map PRemove <$> removals b) ++ (info_map PReInit <$> reinitializations b) ++
  (info_map PGroupContextExtensions <$> group_context_extensions b).

Definition proposals_or_refs (b : ProposalBundle) : list ProposalOrRef :=
  omap (fun p => match source p with
                 | ByValue => Some (OrProposal (proposal p))
                 | ByReference r => Some (OrReference r)
                 | Local_ => None
                 end) (iter_proposals b).

Definition group_context_extensions_proposal (b : ProposalBundle) : option (ProposalInfo ExtensionList) :=
  head (group_context_extensions b).

(** [Itertools::unique]. *)
Fixpoint unique (l : list Z) : list Z :=
  match l with [] => [] | x :: l => x :: List.filter (fun y => negb (y =? x)) (unique l) end.

Definition custom_proposal_types (b : ProposalBundle) : list Z :=
  unique (custom_proposal_type ∘ proposal <$> custom_proposals b).

Definition then_some {A} (l : list A) (t : Z) : list Z := match l with [] => [] | _ => [t] end.

Definition proposal_types (b : ProposalBundle) : list Z :=
  then_some (additions b) PT_ADD ++ then_some (removals b) PT_REMOVE ++
  then_some (reinitializations b) PT_RE_INIT ++ then_some (updates b) PT_UPDATE ++
  then_some (psks b) PT_PSK ++ then_some (external_initializations b) PT_EXTERNAL_INIT ++
  then_some (group_context_extensions b) PT_GROUP_CONTEXT_EXTENSIONS ++ custom_proposal_types b.

(** ** Codec laws *)

Definition key_package_wf (k : KeyPackage) : Prop :=
  is_u16 (kp_version k) /\ is_u16 (kp_cipher_suite k) /\ bytes_ok (hpke_init_key k) /\
  leaf_node_wf (kp_leaf_node k) /\ extension_list_wf (kp_extensions k) /\ bytes_ok (kp_signature k).

#[export] Instance key_package_codec_ok : CodecOk key_package_codec key_package_wf.
Proof. struct_ok. Qed.
#[export] Instance key_package_codec_canonical : CodecCanonical key_package_codec.
Proof. struct_canonical. Qed.

Lemma usage_variants t cv :
  (if t =? 1 then
     Some (variant_codec (fun _ => UsageApplication)
             (fun u => match u with UsageApplication => Some tt | _ => None end) unit_codec)
   else if t =? 2 then
     Some (variant_codec (fun _ => UsageReinit)
             (fun u => match u with UsageReinit => Some tt | _ => None end) unit_codec)
   else if t =? 3 then
     Some (variant_codec (fun _ => UsageBranch)
             (fun u => match u with UsageBranch => Some tt | _ => None end) unit_codec)
   else None) = Some cv ->
  CodecOk cv (fun x => usage_discriminant x = t /\ True).
Proof.
  revert t cv. variant_cases;
    (eapply (variant_ok_disc _ _ _ _ usage_discriminant);
     [apply _|by intros [] []; naive_solver|done|]); intros [] ? _; try done; by exists tt.
Qed.

#[export] Instance usage_codec_ok : CodecOk usage_codec (fun _ => True).
Proof.
  eapply codec_ok_iff; [|apply (enum_codec_ok u8_codec (in_uint 8) _ _ (fun _ => True))].
  - intros x. split; [done|]. intros _. by destruct x.
  - apply usage_variants.
  - by intros [].
Qed.

#[export] Instance usage_codec_canonical : CodecCanonical usage_codec.
Proof.
  eapply (enum_codec_canonical u8_codec (in_uint 8) _ _ (fun _ => True));
    [apply usage_variants|apply _|].
  variant_cases; (eapply variant_codec_canonical; [apply _..|by intros [] []; naive_solver]).
Qed.

Definition resumption_psk_wf (r : ResumptionPsk) : Prop :=
  bytes_ok (psk_group_id r) /\ is_u64 (psk_epoch r).

#[export] Instance resumption_psk_codec_ok : CodecOk resumption_psk_codec resumption_psk_wf.
Proof.
  eapply struct_codec_ok_iff; [apply _|by intros []|by intros; split_pairs|].
  intros []. unfold resumption_psk_wf. simpl. tauto.
Qed.
#[export] Instance resumption_psk_codec_canonical : CodecCanonical resumption_psk_codec.
Proof. struct_canonical. Qed.

Definition just_psk_id_wf (i : JustPreSharedKeyID) : Prop :=
  match i with External e => bytes_ok e | Resumption r => resumption_psk_wf r end.

Lemma just_psk_id_variants t cv :
  (if t =? 1 then
     Some (variant_codec External (fun i => match i with External e => Some e | _ => None end)
             byte_vec_codec)
   else if t =? 2 then
     Some (variant_codec Resumption (fun i => match i with Resumption r => Some r | _ => None end)
             resumption_psk_codec)
   else None) = Some cv ->
  CodecOk cv (fun x => just_psk_id_discriminant x = t /\ just_psk_id_wf x).
Proof.
  revert t cv. variant_cases;
    (eapply (variant_ok_disc _ _ _ _ just_psk_id_discriminant);
     [apply _|by intros [] ?; naive_solver|done|]); intros [] ? _; try done; eauto.
Qed.

#[export] Instance just_psk_id_codec_ok : CodecOk just_psk_id_codec just_psk_id_wf.
Proof.
  eapply codec_ok_iff; [|apply (enum_codec_ok u8_codec (in_uint 8) _ _ just_psk_id_wf)].
  - intros x. split; [by intros []|]. intros Hx. split; [by destruct x|done].
  - apply just_psk_id_variants.
  - by intros [].
Qed.

#[export] Instance just_psk_id_codec_canonical : CodecCanonical just_psk_id_codec.
Proof.
  eapply (enum_codec_canonical u8_codec (in_uint 8) _ _ just_psk_id_wf);
    [apply just_psk_id_variants|apply _|].
  variant_cases; (eapply variant_codec_canonical; [apply _..|by intros [] ?; naive_solver]).
Qed.

Definition psk_id_wf (p : PreSharedKeyID) : Prop := just_psk_id_wf (key_id p) /\ bytes_ok (psk_nonce p).

#[export] Instance psk_id_codec_ok : CodecOk psk_id_codec psk_id_wf.
Proof. struct_ok. Qed.
#[export] Instance psk_id_codec_canonical : CodecCanonical psk_id_codec.
Proof. struct_canonical. Qed.

Lemma sender_variants t cv :
  (if t =? 1 then
     Some (variant_codec SenderMember (fun s => match s with SenderMember i => Some i | _ => None end)
             u32_codec)
   else if t =? 2 then
     Some (variant_codec SenderExternal (fun s => match s with SenderExternal i => Some i | _ => None end)
             u32_codec)
   else if t =? 3 then
     Some (variant_codec (fun _ => NewMemberProposal)
             (fun s => match s with NewMemberProposal => Some tt | _ => None end) unit_codec)
   else if t =? 4 then
     Some (variant_codec (fun _ => NewMemberCommit)
             (fun s => match s with NewMemberCommit => Some tt | _ => None end) unit_codec)
   else None) = Some cv ->
  CodecOk cv (fun x => sender_discriminant x = t /\
    match x with SenderMember i | SenderExternal i => in_uint (8 * Z.of_nat 4) i | _ => True end) /\
  CodecCanonical cv.
Proof.
  assert (forall (P : Sender -> unit -> Prop), (forall x, P x tt) -> forall x b, P x b) as Hu by (by intros P HP x []).
  revert t cv. variant_cases; split;
    first [eapply variant_codec_canonical; [apply _..|]|eapply (variant_ok_disc _ _ _ _ sender_discriminant); [apply _| |by intros|]];
    try (by intros [] ?; naive_solver); try (apply Hu; intros []; naive_solver);
    intros [] ? ?; try done; eauto; by exists tt.
Qed.

Definition sender_wf (s : Sender) : Prop :=
  match s with SenderMember i | SenderExternal i => is_u32 i | _ => True end.

#[export] Instance sender_codec_ok : CodecOk sender_codec sender_wf.
Proof.
  eapply codec_ok_iff; [|apply (enum_codec_ok u8_codec (in_uint 8) _ _ sender_wf)].
  - intros x. split; [by intros []|]. intros Hx. split; [by destruct x|done].
  - intros t cv H. by eapply sender_variants.
  - by intros [].
Qed.

#[export] Instance sender_codec_canonical : CodecCanonical sender_codec.
Proof.
  eapply (enum_codec_canonical u8_codec (in_uint 8) _ _ sender_wf);
    [|apply _|]; intros t cv H; by eapply sender_variants.
Qed.

(** ** The wire form of proposals *)

#[export] Instance add_codec_ok : CodecOk add_codec (fun p => key_package_wf (key_package p)).
Proof. struct_ok. Qed.
#[export] Instance add_codec_canonical : CodecCanonical add_codec.
Proof. struct_canonical. Qed.
#[export] Instance update_codec_ok : CodecOk update_codec (fun p => leaf_node_wf (up_leaf_node p)).
Proof. struct_ok. Qed.
#[export] Instance update_codec_canonical : CodecCanonical update_codec.
Proof. struct_canonical. Qed.
#[export] Instance remove_codec_ok : CodecOk remove_codec (fun p => leaf_index_wf (to_remove p)).
Proof. struct_ok. Qed.
#[export] Instance remove_codec_canonical : CodecCanonical remove_codec.
Proof. struct_canonical. Qed.
#[export] Instance psk_proposal_codec_ok : CodecOk psk_proposal_codec (fun p => psk_id_wf (psk p)).
Proof. struct_ok. Qed.
#[export] Instance psk_proposal_codec_canonical : CodecCanonical psk_proposal_codec.
Proof. struct_canonical. Qed.
#[export] Instance reinit_codec_ok : CodecOk reinit_codec (fun r =>
  bytes_ok (ri_group_id r) /\ is_u16 (ri_version r) /\ is_u16 (ri_cipher_suite r) /\
  extension_list_wf (ri_extensions r)).
Proof. struct_ok. Qed.
#[export] Instance reinit_codec_canonical : CodecCanonical reinit_codec.
Proof. struct_canonical. Qed.
#[export] Instance external_init_codec_ok : CodecOk external_init_codec (fun p => bytes_ok (ei_kem_output p)).
Proof. struct_ok. Qed.
#[export] Instance external_init_codec_canonical : CodecCanonical external_init_codec.
Proof. struct_canonical. Qed.

(** The payload by type, for all types including the reserved ones. *)
Definition proposal_variant (t : Z) : codec Proposal :=
  if t =? PT_ADD then variant_codec PAdd (fun p => match p with PAdd p => Some p | _ => None end) add_codec
  else if t =? PT_UPDATE then
    variant_codec PUpdate (fun p => match p with PUpdate p => Some p | _ => None end) update_codec
  else if t =? PT_REMOVE then
    variant_codec PRemove (fun p => match p with PRemove p => Some p | _ => None end) remove_codec
  else if t =? PT_PSK then
    variant_codec PPsk (fun p => match p with PPsk p => Some p | _ => None end) psk_proposal_codec
  else if t =? PT_RE_INIT then
    variant_codec PReInit (fun p => match p with PReInit p => Some p | _ => None end) reinit_codec
  else if t =? PT_EXTERNAL_INIT then
    variant_codec PExternalInit (fun p => match p with PExternalInit p => Some p | _ => None end)
      external_init_codec
  else if t =? PT_GROUP_CONTEXT_EXTENSIONS then
    variant_codec PGroupContextExtensions
      (fun p => match p with PGroupContextExtensions p => Some p | _ => None end) extension_list_codec
  else
    variant_codec (fun d => PCustom (mk_custom t d))
      (fun p => match p with
                | PCustom (mk_custom t' d) => if t' =? t then Some d else None
                | _ => None
                end) byte_vec_codec.

(** The proposal codec without the check of [mls_encode]. *)
Definition unchecked_codec : codec Proposal :=
  enum_codec u16_codec proposal_type (fun t => Some (proposal_variant t)).

Definition proposal_data_wf (p : Proposal) : Prop :=
  match p with
  | PAdd p => key_package_wf (key_package p)
  | PUpdate p => leaf_node_wf (up_leaf_node p)
  | PRemove p => leaf_index_wf (to_remove p)
  | PPsk p => psk_id_wf (psk p)
  | PReInit r => bytes_ok (ri_group_id r) /\ is_u16 (ri_version r) /\ is_u16 (ri_cipher_suite r) /\
      extension_list_wf (ri_extensions r)
  | PExternalInit p => bytes_ok (ei_kem_output p)
  | PGroupContextExtensions l => extension_list_wf l
  | PCustom c => ~ (1 <= custom_proposal_type c <= 7) /\ bytes_ok (custom_data c)
  end.

Lemma custom_proposal_proj t c d :
  match c with
  | PCustom (mk_custom t' d) => if t' =? t then Some d else None
  | _ => None
  end = Some d <-> PCustom (mk_custom t d) = c.
Proof. destruct c as [| | | | | | |[t' d']]; try done. destruct (Z.eqb_spec t' t); naive_solver. Qed.

(** The standard types, one at a time. *)
Ltac standard_variant :=
  split;
  [eapply (variant_ok_disc _ _ _ _ proposal_type);
   [apply _|intros [] ?; simpl; split; congruence|by intros; split|
    intros [] Ht Hw; try discriminate Ht; [by eexists|];
    destruct Hw as [Hw _]; simpl in Ht; rewrite Ht in Hw; exfalso; apply Hw; split; discriminate]
  |eapply variant_codec_canonical; [apply _..|intros [] ?; simpl; split; congruence]].

Lemma proposal_variant_ok t :
  CodecOk (proposal_variant t) (fun p => proposal_type p = t /\ proposal_data_wf p) /\
  CodecCanonical (proposal_variant t).
Proof.
  unfold proposal_variant.
  destruct (Z.eqb_spec t PT_ADD) as [->|H1]; [standard_variant|].
  destruct (Z.eqb_spec t PT_UPDATE) as [->|H2]; [standard_variant|].
  destruct (Z.eqb_spec t PT_REMOVE) as [->|H3]; [standard_variant|].
  destruct (Z.eqb_spec t PT_PSK) as [->|H4]; [standard_variant|].
  destruct (Z.eqb_spec t PT_RE_INIT) as [->|H5]; [standard_variant|].
  destruct (Z.eqb_spec t PT_EXTERNAL_INIT) as [->|H6]; [standard_variant|].
  destruct (Z.eqb_spec t PT_GROUP_CONTEXT_EXTENSIONS) as [->|H7]; [standard_variant|].
  split; [|eapply variant_codec_canonical; [apply _..|intros; apply custom_proposal_proj]].
  eapply (variant_ok_disc _ _ _ _ proposal_type); [apply _|intros; apply custom_proposal_proj| |].
  - intros b. split; [done|]. simpl. split; [tauto|]. intros Hb. split; [|done]. intros ?.
    assert (t = 1 \/ t = 2 \/ t = 3 \/ t = 4 \/ t = 5 \/ t = 6 \/ t = 7) by lia. naive_solver.
  - intros [| | | | | | |[t' d]] Ht Hw; simpl in *; try congruence. subst. by eexists.
Qed.

Definition proposal_wf (p : Proposal) : Prop := is_u16 (proposal_type p) /\ proposal_data_wf p.

#[export] Instance unchecked_codec_ok : CodecOk unchecked_codec proposal_wf.
Proof.
  apply (enum_codec_ok u16_codec (in_uint 16)); [|eauto]. intros t cv [= <-]. apply proposal_variant_ok.
Qed.

#[export] Instance unchecked_codec_canonical : CodecCanonical unchecked_codec.
Proof.
  eapply (enum_codec_canonical u16_codec (in_uint 16) _ _ proposal_data_wf); [|apply _|];
    intros t cv [= <-]; apply proposal_variant_ok.
Qed.

(** A type that [mls_encode] refuses. *)
Definition reserved (p : Proposal) : bool :=
  match p with PCustom c => custom_proposal_type c <=? 7 | _ => false end.

Lemma proposal_encode_eq p w :
  mls_encode proposal_codec p w =
    if reserved p then Err (Custom 2)
    else mls_encode unchecked_codec p w.
Proof.
  destruct p as [| | | | | | |c]; try done. cbn [reserved].
  unfold unchecked_codec. cbn [mls_encode enum_codec proposal_codec proposal_type].
  destruct (Z.leb_spec (custom_proposal_type c) 7) as [|Hc]; [done|]. unfold proposal_variant.
  unfold PT_ADD, PT_UPDATE, PT_REMOVE, PT_PSK, PT_RE_INIT, PT_EXTERNAL_INIT, PT_GROUP_CONTEXT_EXTENSIONS.
  repeat match goal with
    |- context [if ?a =? ?b then _ else _] => destruct (Z.eqb_spec a b); [lia|]
  end.
  destruct c as [t d]. cbn [mls_encode variant_codec custom_proposal_type custom_data]. by rewrite Z.eqb_refl.
Qed.

Lemma proposal_decode_eq bs : mls_decode proposal_codec bs = mls_decode unchecked_codec bs.
Proof.
  cbn [mls_decode enum_codec proposal_codec unchecked_codec].
  destruct (mls_decode u16_codec bs) as [[t r]| |]; [|done|done]. cbn [mbind res_bind].
  unfold proposal_variant. by repeat case_match.
Qed.

Lemma proposal_len_eq p : proposal_wf p -> mls_encoded_len proposal_codec p = mls_encoded_len unchecked_codec p.
Proof.
  intros [_ Hw]. destruct p as [| | | | | | |[t d]]; try done. destruct Hw as [Hw _]. simpl in Hw.
  cbn [mls_encoded_len proposal_codec unchecked_codec enum_codec proposal_type custom_proposal_type custom_data].
  unfold proposal_variant.
  unfold PT_ADD, PT_UPDATE, PT_REMOVE, PT_PSK, PT_RE_INIT, PT_EXTERNAL_INIT, PT_GROUP_CONTEXT_EXTENSIONS.
  repeat match goal with
    |- context [if ?a =? ?b then _ else _] => destruct (Z.eqb_spec a b); [lia|]
  end.
  cbn [mls_encoded_len variant_codec]. by rewrite Z.eqb_refl.
Qed.

(** The proposals that are encoded: not a custom proposal of a reserved type. *)
Definition sendable (p : Proposal) : Prop := proposal_wf p /\ reserved p = false.

Lemma proposal_codec_agree : codec_agree sendable proposal_codec unchecked_codec.
Proof.
  split.
  - intros p [Hp _]. by apply proposal_len_eq.
  - intros p w [_ Hr]. by rewrite proposal_encode_eq, Hr.
  - apply proposal_decode_eq.
Qed.

Definition or_ref_wf (o : ProposalOrRef) : Prop :=
  match o with OrProposal p => proposal_wf p | OrReference r => bytes_ok r end.

Definition or_ref_sendable (o : ProposalOrRef) : Prop :=
  match o with OrProposal p => sendable p | OrReference _ => True end.

Lemma or_ref_variants t cv :
  (if t =? 1 then
     Some (variant_codec OrProposal (fun p => match p with OrProposal p => Some p | _ => None end) unchecked_codec)
   else if t =? 2 then
     Some (variant_codec OrReference (fun p => match p with OrReference r => Some r | _ => None end) byte_vec_codec)
   else None) = Some cv ->
  CodecOk cv (fun o => match o with OrProposal _ => 1 | OrReference _ => 2 end = t /\ or_ref_wf o) /\
  CodecCanonical cv.
Proof.
  revert t cv. variant_cases; (split;
    [eapply (variant_ok_disc _ _ _ _ (fun o => match o with OrProposal _ => 1 | OrReference _ => 2 end));
       [apply _|by intros [] ?; naive_solver|done|intros [] ? ?; eauto; done]
    |eapply variant_codec_canonical; [apply _..|by intros [] ?; naive_solver]]).
Qed.

#[export] Instance or_ref_codec_ok : CodecOk (proposal_or_ref_codec_with unchecked_codec) or_ref_wf.
Proof.
  eapply codec_ok_iff; [|apply (enum_codec_ok u8_codec (in_uint 8) _ _ or_ref_wf)].
  - intros x. split; [by intros []|]. intros Hx. split; [by destruct x|done].
  - intros t cv Hv. by apply or_ref_variants in Hv as [].
  - by intros [].
Qed.

#[export] Instance or_ref_codec_canonical : CodecCanonical (proposal_or_ref_codec_with unchecked_codec).
Proof.
  eapply (enum_codec_canonical u8_codec (in_uint 8) _ _ or_ref_wf); [|apply _|];
    intros t cv Hv; by apply or_ref_variants in Hv as [].
Qed.

#[export] Instance or_ref_codec_progress : CodecProgress (proposal_or_ref_codec_with unchecked_codec).
Proof.
  eapply (enum_codec_progress u8_codec (in_uint 8) _ _ or_ref_wf); [|apply _].
  intros t cv Hv. by apply or_ref_variants in Hv as [].
Qed.

Lemma or_ref_codec_agree :
  codec_agree or_ref_sendable proposal_or_ref_codec (proposal_or_ref_codec_with unchecked_codec).
Proof.
  apply agree_enum. intros t. destruct (t =? 1), (t =? 2); try done; try apply agree_refl.
  all: eapply agree_weaken; [|apply agree_variant, proposal_codec_agree];
    (intros [p|r] Hx b; [by intros [= <-]|done]).
Qed.

(** ** The contents of a bundle *)

(** A proposal type is a field of the bundle: [add] appends to the field of the
    type of the proposal, and storing a field changes this field only. *)
Class ProposableLaws (T : Type) `{Proposable T} : Prop := {
  project_inject x : project (inject x) = Some x;
  filter_empty : bundle_filter bundle_empty = [];
  filter_add p s o b : bundle_filter (bundle_add p s o b) =
    bundle_filter b ++ match project p with Some x => [mk_info x s o] | None => [] end;
  filter_set l b : bundle_filter (bundle_set l b) = l;
  set_filter b : bundle_set (bundle_filter b) b = b;
  set_set l l' b : bundle_set l (bundle_set l' b) = bundle_set l b;
  filter_senders us b : bundle_filter (set_update_senders us b) = bundle_filter b;
  set_senders us l b : bundle_set l (set_update_senders us b) = set_update_senders us (bundle_set l b);
}.

#[export] Instance add_laws : ProposableLaws AddProposal.
Proof. split; [done|done| |done|by intros []|done..]. intros [] s o b; by rewrite ?app_nil_r. Qed.
#[export] Instance update_laws : ProposableLaws UpdateProposal.
Proof. split; [done|done| |done|by intros []|done..]. intros [] s o b; by rewrite ?app_nil_r. Qed.
#[export] Instance remove_laws : ProposableLaws RemoveProposal.
Proof. split; [done|done| |done|by intros []|done..]. intros [] s o b; by rewrite ?app_nil_r. Qed.
#[export] Instance psk_laws : ProposableLaws PreSharedKeyProposal.
Proof. split; [done|done| |done|by intros []|done..]. intros [] s o b; by rewrite ?app_nil_r. Qed.
#[export] Instance reinit_laws : ProposableLaws ReInitProposal.
Proof. split; [done|done| |done|by intros []|done..]. intros [] s o b; by rewrite ?app_nil_r. Qed.
#[export] Instance external_init_laws : ProposableLaws ExternalInit.
Proof. split; [done|done| |done|by intros []|done..]. intros [] s o b; by rewrite ?app_nil_r. Qed.
#[export] Instance extensions_laws : ProposableLaws ExtensionList.
Proof. split; [done|done| |done|by intros []|done..]. intros [] s o b; by rewrite ?app_nil_r. Qed.

Definition to_info : Proposal * Sender * ProposalSource -> ProposalInfo Proposal :=
  fun '(p, s, o) => mk_info p s o.

(** The proposals of type [T] of a list, in order. *)
Definition of_type (T : Type) `{Proposable T} (l : list (ProposalInfo Proposal)) : list (ProposalInfo T) :=
  omap (fun i => (fun x => mk_info x (sender i) (source i)) <$> project (proposal i)) l.

Lemma from_iter_snoc l p s o :
  bundle_from_iter (l ++ [(p, s, o)]) = bundle_add p s o (bundle_from_iter l).
Proof. unfold bundle_from_iter. by rewrite foldl_app. Qed.

Lemma filter_from_iter T `{ProposableLaws T} l :
  bundle_filter (bundle_from_iter l) = of_type T (to_info <$> l).
Proof.
  induction l as [|[[p s] o] l IH] using rev_ind; [apply filter_empty|].
  rewrite from_iter_snoc, filter_add, IH, fmap_app. unfold of_type. rewrite omap_app. f_equal.
  simpl. by destruct (project p).
Qed.

Lemma iter_add p s o b : iter_proposals (bundle_add p s o b) ≡ₚ mk_info p s o :: iter_proposals b.
Proof.
  destruct p; unfold iter_proposals; cbn [bundle_add additions updates removals psks reinitializations
    external_initializations group_context_extensions custom_proposals set_additions set_updates set_removals
    set_psks set_reinitializations set_external_initializations set_group_context_extensions
    set_custom_proposals]; rewrite fmap_app; cbn [fmap list_fmap info_map proposal sender source];
    solve_Permutation.
Qed.

Lemma into_iter b : into_proposals b ≡ₚ iter_proposals b.
Proof. unfold into_proposals, iter_proposals. solve_Permutation. Qed.

Lemma bundle_length_iter b : bundle_length b = zlen (iter_proposals b).
Proof. unfold bundle_length, iter_proposals, zlen. rewrite !length_app, !length_fmap. lia. Qed.

Lemma retain_loop_ok {T E} (f : ProposalInfo T -> res E bool) keep l :
  (forall p, p ∈ l -> f p = Ok (keep p)) -> retain_loop f l = (Ok tt, List.filter keep l).
Proof.
  induction l as [|p l IH]; intros Hf; [done|]. cbn [retain_loop List.filter].
  rewrite Hf by (by left). rewrite IH; [done|]. intros q Hq. apply Hf. by right.
Qed.

Lemma retain_by_type_ok {T E} `{Proposable T} (f : ProposalInfo T -> res E bool) keep b :
  (forall p, f p = Ok (keep p)) ->
  retain_by_type f b = (Ok tt, bundle_set (List.filter keep (bundle_filter b)) b).
Proof. intros Hf. unfold retain_by_type. by rewrite (retain_loop_ok f keep). Qed.

Lemma retain_loop_err {T E} (f : ProposalInfo T -> res E bool) l1 p l2 e :
  (forall q, q ∈ l1 -> exists k, f q = Ok k) -> f p = Err e -> (forall q, q ∈ l2 -> f q <> Panic) ->
  fst (retain_loop f (l1 ++ p :: l2)) = Err e.
Proof.
  assert (forall l, (forall q, q ∈ l -> f q <> Panic) -> fst (retain_loop f l) <> Panic) as Hnp.
  { induction l as [|q l IH]; intros Hq; [done|]. cbn [retain_loop].
    pose proof (Hq q ltac:(by left)). specialize (IH ltac:(intros; apply Hq; by right)).
    destruct (retain_loop f l) as [r l']. by destruct (f q), r. }
  intros H1 Hp H2. induction l1 as [|q l1 IH]; cbn [app retain_loop].
  - rewrite Hp. specialize (Hnp l2 H2). by destruct (retain_loop f l2) as [[] ?].
  - destruct (H1 q ltac:(by left)) as [k ->].
    specialize (IH ltac:(intros; apply H1; by right)). by destruct (retain_loop f (l1 ++ p :: l2)).
Qed.

Lemma delete_beyond {A} (l : list A) i : (length l <= i)%nat -> delete i l = l.
Proof.
  revert i. induction l as [|x l IH]; intros [|i] Hi; try done; simpl in *; [lia|]. f_equal. apply IH. lia.
Qed.

Lemma filter_fmap_info {T} (inj : T -> Proposal) keep (l : list (ProposalInfo T)) :
  info_map inj <$> List.filter (fun p => keep (info_map inj p)) l = List.filter keep (info_map inj <$> l).
Proof.
  induction l as [|p l IH]; [done|]. rewrite fmap_cons. cbn [List.filter].
  destruct (keep (info_map inj p)); rewrite ?fmap_cons; by rewrite IH.
Qed.

Definition is_custom (p : ProposalInfo Proposal) : bool :=
  match proposal p with PCustom _ => true | _ => false end.

(** ** Theorems *)

(** The wire form of proposals.  A well-formed proposal is encoded as its
    type and payload, with the announced length, and decodes to itself; a
    custom proposal with a reserved type is refused.  Decoding never panics
    and accepts exactly the encodings, except that a custom proposal of the
    reserved type 0 can be received though it cannot be sent. *)
Theorem proposal_wire_format :
  (forall p, proposal_wf p ->
     match mls_encode_to_vec proposal_codec p with
     | Ok b => reserved p = false /\ zlen b = mls_encoded_len proposal_codec p /\
         forall rest, bytes_ok rest -> mls_decode proposal_codec (b ++ rest) = Ok (p, rest)
     | Err e => if reserved p then e = Custom 2 else e = VarIntOutOfRange
     | Panic => False
     end) /\
  (forall bs, bytes_ok bs ->
     match mls_decode proposal_codec bs with
     | Ok (p, rest) => proposal_wf p /\
         if reserved p then exists d, p = PCustom (mk_custom 0 d)
         else exists b, bs = b ++ rest /\ mls_encode_to_vec proposal_codec p = Ok b
     | Err _ => True
     | Panic => False
     end).
Proof.
  split.
  - intros p Hp. unfold mls_encode_to_vec. rewrite proposal_encode_eq, (proposal_len_eq p Hp).
    destruct (reserved p); [done|]. pose proof (enc_spec (c := unchecked_codec) p Hp) as H. unfold enc_good in H.
    destruct (mls_encode unchecked_codec p []) as [b| |]; [|done|done]. destruct H as (_ & Hl & Hd).
    split; [done|]. split; [done|]. intros rest Hr. rewrite proposal_decode_eq. by apply Hd.
  - intros bs Hbs. rewrite proposal_decode_eq.
    pose proof (dec_spec (c := unchecked_codec) bs Hbs) as H. unfold dec_good in H.
    destruct (mls_decode unchecked_codec bs) as [[p rest]| |] eqn:E; [|done|done].
    destruct H as [Hp _]. split; [done|]. destruct (reserved p) eqn:Er.
    + destruct p as [| | | | | | |[t d]]; try done. exists d. do 2 f_equal.
      destruct Hp as [[Ht _] [Hn _]]. cbn [reserved custom_proposal_type proposal_type] in *.
      apply Z.leb_le in Er. lia.
    + apply (dec_canonical (c := unchecked_codec)) in E as (b & -> & Hb); [|done]. exists b. split; [done|].
      unfold mls_encode_to_vec. by rewrite proposal_encode_eq, Er.
Qed.

Lemma proposal_wire_format_witness :
  mls_encode_to_vec proposal_codec (PRemove (mk_remove 5)) = Ok [0; 3; 0; 0; 0; 5] /\
  mls_decode proposal_codec ([0; 3; 0; 0; 0; 5] ++ [9]) = Ok (PRemove (mk_remove 5), [9]).
Proof.
  destruct proposal_wire_format as [H _].
  specialize (H (PRemove (mk_remove 5)) ltac:(split; [done|by split])).
  split; [reflexivity|]. change (mls_encode_to_vec proposal_codec (PRemove (mk_remove 5)))
    with (Ok (E := codec_error) [0; 3; 0; 0; 0; 5]) in H. cbv beta iota in H. destruct H as (_ & _ & H).
  apply H. by repeat constructor.
Defined.

(** What a bundle contains.  A bundle collected from a sequence of
    proposals contains exactly these proposals, and those of one type in their
    order; both iterations enumerate all of them, [length] counts them, and
    the proposals and references of the commit are those that were not
    injected locally. *)
Theorem bundle_contents (l : list (Proposal * Sender * ProposalSource)) :
  let b := bundle_from_iter l in
  let all := to_info <$> l in
  iter_proposals b ≡ₚ all /\ into_proposals b ≡ₚ all /\ bundle_length b = zlen l /\
  additions b = of_type AddProposal all /\ updates b = of_type UpdateProposal all /\
  removals b = of_type RemoveProposal all /\ psks b = of_type PreSharedKeyProposal all /\
  reinitializations b = of_type ReInitProposal all /\
  external_initializations b = of_type ExternalInit all /\
  group_context_extensions b = of_type ExtensionList all /\
  zlen (proposals_or_refs b) = zlen (List.filter (fun p => negb (bool_decide (source p = Local_))) all).
Proof.
  intros b all. assert (iter_proposals b ≡ₚ all) as Hall.
  { unfold b, all. induction l as [|[[p s] o] l IH] using rev_ind; [done|].
    rewrite from_iter_snoc, iter_add, fmap_app, IH. simpl. solve_Permutation. }
  split; [done|]. split; [by rewrite into_iter|].
  split; [rewrite bundle_length_iter, Hall; unfold zlen, all; by rewrite length_fmap|].
  split; [exact (filter_from_iter AddProposal l)|]. split; [exact (filter_from_iter UpdateProposal l)|].
  split; [exact (filter_from_iter RemoveProposal l)|]. split; [exact (filter_from_iter PreSharedKeyProposal l)|].
  split; [exact (filter_from_iter ReInitProposal l)|]. split; [exact (filter_from_iter ExternalInit l)|].
  split; [exact (filter_from_iter ExtensionList l)|].
  unfold proposals_or_refs. rewrite Hall. unfold zlen. f_equal. clear. induction all as [|p all IH]; [done|].
  cbn [omap list_omap List.filter]. destruct (source p); case_bool_decide; simplify_eq; cbn [negb length]; by rewrite ?IH.
Qed.

(** Filtering a bundle.  When the filter succeeds, [retain] keeps exactly
    the standard proposals it accepts, in their order, and all custom ones;
    [remove] drops the proposal at its index or does nothing beyond the end. *)
Theorem bundle_filtering (b : ProposalBundle) (keep : ProposalInfo Proposal -> bool) (index : Z)
    (Hindex : 0 <= index) :
  (exists b', bundle_retain (E := MlsError) (fun p => Ok (keep p)) b = (Ok tt, b') /\
     iter_proposals b' = List.filter (fun p => is_custom p || keep p) (iter_proposals b)) /\
  bundle_remove UpdateProposal index b = set_updates (delete (Z.to_nat index) (updates b)) b.
Proof.
  split.
  - eexists. split.
    + unfold bundle_retain.
      do 7 (erewrite sm_bind_run by (apply retain_by_type_ok; intros; reflexivity)). reflexivity.
    + unfold iter_proposals. cbn [bundle_set bundle_filter add_proposable update_proposable remove_proposable
        psk_proposable reinit_proposable external_init_proposable extensions_proposable
        additions updates removals psks reinitializations
        external_initializations group_context_extensions custom_proposals set_additions set_updates
        set_removals set_psks set_reinitializations set_external_initializations
        set_group_context_extensions].
      rewrite !List.filter_app, !filter_fmap_info.
      assert (forall T (inj : T -> Proposal) l, (forall x, is_custom (info_map inj x) = false) ->
        List.filter (fun p => is_custom p || keep p) (info_map inj <$> l) = List.filter keep (info_map inj <$> l)) as Hs.
      { intros T inj l Hc. induction l as [|x l IH]; [done|]. rewrite fmap_cons. cbn [List.filter].
        rewrite Hc. cbn [orb]. by rewrite IH. }
      rewrite !Hs by done. do 7 f_equal. induction (custom_proposals b) as [|x l IH]; [done|].
      rewrite fmap_cons. cbn. by f_equal.
  - unfold bundle_remove. cbn [bundle_filter update_proposable bundle_set].
    destruct (Z.ltb_spec index (zlen (updates b))); [done|].
    rewrite delete_beyond by (unfold zlen in *; lia). by destruct b.
Qed.

Definition sample_bundle : ProposalBundle :=
  bundle_from_iter [(PRemove (mk_remove 1), SenderMember 0, ByValue);
    (PCustom (mk_custom 9 [1]), SenderMember 2, Local_); (PRemove (mk_remove 2), SenderMember 0, ByReference [7])].

Lemma bundle_filtering_witness :
  exists b', bundle_retain (E := MlsError) (fun p => Ok (is_by_reference p)) sample_bundle = (Ok tt, b') /\
     iter_proposals b' = [mk_info (PRemove (mk_remove 2)) (SenderMember 0) (ByReference [7]);
       mk_info (PCustom (mk_custom 9 [1])) (SenderMember 2) Local_].
Proof. destruct (bundle_filtering sample_bundle is_by_reference 0 ltac:(lia)) as [H _]. exact H. Defined.
