(* ===== verification/TreeKem.v ===== *)
(** * The public ratchet tree

    Models [TreeKemPublic] of mls-rs/src/tree_kem/mod.rs: adding, updating and
    removing leaves, installing the path of a commit, and applying the
    proposals of a commit in one batch; with the recovery of the positions of
    an update path of mls-rs/src/tree_kem/update_path.rs.  The features are the
    default ones ([tree_index], [by_ref_proposal], [custom_proposal]). *)

From Stdlib Require Import Sorted.
From S2P Require Import Prelude Codec Crypto TreeMath Data NodeVec TreeIndex TreeHash ParentHash TreeInv Proposals.

#[local] Set Default Goal Selector "!".
Local Open Scope Z_scope.

(** ** Update paths *)

Record UpdatePathNode := mk_update_path_node {
  upn_public_key : HpkePublicKey;
  encrypted_path_secret : list HpkeCiphertext;
}.

Record UpdatePath := mk_update_path { path_leaf_node : LeafNode; path_nodes : list UpdatePathNode }.

Record ValidatedUpdatePath := mk_validated_update_path {
  vup_leaf_node : LeafNode;
  vup_nodes : list (option UpdatePathNode);
}.

Definition update_path_node_codec : codec UpdatePathNode :=
  struct_codec (fun n => (upn_public_key n, encrypted_path_secret n)) (fun '(k, s) => mk_update_path_node k s)
    (pair_codec byte_vec_codec (vec_codec hpke_ciphertext_codec)).

Definition update_path_codec : codec UpdatePath :=
  struct_codec (fun p => (path_leaf_node p, path_nodes p)) (fun '(l, n) => mk_update_path l n)
    (pair_codec leaf_node_codec (vec_codec update_path_node_codec)).

(** The end of [validate_update_path]: the nodes of the path are given the
    positions that are not filtered. *)
Fixpoint unfilter (filtered : list bool) (ns : list UpdatePathNode) : mres (list (option UpdatePathNode)) :=
  match ns with
  | [] => Ok []
  | n :: ns' =>
      match filtered with
      | [] => Err WrongPathLen
      | true :: filtered => cons None <$> unfilter filtered ns
      | false :: filtered => cons (Some n) <$> unfilter filtered ns'
      end
  end.

(** ** Access *)

Definition zoom_index {A} : SM TreeIndex MlsError A -> SM TreeKemPublic MlsError A :=
  sm_zoom index set_index.

(** [LeafNode] equality: extension lists are compared as sets. *)
Definition leaf_node_eq (l l' : LeafNode) : bool :=
  bool_decide (leaf_public_key l = leaf_public_key l') &&
  bool_decide (signing_identity l = signing_identity l') &&
  bool_decide (capabilities l = capabilities l') &&
  bool_decide (leaf_node_source l = leaf_node_source l') &&
  ext_list_eq (leaf_extensions l) (leaf_extensions l') &&
  bool_decide (leaf_signature l = leaf_signature l').

Definition get_leaf_node (t : TreeKemPublic) (i : Z) : mres LeafNode := borrow_as_leaf (nodes t) i.

Definition find_leaf_node (t : TreeKemPublic) (l : LeafNode) : option Z :=
  head (omap (fun '(i, l') => if leaf_node_eq l' l then Some i else None) (non_empty_leaves (nodes t))).

Definition can_support_proposal (t : TreeKemPublic) (proposal_type : Z) : bool :=
  count_supporting_proposal (index t) proposal_type =? occupied_leaf_count (nodes t).

Section tree_kem.
Context {idp : IdentityProvider} `{CipherSuiteProvider}.

(** [identity] with the error of this module. *)
Definition leaf_identity (l : LeafNode) (extensions : ExtensionList) : mres bytes :=
  from_identity (identity (signing_identity l) extensions).

Fixpoint index_leaves (ls : list (Z * LeafNode)) (extensions : ExtensionList) : SM TreeIndex MlsError unit :=
  match ls with
  | [] => mret tt
  | (i, l) :: ls => _ ← index_insert l i extensions; index_leaves ls extensions
  end.

Definition initialize_index_if_necessary (extensions : ExtensionList) : SM TreeKemPublic MlsError unit :=
  t ← sm_get;
  if is_initialized (index t) then mret tt
  else
    _ ← sm_modify (set_index tree_index_new);
    zoom_index (index_leaves (non_empty_leaves (nodes t)) extensions).

Definition import_node_data (v : NodeVec) (extensions : ExtensionList) : mres TreeKemPublic :=
  match initialize_index_if_necessary extensions (set_nodes v tree_kem_new) with
  | (Ok _, t) => Ok t
  | (Err e, _) => Err e
  | (Panic, _) => Panic
  end.

(** ** Changing one leaf *)

Definition update_node (pub_key : HpkePublicKey) (i : Z) : SM TreeKemPublic MlsError unit :=
  zoom_nodes (update_or_fill_parent i pub_key (fun p => mk_parent pub_key (parent_hash p) [])).

(** [for (node, pn) in update_path.nodes.iter().zip(path)]. *)
Fixpoint update_path_nodes (ns : list (option UpdatePathNode)) (cps : list CopathNode) :
    SM TreeKemPublic MlsError unit :=
  match ns, cps with
  | n :: ns, cp :: cps =>
      _ ← match n with
          | Some n => update_node (upn_public_key n) (path cp)
          | None => mret tt
          end;
      update_path_nodes ns cps
  | _, _ => mret tt
  end.

Definition apply_update_path (sender : Z) (update_path : ValidatedUpdatePath) (extensions : ExtensionList) :
    SM TreeKemPublic MlsError unit :=
  t ← sm_get;
  original_leaf_node ← sm_lift (borrow_as_leaf_mut (nodes t) sender);
  original_identity ← sm_lift (leaf_identity original_leaf_node extensions);
  _ ← zoom_nodes (update_leaf sender (fun _ => vup_leaf_node update_path));
  t ← sm_get;
  _ ← update_path_nodes (vup_nodes update_path) (vec_direct_copath (nodes t) sender);
  _ ← zoom_index (sm_modify (tree_index_remove original_leaf_node original_identity));
  _ ← zoom_index (index_insert (vup_leaf_node update_path) sender extensions);
  update_parent_hashes sender true.

(** [if let Ok(p) = borrow_as_parent_mut(i.path) { p.unmerged_leaves.push(index) }]
    for every node of the path; the failures are ignored. *)
Definition push_unmerged (i : Z) (v : NodeVec) (x : Z) : NodeVec :=
  match borrow_as_parent_mut v x with
  | Ok p =>
      zset v x (Some (NodeParent
        (mk_parent (parent_public_key p) (parent_hash p) (unmerged_leaves p ++ [i]))))
  | _ => v
  end.

Definition update_unmerged (i : Z) (v : NodeVec) : NodeVec :=
  foldl (push_unmerged i) v (path <$> vec_direct_copath v i).

Definition add_leaf (leaf : LeafNode) (extensions : ExtensionList) (start : option Z) :
    SM TreeKemPublic MlsError Z :=
  t ← sm_get;
  i ← sm_lift (next_empty_leaf (nodes t) (default 0 start));
  _ ← zoom_index (index_insert leaf i extensions);
  v ← sm_lift (insert_leaf i leaf (nodes t));
  _ ← sm_modify (set_nodes (update_unmerged i v));
  mret i.
End tree_kem.

(** ** Applying the proposals of a commit *)

(** The tree and the bundle that [batch_edit] borrows mutably. *)
Record EditState := mk_edit_state { es_tree : TreeKemPublic; es_bundle : ProposalBundle }.

Definition zoom_tree {A} : SM TreeKemPublic MlsError A -> SM EditState MlsError A :=
  sm_zoom es_tree (fun t s => mk_edit_state t (es_bundle s)).
Definition modify_bundle (f : ProposalBundle -> ProposalBundle) : SM EditState MlsError unit :=
  sm_modify (fun s => mk_edit_state (es_tree s) (f (es_bundle s))).
Definition get_tree : SM EditState MlsError TreeKemPublic := fun s => (Ok (es_tree s), s).
Definition get_bundle : SM EditState MlsError ProposalBundle := fun s => (Ok (es_bundle s), s).
Definition modify_nodes (f : NodeVec -> NodeVec) : SM EditState MlsError unit :=
  zoom_tree (sm_modify (fun t => set_nodes (f (nodes t)) t)).
Definition edit_insert_leaf (i : Z) (l : LeafNode) : SM EditState MlsError unit :=
  t ← get_tree;
  v ← sm_lift (insert_leaf i l (nodes t));
  modify_nodes (fun _ => v).

(** An update whose old leaf has been taken out of the tree: the index, the
    old and the new leaf, and the position in the bundle. *)
Record PartialUpdate := mk_partial_update { pu_index : Z; pu_old : LeafNode; pu_new : LeafNode; pu_pos : Z }.

(** The variables of the loop over the partial updates. *)
Record UpdateLoop := mk_update_loop {
  removed_leaves : list LeafNode;
  updated_indices : list Z;
  bad_indices : list Z;
}.

(** [Vec::remove]. *)
Definition vec_remove {A} (i : Z) (l : list A) : mres (list A) :=
  if i <? zlen l then Ok (delete (Z.to_nat i) l) else Panic.

Section batch_edit.
Context {idp : IdentityProvider} `{CipherSuiteProvider} (extensions : ExtensionList) (filter : bool).

Definition apply_remove (T : Type) `{Proposable T} (i p_index : Z) (is_by_value : bool) :
    SM EditState MlsError unit :=
  res ← sm_try (zoom_tree (zoom_nodes (blank_leaf_node i)));
  _ ← (if is_ok res then modify_nodes (blank_direct_path i) else mret tt);
  _ ← match res with
      | Ok old_leaf =>
          id ← sm_lift (leaf_identity old_leaf extensions);
          zoom_tree (zoom_index (sm_modify (tree_index_remove old_leaf id)))
      | _ => mret tt
      end;
  if is_by_value || negb filter then _ ← sm_lift res; mret tt
  else if negb (is_ok res) then modify_bundle (bundle_remove T p_index)
  else mret tt.

(** [for i in (0..remove_proposals().len()).rev()]. *)
Fixpoint apply_removes (n : nat) : SM EditState MlsError unit :=
  match n with
  | O => mret tt
  | S n =>
      b ← get_bundle;
      p ← sm_lift (unwrap (removals b !! n));
      _ ← apply_remove RemoveProposal (to_remove (proposal p)) (Z.of_nat n) (is_by_value p);
      apply_removes n
  end.

(** Take the leaves to update out of the tree. *)
Fixpoint take_updates (i : Z) (ps : list (ProposalInfo UpdateProposal * Z)) :
    SM EditState MlsError (list PartialUpdate) :=
  match ps with
  | [] => mret []
  | (p, sender) :: ps =>
      res ← sm_try (zoom_tree (zoom_nodes (blank_leaf_node sender)));
      match res with
      | Ok old_leaf =>
          old_id ← sm_lift (leaf_identity old_leaf extensions);
          _ ← zoom_tree (zoom_index (sm_modify (tree_index_remove old_leaf old_id)));
          rest ← take_updates (i + 1) ps;
          mret (mk_partial_update sender old_leaf (up_leaf_node (proposal p)) i :: rest)
      | _ =>
          if negb filter || negb (is_by_reference p) then sm_lift (Err UpdatingNonExistingMember)
          else take_updates (i + 1) ps
      end
  end.

(** [removed_leaves.zip(updated_indices).for_each(insert_leaf)]. *)
Fixpoint revert_leaves (ls : list (LeafNode * Z)) : SM EditState MlsError unit :=
  match ls with
  | [] => mret tt
  | (l, i) :: ls => _ ← edit_insert_leaf i l; revert_leaves ls
  end.

(** Apply the updates one by one; an update that can neither be applied nor
    reverted reverts all of them and ends the loop. *)
Fixpoint apply_updates (index_clone : TreeIndex) (us : list PartialUpdate) (acc : UpdateLoop) :
    SM EditState MlsError UpdateLoop :=
  match us with
  | [] => mret acc
  | u :: us =>
      res ← sm_try (zoom_tree (zoom_index (index_insert (pu_new u) (pu_index u) extensions)));
      _ ← (if negb filter then sm_lift res else mret tt);
      if is_ok res then
        _ ← edit_insert_leaf (pu_index u) (pu_new u);
        apply_updates index_clone us
          (mk_update_loop (removed_leaves acc ++ [pu_old u]) (updated_indices acc ++ [pu_index u])
             (bad_indices acc))
      else
        res ← sm_try (zoom_tree (zoom_index (index_insert (pu_old u) (pu_index u) extensions)));
        if is_ok res then
          _ ← edit_insert_leaf (pu_index u) (pu_old u);
          apply_updates index_clone us
            (mk_update_loop (removed_leaves acc) (updated_indices acc) (bad_indices acc ++ [pu_pos u]))
        else
          _ ← zoom_tree (sm_modify (set_index index_clone));
          _ ← revert_leaves (zip (removed_leaves acc) (updated_indices acc));
          mret (mk_update_loop (removed_leaves acc) [] (bad_indices acc))
  end.

(** Drop the rejected updates from the bundle, from the last to the first. *)
Fixpoint drop_updates (bad : list Z) : SM EditState MlsError unit :=
  match bad with
  | [] => mret tt
  | i :: bad =>
      _ ← modify_bundle (bundle_remove UpdateProposal i);
      b ← get_bundle;
      senders ← sm_lift (vec_remove i (update_senders b));
      _ ← modify_bundle (set_update_senders senders);
      drop_updates bad
  end.

(** The loop over the additions; returns the added indices and the positions
    of the rejected proposals. *)
Fixpoint apply_adds (i : Z) (ps : list (ProposalInfo AddProposal)) (start : Z) :
    SM EditState MlsError (list Z * list Z) :=
  match ps with
  | [] => mret ([], [])
  | p :: ps =>
      res ← sm_try (zoom_tree (add_leaf (kp_leaf_node (key_package (proposal p))) extensions (Some start)));
      match res with
      | Ok idx =>
          '(added, bad) ← apply_adds (i + 1) ps idx;
          mret (idx :: added, bad)
      | _ =>
          if is_by_value p || negb filter then _ ← sm_lift res; mret ([], [])
          else '(added, bad) ← apply_adds (i + 1) ps start; mret (added, i :: bad)
      end
  end.

(** The updates: take the old leaves out, put the new ones in, blank the paths
    of those that were updated and drop the rejected ones. *)
Definition batch_updates : SM EditState MlsError (list Z) :=
  b ← get_bundle;
  partial_updates ← take_updates 0 (zip (updates b) (update_senders b));
  t ← get_tree;
  acc ← apply_updates (index t) partial_updates (mk_update_loop [] [] []);
  _ ← modify_nodes (fun v => foldl (fun v i => blank_direct_path i v) v (updated_indices acc));
  _ ← match updated_indices acc with
      | [] => modify_bundle (set_updates [])
      | _ => drop_updates (reverse (bad_indices acc))
      end;
  mret (updated_indices acc).

(** The additions, trimming and rehashing. *)
Definition batch_adds (updated_indices : list Z) : SM EditState MlsError (list Z) :=
  b ← get_bundle;
  '(added, bad) ← apply_adds 0 (additions b) 0;
  _ ← modify_bundle (fun b => foldl (fun b i => bundle_remove AddProposal i b) b (reverse bad));
  _ ← modify_nodes trim;
  b ← get_bundle;
  _ ← zoom_tree (update_hashes
        (((fun p => to_remove (proposal p)) <$> removals b) ++ updated_indices ++ added));
  mret added.

Definition batch_edit : SM EditState MlsError (list Z) :=
  b ← get_bundle;
  _ ← apply_removes (length (removals b));
  updated_indices ← batch_updates;
  batch_adds updated_indices.
End batch_edit.

(** * Correctness *)

(** ** The tree and its index *)

Section tree_ok.
Context (idf : SigningIdentity -> bytes).

(** The node vector is well formed and the index represents its leaves. *)
Record tree_ok (t : TreeKemPublic) : Prop := {
  to_vec : vec_inv [] (nodes t);
  to_index : index_rep idf (index t) (non_empty_leaves (nodes t));
}.
End tree_ok.

(** The leaves as a finite map. *)
Definition leaf_map (v : NodeVec) : gmap Z LeafNode := list_to_map (non_empty_leaves v).

Lemma lookup_leaf_map v i : leaf_map v !! i = leaf_at v i.
Proof.
  unfold leaf_map. destruct (leaf_at v i) as [l|] eqn:E.
  - apply elem_of_list_to_map; [apply members_NoDup|]. by apply elem_of_members.
  - apply not_elem_of_list_to_map. by apply members_fresh.
Qed.

(** Outside of the paths of the leaves [ls], nothing changes from [v] to [v']. *)
Definition changed_on (ls : list Z) (v v' : NodeVec) : Prop :=
  forall (k : nat) j, 0 <= j -> nd v' (node (Z.of_nat k) j) <> nd v (node (Z.of_nat k) j) ->
    exists l, l ∈ ls /\ j = Z.shiftr l (Z.of_nat k).

Lemma changed_on_refl ls v : changed_on ls v v.
Proof. by intros k j _ []. Qed.

Lemma changed_on_trans ls v v' v'' : changed_on ls v v' -> changed_on ls v' v'' -> changed_on ls v v''.
Proof.
  intros H1 H2 k j Hj Hne.
  destruct (decide (nd v' (node (Z.of_nat k) j) = nd v (node (Z.of_nat k) j))) as [E|E]; [|by apply H1].
  apply H2; [done|]. by rewrite E.
Qed.

Lemma changed_on_mono ls ls' v v' : ls ⊆ ls' -> changed_on ls v v' -> changed_on ls' v v'.
Proof. intros Hs H1 k j Hj Hne. destruct (H1 k j Hj Hne) as (l & Hl & ?). exists l. split; [by apply Hs|done]. Qed.

Lemma changed_on_leaf v v' i : 0 <= i -> (forall x, x <> 2 * i -> nd v' x = nd v x) -> changed_on [i] v v'.
Proof.
  intros Hi H k j Hj Hne. exists i. split; [by left|].
  destruct (decide (node (Z.of_nat k) j = 2 * i)) as [E|E]; [|by destruct Hne; apply H].
  rewrite <- node_0 in E. change 0 with (Z.of_nat 0) in E.
  apply node_inj in E as [Ek ->]; [|lia..]. apply Nat2Z.inj in Ek as ->. by rewrite Z.shiftr_0_r.
Qed.

Lemma changed_on_path v v' i : zlen v <= 2 ^ 26 -> 0 <= i < 2 ^ Z.of_nat (depth v) ->
  (forall x, x ∉ path_of v i -> nd v' x = nd v x) -> zlen v' = zlen v -> changed_on [i] v v'.
Proof.
  intros Hv Hi H Hz k j Hj Hne. exists i. split; [by left|].
  destruct (decide (node (Z.of_nat k) j ∈ path_of v i)) as [Hin|Hin]; [|by destruct Hne; apply H].
  assert (node (Z.of_nat k) j < zlen v) as Hlt.
  { destruct (Z.lt_ge_cases (node (Z.of_nat k) j) (zlen v)) as [|Hge]; [done|]. destruct Hne.
    unfold nd. by rewrite !(proj2 (zget_None _ _)) by lia. }
  by apply (elem_of_path_of v i Hv Hi k j Hj Hlt) in Hin as [_ ->].
Qed.

Lemma vec_inv_len dirty v : vec_inv dirty v -> zlen v <= 2 ^ 25 /\ zlen v <= 2 ^ 26.
Proof. intros Hv. destruct (vi_shape _ _ Hv) as [_ H]. change (2 ^ 25) with 33554432 in *. change (2 ^ 26) with 67108864. lia. Qed.

Definition parity_ok (v : NodeVec) : Prop := forall x n, nd v x = Some n ->
  match n with NodeLeaf _ => Z.odd x = false | NodeParent _ => Z.odd x = true end.

(** A position that holds no leaf is blank. *)
Lemma leaf_position v i : parity_ok v ->
  nd v (2 * i) = match leaf_at v i with Some l => Some (NodeLeaf l) | None => None end.
Proof.
  intros Hv. unfold leaf_at. destruct (nd v (2 * i)) as [[l|p]|] eqn:E; [done| |done].
  pose proof (Hv _ _ E) as Ho. simpl in Ho. by rewrite odd_double in Ho.
Qed.

Lemma blank_leaf_node_spec v i : parity_ok v -> 0 <= i < 2 ^ 31 ->
  match leaf_at v i with
  | Some l => blank_leaf_node i v = (Ok l, zset v (2 * i) None)
  | None => exists e, blank_leaf_node i v = (Err e, v)
  end.
Proof.
  intros Hv Hi. pose proof (leaf_position _ i Hv) as Hp. unfold blank_leaf_node. rewrite node_index_eq by done.
  destruct (leaf_at v i) as [l|].
  - pose proof (nd_bound _ _ _ Hp) as Hb. unfold validate_index.
    pose proof (next_power_of_two_ge (zlen v)).
    destruct (Z.leb_spec (next_power_of_two (zlen v)) (2 * i)); [lia|].
    apply nd_zget in Hp. by rewrite Hp.
  - unfold validate_index. destruct (_ <=? _); [by eexists|].
    unfold nd in Hp. destruct (zget v (2 * i)) as [n|] eqn:E; [|by eexists].
    simpl in Hp. subst n. eexists. f_equal. unfold zset, zget in *. destruct (_ <? _); [done|].
    by apply list_insert_id.
Qed.

Lemma leaf_at_zset v i n i' : (exists x, zget v (2 * i) = Some x) ->
  leaf_at (zset v (2 * i) n) i' =
    if decide (i' = i) then match n with Some (NodeLeaf l) => Some l | _ => None end else leaf_at v i'.
Proof.
  intros [x Hx]. apply zget_Some_bound in Hx. destruct (decide (i' = i)) as [->|]; [|by apply leaf_at_zset_ne].
  unfold leaf_at. by rewrite nd_zset_eq.
Qed.

Section operations.
Context {idp : IdentityProvider} (idf : SigningIdentity -> bytes) (extensions : ExtensionList)
  (Hid : forall s, identity s extensions = Ok (idf s)).

Notation tree_ok := (tree_ok idf).

Lemma leaf_identity_eq l : leaf_identity l extensions = Ok (idf (signing_identity l)).
Proof using Hid. unfold leaf_identity. by rewrite Hid. Qed.

Lemma members_small t : tree_ok t -> zlen (non_empty_leaves (nodes t)) + 1 < 2 ^ 32.
Proof.
  intros [Hv _]. pose proof (members_bound (nodes t)). apply vec_inv_len in Hv as [Hv _].
  change (2 ^ 25) with 33554432 in Hv. change (2 ^ 32) with 4294967296. lia.
Qed.

(** Insertion in the index of a leaf that is not in it. *)
Lemma index_insert_members x ls i leaf : index_rep idf x ls -> i ∉ ls.*1 -> zlen ls + 1 < 2 ^ 32 ->
  match index_insert leaf i extensions x with
  | (Ok _, x') => index_rep idf x' ((i, leaf) :: ls) /\ (forall i' l, (i', l) ∈ ls -> compatible idf leaf l)
  | (Err _, x') => index_rep idf x' ls /\ ~ (forall i' l, (i', l) ∈ ls -> compatible idf leaf l)
  | (Panic, _) => False
  end.
Proof using Hid.
  intros Hx Hi Hlen. unfold index_insert, mbind, sm_bind, sm_lift. rewrite Hid. cbn [from_identity map_err].
  destruct (tree_index_insert_spec idf x ls i leaf Hx Hi Hlen) as [[Hc (x' & -> & Hx')]|[Hc (e & x' & -> & Hx')]]; done.
Qed.

(** The nodes after [add_leaf]. *)
Lemma add_leaf_nodes v i leaf : vec_inv [] v -> zlen v + 2 <= 2 ^ 25 -> leaf_at v i = None -> 0 <= i ->
  (forall i', 0 <= i' < i -> is_Some (leaf_at v i')) ->
  (2 * i < zlen v \/ (v <> [] /\ 2 * i = zlen v + 1) \/ (v = [] /\ i = 0)) ->
  exists v1, insert_leaf i leaf v = Ok v1 /\ vec_inv [] (update_unmerged i v1) /\
    (forall i', leaf_at (update_unmerged i v1) i' = if decide (i' = i) then Some leaf else leaf_at v i') /\
    (forall x, parent_at (update_unmerged i v1) x =
       if decide (x ∈ path_of (update_unmerged i v1) i) then add_unmerged i <$> parent_at v x else parent_at v x) /\
    changed_on [i] v (update_unmerged i v1) /\ zlen (update_unmerged i v1) <= Z.max (zlen v) (2 * i + 1).
Proof.
  intros Hv Hroom Hnone Hi Hlow Hcase.
  destruct (insert_leaf_spec v i leaf (vi_shape _ _ Hv) Hi Hcase) as (v1 & E & Hl1 & Ho1 & Hz1 & Hodd1).
  assert (zlen v1 <= 2 ^ 25) as Hlen1 by (rewrite Hz1; destruct Hcase as [?|[[_ ?]|[_ ->]]]; lia).
  assert (zlen v1 <= 2 ^ 26) as Hlen1' by (change (2 ^ 25) with 33554432 in Hlen1; change (2 ^ 26) with 67108864; lia).
  assert (leaf_at v1 i = Some leaf) as Hl1' by (unfold leaf_at; by rewrite Hl1).
  destruct (leaf_at_bound v1 i leaf Hlen1' Hl1') as [Hid1 _].
  destruct (push_unmerged_nd (push_unmerged i) i ltac:(done) (path_of v1 i) v1 (path_of_NoDup v1 i Hlen1' Hid1))
    as [Hz2 Hn2]. change (foldl (push_unmerged i) v1 (path_of v1 i)) with (update_unmerged i v1) in *.
  assert (vec_inv [] (update_unmerged i v1)) as Hv2 by (by eapply vec_inv_add).
  assert (forall x, parent_at v1 x = parent_at v x) as Hp1.
  { intros x. unfold parent_at. destruct (decide (x = 2 * i)) as [->|]; [|by rewrite Ho1].
    rewrite Hl1, (leaf_position _ _ (vi_parity _ _ Hv)), Hnone. done. }
  assert (path_of (update_unmerged i v1) i = path_of v1 i) as Hpath.
  { unfold path_of, vec_direct_copath, total_leaf_count. by rewrite Hz2. }
  exists v1. split; [done|]. split; [done|]. split; [|split; [|split]].
  - intros i'. pose proof (leaf_position _ i' (vi_parity _ _ Hv)) as Hpos.
    assert (leaf_at (update_unmerged i v1) i' = leaf_at v1 i') as ->.
    { unfold leaf_at. rewrite Hn2, Hp1. unfold parent_at. rewrite Hpos. by destruct (leaf_at v i'). }
    destruct (decide (i' = i)) as [->|Hne]; [done|]. unfold leaf_at. by rewrite Ho1 by lia.
  - intros x. rewrite Hpath. unfold parent_at at 1. rewrite Hn2, Hp1. destruct (parent_at v x) as [p|] eqn:E'.
    + destruct (decide _); [done|]. rewrite <- Hp1 in E'. apply nd_parent_at in E'. by rewrite E'.
    + rewrite <- Hp1 in E'. fold (parent_at v1 x). rewrite E'. by destruct (decide _).
  - apply changed_on_trans with v1; [by apply changed_on_leaf|].
    apply changed_on_path; [done..| |done]. intros x Hx. rewrite Hn2.
    destruct (parent_at v1 x); [by rewrite decide_False|done].
  - rewrite Hz2, Hz1. done.
Qed.

(** [add_leaf] either puts the leaf at the first blank position, or fails and
    leaves the members as they are. *)
Lemma add_leaf_spec t leaf start : tree_ok t -> zlen (nodes t) + 2 <= 2 ^ 25 ->
  0 <= default 0 start -> 2 * default 0 start <= zlen (nodes t) + 1 ->
  (forall i', 0 <= i' < default 0 start -> is_Some (leaf_at (nodes t) i')) ->
  match add_leaf leaf extensions start t with
  | (Ok i, t') =>
      tree_ok t' /\ 0 <= i /\ leaf_at (nodes t) i = None /\
      (forall i', 0 <= i' < i -> is_Some (leaf_at (nodes t) i')) /\
      leaf_map (nodes t') = <[i := leaf]> (leaf_map (nodes t)) /\
      (forall x, parent_at (nodes t') x =
         if decide (x ∈ path_of (nodes t') i) then add_unmerged i <$> parent_at (nodes t) x
         else parent_at (nodes t) x) /\
      (forall i' l, leaf_at (nodes t) i' = Some l -> compatible idf leaf l) /\
      changed_on [i] (nodes t) (nodes t') /\ tree_hashes t' = tree_hashes t /\
      2 * i <= zlen (nodes t') /\ zlen (nodes t') <= zlen (nodes t) + 2
  | (Err _, t') =>
      tree_ok t' /\ nodes t' = nodes t /\ tree_hashes t' = tree_hashes t /\
      ~ (forall i' l, leaf_at (nodes t) i' = Some l -> compatible idf leaf l)
  | (Panic, _) => False
  end.
Proof using Hid.
  intros Ht Hroom Hs0 Hs Hlow. pose proof Ht as [Hv Hx]. destruct (vi_shape _ _ Hv) as [Hodd Hlen].
  unfold add_leaf. rewrite sm_get_run. unfold next_empty_leaf.
  assert (0 <= default 0 start < 2 ^ 31) as Hs31.
  { change (2 ^ 25) with 33554432 in Hroom. change (2 ^ 31) with 2147483648. lia. }
  rewrite node_index_eq by done.
  destruct (next_empty_loop_spec (nodes t) (length (nodes t)) (default 0 start)) as (i & Ei & Hge & Hnone & Hlow' & Hcase);
    [done|done|lia|lia|unfold zlen; lia|].
  erewrite sm_lift_run by exact Ei.
  assert (leaf_at (nodes t) i = None) as Hli by (unfold leaf_at; by rewrite Hnone).
  assert (forall i', 0 <= i' < i -> is_Some (leaf_at (nodes t) i')) as Hlows.
  { intros i' Hi'. destruct (Z.lt_ge_cases i' (default 0 start)); [apply Hlow; lia|].
    destruct (Hlow' i' ltac:(lia)) as [n Hn]. rewrite (leaf_position _ _ (vi_parity _ _ Hv)) in Hn.
    destruct (leaf_at (nodes t) i'); [by eexists|done]. }
  pose proof (index_insert_members (index t) (non_empty_leaves (nodes t)) i leaf Hx
    (members_fresh _ _ Hli) (members_small t Ht)) as Hins.
  unfold mbind at 1, sm_bind at 1, zoom_index, sm_zoom.
  destruct (index_insert leaf i extensions (index t)) as [[[]|e|] x']; [| |done].
  - destruct Hins as [Hx' Hc].
    destruct (add_leaf_nodes (nodes t) i leaf Hv Hroom Hli ltac:(lia) Hlows Hcase)
      as (v1 & E1 & Hv2 & Hleaf2 & Hpar2 & Hch2 & Hz2).
    erewrite sm_lift_run by exact E1. rewrite sm_modify_run. cbn [mret sm_ret set_nodes set_index nodes index tree_hashes].
    assert (leaf_at (update_unmerged i v1) i = Some leaf) as Hi2 by (rewrite Hleaf2; by destruct (decide (i = i))).
    pose proof (nd_bound _ _ _ (nd_leaf_at _ _ _ Hi2)) as Hb.
    split; [split|].
    + done.
    + cbn [nodes index]. eapply index_rep_perm; [|exact Hx']. apply members_add; [done|done|].
      intros i' Hne. rewrite Hleaf2. by destruct (decide (i' = i)).
    + split; [lia|]. split; [done|]. split; [done|]. split; [|split; [|split; [|split; [done|split; [done|split]]]]].
      * apply map_eq. intros i'. rewrite lookup_leaf_map, Hleaf2. destruct (decide (i' = i)) as [->|Hne].
        -- by rewrite lookup_insert_eq.
        -- rewrite lookup_insert_ne by done. by rewrite lookup_leaf_map.
      * exact Hpar2.
      * intros i' l Hl. eapply Hc. by apply elem_of_members.
      * lia.
      * destruct Hcase as [?|[[_ ?]|[E ->]]]; [lia..|]. pose proof (zlen_nonneg (nodes t)). lia.
  - destruct Hins as [Hx' Hc]. split; [done|]. split; [done|]. split; [done|]. intros Hall. apply Hc.
    intros i' l Hin%elem_of_members. by eapply Hall.
Qed.
End operations.

(** ** Strict application of proposals

    With [filter = false] every proposal must apply. *)

(** What a member of the group can do to the leaves. *)
Inductive roster_edit :=
| EditRemove (i : Z)
| EditUpdate (i : Z) (l : LeafNode)
| EditAdd (i : Z) (l : LeafNode).

Inductive roster_step : gmap Z LeafNode -> roster_edit -> gmap Z LeafNode -> Prop :=
| step_remove m i l : m !! i = Some l -> roster_step m (EditRemove i) (delete i m)
| step_update m i l l' : m !! i = Some l -> roster_step m (EditUpdate i l') (<[i := l']> m)
| step_add m i l : m !! i = None -> 0 <= i -> (forall i', 0 <= i' < i -> is_Some (m !! i')) ->
    roster_step m (EditAdd i l) (<[i := l]> m).

Inductive roster_run : gmap Z LeafNode -> list roster_edit -> gmap Z LeafNode -> Prop :=
| run_nil m : roster_run m [] m
| run_cons m e m' es m'' : roster_step m e m' -> roster_run m' es m'' -> roster_run m (e :: es) m''.

Lemma roster_run_app m es m' es' m'' :
  roster_run m es m' -> roster_run m' es' m'' -> roster_run m (es ++ es') m''.
Proof. induction 1; [done|]. intros H1. econstructor; [done|]. auto. Qed.

Lemma is_Some_leaf v i l : leaf_at v i = Some l -> is_Some (zget v (2 * i)).
Proof. intros H%nd_leaf_at%nd_zget. by eexists. Qed.

Section strict.
Context {idp : IdentityProvider} (idf : SigningIdentity -> bytes) (extensions : ExtensionList)
  (Hid : forall s, identity s extensions = Ok (idf s)).

Notation tree_ok := (tree_ok idf).

Lemma lift_err_run {S E A B} (e : E) (f : A -> SM S E B) s : (sm_lift (Err e) ≫= f) s = (Err e, s).
Proof. done. Qed.

(** The tree after the leaf [i], which holds [l], and its path are blanked. *)
Definition removed (i : Z) (l : LeafNode) (t : TreeKemPublic) : TreeKemPublic :=
  set_index (tree_index_remove l (idf (signing_identity l)) (index t))
    (set_nodes (blank_direct_path i (zset (nodes t) (2 * i) None)) t).

Lemma apply_remove_run (T : Type) `{Proposable T} i n by_value s : tree_ok (es_tree s) -> 0 <= i < 2 ^ 31 ->
  match leaf_at (nodes (es_tree s)) i with
  | Some l => apply_remove extensions false T i n by_value s =
      (Ok tt, mk_edit_state (removed i l (es_tree s)) (es_bundle s))
  | None => exists e, apply_remove extensions false T i n by_value s = (Err e, s)
  end.
Proof using Hid.
  intros [Hv Hx] Hi. destruct s as [t b]. cbn [es_tree es_bundle] in *.
  pose proof (blank_leaf_node_spec (nodes t) i (vi_parity _ _ Hv) Hi) as Hb.
  unfold apply_remove, zoom_tree, zoom_nodes, modify_nodes, sm_zoom, sm_try, mbind, sm_bind. cbn [es_tree].
  destruct (leaf_at (nodes t) i) as [l|]; [rewrite Hb|destruct Hb as [e ->]].
  - cbn [is_ok sm_lift]. rewrite leaf_identity_eq with (idf := idf) by done. cbn. by rewrite orb_true_r.
  - cbn [is_ok sm_lift mret sm_ret]. rewrite orb_true_r. cbn. exists e. by destruct t.
Qed.

Lemma index_rep_removed t i l : tree_ok t -> leaf_at (nodes t) i = Some l ->
  forall v, (forall i', leaf_at v i' = if decide (i' = i) then None else leaf_at (nodes t) i') ->
  index_rep idf (tree_index_remove l (idf (signing_identity l)) (index t)) (non_empty_leaves v).
Proof.
  intros Ht Hl v Hleaf. pose proof (members_small _ _ Ht) as Hlen. destruct Ht as [Hv Hx].
  assert ((i, l) :: non_empty_leaves v ≡ₚ non_empty_leaves (nodes t)) as Hp.
  { apply members_add; [rewrite Hleaf; by destruct (decide (i = i))|done|].
    intros i' Hne. rewrite Hleaf. by destruct (decide (i' = i)). }
  apply index_rep_remove with i; [|by eapply index_rep_perm].
  assert (zlen (non_empty_leaves (nodes t)) = zlen (non_empty_leaves v) + 1) as E.
  { rewrite <- Hp. unfold zlen. simpl. lia. } lia.
Qed.

Lemma removed_spec t i l : tree_ok t -> leaf_at (nodes t) i = Some l ->
  tree_ok (removed i l t) /\ zlen (nodes (removed i l t)) = zlen (nodes t) /\
  leaf_map (nodes (removed i l t)) = delete i (leaf_map (nodes t)) /\
  changed_on [i] (nodes t) (nodes (removed i l t)).
Proof.
  intros Ht Hl. pose proof Ht as [Hv Hx]. destruct (vec_inv_len _ _ Hv) as [_ H26].
  destruct (leaf_at_bound _ _ _ H26 Hl) as [Hd _]. set (v1 := zset (nodes t) (2 * i) None).
  assert (vec_inv [i] v1) as Hv1.
  { apply vec_inv_set_leaf; [|done|left; by left]. eapply vec_inv_dirty; [done|]. apply list_subseteq_nil. }
  assert (zlen v1 = zlen (nodes t)) as Hz by apply zlen_zset.
  assert (depth v1 = depth (nodes t)) as Hdep by (unfold depth, total_leaf_count; by rewrite Hz).
  destruct (blank_direct_path_spec v1 i) as [Hz' Hn'].
  assert (vec_inv [] (blank_direct_path i v1)) as Hv' by (apply vec_inv_blank_path; [done|by rewrite Hdep]).
  assert (forall i', leaf_at (blank_direct_path i v1) i' = if decide (i' = i) then None else leaf_at (nodes t) i') as Hleaf.
  { intros i'. rewrite blank_direct_path_leaf; [|lia|by rewrite Hdep].
    unfold v1. rewrite leaf_at_zset; [done|]. by apply is_Some_leaf in Hl. }
  split; [split; [done|]|split; [|split]].
  - by apply (index_rep_removed t i l).
  - change (zlen (blank_direct_path i v1) = zlen (nodes t)). by rewrite Hz'.
  - apply map_eq. intros i'. rewrite lookup_leaf_map. cbn [removed set_index set_nodes nodes]. fold v1.
    rewrite Hleaf. destruct (decide (i' = i)) as [->|Hne]; [by rewrite lookup_delete_eq|].
    by rewrite lookup_delete_ne, lookup_leaf_map.
  - cbn [removed set_index set_nodes nodes]. fold v1. apply changed_on_trans with v1.
    + apply changed_on_leaf; [lia|]. intros x Hx'. by apply nd_zset_ne.
    + apply changed_on_path; [lia|by rewrite Hdep| |done]. intros x Hx'. rewrite Hn'. by rewrite decide_False.
Qed.
End strict.

(** ** Encodability *)

Lemma encodable_unmerged u : 4 * zlen u <= varint_max -> encodable (vec_codec leaf_index_codec) u.
Proof.
  intros Hu. unfold encodable, mls_encode_to_vec. cbn [mls_encode vec_codec].
  rewrite (iter_encode_preallocate_eq leaf_index_codec leaf_index_wf), varint_try_from_usize_eq.
  assert (iter_items_len leaf_index_codec u = 4 * zlen u) as ->.
  { clear. induction u as [|x u IH]; [done|]. cbn [iter_items_len foldr]. fold (iter_items_len leaf_index_codec u).
    rewrite IH. cbn [mls_encoded_len leaf_index_codec uint_codec]. unfold zlen. simpl. lia. }
  pose proof (zlen_nonneg u).
  rewrite (proj2 (Z.leb_le _ _)) by done. cbn [mbind res_bind]. rewrite varint_encode_eq by lia. cbn [mbind res_bind].
  assert (forall w, exists b, encode_items leaf_index_codec u w = Ok b) as Hi.
  { clear. induction u as [|x u IH]; intros w; [by eexists|]. cbn [encode_items]. apply IH. }
  destruct (Hi []) as [b ->]. by eexists.
Qed.

Lemma sorted_length (u : list Z) a b : StronglySorted Z.lt u -> a <= b ->
  (forall x, x ∈ u -> a <= x < b) -> zlen u <= b - a.
Proof.
  revert a. induction u as [|x u IH]; intros a Hs Hab Hx; [change (zlen []) with 0; lia|].
  apply StronglySorted_inv in Hs as [Hs Hlt]. specialize (Hx x) as Hx0.
  specialize (Hx0 ltac:(by left)). assert (zlen u <= b - (x + 1)) as Hu.
  { apply IH; [done|lia|]. intros y Hy. rewrite Forall_forall in Hlt. specialize (Hlt y Hy).
    specialize (Hx y ltac:(by right)). lia. }
  unfold zlen in *. cbn [length]. lia.
Qed.

(** The keys and hashes of the parents of [v'] are those of [v], and they keep
    the unmerged leaves. *)
Definition parents_from (v v' : NodeVec) : Prop := forall x p', parent_at v' x = Some p' ->
  exists p, parent_at v x = Some p /\ parent_public_key p' = parent_public_key p /\ parent_hash p' = parent_hash p /\
    unmerged_leaves p ⊆ unmerged_leaves p'.

#[export] Instance parents_from_preorder : PreOrder parents_from.
Proof.
  split; [intros v x p Hp; by exists p|]. intros v v' v'' H1 H2 x p Hp.
  destruct (H2 x p Hp) as (p1 & Hp1 & E1 & E2 & U1). destruct (H1 x p1 Hp1) as (p2 & Hp2 & E3 & E4 & U2).
  exists p2. split_and!; [done|congruence|congruence|by etrans].
Qed.

(** The member [i] is unmerged at every parent above it, as a newcomer is. *)
Definition all_unmerged (v : NodeVec) (i : Z) : Prop := forall (k : nat) p,
  parent_at v (node (Z.of_nat k) (Z.shiftr i (Z.of_nat k))) = Some p -> i ∈ unmerged_leaves p.

Lemma all_unmerged_from v v' i : parents_from v v' -> all_unmerged v i -> all_unmerged v' i.
Proof. intros Hf Hu k p Hp. destruct (Hf _ _ Hp) as (p0 & Hp0 & _ & _ & Hs). by eapply Hs, Hu. Qed.

Lemma parent_encodable v v' x p : vec_inv [] v' -> tree_encodable v -> parents_from v v' ->
  parent_at v' x = Some p -> encodable parent_codec p.
Proof.
  intros Hv [_ He] Hf Hp. destruct (Hf x p Hp) as (p0 & Hp0 & Ek & Eh & _).
  apply He, encodable_parent in Hp0 as (? & ? & _). apply encodable_parent. rewrite Ek, Eh.
  split; [done|]. split; [done|]. apply encodable_unmerged.
  pose proof (nd_bound _ _ _ (nd_parent_at _ _ _ Hp)) as Hb.
  destruct (node_decompose x ltac:(lia)) as (k & j & Hk & Hj & Ex). rewrite <- (Z2Nat.id k) in Ex by done. subst x.
  destruct (vi_unmerged _ _ Hv (Z.to_nat k) j p Hj Hp ltac:(by intros ? ?%elem_of_nil)) as [Hs Hu].
  destruct (vec_inv_len _ _ Hv) as [Hl25 Hl26].
  assert (zlen (unmerged_leaves p) <= 2 ^ 25 - 0) as Hl.
  { apply sorted_length; [done|lia|]. intros l Hl. destruct (Hu l Hl) as (? & _ & [lf Hlf] & _).
    destruct (leaf_at_bound _ _ _ Hl26 Hlf). lia. }
  change varint_max with 1073741823. change (2 ^ 25) with 33554432 in Hl. lia.
Qed.

(** Every leaf of a roster after some edits was there or was edited in. *)
Lemma roster_run_values m es m' i l : roster_run m es m' -> m' !! i = Some l ->
  m !! i = Some l \/ EditUpdate i l ∈ es \/ EditAdd i l ∈ es.
Proof.
  induction 1 as [m|m e m1 es m2 Hs _ IH]; [by left|]. intros Hi.
  destruct (IH Hi) as [E|[E|E]]; [|right; left; by right|right; right; by right].
  inversion Hs; subst; destruct (decide (i = i0)) as [->|Hne].
  - by rewrite lookup_delete_eq in E.
  - rewrite lookup_delete_ne in E by done. by left.
  - rewrite lookup_insert_eq in E. injection E as ->. right. left. by left.
  - rewrite lookup_insert_ne in E by done. by left.
  - rewrite lookup_insert_eq in E. injection E as ->. right. right. by left.
  - rewrite lookup_insert_ne in E by done. by left.
Qed.

Section strict_removals.
Context {idp : IdentityProvider} (idf : SigningIdentity -> bytes) (extensions : ExtensionList)
  (Hid : forall s, identity s extensions = Ok (idf s)).

(** What a successful phase of [batch_edit] does to the tree: [es] are the
    edits of the roster and [ls] the leaves on whose paths nodes change. *)
Record phase (ls : list Z) (es : list roster_edit) (t t' : TreeKemPublic) : Prop := {
  ph_ok : tree_ok idf t';
  ph_hashes : tree_hashes t' = tree_hashes t;
  ph_run : roster_run (leaf_map (nodes t)) es (leaf_map (nodes t'));
  ph_changed : changed_on ls (nodes t) (nodes t');
  ph_parents : parents_from (nodes t) (nodes t');
}.

Lemma phase_refl ls t : tree_ok idf t -> phase ls [] t t.
Proof. intros Ht. split; [done|done|constructor|apply changed_on_refl|done]. Qed.

Lemma phase_trans ls es es' t t' t'' : phase ls es t t' -> phase ls es' t' t'' -> phase ls (es ++ es') t t''.
Proof.
  intros [A1 A2 A3 A4 A5] [B1 B2 B3 B4 B5]. split; [done|congruence|by eapply roster_run_app|by eapply changed_on_trans|].
  by transitivity (nodes t').
Qed.

Lemma phase_mono ls ls' es t t' : ls ⊆ ls' -> phase ls es t t' -> phase ls' es t t'.
Proof. intros Hs []. split; [done..| |done]. by eapply changed_on_mono. Qed.

Lemma parents_from_blank v v' : (forall x n, nd v' x = Some n -> nd v x = Some n) -> parents_from v v'.
Proof. intros H x p Hp%nd_parent_at. exists p. split; [|done]. apply H in Hp. unfold parent_at. by rewrite Hp. Qed.

Lemma removed_phase t i l : tree_ok idf t -> leaf_at (nodes t) i = Some l ->
  phase [i] [EditRemove i] t (removed idf i l t) /\ zlen (nodes (removed idf i l t)) = zlen (nodes t).
Proof.
  intros Ht Hl. destruct (removed_spec idf t i l Ht Hl) as (Hok & Hz & Hm & Hc). split; [|done]. split; [done|done| |done|].
  - econstructor; [|constructor]. rewrite Hm. econstructor. by rewrite lookup_leaf_map.
  - apply parents_from_blank. intros x n. cbn [removed set_index set_nodes nodes].
    rewrite (proj2 (blank_direct_path_spec _ i)). destruct (decide (x ∈ _)); [done|].
    rewrite nd_zset_None. by destruct (decide _).
Qed.

Lemma apply_removes_strict (n : nat) s : tree_ok idf (es_tree s) ->
  (n <= length (removals (es_bundle s)))%nat ->
  Forall (fun p => leaf_index_wf (to_remove (proposal p))) (removals (es_bundle s)) ->
  match apply_removes extensions false n s with
  | (Ok _, s') =>
      es_bundle s' = es_bundle s /\ zlen (nodes (es_tree s')) = zlen (nodes (es_tree s)) /\
      let rs := (fun p => to_remove (proposal p)) <$> take n (removals (es_bundle s)) in
      phase rs (EditRemove <$> reverse rs) (es_tree s) (es_tree s')
  | (Err _, _) => True
  | (Panic, _) => False
  end.
Proof using Hid.
  revert s. induction n as [|n IH]; intros s Ht Hn Hwf.
  { split; [done|]. split; [done|]. by apply phase_refl. }
  cbn [apply_removes]. unfold get_bundle at 1. unfold mbind at 1, sm_bind at 1.
  destruct (lookup_lt_is_Some_2 (removals (es_bundle s)) n ltac:(lia)) as [p Hp].
  erewrite sm_lift_run by (rewrite Hp; reflexivity).
  pose proof (proj1 (Forall_lookup _ _) Hwf n p Hp) as Hi. unfold leaf_index_wf in Hi. change MAX_LEAF_INDEX with 16777215 in Hi.
  pose proof (apply_remove_run idf extensions Hid RemoveProposal (to_remove (proposal p)) (Z.of_nat n) (is_by_value p) s Ht
    ltac:(lia)) as Hr.
  destruct (leaf_at (nodes (es_tree s)) (to_remove (proposal p))) as [l|] eqn:El.
  - erewrite sm_bind_run by exact Hr. destruct (removed_phase _ _ _ Ht El) as [Hph Hz].
    specialize (IH (mk_edit_state (removed idf (to_remove (proposal p)) l (es_tree s)) (es_bundle s))).
    cbn [es_tree es_bundle] in IH. specialize (IH (ph_ok _ _ _ _ Hph) ltac:(lia) Hwf).
    destruct (apply_removes extensions false n _) as [[[]|e|] s']; [|done|done].
    destruct IH as (Hb & Hz' & Hph'). split; [done|]. split; [by rewrite Hz'|].
    rewrite (take_S_r _ _ p), fmap_app, reverse_app by done. rewrite fmap_app. cbn [fmap list_fmap reverse rev_append app].
    eapply (phase_trans _ [EditRemove _]).
    + eapply phase_mono, Hph. set_solver.
    + eapply phase_mono, Hph'. set_solver.
  - destruct Hr as [e Hr]. by erewrite sm_bind_err by exact Hr.
Qed.
End strict_removals.

(** While updates are applied, the leaves of the updates [us] are out of the
    tree; [v0] are the nodes before the updates and [m] the roster in which
    the leaves of [us] are the old ones. *)
Section strict_updates.
Context (idf : SigningIdentity -> bytes) (v0 : NodeVec) (Hv0 : vec_inv [] v0).

Record pending (us : list PartialUpdate) (m : gmap Z LeafNode) (t : TreeKemPublic) : Prop := {
  pe_len : zlen (nodes t) = zlen v0;
  pe_nodes x : nd (nodes t) x = nd v0 x \/
    exists l0, nd v0 x = Some (NodeLeaf l0) /\
      (nd (nodes t) x = None \/ exists l, nd (nodes t) x = Some (NodeLeaf l));
  pe_index : index_rep idf (index t) (non_empty_leaves (nodes t));
  pe_leaves i : leaf_at (nodes t) i = if decide (i ∈ pu_index <$> us) then None else m !! i;
  pe_old u : u ∈ us -> m !! pu_index u = Some (pu_old u) /\ 0 <= pu_index u < 2 ^ 31;
  pe_occupied i : is_Some (m !! i) <-> is_Some (leaf_at v0 i);
  pe_nodup : NoDup (pu_index <$> us);
}.

Lemma pending_parity us m t : pending us m t -> parity_ok (nodes t).
Proof using Hv0.
  intros Hp x n Hn. destruct (pe_nodes _ _ _ Hp x) as [E|(l0 & E0 & [E|[l E]])].
  - rewrite E in Hn. by apply (vi_parity _ _ Hv0).
  - congruence.
  - rewrite E in Hn. injection Hn as <-. by apply (vi_parity _ _ Hv0) in E0.
Qed.

Lemma pending_small us m t : pending us m t -> zlen (non_empty_leaves (nodes t)) + 1 < 2 ^ 32.
Proof using Hv0.
  intros Hp. pose proof (members_bound (nodes t)) as Hb. rewrite (pe_len _ _ _ Hp) in Hb.
  apply vec_inv_len in Hv0 as [Hv _]. change (2 ^ 25) with 33554432 in Hv. change (2 ^ 32) with 4294967296. lia.
Qed.

Definition taken (i : Z) (l : LeafNode) (t : TreeKemPublic) : TreeKemPublic :=
  set_index (tree_index_remove l (idf (signing_identity l)) (index t)) (set_nodes (zset (nodes t) (2 * i) None) t).

(** Taking one leaf out. *)
Lemma pending_take us m t i l new pos : pending us m t -> leaf_at (nodes t) i = Some l -> 0 <= i < 2 ^ 31 ->
  pending (us ++ [mk_partial_update i l new pos]) m (taken i l t).
Proof using Hv0.
  intros Hp Hl Hi. pose proof Hp as [H1 H2 H3 H4 H5 H6 H7]. rewrite H4 in Hl.
  destruct (decide (i ∈ pu_index <$> us)) as [|Hnin]; [done|].
  assert (leaf_at (nodes t) i = Some l) as Hl' by (rewrite H4; by rewrite decide_False).
  assert (forall i', leaf_at (zset (nodes t) (2 * i) None) i' = if decide (i' = i) then None else leaf_at (nodes t) i') as Hleaf.
  { intros i'. rewrite leaf_at_zset; [done|]. by apply is_Some_leaf in Hl'. }
  split; cbn [taken set_index set_nodes nodes index].
  - by rewrite zlen_zset.
  - intros x. rewrite nd_zset_None. destruct (decide (x = 2 * i)) as [->|]; [|apply H2]. right.
    destruct (H2 (2 * i)) as [E|(l0 & E0 & _)]; [|exists l0; auto].
    apply nd_leaf_at in Hl'. exists l. split; [by rewrite <- E|auto].
  - assert ((i, l) :: non_empty_leaves (zset (nodes t) (2 * i) None) ≡ₚ non_empty_leaves (nodes t)) as Hperm.
    { apply members_add; [rewrite Hleaf; by destruct (decide (i = i))|done|].
      intros i' Hne. rewrite Hleaf. by destruct (decide (i' = i)). }
    apply index_rep_remove with i; [|by eapply index_rep_perm].
    pose proof (pending_small _ _ _ Hp) as Hlen. rewrite <- Hperm in Hlen.
    rewrite (zlen_app [(i, l)]) in Hlen || idtac. unfold zlen in *. cbn [length] in Hlen. lia.
  - intros i'. rewrite Hleaf, H4, fmap_app. cbn [fmap list_fmap pu_index].
    destruct (decide (i' = i)), (decide (i' ∈ pu_index <$> us)), (decide (i' ∈ (pu_index <$> us) ++ [i]));
      try done; exfalso; set_solver.
  - intros u [Hu|Hu%list_elem_of_singleton]%elem_of_app; [by apply H5|]. subst u. done.
  - done.
  - rewrite fmap_app. cbn [fmap list_fmap pu_index]. apply NoDup_app. split; [done|]. split; [|apply NoDup_singleton].
    intros x Hx ->%list_elem_of_singleton. done.
Qed.

(** Putting one leaf back in. *)
Lemma pending_put u us m t x' v' l : pending (u :: us) m t ->
  index_rep idf x' ((pu_index u, l) :: non_empty_leaves (nodes t)) ->
  nd v' (2 * pu_index u) = Some (NodeLeaf l) -> (forall x, x <> 2 * pu_index u -> nd v' x = nd (nodes t) x) ->
  zlen v' = zlen (nodes t) ->
  pending us (<[pu_index u := l]> m) (set_nodes v' (set_index x' t)).
Proof using Hv0.
  intros Hp Hx Hl Ho Hz. pose proof Hp as [H1 H2 H3 H4 H5 H6 H7]. set (i := pu_index u) in *.
  rewrite fmap_cons in H7. apply NoDup_cons in H7 as [Hnin H7].
  destruct (H5 u ltac:(by left)) as [Hm Hi]. fold i in Hm, Hi.
  assert (leaf_at v' i = Some l) as Hl' by (unfold leaf_at; by rewrite Hl).
  assert (forall i', i' <> i -> leaf_at v' i' = leaf_at (nodes t) i') as Hleaf.
  { intros i' Hne. unfold leaf_at. by rewrite Ho by lia. }
  assert (leaf_at (nodes t) i = None) as Hnone.
  { rewrite H4, fmap_cons. by rewrite decide_True by (by left). }
  split; cbn [set_index set_nodes nodes index].
  - by rewrite Hz.
  - intros x. destruct (decide (x = 2 * i)) as [->|]; [|by rewrite Ho]. right. rewrite Hl.
    assert (is_Some (leaf_at v0 i)) as [l0 Hl0] by (apply H6; by rewrite Hm).
    exists l0. split; [by apply nd_leaf_at|right; by exists l].
  - eapply index_rep_perm; [|exact Hx]. by apply members_add.
  - intros i'. destruct (decide (i' = i)) as [->|Hne].
    + rewrite Hl', decide_False by done. by rewrite lookup_insert_eq.
    + rewrite Hleaf, H4, fmap_cons by done. rewrite lookup_insert_ne by done.
      destruct (decide (i' ∈ pu_index <$> us)), (decide (i' ∈ pu_index u :: (pu_index <$> us))); try done; exfalso; set_solver.
  - intros u' Hu'. destruct (H5 u' ltac:(by right)) as [Hm' Hi']. split; [|done].
    rewrite lookup_insert_ne; [done|]. intros E. apply Hnin. fold i. rewrite E. by apply list_elem_of_fmap_2.
  - intros i'. rewrite <- H6. destruct (decide (i' = i)) as [->|].
    + rewrite lookup_insert_eq, Hm. split; intros; by eexists.
    + by rewrite lookup_insert_ne.
  - done.
Qed.

Context {idp : IdentityProvider} (extensions : ExtensionList) (Hid : forall s, identity s extensions = Ok (idf s)).

Lemma try_blank s i : parity_ok (nodes (es_tree s)) -> 0 <= i < 2 ^ 31 ->
  match leaf_at (nodes (es_tree s)) i with
  | Some l => sm_try (zoom_tree (zoom_nodes (blank_leaf_node i))) s =
      (Ok (Ok l), mk_edit_state (set_nodes (zset (nodes (es_tree s)) (2 * i) None) (es_tree s)) (es_bundle s))
  | None => exists e, sm_try (zoom_tree (zoom_nodes (blank_leaf_node i))) s = (Ok (Err e), s)
  end.
Proof.
  intros Hv Hi. destruct s as [[x v hs] b]. pose proof (blank_leaf_node_spec v i Hv Hi) as Hb. cbn [es_tree nodes] in *.
  unfold sm_try, zoom_tree, zoom_nodes, sm_zoom. cbn [es_tree nodes].
  destruct (leaf_at v i) as [l|]; [by rewrite Hb|]. destruct Hb as [e Hb]. exists e. by rewrite Hb.
Qed.

Lemma take_updates_strict ps : forall i us m s,
  pending us m (es_tree s) -> Forall (fun '(_, sender) => leaf_index_wf sender) ps ->
  match take_updates extensions false i ps s with
  | (Ok us', s') =>
      es_bundle s' = es_bundle s /\ tree_hashes (es_tree s') = tree_hashes (es_tree s) /\
      pending (us ++ us') m (es_tree s') /\
      (fun u => EditUpdate (pu_index u) (pu_new u)) <$> us' =
        (fun '(p, sender) => EditUpdate sender (up_leaf_node (proposal p))) <$> ps
  | (Err _, _) => True
  | (Panic, _) => False
  end.
Proof using Hid Hv0.
  induction ps as [|[p sender] ps IH]; intros i us m s Hp Hwf.
  { cbn. rewrite app_nil_r. done. }
  apply Forall_cons in Hwf as [Hw Hwf]. unfold leaf_index_wf in Hw. change MAX_LEAF_INDEX with 16777215 in Hw.
  pose proof (try_blank s sender (pending_parity _ _ _ Hp) ltac:(lia)) as Hb. cbn [take_updates].
  destruct (leaf_at (nodes (es_tree s)) sender) as [l|] eqn:El.
  2: { destruct Hb as [e Hb]. by erewrite sm_bind_run by exact Hb. }
  erewrite sm_bind_run by exact Hb. cbv iota.
  erewrite sm_lift_run by exact (leaf_identity_eq idf extensions Hid l).
  erewrite sm_bind_run by reflexivity.
  specialize (IH (i + 1) _ _ (mk_edit_state (taken sender l (es_tree s)) (es_bundle s))
    (pending_take _ _ _ sender l (up_leaf_node (proposal p)) i Hp El ltac:(lia)) Hwf).
  unfold mbind at 1, sm_bind at 1.
  change (take_updates extensions false (i + 1) ps _) with
    (take_updates extensions false (i + 1) ps (mk_edit_state (taken sender l (es_tree s)) (es_bundle s))).
  destruct (take_updates extensions false (i + 1) ps _) as [[us'|e|] s'] eqn:E; [|done|done].
  destruct IH as (B1 & B2 & B3 & B4). split; [done|]. split; [done|].
  split; [by rewrite <- app_assoc in B3|]. rewrite !fmap_cons. by f_equal.
Qed.

(** Inserting the leaf of an update in a tree whose vector has the length of
    [v0]. *)
Lemma edit_insert_run us m t b u l x' : pending (u :: us) m t ->
  exists v', edit_insert_leaf (pu_index u) l (mk_edit_state (set_index x' t) b) =
      (Ok tt, mk_edit_state (set_nodes v' (set_index x' t)) b) /\
    nd v' (2 * pu_index u) = Some (NodeLeaf l) /\ (forall x, x <> 2 * pu_index u -> nd v' x = nd (nodes t) x) /\
    zlen v' = zlen (nodes t).
Proof using Hv0.
  intros Hp. destruct (pe_old _ _ _ Hp u ltac:(by left)) as [Hm Hi].
  assert (is_Some (leaf_at v0 (pu_index u))) as [l0 Hl0] by (apply (pe_occupied _ _ _ Hp); by rewrite Hm).
  apply nd_leaf_at, nd_bound in Hl0. pose proof (pe_len _ _ _ Hp) as Hz. destruct (vi_shape _ _ Hv0) as [Hodd Hlen].
  destruct (insert_leaf_spec (nodes t) (pu_index u) l) as (v' & E & Hl & Ho & Hz' & _).
  - split; [right|by rewrite Hz]. rewrite Hz. destruct Hodd as [E|]; [|done].
    rewrite E in Hl0. change (zlen []) with 0 in Hl0. lia.
  - lia.
  - left. lia.
  - exists v'. unfold edit_insert_leaf. unfold get_tree, mbind, sm_bind, sm_lift. cbn [es_tree set_index nodes]. rewrite E.
    split; [done|]. split; [done|]. split; [done|]. lia.
Qed.

Lemma try_zoom_index {A} (m : SM TreeIndex MlsError A) t b :
  sm_try (zoom_tree (zoom_index m)) (mk_edit_state t b) =
    match m (index t) with
    | (Panic, x) => (Panic, mk_edit_state (set_index x t) b)
    | (r, x) => (Ok r, mk_edit_state (set_index x t) b)
    end.
Proof. unfold sm_try, zoom_tree, zoom_index, sm_zoom. cbn [es_tree]. by destruct (m (index t)) as [[]]. Qed.

Lemma apply_updates_strict us : forall x0 acc m s, pending us m (es_tree s) ->
  match apply_updates extensions false x0 us acc s with
  | (Ok acc', s') =>
      es_bundle s' = es_bundle s /\ tree_hashes (es_tree s') = tree_hashes (es_tree s) /\
      updated_indices acc' = updated_indices acc ++ (pu_index <$> us) /\ bad_indices acc' = bad_indices acc /\
      exists m', pending [] m' (es_tree s') /\
        roster_run m ((fun u => EditUpdate (pu_index u) (pu_new u)) <$> us) m'
  | (Err _, _) => True
  | (Panic, _) => False
  end.
Proof using Hid Hv0.
  induction us as [|u us IH]; intros x0 acc m s Hp.
  { cbn. rewrite app_nil_r. split; [done|]. split; [done|]. split; [done|]. split; [done|]. exists m. split; [done|constructor]. }
  destruct s as [t b]. cbn [es_tree] in Hp. cbn [apply_updates].
  assert (leaf_at (nodes t) (pu_index u) = None) as Hnone.
  { rewrite (pe_leaves _ _ _ Hp), fmap_cons. by rewrite decide_True by (by left). }
  pose proof (index_insert_members idf extensions Hid (index t) (non_empty_leaves (nodes t)) (pu_index u) (pu_new u)
    (pe_index _ _ _ Hp) (members_fresh _ _ Hnone) (pending_small _ _ _ Hp)) as Hins.
  pose proof (try_zoom_index (index_insert (pu_new u) (pu_index u) extensions) t b) as Ht.
  destruct (index_insert (pu_new u) (pu_index u) extensions (index t)) as [[[]|e|] x']; [| |by destruct Hins].
  2: { erewrite sm_bind_run by exact Ht. done. }
  erewrite sm_bind_run by exact Ht. erewrite sm_bind_run by reflexivity. cbn [is_ok].
  destruct (edit_insert_run us m t b u (pu_new u) x' Hp) as (v' & E & Hl & Ho & Hz).
  erewrite sm_bind_run by exact E.
  specialize (IH x0 (mk_update_loop (removed_leaves acc ++ [pu_old u]) (updated_indices acc ++ [pu_index u]) (bad_indices acc))
    _ (mk_edit_state (set_nodes v' (set_index x' t)) b) (pending_put u us m t x' v' (pu_new u) Hp (proj1 Hins) Hl Ho Hz)).
  destruct (apply_updates extensions false x0 us _ _) as [[acc'|e|] s']; [|done|done].
  destruct IH as (B1 & B2 & B3 & B4 & m' & Hm' & Hrun). split; [done|]. split; [done|].
  split; [rewrite B3; cbn [updated_indices]; by rewrite <- app_assoc|]. split; [done|]. exists m'. split; [done|].
  rewrite fmap_cons. econstructor; [|exact Hrun]. econstructor. apply (pe_old _ _ _ Hp u). by left.
Qed.
End strict_updates.

(** ** The end of the updates and the additions *)

Lemma blank_paths ls : forall v, vec_inv [] v -> Forall (fun i => is_Some (leaf_at v i)) ls ->
  let v' := foldl (fun v i => blank_direct_path i v) v ls in
  vec_inv [] v' /\ (forall i, leaf_at v' i = leaf_at v i) /\ zlen v' = zlen v /\ changed_on ls v v' /\
  (forall x n, nd v' x = Some n -> nd v x = Some n).
Proof.
  induction ls as [|i ls IH]; intros v Hv Hls v'.
  { split; [done|]. split; [done|]. split; [done|]. split; [apply changed_on_refl|done]. }
  apply Forall_cons in Hls as [[l Hl] Hls]. pose proof (vec_inv_len _ _ Hv) as [_ H26].
  destruct (leaf_at_bound _ _ _ H26 Hl) as [Hi _].
  destruct (blank_direct_path_spec v i) as [Hz Hn].
  assert (forall i', leaf_at (blank_direct_path i v) i' = leaf_at v i') as Hleaf
    by (intros; by apply blank_direct_path_leaf).
  destruct (IH (blank_direct_path i v)) as (H1 & H2 & H3 & H4 & H5).
  - apply vec_inv_blank_path; [|done]. eapply vec_inv_dirty; [done|]. apply list_subseteq_nil.
  - eapply Forall_impl; [exact Hls|]. intros i' [l' Hl']. rewrite Hleaf. by exists l'.
  - subst v'. cbn [foldl]. split; [done|]. split; [intros; by rewrite H2|]. split; [by rewrite H3|]. split.
    + apply changed_on_trans with (blank_direct_path i v).
      * apply changed_on_mono with [i]; [set_solver|]. apply changed_on_path; [done|done| |done].
        intros x Hx. by rewrite Hn, decide_False.
      * eapply changed_on_mono; [|exact H4]. set_solver.
    + intros x n Hx%H5. rewrite Hn in Hx. by destruct (decide _).
Qed.

Section strict_additions.
Context {idp : IdentityProvider} (idf : SigningIdentity -> bytes) (extensions : ExtensionList)
  (Hid : forall s, identity s extensions = Ok (idf s)).

Lemma start_updates t : tree_ok idf t -> pending idf (nodes t) [] (leaf_map (nodes t)) t.
Proof.
  intros [Hv Hx]. split; [done|by left|done| | | |constructor].
  - intros i. by rewrite lookup_leaf_map.
  - by intros u ?%elem_of_nil.
  - intros i. by rewrite lookup_leaf_map.
Qed.

(** Once every update is in, the tree is well formed again, and the paths of
    the updated leaves are blanked. *)
Lemma finish_updates t m t' es ls : tree_ok idf t -> pending idf (nodes t) [] m t' ->
  tree_hashes t' = tree_hashes t -> roster_run (leaf_map (nodes t)) es m ->
  (forall i l, EditUpdate i l ∈ es -> i ∈ ls) -> (forall e, e ∈ es -> exists i l, e = EditUpdate i l) ->
  Forall (fun i => is_Some (leaf_at (nodes t') i)) ls ->
  let t'' := set_nodes (foldl (fun v i => blank_direct_path i v) (nodes t') ls) t' in
  phase idf ls es t t'' /\ zlen (nodes t'') = zlen (nodes t).
Proof.
  intros Ht Hp Hh Hrun Hes Hupd Hls t''. pose proof Ht as [Hv Hx]. destruct Hp as [H1 H2 H3 H4 H5 H6 H7].
  assert (forall i, leaf_at (nodes t') i = m !! i) as Hm.
  { intros i. rewrite H4. by rewrite decide_False by apply not_elem_of_nil. }
  assert (vec_inv [] (nodes t')) as Hv'.
  { apply (vec_inv_change [] [] (nodes t)); [done|done|by intros i ?%elem_of_nil| |].
    - intros x n Hn. destruct (H2 x) as [E|(l0 & E0 & [E|[l E]])]; [left; by rewrite <- E|congruence|].
      right. apply (vi_parity _ _ Hv) in E0. split; [|done]. exists l. congruence.
    - intros i _. rewrite Hm. specialize (H6 i). destruct (m !! i), (leaf_at (nodes t) i); try done.
      + destruct H6 as [H6 _]. by destruct (H6 (mk_is_Some _ _ eq_refl)).
      + destruct H6 as [_ H6]. by destruct (H6 (mk_is_Some _ _ eq_refl)). }
  destruct (blank_paths ls (nodes t') Hv' Hls) as (B1 & B2 & B3 & B4 & B5).
  assert (forall i, leaf_at (nodes t'') i = m !! i) as Hleaf by (intros i; by rewrite <- Hm, <- B2).
  split; [split|cbn [t'' set_nodes nodes]; by rewrite B3].
  - split; [done|]. eapply index_rep_perm; [|exact H3]. apply members_same. intros i. by rewrite Hleaf, Hm.
  - done.
  - assert (leaf_map (nodes t'') = m) as ->; [|done]. apply map_eq. intros i. by rewrite lookup_leaf_map.
  - apply changed_on_trans with (nodes t'); [|done]. intros k j Hj Hne.
    destruct (H2 (node (Z.of_nat k) j)) as [E|(l0 & E0 & _)]; [done|].
    pose proof (vi_parity _ _ Hv _ _ E0) as Ho. cbn beta iota in Ho.
    assert (k = 0%nat) as ->. { destruct k; [done|]. exfalso. replace (Z.of_nat (S k)) with (Z.of_nat k + 1) in Ho by lia.
      rewrite node_succ, Z.odd_add, odd_double in Ho by lia. done. }
    change (Z.of_nat 0) with 0 in *. rewrite node_0 in *. exists j. rewrite Z.shiftr_0_r. split; [|done].
    assert (leaf_map (nodes t) !! j = Some l0) as Hl0 by (rewrite lookup_leaf_map; unfold leaf_at; by rewrite E0).
    destruct (m !! j) as [l|] eqn:Em.
    2: { destruct (H6 j) as [_ H6']. unfold leaf_at in H6'. rewrite E0 in H6'. destruct (H6' ltac:(by eexists)). congruence. }
    destruct (roster_run_values _ _ _ j l Hrun Em) as [E|[E|E]].
    + destruct Hne. rewrite E0. rewrite Hl0 in E. injection E as ->. apply nd_leaf_at. by rewrite Hm.
    + by eapply Hes.
    + destruct (Hupd _ E) as (? & ? & ?). done.
  - intros x p Hpp%nd_parent_at. apply B5 in Hpp. exists p. split; [|done].
    destruct (H2 x) as [E|(l0 & E0 & [E|[l E]])]; [|congruence..]. unfold parent_at. by rewrite <- E, Hpp.
Qed.

Lemma phase_add t i leaf t' : tree_ok idf t -> tree_ok idf t' -> 0 <= i -> leaf_at (nodes t) i = None ->
  (forall i', 0 <= i' < i -> is_Some (leaf_at (nodes t) i')) ->
  leaf_map (nodes t') = <[i := leaf]> (leaf_map (nodes t)) ->
  (forall x, parent_at (nodes t') x =
     if decide (x ∈ path_of (nodes t') i) then add_unmerged i <$> parent_at (nodes t) x else parent_at (nodes t) x) ->
  changed_on [i] (nodes t) (nodes t') -> tree_hashes t' = tree_hashes t ->
  phase idf [i] [EditAdd i leaf] t t'.
Proof.
  intros Ht Ht' Hi Hn Hlow Hm Hp Hc Hh. split; [done|done| |done|].
  - econstructor; [|constructor]. rewrite Hm. constructor; [by rewrite lookup_leaf_map|done|].
    intros i' Hi'. rewrite lookup_leaf_map. by apply Hlow.
  - intros x p. rewrite Hp. destruct (decide _); [|by exists p].
    intros (p0 & -> & ->)%fmap_Some. exists p0. split_and!; [done..|]. by apply list_subseteq_app_l.
Qed.

Lemma added_unmerged t i t' : tree_ok idf t' -> 0 <= i -> is_Some (leaf_at (nodes t') i) ->
  (forall x, parent_at (nodes t') x =
     if decide (x ∈ path_of (nodes t') i) then add_unmerged i <$> parent_at (nodes t) x else parent_at (nodes t) x) ->
  all_unmerged (nodes t') i.
Proof using Type.
  intros [Hv _] Hi [l Hl] Hp k p Hk. destruct (vec_inv_len _ _ Hv) as [_ H26].
  destruct (leaf_at_bound _ _ _ H26 Hl) as [Hd _]. pose proof (nd_parent_at _ _ _ Hk) as Hn.
  assert (0 < k)%nat as Hk0.
  { destruct k as [|k]; [|lia]. pose proof (vi_parity _ _ Hv _ _ Hn) as Ho. cbn beta iota in Ho.
    by rewrite node_0, odd_double in Ho. }
  rewrite Hp, decide_True in Hk.
  - apply fmap_Some in Hk as (p0 & _ & ->). cbn [add_unmerged unmerged_leaves]. apply elem_of_app. right. by left.
  - apply elem_of_path_of; [done|done|apply Z.shiftr_nonneg; lia|by eapply nd_bound|done].
Qed.

Lemma apply_adds_strict ps : forall i start s, tree_ok idf (es_tree s) ->
  0 <= start -> 2 * start <= zlen (nodes (es_tree s)) + 1 ->
  (forall i', 0 <= i' < start -> is_Some (leaf_at (nodes (es_tree s)) i')) ->
  zlen (nodes (es_tree s)) + 2 * zlen ps <= 2 ^ 25 ->
  match apply_adds extensions false i ps start s with
  | (Ok (added, bad), s') =>
      es_bundle s' = es_bundle s /\ bad = [] /\ length added = length ps /\
      Forall (fun i => 0 <= i) added /\ Forall (all_unmerged (nodes (es_tree s'))) added /\
      phase idf added (zip_with EditAdd added ((fun p => kp_leaf_node (key_package (proposal p))) <$> ps))
        (es_tree s) (es_tree s')
  | (Err _, _) => True
  | (Panic, _) => False
  end.
Proof using Hid.
  induction ps as [|p ps IH]; intros i start s Ht Hs0 Hs Hlow Hroom.
  { split; [done|]. split; [done|]. split; [done|]. split; [by constructor|]. split; [by constructor|]. by apply phase_refl. }
  destruct s as [t b]. cbn [es_tree] in *. cbn [apply_adds].
  assert (zlen (p :: ps) = zlen ps + 1) as Hlen by (unfold zlen; simpl; lia). pose proof (zlen_nonneg ps).
  pose proof (add_leaf_spec idf extensions Hid t (kp_leaf_node (key_package (proposal p))) (Some start) Ht
    ltac:(lia) Hs0 Hs Hlow) as Hadd.
  unfold sm_try at 1, zoom_tree at 1, sm_zoom. unfold mbind at 1, sm_bind at 1. cbn [es_tree es_bundle].
  destruct (add_leaf _ extensions (Some start) t) as [[idx|e|] t']; [| |done].
  - destruct Hadd as (Hok & Hi & Hnone & Hlows & Hm & Hp & _ & Hc & Hh & Hb1 & Hb2).
    pose proof (phase_add t idx _ t' Ht Hok Hi Hnone Hlows Hm Hp Hc Hh) as Hph.
    specialize (IH (i + 1) idx (mk_edit_state t' b) Hok Hi ltac:(cbn; lia)).
    unfold mbind at 1, sm_bind at 1.
    destruct (apply_adds extensions false (i + 1) ps idx (mk_edit_state t' b)) as [[[added bad]|e|] s'].
    + destruct IH as (B1 & B2 & B3 & B5 & B6 & B4).
      * intros i' Hi'. cbn [es_tree]. rewrite <- lookup_leaf_map, Hm. rewrite lookup_insert_ne by lia.
        rewrite lookup_leaf_map. by apply Hlows.
      * cbn [es_tree]. lia.
      * cbn [mret sm_ret]. split; [done|]. split; [done|]. split; [simpl; by rewrite B3|].
        split; [by constructor|]. split.
        { constructor; [|done]. apply (all_unmerged_from _ _ _ (ph_parents _ _ _ _ _ B4)). cbn [es_tree].
          apply (added_unmerged t idx t' Hok Hi); [|exact Hp]. rewrite <- lookup_leaf_map, Hm, lookup_insert_eq. by eexists. }
        rewrite fmap_cons. cbn [zip_with]. apply (phase_trans idf _ [EditAdd _ _] _ _ t').
        -- eapply phase_mono, Hph. set_solver.
        -- eapply phase_mono, B4. set_solver.
    + done.
    + apply IH; cbn [es_tree]; [|lia]. intros i' Hi'. rewrite <- lookup_leaf_map, Hm. rewrite lookup_insert_ne by lia.
      rewrite lookup_leaf_map. by apply Hlows.
  - by rewrite orb_true_r.
Qed.
End strict_additions.

Section strict_edit.
Context {idp : IdentityProvider} `{CipherSuiteProvider, !HashLaws} (idf : SigningIdentity -> bytes)
  (extensions : ExtensionList) (Hid : forall s, identity s extensions = Ok (idf s)).

Lemma phase_trim t : tree_ok idf t -> phase idf [] [] t (set_nodes (trim (nodes t)) t).
Proof.
  intros [Hv Hx]. assert (forall i, leaf_at (trim (nodes t)) i = leaf_at (nodes t) i) as Hleaf
    by (intros i; unfold leaf_at; by rewrite nd_trim).
  split; [split|done| | |]; cbn [set_nodes nodes index].
  - by apply vec_inv_trim.
  - eapply index_rep_perm; [|exact Hx]. by apply members_same.
  - assert (leaf_map (trim (nodes t)) = leaf_map (nodes t)) as ->; [|constructor].
    apply map_eq. intros i. by rewrite !lookup_leaf_map.
  - intros k j Hj []. by rewrite nd_trim.
  - apply parents_from_blank. intros x n. by rewrite nd_trim.
Qed.

(** The leaves that a phase leaves in the tree can be encoded. *)
Lemma phase_encodable ls es t t' : phase idf ls es t t' -> tree_encodable (nodes t) ->
  (forall i l, EditUpdate i l ∈ es \/ EditAdd i l ∈ es -> encodable leaf_node_codec l) -> tree_encodable (nodes t').
Proof.
  intros Hph Henc Hes. split.
  - intros i l Hl. rewrite <- lookup_leaf_map in Hl.
    destruct (roster_run_values _ _ _ _ _ (ph_run _ _ _ _ _ Hph) Hl) as [E|E]; [|by eapply Hes].
    rewrite lookup_leaf_map in E. by eapply Henc.
  - intros x p Hp. eapply parent_encodable; [apply (to_vec idf), (ph_ok _ _ _ _ _ Hph)|done|apply (ph_parents _ _ _ _ _ Hph)|done].
Qed.

(** The last step of [batch_edit]. *)
Lemma rehash ls es t t' : phase idf ls es t t' -> hashes_current (nodes t) (tree_hashes t) ->
  Forall (fun l => 0 <= l) ls -> tree_encodable (nodes t') ->
  exists hs, update_hashes ls t' = (Ok tt, set_tree_hashes hs t') /\ hashes_current (nodes t') hs.
Proof using Type*.
  intros Hph Hcur Hls Henc. destruct (vec_inv_len _ _ (to_vec _ _ (ph_ok _ _ _ _ _ Hph))) as [_ H26].
  destruct (node_hash_total (nodes t') (depth (nodes t')) 0 Henc) as (h & Hh & _).
  destruct (update_hashes_spec (nodes t) t' ls h) as (hs & Hu & _ & Hc & _); [done|done| |apply (ph_changed _ _ _ _ _ Hph)|done|].
  - by rewrite (ph_hashes _ _ _ _ _ Hph).
  - by exists hs.
Qed.

(** The edits that the proposals of a bundle ask for, the additions at the
    positions [added]. *)
Definition bundle_edits (b : ProposalBundle) (added : list Z) : list roster_edit :=
  (EditRemove <$> reverse ((fun p => to_remove (proposal p)) <$> removals b)) ++
  ((fun '(p, sender) => EditUpdate sender (up_leaf_node (proposal p))) <$> zip (updates b) (update_senders b)) ++
  zip_with EditAdd added ((fun p => kp_leaf_node (key_package (proposal p))) <$> additions b).

Definition bundle_leaves_ok (b : ProposalBundle) : Prop :=
  Forall (fun p => leaf_index_wf (to_remove (proposal p))) (removals b) /\
  Forall leaf_index_wf (update_senders b) /\ length (update_senders b) = length (updates b) /\
  Forall (fun p => encodable leaf_node_codec (up_leaf_node (proposal p))) (updates b) /\
  Forall (fun p => encodable leaf_node_codec (kp_leaf_node (key_package (proposal p)))) (additions b).

Lemma bundle_edits_encodable b added : bundle_leaves_ok b ->
  forall i l, EditUpdate i l ∈ bundle_edits b added \/ EditAdd i l ∈ bundle_edits b added -> encodable leaf_node_codec l.
Proof.
  intros (_ & _ & _ & Hu & Ha) i l. rewrite Forall_forall in Hu; rewrite Forall_forall in Ha. unfold bundle_edits. rewrite !elem_of_app.
  intros [[Hin|[Hin|Hin]]|[Hin|[Hin|Hin]]].
  - by apply list_elem_of_fmap in Hin as (? & ? & _).
  - apply list_elem_of_fmap in Hin as ([p x] & E & Hin). injection E as -> ->. apply Hu.
    by apply elem_of_zip_l in Hin.
  - by apply elem_of_lookup_zip_with in Hin as (? & ? & ? & ? & _).
  - by apply list_elem_of_fmap in Hin as (? & ? & _).
  - by apply list_elem_of_fmap in Hin as ([] & ? & _).
  - apply elem_of_lookup_zip_with in Hin as (n & x & y & E & _ & Hy). injection E as -> ->.
    apply list_elem_of_lookup_2, list_elem_of_fmap in Hy as (p & -> & Hp). by apply Ha.
Qed.

Lemma batch_updates_strict s : tree_ok idf (es_tree s) -> Forall leaf_index_wf (update_senders (es_bundle s)) ->
  length (update_senders (es_bundle s)) = length (updates (es_bundle s)) ->
  match batch_updates extensions false s with
  | (Ok updated, s') =>
      es_bundle s' = es_bundle s /\ zlen (nodes (es_tree s')) = zlen (nodes (es_tree s)) /\
      Forall (fun i => 0 <= i) updated /\
      phase idf updated ((fun '(p, sender) => EditUpdate sender (up_leaf_node (proposal p))) <$>
        zip (updates (es_bundle s)) (update_senders (es_bundle s))) (es_tree s) (es_tree s')
  | (Err _, _) => True
  | (Panic, _) => False
  end.
Proof using Hid.
  intros Ht Hupd Hlen. pose proof (to_vec _ _ Ht) as Hv. unfold batch_updates.
  rewrite (sm_bind_run get_bundle _ s (es_bundle s) s) by done.
  pose proof (take_updates_strict idf (nodes (es_tree s)) Hv extensions Hid
    (zip (updates (es_bundle s)) (update_senders (es_bundle s))) 0 [] _ s (start_updates idf (es_tree s) Ht)) as H2.
  assert (Forall (fun '(_, x) => leaf_index_wf x) (zip (updates (es_bundle s)) (update_senders (es_bundle s)))) as Hz.
  { apply Forall_forall. intros [p x] Hin. apply elem_of_zip_r in Hin. rewrite Forall_forall in Hupd. by apply Hupd. }
  unfold mbind at 1, sm_bind at 1.
  destruct (take_updates extensions false 0 _ s) as [[us|e|] s2]; [|done|by apply H2].
  destruct (H2 Hz) as (Hb2 & Hh2 & Hp2 & Eus). cbn [app] in Hp2.
  rewrite (sm_bind_run get_tree _ s2 (es_tree s2) s2) by done.
  pose proof (apply_updates_strict idf (nodes (es_tree s)) Hv extensions Hid us (index (es_tree s2))
    (mk_update_loop [] [] []) _ s2 Hp2) as H3.
  unfold mbind at 1, sm_bind at 1.
  destruct (apply_updates extensions false _ us _ s2) as [[acc|e|] s3]; [|done|done].
  destruct H3 as (Hb3 & Hh3 & Ei & Ebad & m & Hp3 & Hrun). cbn [updated_indices bad_indices app] in Ei, Ebad.
  destruct (finish_updates idf (es_tree s) m (es_tree s3) _ (pu_index <$> us) Ht Hp3
    ltac:(by rewrite Hh3) Hrun) as [P3 Hz3].
  { intros i l Hin. apply list_elem_of_fmap in Hin as (u & E & Hin). injection E as -> _. by apply list_elem_of_fmap_2. }
  { intros e Hin. apply list_elem_of_fmap in Hin as (u & -> & _). by eexists _, _. }
  { apply Forall_fmap, Forall_forall. intros u Hu. cbn. rewrite (pe_leaves _ _ _ _ _ Hp3).
    rewrite decide_False by apply not_elem_of_nil. apply (pe_occupied _ _ _ _ _ Hp3), (pe_occupied _ _ _ _ _ Hp2).
    rewrite (proj1 (pe_old _ _ _ _ _ Hp2 u Hu)). by eexists. }
  rewrite Ei, Ebad. rewrite Eus in P3.
  set (t3 := set_nodes (foldl (fun v i => blank_direct_path i v) (nodes (es_tree s3)) (pu_index <$> us)) (es_tree s3)) in *.
  rewrite (sm_bind_run _ _ s3 tt (mk_edit_state t3 (es_bundle s3))) by done.
  rewrite (sm_bind_run _ _ _ tt (mk_edit_state t3 (es_bundle s3))).
  - cbn. rewrite Hb3, Hb2. split; [done|]. split; [done|]. split; [|done].
    apply Forall_fmap, Forall_forall. intros u Hu. apply (pe_old _ _ _ _ _ Hp2 u Hu).
  - destruct us as [|u us]; [|done]. assert (updates (es_bundle s) = []) as E.
    { destruct (updates (es_bundle s)), (update_senders (es_bundle s)); done. }
    rewrite Hb3, Hb2. unfold modify_bundle, sm_modify. cbn [fmap list_fmap es_tree es_bundle].
    destruct (es_bundle s). cbn in E. by subst.
Qed.

Lemma batch_adds_strict s : tree_ok idf (es_tree s) ->
  zlen (nodes (es_tree s)) + 2 * zlen (additions (es_bundle s)) <= 2 ^ 25 ->
  match apply_adds extensions false 0 (additions (es_bundle s)) 0 s with
  | (Ok (added, _), s1) =>
      length added = length (additions (es_bundle s)) /\ Forall (fun i => 0 <= i) added /\
      let t := set_nodes (trim (nodes (es_tree s1))) (es_tree s1) in
      Forall (all_unmerged (nodes t)) added /\
      phase idf added (zip_with EditAdd added ((fun p => kp_leaf_node (key_package (proposal p))) <$> additions (es_bundle s)))
        (es_tree s) t /\
      forall updated, batch_adds extensions false updated s =
        (x ← zoom_tree (update_hashes
          (((fun p => to_remove (proposal p)) <$> removals (es_bundle s)) ++ updated ++ added)); mret added)
          (mk_edit_state t (es_bundle s))
  | (Err _, s1) => forall updated, exists e, batch_adds extensions false updated s = (Err e, s1)
  | (Panic, _) => False
  end.
Proof using Type*.
  intros Ht Hroom. pose proof (apply_adds_strict idf extensions Hid (additions (es_bundle s)) 0 0 s Ht ltac:(done)
    ltac:(pose proof (zlen_nonneg (nodes (es_tree s))); lia) ltac:(lia) Hroom) as H1.
  unfold batch_adds. destruct (apply_adds extensions false 0 _ 0 s) as [[[added bad]|e|] s1] eqn:E; [| |done].
  - destruct H1 as (Hb & -> & Hlen & Hpos & Hnew & P). split; [done|]. split; [done|]. split; [|split].
    + eapply Forall_impl; [exact Hnew|]. intros j. apply all_unmerged_from, parents_from_blank.
      intros x n. cbn [set_nodes nodes]. by rewrite nd_trim.
    + rewrite <- (app_nil_r (zip_with _ _ _)). eapply phase_trans; [exact P|].
      eapply phase_mono, phase_trim; [set_solver|apply (ph_ok _ _ _ _ _ P)].
    + intros updated. rewrite (sm_bind_run get_bundle _ s (es_bundle s) s) by done.
      rewrite (sm_bind_run _ _ s ([] ++ added, []) s1) by exact E. cbn [app].
      rewrite (sm_bind_run _ _ s1 tt s1) by (by destruct s1).
      rewrite (sm_bind_run _ _ s1 tt (mk_edit_state (set_nodes (trim (nodes (es_tree s1))) (es_tree s1)) (es_bundle s)))
        by (by rewrite <- Hb).
      by rewrite (sm_bind_run get_bundle _ _ (es_bundle s) (mk_edit_state (set_nodes (trim (nodes (es_tree s1))) (es_tree s1)) (es_bundle s))).
  - intros updated. exists e. rewrite (sm_bind_run get_bundle _ s (es_bundle s) s) by done.
    by apply sm_bind_err.
Qed.
End strict_edit.

(** The state [s'] after the proposals of [s] were applied, with the new members
    at [added]. *)
Definition edited `{CipherSuiteProvider} (idf : SigningIdentity -> bytes) (s : EditState) (added : list Z) (s' : EditState) : Prop :=
  length added = length (additions (es_bundle s)) /\
  roster_run (leaf_map (nodes (es_tree s))) (bundle_edits (es_bundle s) added) (leaf_map (nodes (es_tree s'))) /\
  tree_ok idf (es_tree s') /\ hashes_current (nodes (es_tree s')) (tree_hashes (es_tree s')) /\
  tree_encodable (nodes (es_tree s')) /\ es_bundle s' = es_bundle s /\
  parents_from (nodes (es_tree s)) (nodes (es_tree s')) /\ Forall (all_unmerged (nodes (es_tree s'))) added.

Lemma batch_edit_spec {idp : IdentityProvider} `{CipherSuiteProvider, !HashLaws}
    (idf : SigningIdentity -> bytes) (extensions : ExtensionList) (s : EditState)
    (Hid : forall s, identity s extensions = Ok (idf s))
    (Ht : tree_ok idf (es_tree s)) (Henc : tree_encodable (nodes (es_tree s)))
    (Hcur : hashes_current (nodes (es_tree s)) (tree_hashes (es_tree s)))
    (Hb : bundle_leaves_ok (es_bundle s))
    (Hroom : zlen (nodes (es_tree s)) + 2 * zlen (additions (es_bundle s)) <= 2 ^ 25) :
  match batch_edit extensions false s with
  | (Ok added, s') => edited idf s added s'
  | (Err _, _) => True
  | (Panic, _) => False
  end.
Proof.
  pose proof Hb as (Hrem & Hupd & Hlen & _). unfold batch_edit.
  rewrite (sm_bind_run get_bundle _ s (es_bundle s) s) by done.
  pose proof (apply_removes_strict idf extensions Hid (length (removals (es_bundle s))) s Ht ltac:(done) Hrem) as H1.
  unfold mbind at 1, sm_bind at 1. destruct (apply_removes extensions false _ s) as [[[]|e|] s1]; [|done|done].
  rewrite firstn_all in H1. destruct H1 as (Hb1 & Hz1 & P1).
  pose proof (batch_updates_strict idf extensions Hid s1 (ph_ok _ _ _ _ _ P1) ltac:(by rewrite Hb1) ltac:(by rewrite Hb1)) as H2.
  unfold mbind at 1, sm_bind at 1. destruct (batch_updates extensions false s1) as [[updated|e|] s2]; [|done|done].
  destruct H2 as (Hb2 & Hz2 & Hpos & P2). rewrite Hb1 in Hb2, P2.
  pose proof (batch_adds_strict idf extensions Hid s2 (ph_ok _ _ _ _ _ P2) ltac:(rewrite Hb2; lia)) as H3. rewrite Hb2 in H3.
  destruct (apply_adds extensions false 0 _ 0 s2) as [[[added bad]|e|] s3]; [| |done].
  2: { destruct (H3 updated) as [e' ->]. done. }
  destruct H3 as (Hadd & Hpos3 & Hnew3 & P3 & ->). set (t3 := set_nodes _ (es_tree s3)) in *.
  set (removed := (fun p => to_remove (proposal p)) <$> removals (es_bundle s)) in *.
  assert (phase idf (removed ++ updated ++ added) (bundle_edits (es_bundle s) added) (es_tree s) t3) as P.
  { apply (phase_trans idf _ _ _ _ (es_tree s1)); [eapply phase_mono, P1; set_solver|].
    apply (phase_trans idf _ _ _ _ (es_tree s2)); [eapply phase_mono, P2; set_solver|eapply phase_mono, P3; set_solver]. }
  pose proof (phase_encodable idf _ _ _ _ P Henc (bundle_edits_encodable (es_bundle s) added Hb)) as Henc3.
  destruct (rehash idf extensions Hid _ _ _ _ P Hcur) as (hs & Hu & Hc); [|done|].
  { apply Forall_app. split; [eapply Forall_fmap, Forall_impl; [exact Hrem|by intros ? []]|].
    by apply Forall_app. }
  unfold zoom_tree, sm_zoom, mbind, sm_bind, edited. cbn [es_tree]. rewrite Hu. cbn [mret sm_ret es_tree es_bundle].
  split; [done|]. destruct (ph_ok _ _ _ _ _ P) as [Hv Hx].
  split; [exact (ph_run _ _ _ _ _ P)|]. split; [by split|]. split_and!; [done..| |done]. exact (ph_parents _ _ _ _ _ P).
Qed.

(** ** A strict edit that succeeds filters nothing *)

Section strict_filters_nothing.
Context {idp : IdentityProvider} `{CipherSuiteProvider} (extensions : ExtensionList).

Lemma sm_try_Ok {S E A} (m : SM S E A) s r s' : sm_try m s = (Ok r, s') -> exists x, m s = (x, s') /\ r = x /\ x <> Panic.
Proof. unfold sm_try. destruct (m s) as [[a|e|] s1]; intros [= <- <-]; eexists; done. Qed.

Lemma apply_remove_unfiltered (T : Type) `{Proposable T} i n v s s' :
  apply_remove extensions false T i n v s = (Ok tt, s') -> apply_remove extensions true T i n v s = (Ok tt, s').
Proof.
  unfold apply_remove. intros (r & s1 & Et & E)%sm_bind_Ok. rewrite (sm_bind_run _ _ _ _ _ Et).
  apply sm_bind_Ok in E as ([] & s2 & E2 & E). rewrite (sm_bind_run _ _ _ _ _ E2).
  apply sm_bind_Ok in E as ([] & s3 & E3 & E). rewrite (sm_bind_run _ _ _ _ _ E3). cbn [negb] in E.
  rewrite orb_true_r in E. apply sm_bind_Ok in E as (x & s4 & [= -> <-] & [= <-]). by destruct v.
Qed.

Lemma apply_removes_unfiltered n s s' :
  apply_removes extensions false n s = (Ok tt, s') -> apply_removes extensions true n s = (Ok tt, s').
Proof.
  revert s. induction n as [|n IH]; intros s; [done|]. cbn [apply_removes]. intros (b & s1 & [= <- <-] & E)%sm_bind_Ok.
  rewrite (sm_bind_run get_bundle _ s (es_bundle s) s) by done.
  apply sm_bind_Ok in E as (p & s1 & [= Ep <-] & E). rewrite (sm_lift_run _ _ _ _ Ep).
  apply sm_bind_Ok in E as ([] & s2 & E2 & E). apply apply_remove_unfiltered in E2. rewrite (sm_bind_run _ _ _ _ _ E2). by apply IH.
Qed.

Lemma take_updates_unfiltered i ps s r s' :
  take_updates extensions false i ps s = (Ok r, s') -> take_updates extensions true i ps s = (Ok r, s').
Proof.
  revert i s r s'. induction ps as [|[p sd] ps IH]; intros i s r s'; [done|]. cbn [take_updates]. intros (x & s1 & Et & E)%sm_bind_Ok.
  rewrite (sm_bind_run _ _ _ _ _ Et). destruct x as [l|e|]; [|done..].
  apply sm_bind_Ok in E as (id & s2 & E2 & E). rewrite (sm_bind_run _ _ _ _ _ E2).
  apply sm_bind_Ok in E as (u & s3 & E3 & E). rewrite (sm_bind_run _ _ _ _ _ E3).
  apply sm_bind_Ok in E as (rest & s4 & E4 & E). apply IH in E4. by rewrite (sm_bind_run _ _ _ _ _ E4).
Qed.

Lemma apply_updates_unfiltered x us acc s r s' :
  apply_updates extensions false x us acc s = (Ok r, s') -> apply_updates extensions true x us acc s = (Ok r, s').
Proof.
  revert acc s. induction us as [|u us IH]; intros acc s; [done|]. cbn [apply_updates]. intros (y & s1 & Et & E)%sm_bind_Ok.
  rewrite (sm_bind_run _ _ _ _ _ Et). apply sm_bind_Ok in E as (z & s2 & [= -> <-] & E). cbn [negb] in *.
  rewrite (sm_bind_run (mret tt) _ s1 tt s1) by done. cbn [is_ok] in *.
  apply sm_bind_Ok in E as (w & s3 & E3 & E). rewrite (sm_bind_run _ _ _ _ _ E3). by apply IH.
Qed.

Lemma apply_adds_unfiltered i ps start s r s' :
  apply_adds extensions false i ps start s = (Ok r, s') -> apply_adds extensions true i ps start s = (Ok r, s').
Proof.
  revert i start s r s'. induction ps as [|p ps IH]; intros i start s r s'; [done|]. cbn [apply_adds]. intros (y & s1 & Et & E)%sm_bind_Ok.
  rewrite (sm_bind_run _ _ _ _ _ Et). destruct y as [idx|e|].
  - apply sm_bind_Ok in E as (z & s2 & E2 & E). apply IH in E2. by rewrite (sm_bind_run _ _ _ _ _ E2).
  - cbn [negb] in E. rewrite orb_true_r in E. by apply sm_bind_Ok in E as (? & ? & [=] & _).
  - cbn [negb] in E. rewrite orb_true_r in E. by apply sm_bind_Ok in E as (? & ? & [=] & _).
Qed.

Lemma batch_edit_unfiltered s r s' :
  batch_edit extensions false s = (Ok r, s') -> batch_edit extensions true s = (Ok r, s').
Proof.
  unfold batch_edit. intros (b & s1 & [= <- <-] & E)%sm_bind_Ok. rewrite (sm_bind_run get_bundle _ s (es_bundle s) s) by done.
  apply sm_bind_Ok in E as ([] & s1 & E1 & E). apply apply_removes_unfiltered in E1. rewrite (sm_bind_run _ _ _ _ _ E1).
  apply sm_bind_Ok in E as (upd & s2 & E2 & E).
  assert (batch_updates extensions true s1 = (Ok upd, s2)) as E2'.
  { unfold batch_updates in *. apply sm_bind_Ok in E2 as (b & s3 & [= <- <-] & E2). rewrite (sm_bind_run get_bundle _ s1 (es_bundle s1) s1) by done.
    apply sm_bind_Ok in E2 as (pu & s4 & E4 & E2). apply take_updates_unfiltered in E4. rewrite (sm_bind_run _ _ _ _ _ E4).
    apply sm_bind_Ok in E2 as (t & s5 & [= <- <-] & E2). rewrite (sm_bind_run get_tree _ s4 (es_tree s4) s4) by done.
    apply sm_bind_Ok in E2 as (acc & s6 & E6 & E2). apply apply_updates_unfiltered in E6. by rewrite (sm_bind_run _ _ _ _ _ E6). }
  rewrite (sm_bind_run _ _ _ _ _ E2'). unfold batch_adds in *.
  apply sm_bind_Ok in E as (b & s3 & [= <- <-] & E). rewrite (sm_bind_run get_bundle _ s2 (es_bundle s2) s2) by done.
  apply sm_bind_Ok in E as (ab & s4 & E4 & E). apply apply_adds_unfiltered in E4. by rewrite (sm_bind_run _ _ _ _ _ E4).
Qed.
End strict_filters_nothing.

(** C8: applying the proposals of a commit, strictly.  On a well-formed tree
    with current hashes, [batch_edit] without filtering never panics.  When it
    succeeds, the new roster is the old one after the removals, the updates and
    the additions of the bundle, each of which was possible in turn ([roster_run]):
    removed and updated members existed and every addition went to the first
    blank leaf.  The tree is well formed again (its index agrees with its
    leaves, no two of which share a key or identity; unmerged leaves are sorted
    members below their node; no parent has an empty side), its stored tree
    hashes are current, and the bundle is unchanged. *)
Theorem batch_edit_strict {idp : IdentityProvider} `{CipherSuiteProvider, !HashLaws}
    (idf : SigningIdentity -> bytes) (extensions : ExtensionList) (s : EditState)
    (Hid : forall s, identity s extensions = Ok (idf s))
    (Ht : tree_ok idf (es_tree s)) (Henc : tree_encodable (nodes (es_tree s)))
    (Hcur : hashes_current (nodes (es_tree s)) (tree_hashes (es_tree s)))
    (Hb : bundle_leaves_ok (es_bundle s))
    (Hroom : zlen (nodes (es_tree s)) + 2 * zlen (additions (es_bundle s)) <= 2 ^ 25) :
  match batch_edit extensions false s with
  | (Ok added, s') =>
      length added = length (additions (es_bundle s)) /\
      roster_run (leaf_map (nodes (es_tree s))) (bundle_edits (es_bundle s) added) (leaf_map (nodes (es_tree s'))) /\
      tree_ok idf (es_tree s') /\ hashes_current (nodes (es_tree s')) (tree_hashes (es_tree s')) /\
      tree_encodable (nodes (es_tree s')) /\ es_bundle s' = es_bundle s
  | (Err _, _) => True
  | (Panic, _) => False
  end.
Proof.
  pose proof (batch_edit_spec idf extensions s Hid Ht Henc Hcur Hb Hroom) as Hs.
  destruct (batch_edit extensions false s) as [[added|e|] s']; [|done..]. by destruct Hs as (? & ? & ? & ? & ? & ? & _).
Qed.

(** A group of two, and a commit that removes one member, updates the other
    and adds a third. *)
Definition member_leaf (n : Z) : LeafNode :=
  mk_leaf_node [n] (mk_signing_identity [n] (Basic [n])) (mk_capabilities [1] [1] [] [] [1])
    SourceUpdate [] [].

Definition group_of_two : TreeKemPublic :=
  (add_leaf (idp := plain_provider) (member_leaf 2) [] None
    (add_leaf (idp := plain_provider) (member_leaf 1) [] None tree_kem_new).2).2.

Lemma tree_ok_new idf : tree_ok idf tree_kem_new.
Proof.
  split; [|apply index_rep_new].
  assert (forall x, nd [] x = None) as Hn by (intros x; unfold nd; by rewrite (proj2 (zget_None [] x)) by (change (zlen []) with 0; lia)).
  split.
  - split; [by left|done].
  - intros x n Hx. cbn in Hx. by rewrite Hn in Hx.
  - intros k j p _ Hx. unfold parent_at in Hx. cbn in Hx. by rewrite Hn in Hx.
  - intros k j p _ Hx. unfold parent_at in Hx. cbn [nodes tree_kem_new] in Hx. by rewrite Hn in Hx.
Qed.

Lemma add_leaf_ok {idp : IdentityProvider} idf ext t leaf : (forall s, identity s ext = Ok (idf s)) ->
  tree_ok idf t -> zlen (nodes t) + 2 <= 2 ^ 25 -> tree_ok idf (add_leaf leaf ext None t).2.
Proof.
  intros Hid Ht Hz. pose proof (zlen_nonneg (nodes t)).
  pose proof (add_leaf_spec idf ext Hid t leaf None Ht Hz ltac:(simpl; lia) ltac:(simpl; lia) ltac:(simpl; lia)) as H1.
  by destruct (add_leaf leaf ext None t) as [[i|e|] t']; [apply H1|apply H1|].
Qed.

Lemma group_of_two_ok : tree_ok signature_key group_of_two.
Proof.
  unfold group_of_two. apply add_leaf_ok; [done| |by vm_compute]. apply add_leaf_ok; [done|apply tree_ok_new|by vm_compute].
Qed.

Definition busy_bundle : ProposalBundle :=
  set_update_senders [0] (bundle_from_iter [(PRemove (mk_remove 1), SenderMember 0, ByValue);
    (PUpdate (mk_update (member_leaf 3)), SenderMember 0, ByReference [7]);
    (PAdd (mk_add (mk_key_package 1 1 [8] (member_leaf 4) [] [])), SenderMember 0, ByValue)]).

Lemma member_leaf_encodable n : encodable leaf_node_codec (member_leaf n).
Proof. eexists. vm_compute. reflexivity. Qed.

Lemma group_of_two_encodable : tree_encodable (nodes group_of_two).
Proof.
  split.
  - intros i l Hl%nd_leaf_at. pose proof (nd_bound _ _ _ Hl) as Hb. change (zlen (nodes group_of_two)) with 3 in Hb.
    assert (i = 0 \/ i = 1) as [->| ->] by lia; vm_compute in Hl; injection Hl as <-;
      [apply (member_leaf_encodable 1)|apply (member_leaf_encodable 2)].
  - intros x p Hp%nd_parent_at. pose proof (nd_bound _ _ _ Hp) as Hb. change (zlen (nodes group_of_two)) with 3 in Hb.
    assert (x = 0 \/ x = 1 \/ x = 2) as [->|[->| ->]] by lia; vm_compute in Hp; discriminate.
Qed.

Lemma no_hashes_current `{CipherSuiteProvider} v : hashes_current v [].
Proof.
  intros k j Hj Hlt. pose proof (node_nonneg (Z.of_nat k) j ltac:(lia) Hj). change (zlen []) with 0 in Hlt. lia.
Qed.

Lemma busy_bundle_ok : bundle_leaves_ok busy_bundle.
Proof.
  split; [by repeat constructor|]. split; [by repeat constructor|]. split; [reflexivity|].
  split; repeat constructor; apply member_leaf_encodable.
Qed.

Lemma batch_edit_strict_witness : exists s',
  batch_edit (idp := plain_provider) (H := Toy.provider) [] false (mk_edit_state group_of_two busy_bundle) = (Ok [1], s') /\
  roster_run (leaf_map (nodes group_of_two)) [EditRemove 1; EditUpdate 0 (member_leaf 3); EditAdd 1 (member_leaf 4)]
    (leaf_map (nodes (es_tree s'))).
Proof.
  pose proof (batch_edit_strict (idp := plain_provider) (H := Toy.provider) (H0 := Toy.hash_laws) signature_key []
    (mk_edit_state group_of_two busy_bundle) ltac:(reflexivity) group_of_two_ok group_of_two_encodable
    (no_hashes_current (H := Toy.provider) _) busy_bundle_ok ltac:(vm_compute; discriminate)) as H1.
  destruct (batch_edit (idp := plain_provider) (H := Toy.provider) [] false (mk_edit_state group_of_two busy_bundle))
    as [r s'] eqn:E.
  assert (r = Ok [1]) as ->.
  { transitivity (batch_edit (idp := plain_provider) (H := Toy.provider) [] false (mk_edit_state group_of_two busy_bundle)).1;
      [by rewrite E|vm_compute; reflexivity]. }
  exists s'. split; [reflexivity|]. exact (proj1 (proj2 H1)).
Defined.

(** ** Filtered application *)

(** The updates of a bundle, in its order: the index, the old and the new leaf
    of every sender, and the position in the bundle. *)
Fixpoint due (m : gmap Z LeafNode) (pos : Z) (ps : list (ProposalInfo UpdateProposal * Z)) : list PartialUpdate :=
  match ps with
  | [] => []
  | (p, sender) :: ps =>
      match m !! sender with
      | Some l => mk_partial_update sender l (up_leaf_node (proposal p)) pos :: due m (pos + 1) ps
      | None => due m (pos + 1) ps
      end
  end.

Section replay.
Context (idf : SigningIdentity -> bytes).

(** The leaf may join the members [m]. *)
Definition fits (l : LeafNode) (m : gmap Z LeafNode) : Prop := map_Forall (fun _ l' => compatible idf l l') m.

#[export] Instance fits_dec l m : Decision (fits l m).
Proof. apply map_Forall_dec. intros i l'. unfold compatible. apply _. Defined.

(** The updates, one by one, on the roster [m] of the members whose updates are
    not pending: the new leaf if it fits, else the old leaf if that still fits.
    The second result are the updates from the first on for which neither does. *)
Fixpoint replay (m : gmap Z LeafNode) (us : list PartialUpdate) : gmap Z LeafNode * list PartialUpdate :=
  match us with
  | [] => (m, [])
  | u :: us' =>
      if decide (fits (pu_new u) m) then replay (<[pu_index u := pu_new u]> m) us'
      else if decide (fits (pu_old u) m) then replay (<[pu_index u := pu_old u]> m) us'
      else (m, u :: us')
  end.

Lemma fits_members l v : fits l (leaf_map v) <-> forall i l', (i, l') ∈ non_empty_leaves v -> compatible idf l l'.
Proof.
  unfold fits, map_Forall. setoid_rewrite lookup_leaf_map. by setoid_rewrite elem_of_members.
Qed.
End replay.

Section filtered_updates.
Context (idf : SigningIdentity -> bytes) (v0 : NodeVec) (Hv0 : vec_inv [] v0).
Context {idp : IdentityProvider} (extensions : ExtensionList) (Hid : forall s, identity s extensions = Ok (idf s)).

Notation pending := (pending idf v0).

(** All senders are members. *)
Lemma take_updates_run flt ps : forall pos us m s, pending us m (es_tree s) ->
  NoDup ((pu_index <$> us) ++ ps.*2) -> Forall (fun '(_, sender) => leaf_index_wf sender /\ is_Some (m !! sender)) ps ->
  exists t', take_updates extensions flt pos ps s = (Ok (due m pos ps), mk_edit_state t' (es_bundle s)) /\
    pending (us ++ due m pos ps) m t'.
Proof using Hid Hv0.
  induction ps as [|[p sender] ps IH]; intros pos us m s Hp Hnd Hwf.
  { exists (es_tree s). cbn. rewrite app_nil_r. by destruct s. }
  apply Forall_cons in Hwf as [[Hw [l Hl]] Hwf]. unfold leaf_index_wf in Hw. change MAX_LEAF_INDEX with 16777215 in Hw.
  assert (sender ∉ pu_index <$> us) as Hnot.
  { intros Hin. apply NoDup_app in Hnd as (_ & Hnd & _). apply (Hnd sender Hin). by left. }
  assert (leaf_at (nodes (es_tree s)) sender = Some l) as El by (rewrite (pe_leaves _ _ _ _ _ Hp); by rewrite decide_False).
  pose proof (try_blank s sender (pending_parity idf v0 Hv0 _ _ _ Hp) ltac:(lia)) as Hb. rewrite El in Hb. cbn [take_updates due].
  erewrite sm_bind_run by exact Hb. cbv iota. erewrite sm_lift_run by exact (leaf_identity_eq idf extensions Hid l).
  erewrite sm_bind_run by reflexivity. rewrite Hl.
  destruct (IH (pos + 1) _ _ (mk_edit_state (taken idf sender l (es_tree s)) (es_bundle s))
    (pending_take idf v0 Hv0 _ _ _ sender l (up_leaf_node (proposal p)) pos Hp El ltac:(lia))) as (t' & E & Hp'); [|done|].
  { rewrite fmap_app. cbn. rewrite <- app_assoc. by cbn in Hnd. }
  exists t'. unfold mbind at 1, sm_bind at 1.
  change (take_updates extensions flt (pos + 1) ps _) with
    (take_updates extensions flt (pos + 1) ps (mk_edit_state (taken idf sender l (es_tree s)) (es_bundle s))).
  rewrite E. split; [done|]. by rewrite <- app_assoc in Hp'.
Qed.

(** Inserting a leaf where the tree before the updates had one. *)
Lemma edit_insert_at t b i l : zlen (nodes t) = zlen v0 -> is_Some (leaf_at v0 i) -> 0 <= i ->
  exists v', edit_insert_leaf i l (mk_edit_state t b) = (Ok tt, mk_edit_state (set_nodes v' t) b) /\
    (forall i', leaf_at v' i' = if decide (i' = i) then Some l else leaf_at (nodes t) i') /\
    nd v' (2 * i) = Some (NodeLeaf l) /\ (forall x, x <> 2 * i -> nd v' x = nd (nodes t) x) /\ zlen v' = zlen (nodes t).
Proof using Type*.
  intros Hz [l0 Hl0] Hi. apply nd_leaf_at, nd_bound in Hl0. destruct (vi_shape _ _ Hv0) as [Hodd Hlen].
  destruct (insert_leaf_spec (nodes t) i l) as (v' & E & Hl & Ho & Hz' & _).
  - split; [right|by rewrite Hz]. rewrite Hz. destruct Hodd as [E|]; [|done].
    rewrite E in Hl0. change (zlen []) with 0 in Hl0. lia.
  - done.
  - left. lia.
  - exists v'. unfold edit_insert_leaf. unfold get_tree, mbind, sm_bind, sm_lift. cbn [es_tree]. rewrite E.
    split; [done|]. split; [|split; [done|split; [done|lia]]]. intros i'. unfold leaf_at. destruct (decide (i' = i)) as [->|]; [by rewrite Hl|].
    by rewrite Ho by lia.
Qed.

(** Putting back what was taken. *)
Lemma revert_run (M : gmap Z LeafNode) ls : forall t b, zlen (nodes t) = zlen v0 ->
  (forall l i, (l, i) ∈ ls -> M !! i = Some l /\ is_Some (leaf_at v0 i) /\ 0 <= i) ->
  exists v', revert_leaves ls (mk_edit_state t b) = (Ok tt, mk_edit_state (set_nodes v' t) b) /\
    (forall i, leaf_at v' i = if decide (i ∈ ls.*2) then M !! i else leaf_at (nodes t) i).
Proof using Type*.
  induction ls as [|[l i] ls IH]; intros t b Hz Hls.
  { exists (nodes t). split; [by destruct t|]. intros i. by rewrite decide_False by apply not_elem_of_nil. }
  destruct (Hls l i (list_elem_of_here _ _)) as (HM & Hi & Hi0). destruct (edit_insert_at t b i l Hz Hi Hi0) as (v1 & E & Hleaf & _ & _ & Hz1).
  destruct (IH (set_nodes v1 t) b) as (v' & E' & Hl').
  { cbn. congruence. }
  { intros l' i' Hin. apply Hls. by right. }
  exists v'. cbn [revert_leaves]. erewrite sm_bind_run by exact E. split; [exact E'|]. intros i'. rewrite Hl'. cbn [nodes set_nodes].
  rewrite Hleaf, fmap_cons. cbn [snd]. destruct (decide (i' ∈ ls.*2)) as [Hin|Hnin], (decide (i' ∈ i :: ls.*2)) as [Hin'|Hnin'];
    [done|destruct Hnin'; by right| |].
  - apply elem_of_cons in Hin' as [->|]; [|done]. by rewrite decide_True.
  - rewrite decide_False; [done|]. intros ->. apply Hnin'. by left.
Qed.

(** The loop, while the updates [us] are pending; [M] is the roster before it,
    [m] the one with the old leaves of [us]. *)
Record replaying (M : gmap Z LeafNode) (acc : UpdateLoop) (us : list PartialUpdate) (m : gmap Z LeafNode) (t : TreeKemPublic) : Prop := {
  rp_pending : pending us m t;
  rp_length : length (removed_leaves acc) = length (updated_indices acc);
  rp_removed l i : (l, i) ∈ zip (removed_leaves acc) (updated_indices acc) -> M !! i = Some l;
  rp_updated i : i ∈ updated_indices acc -> i ∉ pu_index <$> us /\ is_Some (leaf_at v0 i) /\ 0 <= i;
  rp_same i : m !! i = M !! i \/ i ∈ updated_indices acc;
}.

(** An update whose new leaf is in. *)
Lemma replaying_new M acc u us m t x' v' : replaying M acc (u :: us) m t ->
  pending us (<[pu_index u := pu_new u]> m) (set_nodes v' (set_index x' t)) ->
  replaying M (mk_update_loop (removed_leaves acc ++ [pu_old u]) (updated_indices acc ++ [pu_index u]) (bad_indices acc)) us
    (<[pu_index u := pu_new u]> m) (set_nodes v' (set_index x' t)).
Proof using Type.
  intros [Hp Hl Hr Hu Hs] Hp'. destruct (pe_old _ _ _ _ _ Hp u ltac:(by left)) as [Hm Hi].
  pose proof (pe_nodup _ _ _ _ _ Hp) as Hnd. rewrite fmap_cons in Hnd. apply NoDup_cons in Hnd as [Hnot Hnd].
  assert (pu_index u ∉ updated_indices acc) as Hfresh by (intros Hin; destruct (Hu _ Hin) as [Hx _]; apply Hx; rewrite fmap_cons; by left).
  split; cbn [removed_leaves updated_indices]; [done|rewrite !length_app; cbn; lia| | |].
  - intros l i. rewrite zip_with_app by done. intros [Hin|Hin]%elem_of_app; [by apply Hr|].
    apply list_elem_of_singleton in Hin as [= -> ->]. destruct (Hs (pu_index u)); [congruence|done].
  - intros i [Hin|Hin%list_elem_of_singleton]%elem_of_app; [|subst i].
    + destruct (Hu i Hin) as (H1 & H2). split; [|done]. intros Hi'. apply H1. rewrite fmap_cons. by right.
    + split; [done|]. split; [|lia]. apply (pe_occupied _ _ _ _ _ Hp). by rewrite Hm.
  - intros i. destruct (decide (i = pu_index u)) as [->|Hne]; [right; apply elem_of_app; right; by left|].
    rewrite lookup_insert_ne by done. destruct (Hs i); [by left|right; apply elem_of_app; by left].
Qed.

(** An update that is reverted. *)
Lemma replaying_old M acc u us m t x' v' : replaying M acc (u :: us) m t ->
  pending us (<[pu_index u := pu_old u]> m) (set_nodes v' (set_index x' t)) ->
  replaying M (mk_update_loop (removed_leaves acc) (updated_indices acc) (bad_indices acc ++ [pu_pos u])) us
    (<[pu_index u := pu_old u]> m) (set_nodes v' (set_index x' t)).
Proof using Type.
  intros [Hp Hl Hr Hu Hs] Hp'. destruct (pe_old _ _ _ _ _ Hp u ltac:(by left)) as [Hm Hi].
  rewrite (insert_id m) in * by done. split; cbn [removed_leaves updated_indices]; try done.
  intros i Hin. destruct (Hu i Hin) as (H1 & H2). split; [|done]. intros Hi'. apply H1. rewrite fmap_cons. by right.
Qed.

Lemma apply_updates_filtered us : forall x0 acc M m s, replaying M acc us m (es_tree s) ->
  exists acc' t', apply_updates extensions true x0 us acc s = (Ok acc', mk_edit_state t' (es_bundle s)) /\
  match replay idf (leaf_map (nodes (es_tree s))) us with
  | (m', []) =>
      pending [] m' t' /\ (exists bad, bad_indices acc' = bad_indices acc ++ bad /\ bad `sublist_of` (pu_pos <$> us)) /\
      forall i, i ∈ updated_indices acc' -> is_Some (leaf_at v0 i) /\ 0 <= i
  | (_, rest) =>
      updated_indices acc' = [] /\ index t' = x0 /\
      forall i, leaf_at (nodes t') i = if decide (i ∈ pu_index <$> rest) then None else M !! i
  end.
Proof using Hid Hv0.
  induction us as [|u us IH]; intros x0 acc M m s Hr; pose proof Hr as [Hp Hlen Hrem Hu Hs].
  { exists acc, (es_tree s). cbn. split; [by destruct s|]. split; [|split; [exists []; by rewrite app_nil_r|intros i Hi; apply Hu, Hi]].
    assert (leaf_map (nodes (es_tree s)) = m) as ->; [|done]. apply map_eq. intros i. rewrite lookup_leaf_map, (pe_leaves _ _ _ _ _ Hp).
    by rewrite decide_False by apply not_elem_of_nil. }
  destruct s as [t b]. cbn [es_tree es_bundle] in *. cbn [apply_updates].
  assert (leaf_at (nodes t) (pu_index u) = None) as Hnone.
  { rewrite (pe_leaves _ _ _ _ _ Hp), fmap_cons. by rewrite decide_True by (by left). }
  destruct (pe_old _ _ _ _ _ Hp u ltac:(by left)) as [Hm Hi].
  assert (is_Some (leaf_at v0 (pu_index u))) as Hocc by (apply (pe_occupied _ _ _ _ _ Hp); by rewrite Hm).
  assert (forall l x' v', (forall i', leaf_at v' i' = if decide (i' = pu_index u) then Some l else leaf_at (nodes t) i') ->
    leaf_map (nodes (set_nodes v' (set_index x' t))) = <[pu_index u := l]> (leaf_map (nodes t))) as Hmap.
  { intros l x' v' Hleaf. apply map_eq. intros i'. cbn [nodes set_nodes]. rewrite lookup_leaf_map, Hleaf.
    destruct (decide (i' = pu_index u)) as [->|Hne]; [by rewrite lookup_insert_eq|]. by rewrite lookup_insert_ne, lookup_leaf_map. }
  pose proof (pending_small idf v0 Hv0 _ _ _ Hp) as Hsmall.
  pose proof (index_insert_members idf extensions Hid (index t) (non_empty_leaves (nodes t)) (pu_index u) (pu_new u)
    (pe_index _ _ _ _ _ Hp) (members_fresh _ _ Hnone) Hsmall) as Hins.
  pose proof (try_zoom_index (index_insert (pu_new u) (pu_index u) extensions) t b) as Ht.
  cbn [replay].
  destruct (index_insert (pu_new u) (pu_index u) extensions (index t)) as [[[]|e|] x1]; [| |by destruct Hins]; destruct Hins as [Hx1 Hfit]; rewrite <- fits_members in Hfit.
  - rewrite decide_True by done. erewrite sm_bind_run by exact Ht. erewrite sm_bind_run by reflexivity. cbn [is_ok].
    destruct (edit_insert_at (set_index x1 t) b (pu_index u) (pu_new u) (pe_len _ _ _ _ _ Hp) Hocc ltac:(lia)) as (v' & E & Hleaf & Hl & Ho & Hz).
    erewrite sm_bind_run by exact E. rewrite <- (Hmap _ x1 _ Hleaf).
    pose proof (pending_put idf v0 Hv0 u us m t x1 v' (pu_new u) Hp Hx1 Hl Ho Hz) as Hp'.
    destruct (IH x0 _ M _ (mk_edit_state (set_nodes v' (set_index x1 t)) b) (replaying_new M acc u us m t x1 v' Hr Hp')) as (acc' & t' & E' & Hres).
    exists acc', t'. split; [exact E'|]. cbn [es_tree] in Hres. destruct (replay _ _ us) as [m' [|u' rest]]; [|exact Hres].
    destruct Hres as (R1 & (bad & R2 & R3) & R4). split; [done|]. split; [|done]. exists bad. split; [done|].
    rewrite fmap_cons. by apply sublist_cons.
  - rewrite decide_False by done. erewrite sm_bind_run by exact Ht. erewrite sm_bind_run by reflexivity. cbn [is_ok].
    pose proof (index_insert_members idf extensions Hid x1 (non_empty_leaves (nodes t)) (pu_index u) (pu_old u)
      Hx1 (members_fresh _ _ Hnone) Hsmall) as Hins2.
    pose proof (try_zoom_index (index_insert (pu_old u) (pu_index u) extensions) (set_index x1 t) b) as Ht2. cbn [index set_index] in Ht2.
    destruct (index_insert (pu_old u) (pu_index u) extensions x1) as [[[]|e2|] x2]; [| |by destruct Hins2]; destruct Hins2 as [Hx2 Hfit2]; rewrite <- fits_members in Hfit2.
    + rewrite decide_True by done. erewrite sm_bind_run by exact Ht2. cbn [is_ok].
      destruct (edit_insert_at (set_index x2 t) b (pu_index u) (pu_old u) (pe_len _ _ _ _ _ Hp) Hocc ltac:(lia)) as (v' & E & Hleaf & Hl & Ho & Hz).
      erewrite sm_bind_run by exact E. rewrite <- (Hmap _ x2 _ Hleaf).
      pose proof (pending_put idf v0 Hv0 u us m t x2 v' (pu_old u) Hp Hx2 Hl Ho Hz) as Hp'.
      destruct (IH x0 _ M _ (mk_edit_state (set_nodes v' (set_index x2 t)) b) (replaying_old M acc u us m t x2 v' Hr Hp')) as (acc' & t' & E' & Hres).
      exists acc', t'. split; [exact E'|]. cbn [es_tree] in Hres. destruct (replay _ _ us) as [m' [|u' rest]]; [|exact Hres].
      destruct Hres as (R1 & (bad & R2 & R3) & R4). split; [done|]. split; [|done]. exists (pu_pos u :: bad). split.
      * rewrite R2. cbn [bad_indices]. by rewrite <- app_assoc.
      * rewrite fmap_cons. by apply sublist_skip.
    + rewrite decide_False by done. erewrite sm_bind_run by exact Ht2. cbn [is_ok].
      erewrite sm_bind_run by reflexivity.
      destruct (revert_run M (zip (removed_leaves acc) (updated_indices acc)) (set_index x0 t) b (pe_len _ _ _ _ _ Hp)) as (v' & E & Hleaf).
      { intros l i Hin. split; [by apply Hrem|]. apply elem_of_zip_r in Hin. apply (Hu i Hin). }
      eexists _, _. split.
      { unfold mbind, sm_bind. change (mk_edit_state (set_index x0 _) _) with (mk_edit_state (set_index x0 t) b) in *.
        cbn [es_tree es_bundle set_index nodes index tree_hashes] in *. rewrite E. reflexivity. }
      cbn [updated_indices index set_nodes set_index]. split; [done|]. split; [done|]. intros i. cbn [nodes set_nodes]. rewrite Hleaf.
      rewrite snd_zip by lia. cbn [nodes set_index]. rewrite (pe_leaves _ _ _ _ _ Hp).
      destruct (decide (i ∈ updated_indices acc)) as [Hin|Hnin].
      * rewrite decide_False; [done|]. apply (Hu i Hin).
      * destruct (decide (i ∈ pu_index <$> u :: us)); [done|]. by destruct (Hs i).
Qed.
End filtered_updates.

(** Strictly descending numbers from [lo] on and below [n]. *)
Fixpoint descends (lo n : Z) (l : list Z) : Prop :=
  match l with
  | [] => lo <= n
  | i :: l => lo <= i < n /\ descends lo i l
  end.

Lemma descends_lower lo lo' n l : descends lo n l -> lo' <= lo -> descends lo' n l.
Proof. revert n. induction l as [|i l IH]; intros n Hl Hlo; simpl in *; [lia|]. destruct Hl as [Hi Hl]. split; [lia|]. by apply IH. Qed.

Lemma descends_snoc lo n l x : descends (x + 1) n l -> lo <= x -> descends lo n (l ++ [x]).
Proof. revert n. induction l as [|i l IH]; intros n Hl Hlo; simpl in *; [lia|]. destruct Hl as [Hi Hl]. split; [lia|]. by apply IH. Qed.

Lemma due_positions m ps : forall pos l, l `sublist_of` (pu_pos <$> due m pos ps) -> descends pos (pos + zlen ps) (reverse l).
Proof.
  assert (forall x : ProposalInfo UpdateProposal * Z, forall l, zlen (x :: l) = zlen l + 1) as Hz by (intros; unfold zlen; simpl; lia).
  induction ps as [|[p sender] ps IH]; intros pos l Hl.
  { apply sublist_nil_r in Hl as ->. cbn. unfold zlen. simpl. lia. }
  rewrite Hz. replace (pos + (zlen ps + 1)) with (pos + 1 + zlen ps) by lia. cbn [due] in Hl.
  destruct (m !! sender) as [lf|]; [|apply (descends_lower (pos + 1)); [by apply IH|lia]].
  rewrite fmap_cons in Hl. cbn [pu_pos] in Hl. apply sublist_cons_r in Hl as [Hl|(l' & -> & Hl)].
  - apply (descends_lower (pos + 1)); [by apply IH|lia].
  - rewrite reverse_cons. apply descends_snoc; [by apply IH|lia].
Qed.

Lemma drop_updates_run bad : forall s n, descends 0 n bad -> n <= zlen (update_senders (es_bundle s)) ->
  exists b', drop_updates bad s = (Ok tt, mk_edit_state (es_tree s) b').
Proof.
  induction bad as [|i bad IH]; intros s n Hd Hn; [exists (es_bundle s); by destruct s|]. destruct Hd as [Hi Hd].
  cbn [drop_updates]. set (b1 := bundle_remove UpdateProposal i (es_bundle s)).
  assert (update_senders b1 = update_senders (es_bundle s)) as Es by (unfold b1, bundle_remove; by destruct (_ <? _)).
  rewrite (sm_bind_run _ _ s tt (mk_edit_state (es_tree s) b1)) by done.
  rewrite (sm_bind_run get_bundle _ _ b1 (mk_edit_state (es_tree s) b1)) by done.
  rewrite (sm_lift_run _ _ _ (delete (Z.to_nat i) (update_senders b1)));
    [|unfold vec_remove; rewrite Es; destruct (Z.ltb_spec i (zlen (update_senders (es_bundle s)))); [done|lia]].
  rewrite (sm_bind_run _ _ _ tt (mk_edit_state (es_tree s) (set_update_senders (delete (Z.to_nat i) (update_senders b1)) b1))) by done.
  destruct (IH (mk_edit_state (es_tree s) (set_update_senders (delete (Z.to_nat i) (update_senders b1)) b1)) i Hd) as (b' & E); [|by exists b'].
  cbn [es_bundle update_senders set_update_senders]. rewrite Es. unfold zlen in *.
  rewrite length_delete; [lia|]. apply lookup_lt_is_Some_2. lia.
Qed.

Lemma due_indices m pos ps : Forall (fun '(_, sender) => is_Some (m !! sender)) ps -> pu_index <$> due m pos ps = ps.*2.
Proof.
  revert pos. induction ps as [|[p sender] ps IH]; intros pos Hps; [done|]. apply Forall_cons in Hps as [[l Hl] Hps].
  cbn [due]. rewrite Hl, !fmap_cons, IH by done. done.
Qed.

(** The nodes of a tree that has all leaves again. *)
Lemma pending_vec idf v0 m t : vec_inv [] v0 -> pending idf v0 [] m t -> vec_inv [] (nodes t).
Proof.
  intros Hv [H1 H2 H3 H4 H5 H6 H7].
  assert (forall i, leaf_at (nodes t) i = m !! i) as Hm by (intros i; rewrite H4; by rewrite decide_False by apply not_elem_of_nil).
  apply (vec_inv_change [] [] v0); [done|done|by intros i ?%elem_of_nil| |].
  - intros x n Hn. destruct (H2 x) as [E|(l0 & E0 & [E|[l E]])]; [left; by rewrite <- E|congruence|].
    right. apply (vi_parity _ _ Hv) in E0. split; [|done]. exists l. congruence.
  - intros i _. rewrite Hm. specialize (H6 i). destruct (m !! i), (leaf_at v0 i); try done.
    + destruct H6 as [H6 _]. by destruct (H6 (mk_is_Some _ _ eq_refl)).
    + destruct H6 as [_ H6]. by destruct (H6 (mk_is_Some _ _ eq_refl)).
Qed.

(** C39: the updates of a commit, when clashes are filtered out.  In a
    well-formed tree whose members propose updates, one each, the updates are
    applied as [replay] does on the roster of the other members: one after the
    other, each member gets its new leaf, or its old one if the new one clashes
    with the leaves already there.  If each time one of the two fits, the tree
    has these leaves, is well formed, and no member is missing.  Otherwise, from
    the first update on for which neither fits, all members with a pending
    update lose their leaves, although no proposal removes them: the call
    succeeds, all updates are dropped from the bundle, the members whose turn
    came before have their old leaves back, and the index knows only the members
    without updates. *)
Theorem batch_updates_filtered {idp : IdentityProvider} (idf : SigningIdentity -> bytes) (extensions : ExtensionList)
    (s : EditState) (Hid : forall i, identity i extensions = Ok (idf i)) (Ht : tree_ok idf (es_tree s))
    (Hlen : length (update_senders (es_bundle s)) = length (updates (es_bundle s)))
    (Hnd : NoDup (update_senders (es_bundle s)))
    (Hsend : forall i, i ∈ update_senders (es_bundle s) -> leaf_index_wf i /\ is_Some (leaf_at (nodes (es_tree s)) i)) :
  let senders := update_senders (es_bundle s) in
  let roster := leaf_map (nodes (es_tree s)) in
  let others := filter (fun il => il.1 ∉ senders) roster in
  exists updated s', batch_updates extensions true s = (Ok updated, s') /\
  match replay idf others (due roster 0 (zip (updates (es_bundle s)) senders)) with
  | (m, []) => leaf_map (nodes (es_tree s')) = m /\ tree_ok idf (es_tree s') /\ forall i, is_Some (m !! i) <-> is_Some (roster !! i)
  | (_, rest) =>
      updated = [] /\ updates (es_bundle s') = [] /\
      leaf_map (nodes (es_tree s')) = filter (fun il => il.1 ∉ pu_index <$> rest) roster /\
      exists ls, index_rep idf (index (es_tree s')) ls /\ forall i l, (i, l) ∈ ls <-> others !! i = Some l
  end.
Proof.
  intros senders roster others. pose proof (to_vec _ _ Ht) as Hv. set (ps := zip (updates (es_bundle s)) senders).
  assert (ps.*2 = senders) as Eps by (apply snd_zip; unfold senders; lia).
  assert (Forall (fun '(_, i) => leaf_index_wf i /\ is_Some (roster !! i)) ps) as Hps.
  { apply Forall_forall. intros [p i] Hin%elem_of_zip_r. unfold roster. rewrite lookup_leaf_map. by apply Hsend. }
  unfold batch_updates. rewrite (sm_bind_run get_bundle _ s (es_bundle s) s) by done. fold senders ps.
  destruct (take_updates_run idf (nodes (es_tree s)) Hv extensions Hid true ps 0 [] roster s (start_updates idf (es_tree s) Ht))
    as (t2 & E2 & Hp2); [by rewrite Eps|done|]. cbn [app] in Hp2.
  rewrite (sm_bind_run _ _ _ _ _ E2). rewrite (sm_bind_run get_tree _ _ t2 (mk_edit_state t2 (es_bundle s))) by done.
  assert (pu_index <$> due roster 0 ps = senders) as Eus.
  { rewrite due_indices; [done|]. eapply Forall_impl; [exact Hps|]. by intros [p i] []. }
  assert (leaf_map (nodes t2) = others) as Eothers.
  { apply map_eq. intros i. rewrite lookup_leaf_map, (pe_leaves _ _ _ _ _ Hp2), Eus. unfold others. symmetry.
    destruct (decide (i ∈ senders)) as [Hin|Hnin].
    - apply map_lookup_filter_None. right. intros l _ Hnot. by apply Hnot.
    - destruct (roster !! i) as [l|] eqn:El; [by apply map_lookup_filter_Some|apply map_lookup_filter_None; by left]. }
  destruct (apply_updates_filtered idf (nodes (es_tree s)) Hv extensions Hid (due roster 0 ps) (index t2) (mk_update_loop [] [] [])
    roster roster (mk_edit_state t2 (es_bundle s))) as (acc & t3 & E3 & Hres).
  { split; [done|done|by intros l i ?%elem_of_nil|by intros i ?%elem_of_nil|by left]. }
  rewrite (sm_bind_run _ _ _ _ _ E3). cbn [es_bundle es_tree] in *. rewrite Eothers in Hres. unfold ps in *.
  set (t4 := set_nodes (foldl (fun v i => blank_direct_path i v) (nodes t3) (updated_indices acc)) t3).
  rewrite (sm_bind_run _ _ _ tt (mk_edit_state t4 (es_bundle s))) by done.
  destruct (replay idf others (due roster 0 (zip (updates (es_bundle s)) senders))) as [m [|u rest]].
  - destruct Hres as (Hp3 & (bad & Ebad & Hsub) & Hupd). cbn [bad_indices app] in Ebad.
    assert (forall i, leaf_at (nodes t3) i = m !! i) as Hm.
    { intros i. rewrite (pe_leaves _ _ _ _ _ Hp3). by rewrite decide_False by apply not_elem_of_nil. }
    assert (exists b', (match updated_indices acc with [] => modify_bundle (set_updates []) | _ => drop_updates (reverse (bad_indices acc)) end)
      (mk_edit_state t4 (es_bundle s)) = (Ok tt, mk_edit_state t4 b')) as (b' & E5).
    { assert (forall s' : EditState, es_bundle s' = es_bundle s -> exists b', drop_updates (reverse (bad_indices acc)) s' = (Ok tt, mk_edit_state (es_tree s') b')) as Hdrop.
      { intros s' Es'. apply (drop_updates_run _ s' (0 + zlen ps)).
        - rewrite Ebad. unfold ps. by apply (due_positions roster).
        - rewrite Es'. fold senders. rewrite <- Eps. unfold ps, zlen. rewrite length_fmap. lia. }
      destruct (updated_indices acc); [by eexists|]. by destruct (Hdrop (mk_edit_state t4 (es_bundle s)) eq_refl) as (b' & ->); exists b'. }
    rewrite (sm_bind_run _ _ _ _ _ E5). exists (updated_indices acc), (mk_edit_state t4 b'). split; [done|]. cbn [es_tree].
    pose proof (pending_vec _ _ _ _ Hv Hp3) as Hv3.
    destruct (blank_paths (updated_indices acc) (nodes t3) Hv3) as (B1 & B2 & B3 & _).
    { apply Forall_forall. intros i Hi. rewrite Hm. apply (pe_occupied _ _ _ _ _ Hp3), Hupd, Hi. }
    assert (forall i, leaf_at (nodes t4) i = m !! i) as Hm4 by (intros i; rewrite <- Hm; apply B2).
    split; [apply map_eq; intros i; by rewrite lookup_leaf_map|]. split.
    + split; [exact B1|]. eapply index_rep_perm; [|exact (pe_index _ _ _ _ _ Hp3)]. apply members_same. intros i. by rewrite Hm4, Hm.
    + intros i. rewrite (pe_occupied _ _ _ _ _ Hp3). unfold roster. by rewrite lookup_leaf_map.
  - destruct Hres as (Eu & Ei & Hleaf). exists [], (mk_edit_state t4 (set_updates [] (es_bundle s))). rewrite Eu.
    split; [done|]. split; [done|]. split; [done|]. cbn [es_tree].
    assert (nodes t4 = nodes t3) as En by (unfold t4; by rewrite Eu). rewrite En.
    split.
    + apply map_eq. intros i. rewrite lookup_leaf_map, Hleaf. symmetry. destruct (decide (i ∈ pu_index <$> u :: rest)) as [Hin|Hnin].
      * apply map_lookup_filter_None. right. intros l _ Hnot. by apply Hnot.
      * destruct (roster !! i) as [l|] eqn:El; [by apply map_lookup_filter_Some|apply map_lookup_filter_None; by left].
    + exists (non_empty_leaves (nodes t2)). split; [change (index t4) with (index t3); rewrite Ei; exact (pe_index _ _ _ _ _ Hp2)|].
      intros i l. rewrite <- Eothers, lookup_leaf_map. apply elem_of_members.
Qed.

(** Two members propose updates to the same key, that of the second: *)
Definition stolen_key (n : Z) : LeafNode :=
  mk_leaf_node [2] (mk_signing_identity [n] (Basic [n])) (mk_capabilities [1] [1] [] [] [1]) SourceUpdate [] [].

Definition clashing_updates : ProposalBundle :=
  set_update_senders [0; 1] (bundle_from_iter
    [(PUpdate (mk_update (stolen_key 1)), SenderMember 0, ByReference [7]);
     (PUpdate (mk_update (stolen_key 2)), SenderMember 1, ByReference [8])]).

(** The first update is applied; the second member can have neither its new nor
    its old leaf, and is gone from the tree. *)
Lemma batch_updates_filtered_witness : exists s',
  batch_updates (idp := plain_provider) [] true (mk_edit_state group_of_two clashing_updates) = (Ok [], s') /\
  leaf_map (nodes group_of_two) !! 1 = Some (member_leaf 2) /\ leaf_map (nodes (es_tree s')) !! 1 = None /\
  leaf_map (nodes (es_tree s')) !! 0 = Some (member_leaf 1) /\ removals (es_bundle s') = [].
Proof.
  destruct (batch_updates_filtered (idp := plain_provider) signature_key [] (mk_edit_state group_of_two clashing_updates)
    ltac:(reflexivity) group_of_two_ok ltac:(reflexivity)) as (updated & s' & E & H1).
  - repeat constructor; set_solver.
  - intros i [->|[->|Hi%elem_of_nil]%elem_of_cons]%elem_of_cons; [..|done]; (split; [split; done|by vm_compute; eexists]).
  - assert (replay signature_key (filter (fun il => il.1 ∉ update_senders clashing_updates) (leaf_map (nodes group_of_two)))
      (due (leaf_map (nodes group_of_two)) 0 (zip (updates clashing_updates) (update_senders clashing_updates))) =
      ({[0 := stolen_key 1]}, [mk_partial_update 1 (member_leaf 2) (stolen_key 2) 1])) as Er by (vm_compute; reflexivity).
    cbn [es_bundle es_tree] in H1. rewrite Er in H1. destruct H1 as (-> & _ & Hm & _). exists s'. split; [exact E|].
    split; [vm_compute; reflexivity|]. rewrite Hm. split; [vm_compute; reflexivity|]. split; [vm_compute; reflexivity|].
    assert (removals (es_bundle (batch_updates (idp := plain_provider) [] true (mk_edit_state group_of_two clashing_updates)).2) = []) as Hr
      by (vm_compute; reflexivity). by rewrite E in Hr.
Defined.

(** The whole edit of that bundle.  In a well-formed group of two, both
    members propose updates to the key of the second.  The first is applied;
    the second can neither be applied nor reverted, so [batch_edit] with
    filtering reverts all updates and empties them from the bundle.  But the
    second member is gone from the tree, though no proposal removes it, and the
    restored index knows neither member: the tree no longer is well formed. *)
Theorem batch_edit_revert_loses_members :
  tree_ok signature_key group_of_two /\ leaf_map (nodes group_of_two) !! 1 = Some (member_leaf 2) /\
  match batch_edit (idp := plain_provider) (H := Toy.provider) [] true (mk_edit_state group_of_two clashing_updates) with
  | (Ok added, s') =>
      added = [] /\ updates (es_bundle s') = [] /\ removals (es_bundle s') = [] /\
      leaf_map (nodes (es_tree s')) !! 0 = Some (member_leaf 1) /\
      leaf_map (nodes (es_tree s')) !! 1 = None /\
      get_leaf_index_with_identity (index (es_tree s')) [1] = None /\
      ~ tree_ok signature_key (es_tree s')
  | _ => False
  end.
Proof.
  split; [exact group_of_two_ok|]. split; [vm_compute; reflexivity|].
  destruct (batch_edit _ _ _) as [r s'] eqn:E.
  assert (r = Ok [] /\ nodes (es_tree s') = [Some (NodeLeaf (member_leaf 1))] /\ identities (index (es_tree s')) = ∅ /\
    updates (es_bundle s') = [] /\ removals (es_bundle s') = []) as (-> & Hn & Hi & Hu & Hr).
  { apply (f_equal (fun x => (x.1, nodes (es_tree x.2), identities (index (es_tree x.2)), updates (es_bundle x.2),
      removals (es_bundle x.2)))) in E. vm_compute in E. by simplify_eq/=. }
  split; [done|]. split; [done|]. split; [done|]. rewrite Hn.
  split; [vm_compute; reflexivity|]. split; [vm_compute; reflexivity|].
  unfold get_leaf_index_with_identity. rewrite Hi. split; [done|]. intros [_ Hx].
  destruct (ir_id _ _ _ Hx [1] 0) as [_ H]. rewrite Hi, Hn in H. rewrite lookup_empty in H.
  by discriminate H; exists (member_leaf 1); split; [left|].
Qed.
