(* ===== verification/TreePath.v ===== *)
(** * Installing the path of a commit

    [apply_update_path] of mls-rs/src/tree_kem/mod.rs and the positions of the
    nodes of a path ([filtered] of node.rs, the end of [validate_update_path] of
    update_path.rs): the path of the sender gets the new keys, the invariant of
    the tree is preserved and the parent hashes are verified. *)

From Stdlib Require Import Sorted.
From S2P Require Import Prelude Codec Crypto TreeMath Data NodeVec TreeIndex TreeHash ParentHash TreeInv Proposals TreeKem.

#[local] Set Default Goal Selector "!".
Local Open Scope Z_scope.

(** ** Resolutions and members *)

(** A resolution is empty exactly when there are no members below. *)
Lemma resolution_members v (k : nat) j : vec_inv [] v -> 0 <= j ->
  resolution v k j <> [] <-> exists l, 0 <= l /\ Z.shiftr l (Z.of_nat k) = j /\ is_Some (leaf_at v l).
Proof.
  intros Hv Hj. split.
  - revert j Hj. induction k as [|k IH]; intros j Hj; rewrite resolution_nd.
    + change (Z.of_nat 0) with 0. rewrite node_0, (leaf_position _ _ (vi_parity _ _ Hv)).
      destruct (leaf_at v j) as [l|] eqn:E; [|done]. intros _. exists j. rewrite Z.shiftr_0_r, E. by split.
    + assert (forall b l, (b = 0 \/ b = 1) -> 0 <= l -> Z.shiftr l (Z.of_nat k) = 2 * j + b ->
        Z.shiftr l (Z.of_nat (S k)) = j) as Hup.
      { intros b l Hb Hl E. replace (Z.of_nat (S k)) with (Z.of_nat k + 1) by lia.
        rewrite <- Z.shiftr_shiftr, E by lia. rewrite Z.shiftr_div_pow2 by lia. change (2 ^ 1) with 2. divlia. }
      destruct (nd v (node (Z.of_nat (S k)) j)) as [[l|p]|] eqn:E.
      * exfalso. pose proof (vi_parity _ _ Hv _ _ E) as Ho. cbn beta iota in Ho.
        replace (Z.of_nat (S k)) with (Z.of_nat k + 1) in Ho by lia.
        rewrite node_succ, Z.odd_add, odd_double in Ho by lia. done.
      * intros _. assert (parent_at v (node (Z.of_nat (S k)) j) = Some p) as Hp by (unfold parent_at; by rewrite E).
        destruct (vi_members _ _ Hv k j p Hj Hp ltac:(by intros ? ?%elem_of_nil) 0 ltac:(by left)) as (l & H0 & Hl & Hm).
        exists l. split; [done|]. split; [|done]. by eapply (Hup 0); [left|..].
      * intros Hr. destruct (decide (resolution v k (2 * j) = [])) as [Er|Er].
        -- rewrite Er in Hr. destruct (IH (2 * j + 1) ltac:(lia) Hr) as (l & H0 & Hl & Hm).
           exists l. split; [done|]. split; [|done]. by eapply (Hup 1); [right|..].
        -- destruct (IH (2 * j) ltac:(lia) Er) as (l & H0 & Hl & Hm).
           exists l. split; [done|]. split; [|done]. eapply (Hup 0); [by left|done|]. by rewrite Hl, Z.add_0_r.
  - intros (l & H0 & <- & Hm). clear Hj. revert l H0 Hm. induction k as [|k IH]; intros l H0 [lf Hm]; rewrite resolution_nd.
    + change (Z.of_nat 0) with 0. by rewrite Z.shiftr_0_r, node_0, (leaf_position _ _ (vi_parity _ _ Hv)), Hm.
    + destruct (nd v _); [done|]. intros [E1 E2]%app_eq_nil.
      specialize (IH l H0 (ex_intro _ _ Hm)). apply IH.
      replace (Z.of_nat (S k)) with (Z.of_nat k + 1) in E1, E2 by lia. rewrite <- Z.shiftr_shiftr in E1, E2 by lia.
      rewrite !Z.shiftr_div_pow2 with (n := 1) in E1 by lia. rewrite !Z.shiftr_div_pow2 with (n := 1) in E2 by lia.
      change (2 ^ 1) with 2 in *. set (q := Z.shiftr l (Z.of_nat k)) in *.
      destruct (Z.eq_dec (q mod 2) 0) as [E|E].
      * replace q with (2 * (q `div` 2)) by divlia. done.
      * replace q with (2 * (q `div` 2) + 1) by divlia. done.
Qed.

Lemma mapM_res_total {Er A B} (f : A -> res Er B) (l : list A) :
  (forall x, x ∈ l -> exists y, f x = Ok y) -> exists ys, mapM_res f l = Ok ys /\ Forall2 (fun x y => f x = Ok y) l ys.
Proof.
  induction l as [|x l IH]; intros Hf; [by exists []|].
  destruct (Hf x ltac:(by left)) as [y Hy]. destruct IH as (ys & E & Hys); [intros z Hz; apply Hf; by right|].
  exists (y :: ys). cbn [mapM_res]. rewrite Hy, E. by split; [|constructor].
Qed.

(** The position [n] of the path of a member is filtered exactly when the
    subtree on the other side has no members. *)
Lemma filtered_spec v i l : vec_inv [] v -> leaf_at v i = Some l ->
  exists fs, filtered v i = Ok fs /\ length fs = depth v /\
    forall (n : nat) f, fs !! n = Some f <->
      (n < depth v)%nat /\ f = bool_decide (resolution v n (Z.lxor (Z.shiftr i (Z.of_nat n)) 1) = []).
Proof.
  intros Hv Hl. destruct (vec_inv_len _ _ Hv) as [_ H26].
  destruct (leaf_at_depth _ _ _ H26 Hl) as (Hi & Hd & Ecp). unfold filtered. change (direct_copath 32 (node_index i) (total_leaf_count v)) with (vec_direct_copath v i). rewrite Ecp.
  set (cps := copath_spec (Z.of_nat (depth v)) 0 i).
  assert (forall n cp, cps !! n = Some cp -> (n < depth v)%nat /\
    is_resolution_empty v (copath cp) = Ok (bool_decide (resolution v n (Z.lxor (Z.shiftr i (Z.of_nat n)) 1) = []))) as Hcps.
  { intros n cp Hn. pose proof (lookup_lt_Some _ _ _ Hn) as Hlt. unfold cps in Hlt, Hn. rewrite length_copath_spec in Hlt.
    rewrite lookup_copath_spec in Hn by lia. injection Hn as <-. split; [lia|]. cbn [copath].
    rewrite Z.add_0_l. apply is_resolution_empty_eq; [lia|].
    assert (in_tree (Z.of_nat (depth v)) (0 + Z.of_nat n) (Z.shiftr i (Z.of_nat n))) as Hin by (apply in_tree_ancestor; lia).
    pose proof (in_tree_sibling _ _ _ Hin ltac:(lia)) as [_ ?]. lia. }
  destruct (mapM_res_total (fun cp => is_resolution_empty v (copath cp)) cps) as (fs & E & Hfs).
  { intros cp [n Hn]%list_elem_of_lookup. eexists. by apply Hcps. }
  assert (length fs = depth v) as Hlen.
  { rewrite <- (Forall2_length _ _ _ Hfs). unfold cps. rewrite length_copath_spec. lia. }
  exists fs. split; [exact E|]. split; [done|]. intros n f. split.
  - intros Hf. destruct (Forall2_lookup_r _ _ _ _ _ Hfs Hf) as (cp & Hcp & Ef).
    destruct (Hcps _ _ Hcp) as [Hn E']. split; [done|]. congruence.
  - intros [Hn ->]. destruct (lookup_lt_is_Some_2 fs n ltac:(lia)) as [f Hf].
    destruct (Forall2_lookup_r _ _ _ _ _ Hfs Hf) as (cp & Hcp & Ef). destruct (Hcps _ _ Hcp) as [_ E']. congruence.
Qed.

(** ** The positions of the nodes of a path *)

Definition blank_pos {A} (n : option A) : bool := match n with None => true | Some _ => false end.

(** The unfiltered nodes are the nodes of the path, at the first positions that
    are not filtered; nothing requires that all these positions get one. *)
Lemma unfilter_spec fs : forall ns,
  match unfilter fs ns with
  | Ok vs => omap id vs = ns /\ exists rest, fs = (blank_pos <$> vs) ++ rest
  | Err e => e = WrongPathLen /\ (length (List.filter negb fs) < length ns)%nat
  | Panic => False
  end.
Proof.
  induction fs as [|[] fs IH]; intros [|n ns].
  - split; [done|by exists []].
  - split; [done|]. simpl. lia.
  - split; [done|by exists (true :: fs)].
  - cbn [unfilter]. specialize (IH (n :: ns)).
    destruct (unfilter fs (n :: ns)) as [vs|e|]; [|done|done]. destruct IH as (E & rest & ->). cbn.
    split; [done|by exists rest].
  - split; [done|by exists (false :: fs)].
  - cbn [unfilter]. specialize (IH ns). destruct (unfilter fs ns) as [vs|e|]; [|destruct IH as [-> ?]; split; [done|cbn; lia]|done].
    destruct IH as (E & rest & ->). cbn. split; [by f_equal|by exists rest].
Qed.

(** ** Installing the nodes *)

Definition old_hash (v : NodeVec) (x : Z) : ParentHash :=
  match parent_at v x with Some p => parent_hash p | None => [] end.

(** The node that the path puts in place of [x]. *)
Definition path_parent (v : NodeVec) (x : Z) (n : UpdatePathNode) : Parent :=
  mk_parent (upn_public_key n) (old_hash v x) [].

Lemma update_node_run t x k : 0 <= x < zlen (nodes t) -> (forall l, nd (nodes t) x <> Some (NodeLeaf l)) ->
  update_node k x t = (Ok tt, set_nodes (zset (nodes t) x (Some (NodeParent (mk_parent k (old_hash (nodes t) x) [])))) t).
Proof.
  intros Hx Hl. unfold update_node, zoom_nodes, sm_zoom, update_or_fill_parent, validate_index.
  pose proof (next_power_of_two_ge (zlen (nodes t))). destruct (Z.leb_spec (next_power_of_two (zlen (nodes t))) x); [lia|].
  assert (grow (nodes t) x = nodes t) as ->.
  { unfold grow. replace (Z.to_nat (x + 1 - zlen (nodes t))) with 0%nat by lia. apply app_nil_r. }
  destruct (zget_is_Some (nodes t) x Hx) as [n Hn]. rewrite Hn. unfold old_hash, parent_at.
  unfold nd in *. rewrite Hn in *. cbn in *. destruct n as [[l|p]|]; [by destruct (Hl l)|done|done].
Qed.

Lemma update_path_nodes_spec ns : forall cps t,
  NoDup (path <$> cps) ->
  (forall n cp, (Some n, cp) ∈ zip ns cps -> 0 <= path cp < zlen (nodes t) /\ forall l, nd (nodes t) (path cp) <> Some (NodeLeaf l)) ->
  exists v, update_path_nodes ns cps t = (Ok tt, set_nodes v t) /\ zlen v = zlen (nodes t) /\
    (forall n cp, (Some n, cp) ∈ zip ns cps -> nd v (path cp) = Some (NodeParent (path_parent (nodes t) (path cp) n))) /\
    (forall x, (forall n cp, (Some n, cp) ∈ zip ns cps -> x <> path cp) -> nd v x = nd (nodes t) x).
Proof.
  induction ns as [|n ns IH]; intros cps t Hnd Hok.
  { exists (nodes t). split; [by destruct t|]. split; [done|]. split; [by intros ? ? ?%elem_of_nil|done]. }
  destruct cps as [|cp cps].
  { exists (nodes t). split; [by destruct t|]. split; [done|]. split; [by intros ? ? ?%elem_of_nil|done]. }
  rewrite fmap_cons in Hnd. apply NoDup_cons in Hnd as [Hcp Hnd]. cbn [update_path_nodes zip].
  assert (forall n' cp', (n', cp') ∈ zip ns cps -> path cp' <> path cp) as Hdist.
  { intros n' cp' Hin E. apply Hcp. rewrite <- E. apply list_elem_of_fmap_2. by eapply elem_of_zip_r. }
  destruct n as [n|].
  - destruct (Hok n cp ltac:(by left)) as [Hx Hl]. erewrite sm_bind_run by (by apply update_node_run).
    set (v1 := zset (nodes t) (path cp) (Some (NodeParent (mk_parent (upn_public_key n) (old_hash (nodes t) (path cp)) [])))).
    destruct (IH cps (set_nodes v1 t) Hnd) as (v & Hrun & Hz & H1 & H2).
    { intros n' cp' Hin. cbn [set_nodes nodes]. unfold v1. rewrite zlen_zset.
      rewrite nd_zset_ne by (intros E; by eapply Hdist). apply (Hok n' cp'). by right. }
    cbn [set_nodes nodes] in *. exists v. split; [exact Hrun|]. split; [rewrite Hz; apply zlen_zset|]. split.
    + intros n' cp' [E|Hin]%elem_of_cons.
      * injection E as -> ->. rewrite H2 by (intros ? ? Hin' E'; eapply Hdist; [exact Hin'|by symmetry]). unfold v1. by rewrite nd_zset_eq.
      * rewrite (H1 n' cp' Hin). unfold path_parent, old_hash, parent_at, v1.
        by rewrite nd_zset_ne by (intros E; by eapply Hdist).
    + intros x Hne. rewrite H2; [|intros n' cp' Hin; eapply Hne; by right]. unfold v1.
      apply nd_zset_ne. intros E. by eapply (Hne n cp); [left|].
  - erewrite sm_bind_run by reflexivity.
    destruct (IH cps t Hnd) as (v & Hrun & Hz & H1 & H2).
    { intros n' cp' Hin. apply (Hok n' cp'). by right. }
    exists v. split; [done|]. split; [done|]. split.
    + intros n' cp' [E|Hin]%elem_of_cons; [done|by apply H1].
    + intros x Hne. apply H2. intros n' cp' Hin. eapply Hne. by right.
Qed.

(** ** The update path of a member *)

Section install.
Context (idf : SigningIdentity -> bytes) (t : TreeKemPublic) (i : Z) (old new : LeafNode) (ns : list (option UpdatePathNode)).
Context (Hv : vec_inv [] (nodes t)) (Hold : leaf_at (nodes t) i = Some old)
  (Hfull : filtered (nodes t) i = Ok (blank_pos <$> ns)).

Notation v1 := (zset (nodes t) (2 * i) (Some (NodeLeaf new))).

Lemma path_positions : length ns = depth (nodes t) /\
  vec_direct_copath (nodes t) i = copath_spec (Z.of_nat (depth (nodes t))) 0 i /\
  (forall (m : nat) n cp, ns !! m = Some n -> vec_direct_copath (nodes t) i !! m = Some cp ->
    path cp = node (Z.of_nat (S m)) (Z.shiftr i (Z.of_nat (S m))) /\
    copath cp = node (Z.of_nat m) (Z.lxor (Z.shiftr i (Z.of_nat m)) 1) /\
    0 <= Z.lxor (Z.shiftr i (Z.of_nat m)) 1 /\
    blank_pos n = bool_decide (resolution (nodes t) m (Z.lxor (Z.shiftr i (Z.of_nat m)) 1) = [])).
Proof using Type*.
  destruct (vec_inv_len _ _ Hv) as [_ H26]. destruct (leaf_at_depth _ _ _ H26 Hold) as (Hi & Hd & Ecp).
  destruct (filtered_spec _ _ _ Hv Hold) as (fs & E & Hlen & Hfs). rewrite Hfull in E. injection E as <-.
  rewrite length_fmap in Hlen. split; [done|]. split; [done|]. intros m n cp Hn Hcp. rewrite Ecp in Hcp.
  pose proof (lookup_lt_Some _ _ _ Hn) as Hlt. rewrite lookup_copath_spec in Hcp by lia. injection Hcp as <-.
  cbn [path copath]. replace (Z.of_nat (S m)) with (0 + Z.of_nat m + 1) by lia.
  replace (Z.of_nat m + 1) with (0 + Z.of_nat m + 1) by lia. rewrite Z.add_0_l. split; [done|]. split; [done|]. split.
  - assert (in_tree (Z.of_nat (depth (nodes t))) (0 + Z.of_nat m) (Z.shiftr i (Z.of_nat m))) as Hin by (apply in_tree_ancestor; lia).
    pose proof (in_tree_sibling _ _ _ Hin ltac:(lia)) as [_ ?]. lia.
  - apply (Hfs m (blank_pos n)). rewrite list_lookup_fmap, Hn. done.
Qed.

(** A position of the path that gets a node has members on both sides. *)
Lemma path_position_members (m : nat) n cp : ns !! m = Some (Some n) -> vec_direct_copath (nodes t) i !! m = Some cp ->
  path cp = node (Z.of_nat (S m)) (Z.shiftr i (Z.of_nat (S m))) /\ 0 <= path cp < zlen (nodes t) /\
  forall b, b = 0 \/ b = 1 -> exists l, 0 <= l /\ Z.shiftr l (Z.of_nat m) = 2 * Z.shiftr i (Z.of_nat (S m)) + b /\
    is_Some (leaf_at (nodes t) l).
Proof using Type*.
  intros Hn Hcp. destruct path_positions as (_ & _ & Hpos). destruct (Hpos m _ cp Hn Hcp) as (E & _ & H0 & Hb).
  destruct (vec_inv_len _ _ Hv) as [_ H26]. destruct (leaf_at_bound _ _ _ H26 Hold) as [Hi _].
  symmetry in Hb. apply bool_decide_eq_false in Hb. apply (resolution_members _ m _ Hv H0) in Hb as (l & Hl & El & Hm).
  split; [done|].
  set (q := Z.shiftr i (Z.of_nat m)) in *.
  assert (0 <= q) as Hq by (apply Z.shiftr_nonneg; lia).
  assert (Z.shiftr i (Z.of_nat (S m)) = q `div` 2) as Eq.
  { replace (Z.of_nat (S m)) with (Z.of_nat m + 1) by lia. rewrite <- Z.shiftr_shiftr by lia.
    by rewrite Z.shiftr_div_pow2 with (n := 1) by lia. }
  assert (Z.lxor q 1 = 2 * (q `div` 2) + (1 - q mod 2)) as Ex.
  { assert (Z.lxor q 1 `div` 2 = q `div` 2 /\ Z.odd (Z.lxor q 1) = negb (Z.odd q)) as [E1 E2].
    { split.
      - rewrite <- !Z.div2_div, !Z.div2_spec, Z.shiftr_lxor. change (Z.shiftr 1 1) with 0. by rewrite Z.lxor_0_r.
      - rewrite <- !Z.bit0_odd, Z.lxor_spec. change (Z.testbit 1 0) with true. by destruct (Z.testbit q 0). }
    rewrite (Z.div_mod (Z.lxor q 1) 2), E1 by lia. rewrite !Zmod_odd, E2. destruct (Z.odd q); simpl; lia. }
  assert (forall b, b = 0 \/ b = 1 -> exists l, 0 <= l /\ Z.shiftr l (Z.of_nat m) = 2 * (q `div` 2) + b /\
    is_Some (leaf_at (nodes t) l)) as Hboth.
  { intros b Hbb. destruct (Z.eq_dec b (q mod 2)) as [->|Hne].
    - exists i. split; [lia|]. split; [fold q; divlia|by rewrite Hold].
    - exists l. split; [done|]. split; [rewrite El, Ex; divlia|done]. }
  rewrite Eq in *. split; [|done]. rewrite E.
  destruct (Hboth 1 ltac:(by right)) as (l1 & H1 & E1 & [lf Hlf]).
  apply leaf_right in E1; [|divlia|done]. apply nd_leaf_at, nd_bound in Hlf.
  pose proof (node_nonneg (Z.of_nat (S m)) (q `div` 2) ltac:(lia) ltac:(divlia)). lia.
Qed.

(** The nodes with the new leaf and path. *)
Definition installed (v : NodeVec) : Prop :=
  zlen v = zlen (nodes t) /\ nd v (2 * i) = Some (NodeLeaf new) /\
  (forall n cp, (Some n, cp) ∈ zip ns (vec_direct_copath (nodes t) i) ->
     nd v (path cp) = Some (NodeParent (path_parent (nodes t) (path cp) n))) /\
  (forall x, x <> 2 * i -> (forall n cp, (Some n, cp) ∈ zip ns (vec_direct_copath (nodes t) i) -> x <> path cp) ->
     nd v x = nd (nodes t) x).

Lemma zip_lookup_inv n cp : (n, cp) ∈ zip ns (vec_direct_copath (nodes t) i) ->
  exists m : nat, ns !! m = Some n /\ vec_direct_copath (nodes t) i !! m = Some cp.
Proof using Type. intros (m & Hm)%list_elem_of_lookup. exists m. by apply lookup_zip_Some in Hm as [? ?]. Qed.

Lemma install_nodes x' : exists v,
  update_path_nodes ns (vec_direct_copath v1 i) (mk_tree_kem_public x' v1 (tree_hashes t)) =
    (Ok tt, mk_tree_kem_public x' v (tree_hashes t)) /\ installed v.
Proof using Type*.
  destruct (vec_inv_len _ _ Hv) as [_ H26]. destruct (leaf_at_bound _ _ _ H26 Hold) as [Hi Hb].
  destruct path_positions as (Hlen & Ecp & _).
  assert (vec_direct_copath v1 i = vec_direct_copath (nodes t) i) as ->.
  { unfold vec_direct_copath, total_leaf_count. by rewrite zlen_zset. }
  assert (forall n cp, (Some n, cp) ∈ zip ns (vec_direct_copath (nodes t) i) ->
    0 <= path cp < zlen (nodes t) /\ Z.odd (path cp) = true) as Hpath.
  { intros n cp (m & Hn & Hcp)%zip_lookup_inv. destruct (path_position_members m n cp Hn Hcp) as (E & ? & _).
    split; [done|]. rewrite E. replace (Z.of_nat (S m)) with (Z.of_nat m + 1) by lia.
    by rewrite node_succ, Z.odd_add, odd_double by lia. }
  assert (forall n cp, (Some n, cp) ∈ zip ns (vec_direct_copath (nodes t) i) -> path cp <> 2 * i) as Hne.
  { intros n cp Hin E. destruct (Hpath n cp Hin) as [_ Ho]. by rewrite E, odd_double in Ho. }
  destruct (update_path_nodes_spec ns (vec_direct_copath (nodes t) i) (mk_tree_kem_public x' v1 (tree_hashes t)))
    as (v & Hrun & Hz & H1 & H2).
  - rewrite Ecp. apply copath_spec_NoDup; [|lia]. by destruct (total_leaf_count_depth _ H26).
  - intros n cp Hin. cbn [nodes]. rewrite zlen_zset. destruct (Hpath n cp Hin) as [Hx Ho]. split; [done|].
    intros l Hl. rewrite nd_zset_ne in Hl by (intros E; by eapply Hne). apply (vi_parity _ _ Hv) in Hl. by rewrite Ho in Hl.
  - cbn [nodes] in *. exists v. split; [exact Hrun|]. split; [by rewrite Hz, zlen_zset|]. split; [|split].
    + rewrite H2; [apply nd_zset_eq; lia|]. intros n cp Hin E. by eapply Hne.
    + intros n cp Hin. rewrite (H1 n cp Hin). unfold path_parent, old_hash, parent_at.
      by rewrite nd_zset_ne by (intros E; by eapply Hne).
    + intros x Hx Hp. rewrite H2 by done. apply nd_zset_ne. congruence.
Qed.
End install.

Lemma path_or_not {A} (l : list (option A * CopathNode)) x :
  (exists n cp, (Some n, cp) ∈ l /\ x = path cp) \/ (forall n cp, (Some n, cp) ∈ l -> x <> path cp).
Proof.
  induction l as [|[n cp] l [(n' & cp' & Hin & ->)|IH]]; [right; by intros ? ? ?%elem_of_nil|left; exists n', cp'; split; [by right|done]|].
  destruct n as [n|]; [destruct (decide (x = path cp)) as [->|Hne]; [left; exists n, cp; split; [by left|done]|]|];
    right; intros n' cp' [E|Hin]%elem_of_cons; try done; try (by eapply IH).
  by injection E as -> ->.
Qed.

Section installed.
Context (idf : SigningIdentity -> bytes) (t : TreeKemPublic) (i : Z) (old new : LeafNode) (ns : list (option UpdatePathNode)).
Context (Hv : vec_inv [] (nodes t)) (Hold : leaf_at (nodes t) i = Some old)
  (Hfull : filtered (nodes t) i = Ok (blank_pos <$> ns)) (v : NodeVec) (Hinst : installed t i new ns v).

Lemma installed_cases x : (x = 2 * i /\ nd v x = Some (NodeLeaf new)) \/
  (exists (m : nat) n cp, ns !! m = Some (Some n) /\ vec_direct_copath (nodes t) i !! m = Some cp /\
     x = path cp /\ nd v x = Some (NodeParent (path_parent (nodes t) x n)) /\ Z.odd x = true) \/
  nd v x = nd (nodes t) x.
Proof using Type*.
  destruct Hinst as (Hz & Hl & Hp & Ho). destruct (decide (x = 2 * i)) as [->|Hne]; [by left|right].
  destruct (path_or_not (zip ns (vec_direct_copath (nodes t) i)) x) as [(n & cp & Hin & ->)|Hnot]; [left|right; by apply Ho].
  destruct (zip_lookup_inv t i ns _ _ Hin) as (m & Hn & Hcp). exists m, n, cp. split; [done|]. split; [done|]. split; [done|].
  split; [by apply Hp|]. destruct (path_position_members t i old ns Hv Hold Hfull m n cp Hn Hcp) as (-> & _).
  replace (Z.of_nat (S m)) with (Z.of_nat m + 1) by lia. by rewrite node_succ, Z.odd_add, odd_double by lia.
Qed.

Lemma installed_leaf i' : leaf_at v i' = if decide (i' = i) then Some new else leaf_at (nodes t) i'.
Proof using Type*.
  destruct (decide (i' = i)) as [->|Hne].
  - destruct Hinst as (_ & Hl & _). unfold leaf_at. by rewrite Hl.
  - unfold leaf_at. destruct (installed_cases (2 * i')) as [[E _]|[(m & n & cp & _ & _ & _ & _ & Ho)| ->]]; [lia| |done].
    by rewrite odd_double in Ho.
Qed.

Lemma installed_occupied i' : is_Some (leaf_at v i') <-> is_Some (leaf_at (nodes t) i').
Proof using Type*.
  rewrite installed_leaf. destruct (decide (i' = i)) as [->|]; [|done]. rewrite Hold. split; intros; by eexists.
Qed.

Lemma installed_parent x p : parent_at v x = Some p ->
  (exists (m : nat) n cp, ns !! m = Some (Some n) /\ vec_direct_copath (nodes t) i !! m = Some cp /\
     x = path cp /\ p = path_parent (nodes t) x n) \/ parent_at (nodes t) x = Some p.
Proof using Type*.
  intros Hp%nd_parent_at. destruct (installed_cases x) as [[_ E]|[(m & n & cp & Hn & Hcp & Ex & E & _)|E]].
  - congruence.
  - left. exists m, n, cp. rewrite E in Hp. by injection Hp as <-.
  - right. unfold parent_at. by rewrite <- E, Hp.
Qed.

Lemma installed_inv : vec_inv [] v.
Proof using Type*.
  destruct Hinst as (Hz & _). split.
  - destruct (vi_shape _ _ Hv) as [Ho Hlen]. split; rewrite Hz; [|done]. destruct Ho as [E|]; [|by right].
    apply nd_leaf_at, nd_bound in Hold. rewrite E in Hold. change (zlen []) with 0 in Hold. lia.
  - intros x n Hn. destruct (installed_cases x) as [[-> E]|[(m & n' & cp & _ & _ & _ & E & Ho)|E]].
    + rewrite E in Hn. injection Hn as <-. apply odd_double.
    + rewrite E in Hn. by injection Hn as <-.
    + rewrite E in Hn. by apply (vi_parity _ _ Hv).
  - intros k j p Hj Hp _. destruct (installed_parent _ _ Hp) as [(m & n & cp & _ & _ & _ & ->)|Hp'].
    + split; [constructor|]. by intros l ?%elem_of_nil.
    + eapply unmerged_ok_change; [|by apply (vi_unmerged _ _ Hv k j p Hj Hp'); intros ? ?%elem_of_nil].
      intros l _ _. rewrite !eq_None_not_Some. by rewrite installed_occupied.
  - intros k j p Hj Hp _ b Hb. destruct (installed_parent _ _ Hp) as [(m & n & cp & Hn & Hcp & Ex & _)|Hp'].
    + destruct (path_position_members t i old ns Hv Hold Hfull m n cp Hn Hcp) as (E & _ & Hmem).
      rewrite <- Ex in E. destruct (vec_inv_len _ _ Hv) as [_ H26]. destruct (leaf_at_bound _ _ _ H26 Hold) as [Hi _].
      apply node_inj in E as [Ek Ej]; [|lia|done|lia|apply Z.shiftr_nonneg; lia].
      apply Nat2Z.inj in Ek. injection Ek as ->. destruct (Hmem b Hb) as (l & H0 & El & Hm).
      exists l. split; [done|]. split; [by rewrite Ej|]. by apply installed_occupied.
    + destruct (vi_members _ _ Hv k j p Hj Hp' ltac:(by intros ? ?%elem_of_nil) b Hb) as (l & H0 & El & Hm).
      exists l. split; [done|]. split; [done|]. by apply installed_occupied.
Qed.

Lemma installed_change : path_change i (nodes t) v.
Proof using Type*.
  destruct (vec_inv_len _ _ Hv) as [_ H26]. destruct (leaf_at_bound _ _ _ H26 Hold) as [Hi _].
  intros k j Hj Hne. destruct (installed_cases (node (Z.of_nat k) j)) as [[E _]|[(m & n & cp & Hn & Hcp & E & _)|E]]; [| |done].
  - rewrite <- node_0 in E. change 0 with (Z.of_nat 0) in E. apply node_inj in E as [Ek ->]; [|lia..].
    apply Nat2Z.inj in Ek as ->. by rewrite Z.shiftr_0_r.
  - destruct (path_position_members t i old ns Hv Hold Hfull m n cp Hn Hcp) as (E' & _). rewrite E' in E.
    apply node_inj in E as [Ek ->]; [|lia|done|lia|apply Z.shiftr_nonneg; lia]. by rewrite Ek.
Qed.

(** The occupied nodes of the path of [i] are those that got a node. *)
Lemma installed_live cp : cp ∈ live v (vec_direct_copath v i) -> is_Some (parent_at v (path cp)).
Proof using Type*.
  destruct (path_positions t i old ns Hv Hold Hfull) as (Hlen & Ecp & Hpos). destruct Hinst as (Hz & _ & Hnew & _).
  assert (vec_direct_copath v i = vec_direct_copath (nodes t) i) as ->.
  { unfold vec_direct_copath, total_leaf_count. by rewrite Hz. }
  unfold live. intros [Hin%list_elem_of_In Hb]%list_elem_of_In%filter_In.
  apply list_elem_of_lookup in Hin as [m Hcp]. pose proof (lookup_lt_Some _ _ _ Hcp) as Hlt.
  rewrite Ecp, length_copath_spec in Hlt. destruct (lookup_lt_is_Some_2 ns m ltac:(lia)) as [n Hn].
  destruct (Hpos m n cp Hn Hcp) as (E & Ec & H0 & Hbl). rewrite Ec in Hb.
  destruct (vec_inv_len _ _ Hv) as [_ H26]. destruct (total_leaf_count_depth _ H26) as [_ Hd].
  rewrite is_resolution_empty_eq in Hb by (done || lia).
  destruct (decide (resolution v m (Z.lxor (Z.shiftr i (Z.of_nat m)) 1) = [])) as [Er|Er].
  { by rewrite bool_decide_eq_true_2 in Hb. }
  apply (resolution_members v m _ installed_inv H0) in Er as (l & Hl0 & El & Hm). apply installed_occupied in Hm.
  assert (resolution (nodes t) m (Z.lxor (Z.shiftr i (Z.of_nat m)) 1) <> []) as Hr.
  { apply resolution_members; [done|done|]. by exists l. }
  rewrite bool_decide_eq_false_2 in Hbl by done. destruct n as [n|]; [|done].
  assert ((Some n, cp) ∈ zip ns (vec_direct_copath (nodes t) i)) as Hz'.
  { apply list_elem_of_lookup. exists m. by apply lookup_zip_Some. }
  unfold parent_at. rewrite (Hnew n cp Hz'). by eexists.
Qed.

Lemma installed_encodable : tree_encodable (nodes t) -> encodable leaf_node_codec new ->
  (forall n, Some n ∈ ns -> zlen (upn_public_key n) <= varint_max) -> tree_encodable v.
Proof using Type*.
  intros [H1 H2] Hn Hk. split.
  - intros i' l Hl. rewrite installed_leaf in Hl. destruct (decide (i' = i)); [by simplify_eq|by eapply H1].
  - intros x p Hp. destruct (installed_parent _ _ Hp) as [(m & n & cp & Hm & _ & _ & ->)|Hp']; [|by eapply H2].
    apply encodable_parent. cbn [path_parent parent_public_key parent_hash unmerged_leaves].
    split; [apply Hk; by eapply list_elem_of_lookup_2|]. split; [|by apply encodable_unmerged].
    unfold old_hash. destruct (parent_at (nodes t) x) as [p|] eqn:E; [|done]. apply H2, encodable_parent in E. tauto.
Qed.
End installed.

(** The invariant does not depend on the parent hashes. *)
Lemma vec_inv_shape v v' : vec_inv [] v -> (forall x, node_shape (nd v x) (nd v' x)) -> zlen v' = zlen v -> vec_inv [] v'.
Proof.
  intros Hv Hs Hz.
  assert (forall i, leaf_at v' i = leaf_at v i) as Hl.
  { intros i. unfold leaf_at. by destruct (Hs (2 * i)) as [->|(q & h & _ & -> & ->)]. }
  assert (forall x p', parent_at v' x = Some p' -> exists p, parent_at v x = Some p /\ unmerged_leaves p' = unmerged_leaves p) as Hp.
  { intros x p'. unfold parent_at. destruct (Hs x) as [->|(q & h & _ & -> & ->)]; [by exists p'|].
    intros [= <-]. by exists q. }
  split.
  - destruct (vi_shape _ _ Hv) as [Ho Hlen]. split; rewrite Hz; [|done]. destruct Ho as [->|]; [left|by right].
    destruct v'; [done|]. change (zlen []) with 0 in Hz. unfold zlen in Hz. simpl in Hz. lia.
  - intros x n Hn. destruct (Hs x) as [E|(q & h & _ & E & E')].
    + rewrite <- E in Hn. by apply (vi_parity _ _ Hv).
    + rewrite E' in Hn. injection Hn as <-. by apply (vi_parity _ _ Hv) in E.
  - intros k j p' Hj Hp' _. destruct (Hp _ _ Hp') as (p & Hpp & ->).
    eapply unmerged_ok_change; [by intros; rewrite Hl|]. apply (vi_unmerged _ _ Hv k j p Hj Hpp). by intros ? ?%elem_of_nil.
  - intros k j p' Hj Hp' _ b Hb. destruct (Hp _ _ Hp') as (p & Hpp & _).
    destruct (vi_members _ _ Hv k j p Hj Hpp ltac:(by intros ? ?%elem_of_nil) b Hb) as (l & ? & ? & ?).
    exists l. by rewrite Hl.
Qed.

Section index_step.
Context {idp : IdentityProvider} (idf : SigningIdentity -> bytes) (extensions : ExtensionList)
  (Hid : forall s, identity s extensions = Ok (idf s)).

(** The index when the leaf [old] of [i] is replaced by [new]. *)
Definition reindex (i : Z) (old new : LeafNode) (t : TreeKemPublic) : res MlsError unit * TreeIndex :=
  index_insert new i extensions (tree_index_remove old (idf (signing_identity old)) (index t)).

Lemma reindex_spec i old new t v : tree_ok idf t -> leaf_at (nodes t) i = Some old ->
  (forall i', leaf_at v i' = if decide (i' = i) then Some new else leaf_at (nodes t) i') ->
  match reindex i old new t with
  | (Ok _, x) => index_rep idf x (non_empty_leaves v) /\
      (forall i' l, i' <> i -> leaf_at (nodes t) i' = Some l -> compatible idf new l)
  | (Err _, _) => ~ (forall i' l, i' <> i -> leaf_at (nodes t) i' = Some l -> compatible idf new l)
  | (Panic, _) => False
  end.
Proof using Hid.
  intros Ht Hold Hleaf. pose proof (members_small _ _ Ht) as Hlen. set (v0 := zset (nodes t) (2 * i) None).
  assert (forall i', leaf_at v0 i' = if decide (i' = i) then None else leaf_at (nodes t) i') as H0.
  { intros i'. unfold v0. rewrite leaf_at_zset; [done|]. by apply is_Some_leaf in Hold. }
  assert (leaf_at v0 i = None) as Hnone by (rewrite H0; by destruct (decide (i = i))).
  pose proof (index_rep_removed idf t i old Ht Hold v0 H0) as Hrep.
  assert (zlen (non_empty_leaves v0) + 1 < 2 ^ 32) as Hlen0.
  { assert ((i, old) :: non_empty_leaves v0 ≡ₚ non_empty_leaves (nodes t)) as Hp.
    { apply members_add; [done|done|]. intros i' Hne. rewrite H0. by destruct (decide (i' = i)). }
    rewrite <- Hp in Hlen. unfold zlen in *. cbn [length] in Hlen. lia. }
  pose proof (index_insert_members idf extensions Hid _ _ i new Hrep (members_fresh _ _ Hnone) Hlen0) as Hins.
  assert ((forall i' l, (i', l) ∈ non_empty_leaves v0 -> compatible idf new l) <->
    (forall i' l, i' <> i -> leaf_at (nodes t) i' = Some l -> compatible idf new l)) as Hc.
  { split; intros Hall i' l.
    - intros Hne Hl. apply (Hall i'). apply elem_of_members. rewrite H0. by destruct (decide (i' = i)).
    - rewrite elem_of_members, H0. destruct (decide (i' = i)); [done|]. by apply Hall. }
  unfold reindex. destruct (index_insert new i extensions _) as [[[]|e|] x]; [| |done].
  - destruct Hins as [Hx Hcomp]. split; [|by apply Hc]. eapply index_rep_perm; [|exact Hx].
    apply members_add; [done|rewrite Hleaf; by destruct (decide (i = i))|].
    intros i' Hne. rewrite Hleaf, H0. by destruct (decide (i' = i)).
  - destruct Hins as [_ Hn]. by rewrite <- Hc.
Qed.
End index_step.

(** The run of [apply_update_path]. *)
Lemma apply_update_path_spec {idp : IdentityProvider} `{CipherSuiteProvider, !HashLaws}
    (idf : SigningIdentity -> bytes) (extensions : ExtensionList) (t : TreeKemPublic)
    (sender : Z) (old : LeafNode) (p : ValidatedUpdatePath)
    (Hid : forall s, identity s extensions = Ok (idf s))
    (Ht : tree_ok idf t) (Henc : tree_encodable (nodes t)) (Hcur : hashes_current (nodes t) (tree_hashes t))
    (Hold : leaf_at (nodes t) sender = Some old)
    (Hfull : filtered (nodes t) sender = Ok (blank_pos <$> vup_nodes p))
    (Hleaf : encodable leaf_node_codec (vup_leaf_node p))
    (Hkeys : forall n, Some n ∈ vup_nodes p -> zlen (upn_public_key n) <= varint_max) :
  exists v h t0, installed t sender (vup_leaf_node p) (vup_nodes p) v /\
  let new := vup_leaf_node p in
  update_parent_hashes sender false (mk_tree_kem_public (reindex idf extensions sender old new t).2 v (tree_hashes t)) = (Ok tt, t0) /\
  leaf_at (nodes t0) sender = Some (set_leaf_node_source (SourceCommit h) new) /\
  match apply_update_path sender p extensions t with
  | (Ok _, t') =>
      leaf_node_source new = SourceCommit h /\
      (forall i l, i <> sender -> leaf_at (nodes t) i = Some l -> compatible idf new l) /\
      tree_ok idf t' /\ leaf_map (nodes t') = <[sender := new]> (leaf_map (nodes t)) /\
      linked (nodes t') (tree_hashes t') h (live v (vec_direct_copath v sender)) /\
      (forall x, node_shape (nd v x) (nd (nodes t') x)) /\
      hashes_current (nodes t') (tree_hashes t') /\ zlen (nodes t') = zlen v /\
      (forall x, x ∉ path <$> live v (vec_direct_copath v sender) -> nd (nodes t') x = nd v x) /\
      sized (depth v) (tree_hashes t')
  | (Err _, _) => leaf_node_source new <> SourceCommit h \/
      ~ (forall i l, i <> sender -> leaf_at (nodes t) i = Some l -> compatible idf new l)
  | (Panic, _) => False
  end.
Proof.
  pose proof Ht as [Hv Hx]. destruct (vec_inv_len _ _ Hv) as [H25 H26].
  destruct (leaf_at_bound _ _ _ H26 Hold) as [Hi Hb].
  set (new := vup_leaf_node p) in *. set (x := (reindex idf extensions sender old new t).2).
  destruct (install_nodes t sender old new (vup_nodes p) Hv Hold Hfull (index t)) as (v & Hrun & Hinst).
  pose proof (installed_inv t sender old new (vup_nodes p) Hv Hold Hfull v Hinst) as Hv'.
  pose proof (installed_leaf t sender old new (vup_nodes p) Hv Hold Hfull v Hinst) as Hleaf'.
  pose proof (installed_encodable t sender old new (vup_nodes p) Hv Hold Hfull v Hinst Henc Hleaf Hkeys) as Henc'.
  assert (leaf_at v sender = Some new) as Hnew by (rewrite Hleaf'; by destruct (decide (sender = sender))).
  destruct (vec_inv_len _ _ Hv') as [_ H26'].
  destruct (update_parent_hashes_spec (nodes t) (mk_tree_kem_public x v (tree_hashes t)) sender new H26' Hnew Henc' Hcur
    (installed_change t sender old new (vup_nodes p) Hv Hold Hfull v Hinst)
    (installed_live t sender old new (vup_nodes p) Hv Hold Hfull v Hinst)) as (h & (t0 & Ht0 & _ & Hl0) & Hver).
  exists v, h, t0. split; [done|]. split; [exact Ht0|]. split; [exact Hl0|].
  assert (apply_update_path sender p extensions t =
    match reindex idf extensions sender old new t with
    | (Ok _, x) => update_parent_hashes sender true (mk_tree_kem_public x v (tree_hashes t))
    | (Err e, x) => (Err e, mk_tree_kem_public x v (tree_hashes t))
    | (Panic, x) => (Panic, mk_tree_kem_public x v (tree_hashes t))
    end) as ->.
  { unfold apply_update_path. rewrite sm_get_run.
    assert (borrow_as_leaf_mut (nodes t) sender = Ok old) as Hbor.
    { apply borrow_as_leaf_mut_eq; [done|]. change (2 ^ 25) with 33554432 in H25. change (2 ^ 31) with 2147483648. lia. }
    erewrite sm_lift_run by exact Hbor. erewrite sm_lift_run by exact (leaf_identity_eq idf extensions Hid old).
    rewrite (sm_bind_run _ _ t tt (mk_tree_kem_public (index t) (zset (nodes t) (2 * sender) (Some (NodeLeaf new))) (tree_hashes t))).
    2: { unfold zoom_nodes, sm_zoom, update_leaf. rewrite Hbor, node_index_eq; [done|].
      change (2 ^ 25) with 33554432 in H25. change (2 ^ 31) with 2147483648. lia. }
    rewrite sm_get_run. erewrite sm_bind_run by exact Hrun. erewrite sm_bind_run by reflexivity.
    unfold zoom_index, sm_zoom. unfold mbind at 1, sm_bind at 1. cbn [set_index index nodes tree_hashes].
    unfold reindex. by destruct (index_insert _ _ _ _) as [[[]|e|] x']. }
  pose proof (reindex_spec idf extensions Hid sender old new t v Ht Hold Hleaf') as Hre.
  destruct (reindex idf extensions sender old new t) as [[[]|e|] x'] eqn:Ex; [|by right|done].
  change x with x' in Hver. destruct Hre as [Hrep Hcomp].
  destruct (leaf_node_source new) as [| |h'] eqn:Es; [destruct Hver as [t' ->]; by left..|].
  destruct (decide (h' = h)) as [->|Hne]; [|destruct Hver as [t' ->]; left; congruence].
  destruct Hver as (t' & -> & (Hlink & Hc & Hix & Hz & Hsh & Hoff & Hsz) & Hl'). cbn [index nodes] in Hix, Hz, Hsh.
  assert (forall y, node_shape (nd v y) (nd (nodes t') y)) as Hshape.
  { intros y. destruct (decide (y = 2 * sender)) as [->|]; [|by apply Hsh].
    apply nd_leaf_at in Hl', Hnew. rewrite Hl', Hnew. by left. }
  assert (forall i, leaf_at (nodes t') i = leaf_at v i) as Hleaf2.
  { intros i. unfold leaf_at. by destruct (Hshape (2 * i)) as [->|(q & q' & _ & -> & ->)]. }
  split; [done|]. split; [done|]. split; [|split; [|split_and!; try done]].
  3: { intros y Hy. cbn [nodes] in Hoff. destruct (decide (y = 2 * sender)) as [->|]; [|by apply Hoff].
    apply nd_leaf_at in Hl', Hnew. by rewrite Hl', Hnew. }
  - split; [|rewrite Hix; eapply index_rep_perm; [by apply members_same|exact Hrep]]. by apply vec_inv_shape with v.
  - apply map_eq. intros i. rewrite lookup_leaf_map, Hleaf2, Hleaf'. destruct (decide (i = sender)) as [->|Hne].
    + by rewrite lookup_insert_eq.
    + by rewrite lookup_insert_ne, lookup_leaf_map.
Qed.

(** C16: installing the path of a commit.  On a well-formed tree with current
    hashes, let the path have a node exactly where the direct path of the
    sender is not filtered.  [apply_update_path] does not panic.  It succeeds
    exactly when the new leaf clashes with no other member and carries the
    parent hash [h] that links the installed path up to the root.  Then the
    sender has the new leaf, the nodes of the path have the new keys and no
    unmerged leaves, no node off the path changed but for parent hashes, the tree is well
    formed again and its hashes are current. *)
Theorem apply_update_path_correct {idp : IdentityProvider} `{CipherSuiteProvider, !HashLaws}
    (idf : SigningIdentity -> bytes) (extensions : ExtensionList) (t : TreeKemPublic)
    (sender : Z) (old : LeafNode) (p : ValidatedUpdatePath)
    (Hid : forall s, identity s extensions = Ok (idf s))
    (Ht : tree_ok idf t) (Henc : tree_encodable (nodes t)) (Hcur : hashes_current (nodes t) (tree_hashes t))
    (Hold : leaf_at (nodes t) sender = Some old)
    (Hfull : filtered (nodes t) sender = Ok (blank_pos <$> vup_nodes p))
    (Hleaf : encodable leaf_node_codec (vup_leaf_node p))
    (Hkeys : forall n, Some n ∈ vup_nodes p -> zlen (upn_public_key n) <= varint_max) :
  exists v h t0, installed t sender (vup_leaf_node p) (vup_nodes p) v /\
  let new := vup_leaf_node p in
  update_parent_hashes sender false (mk_tree_kem_public (reindex idf extensions sender old new t).2 v (tree_hashes t)) = (Ok tt, t0) /\
  leaf_at (nodes t0) sender = Some (set_leaf_node_source (SourceCommit h) new) /\
  match apply_update_path sender p extensions t with
  | (Ok _, t') =>
      leaf_node_source new = SourceCommit h /\
      (forall i l, i <> sender -> leaf_at (nodes t) i = Some l -> compatible idf new l) /\
      tree_ok idf t' /\ leaf_map (nodes t') = <[sender := new]> (leaf_map (nodes t)) /\
      linked (nodes t') (tree_hashes t') h (live v (vec_direct_copath v sender)) /\
      (forall x, node_shape (nd v x) (nd (nodes t') x)) /\
      hashes_current (nodes t') (tree_hashes t')
  | (Err _, _) => leaf_node_source new <> SourceCommit h \/
      ~ (forall i l, i <> sender -> leaf_at (nodes t) i = Some l -> compatible idf new l)
  | (Panic, _) => False
  end.
Proof.
  destruct (apply_update_path_spec idf extensions t sender old p Hid Ht Henc Hcur Hold Hfull Hleaf Hkeys)
    as (v & h & t0 & H1 & H2 & H3 & H4).
  exists v, h, t0. split_and!; [done..|].
  destruct (apply_update_path sender p extensions t) as [[[]|e|] t']; naive_solver.
Qed.

(** The first member of the group of two commits. *)
Definition commit_leaf (h : ParentHash) : LeafNode :=
  mk_leaf_node [5] (mk_signing_identity [1] (Basic [1])) (mk_capabilities [1] [1] [] [] [1]) (SourceCommit h) [] [].

Definition commit_path (h : ParentHash) : ValidatedUpdatePath :=
  mk_validated_update_path (commit_leaf h) [Some (mk_update_path_node [6] [])].

(** The parent hash that the leaf must carry. *)
Definition path_parent_hash : ParentHash := Eval vm_compute in
  match leaf_at (nodes (update_parent_hashes (H := Toy.provider) 0 false (set_nodes
    [Some (NodeLeaf (commit_leaf [])); Some (NodeParent (mk_parent [6] [] [])); Some (NodeLeaf (member_leaf 2))]
    group_of_two)).2) 0 with
  | Some l => match leaf_node_source l with SourceCommit h => h | _ => [] end
  | None => []
  end.

Lemma apply_update_path_correct_witness : exists t',
  apply_update_path (idp := plain_provider) (H := Toy.provider) 0 (commit_path path_parent_hash) [] group_of_two = (Ok tt, t') /\
  tree_ok signature_key t'.
Proof.
  destruct (apply_update_path_correct (idp := plain_provider) (H := Toy.provider) (H0 := Toy.hash_laws) signature_key []
    group_of_two 0 (member_leaf 1) (commit_path path_parent_hash) ltac:(reflexivity) group_of_two_ok group_of_two_encodable
    (no_hashes_current (H := Toy.provider) _) ltac:(vm_compute; reflexivity) ltac:(vm_compute; reflexivity)
    ltac:(eexists; vm_compute; reflexivity)
    ltac:(intros n [E|Hn]%elem_of_cons; [injection E as ->; vm_compute; discriminate|by apply elem_of_nil in Hn]))
    as (v & h & t0 & _ & _ & _ & H1).
  destruct (apply_update_path (idp := plain_provider) (H := Toy.provider) 0 (commit_path path_parent_hash) [] group_of_two)
    as [r t'] eqn:E.
  assert (r = Ok tt) as ->.
  { transitivity (apply_update_path (idp := plain_provider) (H := Toy.provider) 0 (commit_path path_parent_hash) [] group_of_two).1;
      [by rewrite E|vm_compute; reflexivity]. }
  exists t'. split; [reflexivity|]. apply H1.
Defined.
