(* ===== verification/LeafNodes.v ===== *)
(** * Signing and validating leaf nodes and key packages

    The trait [Signable] of mls-rs/src/signer.rs; the operations of leaf nodes
    (mls-rs/src/tree_kem/leaf_node.rs) and their validation
    (mls-rs/src/tree_kem/leaf_node_validator.rs); generation and validation of
    key packages (mls-rs/src/key_package); the extensions defined by the library
    (mls-rs/src/extension/built_in.rs); and the validation of an imported
    ratchet tree (mls-rs/src/tree_kem/tree_validator.rs).  Greasing is off, as
    it is by default. *)

From stdpp Require Import sorting.
From S2P Require Import Prelude Codec Crypto TreeMath Data NodeVec TreeIndex TreeHash ParentHash TreeInv Proposals TreeKem.

#[local] Set Default Goal Selector "!".
Local Open Scope Z_scope.

(** ** Capabilities (mls-rs-core, group/roster.rs) *)

Definition all_cipher_suites : list Z := seqZ 1 7.

Definition capabilities_default : Capabilities := mk_capabilities [1] all_cipher_suites [] [] [CREDENTIAL_BASIC].

Definition capabilities_sorted (c : Capabilities) : Capabilities :=
  mk_capabilities (merge_sort Z.le (protocol_versions c)) (merge_sort Z.le (cipher_suites c))
    (merge_sort Z.le (cap_extensions c)) (merge_sort Z.le (cap_proposals c)) (merge_sort Z.le (cap_credentials c)).

(** ** Signatures *)

Record SignContent := mk_sign_content { sc_label : bytes; sc_content : bytes }.

Definition sign_content_codec : codec SignContent :=
  struct_codec (fun c => (sc_label c, sc_content c)) (fun '(l, c) => mk_sign_content l c)
    (pair_codec byte_vec_codec byte_vec_codec).

Definition sign_content_new (label content : bytes) : SignContent :=
  mk_sign_content (bstr "MLS 1.0 " ++ label) content.

Class Signable (A Ctx : Type) := {
  SIGN_LABEL : bytes;
  signature : A -> bytes;
  signable_content : A -> Ctx -> cres bytes;
  write_signature : bytes -> A -> A;
}.

Section signable.
Context `{CipherSuiteProvider} {A Ctx : Type} `{Signable A Ctx}.

(** The signed bytes. *)
Definition signed_bytes (a : A) (context : Ctx) : mres bytes :=
  content ← from_codec (signable_content a context);
  from_codec (mls_encode_to_vec sign_content_codec (sign_content_new SIGN_LABEL content)).

Definition signable_sign (coins : Coins) (signer : SignatureSecretKey) (context : Ctx) (a : A) : mres A :=
  b ← signed_bytes a context;
  sig ← from_crypto (Crypto.sign coins signer b);
  Ok (write_signature sig a).

Definition signable_verify (public_key : SignaturePublicKey) (context : Ctx) (a : A) : mres unit :=
  b ← signed_bytes a context;
  map_err (fun _ => InvalidSignature) (Crypto.verify public_key (signature a) b).
End signable.

(** What a [Signable] type owes: its content does not cover the signature. *)
Class SignableLaws (A Ctx : Type) `{Signable A Ctx} : Prop := {
  signature_write s a : signature (write_signature s a) = s;
  content_write s a ctx : signable_content (write_signature s a) ctx = signable_content a ctx;
}.

(** ** Leaf nodes *)

Record ConfigProperties := mk_config_properties { cfg_capabilities : Capabilities; cfg_extensions : ExtensionList }.

Record LeafNodeTBS := mk_leaf_node_tbs {
  tbs_leaf : LeafNode;
  tbs_group_id : option bytes;
  tbs_leaf_index : option Z;
}.

(** [MlsEncode for LeafNodeTBS]: the leaf without its signature, then the
    group and the position when they are known. *)
Definition leaf_node_tbs_encode (t : LeafNodeTBS) (w : bytes) : cres bytes :=
  let l := tbs_leaf t in
  w ← mls_encode byte_vec_codec (leaf_public_key l) w;
  w ← mls_encode signing_identity_codec (signing_identity l) w;
  w ← mls_encode capabilities_codec (capabilities l) w;
  w ← mls_encode leaf_node_source_codec (leaf_node_source l) w;
  w ← mls_encode extension_list_codec (leaf_extensions l) w;
  w ← match tbs_group_id t with Some g => mls_encode byte_vec_codec g w | None => Ok w end;
  match tbs_leaf_index t with Some i => mls_encode u32_codec i w | None => Ok w end.

Record LeafNodeSigningContext := mk_leaf_ctx { ctx_group_id : option bytes; ctx_leaf_index : option Z }.

(** [LeafNodeSigningContext::default()] and the conversion from a group and a
    position. *)
Definition leaf_ctx_default : LeafNodeSigningContext := mk_leaf_ctx None None.
Definition leaf_ctx_in (group_id : bytes) (leaf_index : Z) : LeafNodeSigningContext :=
  mk_leaf_ctx (Some group_id) (Some leaf_index).

Definition set_leaf_signature (s : bytes) (l : LeafNode) : LeafNode :=
  mk_leaf_node (leaf_public_key l) (signing_identity l) (capabilities l) (leaf_node_source l) (leaf_extensions l) s.

#[export] Instance leaf_node_signable : Signable LeafNode LeafNodeSigningContext := {|
  SIGN_LABEL := bstr "LeafNodeTBS";
  signature := leaf_signature;
  signable_content l ctx := leaf_node_tbs_encode (mk_leaf_node_tbs l (ctx_group_id ctx) (ctx_leaf_index ctx)) [];
  write_signature := set_leaf_signature;
|}.

Definition set_leaf_key (k : HpkePublicKey) (l : LeafNode) : LeafNode :=
  mk_leaf_node k (signing_identity l) (capabilities l) (leaf_node_source l) (leaf_extensions l) (leaf_signature l).

(** New properties and a new identity, if given. *)
Definition reconfigure (new_properties : option ConfigProperties) (new_identity : option SigningIdentity)
    (l : LeafNode) : LeafNode :=
  mk_leaf_node (leaf_public_key l) (default (signing_identity l) new_identity)
    (match new_properties with Some p => cfg_capabilities p | None => capabilities l end)
    (leaf_node_source l)
    (match new_properties with Some p => cfg_extensions p | None => leaf_extensions l end)
    (leaf_signature l).

Section leaf_operations.
Context `{CipherSuiteProvider}.

Definition leaf_generate (c1 c2 : Coins) (properties : ConfigProperties) (id : SigningIdentity)
    (signer : SignatureSecretKey) (lifetime : Lifetime) : mres (LeafNode * HpkeSecretKey) :=
  '(secret_key, public_key) ← from_crypto (kem_generate c1);
  let leaf := mk_leaf_node public_key id (cfg_capabilities properties) (SourceKeyPackage lifetime)
                (cfg_extensions properties) [] in
  leaf ← signable_sign c2 signer leaf_ctx_default leaf;
  Ok (leaf, secret_key).

Definition leaf_update (c1 c2 : Coins) (group_id : bytes) (leaf_index : Z) (new_properties : option ConfigProperties)
    (new_identity : option SigningIdentity) (signer : SignatureSecretKey) :
    SM LeafNode MlsError HpkeSecretKey :=
  '(secret, public) ← sm_lift (from_crypto (kem_generate c1));
  _ ← sm_modify (fun l => set_leaf_node_source SourceUpdate
        (reconfigure new_properties new_identity (set_leaf_key public l)));
  l ← sm_get;
  l ← sm_lift (signable_sign c2 signer (leaf_ctx_in group_id leaf_index) l);
  _ ← sm_put l;
  mret secret.

Definition leaf_commit (c1 c2 : Coins) (group_id : bytes) (leaf_index : Z) (new_properties : option ConfigProperties)
    (new_identity : option SigningIdentity) (signer : SignatureSecretKey) :
    SM LeafNode MlsError HpkeSecretKey :=
  '(secret, public) ← sm_lift (from_crypto (kem_generate c1));
  _ ← sm_modify (fun l => reconfigure new_properties new_identity (set_leaf_key public l));
  l ← sm_get;
  l ← sm_lift (signable_sign c2 signer (leaf_ctx_in group_id leaf_index) l);
  _ ← sm_put l;
  mret secret.
End leaf_operations.

(** ** Extensions defined by the library *)

Definition EXT_APPLICATION_ID : Z := 1.
Definition EXT_RATCHET_TREE : Z := 2.
Definition EXT_REQUIRED_CAPABILITIES : Z := 3.
Definition EXT_EXTERNAL_PUB : Z := 4.
Definition EXT_EXTERNAL_SENDERS : Z := 5.

(** [ExtensionType::is_default]. *)
Definition ext_is_default (t : Z) : bool := t <=? 5.

Notation ApplicationIdExt := bytes (only parsing).
Definition application_id_codec : codec ApplicationIdExt := byte_vec_codec.

Record RequiredCapabilitiesExt := mk_required_capabilities {
  req_extensions : list Z;
  req_proposals : list Z;
  req_credentials : list Z;
}.

Definition required_capabilities_codec : codec RequiredCapabilitiesExt :=
  struct_codec (fun r => (req_extensions r, (req_proposals r, req_credentials r)))
    (fun '(e, (p, c)) => mk_required_capabilities e p c)
    (pair_codec (vec_codec u16_codec) (pair_codec (vec_codec u16_codec) (vec_codec u16_codec))).

Notation ExternalPubExt := HpkePublicKey (only parsing).
Definition external_pub_codec : codec ExternalPubExt := byte_vec_codec.

Notation ExternalSendersExt := (list SigningIdentity) (only parsing).
Definition external_senders_codec : codec ExternalSendersExt := vec_codec signing_identity_codec.

(** [ExternalSendersExt::verify_all], with the error of the provider. *)
Fixpoint verify_all {idp : IdentityProvider} (senders : ExternalSendersExt) (timestamp : option Z)
    (group_context_extensions : ExtensionList) : res AnyError unit :=
  match senders with
  | [] => Ok tt
  | id :: senders =>
      _ ← validate_external_sender id timestamp (Some group_context_extensions);
      verify_all senders timestamp group_context_extensions
  end.

(** ** Validation of leaf nodes *)

(** [MemberValidationContext::new_extensions]. *)
Definition new_extensions (c : MemberValidationContext) : option ExtensionList :=
  match c with
  | ForCommit _ e => Some e
  | ForNewGroup g => Some (gc_extensions g)
  | NoContext => None
  end.

Inductive ValidationContext :=
| VAdd (time : option Z)
| VUpdate (group_id : bytes) (leaf_index : Z) (time : option Z)
| VCommit (group_id : bytes) (leaf_index : Z) (time : option Z).

Definition vc_signing_context (c : ValidationContext) : LeafNodeSigningContext :=
  match c with
  | VAdd _ => leaf_ctx_default
  | VUpdate g i _ | VCommit g i _ => leaf_ctx_in g i
  end.

Definition vc_generation_time (c : ValidationContext) : option Z :=
  match c with VAdd t | VUpdate _ _ t | VCommit _ _ t => t end.

Definition check_context (l : LeafNode) (context : ValidationContext) : mres unit :=
  match context, leaf_node_source l with
  | VAdd time, SourceKeyPackage lifetime =>
      match time with
      | Some now => guard_or (InvalidLifetime (not_before lifetime) (not_after lifetime) now) (within_lifetime lifetime now)
      | None => Ok tt
      end
  | VUpdate _ _ _, SourceUpdate => Ok tt
  | VCommit _ _ _, SourceCommit _ => Ok tt
  | _, _ => Err InvalidLeafNodeSource
  end.

(** [for x in xs { if !ys.contains(x) { return Err(e(x)) } }]. *)
Fixpoint all_contained (e : Z -> MlsError) (xs ys : list Z) : mres unit :=
  match xs with
  | [] => Ok tt
  | x :: xs => _ ← guard_or (e x) (bool_decide (x ∈ ys)); all_contained e xs ys
  end.

Definition validate_required_capabilities (ctx : MemberValidationContext) (l : LeafNode) : mres unit :=
  r ← match new_extensions ctx with
      | Some ext => from_extension_error (ext_get_as EXT_REQUIRED_CAPABILITIES required_capabilities_codec ext)
      | None => Ok None
      end;
  match r with
  | None => Ok tt
  | Some r =>
      _ ← all_contained RequiredExtensionNotFound (req_extensions r) (cap_extensions (capabilities l));
      _ ← all_contained RequiredProposalNotFound (req_proposals r) (cap_proposals (capabilities l));
      all_contained RequiredCredentialNotFound (req_credentials r) (cap_credentials (capabilities l))
  end.

Definition validate_external_senders_ext_credentials (ctx : MemberValidationContext) (l : LeafNode) : mres unit :=
  r ← match new_extensions ctx with
      | Some ext => from_extension_error (ext_get_as EXT_EXTERNAL_SENDERS external_senders_codec ext)
      | None => Ok None
      end;
  match r with
  | None => Ok tt
  | Some senders =>
      all_contained RequiredCredentialNotFound ((fun s => credential_type (credential s)) <$> senders)
        (cap_credentials (capabilities l))
  end.

(** ** Key packages *)

(** [signable_content] of a key package: the package without its signature. *)
Definition key_package_tbs_codec_encode (k : KeyPackage) : cres bytes :=
  w ← mls_encode u16_codec (kp_version k) [];
  w ← mls_encode u16_codec (kp_cipher_suite k) w;
  w ← mls_encode byte_vec_codec (hpke_init_key k) w;
  w ← mls_encode leaf_node_codec (kp_leaf_node k) w;
  mls_encode extension_list_codec (kp_extensions k) w.

Definition set_package_signature (s : bytes) (k : KeyPackage) : KeyPackage :=
  mk_key_package (kp_version k) (kp_cipher_suite k) (hpke_init_key k) (kp_leaf_node k) (kp_extensions k) s.

#[export] Instance key_package_signable : Signable KeyPackage unit := {|
  SIGN_LABEL := bstr "KeyPackageTBS";
  signature := kp_signature;
  signable_content k _ := key_package_tbs_codec_encode k;
  write_signature := set_package_signature;
|}.

Section validators.
Context {idp : IdentityProvider} `{CipherSuiteProvider}.

(** ** The validators *)

Definition check_if_valid (member_ctx : MemberValidationContext) (l : LeafNode) (context : ValidationContext) :
    mres unit :=
  _ ← check_context l context;
  _ ← from_identity (validate_member (signing_identity l) (vc_generation_time context) member_ctx);
  _ ← signable_verify (signature_key (signing_identity l)) (vc_signing_context context) l;
  _ ← validate_required_capabilities member_ctx l;
  _ ← all_contained ExtensionNotInCapabilities (extension_type <$> leaf_extensions l)
        (cap_extensions (capabilities l));
  _ ← match new_extensions member_ctx with
      | Some ext =>
          all_contained UnsupportedGroupExtension
            (List.filter (fun t => negb (ext_is_default t)) (extension_type <$> ext)) (cap_extensions (capabilities l))
      | None => Ok tt
      end;
  validate_external_senders_ext_credentials member_ctx l.

Definition revalidate (member_ctx : MemberValidationContext) (l : LeafNode) (gid : bytes) (leaf_index : Z)
    (maybe_time : option Z) : mres unit :=
  check_if_valid member_ctx l
    match leaf_node_source l with
    | SourceKeyPackage _ => VAdd maybe_time
    | SourceUpdate => VUpdate gid leaf_index maybe_time
    | SourceCommit _ => VCommit gid leaf_index maybe_time
    end.

Definition validate_key_package_properties (package : KeyPackage) (version : Z) : mres unit :=
  _ ← signable_verify (signature_key (signing_identity (kp_leaf_node package))) tt package;
  _ ← guard_or ProtocolVersionMismatch (kp_version package =? version);
  _ ← guard_or CipherSuiteMismatch (kp_cipher_suite package =? cipher_suite);
  _ ← map_err (fun _ => InvalidInitKey) (kem_public_key_validate (hpke_init_key package));
  guard_or InitLeafKeyEquality (negb (bool_decide (hpke_init_key package = leaf_public_key (kp_leaf_node package)))).

Record KeyPackageGeneration := mk_key_package_generation {
  kpg_reference : KeyPackageRef;
  kpg_key_package : KeyPackage;
  kpg_init_secret_key : HpkeSecretKey;
  kpg_leaf_node_secret_key : HpkeSecretKey;
}.

(** [KeyPackageGenerator::generate]; the coins are those of the two key
    generations and the two signatures. *)
Definition key_package_generate (c1 c2 c3 c4 : Coins) (version : Z) (id : SigningIdentity)
    (signer : SignatureSecretKey) (lifetime : Lifetime) (caps : Capabilities)
    (key_package_extensions leaf_node_extensions : ExtensionList) : mres KeyPackageGeneration :=
  '(init_secret_key, public_init) ← from_crypto (kem_generate c1);
  '(leaf_node, leaf_node_secret) ← leaf_generate c2 c3 (mk_config_properties caps leaf_node_extensions) id signer lifetime;
  let package := mk_key_package version cipher_suite public_init leaf_node key_package_extensions [] in
  package ← signable_sign c4 signer tt package;
  reference ← to_reference package;
  Ok (mk_key_package_generation reference package init_secret_key leaf_node_secret).
End validators.

(** [mls_rs_core::key_package::KeyPackageData], what the storage keeps. *)
Record KeyPackageData := mk_key_package_data {
  kpd_bytes : bytes;
  kpd_init_key : HpkeSecretKey;
  kpd_leaf_node_key : HpkeSecretKey;
  kpd_expiration : Z;
}.

Definition key_package_data_codec : codec KeyPackageData :=
  struct_codec (fun d => (kpd_bytes d, (kpd_init_key d, (kpd_leaf_node_key d, kpd_expiration d))))
    (fun '(b, (i, (l, e))) => mk_key_package_data b i l e)
    (pair_codec byte_vec_codec (pair_codec byte_vec_codec (pair_codec byte_vec_codec u64_codec))).

Definition to_storage (g : KeyPackageGeneration) : mres (bytes * KeyPackageData) :=
  b ← from_codec (mls_encode_to_vec key_package_codec (kpg_key_package g));
  e ← expiration (kpg_key_package g);
  Ok (kpg_reference g, mk_key_package_data b (kpg_init_secret_key g) (kpg_leaf_node_secret_key g) e).

Definition from_storage (id : bytes) (d : KeyPackageData) : mres KeyPackageGeneration :=
  '(k, _) ← from_codec (mls_decode key_package_codec (kpd_bytes d));
  Ok (mk_key_package_generation id k (kpd_init_key d) (kpd_leaf_node_key d)).

(** ** Validation of an imported tree *)

Definition validate_no_trailing_blanks (t : TreeKemPublic) : mres unit :=
  n ← ok_or UnexpectedEmptyTree (last (nodes t));
  guard_or UnexpectedTrailingBlanks (match n with Some _ => true | None => false end).

(** The sets of unmerged leaves, by node. *)
Definition unmerged_sets (v : NodeVec) : list (gset Z) :=
  (fun n => match n with Some (NodeParent p) => list_to_set (unmerged_leaves p) | _ => ∅ end) <$> v.

(** The [while] loop: the height of the tree bounds its rounds. *)
Fixpoint unmerged_prefix (fuel : nat) (v : NodeVec) (leaf_count l n : Z) (sets : list (gset Z)) : mres (list (gset Z)) :=
  match parent_sibling 32 n leaf_count with
  | None => Ok sets
  | Some ps =>
      match fuel with
      | O => Panic
      | S fuel =>
          blank ← is_blank v (parent ps);
          if blank : bool then unmerged_prefix fuel v leaf_count l (parent ps) sets
          else
            p ← borrow_as_parent v (parent ps);
            if bool_decide (l ∈ unmerged_leaves p) then
              s ← unwrap (zget sets (parent ps));
              unmerged_prefix fuel v leaf_count l (parent ps) (zset sets (parent ps) (s ∖ {[l]}))
            else Ok sets
      end
  end.

Fixpoint unmerged_leaves_loop (v : NodeVec) (leaf_count : Z) (ls : list Z) (sets : list (gset Z)) : mres (list (gset Z)) :=
  match ls with
  | [] => Ok sets
  | l :: ls => sets ← unmerged_prefix 32 v leaf_count l (node_index l) sets; unmerged_leaves_loop v leaf_count ls sets
  end.

Definition validate_unmerged (t : TreeKemPublic) : mres unit :=
  sets ← unmerged_leaves_loop (nodes t) (total_leaf_count (nodes t)) (non_empty_leaves (nodes t)).*1
           (unmerged_sets (nodes t));
  guard_or UnmergedLeavesMismatch (forallb (fun s => bool_decide (s = ∅)) sets).

Section tree_validator.
Context {idp : IdentityProvider} `{CipherSuiteProvider}.

Definition validate_tree_hash (expected_tree_hash : bytes) : SM TreeKemPublic MlsError unit :=
  h ← tree_kem_tree_hash;
  if bool_decide (h = expected_tree_hash) then mret tt else sm_lift (Err TreeHashMismatch).

Fixpoint validate_leaves (ls : list (Z * LeafNode)) (context : GroupContext) (maybe_time : option Z) : mres unit :=
  match ls with
  | [] => Ok tt
  | (i, l) :: ls =>
      _ ← revalidate (ForNewGroup context) l (group_id context) i maybe_time;
      validate_leaves ls context maybe_time
  end.

(** [TreeValidator::validate] of the tree expected in [context]. *)
Definition validate_tree (context : GroupContext) (maybe_time : option Z) : SM TreeKemPublic MlsError unit :=
  _ ← validate_tree_hash (tree_hash context);
  t ← sm_get;
  _ ← sm_lift (validate_parent_hashes t);
  _ ← sm_lift (validate_no_trailing_blanks t);
  _ ← sm_lift (validate_leaves (non_empty_leaves (nodes t)) context maybe_time);
  sm_lift (validate_unmerged t).
End tree_validator.

(** ** Capabilities in canonical form *)

Lemma merge_sort_same (l k : list Z) : merge_sort Z.le l = merge_sort Z.le k <-> l ≡ₚ k.
Proof.
  split; intros E.
  - rewrite <- (merge_sort_Permutation Z.le l), E. apply merge_sort_Permutation.
  - apply (Sorted_unique Z.le); [apply (Sorted_merge_sort Z.le)..|]. by rewrite !merge_sort_Permutation.
Qed.

(** Two capabilities have the same canonical form when they list the same in
    whatever order; the canonical form is its own. *)
Lemma capabilities_sorted_same c c' : capabilities_sorted c = capabilities_sorted c' <->
  protocol_versions c ≡ₚ protocol_versions c' /\ cipher_suites c ≡ₚ cipher_suites c' /\
  cap_extensions c ≡ₚ cap_extensions c' /\ cap_proposals c ≡ₚ cap_proposals c' /\ cap_credentials c ≡ₚ cap_credentials c'.
Proof. rewrite <- !merge_sort_same. unfold capabilities_sorted. split; [by intros [= -> -> -> -> ->]|by intros (-> & -> & -> & -> & ->)]. Qed.

Lemma capabilities_sorted_idemp c : capabilities_sorted (capabilities_sorted c) = capabilities_sorted c.
Proof. apply capabilities_sorted_same. cbn. by rewrite !merge_sort_Permutation. Qed.

(** ** Signatures verify *)

#[export] Instance leaf_node_signable_laws : SignableLaws LeafNode LeafNodeSigningContext.
Proof. by split. Qed.
#[export] Instance key_package_signable_laws : SignableLaws KeyPackage unit.
Proof. by split. Qed.

Lemma sign_verify `{SignatureLaws} {A Ctx : Type} `{SignableLaws A Ctx} coins signer pk context (a a' : A) :
  signable_sign coins signer context a = Ok a' -> signature_key_derive_public signer = Ok pk ->
  (exists s, a' = write_signature s a) /\ signable_verify pk context a' = Ok tt.
Proof.
  intros Hs Hk. unfold signable_sign, signed_bytes in Hs.
  apply bind_Ok in Hs as (b & Hb & (sig & Hsig & [= <-])%bind_Ok). split; [by exists sig|].
  unfold signable_verify, signed_bytes. rewrite (content_write (A := A) (Ctx := Ctx)), Hb. cbn [mbind res_bind].
  rewrite (signature_write (A := A) (Ctx := Ctx)).
  apply map_err_Ok in Hsig. by rewrite (verify_sign _ _ _ _ _ Hk Hsig).
Qed.

(** ** What the validator requires *)

Lemma all_contained_spec e xs ys : all_contained e xs ys = Ok tt <-> xs ⊆ ys.
Proof.
  induction xs as [|x xs IH]; cbn [all_contained]; [set_solver|].
  case_bool_decide; cbn [guard_or mbind res_bind]; [rewrite IH; set_solver|set_solver].
Qed.

(** The content of an extension of the group. *)
Definition group_extension {E} (c : MemberValidationContext) (t : Z) (codec : codec E) : mres (option E) :=
  match new_extensions c with Some ext => from_extension_error (ext_get_as t codec ext) | None => Ok None end.

Definition meets (caps : Capabilities) (r : RequiredCapabilitiesExt) : Prop :=
  req_extensions r ⊆ cap_extensions caps /\ req_proposals r ⊆ cap_proposals caps /\
  req_credentials r ⊆ cap_credentials caps.

Record capable (ctx : MemberValidationContext) (l : LeafNode) : Prop := {
  capable_required : exists r, group_extension ctx EXT_REQUIRED_CAPABILITIES required_capabilities_codec = Ok r /\
    forall rc, r = Some rc -> meets (capabilities l) rc;
  capable_own : (extension_type <$> leaf_extensions l) ⊆ cap_extensions (capabilities l);
  capable_group ext e : new_extensions ctx = Some ext -> e ∈ ext -> 5 < extension_type e ->
    extension_type e ∈ cap_extensions (capabilities l);
  capable_senders : exists r, group_extension ctx EXT_EXTERNAL_SENDERS external_senders_codec = Ok r /\
    forall ss s, r = Some ss -> s ∈ ss -> credential_type (credential s) ∈ cap_credentials (capabilities l);
}.

Definition right_source (l : LeafNode) (context : ValidationContext) : Prop :=
  match context, leaf_node_source l with
  | VAdd time, SourceKeyPackage lt => forall now, time = Some now -> not_before lt <= now <= not_after lt
  | VUpdate _ _ _, SourceUpdate | VCommit _ _ _, SourceCommit _ => True
  | _, _ => False
  end.

Lemma check_context_spec l context : check_context l context = Ok tt <-> right_source l context.
Proof.
  unfold check_context, right_source. destruct context as [[now|]| |], (leaf_node_source l); try done.
  rewrite guard_or_Ok. unfold within_lifetime. rewrite andb_true_iff, !Z.leb_le. naive_solver.
Qed.

Lemma bind_unit_Ok {E B} (m : res E unit) (f : unit -> res E B) b :
  (m ≫= f) = Ok b <-> m = Ok tt /\ f tt = Ok b.
Proof. rewrite bind_Ok. split; [intros ([] & ? & ?); done|intros [? ?]; by exists tt]. Qed.

Lemma required_spec ctx l : validate_required_capabilities ctx l = Ok tt <->
  exists r, group_extension ctx EXT_REQUIRED_CAPABILITIES required_capabilities_codec = Ok r /\
    forall rc, r = Some rc -> meets (capabilities l) rc.
Proof.
  unfold validate_required_capabilities. fold (group_extension ctx EXT_REQUIRED_CAPABILITIES required_capabilities_codec).
  rewrite bind_Ok. apply exist_proper. intros [rc|]; [|naive_solver].
  rewrite !bind_unit_Ok, !all_contained_spec. unfold meets. naive_solver.
Qed.

Lemma senders_spec ctx l : validate_external_senders_ext_credentials ctx l = Ok tt <->
  exists r, group_extension ctx EXT_EXTERNAL_SENDERS external_senders_codec = Ok r /\
    forall ss s, r = Some ss -> s ∈ ss -> credential_type (credential s) ∈ cap_credentials (capabilities l).
Proof.
  unfold validate_external_senders_ext_credentials. fold (group_extension ctx EXT_EXTERNAL_SENDERS external_senders_codec).
  rewrite bind_Ok. apply exist_proper. intros [ss|]; [|naive_solver].
  rewrite all_contained_spec. split.
  - intros [H1 H2]. split; [done|]. intros ? s [= <-] Hs. apply H2, list_elem_of_fmap. by exists s.
  - intros [H1 H2]. split; [done|]. intros x (s & -> & Hs)%list_elem_of_fmap. by apply (H2 ss).
Qed.

Lemma group_supported_spec ctx l :
  match new_extensions ctx with
  | Some ext => all_contained UnsupportedGroupExtension
      (List.filter (fun t => negb (ext_is_default t)) (extension_type <$> ext)) (cap_extensions (capabilities l))
  | None => Ok tt
  end = Ok tt <->
  forall ext e, new_extensions ctx = Some ext -> e ∈ ext -> 5 < extension_type e ->
    extension_type e ∈ cap_extensions (capabilities l).
Proof.
  destruct (new_extensions ctx) as [ext|]; [|naive_solver]. rewrite all_contained_spec. split.
  - intros H ? e [= <-] He Ht. apply H. apply list_elem_of_In, filter_In.
    split; [by apply list_elem_of_In, list_elem_of_fmap; exists e|]. unfold ext_is_default. by destruct (Z.leb_spec (extension_type e) 5); [lia|].
  - intros H t Ht. apply list_elem_of_In, filter_In in Ht as [Ht%list_elem_of_In Hd].
    apply list_elem_of_fmap in Ht as (e & -> & He). apply (H ext); [done..|].
    unfold ext_is_default in Hd. destruct (Z.leb_spec (extension_type e) 5); [done|lia].
Qed.

Lemma check_if_valid_spec {idp : IdentityProvider} `{CipherSuiteProvider} ctx l context :
  check_if_valid ctx l context = Ok tt <->
  right_source l context /\
  validate_member (signing_identity l) (vc_generation_time context) ctx = Ok tt /\
  signable_verify (signature_key (signing_identity l)) (vc_signing_context context) l = Ok tt /\
  capable ctx l.
Proof.
  unfold check_if_valid. rewrite !bind_unit_Ok. unfold from_identity. rewrite map_err_Ok.
  rewrite check_context_spec, required_spec, all_contained_spec, group_supported_spec, senders_spec.
  split; [|intros (? & ? & ? & []); tauto]. intros (? & ? & ? & ? & ? & ? & ?). by split_and!.
Qed.

(** ** Unmerged leaves *)

(** What [validate_unmerged] decides: an unmerged leaf of a node is a member
    below it, and is unmerged at every occupied node in between. *)
Definition unmerged_consistent (v : NodeVec) : Prop :=
  forall (k : nat) j p l, 0 <= j -> parent_at v (node (Z.of_nat k) j) = Some p -> l ∈ unmerged_leaves p ->
    is_Some (leaf_at v l) /\ j = Z.shiftr l (Z.of_nat k) /\
    forall (k' : nat) p', (0 < k' < k)%nat -> parent_at v (node (Z.of_nat k') (Z.shiftr l (Z.of_nat k'))) = Some p' ->
      l ∈ unmerged_leaves p'.

(** The leaf [l] is unmerged or the node is blank, at level [k] of its path. *)
Definition climbs (v : NodeVec) (l : Z) (k : nat) : Prop :=
  forall p, parent_at v (node (Z.of_nat k) (Z.shiftr l (Z.of_nat k))) = Some p -> l ∈ unmerged_leaves p.

Definition reaches (v : NodeVec) (l : Z) (k0 : nat) (x : Z) : Prop :=
  exists k : nat, (k0 < k)%nat /\ x = node (Z.of_nat k) (Z.shiftr l (Z.of_nat k)) /\ is_Some (parent_at v x) /\
    forall i : nat, (k0 < i <= k)%nat -> climbs v l i.

(** The leaf [m] is still in the set of the node [x]. *)
Definition remains (sets : list (gset Z)) (x m : Z) : Prop := exists s, zget sets x = Some s /\ m ∈ s.

Section unmerged.
Context (v : NodeVec) (Hs : leaf_shaped v)
  (Hp : forall x n, nd v x = Some n -> match n with NodeLeaf _ => Z.odd x = false | NodeParent _ => Z.odd x = true end).

Lemma odd_node_S (k : nat) j : 0 <= j -> Z.odd (node (Z.of_nat (S k)) j) = true.
Proof using.
  intros Hj. replace (Z.of_nat (S k)) with (Z.of_nat k + 1) by lia.
  rewrite node_succ by lia. by rewrite Z.odd_add, odd_double.
Qed.

Lemma path_node_borrow d (k : nat) j : zlen v <> 0 -> total_leaf_count v = 2 ^ d -> in_tree d (Z.of_nat k) j ->
  borrow_node v (node (Z.of_nat k) j) = Ok (nd v (node (Z.of_nat k) j)).
Proof using Type*.
  intros Hz Ed Hin. unfold borrow_node, validate_index.
  destruct (Z.leb_spec (next_power_of_two (zlen v)) (node (Z.of_nat k) j)) as [Hle|]; [exfalso|done].
  destruct Hs as [Ho Hb]. pose proof (in_tree_node_bound _ _ _ Hin) as [_ Hn].
  pose proof (zlen_nonneg v). assert (0 <= d) by (destruct Hin; lia).
  assert (Z.odd (zlen v) = true) as Hodd by (destruct Ho as [->|]; done).
  unfold total_leaf_count in Ed. rewrite wrap_small in Ed by (unfold in_uint; change (2 ^ 25) with 33554432 in *; lia).
  unfold next_power_of_two in *. apply Z.pow_inj_r in Ed; [|lia|apply Z.log2_up_nonneg|lia].
  apply Zodd_bool_iff, Zodd_ex in Hodd as [m Hm]. rewrite Hm in *.
  replace ((2 * m + 1) `div` 2) with m in Ed by divlia.
  destruct (Z.eqb_spec m 0) as [->|Hm0].
  { change (Z.log2_up (0 + 1)) with 0 in Ed. subst d. change (2 ^ 0) with 1 in *. change (2 ^ Z.log2_up _) with 1 in Hle. lia. }
  assert (2 ^ d < 2 * (m + 1)) as Hlt.
  { destruct (Z.eqb_spec d 0) as [->|]; [lia|]. pose proof (Z.log2_up_spec (m + 1) ltac:(lia)) as [Hl _].
    rewrite Ed in Hl. replace d with (Z.pred d + 1) by lia. rewrite Z.pow_add_r by lia. lia. }
  assert (d < Z.log2_up (2 * m + 1)) as Hlog.
  { apply (Z.pow_lt_mono_r_iff 2); [lia|apply Z.log2_up_nonneg|].
    destruct (Z.lt_ge_cases (2 ^ d) (2 * m + 1)) as [Hl|Hl].
    - eapply Z.lt_le_trans; [exact Hl|]. apply (next_power_of_two_ge (2 * m + 1)).
    - assert (2 ^ d = 2 * m + 1) as E by lia. destruct (Z.eqb_spec d 0) as [->|]; [change (2 ^ 0) with 1 in E; lia|].
      replace d with (1 + Z.pred d) in E by lia. rewrite Z.pow_add_r in E by lia. lia. }
  pose proof (Z.pow_le_mono_r 2 (d + 1) (Z.log2_up (2 * m + 1)) ltac:(lia) ltac:(lia)) as Hpow.
  rewrite Z.pow_add_r in Hpow by lia. lia.
Qed.

Lemma remains_zset sets x y s s0 m : zget sets y = Some s0 ->
  remains (zset sets y s) x m <-> if decide (x = y) then m ∈ s else remains sets x m.
Proof using.
  intros Hy. unfold remains. pose proof (zget_Some_bound _ _ _ Hy). destruct (decide (x = y)) as [->|].
  - rewrite zget_zset_eq by done. naive_solver.
  - by rewrite zget_zset_ne by done.
Qed.

Lemma unmerged_prefix_spec d l : zlen v <> 0 -> d <= 26 -> total_leaf_count v = 2 ^ d -> 0 <= l < 2 ^ d ->
  forall fuel (k : nat) sets, Z.of_nat k <= d -> d - Z.of_nat k <= Z.of_nat fuel -> zlen sets = zlen v ->
  exists sets', unmerged_prefix fuel v (2 ^ d) l (node (Z.of_nat k) (Z.shiftr l (Z.of_nat k))) sets = Ok sets' /\
    zlen sets' = zlen v /\
    forall x m, remains sets' x m <-> remains sets x m /\ ~ (m = l /\ reaches v l k x).
Proof using Type*.
  intros Hz Hd Ed Hl fuel. induction fuel as [|fuel IH]; intros k sets Hk Hf Hn; cbn [unmerged_prefix].
  all: assert (in_tree d (Z.of_nat k) (Z.shiftr l (Z.of_nat k))) as Hin by
    (split; [lia|]; apply shiftr_bound; [lia|lia|]; by replace (Z.of_nat k + (d - Z.of_nat k)) with d by lia).
  all: rewrite (parent_sibling_node 32 ltac:(lia)) by (lia || done).
  all: destruct (Z.eqb_spec (Z.of_nat k) d) as [E|E].
  1,3: exists sets; split_and!; [done|done|]; intros x m; split; [|naive_solver]; intros Hr; split; [done|];
    intros [_ (k' & Hk' & -> & [p Hlt] & _)]; apply nd_parent_at, nd_bound, proj2 in Hlt;
    destruct (total_leaf_count_pow v ltac:(destruct Hs; change (2^25) with 33554432 in *; change (2^26) with 67108864; lia)) as (d' & ? & Ed' & Hlen);
    rewrite Ed in Ed'; apply Z.pow_inj_r in Ed'; [|lia..]; subst d';
    unfold node in Hlt; rewrite Z.shiftr_div_pow2 in Hlt by lia;
    pose proof (Z.pow_le_mono_r 2 (d + 1) (Z.of_nat k') ltac:(lia) ltac:(lia)) as Hpw;
    rewrite Z.pow_add_r in Hpw by lia;
    assert (0 <= l `div` 2 ^ Z.of_nat k' * 2 ^ (Z.of_nat k' + 1)) by
      (apply Z.mul_nonneg_nonneg; [apply Z.div_pos; lia|lia]); lia.
  { lia. }
  cbn [parent].
  pose proof (in_tree_parent _ _ _ Hin ltac:(lia)) as Hpar.
  rewrite Z.shiftr_shiftr in * by lia. replace (Z.of_nat k + 1) with (Z.of_nat (S k)) in * by lia.
  set (y := node (Z.of_nat (S k)) (Z.shiftr l (Z.of_nat (S k)))) in *.
  assert (borrow_node v y = Ok (nd v y)) as Eb by (by apply (path_node_borrow d)).
  unfold is_blank, borrow_as_parent. rewrite Eb. cbn [fmap res_fmap mbind res_bind].
  assert (forall x, reaches v l k x <-> climbs v l (S k) /\ ((x = y /\ is_Some (parent_at v y)) \/ reaches v l (S k) x)) as Hre.
  { intros x. split.
    - intros (k' & Hk' & -> & Hlt & Hc). split; [apply Hc; lia|].
      destruct (decide (k' = S k)) as [->|]; [by left|right]. exists k'. split_and!; [lia|done|done|].
      intros i Hi. apply Hc. lia.
    - intros [Hc [[-> Hlt]|(k' & Hk' & -> & Hlt & Hc')]].
      + exists (S k). split_and!; [lia|done|done|]. intros i Hi. by replace i with (S k) by lia.
      + exists k'. split_and!; [lia|done|done|]. intros i Hi. destruct (decide (i = S k)) as [->|]; [done|].
        apply Hc'. lia. }
  assert (0 <= Z.shiftr l (Z.of_nat (S k))) by (apply Z.shiftr_nonneg; lia).
  pose proof (IH (S k)) as IHk. fold y in IHk.
  destruct (nd v y) as [n|] eqn:En; cbn [fmap res_fmap mbind res_bind].
  - assert (exists p, n = NodeParent p) as [p ->].
    { apply Hp in En. destruct n as [|p]; [|by exists p].
      unfold y in En. by rewrite odd_node_S in En. }
    cbn [as_parent ok_or mbind res_bind].
    assert (parent_at v y = Some p) as Epy by (unfold parent_at; by rewrite En).
    case_bool_decide as Hu.
    + pose proof (nd_bound _ _ _ En) as Hby.
      destruct (zget_is_Some sets y) as [s Es]; [lia|]. rewrite Es. cbn [unwrap mbind res_bind].
      destruct (IHk (zset sets y (s ∖ {[l]}))) as (sets' & -> & Hn' & Hr); [destruct Hpar; lia|lia|by rewrite zlen_zset|].
      exists sets'. split_and!; [done|done|]. intros x m. rewrite Hr, (remains_zset _ _ _ _ s), Hre by done.
      assert (climbs v l (S k)) by (intros p' Hp'; fold y in Hp'; congruence).
      destruct (decide (x = y)) as [->|Hne]; [|naive_solver].
      assert (remains sets y m <-> m ∈ s) as -> by (unfold remains; rewrite Es; naive_solver).
      rewrite elem_of_difference, elem_of_singleton. naive_solver.
    + exists sets. split_and!; [done|done|]. intros x m. rewrite Hre.
      assert (~ climbs v l (S k)) by (intros Hc; by apply Hu, (Hc p)). naive_solver.
  - destruct (IHk sets) as (sets' & -> & Hn' & Hr); [destruct Hpar; lia|lia|done|].
    exists sets'. split_and!; [done|done|]. intros x m. rewrite Hr, Hre by done.
    assert (parent_at v y = None) as Epy by (unfold parent_at; by rewrite En).
    assert (climbs v l (S k)) by (intros p' Hp'; fold y in Hp'; congruence).
    rewrite Epy. pose proof (is_Some_None (A:=Parent)). naive_solver.
Qed.

Lemma unmerged_leaves_loop_spec d ls : zlen v <> 0 -> d <= 26 -> total_leaf_count v = 2 ^ d ->
  Forall (fun l => 0 <= l < 2 ^ d) ls -> forall sets, zlen sets = zlen v ->
  exists sets', unmerged_leaves_loop v (2 ^ d) ls sets = Ok sets' /\ zlen sets' = zlen v /\
    forall x m, remains sets' x m <-> remains sets x m /\ ~ (m ∈ ls /\ reaches v m 0 x).
Proof using Type*.
  intros Hz Hd Ed. induction ls as [|l ls IH]; intros Hls sets Hn; cbn [unmerged_leaves_loop].
  { exists sets. split_and!; [done|done|]. set_solver. }
  apply Forall_cons in Hls as [Hl Hls].
  assert (node_index l = node (Z.of_nat 0) (Z.shiftr l (Z.of_nat 0))) as ->.
  { rewrite Z.shiftr_0_r. change (Z.of_nat 0) with 0. rewrite node_0. apply node_index_eq.
    pose proof (Z.pow_le_mono_r 2 d 26 ltac:(lia) ltac:(lia)). change (2 ^ 26) with 67108864 in *. lia. }
  destruct (unmerged_prefix_spec d l Hz Hd Ed Hl 32 0 sets) as (sets1 & -> & Hn1 & Hr1); [|lia|done|].
  { destruct (Z.lt_ge_cases d 0); [|lia]. rewrite Z.pow_neg_r in Hl by lia. lia. }
  cbn [mbind res_bind]. destruct (IH Hls sets1 Hn1) as (sets' & -> & Hn' & Hr').
  exists sets'. split_and!; [done|done|]. intros x m. rewrite Hr', Hr1, elem_of_cons by done. naive_solver.
Qed.

Lemma remains_initial x m : remains (unmerged_sets v) x m <-> exists p, parent_at v x = Some p /\ m ∈ unmerged_leaves p.
Proof using Type*.
  unfold remains, unmerged_sets, parent_at, nd, zget. destruct (x <? 0); [naive_solver|].
  rewrite list_lookup_fmap. destruct (v !! Z.to_nat x) as [[[l|p]|]|]; cbn.
  2: assert (forall s : gset Z, Some (list_to_set (unmerged_leaves p)) = Some s -> m ∈ s <-> m ∈ unmerged_leaves p) as E
       by (intros s [= <-]; apply elem_of_list_to_set); naive_solver.
  all: split; [intros (s & E & Hm)|by intros (? & ? & _)]; simplify_eq; set_solver.
Qed.

Lemma validate_unmerged_spec t : nodes t = v ->
  (validate_unmerged t = Ok tt <-> unmerged_consistent v) /\
  (validate_unmerged t = Ok tt \/ validate_unmerged t = Err UnmergedLeavesMismatch).
Proof using Type*.
  intros Ht. unfold validate_unmerged. rewrite Ht.
  assert (zlen v <= 2 ^ 26) as Hv by (destruct Hs; change (2^25) with 33554432 in *; change (2^26) with 67108864; lia).
  destruct (decide (zlen v = 0)) as [Hz|Hz].
  { assert (v = []) as E by (destruct v; [done|unfold zlen in Hz; simpl in Hz; lia]).
    rewrite E. split; [|by left]. split; [|done]. intros _ k j p l _ Hpa. unfold parent_at, nd, zget in Hpa. by destruct (_ <? 0). }
  destruct (total_leaf_count_depth v Hv) as [Ed Hd]. rewrite Ed.
  destruct (unmerged_leaves_loop_spec (Z.of_nat (depth v)) (non_empty_leaves v).*1 Hz Hd Ed) with (sets := unmerged_sets v)
    as (sets & -> & Hn & Hr).
  { apply Forall_fmap, Forall_forall. intros [i l] Hin%elem_of_members. simpl. by apply (leaf_at_bound v i l). }
  { unfold zlen, unmerged_sets. by rewrite length_fmap. }
  cbn [mbind res_bind]. rewrite guard_or_Ok.
  split; [|destruct (forallb _ _); [by left|by right]].
  assert (forallb (fun s : gset Z => bool_decide (s = ∅)) sets = true <-> forall x m, ~ remains sets x m) as ->.
  { rewrite forallb_forall. split.
    - intros H x m (s & Hx & Hm). unfold zget in Hx. destruct (_ <? 0); [done|].
      apply list_elem_of_lookup_2, list_elem_of_In, H in Hx. apply bool_decide_eq_true in Hx. set_solver.
    - intros H s Hin%list_elem_of_In. apply bool_decide_eq_true. apply list_elem_of_lookup in Hin as [i Hi].
      apply set_eq. intros m. split; [|set_solver]. intros Hm. exfalso. apply (H (Z.of_nat i) m).
      exists s. unfold zget. destruct (Z.ltb_spec (Z.of_nat i) 0); [lia|]. by rewrite Nat2Z.id. }
  split.
  - intros H k j p l Hj Hpa Hl. set (x := node (Z.of_nat k) j) in *.
    destruct (decide (l ∈ (non_empty_leaves v).*1)) as [Hin|Hno].
    2: exfalso; apply (H x l), Hr; split; [apply remains_initial; naive_solver|naive_solver].
    assert (~ ~ reaches v l 0 x) as Hnn.
    { intros Hno. apply (H x l), Hr. split; [apply remains_initial; naive_solver|naive_solver]. }
    assert (reaches v l 0 x -> j = Z.shiftr l (Z.of_nat k) /\ forall i : nat, (0 < i <= k)%nat -> climbs v l i) as Hre.
    { intros (k' & Hk' & E & _ & Hc). apply list_elem_of_fmap in Hin as ([l' lf] & -> & Hin). cbn in *.
      apply elem_of_members, (leaf_at_bound v _ _ Hv) in Hin as [Hl0 _].
      apply node_inj in E as [Ek ->]; [|lia|done|lia|apply Z.shiftr_nonneg; lia].
      apply Nat2Z.inj in Ek as ->. done. }
    split_and!.
    + apply list_elem_of_fmap in Hin as ([l' lf] & -> & Hin). apply elem_of_members in Hin. by exists lf.
    + apply dec_stable. naive_solver.
    + intros k' p' Hk' Hp'. apply dec_stable. intros Hnot. apply Hnn. intros [_ Hc]%Hre. apply Hnot, (Hc k'); [lia|done].
  - intros H x m [(p & Hpa & Hm)%remains_initial Hno]%Hr. apply Hno.
    pose proof (nd_bound _ _ _ (nd_parent_at _ _ _ Hpa)) as Hb. destruct (node_decompose x ltac:(lia)) as (k & j & Hk & Hj & E).
    replace k with (Z.of_nat (Z.to_nat k)) in E by lia. set (kn := Z.to_nat k) in *. rewrite E in Hpa.
    destruct (H kn j p m Hj Hpa Hm) as ([lf Hlf] & Ej & Hbt). split.
    { apply list_elem_of_fmap. exists (m, lf). split; [done|]. by apply elem_of_members. }
    assert (0 < kn)%nat.
    { destruct kn; [|lia]. exfalso. apply nd_parent_at, Hp in Hpa. change (Z.of_nat 0) with 0 in Hpa.
      by rewrite node_0, odd_double in Hpa. }
    exists kn. split_and!; [done|by rewrite E, Ej|by rewrite E; exists p|].
    intros i Hi p' Hp'. destruct (decide (i = kn)) as [->|].
    + rewrite <- Ej, Hpa in Hp'. by simplify_eq.
    + apply (Hbt i p'); [lia|done].
Qed.
End unmerged.

(** A leaf made by its owner satisfies the validator, provided the owner signs
    with the key of the identity and claims the capabilities it needs. *)
Definition acceptable {idp : IdentityProvider} (ctx : MemberValidationContext) (time : option Z) (l : LeafNode) : Prop :=
  validate_member (signing_identity l) time ctx = Ok tt /\ capable ctx l.

Section own_leaves.
Context {idp : IdentityProvider} `{CipherSuiteProvider, !SignatureLaws}.

Lemma leaf_generate_spec c1 c2 properties id signer lt l sk :
  leaf_generate c1 c2 properties id signer lt = Ok (l, sk) ->
  signature_key_derive_public signer = Ok (signature_key id) ->
  is_key_pair sk (leaf_public_key l) /\ signing_identity l = id /\ leaf_node_source l = SourceKeyPackage lt /\
  capabilities l = cfg_capabilities properties /\ leaf_extensions l = cfg_extensions properties /\
  signable_verify (signature_key id) leaf_ctx_default l = Ok tt.
Proof using Type*.
  unfold leaf_generate. intros ([sk' pk] & Hk & (l' & Hs & [= -> ->])%bind_Ok)%bind_Ok Hd.
  apply map_err_Ok in Hk. eapply sign_verify in Hs as [[s ->] Hv]; [|exact Hd].
  split_and!; try done. right. by exists c1.
Qed.

Lemma leaf_update_spec c1 c2 gid i properties new_id signer l l' sk :
  leaf_update c1 c2 gid i properties new_id signer l = (Ok sk, l') ->
  signature_key_derive_public signer = Ok (signature_key (signing_identity l')) ->
  is_key_pair sk (leaf_public_key l') /\ leaf_node_source l' = SourceUpdate /\
  signable_verify (signature_key (signing_identity l')) (leaf_ctx_in gid i) l' = Ok tt.
Proof using Type*.
  unfold leaf_update. intros Hu Hd.
  apply sm_bind_Ok in Hu as ([sk' pk] & l1 & Hk & Hu). injection Hk as Hk <-. apply map_err_Ok in Hk.
  rewrite sm_modify_run, sm_get_run in Hu. apply sm_bind_Ok in Hu as (l2 & l3 & [= Hs <-] & Hu).
  injection Hu as <- <-. eapply sign_verify in Hs as [[s ->] Hv]; [|exact Hd].
  split_and!; try done. right. by exists c1.
Qed.

Lemma key_package_generate_spec c1 c2 c3 c4 version id signer lt caps kext lext g :
  key_package_generate c1 c2 c3 c4 version id signer lt caps kext lext = Ok g ->
  signature_key_derive_public signer = Ok (signature_key id) ->
  let k := kpg_key_package g in
  kp_version k = version /\ kp_cipher_suite k = cipher_suite /\ kp_extensions k = kext /\
  is_key_pair (kpg_init_secret_key g) (hpke_init_key k) /\
  is_key_pair (kpg_leaf_node_secret_key g) (leaf_public_key (kp_leaf_node k)) /\
  signing_identity (kp_leaf_node k) = id /\ leaf_node_source (kp_leaf_node k) = SourceKeyPackage lt /\
  capabilities (kp_leaf_node k) = caps /\ leaf_extensions (kp_leaf_node k) = lext /\
  signable_verify (signature_key id) leaf_ctx_default (kp_leaf_node k) = Ok tt /\
  signable_verify (signature_key id) tt k = Ok tt /\
  to_reference k = Ok (kpg_reference g).
Proof using Type*.
  unfold key_package_generate. intros Hg Hd.
  apply bind_Ok in Hg as ([isk ipk] & Hk & Hg). apply map_err_Ok in Hk.
  apply bind_Ok in Hg as ([l lsk] & Hl & Hg). apply bind_Ok in Hg as (k & Hs & (r & Hr & [= <-])%bind_Ok).
  apply leaf_generate_spec in Hl as (? & ? & ? & ? & ? & ?); [|done].
  eapply sign_verify in Hs as [[s ->] Hv]; [|exact Hd]. cbn.
  split_and!; try done. right. by exists c1.
Qed.
End own_leaves.

(** C28: which leaf nodes the validator accepts: those whose source fits the
    use (and whose lifetime covers the time, for a key package), whose identity
    the application accepts, whose signature verifies in the group and position
    of the use, and that are capable of the group's required capabilities and
    extensions, of their own extensions and of the external senders' credentials. *)
Theorem check_if_valid_iff {idp : IdentityProvider} `{CipherSuiteProvider} ctx l context :
  check_if_valid ctx l context = Ok tt <->
  right_source l context /\
  validate_member (signing_identity l) (vc_generation_time context) ctx = Ok tt /\
  signable_verify (signature_key (signing_identity l)) (vc_signing_context context) l = Ok tt /\
  capable ctx l.
Proof. apply check_if_valid_spec. Qed.

(** A member's own update passes every other member's validation: it is
    signed for its group and position, its source marks it as an update, so it
    is refused as an add and as a commit, and its owner holds the pair of its
    new public key. *)
Theorem own_update_accepted {idp : IdentityProvider} `{CipherSuiteProvider, !SignatureLaws} ctx time c1 c2 gid i
    properties new_id signer l l' sk
    (Hupd : leaf_update c1 c2 gid i properties new_id signer l = (Ok sk, l'))
    (Hkey : signature_key_derive_public signer = Ok (signature_key (signing_identity l')))
    (Hacc : acceptable ctx time l') :
  revalidate ctx l' gid i time = Ok tt /\ check_if_valid ctx l' (VUpdate gid i time) = Ok tt /\
  is_key_pair sk (leaf_public_key l') /\
  (forall j t, check_if_valid ctx l' (VAdd t) = Err InvalidLeafNodeSource /\
     check_if_valid ctx l' (VCommit gid j t) = Err InvalidLeafNodeSource).
Proof.
  apply leaf_update_spec in Hupd as (Hp & Hs & Hv); [|done]. destruct Hacc as [Hm Hc].
  assert (check_if_valid ctx l' (VUpdate gid i time) = Ok tt) as Hok.
  { apply check_if_valid_spec. unfold right_source. by rewrite Hs. }
  unfold revalidate. rewrite Hs. split_and!; [done..|].
  intros j t. unfold check_if_valid, check_context. by rewrite Hs.
Qed.

Definition update_for_sample : mres bytes * LeafNode :=
  leaf_update (H := Toy.provider) 7%nat 8%nat [1] 2 (Some (mk_config_properties (mk_capabilities [1] [1] [1] [] [1]) [mk_extension 1 [7]])) None [3] sample_leaf.

Lemma own_update_accepted_witness :
  revalidate (H := Toy.provider) (idp := plain_provider) NoContext update_for_sample.2 [1] 2 None = Ok tt.
Proof.
  destruct update_for_sample as [[sk|e|] l'] eqn:E; [|by vm_compute in E..].
  refine (proj1 (own_update_accepted (H := Toy.provider) (H0 := Toy.signature_laws) (idp := plain_provider) NoContext None 7%nat 8%nat [1] 2 (Some (mk_config_properties (mk_capabilities [1] [1] [1] [] [1]) [mk_extension 1 [7]])) None [3]
    sample_leaf l' sk E _ _)).
  all: vm_compute in E; injection E as <- <-.
  { done. }
  split; [done|]. split; [by exists None| |done|by exists None].
  intros x Hx. cbn in *. set_solver.
Defined.

(** The life of a key package: what the generator makes is valid unless the
    two generated keys collide, is refused for another protocol version, has a
    leaf that is accepted by an Add during its lifetime, and is read back
    unchanged from the storage, which knows its expiration. *)
Theorem key_package_lifecycle {idp : IdentityProvider} `{CipherSuiteProvider, !SignatureLaws, !HpkeLaws}
    c1 c2 c3 c4 version id signer lt caps kext lext g
    (Hgen : key_package_generate c1 c2 c3 c4 version id signer lt caps kext lext = Ok g)
    (Hkey : signature_key_derive_public signer = Ok (signature_key id))
    (Hwf : key_package_wf (kpg_key_package g)) :
  let k := kpg_key_package g in
  (hpke_init_key k <> leaf_public_key (kp_leaf_node k) -> validate_key_package_properties k version = Ok tt) /\
  (hpke_init_key k = leaf_public_key (kp_leaf_node k) ->
     validate_key_package_properties k version = Err InitLeafKeyEquality) /\
  (forall v, v <> version -> validate_key_package_properties k v = Err ProtocolVersionMismatch) /\
  (forall ctx now, not_before lt <= now <= not_after lt -> acceptable ctx (Some now) (kp_leaf_node k) ->
     check_if_valid ctx (kp_leaf_node k) (VAdd (Some now)) = Ok tt) /\
  (forall stored, to_storage g = Ok stored ->
     from_storage stored.1 stored.2 = Ok g /\ kpd_expiration stored.2 = not_after lt).
Proof.
  apply key_package_generate_spec in Hgen as (Hv & Hcs & He & Hik & Hlk & Hid & Hsrc & Hcap & Hext & Hvl & Hvk & Hr); [|done].
  cbv zeta. set (k := kpg_key_package g) in *.
  assert (forall v, validate_key_package_properties k v =
    _ ← guard_or ProtocolVersionMismatch (version =? v);
    guard_or InitLeafKeyEquality (negb (bool_decide (hpke_init_key k = leaf_public_key (kp_leaf_node k))))) as Hval.
  { intros v. unfold validate_key_package_properties. rewrite Hid, Hvk, Hv, Hcs, Z.eqb_refl. cbn [mbind res_bind guard_or].
    by rewrite (validate_key_pair _ _ Hik). }
  split_and!.
  - intros Hne. rewrite Hval, Z.eqb_refl, bool_decide_false; done.
  - intros Heq. rewrite Hval, Z.eqb_refl, bool_decide_true; done.
  - intros v Hne. rewrite Hval. destruct (Z.eqb_spec version v); [by subst|done].
  - intros ctx now Hnow [Hm Hc]. apply check_if_valid_spec. unfold right_source. rewrite Hsrc, Hid. cbn.
    rewrite Hid in Hm. split_and!; [by intros ? [= <-]|done..].
  - intros [sid d] Hst. unfold to_storage in Hst. apply bind_Ok in Hst as (b & Hb & (e & Hex & [= <- <-])%bind_Ok).
    unfold from_storage. cbn [fst snd kpd_bytes kpd_init_key kpd_leaf_node_key kpd_expiration]. fold k in Hb, Hex.
    unfold from_codec in Hb. apply map_err_Ok in Hb.
    pose proof (enc_spec (c := key_package_codec) k Hwf) as Hg. unfold enc_good in Hg.
    unfold mls_encode_to_vec in Hb. rewrite Hb in Hg. destruct Hg as (_ & _ & Hdec).
    specialize (Hdec [] ltac:(done)). rewrite app_nil_r in Hdec. rewrite Hdec. cbn [from_codec map_err mbind res_bind]. split.
    + by destruct g.
    + unfold expiration in Hex. rewrite Hsrc in Hex. by injection Hex as <-.
Qed.

Definition sample_generation : mres KeyPackageGeneration :=
  key_package_generate (H := Toy.provider) 1%nat 2%nat 3%nat 4%nat 1 (mk_signing_identity [5] (Basic [5])) [5]
    (mk_lifetime 0 100) (mk_capabilities [1] [1] [] [] [1]) [] [].

Lemma key_package_lifecycle_witness : exists g stored, sample_generation = Ok g /\ to_storage g = Ok stored /\
  validate_key_package_properties (H := Toy.provider) (kpg_key_package g) 1 = Ok tt /\
  from_storage stored.1 stored.2 = Ok g.
Proof.
  destruct sample_generation as [g|e|] eqn:E; [|by vm_compute in E..].
  destruct (key_package_lifecycle (H := Toy.provider) (H0 := Toy.signature_laws) (H1 := Toy.hpke_laws) (idp := plain_provider) 1%nat 2%nat 3%nat 4%nat 1
    (mk_signing_identity [5] (Basic [5])) [5] (mk_lifetime 0 100) (mk_capabilities [1] [1] [] [] [1]) [] [] g E)
    as (H1 & _ & _ & _ & H5); [done|vm_compute in E; injection E as <-; repeat split; repeat constructor; by vm_compute|].
  destruct (to_storage g) as [stored|e|] eqn:Es; [|by vm_compute in E; injection E as <-..].
  exists g, stored. split_and!; [done|done| |by apply (H5 stored)].
  apply H1. vm_compute in E. by injection E as <-.
Defined.

(** C29: the check of unmerged leaves of an imported tree always decides, and
    accepts exactly the trees of RFC 9420, section 12.4.3.3: an unmerged leaf of
    a node is a member below it, and is unmerged at every occupied node in
    between. *)
Theorem validate_unmerged_iff (t : TreeKemPublic) (Hs : leaf_shaped (nodes t)) (Hp : parity_ok (nodes t)) :
  (validate_unmerged t = Ok tt <-> unmerged_consistent (nodes t)) /\
  (validate_unmerged t = Ok tt \/ validate_unmerged t = Err UnmergedLeavesMismatch).
Proof. by apply validate_unmerged_spec. Qed.

(** Leaf 1 is unmerged at its parent but not at the root. *)
Definition unmerged_tree (u1 u2 : list Z) : TreeKemPublic :=
  mk_tree_kem_public tree_index_new
    [Some (NodeLeaf (member_leaf 1)); Some (NodeParent (mk_parent [4] [] u1)); Some (NodeLeaf (member_leaf 2));
     Some (NodeParent (mk_parent [5] [] u2)); Some (NodeLeaf (member_leaf 3))] [].

Lemma unmerged_tree_parity u1 u2 : parity_ok (nodes (unmerged_tree u1 u2)).
Proof.
  intros x n Hn. pose proof (nd_bound _ _ _ Hn) as Hb. change (zlen (nodes (unmerged_tree u1 u2))) with 5 in Hb.
  assert (x = 0 \/ x = 1 \/ x = 2 \/ x = 3 \/ x = 4) as Hx by lia.
  destruct Hx as [->|[->|[->|[->| ->]]]]; by injection Hn as <-.
Qed.

Lemma validate_unmerged_iff_witness :
  unmerged_consistent (nodes (unmerged_tree [1] [])) /\ ~ unmerged_consistent (nodes (unmerged_tree [] [1])).
Proof.
  assert (forall u1 u2, leaf_shaped (nodes (unmerged_tree u1 u2))) as Hs by (split; [by right|by vm_compute]).
  split.
  - apply (validate_unmerged_iff _ (Hs _ _) (unmerged_tree_parity _ _)). by vm_compute.
  - intros Hc. apply (validate_unmerged_iff _ (Hs _ _) (unmerged_tree_parity _ _)) in Hc. by vm_compute in Hc.
Defined.

(** A tree with a parent node in the place of the second leaf. *)
Definition misplaced_leaf : mres LeafNode :=
  fst <$> leaf_generate (H := Toy.provider) 1%nat 2%nat
    (mk_config_properties (mk_capabilities [1] [1] [] [] [1]) []) (mk_signing_identity [5] (Basic [5])) [5] (mk_lifetime 0 100).

Definition misplaced_tree : mres TreeKemPublic :=
  (fun l => mk_tree_kem_public tree_index_new [Some (NodeLeaf l); None; Some (NodeParent (mk_parent [4] [] []))]
    []) <$> misplaced_leaf.

Definition misplaced_context (t : TreeKemPublic) : mres GroupContext :=
  (fun h => mk_group_context 1 1 [7] 0 h [] []) <$> (tree_kem_tree_hash (H := Toy.provider) t).1.

(** Validation does not check that parent nodes are at odd indices: a tree
    with a parent node in the place of a leaf has a tree hash (the leaf counts
    as blank there), and passes, while [next_empty_leaf] counts the place as
    taken. *)
Theorem validate_tree_accepts_misplaced_parent : exists t ctx,
  ~ parity_ok (nodes t) /\ misplaced_tree = Ok t /\ misplaced_context t = Ok ctx /\
  (validate_tree (H := Toy.provider) (idp := plain_provider) ctx (Some 50) t).1 = Ok tt /\
  leaf_at (nodes t) 1 = None /\ next_empty_leaf (nodes t) 0 = Ok 2.
Proof.
  destruct misplaced_tree as [t|e|] eqn:E; [|by vm_compute in E..]. exists t.
  destruct (misplaced_context t) as [ctx|e|] eqn:Ec; [|by vm_compute in E; injection E as <-; vm_compute in Ec..].
  exists ctx. vm_compute in E. injection E as <-. vm_compute in Ec. injection Ec as <-.
  split; [|split_and!; by vm_compute].
  intros Hp. specialize (Hp 2 (NodeParent (mk_parent [4] [] [])) ltac:(done)). done.
Qed.
