(* ===== verification/Kem.v ===== *)
(** * TreeKEM

    Path secrets (mls-rs/src/tree_kem/path_secret.rs), labelled HPKE encryption
    (mls-rs/src/tree_kem/hpke_encryption.rs), the private state of a member
    (mls-rs/src/tree_kem/private.rs), and the generation and the processing of
    the path of a commit (mls-rs/src/tree_kem/kem.rs).  The order in which the
    path secrets are encrypted is the sequential one; with several failing
    encryptions the parallel build may report another one of the errors. *)

From Stdlib Require Import Sorted.
From S2P Require Import Prelude Codec Crypto TreeMath Data NodeVec TreeIndex TreeHash ParentHash TreeInv Proposals TreeKem TreePath LeafNodes.

#[local] Set Default Goal Selector "!".
Local Open Scope Z_scope.

(** ** Labelled encryption *)

Record EncryptContext := mk_encrypt_context { ec_label : bytes; ec_context : bytes }.

Definition encrypt_context_codec : codec EncryptContext :=
  struct_codec (fun c => (ec_label c, ec_context c)) (fun '(l, c) => mk_encrypt_context l c)
    (pair_codec byte_vec_codec byte_vec_codec).

Definition encrypt_context_new (label context : bytes) : EncryptContext :=
  mk_encrypt_context (bstr "MLS 1.0 " ++ label) context.

Class HpkeEncryptable (A : Type) := {
  ENCRYPT_LABEL : bytes;
  he_from_bytes : bytes -> mres A;
  he_get_bytes : A -> mres bytes;
}.

(** What an [HpkeEncryptable] type owes: it is read back from its bytes. *)
Class HpkeEncryptableLaws (A : Type) `{HpkeEncryptable A} (wf : A -> Prop) : Prop := {
  from_get_bytes a b : wf a -> he_get_bytes a = Ok b -> he_from_bytes b = Ok a;
}.

Section encryptable.
Context `{CipherSuiteProvider} {A : Type} `{HpkeEncryptable A}.

Definition he_encrypt (coins : Coins) (a : A) (public_key : HpkePublicKey) (context : bytes) : mres HpkeCiphertext :=
  context ← from_codec (mls_encode_to_vec encrypt_context_codec (encrypt_context_new ENCRYPT_LABEL context));
  content ← he_get_bytes a;
  from_crypto (hpke_seal coins public_key context None content).

Definition he_decrypt (secret_key : HpkeSecretKey) (public_key : HpkePublicKey) (context : bytes)
    (ciphertext : HpkeCiphertext) : mres A :=
  context ← from_codec (mls_encode_to_vec encrypt_context_codec (encrypt_context_new ENCRYPT_LABEL context));
  plaintext ← from_crypto (hpke_open ciphertext secret_key public_key context None);
  he_from_bytes plaintext.
End encryptable.

(** ** Path secrets *)

Notation PathSecret := bytes (only parsing).
Definition path_secret_codec : codec PathSecret := byte_vec_codec.

#[export] Instance path_secret_encryptable : HpkeEncryptable PathSecret := {|
  ENCRYPT_LABEL := bstr "UpdatePathNode";
  he_from_bytes b := Ok b;
  he_get_bytes s := Ok s;
|}.

Record PathSecretGenerator := mk_psg { psg_last : option PathSecret; psg_starting_with : option PathSecret }.

Definition psg_new : PathSecretGenerator := mk_psg None None.
Definition psg_starting (secret : PathSecret) : PathSecretGenerator := mk_psg None (Some secret).

Section path_secret.
Context `{CipherSuiteProvider}.

Definition path_secret_random (coins : Coins) : mres PathSecret :=
  from_crypto (random_bytes_vec coins kdf_extract_size).

Definition path_secret_empty : PathSecret := replicate (Z.to_nat kdf_extract_size) 0.

Definition to_hpke_key_pair (secret : PathSecret) : mres (HpkeSecretKey * HpkePublicKey) :=
  node_secret ← kdf_derive_secret secret (bstr "node");
  from_crypto (kem_derive node_secret).

(** [next_secret]; the coins are drawn for the first secret of a generator
    made by [new]. *)
Definition next_secret (coins : Coins) : SM PathSecretGenerator MlsError PathSecret := fun g =>
  let secret :=
    match psg_starting_with g with
    | Some s => Ok s
    | None =>
        match psg_last g with
        | Some l => kdf_derive_secret l (bstr "path")
        | None => path_secret_random coins
        end
    end in
  match secret with
  | Ok s => (Ok s, mk_psg (Some s) None)
  | Err e => (Err e, mk_psg None None)
  | Panic => (Panic, g)
  end.
End path_secret.

(** ** Private keys of a member *)

(** [secret_keys] holds the keys of the own leaf and of the nodes of the own
    direct path, by level. *)
Record TreeKemPrivate := mk_private { self_index : Z; secret_keys : list (option HpkeSecretKey) }.

Definition tree_kem_private_codec : codec TreeKemPrivate :=
  struct_codec (fun p => (self_index p, secret_keys p)) (fun '(i, k) => mk_private i k)
    (pair_codec leaf_index_codec (vec_codec (option_codec byte_vec_codec))).

Definition new_self_leaf (i : Z) (leaf_secret : HpkeSecretKey) : TreeKemPrivate := mk_private i [Some leaf_secret].
Definition new_for_external : TreeKemPrivate := mk_private 0 [].

Definition set_keys (ks : list (option HpkeSecretKey)) (p : TreeKemPrivate) : TreeKemPrivate :=
  mk_private (self_index p) ks.

(** [secret_keys.resize(n, None)]. *)
Definition resize_keys (n : Z) (p : TreeKemPrivate) : TreeKemPrivate :=
  set_keys (take (Z.to_nat n) (secret_keys p) ++ replicate (Z.to_nat (n - zlen (secret_keys p))) None) p.

(** [secret_keys[i] = k]. *)
Definition put_key (i : Z) (k : option HpkeSecretKey) : SM TreeKemPrivate MlsError unit := fun p =>
  if bool_decide (0 <= i < zlen (secret_keys p)) then (Ok tt, set_keys (zset (secret_keys p) i k) p) else (Panic, p).

(** The private state with a generator of path secrets. *)
Record KeyState := mk_key_state { ks_private : TreeKemPrivate; ks_gen : PathSecretGenerator }.

Definition zoom_private {A} : SM TreeKemPrivate MlsError A -> SM KeyState MlsError A :=
  sm_zoom ks_private (fun p s => mk_key_state p (ks_gen s)).
Definition zoom_gen {A} : SM PathSecretGenerator MlsError A -> SM KeyState MlsError A :=
  sm_zoom ks_gen (fun g s => mk_key_state (ks_private s) g).

(** [leaf_lca_level(a.into(), b.into()) as usize - 2], on node indices. *)
Definition lca_position (a b : Z) : mres Z :=
  l ← unwrap (leaf_lca_level (node_index a) (node_index b));
  Ok (wrap 64 (l - 2)).

Section private.
Context `{CipherSuiteProvider}.

(** The loop of [update_secrets], over the positions from that of the common
    ancestor on. *)
Fixpoint update_secrets_loop (coins : Coins) (v : NodeVec) (items : list (Z * (CopathNode * bool))) :
    SM KeyState MlsError unit :=
  match items with
  | [] => mret tt
  | (_, (_, true)) :: items => update_secrets_loop coins v items
  | (i, (n, false)) :: items =>
      secret ← zoom_gen (next_secret coins);
      node ← sm_lift (borrow_node v (path n));
      expected_pub_key ← sm_lift (ok_or PubKeyMismatch (node_public_key <$> node));
      '(secret_key, public_key) ← sm_lift (to_hpke_key_pair secret);
      if bool_decide (expected_pub_key = public_key) then
        _ ← zoom_private (put_key (i + 1) (Some secret_key));
        update_secrets_loop coins v items
      else sm_lift (Err PubKeyMismatch)
  end.

Definition update_secrets (coins : Coins) (signer_index : Z) (path_secret : PathSecret) (public_tree : TreeKemPublic) :
    SM TreeKemPrivate MlsError unit := fun p =>
  match
    lca_index ← lca_position (self_index p) signer_index;
    let path := vec_direct_copath (nodes public_tree) (self_index p) in
    filtered ← filtered (nodes public_tree) (self_index p);
    Ok (lca_index, path, filtered)
  with
  | Ok (lca_index, path, filtered) =>
      let '(r, s) := update_secrets_loop coins (nodes public_tree)
                       (drop (Z.to_nat lca_index) (enumerate (zip path filtered)))
                       (mk_key_state (resize_keys (zlen path + 1) p) (psg_starting path_secret)) in
      (r, ks_private s)
  | Err e => (Err e, p)
  | Panic => (Panic, p)
  end.

(** [update_leaf]; it indexes the keys, of which there is one of the leaf. *)
Definition update_own_leaf (new_leaf : HpkeSecretKey) : SM TreeKemPrivate MlsError unit :=
  _ ← sm_modify (fun p => set_keys ((fun _ => None) <$> secret_keys p) p);
  put_key 0 (Some new_leaf).
End private.

(** ** Generating a path *)

Record EncapGeneration := mk_encap_generation {
  eg_update_path : UpdatePath;
  eg_path_secrets : list (option PathSecret);
  eg_commit_secret : PathSecret;
}.

(** What [encap] changes: the public tree, the private keys and the group
    context, with the generator of path secrets it uses. *)
Record KemState := mk_kem_state {
  ke_tree : TreeKemPublic;
  ke_keys : KeyState;
  ke_context : GroupContext;
}.

Definition zoom_ke_tree {A} : SM TreeKemPublic MlsError A -> SM KemState MlsError A :=
  sm_zoom ke_tree (fun t s => mk_kem_state t (ke_keys s) (ke_context s)).
Definition zoom_ke_keys {A} : SM KeyState MlsError A -> SM KemState MlsError A :=
  sm_zoom ke_keys (fun k s => mk_kem_state (ke_tree s) k (ke_context s)).

(** [borrow_as_leaf_mut] followed by a method of the leaf. *)
Definition zoom_leaf {A} (i : Z) (m : SM LeafNode MlsError A) : SM TreeKemPublic MlsError A := fun t =>
  match borrow_as_leaf_mut (nodes t) i with
  | Ok l => let '(r, l) := m l in (r, set_nodes (zset (nodes t) (node_index i) (Some (NodeLeaf l))) t)
  | Err e => (Err e, t)
  | Panic => (Panic, t)
  end.

Definition set_context_tree_hash (h : bytes) (c : GroupContext) : GroupContext :=
  mk_group_context (protocol_version c) (gc_cipher_suite c) (group_id c) (epoch c) h (confirmed_transcript_hash c)
    (gc_extensions c).

Section encap.
Context `{CipherSuiteProvider}.

(** The loop of [encap] over the positions of the path. *)
Fixpoint encap_loop (coins : Coins) (items : list (Z * (CopathNode * bool))) :
    SM KemState MlsError (list (option PathSecret)) :=
  match items with
  | [] => mret []
  | (i, (node, f)) :: items =>
      s ← (if negb f : bool then
             secret ← zoom_ke_keys (zoom_gen (next_secret coins));
             '(secret_key, public_key) ← sm_lift (to_hpke_key_pair secret);
             _ ← zoom_ke_keys (zoom_private (put_key (i + 1) (Some secret_key)));
             _ ← zoom_ke_tree (update_node public_key (path node));
             mret (Some secret)
           else
             _ ← zoom_ke_keys (zoom_private (put_key (i + 1) None));
             mret None);
      ss ← encap_loop coins items;
      mret (s :: ss)
  end.

(** [encrypt_copath_node_resolution]; the encryption to the node [idx] draws
    [coins copath_index idx]. *)
Definition encrypt_copath_node_resolution (coins : Z -> Z -> Coins) (t : TreeKemPublic) (path_secret : PathSecret)
    (copath_index : Z) (context : bytes) (excluding : gset Z) : mres UpdatePathNode :=
  reso ← get_resolution_index (nodes t) copath_index;
  ctxts ← mapM_res (fun idx =>
      n ← borrow_node (nodes t) idx;
      n ← as_non_empty n;
      he_encrypt (coins copath_index idx) path_secret (node_public_key n) context)
    (List.filter (fun idx => negb (bool_decide (idx ∈ excluding))) reso);
  ps ← ok_or ExpectedNode (parent_sibling 32 copath_index (total_leaf_count (nodes t)));
  p ← borrow_as_parent (nodes t) (parent ps);
  Ok (mk_update_path_node (parent_public_key p) ctxts).

Definition encrypt_path_secrets (coins : Z -> Z -> Coins) (t : TreeKemPublic) (path : list CopathNode)
    (path_secrets : list (option PathSecret)) (context_bytes : bytes) (excluding : list Z) : mres (list UpdatePathNode) :=
  let excluding := list_to_set (node_index <$> excluding) in
  mapM_res (fun '(n, secret) =>
      encrypt_copath_node_resolution coins t secret (copath n) context_bytes excluding)
    (omap (fun '(n, s) => (fun s => (n, s)) <$> s) (zip path path_secrets)).

(** [TreeKem::encap], in the state whose generator is new. *)
Definition encap (c_secret c_key c_sign : Coins) (c_seal : Z -> Z -> Coins) (excluding : list Z)
    (signer : SignatureSecretKey) (update_leaf_properties : option ConfigProperties)
    (signing_identity : option SigningIdentity) : SM KemState MlsError EncapGeneration :=
  s ← sm_get;
  let i := self_index (ks_private (ke_keys s)) in
  let path := vec_direct_copath (nodes (ke_tree s)) i in
  filtered ← sm_lift (filtered (nodes (ke_tree s)) i);
  _ ← zoom_ke_keys (zoom_private (sm_modify (resize_keys (zlen path + 1))));
  path_secrets ← encap_loop c_secret (enumerate (zip path filtered));
  _ ← zoom_ke_tree (update_parent_hashes i false);
  leaf_key ← zoom_ke_tree (zoom_leaf i (leaf_commit c_key c_sign (group_id (ke_context s)) i update_leaf_properties
                                          signing_identity signer));
  _ ← zoom_ke_keys (zoom_private (put_key 0 (Some leaf_key)));
  s ← sm_get;
  update_path_leaf ← sm_lift (borrow_as_leaf_mut (nodes (ke_tree s)) i);
  _ ← zoom_ke_tree (update_hashes [i]);
  h ← zoom_ke_tree tree_kem_tree_hash;
  _ ← sm_modify (fun s => mk_kem_state (ke_tree s) (ke_keys s) (set_context_tree_hash h (ke_context s)));
  s ← sm_get;
  context_bytes ← sm_lift (from_codec (mls_encode_to_vec group_context_codec (ke_context s)));
  node_updates ← sm_lift (encrypt_path_secrets c_seal (ke_tree s) path path_secrets context_bytes excluding);
  commit_secret ← zoom_ke_keys (zoom_gen (next_secret c_secret));
  mret (mk_encap_generation (mk_update_path update_path_leaf node_updates) path_secrets commit_secret).
End encap.

(** ** Processing a path *)

(** [while is_blank(path[lca_index]) { lca_index -= 1 }]: below the leaf the
    index wraps around and is out of range. *)
Fixpoint resolved_loop (v : NodeVec) (path : list CopathNode) (lca_index : nat) : mres nat :=
  n ← unwrap (path !! lca_index);
  blank ← is_blank v (TreeMath.path n);
  if blank : bool then
    match lca_index with
    | O => Panic
    | S lca_index => resolved_loop v path lca_index
    end
  else Ok lca_index.

Definition find_resolved_pos (v : NodeVec) (keys : list (option HpkeSecretKey)) (path : list CopathNode) (lca_index : Z) :
    mres Z :=
  _ ← unwrap (zget path lca_index);
  r ← resolved_loop v path (Z.to_nat lca_index);
  k ← unwrap (keys !! r);
  Ok (match k with None => 0 | Some _ => Z.of_nat r end).

Fixpoint find_position {A} (p : A -> bool) (l : list A) : option Z :=
  match l with
  | [] => None
  | x :: l => if p x then Some 0 else (fun i => i + 1) <$> find_position p l
  end.

Definition find_ciphertext_pos (v : NodeVec) (lca resolved : Z) (excluding : list Z) : mres Z :=
  reso ← get_resolution_index v lca;
  ok_or UpdateErrorNoSecretKey
    (find_position (fun idx => idx =? resolved)
      (List.filter (fun idx => (idx mod 2 =? 1) ||
         negb (bool_decide (leaf_from_node_index_unchecked idx ∈ excluding))) reso)).

Section decap.
Context `{CipherSuiteProvider}.

(** The loop of [decap], over the nodes from that of the common ancestor on. *)
Fixpoint decap_loop (coins : Coins) (items : list (Z * option UpdatePathNode)) : SM KeyState MlsError unit :=
  match items with
  | [] => mret tt
  | (i, Some update) :: items =>
      secret ← zoom_gen (next_secret coins);
      '(hpke_private, hpke_public) ← sm_lift (to_hpke_key_pair secret);
      if bool_decide (hpke_public = upn_public_key update) then
        _ ← zoom_private (put_key (i + 1) (Some hpke_private));
        decap_loop coins items
      else sm_lift (Err PubKeyMismatch)
  | (i, None) :: items =>
      _ ← zoom_private (put_key (i + 1) None);
      decap_loop coins items
  end.

(** The part of [decap] before the private keys change: the path secret of the
    common ancestor. *)
Definition decap_secret (t : TreeKemPublic) (p : TreeKemPrivate) (sender_index : Z) (update_path : ValidatedUpdatePath)
    (added_leaves : list Z) (context_bytes : bytes) : mres (Z * PathSecret) :=
  lca_index ← lca_position (self_index p) sender_index;
  let path := mk_copath_node (node_index (self_index p)) 0 :: vec_direct_copath (nodes t) (self_index p) in
  resolved_pos ← find_resolved_pos (nodes t) (secret_keys p) path lca_index;
  lca ← unwrap (zget path lca_index);
  resolved ← unwrap (zget path resolved_pos);
  ct_pos ← find_ciphertext_pos (nodes t) (TreeMath.path lca) (TreeMath.path resolved) added_leaves;
  lca_node ← unwrap (zget (vup_nodes update_path) lca_index);
  lca_node ← ok_or LcaNotFoundInDirectPath lca_node;
  ct ← ok_or LcaNotFoundInDirectPath (zget (encrypted_path_secret lca_node) ct_pos);
  secret ← unwrap (zget (secret_keys p) resolved_pos);
  secret ← ok_or UpdateErrorNoSecretKey secret;
  public ← borrow_node (nodes t) (TreeMath.path resolved);
  public ← ok_or UpdateErrorNoSecretKey public;
  lca_path_secret ← he_decrypt secret (node_public_key public) context_bytes ct;
  Ok (lca_index, lca_path_secret).

(** [TreeKem::decap]; the keys are resized to the length of the path with the
    leaf, plus one. *)
Definition decap (coins : Coins) (t : TreeKemPublic) (sender_index : Z) (update_path : ValidatedUpdatePath)
    (added_leaves : list Z) (context_bytes : bytes) : SM TreeKemPrivate MlsError PathSecret := fun p =>
  match decap_secret t p sender_index update_path added_leaves context_bytes with
  | Ok (lca_index, lca_path_secret) =>
      let '(r, s) :=
        (_ ← decap_loop coins (drop (Z.to_nat lca_index) (enumerate (vup_nodes update_path)));
         zoom_gen (next_secret coins))
        (mk_key_state (resize_keys (zlen (vec_direct_copath (nodes t) (self_index p)) + 2) p) (psg_starting lca_path_secret)) in
      (r, ks_private s)
  | Err e => (Err e, p)
  | Panic => (Panic, p)
  end.
End decap.

(** ** Sequences of path secrets *)

(** A node of a path as the generator makes it. *)
Record Drawn := mk_drawn { dr_secret : PathSecret; dr_private : HpkeSecretKey; dr_public : HpkePublicKey }.

(** [enumerate] from [m] on. *)
Definition enum_from {A} (m : Z) (l : list A) : list (Z * A) := zip (seqZ m (zlen l)) l.

Lemma enum_from_cons {A} m (x : A) l : enum_from m (x :: l) = (m, x) :: enum_from (m + 1) l.
Proof.
  unfold enum_from. assert (zlen (x :: l) = zlen l + 1) as -> by (unfold zlen; cbn [length]; lia).
  rewrite seqZ_cons by (pose proof (zlen_nonneg l); lia). cbn [zip zip_with].
  replace (Z.pred (zlen l + 1)) with (zlen l) by lia. by replace (Z.succ m) with (m + 1) by lia.
Qed.

Lemma drop_enumerate {A} (n : nat) (l : list A) : drop n (enumerate l) = enum_from (Z.of_nat n) (drop n l).
Proof.
  assert (forall m, drop n (enum_from m l) = enum_from (m + Z.of_nat n) (drop n l)) as H; [|exact (H 0)].
  revert l. induction n as [|n IH]; intros l m; [by rewrite !drop_0, Z.add_0_r|].
  destruct l as [|x l]; [done|]. rewrite enum_from_cons. cbn [drop]. rewrite IH. f_equal. lia.
Qed.

Section draws.
Context `{CipherSuiteProvider} (coins : Coins).

(** The nodes that a generator makes for the positions that are not filtered. *)
Fixpoint draws (fs : list bool) (g : PathSecretGenerator) (ds : list (option Drawn)) (g' : PathSecretGenerator) : Prop :=
  match fs, ds with
  | [], [] => g = g'
  | true :: fs, None :: ds => draws fs g ds g'
  | false :: fs, Some d :: ds => exists g1, next_secret coins g = (Ok (dr_secret d), g1) /\
      to_hpke_key_pair (dr_secret d) = Ok (dr_private d, dr_public d) /\ draws fs g1 ds g'
  | _, _ => False
  end.

Lemma draws_app fs1 fs2 g ds g' : draws (fs1 ++ fs2) g ds g' ->
  exists ds1 ds2 g1, ds = ds1 ++ ds2 /\ length ds1 = length fs1 /\ draws fs1 g ds1 g1 /\ draws fs2 g1 ds2 g'.
Proof.
  revert g ds. induction fs1 as [|f fs1 IH]; intros g ds Hd; [by exists [], ds, g|].
  cbn [app draws] in Hd. destruct f, ds as [|[d|] ds]; try done.
  - apply IH in Hd as (ds1 & ds2 & g1 & -> & Hl & H1 & H2). exists (None :: ds1), ds2, g1. cbn. by rewrite Hl.
  - destruct Hd as (g0 & Hn & Hk & Hd). apply IH in Hd as (ds1 & ds2 & g1 & -> & Hl & H1 & H2).
    exists (Some d :: ds1), ds2, g1. cbn. rewrite Hl. split_and!; [done|done|by exists g0|done].
Qed.

Lemma draws_true n g ds g' : draws (replicate n true) g ds g' -> ds = replicate n None /\ g = g'.
Proof.
  revert ds. induction n as [|n IH]; intros [|[d|] ds]; cbn; try done. by intros [-> ->]%IH.
Qed.

Lemma draws_shape fs g ds g' : draws fs g ds g' -> fs = blank_pos <$> ds.
Proof.
  revert g ds. induction fs as [|[] fs IH]; intros g [|[d|] ds]; cbn; try done.
  - by intros <-%IH.
  - by intros (g1 & _ & _ & <-%IH).
Qed.

Lemma next_secret_state g s g' : next_secret coins g = (Ok s, g') -> g' = mk_psg (Some s) None.
Proof.
  unfold next_secret. destruct (match psg_starting_with g with Some _ => _ | None => _ end); intros E; try done.
  by injection E as -> <-.
Qed.

(** From the first secret on, a generator started with it makes the same nodes. *)
Lemma draws_suffix fs g ds g' (n : nat) d : draws fs g ds g' -> ds !! n = Some (Some d) ->
  draws (drop n fs) (psg_starting (dr_secret d)) (drop n ds) g'.
Proof.
  intros Hd Hn. rewrite <- (take_drop n fs) in Hd. apply draws_app in Hd as (ds1 & ds2 & g1 & -> & Hl & H1 & H2).
  pose proof (draws_shape _ _ _ _ H2) as Hs2. 
  assert (n < length fs)%nat as Hlt.
  { destruct (Nat.lt_ge_cases n (length fs)) as [|Hge]; [done|]. rewrite drop_ge in Hs2 by done.
    destruct ds2; [|done]. rewrite app_nil_r in Hn. apply lookup_lt_Some in Hn. rewrite Hl, length_take in Hn. lia. }
  rewrite length_take_le in Hl by lia. rewrite <- Hl at 2. rewrite drop_app_length.
  rewrite lookup_app_r, Hl, Nat.sub_diag in Hn by lia. destruct ds2 as [|d2 ds2]; [done|]. injection Hn as ->.
  destruct (drop n fs) as [|[] fs2]; cbn in H2 |- *; [done|done|].
  destruct H2 as (g2 & Hg2 & Hk & Hr). apply next_secret_state in Hg2 as ->. by exists (mk_psg (Some (dr_secret d)) None).
Qed.
End draws.

(** ** The private keys along a path *)

(** The keys of the levels [m + 1], [m + 2], ... are put in place. *)
Fixpoint put_keys (m : Z) (ds : list (option Drawn)) (ks : list (option HpkeSecretKey)) : list (option HpkeSecretKey) :=
  match ds with
  | [] => ks
  | d :: ds => put_keys (m + 1) ds (zset ks (m + 1) (dr_private <$> d))
  end.

Lemma put_keys_len m ds ks : zlen (put_keys m ds ks) = zlen ks.
Proof. revert m ks. induction ds as [|d ds IH]; intros m ks; [done|]. cbn [put_keys]. by rewrite IH, zlen_zset. Qed.

Lemma put_keys_old m ds ks x : x <= m \/ m + zlen ds < x -> zget (put_keys m ds ks) x = zget ks x.
Proof.
  revert m ks. induction ds as [|d ds IH]; intros m ks Hx; [done|]. cbn [put_keys].
  assert (zlen (d :: ds) = zlen ds + 1) as E by (unfold zlen; cbn [length]; lia). rewrite E in Hx.
  pose proof (zlen_nonneg ds). rewrite IH by lia. apply zget_zset_ne. lia.
Qed.

Lemma put_keys_new m ds ks (n : nat) d : 0 <= m -> m + zlen ds < zlen ks -> ds !! n = Some d ->
  zget (put_keys m ds ks) (m + Z.of_nat n + 1) = Some (dr_private <$> d).
Proof.
  revert m ks n. induction ds as [|d' ds IH]; intros m ks n Hm Hl Hn; [done|]. cbn [put_keys].
  assert (zlen (d' :: ds) = zlen ds + 1) as E by (unfold zlen; cbn [length]; lia). rewrite E in Hl.
  pose proof (zlen_nonneg ds). destruct n as [|n].
  - injection Hn as ->. rewrite put_keys_old by lia. rewrite Z.add_0_r. apply zget_zset_eq. lia.
  - replace (m + Z.of_nat (S n) + 1) with (m + 1 + Z.of_nat n + 1) by lia. apply IH; [lia|rewrite zlen_zset; lia|done].
Qed.

Lemma put_key_run m k p : 0 <= m < zlen (secret_keys p) -> put_key m k p = (Ok tt, set_keys (zset (secret_keys p) m k) p).
Proof. intros Hm. unfold put_key. by rewrite bool_decide_true. Qed.

Lemma put_key_inv m k p u p' : put_key m k p = (Ok u, p') ->
  0 <= m < zlen (secret_keys p) /\ p' = set_keys (zset (secret_keys p) m k) p.
Proof. unfold put_key. case_bool_decide; [|done]. by intros [= _ <-]. Qed.

(** ** The loops *)

Definition path_node (d : option Drawn) : option UpdatePathNode := (fun d => mk_update_path_node (dr_public d) []) <$> d.

Definition drawn_secret (d : option Drawn) : option PathSecret := dr_secret <$> d.

Section loops.
Context `{CipherSuiteProvider} (coins : Coins).

Lemma encap_loop_inv fs : forall cps m s ss s', length cps = length fs ->
  encap_loop coins (enum_from m (zip cps fs)) s = (Ok ss, s') ->
  exists ds, draws coins fs (ks_gen (ke_keys s)) ds (ks_gen (ke_keys s')) /\ ss = drawn_secret <$> ds /\
    ke_context s' = ke_context s /\
    ks_private (ke_keys s') = set_keys (put_keys m ds (secret_keys (ks_private (ke_keys s)))) (ks_private (ke_keys s)) /\
    update_path_nodes (path_node <$> ds) cps (ke_tree s) = (Ok tt, ke_tree s').
Proof using Type*.
  induction fs as [|f fs IH]; intros [|cp cps] m s ss s' Hl Hrun; try done.
  { injection Hrun as <- <-. exists []. split_and!; try done. by destruct s as [? [[]]]. }
  injection Hl as Hl. cbn [zip zip_with] in Hrun. rewrite enum_from_cons in Hrun. cbn [encap_loop] in Hrun.
  apply sm_bind_Ok in Hrun as (x & s1 & Hx & Hrun). apply sm_bind_Ok in Hrun as (ss1 & s2 & Hrest & Hend).
  injection Hend as <- <-. apply IH in Hrest as (ds & Hd & -> & Hc & Hp & Hu); [|done].
  destruct f; cbn [negb] in Hx.
  - apply sm_bind_Ok in Hx as ([] & s0 & Hk & Hx). injection Hx as <- <-.
    unfold zoom_ke_keys, zoom_private, sm_zoom in Hk.
    destruct (put_key (m + 1) None (ks_private (ke_keys s))) as [r p] eqn:E. injection Hk as -> <-.
    apply put_key_inv in E as [_ ->]. cbn in *. exists (None :: ds). by split_and!.
  - apply sm_bind_Ok in Hx as (secret & s3 & Hsec & Hx). unfold zoom_ke_keys, zoom_gen, sm_zoom in Hsec.
    destruct (next_secret coins (ks_gen (ke_keys s))) as [r g] eqn:En. injection Hsec as -> <-.
    apply sm_bind_Ok in Hx as ([sk pk] & s4 & Hkp & Hx). injection Hkp as Hkp <-.
    apply sm_bind_Ok in Hx as ([] & s5 & Hk & Hx). unfold zoom_ke_keys, zoom_private, sm_zoom in Hk. cbn in Hk.
    destruct (put_key (m + 1) (Some sk) (ks_private (ke_keys s))) as [r p] eqn:E. injection Hk as -> <-.
    apply put_key_inv in E as [_ ->].
    apply sm_bind_Ok in Hx as ([] & s6 & Hun & Hx). injection Hx as <- <-. unfold zoom_ke_tree, sm_zoom in Hun. cbn in Hun.
    destruct (update_node pk (path cp) (ke_tree s)) as [r t] eqn:Et. injection Hun as -> <-. cbn in *.
    exists (Some (mk_drawn secret sk pk) :: ds). split_and!; [by exists g|done|done|done|].
    cbn [path_node fmap list_fmap option_fmap option_map update_path_nodes upn_public_key dr_public].
    by erewrite sm_bind_run by exact Et.
Qed.

Lemma decap_loop_run us : forall m ds p g g',
  draws coins (blank_pos <$> us) g ds g' ->
  Forall2 (fun u d => upn_public_key <$> u = dr_public <$> d) us ds ->
  0 <= m -> m + zlen us < zlen (secret_keys p) ->
  decap_loop coins (enum_from m us) (mk_key_state p g) =
    (Ok tt, mk_key_state (set_keys (put_keys m ds (secret_keys p)) p) g').
Proof using Type*.
  induction us as [|u us IH]; intros m ds p g g' Hd Hf Hm Hl.
  { apply Forall2_nil_inv_l in Hf as ->. cbn in Hd. subst. by destruct p. }
  apply Forall2_cons_inv_l in Hf as (d & ds' & Hud & Hf & ->). rewrite enum_from_cons. cbn [decap_loop].
  assert (zlen (u :: us) = zlen us + 1) as E by (unfold zlen; cbn [length]; lia). rewrite E in Hl.
  pose proof (zlen_nonneg us).
  destruct u as [u|], d as [d|]; try done; cbn [fmap list_fmap blank_pos draws] in Hd.
  - destruct Hd as (g1 & Hn & Hk & Hd). injection Hud as Hud.
    erewrite sm_bind_run by (unfold zoom_gen, sm_zoom; cbn [ks_gen]; by rewrite Hn).
    erewrite sm_lift_run by exact Hk. cbv beta iota. rewrite bool_decide_true by done.
    erewrite sm_bind_run by (unfold zoom_private, sm_zoom; cbn [ks_private]; by rewrite put_key_run by lia).
    cbn [ks_private ks_gen]. rewrite (IH (m + 1) ds' _ g1 g') by (done || lia || (cbn [set_keys secret_keys]; rewrite zlen_zset; lia)).
    done.
  - erewrite sm_bind_run by (unfold zoom_private, sm_zoom; cbn [ks_private]; by rewrite put_key_run by lia).
    cbn [ks_private ks_gen]. rewrite (IH (m + 1) ds' _ g g') by (done || lia || (cbn [set_keys secret_keys]; rewrite zlen_zset; lia)).
    done.
Qed.
End loops.

(** ** The nodes of a path *)

Lemma mapM_omap {A B C} (g : A -> option B) (f : B -> mres C) l ns : mapM_res f (omap g l) = Ok ns ->
  exists us : list (option C), omap id us = ns /\
    Forall2 (fun x u => match g x, u with Some y, Some u => f y = Ok u | None, None => True | _, _ => False end) l us.
Proof.
  revert ns. induction l as [|x l IH]; intros ns; [intros [= <-]; by exists []|]. cbn [omap list_omap].
  destruct (g x) as [y|] eqn:E; cbn [mapM_res].
  - intros (u & Hu & (ns' & Hns & [= <-])%bind_Ok)%bind_Ok. apply IH in Hns as (us & <- & Hf).
    exists (Some u :: us). split; [done|]. constructor; [by rewrite E|done].
  - intros (us & <- & Hf)%IH. exists (None :: us). split; [done|]. constructor; [by rewrite E|done].
Qed.

(** A full path is unfiltered up to its last node. *)
Lemma unfilter_full (us : list (option UpdatePathNode)) : exists vs k,
  unfilter (blank_pos <$> us) (omap id us) = Ok vs /\ us = vs ++ replicate k None.
Proof.
  induction us as [|u us (vs & k & Hu & E)]; [by exists [], 0%nat|]. destruct u as [u|]; cbn.
  - rewrite Hu. exists (Some u :: vs), k. by rewrite E at 1.
  - destruct (omap id us) as [|n ns] eqn:En.
    + exists [], (S k). cbn. split; [done|]. f_equal. rewrite E.
      assert (unfilter (blank_pos <$> us) [] = Ok []) as E' by (by destruct us).
      rewrite E' in Hu. injection Hu as <-. done.
    + rewrite Hu. exists (None :: vs), k. cbn. split; [done|]. by rewrite E at 1.
Qed.

Lemma find_position_eq (l : list Z) x : x ∈ l -> exists n : nat, find_position (fun y => y =? x) l = Some (Z.of_nat n) /\ l !! n = Some x.
Proof.
  induction l as [|y l IH]; [by intros ?%elem_of_nil|]. intros Hin. cbn [find_position].
  destruct (Z.eqb_spec y x) as [->|Hne]; [by exists 0%nat|].
  destruct IH as (n & -> & Hn); [by apply elem_of_cons in Hin as [->|]|]. exists (S n). cbn. split; [f_equal; lia|done].
Qed.

Lemma zget_nat {A} (l : list A) (n : nat) : zget l (Z.of_nat n) = l !! n.
Proof. unfold zget. destruct (Z.ltb_spec (Z.of_nat n) 0); [lia|]. by rewrite Nat2Z.id. Qed.

Lemma mapM_res_Ok {E A B} (f : A -> res E B) l ys : mapM_res f l = Ok ys -> Forall2 (fun x y => f x = Ok y) l ys.
Proof.
  revert ys. induction l as [|x l IH]; intros ys; cbn [mapM_res]; [by intros [= <-]|].
  intros (y & Hy & (ys' & Hys & [= <-])%bind_Ok)%bind_Ok. constructor; [done|by apply IH].
Qed.

(** ** The resolved node *)

Definition own_path (v : NodeVec) (r : Z) : list CopathNode := mk_copath_node (node_index r) 0 :: vec_direct_copath v r.

(** The node of level [k] above leaf [r]. *)
Definition above (r : Z) (k : nat) : Z := node (Z.of_nat k) (Z.shiftr r (Z.of_nat k)).

Lemma shiftr_child r (k : nat) : 0 <= r ->
  Z.shiftr r (Z.of_nat k) = 2 * Z.shiftr r (Z.of_nat (S k)) \/ Z.shiftr r (Z.of_nat k) = 2 * Z.shiftr r (Z.of_nat (S k)) + 1.
Proof.
  intros Hr. replace (Z.of_nat (S k)) with (Z.of_nat k + 1) by lia. rewrite <- Z.shiftr_shiftr by lia.
  rewrite (Z.shiftr_div_pow2 (Z.shiftr r (Z.of_nat k)) 1) by lia. change (2 ^ 1) with 2. divlia.
Qed.

Lemma resolution_descends v r (m k : nat) x : 0 <= r -> (m <= k)%nat ->
  (forall i : nat, (m < i <= k)%nat -> nd v (above r i) = None) ->
  x ∈ resolution v m (Z.shiftr r (Z.of_nat m)) -> x ∈ resolution v k (Z.shiftr r (Z.of_nat k)).
Proof.
  intros Hr Hmk Hb Hx. induction k as [|k IH]; [by replace m with 0%nat in Hx by lia|].
  destruct (decide (m = S k)) as [->|Hne]; [done|]. rewrite resolution_nd.
  pose proof (Hb (S k) ltac:(lia)) as Hn. unfold above in Hn. rewrite Hn. apply elem_of_app.
  assert (x ∈ resolution v k (Z.shiftr r (Z.of_nat k))) as Hk by (apply IH; [lia|intros i Hi; apply Hb; lia]).
  destruct (shiftr_child r k Hr) as [E|E]; rewrite E in Hk; [by left|by right].
Qed.

Section resolved.
Context (v : NodeVec) (r : Z) (l : LeafNode) (Hv : vec_inv [] v) (Hl : leaf_at v r = Some l).

Lemma leaf_range : 0 <= r < 2 ^ Z.of_nat (depth v) /\ Z.of_nat (depth v) <= 26 /\ 2 * r < zlen v /\ 0 <= r < 2 ^ 31 /\
  zlen v <= 2 ^ 26 /\ vec_direct_copath v r = copath_spec (Z.of_nat (depth v)) 0 r.
Proof using Type*.
  destruct (vec_inv_len _ _ Hv) as [_ H26]. destruct (leaf_at_depth _ _ _ H26 Hl) as (Hi & Hd & E).
  destruct (leaf_at_bound _ _ _ H26 Hl) as [_ Hb]. change (2 ^ 26) with 67108864 in *. change (2 ^ 31) with 2147483648.
  split_and!; try done; lia.
Qed.

Lemma own_path_lookup (k : nat) : (k <= depth v)%nat ->
  exists cp, own_path v r !! k = Some cp /\ TreeMath.path cp = above r k.
Proof using Type*.
  destruct leaf_range as (Hr & Hd & _ & H31 & _ & E). intros Hk. destruct k as [|k].
  - eexists. split; [done|]. cbn. unfold above. change (Z.of_nat 0) with 0. rewrite Z.shiftr_0_r, node_0. by apply node_index_eq.
  - unfold own_path. cbn [lookup list_lookup]. rewrite E, lookup_copath_spec by lia. eexists. split; [done|].
    cbn [TreeMath.path]. unfold above.
    replace (Z.of_nat (S k)) with (Z.of_nat k + 1) by lia. by rewrite Z.add_0_l.
Qed.

Lemma own_path_len : zlen (vec_direct_copath v r) = Z.of_nat (depth v).
Proof using Type*. destruct leaf_range as (_ & _ & _ & _ & _ & E). rewrite E. unfold zlen. rewrite length_copath_spec. lia. Qed.

Lemma own_path_borrow (k : nat) : (k <= depth v)%nat -> borrow_node v (above r k) = Ok (nd v (above r k)).
Proof using Type*.
  destruct leaf_range as (Hr & Hd & Hb & _ & H26 & _). intros Hk.
  apply (path_node_borrow v (vi_shape _ _ Hv) (vi_parity _ _ Hv) (Z.of_nat (depth v)) k).
  - lia.
  - by destruct (total_leaf_count_depth _ H26).
  - apply in_tree_ancestor; lia.
Qed.

Lemma leaf_nd : nd v (above r 0) = Some (NodeLeaf l).
Proof using Type*. unfold above. change (Z.of_nat 0) with 0. rewrite Z.shiftr_0_r, node_0. by apply nd_leaf_at. Qed.

Lemma resolved_loop_spec (k : nat) : (k <= depth v)%nat ->
  exists m : nat, (m <= k)%nat /\ resolved_loop v (own_path v r) k = Ok m /\ is_Some (nd v (above r m)) /\
    forall i : nat, (m < i <= k)%nat -> nd v (above r i) = None.
Proof using Type*.
  induction k as [|k IH]; intros Hk; cbn [resolved_loop];
    destruct (own_path_lookup _ Hk) as (cp & Hcp & Ep); rewrite Hcp; cbn [unwrap mbind res_bind];
    rewrite Ep; unfold is_blank; rewrite own_path_borrow by done; cbn [fmap res_fmap mbind res_bind].
  - rewrite leaf_nd. cbn. exists 0%nat. rewrite leaf_nd. split_and!; [done|done|by eexists|lia].
  - destruct (nd v (above r (S k))) as [n|] eqn:En; cbn.
    + exists (S k). rewrite En. split_and!; [done|done|by eexists|lia].
    + destruct IH as (m & Hm & Hrun & Hs & Hb); [lia|]. exists m. split_and!; [lia|done|done|].
      intros i Hi. destruct (decide (i = S k)) as [->|]; [done|]. apply Hb. lia.
Qed.
End resolved.

(** ** The invariant of the private keys *)

(** Up to level [K], every key that is there belongs to the node of its level,
    and a key is missing only for blank nodes and nodes at which the own leaf is
    unmerged. *)
Record keys_ok `{CipherSuiteProvider} (K : nat) (v : NodeVec) (p : TreeKemPrivate) : Prop := {
  po_member : is_Some (leaf_at v (self_index p));
  po_length : (K < length (secret_keys p))%nat;
  po_pair (k : nat) sk n : (k <= K)%nat -> secret_keys p !! k = Some (Some sk) ->
    nd v (above (self_index p) k) = Some n -> is_key_pair sk (node_public_key n);
  po_have (k : nat) n : (k <= K)%nat -> secret_keys p !! k = Some None ->
    nd v (above (self_index p) k) = Some n -> exists q, n = NodeParent q /\ self_index p ∈ unmerged_leaves q;
}.

Notation private_ok v p := (keys_ok (depth v) v p).

Section find.
Context `{CipherSuiteProvider} (v : NodeVec) (p : TreeKemPrivate) (K : nat) (Hv : vec_inv [] v) (Hp : keys_ok K v p)
  (HK : (K <= depth v)%nat).
Notation r := (self_index p).

(** The node whose key decrypts: it is in the resolution of the node above,
    and its key is there. *)
Lemma find_resolved_spec (k : nat) : (k <= K)%nat ->
  exists (m : nat) sk n, find_resolved_pos v (secret_keys p) (own_path v r) (Z.of_nat k) = Ok (Z.of_nat m) /\
    (m <= k)%nat /\ secret_keys p !! m = Some (Some sk) /\ nd v (above r m) = Some n /\
    is_key_pair sk (node_public_key n) /\ above r m ∈ resolution v k (Z.shiftr r (Z.of_nat k)) /\
    (m = 0%nat \/ Z.odd (above r m) = true).
Proof using Type*.
  intros Hk. destruct (po_member _ _ _ Hp) as [l Hl]. pose proof (leaf_range v r l Hv Hl) as (Hr & _ & _ & H31 & _).
  destruct (resolved_loop_spec v r l Hv Hl k ltac:(lia)) as (m & Hm & Hrun & [n Hn] & Hb).
  destruct (own_path_lookup v r l Hv Hl k ltac:(lia)) as (cp & Hcp & _).
  unfold find_resolved_pos. rewrite zget_nat, Hcp. cbn [unwrap mbind res_bind]. rewrite Nat2Z.id, Hrun. cbn [mbind res_bind].
  destruct (lookup_lt_is_Some_2 (secret_keys p) m) as [key Hkey].
  { pose proof (po_length _ _ _ Hp). lia. }
  rewrite Hkey. cbn [unwrap mbind res_bind].
  assert (forall m' : nat, m' <> 0%nat -> Z.odd (above r m') = true) as Hodd.
  { intros [|m'] ?; [done|]. apply odd_node_S. apply Z.shiftr_nonneg. lia. }
  destruct key as [sk|].
  - exists m, sk, n. split_and!; try done.
    + by apply (po_pair _ _ _ Hp m); [lia|..].
    + apply (resolution_descends v r m k); [lia|done|done|]. rewrite resolution_nd. unfold above in Hn. rewrite Hn. by left.
    + destruct (decide (m = 0%nat)); [by left|right; by apply Hodd].
  - destruct (po_have _ _ _ Hp m n ltac:(lia) Hkey Hn) as (q & -> & Hq).
    destruct (lookup_lt_is_Some_2 (secret_keys p) 0) as [key0 Hkey0].
    { pose proof (po_length _ _ _ Hp). lia. }
    pose proof (leaf_nd v r l Hv Hl) as H0.
    destruct key0 as [sk|].
    2: { destruct (po_have _ _ _ Hp 0 _ ltac:(lia) Hkey0 H0) as (? & ? & _). done. }
    exists 0%nat, sk, (NodeLeaf l). split_and!; try done; [lia|by apply (po_pair _ _ _ Hp 0); [lia|..]| |by left].
    apply (resolution_descends v r m k); [lia|done|done|]. rewrite resolution_nd. unfold above in Hn. rewrite Hn.
    right. apply list_elem_of_fmap. exists r. split; [|done]. unfold above. change (Z.of_nat 0) with 0.
    rewrite Z.shiftr_0_r, node_0. symmetry. by apply node_index_eq.
Qed.

(** Its position among the recipients. *)
Lemma find_ciphertext_spec (k : nat) x added : (k <= K)%nat -> x ∈ resolution v k (Z.shiftr r (Z.of_nat k)) ->
  (Z.odd x = true \/ Z.shiftr x 1 ∉ added) ->
  exists n : nat, find_ciphertext_pos v (above r k) x added = Ok (Z.of_nat n) /\
    List.filter (fun idx => (idx mod 2 =? 1) || negb (bool_decide (leaf_from_node_index_unchecked idx ∈ added)))
      (resolution v k (Z.shiftr r (Z.of_nat k))) !! n = Some x.
Proof using Type*.
  intros Hk Hx Ha. destruct (po_member _ _ _ Hp) as [l Hl]. pose proof (leaf_range v r l Hv Hl) as (Hr & Hd & _).
  unfold find_ciphertext_pos, above. rewrite get_resolution_index_eq; [|lia|apply Z.shiftr_nonneg; lia].
  cbn [mbind res_bind]. destruct (find_position_eq (List.filter (fun idx => (idx mod 2 =? 1) ||
    negb (bool_decide (leaf_from_node_index_unchecked idx ∈ added))) (resolution v k (Z.shiftr r (Z.of_nat k)))) x) as (n & -> & Hn).
  - apply list_elem_of_In, filter_In. split; [by apply list_elem_of_In|]. apply orb_true_iff.
    destruct Ha as [Ho|Hno]; [left; rewrite Zmod_odd, Ho; done|right]. by rewrite bool_decide_false.
  - by exists n.
Qed.
End find.
