(* ===== verification/Framing.v ===== *)
(** * Framing of messages

    The messages of the protocol and their wire form: commits
    (mls-rs/src/group/commit.rs), framed contents, public and private messages
    and [MlsMessage] (framing.rs), the data that authenticate a content and the
    bytes they sign (message_signature.rs), group infos (group_info.rs), welcome
    messages and group secrets (group/mod.rs), and the hashes that identify a
    proposal (proposal_ref.rs) or a message (message_hash.rs). *)

From S2P Require Import Prelude Codec Crypto TreeMath Data NodeVec Proposals TreeKem LeafNodes Kem.

#[local] Set Default Goal Selector "!".
Local Open Scope Z_scope.

(** ** Contents *)

Record Commit := mk_commit { commit_proposals : list ProposalOrRef; commit_path : option UpdatePath }.

Inductive ContentType := CtApplication | CtProposal | CtCommit.

#[export] Instance ContentType_eq_dec : EqDecision ContentType.
Proof. solve_decision. Defined.

Inductive Content :=
| ContentApplication (data : bytes)
| ContentProposal (p : Proposal)
| ContentCommit (c : Commit).

Definition content_type (c : Content) : ContentType :=
  match c with
  | ContentApplication _ => CtApplication
  | ContentProposal _ => CtProposal
  | ContentCommit _ => CtCommit
  end.

Definition content_type_discriminant (t : ContentType) : Z :=
  match t with CtApplication => 1 | CtProposal => 2 | CtCommit => 3 end.

Definition content_type_codec : codec ContentType :=
  enum_codec u8_codec content_type_discriminant
    (fun t =>
       if t =? 1 then
         Some (variant_codec (fun _ => CtApplication)
                 (fun c => match c with CtApplication => Some tt | _ => None end) unit_codec)
       else if t =? 2 then
         Some (variant_codec (fun _ => CtProposal)
                 (fun c => match c with CtProposal => Some tt | _ => None end) unit_codec)
       else if t =? 3 then
         Some (variant_codec (fun _ => CtCommit)
                 (fun c => match c with CtCommit => Some tt | _ => None end) unit_codec)
       else None).

Record FramedContent := mk_framed_content {
  fc_group_id : bytes;
  fc_epoch : Z;
  fc_sender : Sender;
  authenticated_data : bytes;
  fc_content : Content;
}.

(** The codecs of the contents, for the codec [pc] of the proposals in them. *)
Section contents.
Context (pc : codec Proposal).

Definition commit_codec_with : codec Commit :=
  struct_codec (fun c => (commit_proposals c, commit_path c)) (fun '(p, u) => mk_commit p u)
    (pair_codec (vec_codec (proposal_or_ref_codec_with pc)) (option_codec update_path_codec)).

Definition content_codec_with : codec Content :=
  enum_codec u8_codec (fun c => content_type_discriminant (content_type c))
    (fun t =>
       if t =? 1 then
         Some (variant_codec ContentApplication
                 (fun c => match c with ContentApplication d => Some d | _ => None end) byte_vec_codec)
       else if t =? 2 then
         Some (variant_codec ContentProposal
                 (fun c => match c with ContentProposal p => Some p | _ => None end) pc)
       else if t =? 3 then
         Some (variant_codec ContentCommit
                 (fun c => match c with ContentCommit c => Some c | _ => None end) commit_codec_with)
       else None).

Definition framed_content_codec_with : codec FramedContent :=
  struct_codec (fun f => (fc_group_id f, (fc_epoch f, (fc_sender f, (authenticated_data f, fc_content f)))))
    (fun '(g, (e, (s, (a, c)))) => mk_framed_content g e s a c)
    (pair_codec byte_vec_codec (pair_codec u64_codec (pair_codec sender_codec
      (pair_codec byte_vec_codec content_codec_with)))).
End contents.

Definition commit_codec : codec Commit := commit_codec_with proposal_codec.
Definition content_codec : codec Content := content_codec_with proposal_codec.
Definition framed_content_codec : codec FramedContent := framed_content_codec_with proposal_codec.

(** ** What authenticates a content *)

Notation MessageSignature := bytes (only parsing).
Notation ConfirmationTag := bytes (only parsing).
Notation MembershipTag := bytes (only parsing).

Record FramedContentAuthData := mk_auth_data {
  ad_signature : MessageSignature;
  confirmation_tag : option ConfirmationTag;
}.

(** Only commits have a confirmation tag, and nothing marks its presence. *)
Definition auth_data_codec (t : ContentType) : codec FramedContentAuthData :=
  struct_codec (fun a => (ad_signature a, confirmation_tag a)) (fun '(s, t) => mk_auth_data s t)
    (pair_codec byte_vec_codec (tail_codec (bool_decide (t = CtCommit)) byte_vec_codec)).

Inductive WireFormat := WfPublicMessage | WfPrivateMessage | WfWelcome | WfGroupInfo | WfKeyPackage.

#[export] Instance WireFormat_eq_dec : EqDecision WireFormat.
Proof. solve_decision. Defined.

Definition wire_format_discriminant (w : WireFormat) : Z :=
  match w with
  | WfPublicMessage => 1 | WfPrivateMessage => 2 | WfWelcome => 3 | WfGroupInfo => 4 | WfKeyPackage => 5
  end.

Definition wire_format_codec : codec WireFormat :=
  enum_codec u16_codec wire_format_discriminant
    (fun t =>
       if t =? 1 then
         Some (variant_codec (fun _ => WfPublicMessage)
                 (fun w => match w with WfPublicMessage => Some tt | _ => None end) unit_codec)
       else if t =? 2 then
         Some (variant_codec (fun _ => WfPrivateMessage)
                 (fun w => match w with WfPrivateMessage => Some tt | _ => None end) unit_codec)
       else if t =? 3 then
         Some (variant_codec (fun _ => WfWelcome)
                 (fun w => match w with WfWelcome => Some tt | _ => None end) unit_codec)
       else if t =? 4 then
         Some (variant_codec (fun _ => WfGroupInfo)
                 (fun w => match w with WfGroupInfo => Some tt | _ => None end) unit_codec)
       else if t =? 5 then
         Some (variant_codec (fun _ => WfKeyPackage)
                 (fun w => match w with WfKeyPackage => Some tt | _ => None end) unit_codec)
       else None).

Record AuthenticatedContent := mk_auth_content {
  wire_format : WireFormat;
  ac_content : FramedContent;
  ac_auth : FramedContentAuthData;
}.

Definition authenticated_content_codec_with (pc : codec Proposal) : codec AuthenticatedContent :=
  struct_codec (fun a => (wire_format a, (ac_content a, ac_auth a))) (fun '(w, (c, a)) => mk_auth_content w c a)
    (pair_codec wire_format_codec
      (dep_codec (framed_content_codec_with pc) (fun c => auth_data_codec (content_type (fc_content c))))).

Definition authenticated_content_codec : codec AuthenticatedContent := authenticated_content_codec_with proposal_codec.

(** ** Public messages *)

Record PublicMessage := mk_public_message {
  pm_content : FramedContent;
  pm_auth : FramedContentAuthData;
  membership_tag : option MembershipTag;
}.

Definition is_member (s : Sender) : bool := match s with SenderMember _ => true | _ => false end.

Definition public_message_codec_with (pc : codec Proposal) : codec PublicMessage :=
  struct_codec (fun p => ((pm_content p, pm_auth p), membership_tag p)) (fun '((c, a), t) => mk_public_message c a t)
    (dep_codec
      (dep_codec (framed_content_codec_with pc) (fun c => auth_data_codec (content_type (fc_content c))))
      (fun p => tail_codec (is_member (fc_sender p.1)) byte_vec_codec)).

Definition public_message_codec : codec PublicMessage := public_message_codec_with proposal_codec.

(** [From<PublicMessage> for AuthenticatedContent]. *)
Definition from_public_message (p : PublicMessage) : AuthenticatedContent :=
  mk_auth_content WfPublicMessage (pm_content p) (pm_auth p).

(** ** Private messages *)

Record PrivateMessageContent := mk_private_content { pmc_content : Content; pmc_auth : FramedContentAuthData }.

Definition content_encode (c : Content) (writer : bytes) : cres bytes :=
  match c with
  | ContentApplication c => mls_encode byte_vec_codec c writer
  | ContentProposal c => mls_encode proposal_codec c writer
  | ContentCommit c => mls_encode commit_codec c writer
  end.

Definition private_content_encoded_len (p : PrivateMessageContent) : Z :=
  match pmc_content p with
  | ContentApplication c => mls_encoded_len byte_vec_codec c
  | ContentProposal c => mls_encoded_len proposal_codec c
  | ContentCommit c => mls_encoded_len commit_codec c
  end + mls_encoded_len (auth_data_codec (content_type (pmc_content p))) (pmc_auth p).

Definition private_content_encode (p : PrivateMessageContent) (writer : bytes) : cres bytes :=
  writer ← content_encode (pmc_content p) writer;
  mls_encode (auth_data_codec (content_type (pmc_content p))) (pmc_auth p) writer.

(** The whole input is decoded: what follows the content is padding. *)
Definition private_content_decode (reader : bytes) (t : ContentType) : cres PrivateMessageContent :=
  '(content, reader) ← match t with
    | CtApplication => '(c, r) ← mls_decode byte_vec_codec reader; Ok (ContentApplication c, r)
    | CtProposal => '(c, r) ← mls_decode proposal_codec reader; Ok (ContentProposal c, r)
    | CtCommit => '(c, r) ← mls_decode commit_codec reader; Ok (ContentCommit c, r)
    end;
  '(auth, reader) ← mls_decode (auth_data_codec (content_type content)) reader;
  if existsb (fun i => negb (i =? 0)) reader then Err (Custom 5)
  else Ok (mk_private_content content auth).

Record PrivateContentAAD := mk_private_aad {
  pca_group_id : bytes; pca_epoch : Z; pca_content_type : ContentType; pca_authenticated_data : bytes }.

Definition private_aad_codec : codec PrivateContentAAD :=
  struct_codec (fun a => (pca_group_id a, (pca_epoch a, (pca_content_type a, pca_authenticated_data a))))
    (fun '(g, (e, (t, d))) => mk_private_aad g e t d)
    (pair_codec byte_vec_codec (pair_codec u64_codec (pair_codec content_type_codec byte_vec_codec))).

Record PrivateMessage := mk_private_message {
  prm_group_id : bytes;
  prm_epoch : Z;
  prm_content_type : ContentType;
  prm_authenticated_data : bytes;
  encrypted_sender_data : bytes;
  prm_ciphertext : bytes;
}.

Definition private_message_codec : codec PrivateMessage :=
  struct_codec
    (fun p => (prm_group_id p, (prm_epoch p, (prm_content_type p, (prm_authenticated_data p,
                (encrypted_sender_data p, prm_ciphertext p))))))
    (fun '(g, (e, (t, (a, (s, c))))) => mk_private_message g e t a s c)
    (pair_codec byte_vec_codec (pair_codec u64_codec (pair_codec content_type_codec
      (pair_codec byte_vec_codec (pair_codec byte_vec_codec byte_vec_codec))))).

(** [From<&PrivateMessage> for PrivateContentAAD]. *)
Definition private_aad_from (p : PrivateMessage) : PrivateContentAAD :=
  mk_private_aad (prm_group_id p) (prm_epoch p) (prm_content_type p) (prm_authenticated_data p).

(** ** Group infos and welcome messages *)

Record GroupInfo := mk_group_info {
  gi_group_context : GroupContext;
  gi_extensions : ExtensionList;
  gi_confirmation_tag : ConfirmationTag;
  gi_signer : Z;
  gi_signature : bytes;
}.

Definition group_info_codec : codec GroupInfo :=
  struct_codec
    (fun g => (gi_group_context g, (gi_extensions g, (gi_confirmation_tag g, (gi_signer g, gi_signature g)))))
    (fun '(c, (e, (t, (s, g)))) => mk_group_info c e t s g)
    (pair_codec group_context_codec (pair_codec extension_list_codec (pair_codec byte_vec_codec
      (pair_codec leaf_index_codec byte_vec_codec)))).

(** [SignableGroupInfo]: the fields but the signature. *)
Definition signable_group_info_encode (g : GroupInfo) : cres bytes :=
  w ← mls_encode group_context_codec (gi_group_context g) [];
  w ← mls_encode extension_list_codec (gi_extensions g) w;
  w ← mls_encode byte_vec_codec (gi_confirmation_tag g) w;
  mls_encode leaf_index_codec (gi_signer g) w.

#[export] Instance group_info_signable : Signable GroupInfo unit := {|
  SIGN_LABEL := bstr "GroupInfoTBS";
  signature := gi_signature;
  signable_content g _ := signable_group_info_encode g;
  write_signature s g := mk_group_info (gi_group_context g) (gi_extensions g) (gi_confirmation_tag g) (gi_signer g) s;
|}.

Notation JoinerSecret := bytes (only parsing).

Record GroupSecrets := mk_group_secrets {
  joiner_secret : JoinerSecret;
  gs_path_secret : option PathSecret;
  gs_psks : list PreSharedKeyID;
}.

Definition group_secrets_codec : codec GroupSecrets :=
  struct_codec (fun g => (joiner_secret g, (gs_path_secret g, gs_psks g)))
    (fun '(j, (p, k)) => mk_group_secrets j p k)
    (pair_codec byte_vec_codec (pair_codec (option_codec path_secret_codec) (vec_codec psk_id_codec))).

#[export] Instance group_secrets_encryptable : HpkeEncryptable GroupSecrets := {|
  ENCRYPT_LABEL := bstr "Welcome";
  he_from_bytes b := fst <$> from_codec (mls_decode group_secrets_codec b);
  he_get_bytes g := from_codec (mls_encode_to_vec group_secrets_codec g);
|}.

Record EncryptedGroupSecrets := mk_encrypted_secrets {
  new_member : KeyPackageRef;
  encrypted_group_secrets : HpkeCiphertext;
}.

Definition encrypted_secrets_codec : codec EncryptedGroupSecrets :=
  struct_codec (fun e => (new_member e, encrypted_group_secrets e)) (fun '(n, s) => mk_encrypted_secrets n s)
    (pair_codec byte_vec_codec hpke_ciphertext_codec).

Record Welcome := mk_welcome {
  w_cipher_suite : Z;
  w_secrets : list EncryptedGroupSecrets;
  encrypted_group_info : bytes;
}.

Definition welcome_codec : codec Welcome :=
  struct_codec (fun w => (w_cipher_suite w, (w_secrets w, encrypted_group_info w)))
    (fun '(c, (s, g)) => mk_welcome c s g)
    (pair_codec u16_codec (pair_codec (vec_codec encrypted_secrets_codec) byte_vec_codec)).

(** ** Messages *)

Inductive MlsMessagePayload :=
| Plain (m : PublicMessage)
| Cipher (m : PrivateMessage)
| PayloadWelcome (m : Welcome)
| PayloadGroupInfo (m : GroupInfo)
| PayloadKeyPackage (m : KeyPackage).

Definition payload_discriminant (p : MlsMessagePayload) : Z :=
  match p with
  | Plain _ => 1 | Cipher _ => 2 | PayloadWelcome _ => 3 | PayloadGroupInfo _ => 4 | PayloadKeyPackage _ => 5
  end.

Definition payload_codec_with (pc : codec Proposal) : codec MlsMessagePayload :=
  enum_codec u16_codec payload_discriminant
    (fun t =>
       if t =? 1 then
         Some (variant_codec Plain (fun p => match p with Plain m => Some m | _ => None end)
                 (public_message_codec_with pc))
       else if t =? 2 then
         Some (variant_codec Cipher (fun p => match p with Cipher m => Some m | _ => None end)
                 private_message_codec)
       else if t =? 3 then
         Some (variant_codec PayloadWelcome (fun p => match p with PayloadWelcome m => Some m | _ => None end)
                 welcome_codec)
       else if t =? 4 then
         Some (variant_codec PayloadGroupInfo (fun p => match p with PayloadGroupInfo m => Some m | _ => None end)
                 group_info_codec)
       else if t =? 5 then
         Some (variant_codec PayloadKeyPackage (fun p => match p with PayloadKeyPackage m => Some m | _ => None end)
                 key_package_codec)
       else None).

Record MlsMessage := mk_message { msg_version : Z; payload : MlsMessagePayload }.

Definition message_codec_with (pc : codec Proposal) : codec MlsMessage :=
  struct_codec (fun m => (msg_version m, payload m)) (fun '(v, p) => mk_message v p)
    (pair_codec u16_codec (payload_codec_with pc)).

Definition message_codec : codec MlsMessage := message_codec_with proposal_codec.

(** [MlsMessage::from_bytes] and [to_bytes]. *)
Definition message_from_bytes (b : bytes) : mres MlsMessage := fst <$> from_codec (mls_decode message_codec b).
Definition message_to_bytes (m : MlsMessage) : mres bytes := from_codec (mls_encode_to_vec message_codec m).

Definition message_wire_format (m : MlsMessage) : WireFormat :=
  match payload m with
  | Plain _ => WfPublicMessage
  | Cipher _ => WfPrivateMessage
  | PayloadWelcome _ => WfWelcome
  | PayloadGroupInfo _ => WfGroupInfo
  | PayloadKeyPackage _ => WfKeyPackage
  end.

Definition message_epoch (m : MlsMessage) : option Z :=
  match payload m with
  | Plain p => Some (fc_epoch (pm_content p))
  | Cipher c => Some (prm_epoch c)
  | PayloadGroupInfo gi => Some (epoch (gi_group_context gi))
  | _ => None
  end.

Definition message_cipher_suite (m : MlsMessage) : option Z :=
  match payload m with
  | PayloadGroupInfo i => Some (gc_cipher_suite (gi_group_context i))
  | PayloadWelcome w => Some (w_cipher_suite w)
  | PayloadKeyPackage k => Some (kp_cipher_suite k)
  | _ => None
  end.

Definition message_group_id (m : MlsMessage) : option bytes :=
  match payload m with
  | Plain p => Some (fc_group_id (pm_content p))
  | Cipher p => Some (prm_group_id p)
  | PayloadGroupInfo p => Some (group_id (gi_group_context p))
  | PayloadKeyPackage _ | PayloadWelcome _ => None
  end.

Inductive MlsMessageDescription :=
| DescWelcome (key_package_refs : list KeyPackageRef) (cipher_suite : Z)
| DescProtocolMessage (group_id : bytes) (epoch_id : Z) (content_type : ContentType)
| DescGroupInfo
| DescKeyPackage.

Definition message_description (m : MlsMessage) : MlsMessageDescription :=
  match payload m with
  | PayloadWelcome w => DescWelcome (new_member <$> w_secrets w) (w_cipher_suite w)
  | Plain p =>
      DescProtocolMessage (fc_group_id (pm_content p)) (fc_epoch (pm_content p))
        (content_type (fc_content (pm_content p)))
  | Cipher c => DescProtocolMessage (prm_group_id c) (prm_epoch c) (prm_content_type c)
  | PayloadGroupInfo _ => DescGroupInfo
  | PayloadKeyPackage _ => DescKeyPackage
  end.

Definition find_custom_proposals (c : Commit) : list CustomProposal :=
  omap (fun p => match p with OrProposal (PCustom p) => Some p | _ => None end) (commit_proposals c).

Definition custom_proposals_by_value (m : MlsMessage) : list CustomProposal :=
  match payload m with
  | Plain p => match fc_content (pm_content p) with ContentCommit c => find_custom_proposals c | _ => [] end
  | _ => []
  end.

Definition welcome_key_package_references (m : MlsMessage) : list KeyPackageRef :=
  match payload m with PayloadWelcome w => new_member <$> w_secrets w | _ => [] end.

(** ** Signed contents *)

Definition auth_content_new (context : GroupContext) (sender : Sender) (content : Content)
    (authenticated_data : bytes) (wire_format : WireFormat) : AuthenticatedContent :=
  mk_auth_content wire_format
    (mk_framed_content (group_id context) (epoch context) sender authenticated_data content)
    (mk_auth_data [] None).

Record AuthenticatedContentTBS := mk_tbs {
  tbs_protocol_version : Z;
  tbs_wire_format : WireFormat;
  tbs_content : FramedContent;
  tbs_context : option GroupContext;
}.

Definition tbs_encode (t : AuthenticatedContentTBS) (writer : bytes) : cres bytes :=
  writer ← mls_encode u16_codec (tbs_protocol_version t) writer;
  writer ← mls_encode wire_format_codec (tbs_wire_format t) writer;
  writer ← mls_encode framed_content_codec (tbs_content t) writer;
  match tbs_context t with
  | Some context => mls_encode group_context_codec context writer
  | None => Ok writer
  end.

(** [AuthenticatedContentTBS::from_authenticated_content]. *)
Definition tbs_from_authenticated_content (a : AuthenticatedContent) (group_context : option GroupContext)
    (protocol_version : Z) : AuthenticatedContentTBS :=
  mk_tbs protocol_version (wire_format a) (ac_content a)
    match fc_sender (ac_content a) with
    | SenderMember _ | NewMemberCommit => group_context
    | SenderExternal _ => None
    | NewMemberProposal => None
    end.

Record MessageSigningContext := mk_signing_context {
  sctx_group_context : option GroupContext;
  sctx_protocol_version : Z;
}.

Definition set_auth_signature (s : bytes) (a : AuthenticatedContent) : AuthenticatedContent :=
  mk_auth_content (wire_format a) (ac_content a) (mk_auth_data s (confirmation_tag (ac_auth a))).

Definition set_confirmation_tag (t : option ConfirmationTag) (a : AuthenticatedContent) : AuthenticatedContent :=
  mk_auth_content (wire_format a) (ac_content a) (mk_auth_data (ad_signature (ac_auth a)) t).

#[export] Instance auth_content_signable : Signable AuthenticatedContent MessageSigningContext := {|
  SIGN_LABEL := bstr "FramedContentTBS";
  signature a := ad_signature (ac_auth a);
  signable_content a c :=
    tbs_encode (tbs_from_authenticated_content a (sctx_group_context c) (sctx_protocol_version c)) [];
  write_signature := set_auth_signature;
|}.

Section signing.
Context `{CipherSuiteProvider}.

Definition auth_content_new_signed (coins : Coins) (context : GroupContext) (sender : Sender) (content : Content)
    (signer : SignatureSecretKey) (wire_format : WireFormat) (authenticated_data : bytes) : mres AuthenticatedContent :=
  let plaintext := auth_content_new context sender content authenticated_data wire_format in
  signable_sign coins signer (mk_signing_context (Some context) (protocol_version context)) plaintext.

(** [ProposalRef::from_content]. *)
Definition proposal_ref_from_content (content : AuthenticatedContent) : mres ProposalRef :=
  b ← from_codec (mls_encode_to_vec authenticated_content_codec content);
  hash_reference_compute b (bstr "MLS 1.0 Proposal Reference").

(** [MessageHash::compute]. *)
Definition message_hash_compute (m : MlsMessage) : mres bytes :=
  b ← from_codec (mls_encode_to_vec message_codec m);
  from_crypto (hash b).

Definition key_package_reference (m : MlsMessage) : mres (option KeyPackageRef) :=
  match payload m with PayloadKeyPackage kp => Some <$> to_reference kp | _ => Ok None end.

Definition into_proposal_reference (m : MlsMessage) : mres (option ProposalRef) :=
  match payload m with
  | Plain p => Some <$> proposal_ref_from_content (from_public_message p)
  | _ => Ok None
  end.
End signing.

(** ** Codec laws *)

Definition content_type_wf (_ : ContentType) : Prop := True.

(** The laws of an enum from the ones of its variants, which have no payload or
    one payload each. *)
Ltac enum_variants disc :=
  variant_cases;
  (split;
   [eapply (variant_ok_disc _ _ _ _ disc); [apply _| | |]
   |eapply variant_codec_canonical; [apply _..|]]).

Ltac unit_variants disc :=
  enum_variants disc; try (intros [] []; naive_solver); try (intros []; naive_solver);
  intros [] ? ?; try done; by exists tt.

Ltac payload_variants disc :=
  enum_variants disc; try (intros [] ?; naive_solver); try (intros ?; naive_solver);
  intros [] ? ?; try done; eauto.

Ltac enum_ok dc wfd wf lem :=
  eapply codec_ok_iff; [|apply (enum_codec_ok dc wfd _ _ wf)];
  [intros x; split; [by intros []|]; intros Hx; split; [by destruct x|done]
  |intros t cv Hv; by apply lem in Hv as []
  |by intros []].

Ltac enum_canonical dc wfd wf lem :=
  eapply (enum_codec_canonical dc wfd _ _ wf); [|apply _|];
  intros t cv Hv; by apply lem in Hv as [].

Lemma content_type_variants t cv :
  (if t =? 1 then
     Some (variant_codec (fun _ => CtApplication)
             (fun c => match c with CtApplication => Some tt | _ => None end) unit_codec)
   else if t =? 2 then
     Some (variant_codec (fun _ => CtProposal)
             (fun c => match c with CtProposal => Some tt | _ => None end) unit_codec)
   else if t =? 3 then
     Some (variant_codec (fun _ => CtCommit)
             (fun c => match c with CtCommit => Some tt | _ => None end) unit_codec)
   else None) = Some cv ->
  CodecOk cv (fun x => content_type_discriminant x = t /\ True) /\ CodecCanonical cv.
Proof. revert t cv. unit_variants content_type_discriminant. Qed.

#[export] Instance content_type_codec_ok : CodecOk content_type_codec (fun _ => True).
Proof. enum_ok (uint_codec 1) (in_uint 8) (fun _ : ContentType => True) content_type_variants. Qed.
#[export] Instance content_type_codec_canonical : CodecCanonical content_type_codec.
Proof. enum_canonical (uint_codec 1) (in_uint 8) (fun _ : ContentType => True) content_type_variants. Qed.

Lemma wire_format_variants t cv :
  (if t =? 1 then
     Some (variant_codec (fun _ => WfPublicMessage)
             (fun w => match w with WfPublicMessage => Some tt | _ => None end) unit_codec)
   else if t =? 2 then
     Some (variant_codec (fun _ => WfPrivateMessage)
             (fun w => match w with WfPrivateMessage => Some tt | _ => None end) unit_codec)
   else if t =? 3 then
     Some (variant_codec (fun _ => WfWelcome)
             (fun w => match w with WfWelcome => Some tt | _ => None end) unit_codec)
   else if t =? 4 then
     Some (variant_codec (fun _ => WfGroupInfo)
             (fun w => match w with WfGroupInfo => Some tt | _ => None end) unit_codec)
   else if t =? 5 then
     Some (variant_codec (fun _ => WfKeyPackage)
             (fun w => match w with WfKeyPackage => Some tt | _ => None end) unit_codec)
   else None) = Some cv ->
  CodecOk cv (fun x => wire_format_discriminant x = t /\ True) /\ CodecCanonical cv.
Proof. revert t cv. unit_variants wire_format_discriminant. Qed.

#[export] Instance wire_format_codec_ok : CodecOk wire_format_codec (fun _ => True).
Proof. enum_ok (uint_codec 2) (in_uint 16) (fun _ : WireFormat => True) wire_format_variants. Qed.
#[export] Instance wire_format_codec_canonical : CodecCanonical wire_format_codec.
Proof. enum_canonical (uint_codec 2) (in_uint 16) (fun _ : WireFormat => True) wire_format_variants. Qed.

Definition update_path_node_wf (n : UpdatePathNode) : Prop :=
  bytes_ok (upn_public_key n) /\ Forall hpke_ciphertext_wf (encrypted_path_secret n).

#[export] Instance hpke_ciphertext_codec_progress : CodecProgress hpke_ciphertext_codec.
Proof. struct_progress. Qed.
#[export] Instance ciphertexts_codec_ok : CodecOk (vec_codec hpke_ciphertext_codec) (Forall hpke_ciphertext_wf).
Proof. apply (vec_codec_ok _ hpke_ciphertext_wf). Qed.
#[export] Instance ciphertexts_codec_canonical : CodecCanonical (vec_codec hpke_ciphertext_codec).
Proof. apply (vec_codec_canonical _ hpke_ciphertext_wf). Qed.
#[export] Instance update_path_node_codec_ok : CodecOk update_path_node_codec update_path_node_wf.
Proof. struct_ok. Qed.
#[export] Instance update_path_node_codec_canonical : CodecCanonical update_path_node_codec.
Proof. struct_canonical. Qed.
#[export] Instance update_path_node_codec_progress : CodecProgress update_path_node_codec.
Proof. struct_progress. Qed.
#[export] Instance path_nodes_codec_ok : CodecOk (vec_codec update_path_node_codec) (Forall update_path_node_wf).
Proof. apply (vec_codec_ok _ update_path_node_wf). Qed.
#[export] Instance path_nodes_codec_canonical : CodecCanonical (vec_codec update_path_node_codec).
Proof. apply (vec_codec_canonical _ update_path_node_wf). Qed.

Definition update_path_wf (p : UpdatePath) : Prop :=
  leaf_node_wf (path_leaf_node p) /\ Forall update_path_node_wf (path_nodes p).

#[export] Instance update_path_codec_ok : CodecOk update_path_codec update_path_wf.
Proof. struct_ok. Qed.
#[export] Instance update_path_codec_canonical : CodecCanonical update_path_codec.
Proof. struct_canonical. Qed.

(** *** Contents, with the codec of proposals that refuses none *)

Definition commit_wf (c : Commit) : Prop :=
  Forall or_ref_wf (commit_proposals c) /\ option_wf update_path_wf (commit_path c).

#[export] Instance or_refs_codec_ok :
  CodecOk (vec_codec (proposal_or_ref_codec_with unchecked_codec)) (Forall or_ref_wf).
Proof. apply (vec_codec_ok _ or_ref_wf). Qed.
#[export] Instance or_refs_codec_canonical :
  CodecCanonical (vec_codec (proposal_or_ref_codec_with unchecked_codec)).
Proof. apply (vec_codec_canonical _ or_ref_wf). Qed.
#[export] Instance path_option_codec_ok : CodecOk (option_codec update_path_codec) (option_wf update_path_wf).
Proof. apply (option_codec_ok _ update_path_wf). Qed.
#[export] Instance path_option_codec_canonical : CodecCanonical (option_codec update_path_codec).
Proof. apply (option_codec_canonical _ update_path_wf). Qed.
#[export] Instance commit_codec_ok : CodecOk (commit_codec_with unchecked_codec) commit_wf.
Proof. struct_ok. Qed.
#[export] Instance commit_codec_canonical : CodecCanonical (commit_codec_with unchecked_codec).
Proof. struct_canonical. Qed.

Definition content_wf (c : Content) : Prop :=
  match c with
  | ContentApplication d => bytes_ok d
  | ContentProposal p => proposal_wf p
  | ContentCommit c => commit_wf c
  end.

Lemma content_variants t cv :
  (if t =? 1 then
     Some (variant_codec ContentApplication
             (fun c => match c with ContentApplication d => Some d | _ => None end) byte_vec_codec)
   else if t =? 2 then
     Some (variant_codec ContentProposal
             (fun c => match c with ContentProposal p => Some p | _ => None end) unchecked_codec)
   else if t =? 3 then
     Some (variant_codec ContentCommit
             (fun c => match c with ContentCommit c => Some c | _ => None end) (commit_codec_with unchecked_codec))
   else None) = Some cv ->
  CodecOk cv (fun x => content_type_discriminant (content_type x) = t /\ content_wf x) /\ CodecCanonical cv.
Proof. revert t cv. payload_variants (fun c => content_type_discriminant (content_type c)). Qed.

#[export] Instance content_codec_ok : CodecOk (content_codec_with unchecked_codec) content_wf.
Proof. enum_ok (uint_codec 1) (in_uint 8) content_wf content_variants. Qed.
#[export] Instance content_codec_canonical : CodecCanonical (content_codec_with unchecked_codec).
Proof. enum_canonical (uint_codec 1) (in_uint 8) content_wf content_variants. Qed.

Definition framed_content_wf (f : FramedContent) : Prop :=
  bytes_ok (fc_group_id f) /\ is_u64 (fc_epoch f) /\ sender_wf (fc_sender f) /\
  bytes_ok (authenticated_data f) /\ content_wf (fc_content f).

#[export] Instance framed_content_codec_ok : CodecOk (framed_content_codec_with unchecked_codec) framed_content_wf.
Proof. struct_ok. Qed.
#[export] Instance framed_content_codec_canonical : CodecCanonical (framed_content_codec_with unchecked_codec).
Proof. struct_canonical. Qed.

(** A confirmation tag exactly for commits. *)
Definition auth_data_wf (t : ContentType) (a : FramedContentAuthData) : Prop :=
  bytes_ok (ad_signature a) /\ tail_wf (bool_decide (t = CtCommit)) bytes_ok (confirmation_tag a).

#[export] Instance auth_data_codec_ok t : CodecOk (auth_data_codec t) (auth_data_wf t).
Proof. struct_ok. Qed.
#[export] Instance auth_data_codec_canonical t : CodecCanonical (auth_data_codec t).
Proof. struct_canonical. Qed.

Definition authenticated_content_wf (a : AuthenticatedContent) : Prop :=
  framed_content_wf (ac_content a) /\ auth_data_wf (content_type (fc_content (ac_content a))) (ac_auth a).

#[export] Instance content_auth_codec_ok :
  CodecOk (dep_codec (framed_content_codec_with unchecked_codec) (fun c => auth_data_codec (content_type (fc_content c))))
    (fun x => framed_content_wf x.1 /\ auth_data_wf (content_type (fc_content x.1)) x.2).
Proof.
  apply (dep_codec_ok _ _ framed_content_wf (fun c a => auth_data_wf (content_type (fc_content c)) a)).
  intros a. apply _.
Qed.
#[export] Instance content_auth_codec_canonical :
  CodecCanonical (dep_codec (framed_content_codec_with unchecked_codec)
    (fun c => auth_data_codec (content_type (fc_content c)))).
Proof.
  apply (dep_codec_canonical _ _ framed_content_wf (fun c a => auth_data_wf (content_type (fc_content c)) a));
    intros; apply _.
Qed.

#[export] Instance authenticated_content_codec_ok :
  CodecOk (authenticated_content_codec_with unchecked_codec) authenticated_content_wf.
Proof.
  eapply struct_codec_ok_iff; [apply _|by intros []|by intros; split_pairs|].
  intros []. unfold authenticated_content_wf. simpl. tauto.
Qed.
#[export] Instance authenticated_content_codec_canonical :
  CodecCanonical (authenticated_content_codec_with unchecked_codec).
Proof. struct_canonical. Qed.

(** A membership tag exactly for members. *)
Definition public_message_wf (p : PublicMessage) : Prop :=
  framed_content_wf (pm_content p) /\ auth_data_wf (content_type (fc_content (pm_content p))) (pm_auth p) /\
  tail_wf (is_member (fc_sender (pm_content p))) bytes_ok (membership_tag p).

#[export] Instance public_message_codec_ok : CodecOk (public_message_codec_with unchecked_codec) public_message_wf.
Proof.
  eapply struct_codec_ok_iff;
    [apply (dep_codec_ok _ (fun p => tail_codec (is_member (fc_sender p.1)) byte_vec_codec) _
              (fun p => tail_wf (is_member (fc_sender p.1)) bytes_ok)); intros; apply _
    |by intros []|by intros; split_pairs|].
  intros []. unfold public_message_wf. simpl. tauto.
Qed.
#[export] Instance public_message_codec_canonical : CodecCanonical (public_message_codec_with unchecked_codec).
Proof.
  eapply struct_codec_canonical; [| |by intros; split_pairs];
    [apply (dep_codec_ok _ (fun p => tail_codec (is_member (fc_sender p.1)) byte_vec_codec) _
              (fun p => tail_wf (is_member (fc_sender p.1)) bytes_ok)); intros; apply _|].
  eapply (dep_codec_canonical _ (fun p => tail_codec (is_member (fc_sender p.1)) byte_vec_codec) _
              (fun p => tail_wf (is_member (fc_sender p.1)) bytes_ok)); intros; apply _.
  Unshelve. all: try apply _.
Qed.

Definition private_aad_wf (a : PrivateContentAAD) : Prop :=
  bytes_ok (pca_group_id a) /\ is_u64 (pca_epoch a) /\ bytes_ok (pca_authenticated_data a).

#[export] Instance private_aad_codec_ok : CodecOk private_aad_codec private_aad_wf.
Proof.
  eapply struct_codec_ok_iff; [apply _|by intros []|by intros; split_pairs|].
  intros []. unfold private_aad_wf. simpl. tauto.
Qed.

Definition private_message_wf (p : PrivateMessage) : Prop :=
  bytes_ok (prm_group_id p) /\ is_u64 (prm_epoch p) /\ bytes_ok (prm_authenticated_data p) /\
  bytes_ok (encrypted_sender_data p) /\ bytes_ok (prm_ciphertext p).

#[export] Instance private_message_codec_ok : CodecOk private_message_codec private_message_wf.
Proof.
  eapply struct_codec_ok_iff; [apply _|by intros []|by intros; split_pairs|].
  intros []. unfold private_message_wf. simpl. tauto.
Qed.
#[export] Instance private_message_codec_canonical : CodecCanonical private_message_codec.
Proof. struct_canonical. Qed.

Definition group_info_wf (g : GroupInfo) : Prop :=
  group_context_wf (gi_group_context g) /\ extension_list_wf (gi_extensions g) /\
  bytes_ok (gi_confirmation_tag g) /\ leaf_index_wf (gi_signer g) /\ bytes_ok (gi_signature g).

#[export] Instance group_info_codec_ok : CodecOk group_info_codec group_info_wf.
Proof. struct_ok. Qed.
#[export] Instance group_info_codec_canonical : CodecCanonical group_info_codec.
Proof. struct_canonical. Qed.

Definition group_secrets_wf (g : GroupSecrets) : Prop :=
  bytes_ok (joiner_secret g) /\ option_wf bytes_ok (gs_path_secret g) /\ Forall psk_id_wf (gs_psks g).

#[export] Instance just_psk_id_codec_progress : CodecProgress just_psk_id_codec.
Proof.
  eapply (enum_codec_progress u8_codec (in_uint 8) _ _ just_psk_id_wf); [apply just_psk_id_variants|apply _].
Qed.
#[export] Instance psk_id_codec_progress : CodecProgress psk_id_codec.
Proof. struct_progress. Qed.
#[export] Instance psk_ids_codec_ok : CodecOk (vec_codec psk_id_codec) (Forall psk_id_wf).
Proof. apply (vec_codec_ok _ psk_id_wf). Qed.
#[export] Instance path_secret_option_codec_ok :
  CodecOk (option_codec path_secret_codec) (option_wf bytes_ok).
Proof. apply (option_codec_ok byte_vec_codec bytes_ok). Qed.
#[export] Instance group_secrets_codec_ok : CodecOk group_secrets_codec group_secrets_wf.
Proof. struct_ok. Qed.

Definition encrypted_secrets_wf (e : EncryptedGroupSecrets) : Prop :=
  bytes_ok (new_member e) /\ hpke_ciphertext_wf (encrypted_group_secrets e).

#[export] Instance encrypted_secrets_codec_ok : CodecOk encrypted_secrets_codec encrypted_secrets_wf.
Proof. struct_ok. Qed.
#[export] Instance encrypted_secrets_codec_canonical : CodecCanonical encrypted_secrets_codec.
Proof. struct_canonical. Qed.
#[export] Instance encrypted_secrets_codec_progress : CodecProgress encrypted_secrets_codec.
Proof. struct_progress. Qed.
#[export] Instance secrets_codec_ok : CodecOk (vec_codec encrypted_secrets_codec) (Forall encrypted_secrets_wf).
Proof. apply (vec_codec_ok _ encrypted_secrets_wf). Qed.
#[export] Instance secrets_codec_canonical : CodecCanonical (vec_codec encrypted_secrets_codec).
Proof. apply (vec_codec_canonical _ encrypted_secrets_wf). Qed.

Definition welcome_wf (w : Welcome) : Prop :=
  is_u16 (w_cipher_suite w) /\ Forall encrypted_secrets_wf (w_secrets w) /\ bytes_ok (encrypted_group_info w).

#[export] Instance welcome_codec_ok : CodecOk welcome_codec welcome_wf.
Proof. struct_ok. Qed.
#[export] Instance welcome_codec_canonical : CodecCanonical welcome_codec.
Proof. struct_canonical. Qed.

Definition payload_wf (p : MlsMessagePayload) : Prop :=
  match p with
  | Plain m => public_message_wf m
  | Cipher m => private_message_wf m
  | PayloadWelcome m => welcome_wf m
  | PayloadGroupInfo m => group_info_wf m
  | PayloadKeyPackage m => key_package_wf m
  end.

Lemma payload_variants t cv :
  (if t =? 1 then
     Some (variant_codec Plain (fun p => match p with Plain m => Some m | _ => None end)
             (public_message_codec_with unchecked_codec))
   else if t =? 2 then
     Some (variant_codec Cipher (fun p => match p with Cipher m => Some m | _ => None end)
             private_message_codec)
   else if t =? 3 then
     Some (variant_codec PayloadWelcome (fun p => match p with PayloadWelcome m => Some m | _ => None end)
             welcome_codec)
   else if t =? 4 then
     Some (variant_codec PayloadGroupInfo (fun p => match p with PayloadGroupInfo m => Some m | _ => None end)
             group_info_codec)
   else if t =? 5 then
     Some (variant_codec PayloadKeyPackage (fun p => match p with PayloadKeyPackage m => Some m | _ => None end)
             key_package_codec)
   else None) = Some cv ->
  CodecOk cv (fun x => payload_discriminant x = t /\ payload_wf x) /\ CodecCanonical cv.
Proof. revert t cv. payload_variants payload_discriminant. Qed.

#[export] Instance payload_codec_ok : CodecOk (payload_codec_with unchecked_codec) payload_wf.
Proof. enum_ok (uint_codec 2) (in_uint 16) payload_wf payload_variants. Qed.
#[export] Instance payload_codec_canonical : CodecCanonical (payload_codec_with unchecked_codec).
Proof. enum_canonical (uint_codec 2) (in_uint 16) payload_wf payload_variants. Qed.

Definition message_wf (m : MlsMessage) : Prop := is_u16 (msg_version m) /\ payload_wf (payload m).

#[export] Instance message_codec_ok : CodecOk (message_codec_with unchecked_codec) message_wf.
Proof. struct_ok. Qed.
#[export] Instance message_codec_canonical : CodecCanonical (message_codec_with unchecked_codec).
Proof. struct_canonical. Qed.

(** *** The messages that are sent

    The encoder refuses custom proposals of a reserved type; on the other
    messages the codec obeys the laws. *)

Definition commit_sendable (c : Commit) : Prop := Forall or_ref_sendable (commit_proposals c).

Definition content_sendable (c : Content) : Prop :=
  match c with
  | ContentApplication _ => True
  | ContentProposal p => sendable p
  | ContentCommit c => commit_sendable c
  end.

Definition message_sendable (m : MlsMessage) : Prop :=
  match payload m with Plain p => content_sendable (fc_content (pm_content p)) | _ => True end.

Lemma commit_codec_agree : codec_agree commit_sendable commit_codec (commit_codec_with unchecked_codec).
Proof.
  eapply agree_weaken; [|apply agree_struct, agree_pair; [apply agree_vec, or_ref_codec_agree|
    apply (agree_refl (fun _ => True))]].
  intros c Hc. by split.
Qed.

Lemma content_codec_agree : codec_agree content_sendable content_codec (content_codec_with unchecked_codec).
Proof.
  apply agree_enum. intros t.
  destruct (t =? 1); [apply agree_refl|]. destruct (t =? 2); [|destruct (t =? 3); [|done]].
  - eapply agree_weaken; [|apply agree_variant, proposal_codec_agree]. by intros [] ? ? [= <-].
  - eapply agree_weaken; [|apply agree_variant, commit_codec_agree]. by intros [] ? ? [= <-].
Qed.

Lemma framed_content_codec_agree :
  codec_agree (fun f => content_sendable (fc_content f)) framed_content_codec (framed_content_codec_with unchecked_codec).
Proof.
  eapply agree_weaken; [|apply agree_struct; repeat (apply agree_pair; [apply (agree_refl (fun _ => True))|]);
    apply content_codec_agree].
  intros f Hf. simpl. tauto.
Qed.

Lemma authenticated_content_codec_agree :
  codec_agree (fun a => content_sendable (fc_content (ac_content a))) authenticated_content_codec
    (authenticated_content_codec_with unchecked_codec).
Proof.
  eapply agree_weaken; [|apply agree_struct, agree_pair; [apply (agree_refl (fun _ => True))|];
    apply (agree_dep (fun f => content_sendable (fc_content f)) (fun _ _ => True));
      [apply framed_content_codec_agree|intros; apply agree_refl]].
  intros a Ha. simpl. tauto.
Qed.

Lemma public_message_codec_agree :
  codec_agree (fun p => content_sendable (fc_content (pm_content p))) public_message_codec
    (public_message_codec_with unchecked_codec).
Proof.
  eapply agree_weaken; [|apply agree_struct;
    apply (agree_dep (fun p => content_sendable (fc_content p.1) /\ True) (fun _ _ => True));
      [|intros; apply agree_refl];
    apply (agree_dep (fun f => content_sendable (fc_content f)) (fun _ _ => True));
      [apply framed_content_codec_agree|intros; apply agree_refl]].
  intros a Ha. simpl. tauto.
Qed.

Lemma message_codec_agree :
  codec_agree message_sendable message_codec (message_codec_with unchecked_codec).
Proof.
  eapply agree_weaken; [|apply agree_struct, agree_pair; [apply (agree_refl (fun _ => True))|];
    apply (agree_enum (fun p => match p with Plain m => content_sendable (fc_content (pm_content m)) | _ => True end));
    intros t; destruct (t =? 1);
      [eapply agree_weaken; [|apply agree_variant, public_message_codec_agree]; by intros [] ? ? [= <-]|];
      destruct (t =? 2); [apply agree_refl|]; destruct (t =? 3); [apply agree_refl|];
      destruct (t =? 4); [apply agree_refl|]; destruct (t =? 5); [apply agree_refl|done]].
  intros m Hm. split; [done|]. exact Hm.
Qed.

(** ** What a message is on the wire *)

Lemma message_to_bytes_spec m : message_wf m -> message_sendable m ->
  match message_to_bytes m with
  | Ok b => bytes_ok b /\ zlen b = mls_encoded_len message_codec m /\
      forall rest, bytes_ok rest -> message_from_bytes (b ++ rest) = Ok m
  | Err e => e = SerializationError (any_codec VarIntOutOfRange)
  | Panic => False
  end.
Proof.
  intros Hm Hs. destruct (agree_good _ message_wf _ _ message_codec_agree) as [Hg _].
  specialize (Hg m Hm Hs). unfold enc_good in Hg. unfold message_to_bytes, mls_encode_to_vec.
  destruct (mls_encode message_codec m []) as [b|e|]; cbn [from_codec map_err]; [|congruence|done].
  destruct Hg as (Hb & Hl & Hd). split; [done|]. split; [done|]. intros rest Hr. unfold message_from_bytes.
  by rewrite Hd.
Qed.

Lemma message_from_bytes_spec b : bytes_ok b ->
  match message_from_bytes b with
  | Ok m => message_wf m /\
      (message_sendable m -> exists p rest, b = p ++ rest /\ message_to_bytes m = Ok p)
  | Err e => exists c, e = SerializationError (any_codec c)
  | Panic => False
  end.
Proof.
  intros Hb. destruct (agree_good _ message_wf _ _ message_codec_agree) as [_ Hd].
  specialize (Hd b Hb). unfold dec_good in Hd. unfold message_from_bytes.
  destruct (mls_decode message_codec b) as [[m rest]|e|] eqn:E; cbn; [|by eexists|done].
  split; [tauto|]. intros Hs.
  destruct (agree_canonical _ message_wf _ _ _ _ _ message_codec_agree Hb E Hs) as (p & -> & Hp).
  exists p, rest. split; [done|]. unfold message_to_bytes, mls_encode_to_vec. by rewrite Hp.
Qed.

(** *** Padding of private contents *)

Definition private_content_wf (p : PrivateMessageContent) : Prop :=
  content_wf (pmc_content p) /\ content_sendable (pmc_content p) /\
  auth_data_wf (content_type (pmc_content p)) (pmc_auth p).

(** The payload of a content, by its type. *)
Lemma content_payload c b : content_wf c -> content_sendable c -> content_encode c [] = Ok b ->
  bytes_ok b /\
  forall rest, bytes_ok rest ->
    match content_type c with
    | CtApplication => '(c, r) ← mls_decode byte_vec_codec (b ++ rest); Ok (ContentApplication c, r)
    | CtProposal => '(c, r) ← mls_decode proposal_codec (b ++ rest); Ok (ContentProposal c, r)
    | CtCommit => '(c, r) ← mls_decode commit_codec (b ++ rest); Ok (ContentCommit c, r)
    end = Ok (c, rest).
Proof.
  intros Hw Hs. destruct c as [d|p|c]; cbn [content_encode content_type]; intros E.
  - pose proof (enc_spec (c := byte_vec_codec) d Hw) as Hg. unfold enc_good in Hg. rewrite E in Hg.
    destruct Hg as (Hb & _ & Hd). split; [done|]. intros rest Hr. by rewrite Hd.
  - destruct (agree_good _ proposal_wf _ _ proposal_codec_agree) as [Hg _].
    specialize (Hg p Hw Hs). unfold enc_good in Hg. rewrite E in Hg.
    destruct Hg as (Hb & _ & Hd). split; [done|]. intros rest Hr. by rewrite Hd.
  - destruct (agree_good _ commit_wf _ _ commit_codec_agree) as [Hg _].
    specialize (Hg c Hw Hs). unfold enc_good in Hg. rewrite E in Hg.
    destruct Hg as (Hb & _ & Hd). split; [done|]. intros rest Hr. by rewrite Hd.
Qed.

Lemma content_encode_app c w b : content_wf c -> content_sendable c -> content_encode c w = Ok b ->
  exists b', content_encode c [] = Ok b' /\ b = w ++ b'.
Proof.
  intros Hw Hs. destruct c as [d|p|c]; cbn [content_encode].
  - apply (encode_app byte_vec_codec bytes_ok).
  - rewrite !(agree_enc _ _ _ proposal_codec_agree) by done. apply (encode_app _ proposal_wf).
  - rewrite !(agree_enc _ _ _ commit_codec_agree) by done. apply (encode_app _ commit_wf).
Qed.

(** A private content is read back from its bytes with any number of zeros
    after them, and padding with another byte is refused. *)
Lemma private_content_spec p b pad : private_content_wf p -> bytes_ok pad ->
  private_content_encode p [] = Ok b ->
  bytes_ok b /\
  private_content_decode (b ++ pad) (content_type (pmc_content p)) =
    if existsb (fun i => negb (i =? 0)) pad then Err (Custom 5) else Ok p.
Proof.
  intros (Hw & Hs & Ha) Hpad. unfold private_content_encode. intros (w & Hc & Hb)%bind_Ok.
  apply (encode_app _ (auth_data_wf (content_type (pmc_content p)))) in Hb as (a & Hae & ->).
  pose proof (enc_spec (c := auth_data_codec (content_type (pmc_content p))) _ Ha) as Hg.
  unfold enc_good in Hg. rewrite Hae in Hg. destruct Hg as (Hab & _ & Hd).
  destruct (content_payload _ _ Hw Hs Hc) as [Hwb Hdc].
  split; [by apply Forall_app|]. unfold private_content_decode. rewrite <- app_assoc.
  assert (bytes_ok (a ++ pad)) as Hap by (by apply Forall_app).
  specialize (Hdc _ Hap).
  destruct p as [c au]. cbn [pmc_content pmc_auth] in *.
  destruct (content_type c) eqn:Ec; rewrite Hdc; cbn [mbind res_bind]; by rewrite Ec, Hd by done.
Qed.

(** *** What a signature covers *)

#[export] Instance auth_content_signable_laws : SignableLaws AuthenticatedContent MessageSigningContext.
Proof. by split. Qed.
#[export] Instance group_info_signable_laws : SignableLaws GroupInfo unit.
Proof. by split. Qed.

#[export] Instance sign_content_codec_ok :
  CodecOk sign_content_codec (fun s => bytes_ok (sc_label s) /\ bytes_ok (sc_content s)).
Proof. struct_ok. Qed.

Definition tbs_wf (t : AuthenticatedContentTBS) : Prop :=
  is_u16 (tbs_protocol_version t) /\ framed_content_wf (tbs_content t) /\
  content_sendable (fc_content (tbs_content t)) /\ option_wf group_context_wf (tbs_context t).

Lemma tbs_encode_spec t w b : tbs_wf t -> tbs_encode t w = Ok b ->
  exists bv bf bc bg, b = w ++ bv ++ bf ++ bc ++ bg /\
    mls_encode u16_codec (tbs_protocol_version t) [] = Ok bv /\
    mls_encode wire_format_codec (tbs_wire_format t) [] = Ok bf /\
    mls_encode (framed_content_codec_with unchecked_codec) (tbs_content t) [] = Ok bc /\
    match tbs_context t with
    | Some context => mls_encode group_context_codec context [] = Ok bg
    | None => bg = []
    end.
Proof.
  intros (Hv & Hc & Hs & Hg). unfold tbs_encode. intros (w1 & H1 & (w2 & H2 & (w3 & H3 & H4)%bind_Ok)%bind_Ok)%bind_Ok.
  apply (encode_app u16_codec (in_uint 16)) in H1 as (bv & H1 & ->).
  apply (encode_app wire_format_codec (fun _ => True)) in H2 as (bf & H2 & ->).
  rewrite (agree_enc _ _ _ framed_content_codec_agree) in H3 by done.
  apply (encode_app _ framed_content_wf) in H3 as (bc & H3 & ->).
  destruct (tbs_context t) as [g|].
  - apply (encode_app _ group_context_wf) in H4 as (bg & H4 & ->).
    exists bv, bf, bc, bg. by rewrite <- !app_assoc.
  - injection H4 as <-. exists bv, bf, bc, []. by rewrite app_nil_r, <- !app_assoc.
Qed.

(** The encoding of what is signed determines it. *)
Lemma tbs_encode_inj t t' b : tbs_wf t -> tbs_wf t' -> tbs_encode t [] = Ok b -> tbs_encode t' [] = Ok b -> t = t'.
Proof.
  intros Ht Ht' E E'.
  assert (forall c bc, mls_encode (framed_content_codec_with unchecked_codec) c [] = Ok bc ->
            framed_content_wf c -> bytes_ok bc) as Hcb
    by (intros c bc E0 Hc0; by apply (encode_bytes_ok _ framed_content_wf c)).
  assert (forall o bg, match o with Some g => mls_encode group_context_codec g [] = Ok bg | None => bg = [] end ->
            option_wf group_context_wf o -> bytes_ok bg) as Hgb.
  { intros [g|] bg; [intros; by apply (encode_bytes_ok _ group_context_wf g)|by intros ->]. }
  assert (forall f bf, mls_encode wire_format_codec f [] = Ok bf -> bytes_ok bf) as Hfb
    by (intros f bf E0; by apply (encode_bytes_ok _ (fun _ => True) f)).
  apply tbs_encode_spec in E as (bv & bf & bc & bg & Eb & H1 & H2 & H3 & H4); [|done].
  apply tbs_encode_spec in E' as (bv' & bf' & bc' & bg' & Eb' & H1' & H2' & H3' & H4'); [|done].
  rewrite Eb in Eb'. clear Eb. simpl in Eb'.
  destruct Ht as (Hv & Hc & _ & Hg), Ht' as (Hv' & Hc' & _ & Hg').
  assert (bytes_ok bf /\ bytes_ok bf' /\ bytes_ok bc /\ bytes_ok bc' /\ bytes_ok bg /\ bytes_ok bg')
    as (Kf & Kf' & Kc & Kc' & Kg & Kg') by (split_and!; eauto).
  eapply (encode_inj u16_codec (in_uint 16) (tbs_protocol_version t) (tbs_protocol_version t') bv bv') in Eb' as [Ev Eb'];
    [|done|done|rewrite !Forall_app; tauto|rewrite !Forall_app; tauto|done|done].
  eapply (encode_inj wire_format_codec (fun _ => True) (tbs_wire_format t) (tbs_wire_format t') bf bf') in Eb' as [Ef Eb'];
    [|done|done|rewrite !Forall_app; tauto|rewrite !Forall_app; tauto|done|done].
  eapply (encode_inj _ framed_content_wf (tbs_content t) (tbs_content t') bc bc') in Eb' as [Ec Eb'];
    [|done..].
  destruct t as [v f c g], t' as [v' f' c' g']. cbn [tbs_protocol_version tbs_wire_format tbs_content tbs_context] in *.
  subst v' f' c' bg'. f_equal.
  destruct g as [g|], g' as [g'|]; [| | |done].
  - f_equal. eapply (encode_inj group_context_codec group_context_wf g g' bg bg [] []); try done.
  - subst bg. pose proof (enc_spec (c := group_context_codec) g Hg) as Hg0. unfold enc_good in Hg0.
    rewrite H4 in Hg0. destruct Hg0 as (_ & _ & Hd). by specialize (Hd [] (Forall_nil_2 _)).
  - subst bg. pose proof (enc_spec (c := group_context_codec) g' Hg') as Hg0. unfold enc_good in Hg0.
    rewrite H4' in Hg0. destruct Hg0 as (_ & _ & Hd). by specialize (Hd [] (Forall_nil_2 _)).
Qed.

(** The signed bytes of a label and a content determine both. *)
Lemma sign_content_inj l l' c c' b :
  bytes_ok l -> bytes_ok l' -> bytes_ok c -> bytes_ok c' ->
  mls_encode_to_vec sign_content_codec (sign_content_new l c) = Ok b ->
  mls_encode_to_vec sign_content_codec (sign_content_new l' c') = Ok b -> l = l' /\ c = c'.
Proof.
  intros Hl Hl' Hc Hc' E E'.
  assert (bytes_ok (bstr "MLS 1.0 ")) as Hp by (vm_compute; repeat constructor; discriminate).
  eapply (encode_inj sign_content_codec _ (sign_content_new l c) (sign_content_new l' c') b b [] []) in E as [E _];
    [| | |done|done|exact E'|done].
  - by injection E as -> ->.
  - by split; [apply Forall_app|].
  - by split; [apply Forall_app|].
Qed.

Section signed_contents.
Context `{CipherSuiteProvider}.

Definition signing_context_wf (c : MessageSigningContext) : Prop :=
  is_u16 (sctx_protocol_version c) /\ option_wf group_context_wf (sctx_group_context c).

Definition signed_content_wf (a : AuthenticatedContent) : Prop :=
  framed_content_wf (ac_content a) /\ content_sendable (fc_content (ac_content a)).

Lemma tbs_of_wf a c : signed_content_wf a -> signing_context_wf c ->
  tbs_wf (tbs_from_authenticated_content a (sctx_group_context c) (sctx_protocol_version c)).
Proof.
  intros [Hw Hs] [Hv Hg]. split_and!; [done|done|done|]. simpl. by destruct (fc_sender _).
Qed.

Lemma tbs_bytes_ok t b : tbs_wf t -> tbs_encode t [] = Ok b -> bytes_ok b.
Proof.
  intros Ht E. apply tbs_encode_spec in E as (bv & bf & bc & bg & -> & H1 & H2 & H3 & H4); [|done].
  destruct Ht as (Hv & Hc & _ & Hg). simpl. rewrite !Forall_app. split_and!.
  - by apply (encode_bytes_ok u16_codec (in_uint 16) (tbs_protocol_version t)).
  - by apply (encode_bytes_ok wire_format_codec (fun _ => True) (tbs_wire_format t)).
  - by apply (encode_bytes_ok _ framed_content_wf (tbs_content t)).
  - destruct (tbs_context t) as [g|]; [by apply (encode_bytes_ok _ group_context_wf g)|by subst].
Qed.

(** The bytes signed for a content in a context determine both. *)
Lemma signed_bytes_inj a a' c c' b :
  signed_content_wf a -> signed_content_wf a' -> signing_context_wf c -> signing_context_wf c' ->
  signed_bytes a c = Ok b -> signed_bytes a' c' = Ok b ->
  tbs_from_authenticated_content a (sctx_group_context c) (sctx_protocol_version c) =
  tbs_from_authenticated_content a' (sctx_group_context c') (sctx_protocol_version c').
Proof.
  intros Ha Ha' Hc Hc'. pose proof (tbs_of_wf _ _ Ha Hc) as Ht. pose proof (tbs_of_wf _ _ Ha' Hc') as Ht'.
  unfold signed_bytes. intros (x & E & E1)%bind_Ok (x' & E' & E1')%bind_Ok.
  unfold from_codec in *. apply map_err_Ok in E, E1. apply map_err_Ok in E', E1'.
  cbn [signable_content auth_content_signable] in E, E'.
  pose proof (tbs_bytes_ok _ _ Ht E) as Hx. pose proof (tbs_bytes_ok _ _ Ht' E') as Hx'.
  assert (bytes_ok (SIGN_LABEL (A := AuthenticatedContent) (Ctx := MessageSigningContext))) as Hl
    by (vm_compute; repeat constructor; discriminate).
  destruct (sign_content_inj _ _ _ _ _ Hl Hl Hx Hx' E1 E1') as [_ <-].
  by eapply tbs_encode_inj.
Qed.

Lemma new_signed_spec `{!SignatureLaws} coins ctx sender content sk pk wf ad a :
  auth_content_new_signed coins ctx sender content sk wf ad = Ok a -> signature_key_derive_public sk = Ok pk ->
  wire_format a = wf /\ ac_content a = mk_framed_content (group_id ctx) (epoch ctx) sender ad content /\
  confirmation_tag (ac_auth a) = None /\
  forall tag, signable_verify pk (mk_signing_context (Some ctx) (protocol_version ctx)) (set_confirmation_tag tag a) = Ok tt.
Proof using Type*.
  intros Hn Hk. unfold auth_content_new_signed in Hn.
  edestruct sign_verify as ((s & ->) & Hv); [exact Hn|exact Hk|]. split_and!; try done.
Qed.
End signed_contents.

(** ** Theorems *)

(** C21: messages on the wire.  A well-formed message is either written in
    [mls_encoded_len] bytes, from which it is read back whatever follows them,
    or it is refused because a length does not fit a variable-size integer.
    Reading any bytes returns: an error of the codec, or a well-formed message
    -- with a membership tag exactly for members and a confirmation tag exactly
    for commits -- of which the bytes are the encoding followed by a rest that
    is ignored, unless it carries a custom proposal of a reserved type. *)
Theorem message_wire_format_correct (m : MlsMessage) (b : bytes)
    (Hm : message_wf m) (Hs : message_sendable m) (Hb : bytes_ok b) :
  match message_to_bytes m with
  | Ok w => bytes_ok w /\ zlen w = mls_encoded_len message_codec m /\
      forall rest, bytes_ok rest -> message_from_bytes (w ++ rest) = Ok m
  | Err e => e = SerializationError (any_codec VarIntOutOfRange)
  | Panic => False
  end /\
  match message_from_bytes b with
  | Ok m' => message_wf m' /\
      (message_sendable m' -> exists p rest, b = p ++ rest /\ message_to_bytes m' = Ok p)
  | Err e => exists c, e = SerializationError (any_codec c)
  | Panic => False
  end.
Proof. split; [by apply message_to_bytes_spec|by apply message_from_bytes_spec]. Qed.

Definition sample_framed : FramedContent :=
  mk_framed_content [1; 2] 7 (SenderMember 3) []
    (ContentCommit (mk_commit [OrReference [9; 9]; OrProposal (PRemove (mk_remove 1))] None)).

Definition sample_message : MlsMessage :=
  mk_message 1 (Plain (mk_public_message sample_framed (mk_auth_data [5; 6] (Some [8])) (Some [7]))).

Lemma message_wire_format_correct_witness :
  message_to_bytes sample_message = Ok [0; 1; 0; 1; 2; 1; 2; 0; 0; 0; 0; 0; 0; 0; 7; 1; 0; 0; 0; 3; 0; 3; 11; 2; 2; 9; 9;
    1; 0; 3; 0; 0; 0; 1; 0; 2; 5; 6; 1; 8; 1; 7] /\
  message_from_bytes [0; 1; 0; 1; 2; 1; 2; 0; 0; 0; 0; 0; 0; 0; 7; 1; 0; 0; 0; 3; 0; 3; 11; 2; 2; 9; 9;
    1; 0; 3; 0; 0; 0; 1; 0; 2; 5; 6; 1; 8; 1; 7; 42] = Ok sample_message /\
  message_from_bytes [0; 1; 0; 6] = Err (SerializationError (any_codec UnsupportedEnumDiscriminant)).
Proof.
  destruct (message_wire_format_correct sample_message [0; 1; 0; 6]) as [H1 _].
  - repeat first [done|split|constructor].
  - repeat first [done|split|constructor].
  - repeat first [done|split|constructor].
  - assert (message_to_bytes sample_message = Ok [0; 1; 0; 1; 2; 1; 2; 0; 0; 0; 0; 0; 0; 0; 7; 1; 0; 0; 0; 3; 0; 3; 11; 2; 2; 9; 9;
      1; 0; 3; 0; 0; 0; 1; 0; 2; 5; 6; 1; 8; 1; 7]) as E by reflexivity.
    rewrite E in H1. destruct H1 as (_ & _ & Hd). split; [done|].
    split; [apply (Hd [42]); repeat first [done|split|constructor]|reflexivity].
Defined.

(** C30: signed contents.  A content signed by [new_signed] carries the group,
    the epoch, the sender and the content it was made for, and its signature
    verifies in the same context whatever confirmation tag it is given.  The
    bytes that were signed determine the protocol version, the wire format and
    the whole framed content, and for a member or a joining member the group
    context: no other content has them in any context. *)
Theorem signed_content_binding `{SignatureLaws} (coins : Coins) (ctx : GroupContext) (sender : Sender) (content : Content)
    (sk : SignatureSecretKey) (pk : SignaturePublicKey) (wf : WireFormat) (ad : bytes) (a a' : AuthenticatedContent)
    (c' : MessageSigningContext) (b : bytes)
    (Hn : auth_content_new_signed coins ctx sender content sk wf ad = Ok a)
    (Hk : signature_key_derive_public sk = Ok pk)
    (Hctx : group_context_wf ctx) (Ha : signed_content_wf a) (Ha' : signed_content_wf a') (Hc' : signing_context_wf c')
    (Hb : signed_bytes a (mk_signing_context (Some ctx) (protocol_version ctx)) = Ok b)
    (Hb' : signed_bytes a' c' = Ok b) :
  (forall tag, signable_verify pk (mk_signing_context (Some ctx) (protocol_version ctx)) (set_confirmation_tag tag a) = Ok tt) /\
  ac_content a = mk_framed_content (group_id ctx) (epoch ctx) sender ad content /\
  sctx_protocol_version c' = protocol_version ctx /\ wire_format a' = wf /\ ac_content a' = ac_content a /\
  (match sender with SenderMember _ | NewMemberCommit => sctx_group_context c' = Some ctx | _ => True end).
Proof.
  destruct (new_signed_spec _ _ _ _ _ _ _ _ _ Hn Hk) as (Hwf & Hc & _ & Hv).
  assert (signing_context_wf (mk_signing_context (Some ctx) (protocol_version ctx))) as Hcw
    by (split; [by destruct Hctx|done]).
  pose proof (signed_bytes_inj _ _ _ _ _ Ha Ha' Hcw Hc' Hb Hb') as E.
  unfold tbs_from_authenticated_content in E. simpl in E.
  injection E as Ev Ew Ec Ex. rewrite <- Ec in Ex. rewrite Hc in Ex. simpl in Ex.
  rewrite <- Ev, <- Ew, <- Ec. split_and!; try done. by destruct sender.
Qed.

Definition sample_context : GroupContext := mk_group_context 1 1 [1; 2] 7 [3] [4] [].

Lemma signed_content_binding_witness :
  exists a, auth_content_new_signed (H := Toy.provider) 0%nat sample_context (SenderMember 3) (ContentProposal (PRemove (mk_remove 1)))
      [5] WfPublicMessage [] = Ok a /\
    signable_verify (H := Toy.provider) [5] (mk_signing_context (Some sample_context) 1) (set_confirmation_tag (Some [1]) a) = Ok tt.
Proof.
  destruct (auth_content_new_signed (H := Toy.provider) 0%nat sample_context (SenderMember 3)
    (ContentProposal (PRemove (mk_remove 1))) [5] WfPublicMessage []) as [a| |] eqn:E; [|by vm_compute in E..].
  destruct (signed_bytes a (mk_signing_context (Some sample_context) 1)) as [b| |] eqn:Eb;
    [|by vm_compute in E; injection E as <-; vm_compute in Eb..].
  exists a. split; [done|].
  assert (signed_content_wf a) as Ha.
  { clear Eb. vm_compute in E. injection E as <-. repeat first [done|split|constructor]. }
  assert (group_context_wf sample_context) as Hc by (repeat first [done|split|constructor]).
  edestruct (signed_content_binding (H := Toy.provider) (H0 := Toy.signature_laws) 0%nat sample_context (SenderMember 3)
    (ContentProposal (PRemove (mk_remove 1))) [5] [5] WfPublicMessage [] a a
    (mk_signing_context (Some sample_context) 1) b) as (Hv & _); [done..|apply Hv].
Defined.
