(* ===== verification/KeySchedule.v ===== *)
(** * The key schedule

    The derivation of the secrets of an epoch (mls-rs/src/group/key_schedule.rs
    and epoch.rs), the secret of the pre-shared keys (mls-rs/src/psk/secret.rs),
    the transcript hashes (transcript_hash.rs, util.rs), and the tags made from
    the keys of the epoch (confirmation_tag.rs, membership_tag.rs). *)

From S2P Require Import Prelude Codec Crypto TreeMath SecretTree Data NodeVec Proposals TreeKem LeafNodes Kem Framing.

#[local] Set Default Goal Selector "!".
Local Open Scope Z_scope.

(** ** The secrets of an epoch *)

Record EpochSecrets := mk_epoch_secrets {
  resumption_secret : bytes;
  sender_data_secret : bytes;
  secret_tree : SecretTree;
}.

Notation InitSecret := bytes (only parsing).
Notation PskSecret := bytes (only parsing).
Notation PreSharedKey := bytes (only parsing).

Record KeySchedule := mk_key_schedule {
  exporter_secret : bytes;
  authentication_secret : bytes;
  external_secret : bytes;
  membership_key : bytes;
  init_secret : InitSecret;
}.

#[export] Instance KeySchedule_eq_dec : EqDecision KeySchedule.
Proof. solve_decision. Defined.

Definition key_schedule_codec : codec KeySchedule :=
  struct_codec
    (fun k => (exporter_secret k, (authentication_secret k, (external_secret k, (membership_key k, init_secret k)))))
    (fun '(e, (a, (x, (m, i)))) => mk_key_schedule e a x m i)
    (pair_codec byte_vec_codec (pair_codec byte_vec_codec (pair_codec byte_vec_codec
      (pair_codec byte_vec_codec byte_vec_codec)))).

Record KeyScheduleDerivationResult := mk_derivation {
  kd_key_schedule : KeySchedule;
  confirmation_key : bytes;
  kd_joiner_secret : JoinerSecret;
  epoch_secrets : EpochSecrets;
}.

Definition key_schedule_new (init_secret : InitSecret) : KeySchedule := mk_key_schedule [] [] [] [] init_secret.

Definition delete_exporter (k : KeySchedule) : KeySchedule :=
  mk_key_schedule [] (authentication_secret k) (external_secret k) (membership_key k) (init_secret k).

Definition EXPORTER_CONTEXT : bytes := bstr "MLS 1.0 external init secret".

Section key_schedule.
Context `{CipherSuiteProvider}.
(** [SecretsProducer::derive]. *)
Definition derive (epoch_secret label : bytes) : mres bytes := kdf_derive_secret epoch_secret label.

(** The nodes of the secret tree have 32-bit indices. *)
Definition from_epoch_secret (epoch_secret : bytes) (secret_tree_size : Z) : mres KeyScheduleDerivationResult :=
  resumption ← derive epoch_secret (bstr "resumption");
  sender_data ← derive epoch_secret (bstr "sender data");
  encryption ← derive epoch_secret (bstr "encryption");
  let epoch_secrets := mk_epoch_secrets resumption sender_data (secret_tree_new 32 secret_tree_size encryption) in
  exporter ← derive epoch_secret (bstr "exporter");
  authentication ← derive epoch_secret (bstr "authentication");
  external ← derive epoch_secret (bstr "external");
  membership ← derive epoch_secret (bstr "membership");
  init ← derive epoch_secret (bstr "init");
  confirmation_key ← derive epoch_secret (bstr "confirm");
  Ok (mk_derivation (mk_key_schedule exporter authentication external membership init)
        confirmation_key [] epoch_secrets).

Definition get_pre_epoch_secret (psk_secret : PskSecret) (joiner_secret : JoinerSecret) : mres bytes :=
  from_crypto (kdf_extract joiner_secret psk_secret).

Definition from_joiner (joiner_secret : JoinerSecret) (context : GroupContext) (secret_tree_size : Z)
    (psk_secret : PskSecret) : mres KeyScheduleDerivationResult :=
  epoch_seed ← get_pre_epoch_secret psk_secret joiner_secret;
  context ← from_codec (mls_encode_to_vec group_context_codec context);
  epoch_secret ← kdf_expand_with_label epoch_seed (bstr "epoch") context None;
  from_epoch_secret epoch_secret secret_tree_size.

Definition from_key_schedule (last_key_schedule : KeySchedule) (commit_secret : PathSecret) (context : GroupContext)
    (secret_tree_size : Z) (psk_secret : PskSecret) : mres KeyScheduleDerivationResult :=
  joiner_seed ← from_crypto (kdf_extract (init_secret last_key_schedule) commit_secret);
  context_bytes ← from_codec (mls_encode_to_vec group_context_codec context);
  joiner_secret ← kdf_expand_with_label joiner_seed (bstr "joiner") context_bytes None;
  r ← from_joiner joiner_secret context secret_tree_size psk_secret;
  Ok (mk_derivation (kd_key_schedule r) (confirmation_key r) joiner_secret (epoch_secrets r)).

Definition from_random_epoch_secret (coins : Coins) (secret_tree_size : Z) : mres KeyScheduleDerivationResult :=
  epoch_secret ← from_crypto (random_bytes_vec coins kdf_extract_size);
  from_epoch_secret epoch_secret secret_tree_size.

Definition export_secret (k : KeySchedule) (label context : bytes) (len : Z) : mres bytes :=
  if bool_decide (exporter_secret k = []) then Err ExporterDeleted
  else
    secret ← kdf_derive_secret (exporter_secret k) label;
    context_hash ← from_crypto (hash context);
    kdf_expand_with_label secret (bstr "exported") context_hash (Some len).

Definition get_external_key_pair (k : KeySchedule) : mres (HpkeSecretKey * HpkePublicKey) :=
  from_crypto (kem_derive (external_secret k)).

Definition get_external_key_pair_ext (k : KeySchedule) : mres ExternalPubExt :=
  '(_, external_pub) ← get_external_key_pair k;
  Ok external_pub.

Definition encode_for_external (coins : Coins) (external_pub : HpkePublicKey) : mres (InitSecret * bytes) :=
  '(kem_output, context) ← from_crypto (hpke_setup_s coins external_pub []);
  init_secret ← from_crypto (context_s_export context EXPORTER_CONTEXT kdf_extract_size);
  Ok (init_secret, kem_output).

Definition decode_for_external (kem_output : bytes) (external_secret : HpkeSecretKey) (external_pub : HpkePublicKey) :
    mres InitSecret :=
  context ← from_crypto (hpke_setup_r kem_output external_secret external_pub []);
  from_crypto (context_r_export context EXPORTER_CONTEXT kdf_extract_size).

Definition derive_for_external (k : KeySchedule) (kem_output : bytes) : mres KeySchedule :=
  '(secret, public) ← get_external_key_pair k;
  init_secret ← decode_for_external kem_output secret public;
  Ok (key_schedule_new init_secret).

(** ** The key of a welcome message *)

Record WelcomeSecret := mk_welcome_secret { ws_key : bytes; ws_nonce : bytes }.

Definition get_welcome_secret (joiner_secret : JoinerSecret) (psk_secret : PskSecret) : mres bytes :=
  epoch_seed ← get_pre_epoch_secret psk_secret joiner_secret;
  kdf_derive_secret epoch_seed (bstr "welcome").

Definition welcome_from_joiner_secret (joiner_secret : JoinerSecret) (psk_secret : PskSecret) : mres WelcomeSecret :=
  welcome_secret ← get_welcome_secret joiner_secret psk_secret;
  key ← kdf_expand_with_label welcome_secret (bstr "key") [] (Some aead_key_size);
  nonce ← kdf_expand_with_label welcome_secret (bstr "nonce") [] (Some aead_nonce_size);
  Ok (mk_welcome_secret key nonce).

Definition welcome_encrypt (s : WelcomeSecret) (plaintext : bytes) : mres bytes :=
  from_crypto (aead_seal (ws_key s) plaintext None (ws_nonce s)).

Definition welcome_decrypt (s : WelcomeSecret) (ciphertext : bytes) : mres bytes :=
  from_crypto (aead_open (ws_key s) ciphertext None (ws_nonce s)).

(** ** Pre-shared keys *)

Record PSKLabel := mk_psk_label { pl_id : PreSharedKeyID; pl_index : Z; pl_count : Z }.

Definition psk_label_codec : codec PSKLabel :=
  struct_codec (fun l => (pl_id l, (pl_index l, pl_count l))) (fun '(i, (x, c)) => mk_psk_label i x c)
    (pair_codec psk_id_codec (pair_codec u16_codec u16_codec)).

Record PskSecretInput := mk_psk_input { pi_id : PreSharedKeyID; pi_psk : PreSharedKey }.

Definition zero_secret : bytes := replicate (Z.to_nat kdf_extract_size) 0.

(** [PskSecret::new]. *)
Definition psk_secret_new : PskSecret := zero_secret.

Definition psk_step (index len : Z) (i : PskSecretInput) (psk_secret : PskSecret) : mres PskSecret :=
  psk_extracted ← from_crypto (kdf_extract zero_secret (pi_psk i));
  label ← from_codec (mls_encode_to_vec psk_label_codec (mk_psk_label (pi_id i) (wrap 16 index) len));
  psk_input ← kdf_expand_with_label psk_extracted (bstr "derived psk") label None;
  from_crypto (kdf_extract psk_input psk_secret).

Fixpoint psk_loop (len index : Z) (input : list PskSecretInput) (psk_secret : PskSecret) : mres PskSecret :=
  match input with
  | [] => Ok psk_secret
  | i :: input =>
      psk_secret ← psk_step index len i psk_secret;
      psk_loop len (index + 1) input psk_secret
  end.

(** [PskSecret::calculate]. *)
Definition psk_calculate (input : list PskSecretInput) : mres PskSecret :=
  if 2 ^ 16 <=? zlen input then Err TooManyPskIds
  else psk_loop (zlen input) 0 input psk_secret_new.

(** ** Transcript hashes and tags *)

(** [ConfirmedTranscriptHashInput]. *)
Definition confirmed_input_encode (content : AuthenticatedContent) : cres bytes :=
  w ← mls_encode wire_format_codec (wire_format content) [];
  w ← mls_encode framed_content_codec (ac_content content) w;
  mls_encode byte_vec_codec (ad_signature (ac_auth content)) w.

(** [transcript_hash::create]. *)
Definition confirmed_transcript_create (interim_transcript_hash : bytes) (content : AuthenticatedContent) : mres bytes :=
  input ← from_codec (confirmed_input_encode content);
  from_crypto (hash (interim_transcript_hash ++ input)).

(** [InterimTranscriptHash::create]. *)
Definition interim_transcript_create (confirmed : bytes) (confirmation_tag : ConfirmationTag) : mres bytes :=
  input ← from_codec (mls_encode_to_vec byte_vec_codec confirmation_tag);
  from_crypto (hash (confirmed ++ input)).

Definition transcript_hashes (prev_interim_transcript_hash : bytes) (content : AuthenticatedContent) :
    mres (bytes * bytes) :=
  confirmed ← confirmed_transcript_create prev_interim_transcript_hash content;
  tag ← ok_or InvalidConfirmationTag (confirmation_tag (ac_auth content));
  interim ← interim_transcript_create confirmed tag;
  Ok (interim, confirmed).

Definition confirmation_tag_create (confirmation_key confirmed_transcript_hash : bytes) : mres ConfirmationTag :=
  from_crypto (mac confirmation_key confirmed_transcript_hash).

Definition confirmation_tag_matches (self : ConfirmationTag) (confirmation_key confirmed_transcript_hash : bytes) :
    mres bool :=
  tag ← confirmation_tag_create confirmation_key confirmed_transcript_hash;
  Ok (bool_decide (tag = self)).

(** [AuthenticatedContentTBM]. *)
Definition tbm_encode (content : AuthenticatedContent) (context : GroupContext) : cres bytes :=
  w ← tbs_encode (tbs_from_authenticated_content content (Some context) (protocol_version context)) [];
  mls_encode (auth_data_codec (content_type (fc_content (ac_content content)))) (ac_auth content) w.

Definition membership_tag_create (content : AuthenticatedContent) (context : GroupContext) (membership_key : bytes) :
    mres MembershipTag :=
  tbm ← from_codec (tbm_encode content context);
  from_crypto (mac membership_key tbm).

Definition get_membership_tag (k : KeySchedule) (content : AuthenticatedContent) (context : GroupContext) :
    mres MembershipTag :=
  membership_tag_create content context (membership_key k).
End key_schedule.

(** ** The laws the theorems use *)

(** Both ends of an HPKE context export the same secrets. *)
Class HpkeExportLaws `{CipherSuiteProvider} : Prop := {
  hpke_export coins sk pk info kem_output ctx_s : is_key_pair sk pk ->
    hpke_setup_s coins pk info = Ok (kem_output, ctx_s) ->
    exists ctx_r, hpke_setup_r kem_output sk pk info = Ok ctx_r /\
      forall exporter_context len, context_r_export ctx_r exporter_context len = context_s_export ctx_s exporter_context len;
}.

(** The outputs of the hash have one length. *)
Class HashSizeLaws `{CipherSuiteProvider} : Prop := {
  hash_size data data' out out' : hash data = Ok out -> hash data' = Ok out' -> zlen out = zlen out';
}.

#[export] Instance toy_export_laws : HpkeExportLaws (H := Toy.provider).
Proof.
  split. intros coins sk pk info kem ctx Hp [= <- <-]. by exists (Toy.expand pk info 4).
Qed.

#[export] Instance toy_hash_size : HashSizeLaws (H := Toy.provider).
Proof.
  split. intros d d' o o' [= <-] [= <-].
  by rewrite !(proj1 (Toy.expand_ok [] _ 4 ltac:(lia))).
Qed.

(** ** Derivation *)

(** Run the next step of a computation whose first one is known. *)
Ltac res_step := cbn [from_crypto from_codec map_err mbind res_bind].

Section derivation_laws.
Context `{KdfLaws}.

Lemma derive_total s l : zlen s = kdf_extract_size -> zlen l <= 1000 ->
  exists x, derive s l = Ok x /\ secret_sized x.
Proof using Type*. intros Hs Hl. apply (kdf_expand_sized s l []); [done|done|by vm_compute]. Qed.

(** The secrets of an epoch have the size of the KDF. *)
Record derivation_ok (size : Z) (r : KeyScheduleDerivationResult) : Prop := {
  ok_exporter : secret_sized (exporter_secret (kd_key_schedule r));
  ok_authentication : secret_sized (authentication_secret (kd_key_schedule r));
  ok_external : secret_sized (external_secret (kd_key_schedule r));
  ok_membership : secret_sized (membership_key (kd_key_schedule r));
  ok_init : secret_sized (init_secret (kd_key_schedule r));
  ok_confirmation : secret_sized (confirmation_key r);
  ok_resumption : secret_sized (resumption_secret (epoch_secrets r));
  ok_sender_data : secret_sized (sender_data_secret (epoch_secrets r));
  ok_tree : exists e, secret_sized e /\ secret_tree (epoch_secrets r) = secret_tree_new 32 size e;
}.

Lemma from_epoch_secret_total s size : zlen s = kdf_extract_size ->
  exists r, from_epoch_secret s size = Ok r /\ derivation_ok size r.
Proof using Type*.
  intros Hs. unfold from_epoch_secret.
  destruct (derive_total s (bstr "resumption")) as (x1 & -> & H1); [done|by vm_compute|]. res_step.
  destruct (derive_total s (bstr "sender data")) as (x2 & -> & H2); [done|by vm_compute|]. res_step.
  destruct (derive_total s (bstr "encryption")) as (x3 & -> & H3); [done|by vm_compute|]. res_step.
  destruct (derive_total s (bstr "exporter")) as (x4 & -> & H4); [done|by vm_compute|]. res_step.
  destruct (derive_total s (bstr "authentication")) as (x5 & -> & H5); [done|by vm_compute|]. res_step.
  destruct (derive_total s (bstr "external")) as (x6 & -> & H6); [done|by vm_compute|]. res_step.
  destruct (derive_total s (bstr "membership")) as (x7 & -> & H7); [done|by vm_compute|]. res_step.
  destruct (derive_total s (bstr "init")) as (x8 & -> & H8); [done|by vm_compute|]. res_step.
  destruct (derive_total s (bstr "confirm")) as (x9 & -> & H9); [done|by vm_compute|]. res_step.
  eexists. split; [done|]. split; try done. by exists x3.
Qed.

Lemma from_joiner_total j ctx c size psk : psk <> [] ->
  mls_encode_to_vec group_context_codec ctx = Ok c -> zlen c <= varint_max ->
  exists r, from_joiner j ctx size psk = Ok r /\ derivation_ok size r.
Proof using Type*.
  intros Hp Hc Hl. unfold from_joiner, get_pre_epoch_secret.
  destruct (kdf_extract_ok j psk Hp) as (e & -> & He & _). res_step. rewrite Hc. res_step.
  destruct (kdf_expand_sized e (bstr "epoch") c He) as (x & -> & Hx & _); [by vm_compute|done|].
  by apply from_epoch_secret_total.
Qed.

Lemma from_key_schedule_total k cs ctx c size psk : cs <> [] -> psk <> [] ->
  mls_encode_to_vec group_context_codec ctx = Ok c -> zlen c <= varint_max ->
  exists r, from_key_schedule k cs ctx size psk = Ok r /\ derivation_ok size r /\ secret_sized (kd_joiner_secret r).
Proof using Type*.
  intros Hcs Hp Hc Hl. unfold from_key_schedule.
  destruct (kdf_extract_ok (init_secret k) cs Hcs) as (e & -> & He & _). res_step. rewrite Hc. res_step.
  destruct (kdf_expand_sized e (bstr "joiner") c He) as (x & -> & Hx); [by vm_compute|done|]. res_step.
  destruct (from_joiner_total x ctx c size psk) as (r & -> & Hr); [done..|]. res_step.
  eexists. split; [done|]. split; [by destruct Hr|done].
Qed.

Lemma export_secret_total `{!HashLaws} k label context len :
  zlen (exporter_secret k) = kdf_extract_size -> zlen label <= 1000 -> 0 <= len <= 255 * kdf_extract_size ->
  exists s h x, kdf_derive_secret (exporter_secret k) label = Ok s /\ hash context = Ok h /\
    kdf_expand_with_label s (bstr "exported") h (Some len) = Ok x /\ export_secret k label context len = Ok x /\ zlen x = len.
Proof using Type*.
  intros Hk Hl Hn. unfold export_secret. destruct kdf_size as [Hsz _]. rewrite bool_decide_false by (intros E; rewrite E in Hk; by rewrite <- Hk in Hsz).
  destruct (derive_total (exporter_secret k) label Hk Hl) as (s & E & Hs & _). unfold derive in E. rewrite E. res_step.
  destruct (hash_total context) as (h & Eh & Hh & _).
  destruct (kdf_expand_with_label_total s (bstr "exported") h (Some len) Hs) as (x & Ex & Hx & _);
    [by vm_compute| |done|].
  - change varint_max with 1073741823. lia.
  - exists s, h, x. rewrite Eh. res_step. by rewrite Ex.
Qed.

(** *** The key schedule of RFC 9420 (section 8) *)

(** The secrets derived from the epoch secret, with their labels (table 4). *)
Definition epoch_labels : list (bytes * (KeyScheduleDerivationResult -> bytes)) := [
  (bstr "sender data", fun r => sender_data_secret (epoch_secrets r));
  (bstr "exporter", fun r => exporter_secret (kd_key_schedule r));
  (bstr "external", fun r => external_secret (kd_key_schedule r));
  (bstr "confirm", confirmation_key);
  (bstr "membership", fun r => membership_key (kd_key_schedule r));
  (bstr "resumption", fun r => resumption_secret (epoch_secrets r));
  (bstr "authentication", fun r => authentication_secret (kd_key_schedule r));
  (bstr "init", fun r => init_secret (kd_key_schedule r))].

(** [r] is the epoch of the joiner secret [joiner], the pre-shared keys [psk]
    and the encoded group context [context], for a tree of [size] leaves. *)
Definition epoch_of (joiner psk context : bytes) (size : Z) (r : KeyScheduleDerivationResult) : Prop :=
  exists member epoch encryption, kdf_extract joiner psk = Ok member /\
    kdf_expand_with_label member (bstr "epoch") context None = Ok epoch /\
    Forall (fun '(label, secret) => kdf_derive_secret epoch label = Ok (secret r)) epoch_labels /\
    kdf_derive_secret epoch (bstr "encryption") = Ok encryption /\
    secret_tree (epoch_secrets r) = secret_tree_new 32 size encryption.

(** The key and nonce that seal the group info for the joiners of the epoch. *)
Definition welcome_of (joiner psk : bytes) (w : WelcomeSecret) : Prop :=
  exists member welcome, kdf_extract joiner psk = Ok member /\ kdf_derive_secret member (bstr "welcome") = Ok welcome /\
    kdf_expand_with_label welcome (bstr "key") [] (Some aead_key_size) = Ok (ws_key w) /\
    kdf_expand_with_label welcome (bstr "nonce") [] (Some aead_nonce_size) = Ok (ws_nonce w).

Lemma from_epoch_secret_spec s size r : from_epoch_secret s size = Ok r ->
  Forall (fun '(label, secret) => kdf_derive_secret s label = Ok (secret r)) epoch_labels /\
  exists e, kdf_derive_secret s (bstr "encryption") = Ok e /\ secret_tree (epoch_secrets r) = secret_tree_new 32 size e.
Proof using Type.
  unfold from_epoch_secret, derive. intros Hr. do 9 apply bind_Ok in Hr as (? & ? & Hr). injection Hr as <-.
  split; [by repeat constructor|by eexists].
Qed.

Lemma from_joiner_spec j ctx c size psk r : mls_encode_to_vec group_context_codec ctx = Ok c ->
  from_joiner j ctx size psk = Ok r -> epoch_of j psk c size r.
Proof using Type.
  intros Hc Hr. unfold from_joiner, get_pre_epoch_secret in Hr. apply bind_Ok in Hr as (m & Hm%map_err_Ok & Hr).
  rewrite Hc in Hr. apply bind_Ok in Hr as (c' & [= <-] & Hr). apply bind_Ok in Hr as (e & He & Hr).
  apply from_epoch_secret_spec in Hr as (Hl & x & Hx & Ht). by exists m, e, x.
Qed.

Lemma from_key_schedule_spec k cs ctx c size psk r : mls_encode_to_vec group_context_codec ctx = Ok c ->
  from_key_schedule k cs ctx size psk = Ok r ->
  (exists seed, kdf_extract (init_secret k) cs = Ok seed /\
     kdf_expand_with_label seed (bstr "joiner") c None = Ok (kd_joiner_secret r)) /\
  epoch_of (kd_joiner_secret r) psk c size r /\
  exists r', from_joiner (kd_joiner_secret r) ctx size psk = Ok r' /\ kd_key_schedule r' = kd_key_schedule r /\
    confirmation_key r' = confirmation_key r /\ epoch_secrets r' = epoch_secrets r.
Proof using Type.
  intros Hc Hr. unfold from_key_schedule in Hr. apply bind_Ok in Hr as (seed & Hs%map_err_Ok & Hr).
  rewrite Hc in Hr. apply bind_Ok in Hr as (c' & [= <-] & Hr). apply bind_Ok in Hr as (j & Hj & Hr).
  apply bind_Ok in Hr as (r' & Hr' & [= <-]). cbn [kd_joiner_secret].
  split; [by exists seed|]. split; [|by exists r']. destruct (from_joiner_spec _ _ _ _ _ _ Hc Hr') as (m & e & x & Hm & He & Hl & Hx & Ht).
  exists m, e, x. do 2 (split; [done|]). split; [|done]. unfold epoch_labels in *. rewrite !Forall_cons in Hl. by repeat constructor; apply Hl.
Qed.

Lemma welcome_spec j psk : psk <> [] -> exists w, welcome_from_joiner_secret j psk = Ok w /\ welcome_of j psk w.
Proof using Type*.
  intros Hp. destruct aead_sizes as [Hk Hn]. unfold welcome_from_joiner_secret, get_welcome_secret, get_pre_epoch_secret.
  destruct (kdf_extract_ok j psk Hp) as (m & Em & Hm & _). rewrite Em. res_step.
  destruct (derive_total m (bstr "welcome") Hm) as (w & Ew & Hw & _); [by vm_compute|]. unfold derive in Ew. rewrite Ew. res_step.
  destruct (kdf_expand_with_label_total w (bstr "key") [] (Some aead_key_size) Hw) as (x & Ex & _); [by vm_compute..|done|].
  destruct (kdf_expand_with_label_total w (bstr "nonce") [] (Some aead_nonce_size) Hw) as (y & Ey & _); [by vm_compute..|done|].
  rewrite Ex. res_step. rewrite Ey. res_step. eexists. split; [done|]. by exists m, w.
Qed.
End derivation_laws.

(** ** Transcripts *)

Lemma wire_format_eq_dec_content (a a' : AuthenticatedContent) :
  wire_format a = wire_format a' -> ac_content a = ac_content a' ->
  ad_signature (ac_auth a) = ad_signature (ac_auth a') -> confirmation_tag (ac_auth a) = confirmation_tag (ac_auth a') ->
  a = a'.
Proof. destruct a as [w c [s t]], a' as [w' c' [s' t']]. simpl. by intros -> -> -> ->. Qed.

(** A commit as it enters the transcript. *)
Definition transcript_wf (a : AuthenticatedContent) : Prop :=
  signed_content_wf a /\ bytes_ok (ad_signature (ac_auth a)) /\ option_wf bytes_ok (confirmation_tag (ac_auth a)).

(** What the confirmed transcript hash covers of a commit. *)
Lemma confirmed_input_inj a a' b : transcript_wf a -> transcript_wf a' ->
  confirmed_input_encode a = Ok b -> confirmed_input_encode a' = Ok b ->
  wire_format a = wire_format a' /\ ac_content a = ac_content a' /\
  ad_signature (ac_auth a) = ad_signature (ac_auth a').
Proof.
  intros ([Hc Hs] & Hg & _) ([Hc' Hs'] & Hg' & _). unfold confirmed_input_encode.
  intros (w1 & H1 & (w2 & H2 & H3)%bind_Ok)%bind_Ok (w1' & H1' & (w2' & H2' & H3')%bind_Ok)%bind_Ok.
  rewrite (agree_enc _ _ _ framed_content_codec_agree) in H2 by done.
  rewrite (agree_enc _ _ _ framed_content_codec_agree) in H2' by done.
  apply (encode_app _ framed_content_wf) in H2 as (bc & H2 & ->).
  apply (encode_app _ framed_content_wf) in H2' as (bc' & H2' & ->).
  apply (encode_app byte_vec_codec bytes_ok) in H3 as (bs & H3 & ->).
  apply (encode_app byte_vec_codec bytes_ok) in H3' as (bs' & H3' & Heq).
  rewrite <- !app_assoc in Heq.
  assert (bytes_ok bc /\ bytes_ok bc' /\ bytes_ok bs /\ bytes_ok bs') as (K1 & K2 & K3 & K4)
    by (split_and!; [by apply (encode_bytes_ok _ framed_content_wf (ac_content a))|
        by apply (encode_bytes_ok _ framed_content_wf (ac_content a'))|
        by apply (encode_bytes_ok byte_vec_codec bytes_ok (ad_signature (ac_auth a)))|
        by apply (encode_bytes_ok byte_vec_codec bytes_ok (ad_signature (ac_auth a')))]).
  eapply (encode_inj wire_format_codec (fun _ => True) (wire_format a) (wire_format a') w1 w1') in Heq as [Ew Heq];
    [|done|done|by apply Forall_app|by apply Forall_app|done|done].
  eapply (encode_inj _ framed_content_wf (ac_content a) (ac_content a') bc bc') in Heq as [Ec Heq]; [|done..].
  split_and!; [done|done|].
  by destruct (encode_inj byte_vec_codec bytes_ok (ad_signature (ac_auth a)) (ad_signature (ac_auth a')) bs bs' [] [])
    as [? _]; rewrite ?app_nil_r.
Qed.

Section transcript.
Context `{CipherSuiteProvider}.

(** An input of each of two computations, different, with one hash. *)
Definition collision (l l' : list bytes) : Prop :=
  exists d d' o, d ∈ l /\ d' ∈ l' /\ d <> d' /\ hash d = Ok o /\ hash d' = Ok o.

Lemma collision_mono l k l' k' : l ⊆ k -> l' ⊆ k' -> collision l l' -> collision k k'.
Proof using Type*. intros Hl Hl' (d & d' & o & Hd & Hd' & Heq). exists d, d', o. by auto. Qed.

Lemma hash_eq_cases d d' o l l' : hash d = Ok o -> hash d' = Ok o -> d ∈ l -> d' ∈ l' -> d = d' \/ collision l l'.
Proof using Type*. intros E E' Hl Hl'. destruct (decide (d = d')); [by left|right; by exists d, d', o]. Qed.

(** The interim transcript hash after a list of commits. *)
Fixpoint transcript_run (interim : bytes) (l : list AuthenticatedContent) : mres bytes :=
  match l with
  | [] => Ok interim
  | a :: l => '(interim, _) ← transcript_hashes interim a; transcript_run interim l
  end.

(** What the hash function is given on the way. *)
Definition step_inputs (h : bytes) (a : AuthenticatedContent) : mres (list bytes) :=
  x ← from_codec (confirmed_input_encode a);
  c ← confirmed_transcript_create h a;
  t ← ok_or InvalidConfirmationTag (confirmation_tag (ac_auth a));
  y ← from_codec (mls_encode_to_vec byte_vec_codec t);
  Ok [h ++ x; c ++ y].

Fixpoint transcript_inputs (interim : bytes) (l : list AuthenticatedContent) : list bytes :=
  match l with
  | [] => []
  | a :: l =>
      default [] (res_ok (step_inputs interim a)) ++
      match transcript_hashes interim a with Ok (interim, _) => transcript_inputs interim l | _ => [] end
  end.

Lemma transcript_inputs_snoc h l a h' : transcript_run h l = Ok h' ->
  transcript_inputs h (l ++ [a]) = transcript_inputs h l ++ default [] (res_ok (step_inputs h' a)).
Proof using Type*.
  revert h. induction l as [|b l IH]; intros h; simpl.
  - intros [= ->]. destruct (transcript_hashes h' a) as [[]| |]; by rewrite app_nil_r.
  - destruct (transcript_hashes h b) as [[i c]| |]; [|done..]. simpl. intros Hr. by rewrite (IH i Hr), app_assoc.
Qed.

Lemma transcript_run_snoc h l a : transcript_run h (l ++ [a]) =
  (h' ← transcript_run h l; fst <$> transcript_hashes h' a).
Proof using Type*.
  revert h. induction l as [|b l IH]; intros h; simpl.
  - by destruct (transcript_hashes h a) as [[]| |].
  - destruct (transcript_hashes h b) as [[]| |]; [apply IH|done..].
Qed.

Lemma transcript_hashes_Ok h a i c : transcript_hashes h a = Ok (i, c) ->
  exists x t y, confirmed_input_encode a = Ok x /\ hash (h ++ x) = Ok c /\ confirmation_tag (ac_auth a) = Some t /\
    mls_encode_to_vec byte_vec_codec t = Ok y /\ hash (c ++ y) = Ok i /\
    step_inputs h a = Ok [h ++ x; c ++ y].
Proof using Type*.
  unfold transcript_hashes, confirmed_transcript_create, interim_transcript_create.
  intros (c' & (x & Hx & Hc)%bind_Ok & (t & Ht & (i' & (y & Hy & Hi)%bind_Ok & [= <- <-])%bind_Ok)%bind_Ok)%bind_Ok.
  apply map_err_Ok in Hx, Hc. apply map_err_Ok in Hy, Hi. apply ok_or_Ok in Ht. exists x, t, y. split_and!; try done.
  unfold step_inputs, confirmed_transcript_create. rewrite Hx. do 2 res_step.
  rewrite Hc. do 2 res_step. rewrite Ht. cbn [ok_or mbind res_bind]. by rewrite Hy.
Qed.

Lemma transcript_step `{!HashSizeLaws} h h' a a' i c c' :
  transcript_wf a -> transcript_wf a' -> zlen h = zlen h' ->
  transcript_hashes h a = Ok (i, c) -> transcript_hashes h' a' = Ok (i, c') ->
  (h = h' /\ a = a') \/ collision (default [] (res_ok (step_inputs h a))) (default [] (res_ok (step_inputs h' a'))).
Proof using Type*.
  intros Ha Ha' Hh E E'.
  apply transcript_hashes_Ok in E as (x & t & y & Hx & Hc & Ht & Hy & Hi & ->).
  apply transcript_hashes_Ok in E' as (x' & t' & y' & Hx' & Hc' & Ht' & Hy' & Hi' & ->).
  simpl.
  destruct (hash_eq_cases _ _ _ [h ++ x; c ++ y] [h' ++ x'; c' ++ y'] Hi Hi') as [Ei|]; [set_solver..| |by right].
  apply app_inj_1 in Ei as [-> ->]; [|pose proof (hash_size _ _ _ _ Hc Hc'); unfold zlen in *; lia].
  destruct (hash_eq_cases _ _ _ [h ++ x; c' ++ y'] [h' ++ x'; c' ++ y'] Hc Hc') as [Ec|]; [set_solver..| |by right].
  apply app_inj_1 in Ec as [-> ->]; [|unfold zlen in *; lia].
  left. split; [done|]. destruct (confirmed_input_inj a a' x' Ha Ha' Hx Hx') as (Hw & Hf & Hs).
  apply wire_format_eq_dec_content; try done. rewrite Ht, Ht'. f_equal.
  destruct Ha as (_ & _ & Hta), Ha' as (_ & _ & Hta'). rewrite Ht in Hta. rewrite Ht' in Hta'.
  by destruct (encode_inj byte_vec_codec bytes_ok t t' y' y' [] []).
Qed.

(** Two runs of one length, from hashes of one size. *)
Lemma transcript_run_size `{!HashSizeLaws} h0 h0' l l' h h' : zlen h0 = zlen h0' -> length l = length l' ->
  transcript_run h0 l = Ok h -> transcript_run h0' l' = Ok h' -> zlen h = zlen h'.
Proof using Type*.
  intros Hz Hlen E E'. destruct l as [|b l _] using rev_ind; destruct l' as [|b' l' _] using rev_ind;
    rewrite ?length_app in Hlen; simpl in Hlen; try lia.
  - simpl in E, E'. congruence.
  - rewrite transcript_run_snoc in E, E'.
    apply bind_Ok in E as (? & _ & ([i1 c1] & F1 & ->)%fmap_Ok).
    apply bind_Ok in E' as (? & _ & ([i2 c2] & F2 & ->)%fmap_Ok).
    apply transcript_hashes_Ok in F1 as (? & ? & ? & _ & _ & _ & _ & F1 & _).
    apply transcript_hashes_Ok in F2 as (? & ? & ? & _ & _ & _ & _ & F2 & _). simpl. by eapply hash_size.
Qed.

Lemma transcript_run_inj `{!HashSizeLaws} h0 h0' l l' h : zlen h0 = zlen h0' ->
  Forall transcript_wf l -> Forall transcript_wf l' -> length l = length l' ->
  transcript_run h0 l = Ok h -> transcript_run h0' l' = Ok h ->
  (h0 = h0' /\ l = l') \/ collision (transcript_inputs h0 l) (transcript_inputs h0' l').
Proof using Type*.
  intros Hz0. revert l' h. induction l as [|a l IH] using rev_ind; intros l' h Hl Hl' Hlen E E'.
  { destruct l'; [|done]. simpl in E, E'. left. split; congruence. }
  destruct l' as [|a' l' _] using rev_ind; [rewrite length_app in Hlen; simpl in Hlen; lia|].
  rewrite !length_app in Hlen. simpl in Hlen.
  apply Forall_app in Hl as [Hl [Ha _]%Forall_cons_1]. apply Forall_app in Hl' as [Hl' [Ha' _]%Forall_cons_1].
  rewrite transcript_run_snoc in E, E'.
  apply bind_Ok in E as (h1 & E1 & ([i c] & E2 & ->)%fmap_Ok).
  apply bind_Ok in E' as (h1' & E1' & ([i' c'] & E2' & Ei)%fmap_Ok). simpl in Ei. subst i'.
  assert (zlen h1 = zlen h1') as Hz by (eapply (transcript_run_size h0 h0' l l'); [done|lia|done|done]).
  rewrite (transcript_inputs_snoc _ _ a _ E1), (transcript_inputs_snoc _ _ a' _ E1').
  destruct (transcript_step _ _ _ _ _ _ _ Ha Ha' Hz E2 E2') as [[-> ->]|Hcol];
    [|right; eapply collision_mono; [..|done]; set_solver].
  destruct (IH l' h1' Hl Hl' ltac:(lia) E1 E1') as [[-> ->]|Hcol]; [by left|].
  right. eapply collision_mono; [..|done]; set_solver.
Qed.
End transcript.

(** ** Theorems *)

(** C17: the key schedule is that of RFC 9420, section 8.  Deriving the next
    epoch from the previous key schedule, the secret of a commit and the
    pre-shared keys succeeds when neither secret is empty.  The joiner secret is
    expanded, with the label [joiner] and the encoded group context, from the
    commit secret extracted under the init secret; every other secret is derived
    from the joiner secret and the pre-shared keys by the steps and labels of
    the standard ([epoch_of], [epoch_labels]), and has the size of the KDF.  A
    joiner who starts from the joiner secret, with the same context and
    pre-shared keys, gets the same epoch, and the key and nonce of the welcome
    message are the standard's ([welcome_of]).  The key schedule exports secrets
    of any length the KDF can make, as the standard defines them, until the
    exporter is deleted, and then reports that it is. *)
Theorem epoch_agreement `{KdfLaws} `{!HashLaws} (k : KeySchedule) (commit_secret psk : bytes) (ctx : GroupContext)
    (c : bytes) (size : Z) (label context : bytes) (len : Z)
    (Hc : mls_encode_to_vec group_context_codec ctx = Ok c) (Hl : zlen c <= varint_max)
    (Hcommit : commit_secret <> []) (Hpsk : psk <> [])
    (Hlabel : zlen label <= 1000) (Hlen : 0 <= len <= 255 * kdf_extract_size) :
  exists r, from_key_schedule k commit_secret ctx size psk = Ok r /\
    (exists seed, kdf_extract (init_secret k) commit_secret = Ok seed /\
       kdf_expand_with_label seed (bstr "joiner") c None = Ok (kd_joiner_secret r)) /\
    epoch_of (kd_joiner_secret r) psk c size r /\ derivation_ok size r /\
    (exists r', from_joiner (kd_joiner_secret r) ctx size psk = Ok r' /\
       kd_key_schedule r' = kd_key_schedule r /\ confirmation_key r' = confirmation_key r /\
       epoch_secrets r' = epoch_secrets r) /\
    (exists w, welcome_from_joiner_secret (kd_joiner_secret r) psk = Ok w /\ welcome_of (kd_joiner_secret r) psk w) /\
    (exists s h x, kdf_derive_secret (exporter_secret (kd_key_schedule r)) label = Ok s /\ hash context = Ok h /\
       kdf_expand_with_label s (bstr "exported") h (Some len) = Ok x /\
       export_secret (kd_key_schedule r) label context len = Ok x /\ zlen x = len) /\
    export_secret (delete_exporter (kd_key_schedule r)) label context len = Err ExporterDeleted.
Proof.
  destruct (from_key_schedule_total k commit_secret ctx c size psk Hcommit Hpsk Hc Hl) as (r & E & Hok & _).
  destruct (from_key_schedule_spec k commit_secret ctx c size psk r Hc E) as (Hj & He & Hr).
  exists r. split_and!; try done.
  - by apply welcome_spec.
  - apply export_secret_total; [|done..]. apply (ok_exporter _ _ Hok).
Qed.

Lemma epoch_agreement_witness :
  exists r r', from_key_schedule (H := Toy.provider) (key_schedule_new [1; 2; 3; 4]) [5; 6; 7; 8] sample_context 4 [0; 0; 0; 0] = Ok r /\
    from_joiner (H := Toy.provider) (kd_joiner_secret r) sample_context 4 [0; 0; 0; 0] = Ok r' /\
    kd_key_schedule r' = kd_key_schedule r.
Proof.
  destruct (epoch_agreement (H := Toy.provider) (H0 := Toy.kdf_laws) (H1 := Toy.hash_laws)
    (key_schedule_new [1; 2; 3; 4]) [5; 6; 7; 8] [0; 0; 0; 0] sample_context
    [0; 1; 0; 1; 2; 1; 2; 0; 0; 0; 0; 0; 0; 0; 7; 1; 3; 1; 4; 0] 4 [1] [2] 16) as (r & E & _ & _ & _ & (r' & E' & Hk & _) & _).
  - reflexivity.
  - vm_compute. discriminate.
  - discriminate.
  - discriminate.
  - vm_compute. discriminate.
  - split; vm_compute; discriminate.
  - by exists r, r'.
Defined.

(** External commits.  The init secret that a newcomer seals to the
    external key of a group is the one the members open: whatever is derived
    from it -- the epoch of the external commit -- is the same on both sides. *)
Theorem external_init_agreement `{HpkeExportLaws} (k : KeySchedule) (coins : Coins) (external_pub kem_output : bytes)
    (init : InitSecret)
    (Hp : get_external_key_pair_ext k = Ok external_pub)
    (He : encode_for_external coins external_pub = Ok (init, kem_output)) :
  derive_for_external k kem_output = Ok (key_schedule_new init) /\
  forall commit_secret ctx size psk k', derive_for_external k kem_output = Ok k' ->
    from_key_schedule k' commit_secret ctx size psk =
    from_key_schedule (key_schedule_new init) commit_secret ctx size psk.
Proof.
  assert (derive_for_external k kem_output = Ok (key_schedule_new init)) as E.
  { unfold get_external_key_pair_ext in Hp. apply bind_Ok in Hp as ([sk pk] & Hk & [= ->]).
    unfold derive_for_external. rewrite Hk. res_step.
    unfold get_external_key_pair in Hk. apply map_err_Ok in Hk.
    unfold encode_for_external in He.
    apply bind_Ok in He as ([kem cs] & Hset & (i & Hi & [= -> ->])%bind_Ok).
    apply map_err_Ok in Hset. apply map_err_Ok in Hi.
    destruct (hpke_export coins sk external_pub [] kem_output cs) as (cr & Er & Hx);
      [by left; eexists|done|].
    unfold decode_for_external. rewrite Er. res_step. by rewrite Hx, Hi. }
  split; [done|]. intros cs ctx size psk k' E'. rewrite E in E'. by injection E' as <-.
Qed.

Lemma external_init_agreement_witness :
  exists init kem, encode_for_external (H := Toy.provider) 3%nat (Toy.expand [1; 2] [] 4) = Ok (init, kem) /\
    derive_for_external (H := Toy.provider) (mk_key_schedule [] [] [1; 2] [] []) kem = Ok (key_schedule_new init).
Proof.
  destruct (encode_for_external (H := Toy.provider) 3%nat (Toy.expand [1; 2] [] 4)) as [[init kem]| |] eqn:E;
    [|by vm_compute in E..].
  exists init, kem. split; [done|].
  by apply (external_init_agreement (H := Toy.provider) (H0 := toy_export_laws) (mk_key_schedule [] [] [1; 2] [] [])
    3%nat (Toy.expand [1; 2] [] 4) kem init).
Defined.

(** C23: agreement on a transcript hash is agreement on the history.  Two
    members start from interim transcript hashes of one size, process as many
    commits each, and end with one interim transcript hash.  Then they started
    from one hash and have processed the same commits -- contents, signatures and
    confirmation tags -- or two different inputs that they gave to the hash
    function on the way have the same hash. *)
Theorem transcript_binding `{HashSizeLaws} (h0 h0' h : bytes) (l l' : list AuthenticatedContent)
    (Hz : zlen h0 = zlen h0') (Hl : Forall transcript_wf l) (Hl' : Forall transcript_wf l') (Hlen : length l = length l')
    (E : transcript_run h0 l = Ok h) (E' : transcript_run h0' l' = Ok h) :
  (h0 = h0' /\ l = l') \/ exists d d' o, d ∈ transcript_inputs h0 l /\ d' ∈ transcript_inputs h0' l' /\
    d <> d' /\ hash d = Ok o /\ hash d' = Ok o.
Proof. by apply (transcript_run_inj h0 h0' l l' h). Qed.

Definition sample_commit : AuthenticatedContent := mk_auth_content WfPublicMessage sample_framed (mk_auth_data [5] (Some [6])).

(** Two commits with other signatures; the toy hash, which adds up its input,
    gives one transcript for them, and the theorem a collision. *)
Definition one_commit : AuthenticatedContent := mk_auth_content WfPublicMessage sample_framed (mk_auth_data [1; 2] (Some [6])).
Definition other_commit : AuthenticatedContent := mk_auth_content WfPublicMessage sample_framed (mk_auth_data [2; 1] (Some [6])).

Lemma transcript_binding_witness :
  exists h, transcript_run (H := Toy.provider) [] [one_commit; sample_commit] = Ok h /\
    transcript_run (H := Toy.provider) [] [other_commit; sample_commit] = Ok h /\
    collision (H := Toy.provider) (transcript_inputs (H := Toy.provider) [] [one_commit; sample_commit])
      (transcript_inputs (H := Toy.provider) [] [other_commit; sample_commit]).
Proof.
  assert (transcript_run (H := Toy.provider) [] [other_commit; sample_commit] =
    transcript_run (H := Toy.provider) [] [one_commit; sample_commit]) as E' by (vm_compute; reflexivity).
  destruct (transcript_run (H := Toy.provider) [] [one_commit; sample_commit]) as [h| |] eqn:E; [|by vm_compute in E..].
  exists h. split; [reflexivity|]. split; [exact E'|].
  assert (transcript_wf one_commit /\ transcript_wf other_commit /\ transcript_wf sample_commit) as (W1 & W2 & W3)
    by (split_and!; repeat first [done|split|constructor]).
  destruct (transcript_binding (H := Toy.provider) (H0 := toy_hash_size) [] [] h [one_commit; sample_commit]
    [other_commit; sample_commit] eq_refl) as [[_ Heq]|Hcol]; [| |reflexivity|exact E|exact E'| |exact Hcol].
  - exact (Forall_cons_2 _ _ _ W1 (Forall_cons_2 _ _ _ W3 (Forall_nil_2 _))).
  - exact (Forall_cons_2 _ _ _ W2 (Forall_cons_2 _ _ _ W3 (Forall_nil_2 _))).
  - exfalso. injection Heq. discriminate.
Defined.
