(* ===== verification/MessageProtection.v ===== *)
(** * Protection of messages

    Private messages (mls-rs/src/group/ciphertext_processor.rs with its modules
    reuse_guard.rs, message_key.rs and sender_data_key.rs, and padding.rs), and
    the authentication of public messages (message_verifier.rs).

    A state from which messages are sealed and opened -- the current epoch of a
    group or a prior one -- is a type with a [GroupStateProvider] instance. *)

From S2P Require Import Prelude Codec Crypto TreeMath SecretTree Data NodeVec TreeIndex TreeHash Proposals TreeKem LeafNodes Kem Framing KeySchedule.

#[local] Set Default Goal Selector "!".
Local Open Scope Z_scope.

(** ** Padding *)

Inductive PaddingMode := StepFunction | Padme | NoPadding.

Definition padded_size (m : PaddingMode) (content_size : Z) : Z :=
  match m with
  | StepFunction =>
      let blind := ushl 64 1 (trailing_zeros 64 (Z.max (next_power_of_two (wrap 64 (content_size + 1))) 256) - 3) in
      wrap 64 (Z.lor content_size (blind - 1) + 1)
  | Padme =>
      if content_size <? 2 then content_size
      else
        let e := Z.log2 content_size in
        let s := Z.log2 e + 1 in
        let num_zero_bits := e - s in
        let bitmask := ushl 64 1 num_zero_bits - 1 in
        Z.land (wrap 64 (content_size + bitmask)) (unot 64 bitmask)
  | NoPadding => content_size
  end.

(** [Vec::resize]. *)
Definition vec_resize {A} (n : Z) (x : A) (l : list A) : list A :=
  take (Z.to_nat n) l ++ replicate (Z.to_nat (n - zlen l)) x.

(** ** Reuse guards and sender data *)

Definition REUSE_GUARD_SIZE : Z := 4.

Notation ReuseGuard := bytes (only parsing).

(** [ReuseGuard::apply]: the first bytes of the nonce are xored. *)
Fixpoint reuse_guard_apply (guard nonce : bytes) : bytes :=
  match guard, nonce with
  | g :: guard, n :: nonce => Z.lxor n g :: reuse_guard_apply guard nonce
  | _, _ => nonce
  end.

Record SenderData := mk_sender_data { sd_sender : Z; sd_generation : Z; reuse_guard : ReuseGuard }.

Definition sender_data_codec : codec SenderData :=
  struct_codec (fun s => (sd_sender s, (sd_generation s, reuse_guard s))) (fun '(s, (g, r)) => mk_sender_data s g r)
    (pair_codec leaf_index_codec (pair_codec u32_codec (array_codec 4))).

Record SenderDataAAD := mk_sender_data_aad { sda_group_id : bytes; sda_epoch : Z; sda_content_type : ContentType }.

Definition sender_data_aad_codec : codec SenderDataAAD :=
  struct_codec (fun a => (sda_group_id a, (sda_epoch a, sda_content_type a))) (fun '(g, (e, t)) => mk_sender_data_aad g e t)
    (pair_codec byte_vec_codec (pair_codec u64_codec content_type_codec)).

Record SenderDataKey := mk_sender_data_key { sdk_key : bytes; sdk_nonce : bytes }.

(** The states messages are protected with. *)
Class GroupStateProvider (GS : Type) := {
  gsp_group_context : GS -> GroupContext;
  gsp_self_index : GS -> Z;
  gsp_epoch_secrets : GS -> EpochSecrets;
  gsp_set_epoch_secrets : EpochSecrets -> GS -> GS;
}.

Class GroupStateProviderLaws (GS : Type) `{GroupStateProvider GS} : Prop := {
  gsp_context_set e g : gsp_group_context (gsp_set_epoch_secrets e g) = gsp_group_context g;
  gsp_index_set e g : gsp_self_index (gsp_set_epoch_secrets e g) = gsp_self_index g;
  gsp_secrets_set e g : gsp_epoch_secrets (gsp_set_epoch_secrets e g) = e;
}.

(** An epoch before the current one (epoch.rs). *)
Record PriorEpoch := mk_prior_epoch {
  pe_context : GroupContext;
  pe_self_index : Z;
  pe_secrets : EpochSecrets;
  pe_signature_public_keys : list (option SignaturePublicKey);
}.

Definition pe_set_secrets (e : EpochSecrets) (p : PriorEpoch) : PriorEpoch :=
  mk_prior_epoch (pe_context p) (pe_self_index p) e (pe_signature_public_keys p).

#[export] Instance prior_epoch_provider : GroupStateProvider PriorEpoch := {|
  gsp_group_context := pe_context;
  gsp_self_index := pe_self_index;
  gsp_epoch_secrets := pe_secrets;
  gsp_set_epoch_secrets := pe_set_secrets;
|}.

#[export] Instance prior_epoch_provider_laws : GroupStateProviderLaws PriorEpoch.
Proof. by split. Qed.

Section processor.
Context `{CipherSuiteProvider}.

(** [ReuseGuard::random]. *)
Definition reuse_guard_random (coins : Coins) : res AnyError ReuseGuard := random_bytes_vec coins REUSE_GUARD_SIZE.

Definition message_key_encrypt (k : MessageKeyData) (data aad : bytes) (guard : ReuseGuard) : res AnyError bytes :=
  aead_seal (mk_key k) data (Some aad) (reuse_guard_apply guard (mk_nonce k)).

Definition message_key_decrypt (k : MessageKeyData) (data aad : bytes) (guard : ReuseGuard) : res AnyError bytes :=
  aead_open (mk_key k) data (Some aad) (reuse_guard_apply guard (mk_nonce k)).

(** [SenderDataKey::new]: the sample is the whole ciphertext when it is short. *)
Definition sender_data_key_new (sender_data_secret ciphertext : bytes) : mres SenderDataKey :=
  let extract_size := kdf_extract_size in
  let sample := if extract_size <=? zlen ciphertext then take (Z.to_nat extract_size) ciphertext else ciphertext in
  key ← kdf_expand_with_label sender_data_secret (bstr "key") sample (Some aead_key_size);
  nonce ← kdf_expand_with_label sender_data_secret (bstr "nonce") sample (Some aead_nonce_size);
  Ok (mk_sender_data_key key nonce).

Definition sender_data_seal (k : SenderDataKey) (sender_data : SenderData) (aad : SenderDataAAD) : mres bytes :=
  data ← from_codec (mls_encode_to_vec sender_data_codec sender_data);
  aad ← from_codec (mls_encode_to_vec sender_data_aad_codec aad);
  from_crypto (aead_seal (sdk_key k) data (Some aad) (sdk_nonce k)).

Definition sender_data_open (k : SenderDataKey) (sender_data : bytes) (aad : SenderDataAAD) : mres SenderData :=
  aad ← from_codec (mls_encode_to_vec sender_data_aad_codec aad);
  data ← from_crypto (aead_open (sdk_key k) sender_data (Some aad) (sdk_nonce k));
  fst <$> from_codec (mls_decode sender_data_codec data).

(** ** The processor *)

Context {GS : Type} `{!GroupStateProvider GS}.

Definition set_secret_tree (t : SecretTree) (e : EpochSecrets) : EpochSecrets :=
  mk_epoch_secrets (resumption_secret e) (sender_data_secret e) t.

(** Run a method of the secret tree of the state. *)
Definition zoom_secret_tree {A} : SM SecretTree MlsError A -> SM GS MlsError A :=
  sm_zoom (fun g => secret_tree (gsp_epoch_secrets g))
    (fun t g => gsp_set_epoch_secrets (set_secret_tree t (gsp_epoch_secrets g)) g).

(** [NodeIndex::from] of a leaf index. *)
Definition next_encryption_key (key_type : KeyType) : SM GS MlsError MessageKeyData :=
  g ← sm_get;
  zoom_secret_tree (next_message_key 32 (2 * gsp_self_index g) key_type).

Definition decryption_key (sender : Z) (key_type : KeyType) (generation : Z) : SM GS MlsError MessageKeyData :=
  zoom_secret_tree (message_key_generation 32 (2 * sender) key_type generation).

Definition key_type_of (t : ContentType) : KeyType :=
  match t with CtApplication => Application | _ => Handshake end.

(** [CiphertextProcessor::seal]; [coins] is what the reuse guard draws. *)
Definition seal (coins : Coins) (auth_content : AuthenticatedContent) (padding : PaddingMode) :
    SM GS MlsError PrivateMessage :=
  g ← sm_get;
  if negb (bool_decide (SenderMember (gsp_self_index g) = fc_sender (ac_content auth_content)))
  then sm_lift (Err InvalidSender)
  else
    let content := ac_content auth_content in
    let ct := content_type (fc_content content) in
    let private_content := mk_private_content (fc_content content) (ac_auth auth_content) in
    let aad := mk_private_aad (fc_group_id content) (fc_epoch content) ct (authenticated_data content) in
    guard ← sm_lift (from_crypto (reuse_guard_random coins));
    serialized ← sm_lift (from_codec (private_content_encode private_content []));
    let serialized := vec_resize (padded_size padding (zlen serialized)) 0 serialized in
    key_data ← next_encryption_key (key_type_of ct);
    aad ← sm_lift (from_codec (mls_encode_to_vec private_aad_codec aad));
    ciphertext ← sm_lift (from_crypto (message_key_encrypt key_data serialized aad guard));
    let sender_data := mk_sender_data (gsp_self_index g) (mk_generation key_data) guard in
    let gc := gsp_group_context g in
    let sender_data_aad := mk_sender_data_aad (group_id gc) (epoch gc) ct in
    sender_data_key ← sm_lift (sender_data_key_new (sender_data_secret (gsp_epoch_secrets g)) ciphertext);
    encrypted ← sm_lift (sender_data_seal sender_data_key sender_data sender_data_aad);
    mret (mk_private_message (group_id gc) (epoch gc) ct (authenticated_data content) encrypted ciphertext).

(** [CiphertextProcessor::open]. *)
Definition open (ciphertext : PrivateMessage) : SM GS MlsError AuthenticatedContent :=
  g ← sm_get;
  let gc := gsp_group_context g in
  let sender_data_aad := mk_sender_data_aad (group_id gc) (epoch gc) (prm_content_type ciphertext) in
  sender_data_key ← sm_lift (sender_data_key_new (sender_data_secret (gsp_epoch_secrets g)) (prm_ciphertext ciphertext));
  sender_data ← sm_lift (sender_data_open sender_data_key (encrypted_sender_data ciphertext) sender_data_aad);
  if gsp_self_index g =? sd_sender sender_data then sm_lift (Err CantProcessMessageFromSelf)
  else
    key ← decryption_key (sd_sender sender_data) (key_type_of (prm_content_type ciphertext)) (sd_generation sender_data);
    aad ← sm_lift (from_codec (mls_encode_to_vec private_aad_codec (private_aad_from ciphertext)));
    decrypted ← sm_lift (from_crypto (message_key_decrypt key (prm_ciphertext ciphertext) aad (reuse_guard sender_data)));
    content ← sm_lift (from_codec (private_content_decode decrypted (prm_content_type ciphertext)));
    mret (mk_auth_content WfPrivateMessage
      (mk_framed_content (prm_group_id ciphertext) (prm_epoch ciphertext) (SenderMember (sd_sender sender_data))
        (prm_authenticated_data ciphertext) (pmc_content content))
      (pmc_auth content)).
End processor.

(** ** Authentication of public messages *)

Inductive SignaturePublicKeysContainer :=
| RatchetTree (t : TreeKemPublic)
| KeyList (l : list (option SignaturePublicKey)).

Section verifier.
Context `{CipherSuiteProvider}.

(** An extension that does not decode counts as absent. *)
Definition external_signers (context : GroupContext) : mres (list SigningIdentity) :=
  match ext_get_as EXT_EXTERNAL_SENDERS external_senders_codec (gc_extensions context) with
  | Ok (Some allowed_senders) => Ok allowed_senders
  | Ok None | Err _ => Ok []
  | Panic => Panic
  end.

Definition signing_identity_for_member (c : SignaturePublicKeysContainer) (leaf_index : Z) : mres SignaturePublicKey :=
  match c with
  | RatchetTree tree => (fun l => signature_key (signing_identity l)) <$> get_leaf_node tree leaf_index
  | KeyList list => ok_or (LeafNotFound leaf_index) (mjoin (zget list leaf_index))
  end.

Definition signing_identity_for_external (index : Z) (external_signers : list SigningIdentity) : mres SignaturePublicKey :=
  ok_or UnknownSigningIdentityForExternalSender (signature_key <$> zget external_signers index).

Definition signing_identity_for_new_member_commit (content : Content) : mres SignaturePublicKey :=
  match content with
  | ContentCommit commit =>
      match commit_path commit with
      | Some path => Ok (signature_key (signing_identity (path_leaf_node path)))
      | None => Err CommitMissingPath
      end
  | _ => Err ExpectedCommitForNewMemberCommit
  end.

Definition signing_identity_for_new_member_proposal (content : Content) : mres SignaturePublicKey :=
  match content with
  | ContentProposal (PAdd p) => Ok (signature_key (signing_identity (kp_leaf_node (key_package p))))
  | _ => Err ExpectedAddProposalForNewMemberProposal
  end.

Definition signing_identity_for_sender (c : SignaturePublicKeysContainer) (sender : Sender) (content : Content)
    (external_signers : list SigningIdentity) : mres SignaturePublicKey :=
  match sender with
  | SenderMember leaf_index =>
      leaf_index ← leaf_index_try_from leaf_index;
      signing_identity_for_member c leaf_index
  | SenderExternal external_key_index => signing_identity_for_external external_key_index external_signers
  | NewMemberCommit => signing_identity_for_new_member_commit content
  | NewMemberProposal => signing_identity_for_new_member_proposal content
  end.

Definition verify_auth_content_signature (c : SignaturePublicKeysContainer) (context : GroupContext)
    (auth_content : AuthenticatedContent) (external_signers : list SigningIdentity) : mres unit :=
  sender_public_key ← signing_identity_for_sender c (fc_sender (ac_content auth_content))
    (fc_content (ac_content auth_content)) external_signers;
  signable_verify sender_public_key (mk_signing_context (Some context) (protocol_version context)) auth_content.

Definition verify_plaintext_authentication (plaintext : PublicMessage) (membership_key : option bytes)
    (context : GroupContext) (c : SignaturePublicKeysContainer) : mres AuthenticatedContent :=
  let tag := membership_tag plaintext in
  let auth_content := from_public_message plaintext in
  external_signers ← external_signers context;
  _ ← match fc_sender (ac_content auth_content) with
      | SenderMember _ =>
          match membership_key with
          | Some membership_key =>
              expected_tag ← membership_tag_create auth_content context membership_key;
              plaintext_tag ← ok_or InvalidMembershipTag tag;
              if bool_decide (expected_tag = plaintext_tag) then Ok tt else Err InvalidMembershipTag
          | None => Ok tt
          end
      | _ => guard_or MembershipTagForNonMember (bool_decide (tag = None))
      end;
  _ ← verify_auth_content_signature c context auth_content external_signers;
  Ok auth_content.
End verifier.

(** ** Padding *)

Lemma lor_ones n k : 0 <= n -> 0 <= k -> Z.lor n (Z.ones k) = n / 2 ^ k * 2 ^ k + (2 ^ k - 1).
Proof.
  intros Hn Hk. pose proof (Z.pow_pos_nonneg 2 k ltac:(lia) Hk).
  rewrite <- lor_shiftl_add by lia. replace (2 ^ k - 1) with (Z.ones k) by (rewrite Z.ones_equiv; lia).
  apply Z.bits_inj'. intros i Hi. rewrite !Z.lor_spec, testbit_ones by lia.
  destruct (Z.leb_spec 0 i); [|lia]. cbn [andb]. destruct (Z.ltb_spec i k); [by rewrite !orb_true_r|].
  rewrite !orb_false_r, Z.shiftl_spec, Z.div_pow2_bits by lia. f_equal. lia.
Qed.

Lemma land_unot_ones x k : in_uint 64 x -> 0 <= k <= 64 -> Z.land x (unot 64 (Z.ones k)) = x / 2 ^ k * 2 ^ k.
Proof.
  intros Hx Hk. rewrite <- Z.shiftl_mul_pow2, <- Z.shiftr_div_pow2, <- Z.ldiff_ones_r by lia.
  apply Z.bits_inj'. intros i Hi. unfold unot. rewrite Z.land_spec, Z.ldiff_spec, Z.lxor_spec, !testbit_ones by lia.
  destruct (Z.leb_spec 0 i); [|lia]. simpl. destruct (Z.ltb_spec i 64).
  - by destruct (i <? k).
  - by rewrite (testbit_high 64) by (done || lia).
Qed.

(** The step function rounds up to the next multiple of a power of two that is
    at most a quarter of the size, or 32. *)
Lemma step_function_eq n : 0 <= n < 2 ^ 62 ->
  exists j, 5 <= j <= 60 /\ padded_size StepFunction n = (n / 2 ^ j + 1) * 2 ^ j /\ (j = 5 \/ 4 * 2 ^ j <= n) /\ n < 8 * 2 ^ j.
Proof.
  intros Hn. set (K := Z.max (Z.log2_up (n + 1)) 8).
  assert (Z.log2_up (n + 1) <= 62) as Hlog.
  { change (2 ^ 62) with 4611686018427387904 in Hn.
    pose proof (Z.log2_up_le_mono (n + 1) 4611686018427387904 ltac:(lia)) as H. by vm_compute in H. }
  exists (K - 3). split; [lia|].
  assert (Z.max (next_power_of_two (wrap 64 (n + 1))) 256 = 2 ^ K) as E.
  { rewrite wrap_small by (split; [lia|]; change (2 ^ 64) with 18446744073709551616; change (2 ^ 62) with 4611686018427387904 in Hn; lia).
    unfold next_power_of_two. pose proof (Z.log2_up_nonneg (n + 1)). change 256 with (2 ^ 8).
    destruct (Z.le_gt_cases (Z.log2_up (n + 1)) 8).
    - rewrite Z.max_r by (apply Z.pow_le_mono_r; lia). f_equal. lia.
    - rewrite Z.max_l by (apply Z.pow_le_mono_r; lia). f_equal. lia. }
  unfold padded_size. rewrite E, pos_trailing_zeros_pow, ushl_1 by lia.
  assert (2 ^ (K - 3) - 1 = Z.ones (K - 3)) as -> by (rewrite Z.ones_equiv; lia).
  rewrite lor_ones by lia.
  pose proof (Z.pow_pos_nonneg 2 (K - 3) ltac:(lia) ltac:(lia)).
  assert (2 ^ (K - 3) <= 2 ^ 59) by (apply Z.pow_le_mono_r; lia).
  pose proof (Z.mul_div_le n (2 ^ (K - 3)) ltac:(lia)).
  pose proof (Z.div_pos n (2 ^ (K - 3)) ltac:(lia) ltac:(lia)).
  change (2 ^ 59) with 576460752303423488 in *. change (2 ^ 62) with 4611686018427387904 in *.
  split.
  - rewrite wrap_small; [lia|]. split; [lia|]. change (2 ^ 64) with 18446744073709551616. lia.
  - split.
    2: { change 8 with (2 ^ 3). rewrite <- Z.pow_add_r by lia. replace (3 + (K - 3)) with K by lia.
      assert (2 ^ Z.log2_up (n + 1) <= 2 ^ K) by (apply Z.pow_le_mono_r; lia).
      pose proof (Z.log2_log2_up_spec (n + 1) ltac:(lia)). lia. }
    destruct (Z.le_gt_cases (Z.log2_up (n + 1)) 8); [left; lia|right].
    assert (1 < n + 1) as Hgt by (destruct (Z.le_gt_cases (n + 1) 1) as [Hle|]; [rewrite Z.log2_up_eqn0 in *; lia|done]).
    pose proof (Z.log2_up_spec (n + 1) Hgt) as [Hs _].
    replace (Z.pred (Z.log2_up (n + 1))) with (2 + (K - 3)) in Hs by lia.
    rewrite Z.pow_add_r in Hs by lia. lia.
Qed.

Lemma padme_eq n : 2 <= n < 2 ^ 62 ->
  let z := Z.log2 n - (Z.log2 (Z.log2 n) + 1) in
  0 <= z /\ padded_size Padme n = (n + (2 ^ z - 1)) / 2 ^ z * 2 ^ z.
Proof.
  intros Hn z.
  assert (1 <= Z.log2 n) as He by (change 1 with (Z.log2 2); apply Z.log2_le_mono; lia).
  assert (Z.log2 n < 62) as He' by (apply Z.log2_lt_pow2; lia).
  assert (Z.log2 (Z.log2 n) < Z.log2 n) as Hs by (apply Z.log2_lt_lin; lia).
  pose proof (Z.log2_nonneg (Z.log2 n)).
  assert (0 <= z < 62) as Hz by (unfold z; lia). split; [lia|].
  unfold padded_size. destruct (Z.ltb_spec n 2); [lia|]. fold z. rewrite ushl_1 by lia.
  assert (2 ^ z <= 2 ^ 62) by (apply Z.pow_le_mono_r; lia).
  pose proof (Z.pow_pos_nonneg 2 z ltac:(lia) ltac:(lia)).
  assert (in_uint 64 (n + (2 ^ z - 1))) as Hu.
  { split; [lia|]. change (2 ^ 64) with 18446744073709551616.
    change (2 ^ 62) with 4611686018427387904 in *. lia. }
  rewrite wrap_small by done. replace (unot 64 (2 ^ z - 1)) with (unot 64 (Z.ones z)) by (rewrite Z.ones_equiv; f_equal; lia).
  by rewrite land_unot_ones by (done || lia).
Qed.

Lemma padme_bounds n : 2 <= n < 2 ^ 62 ->
  n <= padded_size Padme n /\ 129 * (padded_size Padme n - n) <= 15 * n.
Proof.
  intros Hn. destruct (padme_eq n Hn) as [Hz ->].
  assert (1 <= Z.log2 n) as He by (change 1 with (Z.log2 2); apply Z.log2_le_mono; lia).
  pose proof (Z.log2_spec n ltac:(lia)) as [Hlo _].
  set (e := Z.log2 n) in *. set (z := e - (Z.log2 e + 1)) in *.
  pose proof (Z.pow_pos_nonneg 2 z ltac:(lia) ltac:(lia)) as Hp.
  assert (2 ^ e = 2 ^ (e - z) * 2 ^ z) as Hez
    by (pose proof (Z.log2_nonneg e); rewrite <- Z.pow_add_r by lia; f_equal; lia).
  set (P := 2 ^ z) in *.
  pose proof (Z.mul_div_le (n + (P - 1)) P ltac:(lia)).
  pose proof (Z.mul_succ_div_gt (n + (P - 1)) P ltac:(lia)).
  split; [lia|].
  (* a size that is not a multiple of [P] is more than [2 ^ e] *)
  assert ((n + (P - 1)) / P * P = n \/ 2 ^ e + 1 <= n) as [->|Hlt]; [|lia|].
  { destruct (decide (n = 2 ^ e)) as [Hne|]; [left|lia].
    rewrite Hne, Hez, Z.div_add_l, (Z.div_small (P - 1) P) by lia. lia. }
  destruct (Z.le_gt_cases 8 e) as [H8|H8].
  - assert (3 <= Z.log2 e) by (change 3 with (Z.log2 8); apply Z.log2_le_mono; lia).
    assert (16 <= 2 ^ (e - z)) by (change 16 with (2 ^ 4); apply Z.pow_le_mono_r; lia).
    assert (16 * P <= 2 ^ e) by (rewrite Hez; nia). lia.
  - assert (forall m, e = m -> P = 2 ^ (m - (Z.log2 m + 1))) as HP by (by intros m <-).
    assert (e = 1 \/ e = 2 \/ e = 3 \/ e = 4 \/ e = 5 \/ e = 6 \/ e = 7) as Hc by lia.
    clearbody P. clear z Hz Hez.
    destruct Hc as [Hc|[Hc|[Hc|[Hc|[Hc|[Hc|Hc]]]]]]; specialize (HP _ Hc); vm_compute in HP;
      rewrite Hc in Hlt; simpl in Hlt; subst P; lia.
Qed.

(** Padding never cuts a message. *)
Lemma padded_size_ge m n : 0 <= n < 2 ^ 62 -> n <= padded_size m n.
Proof.
  intros Hn. destruct m; [| |by simpl].
  - destruct (step_function_eq n Hn) as (j & Hj & -> & _).
    pose proof (Z.pow_pos_nonneg 2 j ltac:(lia) ltac:(lia)).
    pose proof (Z.mul_succ_div_gt n (2 ^ j) ltac:(lia)). lia.
  - destruct (Z.le_gt_cases 2 n); [apply padme_bounds; lia|].
    unfold padded_size. destruct (Z.ltb_spec n 2); lia.
Qed.

(** ** Sealing and opening *)

(** The provider draws as many bytes as it is asked for. *)
Class RandomLaws `{CipherSuiteProvider} : Prop := {
  random_size coins n b : 0 <= n -> random_bytes_vec coins n = Ok b -> zlen b = n /\ bytes_ok b;
}.

#[export] Instance sender_data_codec_ok : CodecOk sender_data_codec
  (fun s => leaf_index_wf (sd_sender s) /\ is_u32 (sd_generation s) /\ array_wf 4 (reuse_guard s)).
Proof. struct_ok. Qed.

(** A state whose secret tree, of depth [d] below the secret [enc], has the
    ratchets of [a], none of them beyond generation [n]; the secret is a key of
    the KDF. *)
Record epoch_rep `{CipherSuiteProvider} {GS} `{GroupStateProvider GS} (d : Z) (enc : bytes) (n : Z) (g : GS) (a : SpecState) : Prop := {
  er_secret : zlen enc = kdf_extract_size;
  er_tree : tree_rep d enc (secret_tree (gsp_epoch_secrets g)) a;
  er_inv : spec_inv a;
  er_bound i ty : 0 <= next_gen (a i ty) <= n;
}.

(** Two states of the members of one epoch. *)
Record same_epoch {GS GS'} `{GroupStateProvider GS, GroupStateProvider GS'} (g : GS) (g' : GS') : Prop := {
  se_context : gsp_group_context g = gsp_group_context g';
  se_sender_data : sender_data_secret (gsp_epoch_secrets g) = sender_data_secret (gsp_epoch_secrets g');
}.

Section processing.
Context {cs : CipherSuiteProvider} {kdf : KdfLaws} {GS : Type} {gsp : GroupStateProvider GS} {gspl : GroupStateProviderLaws GS}.
Context (d : Z) (enc : bytes) (Hd : 0 <= d < 32).

(** A request to the secret tree of a state. *)
Lemma zoom_handle_rep o n (g : GS) a :
  request_ok d o -> epoch_rep d enc n g a -> n + 1025 < 2 ^ 32 ->
  exists g', zoom_secret_tree (handle 32 o) g =
      (spec_key d enc (rq_leaf o) (rq_type o) <$> (spec_handle o a).1, g') /\
    epoch_rep d enc (n + 1025) g' (spec_handle o a).2 /\
    gsp_group_context g' = gsp_group_context g /\ gsp_self_index g' = gsp_self_index g /\
    sender_data_secret (gsp_epoch_secrets g') = sender_data_secret (gsp_epoch_secrets g).
Proof using All.
  intros Ho [Henc Ht Hi Hb] Hn.
  destruct (handle_rep 32 d enc ltac:(lia) Hd Henc o _ a Ho Ht) as (t' & E & Hr).
  { intros i ty. specialize (Hb i ty). lia. }
  unfold zoom_secret_tree, sm_zoom. rewrite E. eexists. split; [done|].
  rewrite (gsp_context_set (GS := GS)), (gsp_index_set (GS := GS)), (gsp_secrets_set (GS := GS)).
  split_and!; try done. destruct (spec_handle_available o a Hi) as (Hi' & _). split.
  - done.
  - by rewrite (gsp_secrets_set (GS := GS)).
  - done.
  - intros i ty. split; [|apply spec_handle_bound; intros; apply Hb].
    unfold spec_handle. pose proof (Hb (rq_leaf o) (rq_type o)). pose proof (Hb i ty).
    assert (forall r, 0 <= next_gen r -> 0 <= next_gen (spec_set a (rq_leaf o) (rq_type o) r i ty)) as Hs.
    { intros r Hr0. unfold spec_set. case_decide; [done|lia]. }
    destruct o as [l ty' [x|]]; cbn [rq_generation rq_leaf rq_type fst snd] in *; apply Hs.
    + unfold spec_get. destruct Ho as [_ Hx]. cbn [rq_generation] in Hx. destruct Hx as [Hx0 _].
      repeat case_match; simpl; lia.
    + simpl. lia.
Qed.

(** What sealing did. *)
Lemma seal_Ok coins c padding n (g g' : GS) m a :
  epoch_rep d enc n g a -> n + 1025 < 2 ^ 32 -> 0 <= gsp_self_index g < 2 ^ d ->
  seal coins c padding g = (Ok m, g') ->
  let i := gsp_self_index g in let ct := content_type (fc_content (ac_content c)) in
  let ty := key_type_of ct in let x := next_gen (a i ty) in
  exists guard ser aad cipher k sd,
    fc_sender (ac_content c) = SenderMember i /\ reuse_guard_random coins = Ok guard /\
    private_content_encode (mk_private_content (fc_content (ac_content c)) (ac_auth c)) [] = Ok ser /\
    mls_encode_to_vec private_aad_codec (mk_private_aad (fc_group_id (ac_content c)) (fc_epoch (ac_content c)) ct
      (authenticated_data (ac_content c))) = Ok aad /\
    message_key_encrypt (spec_key d enc i ty x) (vec_resize (padded_size padding (zlen ser)) 0 ser) aad guard = Ok cipher /\
    sender_data_key_new (sender_data_secret (gsp_epoch_secrets g)) cipher = Ok k /\
    sender_data_seal k (mk_sender_data i x guard)
      (mk_sender_data_aad (group_id (gsp_group_context g)) (epoch (gsp_group_context g)) ct) = Ok sd /\
    m = mk_private_message (group_id (gsp_group_context g)) (epoch (gsp_group_context g)) ct
          (authenticated_data (ac_content c)) sd cipher /\
    epoch_rep d enc (n + 1025) g' (spec_handle (mk_request i ty None) a).2.
Proof using All.
  intros Hr Hn Hi E i ct ty x. unfold seal in E. rewrite sm_get_run in E. case_bool_decide as Hs; [|done].
  cbn [negb] in E.
  apply sm_bind_Ok in E as (guard & g1 & [= Hg <-] & E). apply map_err_Ok in Hg.
  apply sm_bind_Ok in E as (ser & g1 & [= Hser <-] & E). apply map_err_Ok in Hser.
  apply sm_bind_Ok in E as (kd & g1 & Hk & E).
  destruct (zoom_handle_rep (mk_request i ty None) n g a) as (g1' & Hk' & Hrep & _); [by split|done|done|].
  unfold next_encryption_key in Hk. rewrite sm_get_run in Hk. unfold handle in Hk'. cbn [rq_generation rq_leaf rq_type] in Hk'.
  fold i ct ty in Hk. rewrite Hk' in Hk. simpl in Hk. injection Hk as <- <-.
  apply sm_bind_Ok in E as (aad & g2 & [= Ha <-] & E). apply map_err_Ok in Ha.
  apply sm_bind_Ok in E as (cipher & g2 & [= Hc <-] & E). apply map_err_Ok in Hc.
  apply sm_bind_Ok in E as (k & g2 & [= Hkey <-] & E).
  apply sm_bind_Ok in E as (sd & g2 & [= Hsd <-] & E). injection E as <- <-.
  exists guard, ser, aad, cipher, k, sd. split_and!; try done.
Qed.

(** What opening does with a message whose sender data it can read. *)
Lemma open_run n (g : GS) a cipher ct ad sd k i x guard :
  epoch_rep d enc n g a -> n + 1025 < 2 ^ 32 -> 0 <= i < 2 ^ d -> is_u32 x -> i <> gsp_self_index g ->
  sender_data_key_new (sender_data_secret (gsp_epoch_secrets g)) cipher = Ok k ->
  sender_data_open k sd (mk_sender_data_aad (group_id (gsp_group_context g)) (epoch (gsp_group_context g)) ct) =
    Ok (mk_sender_data i x guard) ->
  let m := mk_private_message (group_id (gsp_group_context g)) (epoch (gsp_group_context g)) ct ad sd cipher in
  let ty := key_type_of ct in let o := mk_request i ty (Some x) in
  exists g',
    ((spec_handle o a).1 = Ok x -> open m g =
      (aad ← sm_lift (from_codec (mls_encode_to_vec private_aad_codec (private_aad_from m)));
       decrypted ← sm_lift (from_crypto (message_key_decrypt (spec_key d enc i ty x) cipher aad guard));
       content ← sm_lift (from_codec (private_content_decode decrypted ct));
       mret (mk_auth_content WfPrivateMessage
         (mk_framed_content (prm_group_id m) (prm_epoch m) (SenderMember i) ad (pmc_content content)) (pmc_auth content))) g') /\
    (forall e, (spec_handle o a).1 = Err e -> open m g = (Err e, g')) /\
    epoch_rep d enc (n + 1025) g' (spec_handle o a).2 /\
    gsp_group_context g' = gsp_group_context g /\ gsp_self_index g' = gsp_self_index g /\
    sender_data_secret (gsp_epoch_secrets g') = sender_data_secret (gsp_epoch_secrets g).
Proof using All.
  intros Hr Hn Hi Hx Hne Hk Hsd m ty o.
  destruct (zoom_handle_rep o n g a) as (g' & E & Hrep & Hsame); [by split|done|done|].
  exists g'. unfold handle in E. cbn [rq_generation rq_leaf rq_type o] in E.
  assert (open m g = (zoom_secret_tree (message_key_generation 32 (2 * i) ty x) ≫= fun key =>
    (aad ← sm_lift (from_codec (mls_encode_to_vec private_aad_codec (private_aad_from m)));
     decrypted ← sm_lift (from_crypto (message_key_decrypt key cipher aad guard));
     content ← sm_lift (from_codec (private_content_decode decrypted ct));
     mret (mk_auth_content WfPrivateMessage
       (mk_framed_content (prm_group_id m) (prm_epoch m) (SenderMember i) ad (pmc_content content)) (pmc_auth content)))) g)
    as Hopen.
  { unfold open. rewrite sm_get_run. cbn [prm_content_type prm_ciphertext encrypted_sender_data m].
    rewrite (sm_lift_run _ _ _ k) by done. rewrite (sm_lift_run _ _ _ (mk_sender_data i x guard)) by done.
    cbn [sd_sender sd_generation reuse_guard]. by destruct (Z.eqb_spec (gsp_self_index g) i). }
  destruct Hsame as (S1 & S2 & S3). split_and!; [| |done..].
  - intros Ho. rewrite Hopen, (sm_bind_run _ _ g (spec_key d enc i ty x) g'); [done|]. by rewrite E, Ho.
  - intros e Ho. rewrite Hopen. apply sm_bind_err. by rewrite E, Ho.
Qed.
End processing.

(** What is sealed is read back by every other member. *)
Lemma sender_data_open_seal `{AeadLaws} k sd aad ct :
  leaf_index_wf (sd_sender sd) -> is_u32 (sd_generation sd) -> array_wf 4 (reuse_guard sd) ->
  sender_data_seal k sd aad = Ok ct -> sender_data_open k ct aad = Ok sd.
Proof.
  intros H1 H2 H3. unfold sender_data_seal, sender_data_open.
  intros (b & Hb & (x & Hx & Hc)%bind_Ok)%bind_Ok. apply map_err_Ok in Hb, Hx. apply map_err_Ok in Hc.
  apply aead_open_seal in Hc. rewrite Hx. res_step. rewrite Hc. res_step.
  pose proof (enc_spec (c := sender_data_codec) sd (conj H1 (conj H2 H3))) as Hg. unfold enc_good in Hg.
  unfold mls_encode_to_vec in Hb. rewrite Hb in Hg. destruct Hg as (_ & _ & Hd).
  specialize (Hd [] (Forall_nil_2 _)). rewrite app_nil_r in Hd. by rewrite Hd.
Qed.

Lemma vec_resize_grow {A} n (x : A) l : zlen l <= n ->
  vec_resize n x l = l ++ replicate (Z.to_nat (n - zlen l)) x.
Proof. intros Hn. unfold vec_resize. rewrite take_ge; [done|]. unfold zlen in Hn. lia. Qed.

Lemma zeros_are_padding n : existsb (fun i => negb (i =? 0)) (replicate n 0) = false.
Proof. by induction n. Qed.

Lemma message_key_roundtrip `{AeadLaws} k data aad guard ct :
  message_key_encrypt k data aad guard = Ok ct -> message_key_decrypt k ct aad guard = Ok data.
Proof. apply aead_open_seal. Qed.

(** ** Theorems *)

(** C7: private messages.  A message that a member [i] seals for a content of
    the current epoch -- in any state that agrees with the receiver's on the
    group context and the sender data secret, and whose secret tree comes from
    the same encryption secret -- is opened by every other member to exactly
    that content, with the sender's index, if the generation it was sealed with
    is still available to the receiver and not more than 1024 ahead.  The sender
    then moves to its next generation.  The receiver deletes the key: opening
    the message again reports that the key is missing. *)
Theorem message_protection `{AeadLaws, !KdfLaws, !RandomLaws} {GS GR : Type}
    `{!GroupStateProvider GS, !GroupStateProvider GR, !GroupStateProviderLaws GS, !GroupStateProviderLaws GR}
    (d : Z) (enc : bytes) (n : Z) (gs gs' : GS) (gr : GR) (a a' : SpecState) (coins : Coins) (c : AuthenticatedContent)
    (padding : PaddingMode) (m : PrivateMessage)
    (Hd : 0 <= d <= 24) (Hn : n + 2050 < 2 ^ 32)
    (Hs : epoch_rep d enc n gs a) (Hr : epoch_rep d enc n gr a')
    (Hctx : gsp_group_context gs = gsp_group_context gr)
    (Hsd : sender_data_secret (gsp_epoch_secrets gs) = sender_data_secret (gsp_epoch_secrets gr))
    (Hi : 0 <= gsp_self_index gs < 2 ^ d) (Hne : gsp_self_index gs <> gsp_self_index gr)
    (Hgid : fc_group_id (ac_content c) = group_id (gsp_group_context gs))
    (Hep : fc_epoch (ac_content c) = epoch (gsp_group_context gs))
    (Hc : private_content_wf (mk_private_content (fc_content (ac_content c)) (ac_auth c)))
    (Hsize : forall b, private_content_encode (mk_private_content (fc_content (ac_content c)) (ac_auth c)) [] = Ok b -> zlen b < 2 ^ 62)
    (Hseal : seal coins c padding gs = (Ok m, gs')) :
  let i := gsp_self_index gs in
  let ty := key_type_of (content_type (fc_content (ac_content c))) in
  let g := next_gen (a i ty) in
  (available (a' i ty) g -> g <= next_gen (a' i ty) + MAX_RATCHET_BACK_HISTORY ->
   exists gr' gr'',
     open m gr = (Ok (mk_auth_content WfPrivateMessage (ac_content c) (ac_auth c)), gr') /\
     open m gr' = (Err (KeyMissing g), gr'') /\
     epoch_rep d enc (n + 1025) gr' (spec_set a' i ty (spec_get g (a' i ty)).2)) /\
  epoch_rep d enc (n + 1025) gs' (spec_set a i ty (spec_next (a i ty)).2).
Proof.
  intros i ty g. assert (0 <= d < 32) as Hd' by lia.
  edestruct (seal_Ok (GS := GS) d enc Hd') as (guard & ser & aad & cipher & k & sd & E1 & E2 & E3 & E4 & E5 & E6 & E7 & -> & Hs');
    [exact Hs|lia|exact Hi|exact Hseal|].
  fold i ty in E5, E7, Hs'. fold g in E5, E7. split; [|exact Hs'].
  intros Hav Hfar.
  assert (is_u32 g) as Hg by (destruct Hs as [_ _ _ Hb]; specialize (Hb i ty); split; unfold g; lia).
  assert (leaf_index_wf i) as Hleaf.
  { assert (2 ^ d <= 2 ^ 24) by (apply Z.pow_le_mono_r; lia). change (2 ^ 24) with 16777216 in *.
    split; [lia|]. change MAX_LEAF_INDEX with 16777215. lia. }
  destruct (random_size coins REUSE_GUARD_SIZE guard ltac:(done) E2) as [Hgl Hgb].
  apply sender_data_open_seal in E7; [|done|done|split; [done|unfold zlen, REUSE_GUARD_SIZE in Hgl; simpl; lia]].
  rewrite Hsd in E6. rewrite Hctx in E7 |- *.
  assert ((spec_handle (mk_request i ty (Some g)) a').1 = Ok g) as Hget.
  { unfold spec_handle, spec_get. cbn [rq_generation rq_leaf rq_type fst].
    destruct (Z.ltb_spec g (next_gen (a' i ty))) as [Hlt|Hge].
    - rewrite bool_decide_true; [done|]. destruct Hav; [done|lia].
    - destruct (Z.ltb_spec (next_gen (a' i ty) + MAX_RATCHET_BACK_HISTORY) g); [lia|done]. }
  destruct (spec_handle_available (mk_request i ty (Some g)) a' (er_inv _ _ _ _ _ Hr)) as (_ & _ & Hgone).
  destruct (Hgone g Hget) as [_ Hgone']. clear Hgone.
  destruct (open_run (GS := GR) d enc Hd' n gr a' cipher (content_type (fc_content (ac_content c)))
      (authenticated_data (ac_content c)) sd k i g guard)
    as (gr' & Hopen & _ & Hr' & C1 & C2 & C3); [done|lia|done|done|done|exact E6|exact E7|].
  specialize (Hopen Hget). exists gr'.
  destruct (open_run (GS := GR) d enc Hd' (n + 1025) gr' _ cipher (content_type (fc_content (ac_content c)))
      (authenticated_data (ac_content c)) sd k i g guard Hr')
    as (gr'' & _ & Herr & _); [lia|done|done|by rewrite C2|by rewrite C3|by rewrite C1|].
  exists gr''. split_and!; [| |exact Hr'].
  - rewrite Hopen. rewrite (sm_lift_run _ _ _ aad).
    2: { rewrite Hgid, Hep, Hctx in E4. unfold private_aad_from. cbn. cbn in E4. by rewrite E4. }
    apply message_key_roundtrip in E5. rewrite (sm_lift_run _ _ _ (vec_resize (padded_size padding (zlen ser)) 0 ser))
      by (fold ty; by rewrite E5).
    specialize (Hsize _ E3). pose proof (zlen_nonneg ser).
    rewrite vec_resize_grow by (apply padded_size_ge; lia).
    edestruct (private_content_spec _ ser (replicate (Z.to_nat (padded_size padding (zlen ser) - zlen ser)) 0) Hc)
      as [_ Hdec]; [|exact E3|].
    { apply Forall_replicate. done. }
    cbn [pmc_content] in Hdec. rewrite zeros_are_padding in Hdec.
    rewrite (sm_lift_run _ _ _ (mk_private_content (fc_content (ac_content c)) (ac_auth c))) by (by rewrite Hdec).
    cbn. unfold mret, sm_ret. do 2 f_equal. rewrite <- Hctx, <- Hgid, <- Hep. fold i in E1. rewrite <- E1.
    by destruct (ac_content c).
  - rewrite <- C1. apply Herr.
    change ((spec_get g ((spec_handle (mk_request i ty (Some g)) a').2 i ty)).1 = Err (KeyMissing g)).
    cbn [rq_leaf rq_type] in Hgone'.
    revert Hgone'. generalize ((spec_handle (mk_request i ty (Some g)) a').2 i ty). intros r Hgone'.
    unfold spec_get. destruct (Z.ltb_spec g (next_gen r)); [|exfalso; apply Hgone'; right; lia].
    rewrite bool_decide_false; [done|]. intros Hin. apply Hgone'. by left.
Qed.

#[export] Instance toy_random_laws : RandomLaws (H := Toy.provider).
Proof. split. intros coins n b Hn [= <-]. by apply Toy.expand_ok. Qed.

(** Member [i] of a group of two, in its first epoch. *)
Definition member_of_two (i : Z) : PriorEpoch :=
  mk_prior_epoch sample_context i (mk_epoch_secrets [1; 1; 1; 1] [2; 2; 2; 2] (secret_tree_new 32 2 [3; 3; 3; 3])) [].

Lemma member_of_two_rep i : epoch_rep (H := Toy.provider) 1 [3; 3; 3; 3] 0 (member_of_two i) (fun _ _ => fresh).
Proof.
  split; [done|apply (secret_tree_new_rep (cs := Toy.provider) (laws := Toy.kdf_laws) 32 1 [3; 3; 3; 3]); (lia || done)| |by intros].
  intros j ty x Hx. by apply not_elem_of_empty in Hx.
Qed.

Definition sample_application : AuthenticatedContent :=
  mk_auth_content WfPrivateMessage (mk_framed_content [1; 2] 7 (SenderMember 0) [8] (ContentApplication [4; 5]))
    (mk_auth_data [6] None).

Lemma message_protection_witness :
  exists m gs' gr', seal (H := Toy.provider) 5%nat sample_application StepFunction (member_of_two 0) = (Ok m, gs') /\
    zlen (prm_ciphertext m) = 33 /\
    open (H := Toy.provider) m (member_of_two 1) = (Ok sample_application, gr').
Proof.
  destruct (seal (H := Toy.provider) 5%nat sample_application StepFunction (member_of_two 0)) as [[m| |] gs'] eqn:E;
    [|exfalso; assert (is_ok (seal (H := Toy.provider) 5%nat sample_application StepFunction (member_of_two 0)).1 = true)
        as Hok by (vm_compute; reflexivity); rewrite E in Hok; discriminate Hok..].
  destruct (message_protection (H := Toy.provider) (H0 := Toy.aead_laws) (H1 := Toy.kdf_laws) (H2 := toy_random_laws)
    1 [3; 3; 3; 3] 0 (member_of_two 0) gs' (member_of_two 1) (fun _ _ => fresh) (fun _ _ => fresh) 5%nat
    sample_application StepFunction m) as [Hopen _].
  - lia.
  - reflexivity.
  - apply member_of_two_rep.
  - apply member_of_two_rep.
  - reflexivity.
  - reflexivity.
  - simpl. lia.
  - discriminate.
  - reflexivity.
  - reflexivity.
  - split_and!; [by repeat constructor|exact I|split; [by repeat constructor|reflexivity]].
  - intros b Hb. vm_compute in Hb. injection Hb as <-. reflexivity.
  - exact E.
  - destruct Hopen as (gr' & _ & Ho & _); [right; discriminate|discriminate|].
    exists m, gs', gr'. split; [done|]. split; [|exact Ho].
    assert (match (seal (H := Toy.provider) 5%nat sample_application StepFunction (member_of_two 0)).1 with
            | Ok m => zlen (prm_ciphertext m) | _ => 0 end = 33) as Hlen by (vm_compute; reflexivity).
    by rewrite E in Hlen.
Defined.

(** The step function preserves the order of sizes. *)
Lemma step_function_mono n n' : 0 <= n <= n' -> n' < 2 ^ 62 -> padded_size StepFunction n <= padded_size StepFunction n'.
Proof.
  intros Hn Hn'. destruct (step_function_eq n ltac:(lia)) as (j & Hj & -> & Hl & Hu), (step_function_eq n' ltac:(lia)) as (j' & Hj' & -> & Hl' & Hu').
  pose proof (Z.pow_pos_nonneg 2 j ltac:(lia) ltac:(lia)). pose proof (Z.pow_pos_nonneg 2 j' ltac:(lia) ltac:(lia)).
  pose proof (Z.mul_div_le n (2 ^ j) ltac:(lia)). pose proof (Z.mul_succ_div_gt n' (2 ^ j') ltac:(lia)).
  destruct (Z.lt_trichotomy j j') as [Hlt|[->|Hgt]].
  - assert (2 * 2 ^ j <= 2 ^ j') by (rewrite <- Z.pow_succ_r by lia; apply Z.pow_le_mono_r; lia).
    pose proof (Z.div_lt_upper_bound n (2 ^ j) 8 ltac:(lia) ltac:(lia)). nia.
  - pose proof (Z.div_le_mono n n' (2 ^ j') ltac:(lia) ltac:(lia)). nia.
  - assert (2 * 2 ^ j' <= 2 ^ j) by (rewrite <- Z.pow_succ_r by lia; apply Z.pow_le_mono_r; lia). lia.
Qed.

(** Padme keeps the leading [s + 1] bits of a size, rounding up. *)
Lemma padme_shape n : 2 <= n < 2 ^ 62 ->
  let e := Z.log2 n in let s := Z.log2 e + 1 in let z := e - s in
  0 <= z /\ n <= padded_size Padme n < n + 2 ^ z /\ (2 ^ z | padded_size Padme n) /\ 2 ^ s * 2 ^ z <= n /\
  padded_size Padme n <= 2 ^ (s + 1) * 2 ^ z.
Proof.
  intros Hn e s z. destruct (padme_eq n Hn) as [Hz ->]. fold e in Hz |- *. fold s in Hz |- *. fold z in Hz |- *.
  pose proof (Z.log2_spec n ltac:(lia)) as [Hlo Hhi]. fold e in Hlo, Hhi.
  assert (0 < s) by (unfold s; pose proof (Z.log2_nonneg e); lia).
  pose proof (Z.pow_pos_nonneg 2 z ltac:(lia) ltac:(lia)) as Hp.
  assert (2 ^ s * 2 ^ z = 2 ^ e) as E by (rewrite <- Z.pow_add_r by lia; f_equal; unfold z; lia).
  rewrite Z.pow_succ_r in Hhi by (unfold e; apply Z.log2_nonneg). rewrite Z.pow_add_r by lia. change (2 ^ 1) with 2.
  set (P := 2 ^ z) in *. set (Q := 2 ^ s) in *. rewrite <- E in Hlo, Hhi.
  pose proof (Z.mul_div_le (n + (P - 1)) P ltac:(lia)). pose proof (Z.mul_succ_div_gt (n + (P - 1)) P ltac:(lia)).
  pose proof (Z.div_lt_upper_bound (n + (P - 1)) P (Q * 2 + 1) ltac:(lia) ltac:(nia)).
  split_and!; [done|lia|lia|by exists ((n + (P - 1)) / P)|lia|nia].
Qed.

Lemma padme_mono n n' : 0 <= n <= n' -> n' < 2 ^ 62 -> padded_size Padme n <= padded_size Padme n'.
Proof.
  intros Hn Hn'. destruct (Z.le_gt_cases 2 n) as [H2|H2].
  2: { transitivity n; [unfold padded_size; destruct (Z.ltb_spec n 2); lia|].
    pose proof (padded_size_ge Padme n' ltac:(lia)). lia. }
  destruct (decide (Z.log2 n = Z.log2 n')) as [E|Hne].
  - destruct (padme_eq n ltac:(lia)) as [Hz ->], (padme_eq n' ltac:(lia)) as [_ ->]. rewrite <- E.
    set (P := 2 ^ _). assert (0 < P) by (apply Z.pow_pos_nonneg; lia).
    apply Z.mul_le_mono_nonneg_r; [lia|]. apply Z.div_le_mono; lia.
  - destruct (padme_shape n ltac:(lia)) as (Hz & _ & _ & _ & Hu). pose proof (Z.log2_nonneg (Z.log2 n)).
    rewrite <- Z.pow_add_r in Hu by lia.
    pose proof (Z.log2_le_mono n n' ltac:(lia)). pose proof (Z.log2_spec n' ltac:(lia)) as [Hlo _].
    pose proof (padded_size_ge Padme n' ltac:(lia)).
    assert (2 ^ (Z.log2 (Z.log2 n) + 1 + 1 + (Z.log2 n - (Z.log2 (Z.log2 n) + 1))) <= 2 ^ Z.log2 n') by (apply Z.pow_le_mono_r; lia).
    lia.
Qed.



(** The overhead of Padme is more than the 11.11 percent that its
    documentation states: a message of 129 bytes is padded to 144. *)
Theorem padme_overhead_exceeds_documented :
  padded_size Padme 129 = 144 /\ 1111 * 129 < 10000 * (padded_size Padme 129 - 129).
Proof. split; reflexivity. Qed.

(** *** Public messages *)

Section authentication.
Context `{CipherSuiteProvider}.

(** The checks of the verifier, as a proposition. *)
Definition authentic (p : PublicMessage) (membership_key : option bytes) (context : GroupContext)
    (c : SignaturePublicKeysContainer) : Prop :=
  exists ext pk,
    external_signers context = Ok ext /\
    signing_identity_for_sender c (fc_sender (pm_content p)) (fc_content (pm_content p)) ext = Ok pk /\
    signable_verify pk (mk_signing_context (Some context) (protocol_version context)) (from_public_message p) = Ok tt /\
    match fc_sender (pm_content p) with
    | SenderMember _ =>
        forall k, membership_key = Some k ->
          exists t, membership_tag p = Some t /\ membership_tag_create (from_public_message p) context k = Ok t
    | _ => membership_tag p = None
    end.

Lemma verify_plaintext_spec p k context c a :
  verify_plaintext_authentication p k context c = Ok a <-> a = from_public_message p /\ authentic p k context c.
Proof using Type*.
  unfold verify_plaintext_authentication, authentic, verify_auth_content_signature. split.
  - intros (ext & Hext & (u & Hm & (u' & (pk & Hpk & Hv)%bind_Ok & [= <-])%bind_Ok)%bind_Ok)%bind_Ok.
    split; [done|]. exists ext, pk. destruct u'. split_and!; try done.
    simpl in Hm. destruct (fc_sender (pm_content p)) as [i|i| |].
    + intros k' ->. apply bind_Ok in Hm as (t & Ht & (t' & Ht' & Hm)%bind_Ok).
      apply ok_or_Ok in Ht'. case_bool_decide; [subst t'|done]. by exists t.
    + destruct u. apply guard_or_Ok in Hm. by apply bool_decide_eq_true in Hm.
    + destruct u. apply guard_or_Ok in Hm. by apply bool_decide_eq_true in Hm.
    + destruct u. apply guard_or_Ok in Hm. by apply bool_decide_eq_true in Hm.
  - intros (-> & ext & pk & -> & Hpk & Hv & Hm). cbn [mbind res_bind].
    assert (match fc_sender (pm_content p) with
      | SenderMember _ =>
          match k with
          | Some membership_key =>
              expected_tag ← membership_tag_create (from_public_message p) context membership_key;
              plaintext_tag ← ok_or InvalidMembershipTag (membership_tag p);
              if bool_decide (expected_tag = plaintext_tag) then Ok tt else Err InvalidMembershipTag
          | None => Ok tt
          end
      | _ => guard_or MembershipTagForNonMember (bool_decide (membership_tag p = None))
      end = Ok tt) as Hc.
    { destruct (fc_sender (pm_content p)) as [i|i| |]; try (by rewrite Hm).
      destruct k as [k|]; [|done]. destruct (Hm k eq_refl) as (t & -> & ->). res_step. cbn [ok_or mbind res_bind].
      by rewrite bool_decide_true. }
    cbn [from_public_message ac_content] in Hc |- *. rewrite Hc. cbn [mbind res_bind].
    rewrite Hpk. cbn [mbind res_bind]. by rewrite Hv.
Qed.
End authentication.

(** C22: authentication of public messages.  The verifier accepts a public
    message exactly if the signature verifies under the key of its sender -- a
    member's leaf, an external sender of the group context, or the leaf that a
    newcomer brings -- and a member's message carries the tag made with the
    membership key, and no other message carries one; it returns the message's
    content and authentication data.  What a member signs and tags in the
    current epoch, with any confirmation tag, is accepted by whoever has the
    same context and membership key and the member's leaf. *)
Theorem public_message_authentication `{SignatureLaws} (p : PublicMessage) (key : bytes) (context : GroupContext)
    (c : SignaturePublicKeysContainer) (a : AuthenticatedContent)
    (coins : Coins) (i : Z) (content : Content) (sk : SignatureSecretKey) (pk : SignaturePublicKey) (ad : bytes)
    (signed : AuthenticatedContent) (ctag : option ConfirmationTag) (tag : MembershipTag) (ext : list SigningIdentity)
    (Hsign : auth_content_new_signed coins context (SenderMember i) content sk WfPublicMessage ad = Ok signed)
    (Hpk : signature_key_derive_public sk = Ok pk)
    (Htag : membership_tag_create (set_confirmation_tag ctag signed) context key = Ok tag)
    (Hi : i <= MAX_LEAF_INDEX) (Hleaf : signing_identity_for_member c i = Ok pk) (Hext : external_signers context = Ok ext) :
  (verify_plaintext_authentication p (Some key) context c = Ok a <->
   a = from_public_message p /\ authentic p (Some key) context c) /\
  verify_plaintext_authentication
    (mk_public_message (ac_content signed) (ac_auth (set_confirmation_tag ctag signed)) (Some tag)) (Some key) context c =
  Ok (set_confirmation_tag ctag signed).
Proof.
  split; [apply verify_plaintext_spec|].
  destruct (new_signed_spec _ _ _ _ _ _ _ _ _ Hsign Hpk) as (Hw & Hc & _ & Hv).
  set (p' := mk_public_message _ _ _).
  assert (from_public_message p' = set_confirmation_tag ctag signed) as Hp'
    by (unfold from_public_message, set_confirmation_tag; simpl; by rewrite Hw).
  apply verify_plaintext_spec. rewrite Hp'. split; [done|].
  unfold authentic. rewrite Hp'. cbn [p' pm_content membership_tag]. rewrite Hc. cbn [fc_sender fc_content].
  exists ext, pk. split_and!; [done| |apply Hv|].
  - unfold signing_identity_for_sender, leaf_index_try_from. destruct (Z.ltb_spec MAX_LEAF_INDEX i); [lia|done].
  - intros k [= <-]. by exists tag.
Qed.

Lemma public_message_authentication_witness :
  exists signed tag,
    auth_content_new_signed (H := Toy.provider) 0%nat sample_context (SenderMember 1) (ContentProposal (PRemove (mk_remove 0)))
      [5] WfPublicMessage [] = Ok signed /\
    verify_plaintext_authentication (H := Toy.provider)
      (mk_public_message (ac_content signed) (ac_auth (set_confirmation_tag None signed)) (Some tag)) (Some [7]) sample_context
      (KeyList [None; Some [5]]) = Ok (set_confirmation_tag None signed).
Proof.
  destruct (auth_content_new_signed (H := Toy.provider) 0%nat sample_context (SenderMember 1)
    (ContentProposal (PRemove (mk_remove 0))) [5] WfPublicMessage []) as [signed| |] eqn:Es; [|by vm_compute in Es..].
  destruct (membership_tag_create (H := Toy.provider) (set_confirmation_tag None signed) sample_context [7]) as [tag| |] eqn:Et;
    [|by vm_compute in Es; injection Es as <-; vm_compute in Et..].
  exists signed, tag. split; [done|].
  apply (public_message_authentication (H := Toy.provider) (H0 := Toy.signature_laws)
    (mk_public_message (ac_content signed) (ac_auth signed) None) [7] sample_context (KeyList [None; Some [5]]) signed
    0%nat 1 (ContentProposal (PRemove (mk_remove 0))) [5] [5] [] signed None tag []); try done.
Defined.
