(* ===== verification/EpochStore.v ===== *)
(** * Storage of epochs and pre-shared keys

    The repository of a group's prior epochs (mls-rs/src/group/state_repo.rs and
    epoch.rs), which caches the epochs to write next to a storage provider; the
    in-memory providers (mls-rs/src/storage_provider/in_memory/); and the
    resolution of pre-shared keys (mls-rs/src/psk/resolver.rs).

    The storage traits of mls-rs-core are classes over the type of the provider;
    an operation on [&mut self] returns the new provider.  The in-memory
    providers share their map between clones behind a lock: here one provider is
    threaded through the operations. *)

From S2P Require Import Prelude Codec Crypto TreeMath SecretTree Data NodeVec TreeIndex TreeHash Proposals TreeKem LeafNodes Kem Framing KeySchedule MessageProtection.

#[local] Set Default Goal Selector "!".
Local Open Scope Z_scope.

(** ** The storage traits *)

Record EpochRecord := mk_record { rec_id : Z; rec_data : bytes }.
Record StoredGroupState := mk_stored_state { ss_id : bytes; ss_data : bytes }.

Class GroupStateStorage (S : Type) := {
  st_state : S -> bytes -> res AnyError (option bytes);
  st_epoch : S -> bytes -> Z -> res AnyError (option bytes);
  st_write : StoredGroupState -> list EpochRecord -> list EpochRecord -> SM S AnyError unit;
  st_max_epoch_id : S -> bytes -> res AnyError (option Z);
}.

Class KeyPackageStorage (K : Type) := {
  kps_delete : bytes -> SM K AnyError unit;
  kps_insert : bytes -> KeyPackageData -> SM K AnyError unit;
  kps_get : K -> bytes -> res AnyError (option KeyPackageData);
}.

Class PreSharedKeyStorage (P : Type) := {
  pss_get : P -> bytes -> res AnyError (option PreSharedKey);
}.

(** ** The in-memory providers *)

Record InMemoryGroupData := mk_group_data { state_data : bytes; epoch_data : list EpochRecord }.

Definition group_data_new (state_data : bytes) : InMemoryGroupData := mk_group_data state_data [].

Definition get_epoch_data_index (d : InMemoryGroupData) (epoch_id : Z) : option Z :=
  match epoch_data d with
  | e :: _ => if rec_id e <=? epoch_id then Some (epoch_id - rec_id e) else None
  | [] => None
  end.

Definition data_get_epoch (d : InMemoryGroupData) (epoch_id : Z) : option EpochRecord :=
  i ← get_epoch_data_index d epoch_id;
  zget (epoch_data d) i.

Definition insert_epoch (epoch : EpochRecord) (d : InMemoryGroupData) : InMemoryGroupData :=
  mk_group_data (state_data d) (epoch_data d ++ [epoch]).

Definition update_epoch (epoch : EpochRecord) (d : InMemoryGroupData) : InMemoryGroupData :=
  match get_epoch_data_index d (rec_id epoch) with
  | Some i => mk_group_data (state_data d) (zset (epoch_data d) i epoch)
  | None => d
  end.

(** [while epoch_data.len() > max_epoch_retention { pop_front }]. *)
Fixpoint trim_loop (max_epoch_retention : Z) (l : list EpochRecord) : list EpochRecord :=
  match l with
  | [] => []
  | _ :: l' => if max_epoch_retention <? zlen l then trim_loop max_epoch_retention l' else l
  end.

Definition trim_epochs (max_epoch_retention : Z) (d : InMemoryGroupData) : InMemoryGroupData :=
  mk_group_data (state_data d) (trim_loop max_epoch_retention (epoch_data d)).

Record InMemoryGroupStateStorage := mk_memory_storage {
  inner : gmap bytes InMemoryGroupData;
  max_epoch_retention : Z;
}.

Definition DEFAULT_EPOCH_RETENTION_LIMIT : Z := 3.

Definition memory_storage_new : InMemoryGroupStateStorage := mk_memory_storage ∅ DEFAULT_EPOCH_RETENTION_LIMIT.

Definition with_max_epoch_retention (max_epoch_retention : Z) (s : InMemoryGroupStateStorage) : mres InMemoryGroupStateStorage :=
  _ ← guard_or NonZeroRetentionRequired (0 <? max_epoch_retention);
  Ok (mk_memory_storage (inner s) max_epoch_retention).

Definition stored_groups (s : InMemoryGroupStateStorage) : list bytes := (map_to_list (inner s)).*1.

Definition delete_group (group_id : bytes) (s : InMemoryGroupStateStorage) : InMemoryGroupStateStorage :=
  mk_memory_storage (delete group_id (inner s)) (max_epoch_retention s).

Definition memory_write (state : StoredGroupState) (epoch_inserts epoch_updates : list EpochRecord)
    (s : InMemoryGroupStateStorage) : InMemoryGroupStateStorage :=
  let group_data :=
    match inner s !! ss_id state with
    | Some data => mk_group_data (ss_data state) (epoch_data data)
    | None => group_data_new (ss_data state)
    end in
  let group_data := foldl (fun d e => insert_epoch e d) group_data epoch_inserts in
  let group_data := foldl (fun d e => update_epoch e d) group_data epoch_updates in
  let group_data := trim_epochs (max_epoch_retention s) group_data in
  mk_memory_storage (<[ss_id state := group_data]> (inner s)) (max_epoch_retention s).

#[export] Instance memory_group_storage : GroupStateStorage InMemoryGroupStateStorage := {|
  st_max_epoch_id s gid := Ok (d ← inner s !! gid; rec_id <$> last (epoch_data d));
  st_state s gid := Ok (state_data <$> inner s !! gid);
  st_epoch s gid epoch_id := Ok (d ← inner s !! gid; rec_data <$> data_get_epoch d epoch_id);
  st_write state ins upd := sm_modify (memory_write state ins upd);
|}.

(** [InMemoryKeyPackageStorage] and [InMemoryPreSharedKeyStorage]. *)
#[export] Instance memory_key_package_storage : KeyPackageStorage (gmap bytes KeyPackageData) := {|
  kps_delete id := sm_modify (delete id);
  kps_insert id pkg := sm_modify (insert id pkg);
  kps_get m id := Ok (m !! id);
|}.

#[export] Instance memory_psk_storage : PreSharedKeyStorage (gmap bytes PreSharedKey) := {|
  pss_get m id := Ok (m !! id);
|}.

(** ** Prior epochs *)

Section codecs.
Context (values : gmap Z MessageKeyData -> list MessageKeyData).
Context (entries : gmap Z SecretTreeNode -> list (Z * SecretTreeNode)).

Definition epoch_secrets_codec : codec EpochSecrets :=
  struct_codec (fun e => (resumption_secret e, (sender_data_secret e, secret_tree e)))
    (fun '(r, (s, t)) => mk_epoch_secrets r s t)
    (pair_codec byte_vec_codec (pair_codec byte_vec_codec (secret_tree_codec values entries))).

Definition prior_epoch_codec : codec PriorEpoch :=
  struct_codec (fun e => (pe_context e, (pe_self_index e, (pe_secrets e, pe_signature_public_keys e))))
    (fun '(c, (i, (s, k))) => mk_prior_epoch c i s k)
    (pair_codec group_context_codec (pair_codec leaf_index_codec (pair_codec epoch_secrets_codec
      (vec_codec (option_codec byte_vec_codec))))).
End codecs.

Definition epoch_id (e : PriorEpoch) : Z := epoch (pe_context e).
Definition pe_group_id (e : PriorEpoch) : bytes := group_id (pe_context e).

(** ** The repository *)

Record GroupStateRepository (S K : Type) := mk_repository {
  pending_inserts : list PriorEpoch;
  pending_updates : list PriorEpoch;
  pending_key_package_removal : option KeyPackageRef;
  repo_group_id : bytes;
  repo_storage : S;
  key_package_repo : K;
}.
Arguments mk_repository {_ _} _ _ _ _ _ _.
Arguments pending_inserts {_ _} _.
Arguments pending_updates {_ _} _.
Arguments pending_key_package_removal {_ _} _.
Arguments repo_group_id {_ _} _.
Arguments repo_storage {_ _} _.
Arguments key_package_repo {_ _} _.

Section repository.
Context {S K : Type} `{!GroupStateStorage S, !KeyPackageStorage K}.
(** The codec of stored epochs. *)
Context (pec : codec PriorEpoch).
Notation Repo := (GroupStateRepository S K).

Definition repository_new (group_id : bytes) (storage : S) (key_package_repo : K)
    (key_package_to_remove : option KeyPackageRef) : Repo :=
  mk_repository [] [] key_package_to_remove group_id storage key_package_repo.

Definition set_pending_inserts (l : list PriorEpoch) (r : Repo) : Repo :=
  mk_repository l (pending_updates r) (pending_key_package_removal r) (repo_group_id r) (repo_storage r) (key_package_repo r).
Definition set_pending_updates (l : list PriorEpoch) (r : Repo) : Repo :=
  mk_repository (pending_inserts r) l (pending_key_package_removal r) (repo_group_id r) (repo_storage r) (key_package_repo r).
Definition set_storage (s : S) (r : Repo) : Repo :=
  mk_repository (pending_inserts r) (pending_updates r) (pending_key_package_removal r) (repo_group_id r) s (key_package_repo r).
Definition set_key_package_repo (k : K) (r : Repo) : Repo :=
  mk_repository (pending_inserts r) (pending_updates r) (pending_key_package_removal r) (repo_group_id r) (repo_storage r) k.

(** [map_err(|e| MlsError::GroupStorageError(e.into_any_error()))]. *)
Definition from_storage_err {A} (m : res AnyError A) : mres A := map_err GroupStorageError m.

Definition find_max_id (r : Repo) : mres (option Z) :=
  match last (pending_inserts r) with
  | Some e => Ok (Some (epoch_id e))
  | None => from_storage_err (st_max_epoch_id (repo_storage r) (repo_group_id r))
  end.

Definition find_pending (id : Z) (r : Repo) : option Z := find_position (fun ep => epoch_id ep =? id) (pending_updates r).

(** [resumption_secret], outside of the inserted epochs.  The cache of updates
    is searched by epoch only, the storage by group and epoch. *)
Definition resumption_from_storage (psk_id : ResumptionPsk) (r : Repo) : mres (option PreSharedKey) :=
  match find_pending (psk_epoch psk_id) r with
  | Some pending => Some <$> unwrap ((fun e => resumption_secret (pe_secrets e)) <$> zget (pending_updates r) pending)
  | None =>
      data ← from_storage_err (st_epoch (repo_storage r) (psk_group_id psk_id) (psk_epoch psk_id));
      match data with
      | Some b => (fun '(e, _) => Some (resumption_secret (pe_secrets e))) <$> from_codec (mls_decode pec b)
      | None => Ok None
      end
  end.

Definition repo_resumption_secret (psk_id : ResumptionPsk) (r : Repo) : mres (option PreSharedKey) :=
  match head (pending_inserts r) with
  | Some first =>
      if epoch_id first <=? psk_epoch psk_id then
        Ok ((fun e => resumption_secret (pe_secrets e)) <$> zget (pending_inserts r) (psk_epoch psk_id - epoch_id first))
      else resumption_from_storage psk_id r
  | None => resumption_from_storage psk_id r
  end.

(** What a [&mut PriorEpoch] points into. *)
Inductive Slot := InInserts (i : Z) | InUpdates (i : Z).

Definition slot_get (s : Slot) (r : Repo) : option PriorEpoch :=
  match s with InInserts i => zget (pending_inserts r) i | InUpdates i => zget (pending_updates r) i end.

Definition slot_set (s : Slot) (e : PriorEpoch) (r : Repo) : Repo :=
  match s with
  | InInserts i => set_pending_inserts (zset (pending_inserts r) i e) r
  | InUpdates i => set_pending_updates (zset (pending_updates r) i e) r
  end.

Definition epoch_from_storage (id : Z) : SM Repo MlsError (option Slot) :=
  r ← sm_get;
  match find_pending id r with
  | Some i => mret (Some (InUpdates i))
  | None =>
      data ← sm_lift (from_storage_err (st_epoch (repo_storage r) (repo_group_id r) id));
      match data with
      | Some b =>
          '(e, _) ← sm_lift (from_codec (mls_decode pec b));
          _ ← sm_modify (set_pending_updates (pending_updates r ++ [e]));
          mret (Some (InUpdates (zlen (pending_updates r))))
      | None => mret None
      end
  end.

Definition get_epoch_mut (id : Z) : SM Repo MlsError (option Slot) :=
  r ← sm_get;
  match head (pending_inserts r) with
  | Some first =>
      if epoch_id first <=? id then
        mret (if id - epoch_id first <? zlen (pending_inserts r) then Some (InInserts (id - epoch_id first)) else None)
      else epoch_from_storage id
  | None => epoch_from_storage id
  end.

Definition repo_insert (e : PriorEpoch) : SM Repo MlsError unit :=
  r ← sm_get;
  if negb (bool_decide (pe_group_id e = repo_group_id r)) then sm_lift (Err GroupIdMismatch)
  else
    max ← sm_lift (find_max_id r);
    match max with
    | Some id =>
        if negb (epoch_id e =? wrap 64 (id + 1)) then sm_lift (Err InvalidEpoch)
        else sm_modify (set_pending_inserts (pending_inserts r ++ [e]))
    | None => sm_modify (set_pending_inserts (pending_inserts r ++ [e]))
    end.

(** [map(|e| Ok(EpochRecord::new(e.epoch_id(), e.mls_encode_to_vec()?))).collect()]. *)
Fixpoint encode_records (l : list PriorEpoch) : mres (list EpochRecord) :=
  match l with
  | [] => Ok []
  | e :: l =>
      b ← from_codec (mls_encode_to_vec pec e);
      rs ← encode_records l;
      Ok (mk_record (epoch_id e) b :: rs)
  end.

(** [snapshot] is the encoded snapshot of the group with the id of the group it
    is a snapshot of. *)
Definition repo_write_to_storage (snapshot : cres bytes) (snapshot_group_id : bytes) : SM Repo MlsError unit :=
  r ← sm_get;
  inserts ← sm_lift (encode_records (pending_inserts r));
  updates ← sm_lift (encode_records (pending_updates r));
  data ← sm_lift (from_codec snapshot);
  _ ← sm_zoom repo_storage set_storage
        (fun s => let '(x, s) := st_write (mk_stored_state snapshot_group_id data) inserts updates s in
                  (from_storage_err x, s));
  _ ← match pending_key_package_removal r with
      | Some key_package_ref =>
          sm_zoom key_package_repo set_key_package_repo
            (fun k => let '(x, k) := kps_delete key_package_ref k in (map_err KeyPackageRepoError x, k))
      | None => mret tt
      end;
  _ ← sm_modify (set_pending_inserts []);
  sm_modify (set_pending_updates []).
End repository.

(** ** Pre-shared keys *)

Section resolver.
Context {S K P : Type} `{!GroupStateStorage S, !KeyPackageStorage K, !PreSharedKeyStorage P} `{CipherSuiteProvider}.
Context (pec : codec PriorEpoch).

Record PskResolver := mk_resolver {
  rs_group_context : option GroupContext;
  rs_current_epoch : option EpochSecrets;
  rs_prior_epochs : option (GroupStateRepository S K);
  rs_psk_store : P;
}.

Definition resolve_resumption (r : PskResolver) (psk_id : ResumptionPsk) : mres PreSharedKey :=
  let from_prior :=
    match rs_prior_epochs r with
    | Some eps =>
        psk ← repo_resumption_secret pec psk_id eps;
        ok_or OldGroupStateNotFound psk
    | None => Err OldGroupStateNotFound
    end in
  match rs_group_context r with
  | Some ctx =>
      if (epoch ctx =? psk_epoch psk_id) && bool_decide (group_id ctx = psk_group_id psk_id) then
        resumption_secret <$> ok_or OldGroupStateNotFound (rs_current_epoch r)
      else from_prior
  | None => from_prior
  end.

Definition resolve_external (r : PskResolver) (psk_id : bytes) : mres PreSharedKey :=
  psk ← map_err PskStoreError (pss_get (rs_psk_store r) psk_id);
  ok_or MissingRequiredPsk psk.

Fixpoint resolve (r : PskResolver) (ids : list PreSharedKeyID) : mres (list PskSecretInput) :=
  match ids with
  | [] => Ok []
  | id :: ids =>
      psk ← match key_id id with
            | External external => resolve_external r external
            | Resumption resumption => resolve_resumption r resumption
            end;
      l ← resolve r ids;
      Ok (mk_psk_input id psk :: l)
  end.

Definition resolve_to_secret (r : PskResolver) (ids : list PreSharedKeyID) : mres PskSecret :=
  psk ← resolve r ids;
  psk_calculate psk.
End resolver.
Arguments mk_resolver {_ _ _} _ _ _ _.

(** ** The repository as a window of consecutive epochs

    The repository promises its client a window [[base, base + length l)] of
    epochs: the epochs of the storage, with the changed ones in the cache of
    updates in place of the stored ones, followed by the cache of insertions. *)

Lemma find_position_find {A} (p : A -> bool) (l : list A) :
  match find_position p l with
  | Some i => exists x, zget l i = Some x /\ List.find p l = Some x
  | None => List.find p l = None
  end.
Proof.
  induction l as [|x l IH]; [done|]. simpl. destruct (p x); [by exists x|].
  destruct (find_position p l) as [i|]; [|done]. destruct IH as (y & Hy & Hf).
  exists y. split; [|done]. pose proof (zget_Some_bound _ _ _ Hy). simpl.
  replace (i + 1) with (zlen [x] + i) by (unfold zlen; simpl; lia).
  change (x :: l) with ([x] ++ l). rewrite zget_app_r by lia. by replace (_ + i - _) with i by lia.
Qed.

Lemma zget_nth {A} (l : list A) (n : nat) : zget l (Z.of_nat n) = l !! n.
Proof. unfold zget. destruct (Z.ltb_spec (Z.of_nat n) 0); [lia|]. by rewrite Nat2Z.id. Qed.

Lemma trim_drop n (l : list EpochRecord) : 0 <= n -> trim_loop n l = drop (length l - Z.to_nat n) l.
Proof.
  intros Hn. induction l as [|e l IH]; [done|]. cbn [trim_loop].
  destruct (Z.ltb_spec n (zlen (e :: l))) as [H|H]; unfold zlen in H; simpl in H.
  - rewrite IH. replace (length (e :: l) - Z.to_nat n)%nat with (S (length l - Z.to_nat n)) by (simpl; lia). done.
  - by replace (length (e :: l) - Z.to_nat n)%nat with 0%nat by (simpl; lia).
Qed.

Lemma find_app {A} (p : A -> bool) l k :
  List.find p (l ++ k) = match List.find p l with Some x => Some x | None => List.find p k end.
Proof. induction l as [|x l IH]; [done|]. simpl. by destruct (p x). Qed.

Lemma zset_nth {A} (l : list A) (n : nat) x : zset l (Z.of_nat n) x = <[n:=x]> l.
Proof. unfold zset. destruct (Z.ltb_spec (Z.of_nat n) 0); [lia|]. by rewrite Nat2Z.id. Qed.

Lemma zget_nat_inv {A} (l : list A) i x : zget l i = Some x -> exists n : nat, i = Z.of_nat n /\ l !! n = Some x.
Proof.
  intros H. pose proof (zget_Some_bound _ _ _ H). exists (Z.to_nat i). split; [lia|].
  by rewrite <- (Z2Nat.id i), zget_nth in H by lia.
Qed.

(** The epoch [e], unless a changed one is cached. *)
Definition overlay (us : list PriorEpoch) (e : PriorEpoch) : PriorEpoch :=
  default e (List.find (fun u => epoch_id u =? epoch_id e) us).

Definition consecutive (base : Z) (l : list PriorEpoch) : Prop :=
  forall (i : nat) e, l !! i = Some e -> epoch_id e = base + Z.of_nat i.

Lemma overlay_id us e : epoch_id (overlay us e) = epoch_id e.
Proof.
  unfold overlay. destruct (List.find _ us) as [u|] eqn:E; [|done].
  apply List.find_some in E as [_ E%Z.eqb_eq]. done.
Qed.

Lemma overlay_in us e u : NoDup (epoch_id <$> us) -> u ∈ us -> epoch_id u = epoch_id e -> overlay us e = u.
Proof.
  unfold overlay. intros Hnd Hu He. induction us as [|v us IH]; [by apply not_elem_of_nil in Hu|].
  simpl. rewrite fmap_cons in Hnd. apply NoDup_cons in Hnd as [Hv Hnd]. apply elem_of_cons in Hu as [->|Hu].
  - rewrite He, Z.eqb_refl. done.
  - destruct (Z.eqb_spec (epoch_id v) (epoch_id e)) as [Heq|]; [|by apply IH].
    exfalso. apply Hv. apply list_elem_of_fmap. exists u. split; [congruence|done].
Qed.

Lemma overlay_out us e : (forall u, u ∈ us -> epoch_id u <> epoch_id e) -> overlay us e = e.
Proof.
  unfold overlay. intros H. destruct (List.find _ us) as [u|] eqn:E; [|done].
  apply List.find_some in E as [Hu%list_elem_of_In E%Z.eqb_eq]. by destruct (H u).
Qed.

Lemma overlay_cons u us e : (forall v, v ∈ us -> epoch_id v <> epoch_id u) ->
  overlay (u :: us) e = overlay us (overlay [u] e).
Proof.
  intros Hu. unfold overlay at 1 3. simpl. destruct (Z.eqb_spec (epoch_id u) (epoch_id e)) as [He|He]; simpl; [|done].
  symmetry. by apply overlay_out.
Qed.

Lemma consecutive_fmap base f l : (forall e, epoch_id (f e) = epoch_id e) -> consecutive base l -> consecutive base (f <$> l).
Proof. intros Hf Hl i e He. apply list_lookup_fmap_Some in He as (e' & -> & He). rewrite Hf. by apply Hl. Qed.

Lemma consecutive_at base l e : consecutive base l -> e ∈ l -> zget l (epoch_id e - base) = Some e /\ base <= epoch_id e.
Proof.
  intros Hl [i Hi]%list_elem_of_lookup. rewrite (Hl _ _ Hi). split; [|lia].
  replace (_ - base) with (Z.of_nat i) by lia. by rewrite zget_nth.
Qed.

Lemma consecutive_insert base l (n : nat) e : consecutive base l -> epoch_id e = base + Z.of_nat n -> consecutive base (<[n:=e]> l).
Proof.
  intros Hl He i x Hx. destruct (decide (i = n)) as [->|Hne].
  - apply list_lookup_insert_Some in Hx as [(_ & <- & _)|(Hx & _)]; [done|by destruct Hx].
  - rewrite list_lookup_insert_ne in Hx by done. by apply Hl.
Qed.

(** Replacing a cached epoch replaces it in the window. *)
Lemma overlay_insert base old us (i : nat) u u' : consecutive base old -> NoDup (epoch_id <$> us) ->
  us !! i = Some u -> epoch_id u' = epoch_id u -> base <= epoch_id u ->
  overlay (<[i:=u']> us) <$> old = <[Z.to_nat (epoch_id u - base) := u']> (overlay us <$> old).
Proof.
  intros Hold Hnd Hu Hid Hge. apply list_eq. intros k.
  assert (NoDup (epoch_id <$> <[i:=u']> us)) as Hnd'.
  { rewrite list_fmap_insert, list_insert_id; [done|]. rewrite list_lookup_fmap, Hu. simpl. by rewrite Hid. }
  assert (forall x, overlay (<[i:=u']> us) x = if epoch_id u =? epoch_id x then u' else overlay us x) as Ho.
  { intros x. destruct (Z.eqb_spec (epoch_id u) (epoch_id x)) as [Heq|Hne].
    - apply overlay_in; [done| |congruence]. apply (list_elem_of_lookup_2 _ i). apply list_lookup_insert_eq. by eapply lookup_lt_Some.
    - clear - Hu Hid Hne. revert i Hu. induction us as [|v us IH]; intros i Hu; [done|]. destruct i as [|i]; simpl in *.
      + injection Hu as ->. unfold overlay. simpl. rewrite Hid. by destruct (Z.eqb_spec (epoch_id u) (epoch_id x)).
      + unfold overlay in *. simpl. destruct (epoch_id v =? epoch_id x); [done|]. by apply IH. }
  rewrite list_lookup_fmap. destruct (old !! k) as [x|] eqn:Hx; simpl.
  - rewrite Ho. pose proof (Hold _ _ Hx) as Hxid. pose proof (lookup_lt_Some _ _ _ Hx).
    destruct (Z.eqb_spec (epoch_id u) (epoch_id x)) as [Heq|Hne].
    + replace (Z.to_nat (epoch_id u - base)) with k by lia. rewrite list_lookup_insert_eq; [done|]. by rewrite length_fmap.
    + rewrite list_lookup_insert_ne by lia. by rewrite list_lookup_fmap, Hx.
  - symmetry. apply lookup_ge_None. rewrite length_insert, length_fmap. by apply lookup_ge_None.
Qed.

Section window.
Context (pec : codec PriorEpoch) (wf : PriorEpoch -> Prop) `{!CodecOk pec wf}.
Notation Store := InMemoryGroupStateStorage.
Notation Repo := (GroupStateRepository Store (gmap bytes KeyPackageData)).

(** What the storage can hold. *)
Definition storable (gid : bytes) (e : PriorEpoch) : Prop :=
  wf e /\ pe_group_id e = gid /\ exists b, mls_encode_to_vec pec e = Ok b.

Definition record_of (e : PriorEpoch) (rec : EpochRecord) : Prop :=
  rec_id rec = epoch_id e /\ mls_encode_to_vec pec e = Ok (rec_data rec).

Definition stored (s : Store) (gid : bytes) : list EpochRecord :=
  match inner s !! gid with Some d => epoch_data d | None => [] end.

(** The repository [r], over a storage that holds the epochs [old], presents the
    epochs [l], numbered from [base]. *)
Record repo_over (r : Repo) (base : Z) (old l : list PriorEpoch) : Prop := {
  ro_stored : Forall2 record_of old (stored (repo_storage r) (repo_group_id r));
  ro_contents : l = (overlay (pending_updates r) <$> old) ++ pending_inserts r;
  ro_ids : consecutive base l;
  ro_nodup : NoDup (epoch_id <$> pending_updates r);
  ro_updates u : u ∈ pending_updates r -> epoch_id u < base + Z.of_nat (length old) /\ base <= epoch_id u;
  ro_old : Forall (storable (repo_group_id r)) old;
  ro_new : Forall (storable (repo_group_id r)) (pending_updates r ++ pending_inserts r);
}.

Definition repo_rep (r : Repo) (base : Z) (l : list PriorEpoch) : Prop := exists old, repo_over r base old l.

Lemma decode_record e rec : wf e -> record_of e rec -> mls_decode pec (rec_data rec) = Ok (e, []).
Proof.
  intros He [_ Hb]. pose proof (enc_spec (c := pec) e He) as Hg. unfold enc_good, mls_encode_to_vec in *.
  rewrite Hb in Hg. destruct Hg as (_ & _ & Hd). specialize (Hd [] (Forall_nil_2 _)). by rewrite app_nil_r in Hd.
Qed.

(** Writing the caches to the records of the group. *)
Lemma encode_records_spec gid l : Forall (storable gid) l ->
  exists recs, encode_records pec l = Ok recs /\ Forall2 record_of l recs.
Proof.
  induction 1 as [|e l (_ & _ & b & Hb) _ (recs & Hrecs & Hall)]; [by exists []|].
  exists (mk_record (epoch_id e) b :: recs). simpl. rewrite Hb. simpl. rewrite Hrecs. split; [done|].
  constructor; [by split|done].
Qed.

Lemma foldl_insert_data recs d :
  epoch_data (foldl (fun d e => insert_epoch e d) d recs) = epoch_data d ++ recs /\
  state_data (foldl (fun d e => insert_epoch e d) d recs) = state_data d.
Proof.
  revert d. induction recs as [|rec recs IH]; intros d; simpl; [by rewrite app_nil_r|].
  destruct (IH (insert_epoch rec d)) as [-> ->]. simpl. by rewrite <- app_assoc.
Qed.

Lemma update_epoch_spec base m d u rec : Forall2 record_of m (epoch_data d) -> consecutive base m -> record_of u rec ->
  Forall2 record_of (overlay [u] <$> m) (epoch_data (update_epoch rec d)) /\ state_data (update_epoch rec d) = state_data d.
Proof.
  intros Hm Hids Hu. unfold update_epoch, get_epoch_data_index. pose proof Hu as [Huid _].
  assert (forall x, overlay [u] x = if epoch_id u =? epoch_id x then u else x) as Ho.
  { intros x. unfold overlay. simpl. by destruct (_ =? _). }
  assert (forall i : nat, (forall k x, m !! k = Some x -> epoch_id u = epoch_id x <-> k = i) ->
    Forall2 record_of (overlay [u] <$> m) (<[i:=rec]> (epoch_data d))) as Hset.
  { intros i Hi. apply Forall2_same_length_lookup. split; [by rewrite length_fmap, length_insert; eapply Forall2_length|].
    intros k x y Hx Hy. apply list_lookup_fmap_Some in Hx as (x' & -> & Hx). rewrite Ho.
    destruct (Z.eqb_spec (epoch_id u) (epoch_id x')) as [Heq|Hne].
    - apply (Hi _ _ Hx) in Heq as ->. by apply list_lookup_insert_Some in Hy as [(_ & <- & _)|(Hne & _)].
    - rewrite list_lookup_insert_ne in Hy by (intros ->; apply Hne; by apply (Hi _ _ Hx)). by eapply Forall2_lookup_lr. }
  assert ((forall x, x ∈ m -> epoch_id u <> epoch_id x) -> Forall2 record_of (overlay [u] <$> m) (epoch_data d)) as Hsame.
  { intros Hne. replace (overlay [u] <$> m) with m; [done|]. symmetry. rewrite <- (list_fmap_id m) at 2.
    apply list_fmap_ext. intros i x Hx. rewrite Ho. destruct (Z.eqb_spec (epoch_id u) (epoch_id x)) as [E|]; [|done].
    by destruct (Hne x (list_elem_of_lookup_2 _ _ _ Hx)). }
  destruct (epoch_data d) as [|rec0 recs] eqn:Hd; [split; [rewrite Hd; apply Hsame|done]|].
  { apply Forall2_nil_inv_r in Hm as ->. by intros x ?%elem_of_nil. }
  assert (rec_id rec0 = base) as ->.
  { destruct (Forall2_lookup_r _ _ _ 0%nat rec0 Hm eq_refl) as (e0 & He0 & -> & _). rewrite (Hids _ _ He0). lia. }
  rewrite Huid. destruct (Z.leb_spec base (epoch_id u)); simpl; (split; [|done]).
  - unfold zset. destruct (Z.ltb_spec (epoch_id u - base) 0); [lia|]. apply Hset. intros k x Hx. rewrite (Hids _ _ Hx). lia.
  - rewrite Hd. apply Hsame. intros x [k Hk]%list_elem_of_lookup. rewrite (Hids _ _ Hk). lia.
Qed.

Lemma foldl_update_data base us recs m d : Forall2 record_of us recs -> NoDup (epoch_id <$> us) ->
  Forall2 record_of m (epoch_data d) -> consecutive base m ->
  Forall2 record_of (overlay us <$> m) (epoch_data (foldl (fun d e => update_epoch e d) d recs)) /\
  state_data (foldl (fun d e => update_epoch e d) d recs) = state_data d.
Proof.
  intros Hus. revert m d. induction Hus as [|u rec us recs Hu Hus IH]; intros m d Hnd Hm Hids; simpl.
  { split; [|done]. by replace (overlay [] <$> m) with m by (symmetry; apply list_fmap_id). }
  rewrite fmap_cons in Hnd. apply NoDup_cons in Hnd as [Hu' Hnd].
  destruct (update_epoch_spec base m d u rec Hm Hids Hu) as [Hm' Hs'].
  destruct (IH (overlay [u] <$> m) (update_epoch rec d) Hnd Hm') as [Hf ->]; [apply consecutive_fmap; [apply overlay_id|done]|].
  split; [|done]. rewrite <- list_fmap_compose in Hf.
  replace (overlay (u :: us) <$> m) with (overlay us ∘ overlay [u] <$> m); [done|]. apply list_fmap_ext. intros i x _.
  symmetry. apply overlay_cons. intros v Hv E. apply Hu'. apply list_elem_of_fmap. by exists v.
Qed.

Section lookups.
Context (r : Repo) (base : Z) (old l : list PriorEpoch) (Hr : repo_over r base old l).

Lemma old_ids : consecutive base old.
Proof.
  intros i e He. destruct Hr as [_ -> Hids _ _ _ _].
  rewrite <- (overlay_id (pending_updates r)). apply Hids. rewrite lookup_app_l.
  - by rewrite list_lookup_fmap, He.
  - rewrite length_fmap. by eapply lookup_lt_Some.
Qed.

Lemma contents_length : zlen l = Z.of_nat (length old) + zlen (pending_inserts r).
Proof. rewrite (ro_contents _ _ _ _ Hr), zlen_app. unfold zlen at 1. by rewrite length_fmap. Qed.

Lemma contents_old id : id < base + Z.of_nat (length old) ->
  zget l (id - base) = overlay (pending_updates r) <$> zget old (id - base).
Proof.
  intros Hid. rewrite (ro_contents _ _ _ _ Hr), zget_app_l by (unfold zlen; rewrite length_fmap; lia).
  unfold zget. destruct (_ <? _); [done|]. apply list_lookup_fmap.
Qed.

Lemma contents_new id : base + Z.of_nat (length old) <= id ->
  zget l (id - base) = zget (pending_inserts r) (id - (base + Z.of_nat (length old))).
Proof.
  intros Hid. rewrite (ro_contents _ _ _ _ Hr), zget_app_r by (unfold zlen; rewrite length_fmap; lia).
  f_equal. unfold zlen. rewrite length_fmap. lia.
Qed.

Lemma first_insert_id e : head (pending_inserts r) = Some e -> epoch_id e = base + Z.of_nat (length old).
Proof.
  intros He. assert (zget l (base + Z.of_nat (length old) - base) = Some e) as Hz.
  { rewrite contents_new by lia. replace (_ - _) with 0 by lia. by destruct (pending_inserts r). }
  replace (_ - base) with (Z.of_nat (length old)) in Hz by lia. rewrite zget_nth in Hz.
  by apply (ro_ids _ _ _ _ Hr).
Qed.

Lemma pending_found id i : find_pending id r = Some i ->
  zget l (id - base) = zget (pending_updates r) i /\ is_Some (zget (pending_updates r) i).
Proof.
  intros Hi. unfold find_pending in Hi. pose proof (find_position_find (fun ep => epoch_id ep =? id) (pending_updates r)) as H.
  rewrite Hi in H. destruct H as (u & Hu & Hf). apply List.find_some in Hf as [Hin%list_elem_of_In Hid%Z.eqb_eq].
  rewrite Hu. split; [|done]. destruct (ro_updates _ _ _ _ Hr u Hin) as [Hlt Hge]. subst id.
  rewrite contents_old by lia. destruct (zget_is_Some old (epoch_id u - base)) as [e He]; [unfold zlen; lia|].
  rewrite He. simpl. f_equal. apply overlay_in; [apply Hr|done|].
  pose proof (zget_Some_bound _ _ _ He). rewrite <- (Z2Nat.id (epoch_id u - base)), zget_nth in He by lia.
  rewrite (old_ids _ _ He). lia.
Qed.

Lemma pending_missing id : find_pending id r = None -> id < base + Z.of_nat (length old) ->
  zget l (id - base) = zget old (id - base) /\ (forall u, u ∈ pending_updates r -> epoch_id u <> id).
Proof.
  intros Hi Hid. unfold find_pending in Hi. pose proof (find_position_find (fun ep => epoch_id ep =? id) (pending_updates r)) as H.
  rewrite Hi in H. assert (forall u, u ∈ pending_updates r -> epoch_id u <> id) as Hne.
  { intros u Hu%list_elem_of_In He. pose proof (List.find_none _ _ H u Hu). simpl in *. lia. }
  split; [|done]. rewrite contents_old by done. destruct (zget old (id - base)) as [e|] eqn:He; [|done]. simpl. f_equal.
  apply overlay_out. pose proof (zget_Some_bound _ _ _ He). rewrite <- (Z2Nat.id (id - base)), zget_nth in He by lia.
  rewrite (old_ids _ _ He). intros u Hu. rewrite Z2Nat.id by lia. replace (base + (id - base)) with id by lia. by apply Hne.
Qed.

(** What the storage answers. *)
Lemma stored_epoch gid id : gid = repo_group_id r ->
  exists o, st_epoch (repo_storage r) gid id = Ok o /\
    match zget old (id - base) with
    | Some e => exists b, o = Some b /\ mls_decode pec b = Ok (e, [])
    | None => o = None
    end.
Proof.
  intros ->. pose proof (ro_stored _ _ _ _ Hr) as Hs. pose proof old_ids as Hids. unfold stored in Hs. eexists. split; [done|].
  destruct (inner (repo_storage r) !! repo_group_id r) as [d|]; simpl.
  2:{ apply Forall2_nil_inv_r in Hs as ->. unfold zget. destruct (_ <? _); [done|]. done. }
  unfold data_get_epoch, get_epoch_data_index.
  assert (zget (epoch_data d) (id - base) = None <-> zget old (id - base) = None) as Hnone.
  { rewrite !zget_None. unfold zlen. by rewrite (Forall2_length _ _ _ Hs). }
  destruct (epoch_data d) as [|rec0 recs] eqn:Hd; simpl.
  { destruct (zget old (id - base)); [|done]. destruct Hnone as [Hn _]. discriminate Hn. unfold zget. by destruct (_ <? _). }
  assert (rec_id rec0 = base) as ->.
  { destruct (Forall2_lookup_r _ _ _ 0%nat rec0 Hs eq_refl) as (e0 & He0 & -> & _). rewrite (Hids _ _ He0). lia. }
  destruct (zget old (id - base)) as [e|] eqn:He.
  - pose proof (zget_Some_bound _ _ _ He). destruct (Z.leb_spec base id); [|lia]. simpl.
    unfold zget in *. destruct (Z.ltb_spec (id - base) 0); [lia|].
    destruct (Forall2_lookup_l _ _ _ _ _ Hs He) as (rec & -> & Hro). simpl. eexists. split; [done|].
    apply decode_record; [|done]. pose proof (ro_old _ _ _ _ Hr) as Hold. rewrite Forall_lookup in Hold. by apply (Hold _ _ He).
  - destruct (base <=? id); [|done]. simpl. by rewrite (proj2 Hnone eq_refl).
Qed.

Lemma old_storable e : e ∈ old -> storable (repo_group_id r) e.
Proof. intros He. pose proof (ro_old _ _ _ _ Hr) as H. rewrite Forall_forall in H. by apply H. Qed.

(** Caching a stored epoch that has no changed version. *)
Lemma cache_epoch id e : find_pending id r = None -> id < base + Z.of_nat (length old) -> zget old (id - base) = Some e ->
  repo_over (set_pending_updates (pending_updates r ++ [e]) r) base old l.
Proof.
  intros Hi Hid He. destruct (pending_missing id Hi Hid) as [_ Hne].
  pose proof (zget_Some_bound _ _ _ He) as Hb. pose proof He as He'.
  rewrite <- (Z2Nat.id (id - base)), zget_nth in He' by lia. pose proof (old_ids _ _ He') as Heid.
  apply list_elem_of_lookup_2 in He'. destruct Hr as [Hs Hc Hids Hnd Hup Ho Hn].
  split; simpl; try done.
  - rewrite Hc. f_equal. apply list_fmap_ext. intros i x Hx. unfold overlay. rewrite find_app. simpl.
    destruct (List.find _ _) as [u|] eqn:Hf; [done|]. destruct (Z.eqb_spec (epoch_id e) (epoch_id x)) as [Heq|]; [|done].
    simpl. assert (Some x = Some e) as [=]; [|done].
    rewrite <- He, <- Hx. unfold zget. destruct (Z.ltb_spec (id - base) 0); [lia|]. f_equal. rewrite (old_ids _ _ Hx) in Heq. lia.
  - rewrite fmap_app. apply NoDup_app. split; [done|]. split; [|apply NoDup_singleton].
    intros y (u & -> & Hu)%list_elem_of_fmap Hin. apply list_elem_of_singleton in Hin. apply (Hne u Hu). lia.
  - intros u [Hu|Hu%list_elem_of_singleton]%elem_of_app; [by apply Hup|]. subst u. unfold zlen in Hb. lia.
  - rewrite Forall_app in Hn |- *. destruct Hn as [Hn1 Hn2]. split; [|done]. apply Forall_app. split; [done|].
    apply Forall_singleton. by apply old_storable.
Qed.

(** The two places where an epoch is searched agree on the window. *)
Lemma before_inserts id : id < base + Z.of_nat (length old) \/ pending_inserts r = [] ->
  find_pending id r = None -> zget l (id - base) = zget old (id - base).
Proof.
  intros Hcase Hi. destruct (zget old (id - base)) as [e|] eqn:He.
  - pose proof (zget_Some_bound _ _ _ He) as Hb. unfold zlen in Hb.
    destruct (pending_missing id Hi) as [-> _]; [lia|done].
  - destruct Hcase as [Hlt|Hnil]; [by destruct (pending_missing id Hi Hlt) as [-> _]|].
    apply zget_None in He. apply zget_None. rewrite contents_length, Hnil. unfold zlen in *. simpl. lia.
Qed.

Lemma first_insert_cases (P : Prop) id :
  (forall first, head (pending_inserts r) = Some first -> epoch_id first = base + Z.of_nat (length old) ->
    epoch_id first <= id -> zget l (id - base) = zget (pending_inserts r) (id - epoch_id first) -> P) ->
  (id < base + Z.of_nat (length old) \/ pending_inserts r = [] ->
   match head (pending_inserts r) with Some first => (epoch_id first <=? id) = false | None => True end -> P) -> P.
Proof.
  intros Hin Hout. destruct (head (pending_inserts r)) as [first|] eqn:Hf.
  - pose proof (first_insert_id _ Hf) as Hid. destruct (Z.leb_spec (epoch_id first) id) as [Hle|Hgt].
    + apply (Hin first); [done..|]. rewrite Hid in *. apply contents_new. lia.
    + apply Hout; [lia|done].
  - apply Hout; [right; by destruct (pending_inserts r)|done].
Qed.

(** What [get_epoch_mut] answers for the epoch [id], in the state [r']. *)
Definition epoch_found (id : Z) (o : option Slot) (r' : Repo) : Prop :=
  repo_over r' base old l /\ repo_group_id r' = repo_group_id r /\
  match o with
  | Some s => slot_get s r' = zget l (id - base) /\ is_Some (slot_get s r')
  | None => zget l (id - base) = None /\ r' = r
  end.

Lemma epoch_from_storage_spec id : id < base + Z.of_nat (length old) \/ pending_inserts r = [] ->
  exists o r', epoch_from_storage pec id r = (Ok o, r') /\ epoch_found id o r'.
Proof.
  intros Hcase. unfold epoch_from_storage. rewrite sm_get_run. destruct (find_pending id r) as [i|] eqn:Hi.
  { exists (Some (InUpdates i)), r. destruct (pending_found id i Hi). split; [done|]. split; [done|]. by split. }
  pose proof (before_inserts id Hcase Hi) as Hz.
  destruct (stored_epoch _ id eq_refl) as (o & Ho & Hd). rewrite (sm_lift_run _ _ _ o) by (by rewrite Ho).
  destruct (zget old (id - base)) as [e|] eqn:He.
  - pose proof (zget_Some_bound _ _ _ He) as Hb. unfold zlen in Hb. destruct Hd as (b & -> & Hd).
    rewrite (sm_lift_run _ _ _ (e, [])) by (by rewrite Hd). rewrite sm_modify_run.
    eexists _, _. split; [done|]. split; [eapply cache_epoch; [done|lia|done]|]. split; [done|]. simpl.
    rewrite zget_app_r, Z.sub_diag, Hz by lia. done.
  - subst o. exists None, r. split; [done|]. split; [done|]. by split.
Qed.

Lemma get_epoch_mut_spec id : exists o r', get_epoch_mut pec id r = (Ok o, r') /\ epoch_found id o r'.
Proof.
  unfold get_epoch_mut. rewrite sm_get_run. apply (first_insert_cases _ id).
  - intros first -> Hid Hle Hz. destruct (Z.leb_spec (epoch_id first) id); [|lia].
    eexists _, _. split; [done|]. split; [done|]. split; [done|]. rewrite Hz.
    destruct (Z.ltb_spec (id - epoch_id first) (zlen (pending_inserts r))); simpl.
    + split; [done|]. apply zget_is_Some. lia.
    + split; [|done]. apply zget_None. lia.
  - intros Hcase Hh. pose proof (epoch_from_storage_spec id Hcase). destruct (head (pending_inserts r)); [by rewrite Hh|done].
Qed.

Lemma resumption_spec psk : psk_group_id psk = repo_group_id r ->
  repo_resumption_secret pec psk r = Ok (resumption_secret ∘ pe_secrets <$> zget l (psk_epoch psk - base)).
Proof.
  intros Hg. unfold repo_resumption_secret. apply (first_insert_cases _ (psk_epoch psk)).
  { intros first -> Hid Hle ->. destruct (Z.leb_spec (epoch_id first) (psk_epoch psk)); [done|lia]. }
  intros Hcase Hh. replace (match head (pending_inserts r) with Some _ => _ | None => _ end) with (resumption_from_storage pec psk r)
    by (destruct (head (pending_inserts r)); [by rewrite Hh|done]).
  unfold resumption_from_storage. destruct (find_pending (psk_epoch psk) r) as [i|] eqn:Hi.
  { destruct (pending_found _ i Hi) as [-> [u ->]]. done. }
  rewrite (before_inserts _ Hcase Hi). destruct (stored_epoch _ (psk_epoch psk) Hg) as (o & -> & Hz). simpl.
  destruct (zget old (psk_epoch psk - base)) as [e|]; [|by subst o].
  destruct Hz as (b & -> & Hd). simpl. by rewrite Hd.
Qed.

(** [*get_epoch_mut(id)? = e']. *)
Lemma slot_set_spec s e e' : slot_get s r = Some e -> epoch_id e' = epoch_id e -> storable (repo_group_id r) e' ->
  repo_over (slot_set s e' r) base old (zset l (epoch_id e - base) e').
Proof.
  intros Hs Hid He'. pose proof old_ids as Hoids. destruct Hr as [Hst Hc Hids Hnd Hup Ho Hn].
  apply Forall_app in Hn as [Hn1 Hn2].
  destruct s as [i|i]; simpl in Hs; apply zget_nat_inv in Hs as (n & -> & Hn).
  - assert (epoch_id e = base + Z.of_nat (length old + n)) as Hee.
    { apply Hids. rewrite Hc, lookup_app_r; rewrite length_fmap; [|lia]. by rewrite Nat.add_comm, Nat.add_sub. }
    replace (epoch_id e - base) with (Z.of_nat (length old + n)) by lia. cbn [slot_set]. rewrite !zset_nth.
    split; simpl; try done.
    + rewrite Hc, insert_app_r_alt by (rewrite length_fmap; lia). do 2 f_equal. rewrite length_fmap. lia.
    + apply consecutive_insert; [done|]. lia.
    + apply Forall_app. split; [done|]. by apply Forall_insert.
  - destruct (Hup e) as [Hlt Hge]; [by eapply list_elem_of_lookup_2|].
    assert (exists k : nat, epoch_id e - base = Z.of_nat k /\ (k < length old)%nat) as (k & Hk & Hkl).
    { exists (Z.to_nat (epoch_id e - base)). lia. }
    rewrite Hk. cbn [slot_set]. rewrite !zset_nth. split; simpl; try done.
    + rewrite Hc, (overlay_insert base old _ n e e'), insert_app_l by (rewrite ?length_fmap; try done; lia).
      by replace (Z.to_nat (epoch_id e - base)) with k by lia.
    + apply consecutive_insert; [done|]. lia.
    + rewrite list_fmap_insert, list_insert_id; [done|]. by rewrite list_lookup_fmap, Hn, Hid.
    + intros u [j Hj]%list_elem_of_lookup. apply list_lookup_insert_Some in Hj as [(_ & <- & _)|(_ & Hj)].
      * rewrite Hid. by apply Hup, (list_elem_of_lookup_2 _ n).
      * by apply Hup, (list_elem_of_lookup_2 _ j).
    + apply Forall_app. split; [|done]. by apply Forall_insert.
Qed.

Lemma find_max_id_spec : find_max_id r = Ok (if decide (l = []) then None else Some (base + zlen l - 1)).
Proof.
  pose proof contents_length as Hlen. pose proof old_ids as Hoids. unfold find_max_id. unfold zlen in *.
  destruct (last (pending_inserts r)) as [e|] eqn:He.
  - pose proof (ro_contents _ _ _ _ Hr) as Hc. pose proof (ro_ids _ _ _ _ Hr) as Hids.
    destruct (pending_inserts r) as [|p ps] eqn:Hp; [done|]. rewrite last_lookup in He.
    rewrite decide_False by (rewrite Hc; by destruct (_ <$> _)). do 2 f_equal.
    simpl in He, Hlen. rewrite (Hids (length old + length ps)%nat e); [lia|].
    rewrite Hc, lookup_app_r; rewrite length_fmap; [|lia]. by rewrite Nat.add_comm, Nat.add_sub.
  - apply last_None in He. rewrite He in Hlen. simpl in Hlen. simpl. unfold from_storage_err. simpl. f_equal.
    pose proof (ro_stored _ _ _ _ Hr) as Hst. unfold stored in Hst.
    destruct (inner (repo_storage r) !! repo_group_id r) as [d|]; simpl.
    2:{ apply Forall2_nil_inv_r in Hst as ->. rewrite decide_True; [done|]. apply nil_length_inv. simpl in Hlen. lia. }
    pose proof (Forall2_length _ _ _ Hst) as Hl2. destruct (decide (l = [])) as [E|Hne].
    + rewrite E in Hlen. simpl in Hlen. destruct (epoch_data d); [done|]. simpl in Hl2. lia.
    + assert (length old <> 0)%nat as Hnz by (intros E; apply Hne, nil_length_inv; lia).
      destruct (last (epoch_data d)) as [rec|] eqn:Hlast; [|apply last_None in Hlast; rewrite Hlast in Hl2; simpl in Hl2; lia].
      simpl. f_equal. rewrite last_lookup in Hlast. destruct (Forall2_lookup_r _ _ _ _ _ Hst Hlast) as (e & Hx & -> & _).
      rewrite (Hoids _ _ Hx). lia.
Qed.

(** Inserting an epoch. *)
Lemma repo_insert_spec e : storable (pe_group_id e) e ->
  if negb (bool_decide (pe_group_id e = repo_group_id r)) then repo_insert e r = (Err GroupIdMismatch, r)
  else if negb (bool_decide (l = [])) && negb (epoch_id e =? wrap 64 (base + zlen l)) then repo_insert e r = (Err InvalidEpoch, r)
  else exists r', repo_insert e r = (Ok tt, r') /\ repo_group_id r' = repo_group_id r /\
    (l = [] \/ epoch_id e = base + zlen l ->
     repo_over r' (if bool_decide (l = []) then epoch_id e else base) old (l ++ [e])).
Proof.
  intros He. unfold repo_insert. rewrite sm_get_run. case_bool_decide as Hg; simpl; [|done].
  rewrite (sm_lift_run _ _ _ _ find_max_id_spec).
  assert (forall b, consecutive b l -> epoch_id e = b + zlen l -> (forall u, u ∈ pending_updates r -> epoch_id u < b + Z.of_nat (length old) /\ b <= epoch_id u) ->
    repo_over (set_pending_inserts (pending_inserts r ++ [e]) r) b old (l ++ [e])) as Hins.
  { intros b Hb Heid Hub. destruct Hr as [Hst Hc Hids Hnd Hup Ho Hn]. split; simpl; try done.
    - by rewrite Hc, app_assoc.
    - intros i x Hx. apply lookup_app_Some in Hx as [Hx|[Hle Hx]]; [by apply Hb|].
      apply list_lookup_singleton_Some in Hx as [Hi <-]. rewrite Heid. unfold zlen. lia.
    - rewrite app_assoc. apply Forall_app. split; [done|]. rewrite Hg in He. by apply Forall_singleton. }
  destruct (decide (l = [])) as [Hl|Hl].
  - rewrite bool_decide_true by done. simpl. eexists. split; [done|]. split; [done|]. intros _. apply Hins.
    + rewrite Hl. by intros i x Hx.
    + rewrite Hl. unfold zlen. simpl. lia.
    + intros u Hu. pose proof contents_length as Hlen. rewrite Hl in Hlen. unfold zlen in Hlen. simpl in Hlen.
      destruct (ro_updates _ _ _ _ Hr u Hu). lia.
  - rewrite bool_decide_false by done. simpl. replace (base + zlen l - 1 + 1) with (base + zlen l) by lia.
    destruct (_ =? _); simpl; [|done]. eexists. split; [done|]. split; [done|]. intros [?|Heid]; [done|].
    apply Hins; [apply Hr|done|]. apply Hr.
Qed.

(** Writing the repository to its storage. *)
Lemma repo_write_spec snapshot data : snapshot = Ok data -> 0 <= max_epoch_retention (repo_storage r) ->
  exists r', repo_write_to_storage pec snapshot (repo_group_id r) r = (Ok tt, r') /\
    repo_group_id r' = repo_group_id r /\
    let n := (length l - Z.to_nat (max_epoch_retention (repo_storage r)))%nat in
    repo_over r' (base + Z.of_nat n) (drop n l) (drop n l) /\
    pending_inserts r' = [] /\ pending_updates r' = [] /\
    st_state (repo_storage r') (repo_group_id r) = Ok (Some data) /\
    (forall gid, gid <> repo_group_id r -> inner (repo_storage r') !! gid = inner (repo_storage r) !! gid) /\
    max_epoch_retention (repo_storage r') = max_epoch_retention (repo_storage r) /\
    key_package_repo r' = match pending_key_package_removal r with
                          | Some ref => delete ref (key_package_repo r)
                          | None => key_package_repo r
                          end.
Proof.
  intros -> Hret. destruct Hr as [Hst Hc Hids Hnd Hup Ho Hn]. apply Forall_app in Hn as [Hn1 Hn2].
  destruct (encode_records_spec _ _ Hn2) as (ins & Hins & Hall2).
  destruct (encode_records_spec _ _ Hn1) as (upd & Hupd & Hall1).
  unfold repo_write_to_storage. rewrite sm_get_run, (sm_lift_run _ _ _ _ Hins), (sm_lift_run _ _ _ _ Hupd).
  rewrite (sm_lift_run _ _ _ data) by done.
  set (s' := memory_write (mk_stored_state (repo_group_id r) data) ins upd (repo_storage r)).
  rewrite (sm_bind_run _ _ _ tt (set_storage s' r)) by done.
  set (k' := match pending_key_package_removal r with Some ref => delete ref (key_package_repo r) | None => key_package_repo r end).
  rewrite (sm_bind_run _ _ _ tt (set_key_package_repo k' (set_storage s' r)))
    by (unfold k'; destruct (pending_key_package_removal r); [done|by destruct r]).
  rewrite sm_modify_run. eexists. split; [done|]. split; [done|]. simpl.
  set (d0 := match inner (repo_storage r) !! repo_group_id r with Some d => mk_group_data data (epoch_data d) | None => group_data_new data end).
  assert (epoch_data d0 = stored (repo_storage r) (repo_group_id r) /\ state_data d0 = data) as [Hd0 Hs0]
    by (unfold d0, stored; by destruct (inner _ !! _)).
  destruct (foldl_insert_data ins d0) as [Hd1 Hs1]. set (d1 := foldl (fun d e => insert_epoch e d) d0 ins) in *.
  destruct (foldl_update_data base _ _ (old ++ pending_inserts r) d1 Hall1 Hnd) as [Hd2 Hs2].
  { rewrite Hd1, Hd0. by apply Forall2_app. }
  { intros i x Hx. apply lookup_app_Some in Hx as [Hx|[Hle Hx]]; [by apply old_ids|]. apply Hids. rewrite Hc.
    rewrite lookup_app_r by (by rewrite length_fmap). by rewrite length_fmap. }
  set (d2 := foldl (fun d e => update_epoch e d) d1 upd) in *.
  assert (overlay (pending_updates r) <$> old ++ pending_inserts r = l) as Hl.
  { rewrite Hc, fmap_app. f_equal. rewrite <- (list_fmap_id (pending_inserts r)) at 2. apply list_fmap_ext. intros i x Hx.
    apply overlay_out. intros u [Hlt _]%Hup. unfold id. rewrite (Hids (length old + i)%nat x); [lia|].
    rewrite Hc, lookup_app_r by (rewrite length_fmap; lia). rewrite length_fmap. by rewrite Nat.add_comm, Nat.add_sub. }
  rewrite Hl in Hd2.
  assert (inner s' !! repo_group_id r = Some (trim_epochs (max_epoch_retention (repo_storage r)) d2)) as Hs'
    by apply lookup_insert_eq.
  set (n := (length l - Z.to_nat (max_epoch_retention (repo_storage r)))%nat).
  assert (Forall (storable (repo_group_id r)) l) as Hall.
  { rewrite Hc. apply Forall_app. split; [|done]. rewrite Forall_fmap. apply Forall_forall. intros x Hx. simpl.
    unfold overlay. destruct (List.find _ _) as [u|] eqn:Hf; simpl.
    - apply List.find_some in Hf as [Hf%list_elem_of_In _]. rewrite Forall_forall in Hn1. by apply Hn1.
    - by apply old_storable. }
  split; [|split; [done|split; [done|split; [|split; [|done]]]]].
  - split; simpl; try done.
    + unfold stored. rewrite Hs'. simpl. rewrite trim_drop by done. rewrite <- (Forall2_length _ _ _ Hd2). by apply Forall2_drop.
    + rewrite app_nil_r. symmetry. apply list_fmap_id.
    + intros i x Hx. rewrite lookup_drop in Hx. rewrite (Hids _ _ Hx). lia.
    + constructor.
    + by intros u ?%elem_of_nil.
    + by apply Forall_drop.
  - change (Ok (state_data <$> inner s' !! repo_group_id r) = (Ok (Some data) : res AnyError _)). rewrite Hs'. simpl.
    by rewrite Hs2, Hs1, Hs0.
  - intros gid Hgid. by apply lookup_insert_ne.
Qed.
End lookups.
End window.

(** ** Well-formed prior epochs *)

Section prior_epochs.
Context (values : gmap Z MessageKeyData -> list MessageKeyData) (entries : gmap Z SecretTreeNode -> list (Z * SecretTreeNode)).
Context (Hvalues : forall h, values h ≡ₚ (map_to_list h).*2) (Hentries : forall m, entries m ≡ₚ map_to_list m).

Definition epoch_secrets_wf (e : EpochSecrets) : Prop :=
  bytes_ok (resumption_secret e) /\ bytes_ok (sender_data_secret e) /\ secret_tree_wf (secret_tree e).

#[export] Instance epoch_secrets_codec_ok : CodecOk (epoch_secrets_codec values entries) epoch_secrets_wf.
Proof using Hvalues Hentries.
  pose proof (secret_tree_codec_ok values entries Hvalues Hentries). struct_ok.
Qed.

Definition prior_epoch_wf (e : PriorEpoch) : Prop :=
  group_context_wf (pe_context e) /\ leaf_index_wf (pe_self_index e) /\ epoch_secrets_wf (pe_secrets e) /\
  Forall (option_wf bytes_ok) (pe_signature_public_keys e).

#[export] Instance public_keys_codec_ok : CodecOk (vec_codec (option_codec byte_vec_codec)) (Forall (option_wf bytes_ok)).
Proof. apply (vec_codec_ok _ (option_wf bytes_ok)). Qed.

#[export] Instance prior_epoch_codec_ok : CodecOk (prior_epoch_codec values entries) prior_epoch_wf.
Proof using Hvalues Hentries. pose proof epoch_secrets_codec_ok. struct_ok. Qed.
End prior_epochs.

(** ** The properties *)

Section properties.
Context (pec : codec PriorEpoch) (wf : PriorEpoch -> Prop) `{!CodecOk pec wf}.
Notation Repo := (GroupStateRepository InMemoryGroupStateStorage (gmap bytes KeyPackageData)).

(** C18: the repository over the in-memory storage is a window of epochs with
    consecutive numbers.  [get_epoch_mut] finds every epoch of the window and no
    other, whether it is stored, cached or new, and what the caller writes
    through the reference replaces that epoch and no other; [insert] accepts the
    next epoch of the group and nothing else; writing to the storage keeps the
    window up to the retention limit, empties the caches, stores the state and
    leaves the other groups alone. *)
Theorem epoch_repository (r : Repo) (base : Z) (l : list PriorEpoch) (Hr : repo_rep pec wf r base l)
    (Hbase : 0 <= base) (Hret : 0 <= max_epoch_retention (repo_storage r)) :
  (forall id, exists o r', get_epoch_mut pec id r = (Ok o, r') /\ repo_rep pec wf r' base l /\
    match o with
    | None => zget l (id - base) = None /\ r' = r
    | Some s => exists e, slot_get s r' = Some e /\ zget l (id - base) = Some e /\
        forall e', epoch_id e' = id -> storable pec wf (repo_group_id r) e' ->
          repo_rep pec wf (slot_set s e' r') base (zset l (id - base) e')
    end) /\
  (forall e, storable pec wf (pe_group_id e) e -> base + zlen l < 2 ^ 64 ->
    if negb (bool_decide (pe_group_id e = repo_group_id r)) then repo_insert e r = (Err GroupIdMismatch, r)
    else if bool_decide (l = []) || (epoch_id e =? base + zlen l) then
      exists r', repo_insert e r = (Ok tt, r') /\ repo_rep pec wf r' (if bool_decide (l = []) then epoch_id e else base) (l ++ [e])
    else repo_insert e r = (Err InvalidEpoch, r)) /\
  (forall snapshot, exists r', repo_write_to_storage pec (Ok snapshot) (repo_group_id r) r = (Ok tt, r') /\
    let n := (length l - Z.to_nat (max_epoch_retention (repo_storage r)))%nat in
    repo_rep pec wf r' (base + Z.of_nat n) (drop n l) /\ pending_inserts r' = [] /\ pending_updates r' = [] /\
    st_state (repo_storage r') (repo_group_id r) = Ok (Some snapshot) /\
    forall gid, gid <> repo_group_id r -> inner (repo_storage r') !! gid = inner (repo_storage r) !! gid).
Proof using Type*.
  destruct Hr as [old Ho]. split_and!.
  - intros id. destruct (get_epoch_mut_spec pec wf r base old l Ho id) as (o & r' & Hrun & Ho' & Hg & H).
    exists o, r'. split; [done|]. split; [by exists old|]. destruct o as [s|]; [|done].
    destruct H as [Hz [e He]]. exists e. split; [done|]. split; [congruence|]. intros e' Hid Hst.
    assert (epoch_id e = id) as Heid.
    { rewrite He in Hz. symmetry in Hz. apply zget_nat_inv in Hz as (n & Hn & Hl).
      rewrite (ro_ids _ _ _ _ _ _ Ho _ _ Hl). lia. }
    exists old. rewrite <- Heid. eapply slot_set_spec; [done..|congruence|by rewrite Hg].
  - intros e He Hb. pose proof (repo_insert_spec pec wf r base old l Ho e He) as H.
    case_bool_decide; simpl in *; [|done].
    destruct (bool_decide (l = [])) eqn:Hl; simpl in *.
    + destruct H as (r' & Hrun & _ & Hw). exists r'. split; [done|]. exists old. apply Hw. left. by apply bool_decide_eq_true in Hl.
    + rewrite wrap_small in H by (split; [pose proof (zlen_nonneg l); lia|done]).
      destruct (Z.eqb_spec (epoch_id e) (base + zlen l)); simpl in *; [|done].
      destruct H as (r' & Hrun & _ & Hw). exists r'. split; [done|]. exists old. apply Hw. by right.
  - intros snapshot. destruct (repo_write_spec pec wf r base old l Ho (Ok snapshot) snapshot eq_refl Hret)
      as (r' & Hrun & _ & Hw & Hi & Hup & Hs & Hother & _).
    exists r'. split; [done|]. split; [by eexists|]. done.
Qed.

(** Resumption pre-shared keys.  A member with the state of its group and
    the repository of its epochs resolves the resumption pre-shared key of an
    epoch of that group to the resumption secret of that epoch: of the current
    epoch, or of an epoch of the repository's window; for any other epoch the
    answer is [OldGroupStateNotFound].  A list of identifiers resolves to one
    secret for each, in order, or fails with the error of the first that does
    not resolve. *)
Theorem psk_resolution {P} `{!PreSharedKeyStorage P} (ctx : GroupContext) (es : EpochSecrets) (r : Repo) (store : P) (base : Z)
    (l : list PriorEpoch) (Hr : repo_rep pec wf r base l) (Hctx : group_id ctx = repo_group_id r) :
  let rs := mk_resolver (Some ctx) (Some es) (Some r) store in
  (forall psk, psk_group_id psk = group_id ctx ->
    resolve_resumption pec rs psk =
      if epoch ctx =? psk_epoch psk then Ok (resumption_secret es)
      else ok_or OldGroupStateNotFound (resumption_secret ∘ pe_secrets <$> zget l (psk_epoch psk - base))) /\
  (forall ids inputs, resolve pec rs ids = Ok inputs <->
    Forall2 (fun id input => exists psk, input = mk_psk_input id psk /\
      match key_id id with
      | External external => pss_get store external = Ok (Some psk)
      | Resumption resumption => resolve_resumption pec rs resumption = Ok psk
      end) ids inputs).
Proof using Type*.
  destruct Hr as [old Ho]. intros rs. split_and!.
  - intros psk Hg. unfold resolve_resumption, rs. simpl. rewrite (bool_decide_true _ (eq_sym Hg)), andb_true_r.
    destruct (epoch ctx =? psk_epoch psk); [done|]. rewrite (resumption_spec pec wf r base old l Ho psk) by congruence. done.
  - induction ids as [|id ids IH]; intros inputs; simpl.
    { split; [by intros [= <-]|by intros ->%Forall2_nil_inv_l]. }
    rewrite bind_Ok. split.
    + intros (psk & Hpsk & (l' & Hl & [= <-])%bind_Ok). constructor; [|by apply IH]. exists psk. split; [done|].
      destruct (key_id id); [|done]. unfold resolve_external in Hpsk. by res_inv.
    + intros (input & l' & (psk & -> & Hpsk) & Hl & ->)%Forall2_cons_inv_l. exists psk. split.
      * destruct (key_id id); [|done]. unfold resolve_external, rs. simpl. by rewrite Hpsk.
      * apply IH in Hl. by rewrite Hl.
Qed.

(** The caches are searched by epoch number only: asked for the resumption
    secret of another group, the repository answers with the secret of the epoch
    of its own group that has the same number and awaits storage. *)
Theorem resumption_secret_wrong_group (r : Repo) (i : Z) (first e : PriorEpoch) (psk : ResumptionPsk) :
  head (pending_inserts r) = Some first -> zget (pending_inserts r) i = Some e -> psk_epoch psk = epoch_id first + i ->
  repo_resumption_secret pec psk r = Ok (Some (resumption_secret (pe_secrets e))).
Proof.
  intros Hf He Hid. unfold repo_resumption_secret. rewrite Hf, Hid. pose proof (zget_Some_bound _ _ _ He).
  destruct (Z.leb_spec (epoch_id first) (epoch_id first + i)); [|lia].
  replace (epoch_id first + i - epoch_id first) with i by lia. by rewrite He.
Qed.
End properties.

(** A repository whose group has just left the epoch 7. *)
Notation plain_codec := (prior_epoch_codec (fun h => (map_to_list h).*2) map_to_list).

Definition sample_epoch : PriorEpoch :=
  mk_prior_epoch sample_context 0 (mk_epoch_secrets [1] [2] (secret_tree_new 32 2 [3; 3; 3; 3])) [None; Some [5]].

Definition sample_repository : GroupStateRepository InMemoryGroupStateStorage (gmap bytes KeyPackageData) :=
  set_pending_inserts [sample_epoch] (repository_new [1; 2] memory_storage_new ∅ None).

Lemma sample_secret_tree_wf : secret_tree_wf (secret_tree_new 32 2 [3; 3; 3; 3]).
Proof. split; [|done]. apply map_Forall_singleton. split; [done|]. by repeat constructor. Qed.

Lemma sample_storable : storable plain_codec prior_epoch_wf [1; 2] sample_epoch.
Proof.
  split; [|split; [done|]].
  - split; [repeat first [done|split|constructor]|]. split; [done|]. split; [|by repeat constructor].
    split; [by repeat constructor|]. split; [by repeat constructor|]. apply sample_secret_tree_wf.
  - destruct (mls_encode_to_vec plain_codec sample_epoch) as [b| |] eqn:E; [by exists b|by vm_compute in E..].
Qed.

Lemma sample_repository_rep : repo_rep plain_codec prior_epoch_wf sample_repository 7 [sample_epoch].
Proof.
  exists []. split.
  - constructor.
  - done.
  - intros [|i] e; [by intros [= <-]|done].
  - constructor.
  - by intros u ?%elem_of_nil.
  - constructor.
  - apply Forall_singleton. apply sample_storable.
Qed.

Lemma epoch_repository_witness : exists r',
  repo_write_to_storage plain_codec (Ok [9]) [1; 2] sample_repository = (Ok tt, r') /\
  repo_rep plain_codec prior_epoch_wf r' 7 [sample_epoch] /\ pending_inserts r' = [].
Proof.
  pose proof (prior_epoch_codec_ok (fun h => (map_to_list h).*2) map_to_list (fun h => Permutation_refl _)
    (fun m => Permutation_refl _)) as Hok.
  destruct (epoch_repository plain_codec prior_epoch_wf sample_repository 7 [sample_epoch] sample_repository_rep
    ltac:(done) ltac:(done)) as (_ & _ & Hw).
  destruct (Hw [9]) as (r' & Hrun & Hrep & Hi & _). by exists r'.
Defined.

Lemma psk_resolution_witness :
  resolve_resumption (P := gmap bytes PreSharedKey) plain_codec
    (mk_resolver (Some (mk_group_context 1 1 [1; 2] 8 [3] [4] [])) (Some (mk_epoch_secrets [6] [2] (secret_tree_new 32 2 [3]))) (Some sample_repository) ∅)
    (mk_resumption_psk UsageApplication [1; 2] 7) = Ok [1].
Proof.
  pose proof (prior_epoch_codec_ok (fun h => (map_to_list h).*2) map_to_list (fun h => Permutation_refl _)
    (fun m => Permutation_refl _)) as Hok.
  destruct (psk_resolution plain_codec prior_epoch_wf (P := gmap bytes PreSharedKey) (mk_group_context 1 1 [1; 2] 8 [3] [4] [])
    (mk_epoch_secrets [6] [2] (secret_tree_new 32 2 [3])) sample_repository ∅ 7 [sample_epoch] sample_repository_rep eq_refl) as [H _].
  rewrite H; reflexivity.
Defined.

Lemma resumption_secret_wrong_group_witness :
  repo_resumption_secret plain_codec (mk_resumption_psk UsageApplication [99] 7) sample_repository = Ok (Some [1]).
Proof. apply (resumption_secret_wrong_group plain_codec _ 0 sample_epoch sample_epoch); reflexivity. Defined.
