(* ===== verification/Filtering.v ===== *)
(** * Filtering and applying the proposals of a commit

    The checks of a bundle of proposals and their application to the tree
    (mls-rs/src/group/proposal_filter/filtering.rs and filtering_common.rs), with
    the direction of a commit (mls-rs/src/group/mls_rules.rs).

    A sender filters: a proposal by reference that is not valid is dropped.  A
    receiver does not: any proposal that is not valid refuses the commit.  The
    filters work on the bundle of the caller or consume it; here they return the
    bundle that is left.  The checks of the new nodes run in parallel in the
    source, which reports one of the errors; the first one is reported here. *)

From S2P Require Import Prelude Codec Crypto TreeMath SecretTree Data NodeVec TreeIndex TreeHash ParentHash TreeInv Proposals TreeKem TreePath LeafNodes Kem Framing KeySchedule MessageProtection EpochStore.

#[local] Set Default Goal Selector "!".
Local Open Scope Z_scope.

Inductive CommitDirection := Send | Receive.
Inductive FilterStrategy := IgnoreByRef | IgnoreNone.

#[export] Instance FilterStrategy_eq_dec : EqDecision FilterStrategy.
Proof. solve_decision. Defined.

Definition strategy_from (d : CommitDirection) : FilterStrategy :=
  match d with Send => IgnoreByRef | Receive => IgnoreNone end.

Definition strategy_ignore (s : FilterStrategy) (by_ref : bool) : bool :=
  match s with IgnoreByRef => by_ref | IgnoreNone => false end.

Definition is_ignore (s : FilterStrategy) : bool :=
  match s with IgnoreByRef => true | IgnoreNone => false end.

Definition apply_strategy (s : FilterStrategy) (by_ref : bool) (r : mres unit) : mres bool :=
  match r with
  | Ok _ => Ok true
  | Err e => if strategy_ignore s by_ref then Ok false else Err e
  | Panic => Panic
  end.

(** [Result::and], its argument evaluated first. *)
Definition res_and {A} (a : mres unit) (b : mres A) : mres A :=
  match a, b with
  | Panic, _ | _, Panic => Panic
  | Err e, _ => Err e
  | Ok _, b => b
  end.

(** Run a method on a value that is returned when the method succeeds. *)
Definition sm_exec {S E A} (m : SM S E A) (s : S) : res E S :=
  match m s with (Ok _, s') => Ok s' | (Err e, _) => Err e | (Panic, _) => Panic end.

(** [iter.enumerate().filter_map(..).collect()]: the indices that fail a check. *)
Fixpoint bad_loop {A} (check : A -> mres bool) (i : Z) (l : list A) : mres (list Z) :=
  match l with
  | [] => Ok []
  | x :: l =>
      keep ← check x;
      bad ← bad_loop check (i + 1) l;
      Ok (if (keep : bool) then bad else i :: bad)
  end.

(** [bad_indices.into_iter().rev().for_each(|i| proposals.remove::<T>(i))]. *)
Definition remove_all (T : Type) `{Proposable T} (bad : list Z) (b : ProposalBundle) : ProposalBundle :=
  foldl (fun b i => bundle_remove T i b) b (reverse bad).

(** ** Who may propose what *)

Definition proposer_can_propose (proposer : Sender) (ty : Z) (source : ProposalSource) : mres unit :=
  let among := fun l => bool_decide (ty ∈ (l : list Z)) in
  let can_propose :=
    match proposer, source with
    | SenderMember _, ByValue | SenderMember _, Local_ =>
        among [PT_ADD; PT_REMOVE; PT_PSK; PT_RE_INIT; PT_GROUP_CONTEXT_EXTENSIONS]
    | SenderMember _, ByReference _ =>
        among [PT_ADD; PT_UPDATE; PT_REMOVE; PT_PSK; PT_RE_INIT; PT_GROUP_CONTEXT_EXTENSIONS]
    | SenderExternal _, ByValue => false
    | SenderExternal _, _ => among [PT_ADD; PT_REMOVE; PT_RE_INIT; PT_PSK; PT_GROUP_CONTEXT_EXTENSIONS]
    | NewMemberCommit, ByReference _ => false
    | NewMemberCommit, _ => among [PT_REMOVE; PT_PSK; PT_EXTERNAL_INIT]
    | NewMemberProposal, ByReference _ => among [PT_ADD]
    | NewMemberProposal, _ => false
    end in
  guard_or InvalidProposalTypeForSender can_propose.

(** [proposals.remove::<T>(i)], and for updates [update_senders.remove(i)]. *)
Definition remove_plain (T : Type) `{Proposable T} (i : Z) : SM ProposalBundle MlsError unit :=
  sm_modify (bundle_remove T i).

Definition remove_update (i : Z) : SM ProposalBundle MlsError unit :=
  _ ← sm_modify (bundle_remove UpdateProposal i);
  b ← sm_get;
  senders ← sm_lift (vec_remove i (update_senders b));
  sm_modify (set_update_senders senders).

(** [for i in (0..n).rev()]. *)
Fixpoint proposers_loop (strategy : FilterStrategy) (T : Type) `{Proposable T}
    (remove : Z -> SM ProposalBundle MlsError unit) (n : nat) : SM ProposalBundle MlsError unit :=
  match n with
  | O => mret tt
  | S n =>
      b ← sm_get;
      p ← sm_lift (unwrap (zget (bundle_filter b) (Z.of_nat n)));
      keep ← sm_lift (apply_strategy strategy (is_by_reference p) (proposer_can_propose (sender p) TYPE (source p)));
      _ ← (if (keep : bool) then mret tt else remove (Z.of_nat n));
      proposers_loop strategy T remove n
  end.

Definition proposers_of_type (strategy : FilterStrategy) (T : Type) `{Proposable T}
    (remove : Z -> SM ProposalBundle MlsError unit) : SM ProposalBundle MlsError unit :=
  b ← sm_get;
  proposers_loop strategy T remove (length (bundle_filter b)).

Definition filter_out_invalid_proposers (strategy : FilterStrategy) (b : ProposalBundle) : mres ProposalBundle :=
  sm_exec
    (_ ← proposers_of_type strategy AddProposal (remove_plain AddProposal);
     _ ← proposers_of_type strategy UpdateProposal remove_update;
     _ ← proposers_of_type strategy RemoveProposal (remove_plain RemoveProposal);
     _ ← proposers_of_type strategy PreSharedKeyProposal (remove_plain PreSharedKeyProposal);
     _ ← proposers_of_type strategy ReInitProposal (remove_plain ReInitProposal);
     _ ← proposers_of_type strategy ExternalInit (remove_plain ExternalInit);
     proposers_of_type strategy ExtensionList (remove_plain ExtensionList)) b.

(** ** The filters of the commit of a member *)

Definition filter_out_update_for_committer (strategy : FilterStrategy) (commit_sender : Z) (b : ProposalBundle) :
    mres ProposalBundle :=
  sm_exec (retain_by_type (fun p : ProposalInfo UpdateProposal =>
    apply_strategy strategy (is_by_reference p)
      (guard_or InvalidCommitSelfUpdate (negb (bool_decide (sender p = SenderMember commit_sender)))))) b.

Definition filter_out_removal_of_committer (strategy : FilterStrategy) (commit_sender : Z) (b : ProposalBundle) :
    mres ProposalBundle :=
  sm_exec (retain_by_type (fun p : ProposalInfo RemoveProposal =>
    apply_strategy strategy (is_by_reference p)
      (guard_or CommitterSelfRemoval (negb (to_remove (proposal p) =? commit_sender))))) b.

(** [contains], from [get]. *)
Definition psk_contains {P} `{PreSharedKeyStorage P} (store : P) (id : bytes) : mres bool :=
  (fun key : option PreSharedKey => match key with Some _ => true | None => false end) <$>
  map_err PskStoreError (pss_get store id).

Section psks.
Context {P : Type} `{!PreSharedKeyStorage P} `{CipherSuiteProvider}.
Context (strategy : FilterStrategy) (psk_storage : P).

Definition psk_valid (p : PreSharedKeyID) (is_new_id : bool) : mres unit :=
  let valid := match key_id p with
               | External _ => true
               | Resumption r => bool_decide (usage r = UsageApplication)
               end in
  let external_id_is_valid :=
    match key_id p with
    | External id => found ← psk_contains psk_storage id; guard_or MissingRequiredPsk found
    | Resumption _ => Ok tt
    end in
  match external_id_is_valid with
  | Panic => Panic
  | _ =>
      if negb valid then Err InvalidTypeOrUsageInPreSharedKeyProposal
      else if negb (zlen (psk_nonce p) =? kdf_extract_size) then Err InvalidPskNonceLength
      else if negb is_new_id then Err DuplicatePskIds
      else external_id_is_valid
  end.

(** The indices that are not valid; [seen] is the set of identifiers. *)
Fixpoint psks_loop (i : Z) (l : list (ProposalInfo PreSharedKeyProposal)) (seen : list PreSharedKeyID) : mres (list Z) :=
  match l with
  | [] => Ok []
  | p :: l =>
      let id := psk (proposal p) in
      keep ← apply_strategy strategy (is_by_reference p) (psk_valid id (negb (bool_decide (id ∈ seen))));
      bad ← psks_loop (i + 1) l (id :: seen);
      Ok (if (keep : bool) then bad else i :: bad)
  end.

Definition filter_out_invalid_psks (b : ProposalBundle) : mres ProposalBundle :=
  bad_indices ← psks_loop 0 (psks b) [];
  Ok (remove_all PreSharedKeyProposal bad_indices b).
End psks.

Section group_extensions.
Context {idp : IdentityProvider}.

Definition group_extensions_valid (ext : ExtensionList) (commit_time : option Z) : mres unit :=
  senders ← from_extension_error (ext_get_as EXT_EXTERNAL_SENDERS external_senders_codec ext);
  match senders with
  | None => Ok tt
  | Some senders => from_identity (verify_all senders commit_time ext)
  end.

Definition filter_out_invalid_group_extensions (strategy : FilterStrategy) (b : ProposalBundle)
    (commit_time : option Z) : mres ProposalBundle :=
  bad_indices ← bad_loop (fun p => apply_strategy strategy (is_by_reference p)
                            (group_extensions_valid (proposal p) commit_time)) 0 (group_context_extensions b);
  Ok (remove_all ExtensionList bad_indices b).
End group_extensions.

(** The closure of [filter_out_extra_group_context_extensions] replaces [found]
    by [true] at each call. *)
Definition filter_out_extra_group_context_extensions (strategy : FilterStrategy) (b : ProposalBundle) :
    mres ProposalBundle :=
  match group_context_extensions b with
  | [] => Ok b
  | first :: rest =>
      let '(r, kept) := retain_loop (fun p => apply_strategy strategy (is_by_reference p)
                                      (Err MoreThanOneGroupContextExtensionsProposal)) rest in
      _ ← r;
      Ok (set_group_context_extensions (first :: kept) b)
  end.

Definition filter_out_invalid_reinit (strategy : FilterStrategy) (b : ProposalBundle) (protocol_version : Z) :
    mres ProposalBundle :=
  sm_exec (retain_by_type (fun p : ProposalInfo ReInitProposal =>
    apply_strategy strategy (is_by_reference p)
      (guard_or InvalidProtocolVersionInReInit (protocol_version <=? ri_version (proposal p))))) b.

Definition filter_out_reinit_if_other_proposals (filter : bool) (b : ProposalBundle) : mres ProposalBundle :=
  let proposal_count := bundle_length b in
  let has_reinit_and_other_proposal := negb (zlen (reinitializations b) =? 0) && negb (proposal_count =? 1) in
  if has_reinit_and_other_proposal then
    let any_by_val := existsb is_by_value (reinitializations b) in
    if any_by_val || negb filter then Err OtherProposalWithReInit
    else if zlen (reinitializations b) <? proposal_count then Ok (set_reinitializations [] b)
    else Ok (set_reinitializations (take 1 (reinitializations b)) b)
  else Ok b.

Definition filter_out_external_init (strategy : FilterStrategy) (b : ProposalBundle) : mres ProposalBundle :=
  sm_exec (retain_by_type (fun p : ProposalInfo ExternalInit =>
    apply_strategy strategy (is_by_reference p) (Err InvalidProposalTypeForSender))) b.

Definition leaf_index_of_update_sender (p : ProposalInfo UpdateProposal) : mres Z :=
  match sender p with
  | SenderMember i => leaf_index_try_from i
  | _ => Err InvalidProposalTypeForSender
  end.

Definition filter_out_unsupported_custom_proposals (b : ProposalBundle) (tree : TreeKemPublic)
    (strategy : FilterStrategy) : mres ProposalBundle :=
  let supported_types := List.filter (can_support_proposal tree) (custom_proposal_types b) in
  sm_exec (retain_custom (fun p =>
    let ty := custom_proposal_type (proposal p) in
    apply_strategy strategy (is_by_reference p)
      (guard_or (UnsupportedCustomProposal ty) (bool_decide (ty ∈ supported_types))))) b.

Definition prepare_proposals_for_mls_rules (b : ProposalBundle) (direction : CommitDirection) (tree : TreeKemPublic) :
    mres ProposalBundle :=
  filter_out_unsupported_custom_proposals b tree (strategy_from direction).

(** ** Applying the proposals *)

Record ProposalApplier := mk_applier {
  original_tree : TreeKemPublic;
  original_context : GroupContext;
  external_leaf : option LeafNode;
}.

Record ApplyProposalsOutput := mk_apply_output {
  new_tree : TreeKemPublic;
  indexes_of_added_kpkgs : list Z;
  external_init_index : option Z;
  applied_proposals : ProposalBundle;
  new_context_extensions : option ExtensionList;
}.

Definition DEFAULT_PROPOSAL_TYPES : list Z :=
  [PT_ADD; PT_UPDATE; PT_REMOVE; PT_PSK; PT_RE_INIT; PT_EXTERNAL_INIT; PT_GROUP_CONTEXT_EXTENSIONS].

Definition ensure_exactly_one_external_init (b : ProposalBundle) : mres unit :=
  guard_or ExternalCommitMustHaveExactlyOneExternalInit (zlen (external_initializations b) =? 1).

Definition ensure_proposals_in_external_commit_are_allowed (b : ProposalBundle) : mres unit :=
  let unsupported := fun p : ProposalInfo Proposal =>
    negb (bool_decide (proposal_type (proposal p) ∈ [PT_EXTERNAL_INIT; PT_REMOVE; PT_PSK])) &&
    bool_decide (proposal_type (proposal p) ∈ DEFAULT_PROPOSAL_TYPES) &&
    negb (bool_decide (source p = Local_)) in
  match List.find unsupported (iter_proposals b) with
  | Some p => Err (InvalidProposalTypeInExternalCommit (proposal_type (proposal p)))
  | None => Ok tt
  end.

Definition ensure_no_proposal_by_ref (b : ProposalBundle) : mres unit :=
  guard_or OnlyMembersCanCommitProposalsByRef
    (forallb (fun p : ProposalInfo Proposal =>
       negb (bool_decide (proposal_type (proposal p) ∈ DEFAULT_PROPOSAL_TYPES)) || is_by_value p) (iter_proposals b)).

Section applier.
Context {idp : IdentityProvider} `{CipherSuiteProvider} {P : Type} `{!PreSharedKeyStorage P}.
Context (a : ProposalApplier) (psk_storage : P).

Definition ensure_removal_is_for_self (removal : RemoveProposal) (external_leaf : LeafNode) (tree : TreeKemPublic)
    (extensions : ExtensionList) : mres unit :=
  existing ← get_leaf_node tree (to_remove removal);
  ok ← from_identity (valid_successor (signing_identity existing) (signing_identity external_leaf) extensions);
  guard_or ExternalCommitRemovesOtherIdentity ok.

Definition ensure_at_most_one_removal_for_self (b : ProposalBundle) (external_leaf : LeafNode) (tree : TreeKemPublic)
    (extensions : ExtensionList) : mres unit :=
  match List.filter (fun p => negb (bool_decide (source p = Local_))) (removals b) with
  | [] => Ok tt
  | [removal] => ensure_removal_is_for_self (proposal removal) external_leaf tree extensions
  | _ => Err ExternalCommitWithMoreThanOneRemove
  end.

(** The checks run in parallel; the leaf is checked first when both fail. *)
Definition validate_new_node (ctx : MemberValidationContext) (key_package : KeyPackage) (commit_time : option Z) :
    mres unit :=
  res_and (check_if_valid ctx (kp_leaf_node key_package) (VAdd commit_time))
    (validate_key_package_properties key_package (protocol_version (original_context a))).

Definition valid_update (ctx : MemberValidationContext) (new_ext : ExtensionList) (commit_time : option Z)
    (p : ProposalInfo UpdateProposal) (sender_index : Z) (old_leaf : LeafNode) : mres unit :=
  let leaf := up_leaf_node (proposal p) in
  res_and
    (check_if_valid ctx leaf (VUpdate (group_id (original_context a)) sender_index commit_time))
    (valid ← from_identity (valid_successor (signing_identity old_leaf) (signing_identity leaf) new_ext);
     guard_or InvalidSuccessor valid).

Definition check_update (strategy : FilterStrategy) (ctx : MemberValidationContext) (new_ext : ExtensionList)
    (commit_time : option Z) (u : ProposalInfo UpdateProposal * Z) : mres bool :=
  let '(p, sender_index) := u in
  old_leaf ← get_leaf_node (original_tree a) sender_index;
  apply_strategy strategy (is_by_reference p) (valid_update ctx new_ext commit_time p sender_index old_leaf).

Definition check_add (strategy : FilterStrategy) (ctx : MemberValidationContext) (commit_time : option Z)
    (p : ProposalInfo AddProposal) : mres bool :=
  apply_strategy strategy (is_by_reference p) (validate_new_node ctx (key_package (proposal p)) commit_time).

(** [bad_indices.into_iter().rev().for_each(..)] over the updates. *)
Fixpoint remove_updates (bad : list Z) : SM ProposalBundle MlsError unit :=
  match bad with
  | [] => mret tt
  | i :: bad => _ ← remove_update i; remove_updates bad
  end.

Definition validate_new_nodes (strategy : FilterStrategy) (b : ProposalBundle) (new_ext : ExtensionList)
    (commit_time : option Z) : mres ProposalBundle :=
  let ctx := ForCommit (original_context a) new_ext in
  bad ← bad_loop (check_update strategy ctx new_ext commit_time) 0 (zip (updates b) (update_senders b));
  b ← sm_exec (remove_updates (reverse bad)) b;
  bad ← bad_loop (check_add strategy ctx commit_time) 0 (additions b);
  Ok (remove_all AddProposal bad b).

Definition apply_tree_changes (strategy : FilterStrategy) (b : ProposalBundle) (new_ext : ExtensionList)
    (commit_time : option Z) : mres ApplyProposalsOutput :=
  b ← validate_new_nodes strategy b new_ext commit_time;
  match batch_edit new_ext (is_ignore strategy) (mk_edit_state (original_tree a) b) with
  | (Ok added, s) =>
      Ok (mk_apply_output (es_tree s) added None (es_bundle s)
            (proposal <$> group_context_extensions_proposal (es_bundle s)))
  | (Err e, _) => Err e
  | (Panic, _) => Panic
  end.

(** [non_empty_leaves().try_for_each(..)]. *)
Fixpoint leaves_support (ctx : MemberValidationContext) (ls : list (Z * LeafNode)) : mres unit :=
  match ls with
  | [] => Ok tt
  | (_, l) :: ls =>
      _ ← validate_required_capabilities ctx l;
      _ ← validate_external_senders_ext_credentials ctx l;
      leaves_support ctx ls
  end.

Definition new_capabilities_supported (tree : TreeKemPublic) (ext : ExtensionList) : mres unit :=
  if has_extension ext EXT_REQUIRED_CAPABILITIES || has_extension ext EXT_EXTERNAL_SENDERS then
    leaves_support (ForCommit (original_context a) ext) (non_empty_leaves (nodes tree))
  else Ok tt.

Definition new_extensions_supported (tree : TreeKemPublic) (ext : ExtensionList) : mres unit :=
  match List.find (fun t => negb (forallb (fun '(_, l) => bool_decide (t ∈ cap_extensions (capabilities l)))
                                   (non_empty_leaves (nodes tree))))
          (List.filter (fun t => negb (ext_is_default t)) (extension_type <$> ext)) with
  | Some t => Err (UnsupportedGroupExtension t)
  | None => Ok tt
  end.

Definition apply_proposals_with_new_capabilities (strategy : FilterStrategy) (b : ProposalBundle)
    (gce : ProposalInfo ExtensionList) (commit_time : option Z) : mres ApplyProposalsOutput :=
  output ← apply_tree_changes strategy b (proposal gce) commit_time;
  match res_and (new_capabilities_supported (new_tree output) (proposal gce))
          (new_extensions_supported (new_tree output) (proposal gce)) with
  | Ok _ => Ok output
  | Err e =>
      if strategy_ignore strategy (is_by_reference gce) then
        apply_tree_changes strategy (set_group_context_extensions [] b) (gc_extensions (original_context a)) commit_time
      else Err e
  | Panic => Panic
  end.

Definition apply_proposal_changes (strategy : FilterStrategy) (b : ProposalBundle) (commit_time : option Z) :
    mres ApplyProposalsOutput :=
  match group_context_extensions_proposal b with
  | Some p => apply_proposals_with_new_capabilities strategy b p commit_time
  | None => apply_tree_changes strategy b (gc_extensions (original_context a)) commit_time
  end.

(** The filters of [apply_proposals_from_member]. *)
Definition filter_from_member (strategy : FilterStrategy) (commit_sender : Z) (b : ProposalBundle)
    (commit_time : option Z) : mres ProposalBundle :=
  b ← filter_out_invalid_proposers strategy b;
  b ← filter_out_update_for_committer strategy commit_sender b;
  senders ← mapM_res leaf_index_of_update_sender (updates b);
  b ← filter_out_removal_of_committer strategy commit_sender (set_update_senders senders b);
  b ← filter_out_invalid_psks strategy psk_storage b;
  b ← filter_out_invalid_group_extensions strategy b commit_time;
  b ← filter_out_extra_group_context_extensions strategy b;
  b ← filter_out_invalid_reinit strategy b (protocol_version (original_context a));
  b ← filter_out_reinit_if_other_proposals (is_ignore strategy) b;
  filter_out_external_init strategy b.

Definition apply_proposals_from_member (strategy : FilterStrategy) (commit_sender : Z) (b : ProposalBundle)
    (commit_time : option Z) : mres ApplyProposalsOutput :=
  b ← filter_from_member strategy commit_sender b commit_time;
  apply_proposal_changes strategy b commit_time.

Definition insert_external_leaf (tree : TreeKemPublic) (leaf : LeafNode) (extensions : ExtensionList) :
    mres (Z * TreeKemPublic) :=
  match add_leaf leaf extensions None tree with
  | (Ok i, t) => Ok (i, t)
  | (Err e, _) => Err e
  | (Panic, _) => Panic
  end.

Definition apply_proposals_from_new_member (b : ProposalBundle) (commit_time : option Z) : mres ApplyProposalsOutput :=
  leaf ← ok_or ExternalCommitMustHaveNewLeaf (external_leaf a);
  _ ← ensure_exactly_one_external_init b;
  _ ← ensure_at_most_one_removal_for_self b leaf (original_tree a) (gc_extensions (original_context a));
  _ ← ensure_proposals_in_external_commit_are_allowed b;
  _ ← ensure_no_proposal_by_ref b;
  b ← filter_out_invalid_proposers IgnoreNone b;
  b ← filter_out_invalid_psks IgnoreNone psk_storage b;
  output ← apply_proposal_changes IgnoreNone b commit_time;
  '(i, tree) ← insert_external_leaf (new_tree output) leaf (gc_extensions (original_context a));
  Ok (mk_apply_output tree (indexes_of_added_kpkgs output) (Some i) (applied_proposals output)
        (new_context_extensions output)).

Definition apply_proposals (strategy : FilterStrategy) (commit_sender : Sender) (b : ProposalBundle)
    (commit_time : option Z) : mres ApplyProposalsOutput :=
  match commit_sender with
  | SenderMember sender =>
      i ← leaf_index_try_from sender;
      apply_proposals_from_member strategy i b commit_time
  | NewMemberCommit => apply_proposals_from_new_member b commit_time
  | SenderExternal _ | NewMemberProposal => Err ExternalSenderCannotCommit
  end.
End applier.

(** * Correctness *)

(** ** Lists that are left by a filter *)

Definition valid {T} (chk : ProposalInfo T -> mres unit) (p : ProposalInfo T) : bool := is_ok (chk p).

(** [l'] is what the strategy leaves of [l]: the proposals that pass [chk], if
    those that do not may be ignored. *)
Definition left_by {T} (strategy : FilterStrategy) (chk : ProposalInfo T -> mres unit) (l l' : list (ProposalInfo T)) : Prop :=
  l' = List.filter (valid chk) l /\
  Forall (fun p => chk p = Ok tt \/ exists e, chk p = Err e /\ strategy_ignore strategy (is_by_reference p) = true) l.

(** [l'] is a part of [l], in its order, with the proposals by value; with a
    strict strategy it is all of [l]. *)
Record narrows {T} (s : FilterStrategy) (l l' : list (ProposalInfo T)) : Prop := {
  na_sublist : l' `sublist_of` l;
  na_by_value p : p ∈ l -> is_by_value p = true -> p ∈ l';
  na_strict : s = IgnoreNone -> l' = l;
}.

Lemma narrows_refl {T} s (l : list (ProposalInfo T)) : narrows s l l.
Proof. done. Qed.

Lemma narrows_trans {T} s (l1 l2 l3 : list (ProposalInfo T)) : narrows s l1 l2 -> narrows s l2 l3 -> narrows s l1 l3.
Proof. intros [H1 K1 E1] [H2 K2 E2]. split; [by etrans|auto|]. intros Hs. by rewrite E2, E1. Qed.

Lemma narrows_Forall {T} s (l l' : list (ProposalInfo T)) Q : narrows s l l' -> Forall Q l -> Forall Q l'.
Proof.
  intros [H _ _] HQ. rewrite Forall_forall in *. intros x Hx. apply HQ. by eapply elem_of_sublist.
Qed.

Lemma apply_strategy_Ok s r (b k : bool) : apply_strategy s b r = Ok k <->
  (r = Ok tt /\ k = true) \/ (exists e, r = Err e /\ strategy_ignore s b = true /\ k = false).
Proof.
  destruct r as [[]|e|]; simpl; [naive_solver| |naive_solver].
  destruct (strategy_ignore s b); split; naive_solver.
Qed.

Lemma ignore_by_value {T} s (p : ProposalInfo T) : is_by_value p = true -> strategy_ignore s (is_by_reference p) = false.
Proof. unfold is_by_value. by destruct (is_by_reference p), s. Qed.

Section left_by.
Context {T : Type} (s : FilterStrategy) (chk : ProposalInfo T -> mres unit).

Lemma left_by_nil : left_by s chk [] [].
Proof. by split. Qed.

Lemma left_by_cons p l l' : left_by s chk l l' ->
  forall k, apply_strategy s (is_by_reference p) (chk p) = Ok k -> left_by s chk (p :: l) (if k then p :: l' else l').
Proof.
  intros [-> H] k [[Hp ->]|(e & Hp & Hi & ->)]%apply_strategy_Ok; (split; [simpl; unfold valid; by rewrite Hp|]);
    constructor; eauto.
Qed.

Lemma left_by_valid l l' : left_by s chk l l' -> Forall (fun p => chk p = Ok tt) l'.
Proof.
  intros [-> H]. apply Forall_forall. intros p [Hp Hv]%list_elem_of_In%filter_In%and_comm. apply list_elem_of_In in Hv.
  rewrite Forall_forall in H. destruct (H p Hv) as [E|(e & E & _)]; [done|]. unfold valid in Hp. by rewrite E in Hp.
Qed.

(** A strict strategy leaves everything or fails. *)
Lemma left_by_strict l l' : s = IgnoreNone -> left_by s chk l l' <-> l' = l /\ Forall (fun p => chk p = Ok tt) l.
Proof.
  intros ->. unfold left_by. split.
  - intros [-> H]. assert (Forall (fun p => chk p = Ok tt) l) as Hall.
    { eapply Forall_impl; [exact H|]. intros p [E|(e & _ & E)]; done. }
    split; [|done]. clear H. induction Hall as [|p l Hp _ IH]; [done|]. simpl. unfold valid at 1. rewrite Hp. simpl. by f_equal.
  - intros [-> Hall]. split; [|eapply Forall_impl; [exact Hall|by left]].
    symmetry. induction Hall as [|p l Hp _ IH]; [done|]. simpl. unfold valid at 1. rewrite Hp. simpl. by f_equal.
Qed.

Lemma left_by_narrows l l' : left_by s chk l l' -> narrows s l l'.
Proof.
  intros Hl. pose proof Hl as [-> H]. split.
  - clear. induction l as [|p l IH]; [done|]. simpl. destruct (valid chk p); [by apply sublist_skip|by apply sublist_cons].
  - intros p Hp Hv. apply list_elem_of_In, filter_In. split; [by apply list_elem_of_In|].
    rewrite Forall_forall in H. destruct (H p Hp) as [E|(e & _ & Hi)]; [unfold valid; by rewrite E|].
    by rewrite ignore_by_value in Hi.
  - intros Hs. by apply left_by_strict.
Qed.

Lemma retain_left l r l' : retain_loop (fun p => apply_strategy s (is_by_reference p) (chk p)) l = (r, l') ->
  r = Ok tt <-> left_by s chk l l' /\ r = Ok tt.
Proof.
  revert r l'. induction l as [|p l IH]; intros r l'; simpl.
  { intros [= <- <-]. split; [split; [apply left_by_nil|done]|done]. }
  destruct (apply_strategy s (is_by_reference p) (chk p)) as [k|e|] eqn:E.
  - destruct (retain_loop _ l) as [r0 l0] eqn:E0. intros [= <- <-]. specialize (IH r0 l0 eq_refl). split; [|by intros []].
    intros ->. split; [|done]. by apply left_by_cons; [apply IH|].
  - destruct (retain_loop _ l) as [r0 l0]. intros [= <- <-]. split; [by destruct r0|by intros []].
  - intros [= <- <-]. split; [done|by intros []].
Qed.

Lemma retain_run l : Forall (fun p => chk p = Ok tt) l ->
  retain_loop (fun p => apply_strategy s (is_by_reference p) (chk p)) l = (Ok tt, l).
Proof. induction 1 as [|p l Hp _ IH]; [done|]. simpl. by rewrite Hp, IH. Qed.
End left_by.

Lemma sm_exec_Ok {S E A} (m : SM S E A) s s' : sm_exec m s = Ok s' <-> exists a, m s = (Ok a, s').
Proof. unfold sm_exec. destruct (m s) as [[a|e|] s1]; naive_solver. Qed.

Lemma retain_by_type_left {T} `{Proposable T} s (chk : ProposalInfo T -> mres unit) b b' :
  sm_exec (retain_by_type (fun p => apply_strategy s (is_by_reference p) (chk p))) b = Ok b' ->
  exists l, left_by s chk (bundle_filter b) l /\ b' = bundle_set l b.
Proof.
  rewrite sm_exec_Ok. unfold retain_by_type. intros (a & E).
  destruct (retain_loop _ (bundle_filter b)) as [r l] eqn:El. injection E as Er <-. destruct a. subst r.
  exists l. split; [|done]. by apply (retain_left s chk _ _ _ El).
Qed.

Lemma retain_by_type_run {T} `{ProposableLaws T} s (chk : ProposalInfo T -> mres unit) b :
  Forall (fun p => chk p = Ok tt) (bundle_filter b) ->
  sm_exec (retain_by_type (fun p => apply_strategy s (is_by_reference p) (chk p))) b = Ok (bundle_set (bundle_filter b) b).
Proof. intros Hall. unfold sm_exec, retain_by_type. by rewrite (retain_run s chk). Qed.

(** ** Indices to remove *)

Lemma bad_loop_bound {A} (check : A -> mres bool) i l bad : bad_loop check i l = Ok bad ->
  Forall (fun j => i <= j < i + zlen l) bad.
Proof.
  revert i bad. induction l as [|x l IH]; intros i bad E; simpl in E; [by injection E as <-|].
  apply bind_Ok in E as (k & _ & (bad' & E & [= <-])%bind_Ok). specialize (IH _ _ E).
  assert (zlen (x :: l) = zlen l + 1) as Hz by (unfold zlen; simpl; lia).
  assert (Forall (fun j => i <= j < i + zlen (x :: l)) bad') by (eapply Forall_impl; [exact IH|]; simpl; lia).
  destruct k; [done|]. constructor; [pose proof (zlen_nonneg l); lia|done].
Qed.

(** [Vec::remove] where it is in range. *)
Definition del {A} (j : Z) (l : list A) : list A := if j <? zlen l then delete (Z.to_nat j) l else l.

(** Removing the indices from the last to the first, counted from [i]. *)
Definition drop_at {A} (i : Z) (bad : list Z) (l : list A) : list A := foldr (fun j l => del (j - i) l) l bad.

Lemma drop_at_cons {A} i bad (x : A) l : Forall (fun j => i + 1 <= j) bad ->
  drop_at i bad (x :: l) = x :: drop_at (i + 1) bad l.
Proof.
  intros H. induction H as [|j bad Hj _ IH]; [done|]. cbn [drop_at foldr] in *. fold (drop_at i bad (x :: l)) (drop_at (i + 1) bad l) in *.
  rewrite IH. unfold del. assert (forall k : list A, zlen (x :: k) = zlen k + 1) as Hz by (intros; unfold zlen; simpl; lia).
  rewrite Hz. replace (j - (i + 1) <? zlen (drop_at (i + 1) bad l)) with (j - i <? zlen (drop_at (i + 1) bad l) + 1) by lia.
  destruct (_ <? _); [|done]. replace (Z.to_nat (j - i)) with (S (Z.to_nat (j - (i + 1)))) by lia. done.
Qed.

Lemma drop_at_here {A} i bad (x : A) l : Forall (fun j => i + 1 <= j) bad ->
  drop_at i (i :: bad) (x :: l) = drop_at (i + 1) bad l.
Proof.
  intros H. change (drop_at i (i :: bad) (x :: l)) with (del (i - i) (drop_at i bad (x :: l))). rewrite drop_at_cons by done.
  unfold del. rewrite Z.sub_diag. destruct (Z.ltb_spec 0 (zlen (x :: drop_at (i + 1) bad l))) as [|Hl]; [done|].
  unfold zlen in Hl. simpl in Hl. lia.
Qed.

Lemma remove_all_drop (T : Type) `{ProposableLaws T} bad b :
  remove_all T bad b = bundle_set (drop_at 0 bad (bundle_filter b)) b.
Proof.
  unfold remove_all. induction bad as [|j bad IH]; [simpl; by rewrite (set_filter (T := T) b)|].
  rewrite reverse_cons, foldl_app. cbn [foldl]. rewrite IH. unfold bundle_remove. rewrite filter_set.
  change (drop_at 0 (j :: bad) (bundle_filter b)) with (del (j - 0) (drop_at 0 bad (bundle_filter b))).
  unfold del. rewrite Z.sub_0_r.
  destruct (_ <? _); [by rewrite set_set|done].
Qed.

Lemma bad_loop_left {T} s (chk : ProposalInfo T -> mres unit) i l bad :
  bad_loop (fun p => apply_strategy s (is_by_reference p) (chk p)) i l = Ok bad ->
  left_by s chk l (drop_at i bad l).
Proof.
  revert i bad. induction l as [|p l IH]; intros i bad E; simpl in E; [injection E as <-; apply left_by_nil|].
  apply bind_Ok in E as (k & Ek & (bad' & E & [= <-])%bind_Ok).
  pose proof (bad_loop_bound _ _ _ _ E) as Hb.
  assert (Forall (fun j => i + 1 <= j) bad') as Hb' by (eapply Forall_impl; [exact Hb|]; simpl; lia).
  pose proof (left_by_cons s chk p l _ (IH _ _ E) k Ek) as Hl. destruct k; [by rewrite drop_at_cons|by rewrite drop_at_here].
Qed.

Lemma bad_loop_run {T} s (chk : ProposalInfo T -> mres unit) i l : Forall (fun p => chk p = Ok tt) l ->
  bad_loop (fun p => apply_strategy s (is_by_reference p) (chk p)) i l = Ok [].
Proof. intros H. revert i. induction H as [|p l Hp _ IH]; intros i; [done|]. simpl. by rewrite Hp, IH. Qed.

(** A strict check finds no bad index. *)
Lemma bad_loop_strict {A} (check : A -> mres bool) (good : A -> Prop) i l bad :
  (forall x k, check x = Ok k -> k = true /\ good x) -> bad_loop check i l = Ok bad -> bad = [] /\ Forall good l.
Proof.
  intros Hc. revert i bad. induction l as [|x l IH]; intros i bad E; simpl in E; [by injection E as <-|].
  apply bind_Ok in E as (k & [-> Hx]%Hc & (bad' & [-> Hl]%IH & [= <-])%bind_Ok). split; [done|]. by constructor.
Qed.

(** ** The filter of the proposers *)

Definition proposer_ok {T} `{Proposable T} (p : ProposalInfo T) : mres unit :=
  proposer_can_propose (sender p) TYPE (source p).

Lemma left_by_app {T} s (chk : ProposalInfo T -> mres unit) l1 l2 k1 k2 :
  left_by s chk l1 k1 -> left_by s chk l2 k2 -> left_by s chk (l1 ++ l2) (k1 ++ k2).
Proof. intros [-> H1] [-> H2]. split; [by rewrite List.filter_app|by apply Forall_app]. Qed.

Lemma senders_same b : set_update_senders (update_senders b) b = b.
Proof. by destruct b. Qed.

(** Removing a proposal may also remove an update sender. *)
Definition removes (T : Type) `{Proposable T} (remove : Z -> SM ProposalBundle MlsError unit) : Prop :=
  forall i b u b', remove i b = (Ok u, b') -> exists us, b' = set_update_senders us (bundle_remove T i b).

Lemma remove_plain_removes (T : Type) `{Proposable T} : removes T (remove_plain T).
Proof. intros i b u b' [= _ <-]. eexists. by rewrite senders_same. Qed.

Lemma remove_update_removes : removes UpdateProposal remove_update.
Proof.
  intros i b u b'. unfold remove_update. rewrite sm_modify_run, sm_get_run. unfold mbind, sm_bind, sm_lift.
  destruct (vec_remove _ _) as [us| |]; [|done..]. intros [= _ <-]. by exists us.
Qed.

Section proposers.
Context (s : FilterStrategy) (T : Type) `{ProposableLaws T} (remove : Z -> SM ProposalBundle MlsError unit).

Lemma proposers_loop_left n b u b' : removes T remove -> (n <= length (bundle_filter b))%nat ->
  proposers_loop s T remove n b = (Ok u, b') ->
  exists k us, left_by s proposer_ok (take n (bundle_filter b)) k /\
    b' = set_update_senders us (bundle_set (k ++ drop n (bundle_filter b)) b).
Proof.
  intros Hrem. revert b. induction n as [|n IH]; intros b Hn E.
  - injection E as _ <-. exists [], (update_senders b). split; [apply left_by_nil|]. simpl. by rewrite drop_0, set_filter, senders_same.
  - cbn [proposers_loop] in E. rewrite sm_get_run in E. set (l := bundle_filter b) in *.
    destruct (lookup_lt_is_Some_2 l n ltac:(lia)) as [p Hp].
    apply sm_bind_Ok in E as (p' & b0 & Ep & E). rewrite zget_nth, Hp in Ep. injection Ep as <- <-.
    apply sm_bind_Ok in E as (k & b0 & Ek & E). injection Ek as Ek <-.
    apply sm_bind_Ok in E as (v & b1 & Er & E). rewrite (take_S_r _ _ _ Hp).
    pose proof (left_by_cons s proposer_ok p [] [] (left_by_nil _ _) k Ek) as Hk.
    destruct k.
    + injection Er as _ <-. destruct (IH b ltac:(unfold l in *; lia) E) as (k & us & Hl & ->). exists (k ++ [p]), us.
      split; [by apply left_by_app|]. fold l. by rewrite (drop_S _ _ _ Hp), <- app_assoc.
    + apply Hrem in Er as (us1 & Hb1). unfold bundle_remove in Hb1. fold l in Hb1.
      destruct (Z.ltb_spec (Z.of_nat n) (zlen l)) as [_|Hge]; [|unfold zlen in Hge; lia]. rewrite Nat2Z.id in Hb1.
      assert (bundle_filter b1 = delete n l) as Hf by (by rewrite Hb1, filter_senders, filter_set).
      assert (n = length (take n l)) as Hlen by (rewrite length_take; pose proof (lookup_lt_Some _ _ _ Hp); lia).
      assert (take n (delete n l) = take n l) as Htk by (rewrite delete_take_drop; by apply take_app_length').
      assert (drop n (delete n l) = drop (S n) l) as Hdr by (rewrite delete_take_drop; by apply drop_app_length').
      destruct (IH b1) as (k & us & Hl & ->); [rewrite Hf, length_delete by eauto; lia|done|]. rewrite Hf, Htk, Hdr in *.
      exists (k ++ []), us. split; [by apply left_by_app|]. rewrite app_nil_r. rewrite Hb1, set_senders, set_set. by destruct b.
Qed.

Lemma proposers_of_type_left b u b' : removes T remove -> proposers_of_type s T remove b = (Ok u, b') ->
  exists k us, left_by s proposer_ok (bundle_filter b) k /\ b' = set_update_senders us (bundle_set k b).
Proof.
  intros Hrem E. unfold proposers_of_type in E. rewrite sm_get_run in E.
  apply proposers_loop_left in E as (k & us & Hl & ->); [|done|done]. rewrite firstn_all in Hl.
  exists k, us. split; [done|]. by rewrite drop_all, app_nil_r.
Qed.

Lemma proposers_of_type_run b : Forall (fun p => proposer_ok p = Ok tt) (bundle_filter b) ->
  proposers_of_type s T remove b = (Ok tt, b).
Proof.
  intros Hall. unfold proposers_of_type. rewrite sm_get_run. generalize (le_n (length (bundle_filter b))).
  generalize (length (bundle_filter b)) at 1 3. intros n. induction n as [|n IH]; intros Hn; [done|]. cbn [proposers_loop].
  rewrite sm_get_run. destruct (lookup_lt_is_Some_2 (bundle_filter b) n ltac:(lia)) as [p Hp].
  rewrite (sm_lift_run _ _ b p) by (by rewrite zget_nth, Hp).
  rewrite Forall_lookup in Hall. pose proof (Hall _ _ Hp) as Hok. unfold proposer_ok in Hok.
  rewrite (sm_lift_run _ _ b true) by (by rewrite Hok). apply IH. lia.
Qed.
End proposers.

Lemma proposer_no_panic {T} `{Proposable T} (p : ProposalInfo T) : proposer_ok p <> Panic.
Proof. unfold proposer_ok, proposer_can_propose. match goal with |- guard_or _ ?b <> _ => by destruct b end. Qed.

(** A loop that removes proposals of its type, and nothing else, does not panic,
    and succeeds if those that may not be proposed can be ignored. *)
Lemma plain_loop (s : FilterStrategy) (T : Type) `{ProposableLaws T} n : forall b, (n <= length (bundle_filter b))%nat ->
  exists r k, proposers_loop s T (remove_plain T) n b = (r, bundle_set k b) /\ r <> Panic /\
    (Forall (fun p => proposer_ok p = Ok tt \/ strategy_ignore s (is_by_reference p) = true) (bundle_filter b) -> r = Ok tt).
Proof.
  induction n as [|n IH]; intros b Hn; [exists (Ok tt), (bundle_filter b); by rewrite set_filter|].
  cbn [proposers_loop]. rewrite sm_get_run. destruct (lookup_lt_is_Some_2 (bundle_filter b) n ltac:(lia)) as [p Hp].
  rewrite (sm_lift_run _ _ b p) by (by rewrite zget_nth, Hp). fold (proposer_ok p).
  destruct (apply_strategy s (is_by_reference p) (proposer_ok p)) as [k|e|] eqn:Ek.
  - rewrite (sm_lift_run _ _ b k) by done. destruct k; [apply IH; lia|].
    rewrite (sm_bind_run _ _ b tt (bundle_remove T (Z.of_nat n) b)) by done. unfold bundle_remove at 1. pose proof (lookup_lt_Some _ _ _ Hp) as Hlt.
    destruct (Z.ltb_spec (Z.of_nat n) (zlen (bundle_filter b))) as [_|Hge]; [|unfold zlen in Hge; lia]. rewrite Nat2Z.id.
    destruct (IH (bundle_set (delete n (bundle_filter b)) b)) as (r & k & Er & Hr & Hok); [rewrite filter_set, length_delete by eauto; lia|].
    exists r, k. rewrite Er, set_set. split; [done|]. split; [done|]. intros Hall. apply Hok. rewrite filter_set.
    rewrite delete_take_drop. apply Forall_app. split; [by apply Forall_take|by apply Forall_drop].
  - exists (Err e), (bundle_filter b). rewrite set_filter. split; [done|]. split; [done|]. intros Hall.
    rewrite Forall_lookup in Hall. destruct (Hall _ _ Hp) as [E|E].
    + by rewrite E in Ek.
    + destruct (proposer_ok p); simpl in Ek; [done| |done]. by rewrite E in Ek.
  - exfalso. destruct (proposer_ok p) as [|e|] eqn:Eo; simpl in Ek; [done|by destruct (strategy_ignore _ _)|].
    by apply proposer_no_panic in Eo.
Qed.

Lemma plain_of_type (s : FilterStrategy) (T : Type) `{ProposableLaws T} b :
  exists r k, proposers_of_type s T (remove_plain T) b = (r, bundle_set k b) /\ r <> Panic /\
    (Forall (fun p => proposer_ok p = Ok tt \/ strategy_ignore s (is_by_reference p) = true) (bundle_filter b) -> r = Ok tt).
Proof. unfold proposers_of_type. rewrite sm_get_run. by apply plain_loop. Qed.

Definition never_panics {A} (m : SM ProposalBundle MlsError A) : Prop := forall b, (m b).1 <> Panic.

Lemma never_bind {A B} (m : SM ProposalBundle MlsError A) (f : A -> SM ProposalBundle MlsError B) :
  never_panics m -> (forall a, never_panics (f a)) -> never_panics (m ≫= f).
Proof.
  intros Hm Hf b. specialize (Hm b). unfold mbind, sm_bind. destruct (m b) as [[a|e|] b']; [apply Hf|done|done].
Qed.

Lemma plain_never (s : FilterStrategy) (T : Type) `{ProposableLaws T} : never_panics (proposers_of_type s T (remove_plain T)).
Proof. intros b. by destruct (plain_of_type s T b) as (r & k & -> & Hr & _). Qed.

(** Without senders stored, an update that may not be proposed cannot be removed. *)
Lemma updates_loop_panics n b : update_senders b = [] -> (n <= length (updates b))%nat ->
  Forall (fun p => is_by_reference p = true) (updates b) ->
  Exists (fun p => is_ok (proposer_ok p) = false) (take n (updates b)) ->
  exists b', proposers_loop IgnoreByRef UpdateProposal remove_update n b = (Panic, b').
Proof.
  intros Hs. induction n as [|n IH]; intros Hn Href Hex; [by apply Exists_nil in Hex|].
  cbn [proposers_loop]. rewrite sm_get_run. destruct (lookup_lt_is_Some_2 (updates b) n ltac:(lia)) as [p Hp].
  rewrite (sm_lift_run _ _ b p) by (change (bundle_filter b) with (updates b); by rewrite zget_nth, Hp). fold (proposer_ok p).
  rewrite Forall_lookup in Href. pose proof (Href _ _ Hp) as Hr. rewrite Hr.
  destruct (proposer_ok p) as [[]|e|] eqn:Eok.
  - rewrite (sm_lift_run _ _ b true) by done. apply IH; [lia|by apply Forall_lookup|].
    rewrite (take_S_r _ _ _ Hp) in Hex. apply Exists_app in Hex as [Hex|Hex]; [done|].
    apply Exists_cons in Hex as [Hex|Hex%Exists_nil]; [by rewrite Eok in Hex|done].
  - rewrite (sm_lift_run _ _ b false) by done. unfold remove_update. eexists. unfold mbind, sm_bind, sm_modify, sm_get, sm_lift.
    assert (vec_remove (Z.of_nat n) (update_senders (bundle_remove UpdateProposal (Z.of_nat n) b)) = Panic) as ->; [|reflexivity].
    assert (update_senders (bundle_remove UpdateProposal (Z.of_nat n) b) = []) as -> by (unfold bundle_remove; by destruct (_ <? _)).
    unfold vec_remove. by destruct (Z.ltb_spec (Z.of_nat n) (zlen (@nil Z))) as [Hlt|]; [unfold zlen in Hlt; simpl in Hlt; lia|].
  - eexists. unfold mbind, sm_bind, sm_lift. reflexivity.
Qed.

(** The sender of an update by reference must be a member. *)
Lemma update_proposer (p : ProposalInfo UpdateProposal) : is_by_reference p = true ->
  proposer_ok p = Ok tt <-> exists i, sender p = SenderMember i.
Proof.
  unfold is_by_reference, proposer_ok, proposer_can_propose. destruct (source p) as [|r|]; [done| |done]. intros _.
  destruct (sender p) as [i|i| |]; cbn; split; try done; by (intros [? ?] || (intros _; by exists i)).
Qed.

Lemma add_proposer (p : ProposalInfo AddProposal) i : sender p = SenderMember i -> proposer_ok p = Ok tt.
Proof. unfold proposer_ok, proposer_can_propose. intros ->. by destruct (source p). Qed.

Lemma proposers_panic b : update_senders b = [] ->
  (forall p, p ∈ additions b -> is_by_reference p = true \/ exists i, sender p = SenderMember i) ->
  (forall p, p ∈ updates b -> is_by_reference p = true) ->
  filter_out_invalid_proposers IgnoreByRef b = Panic <-> exists p, p ∈ updates b /\ forall i, sender p <> SenderMember i.
Proof.
  intros Hs Hadd Hup. unfold filter_out_invalid_proposers, sm_exec.
  destruct (plain_of_type IgnoreByRef AddProposal b) as (r & ka & E & _ & Hok).
  rewrite Hok in E; [clear r Hok|apply Forall_forall; intros p Hp; destruct (Hadd p Hp) as [Hr|[i Hi]]; [by right|left; by eapply add_proposer]].
  rewrite (sm_bind_run _ _ _ _ _ E). clear E. set (b1 := bundle_set ka b).
  assert (updates b1 = updates b) as Eu by done. assert (update_senders b1 = []) as Es by done.
  assert (Forall (fun p => is_by_reference p = true) (updates b1)) as Hall by (by apply Forall_forall).
  destruct (decide (Exists (fun p => is_ok (proposer_ok p) = false) (updates b1))) as [Hex|Hno].
  - destruct (updates_loop_panics (length (updates b1)) b1 Es) as (b' & E); [done|done|by rewrite firstn_all|].
    unfold mbind at 1, sm_bind at 1, proposers_of_type at 1. rewrite sm_get_run. change (bundle_filter b1) with (updates b1).
    rewrite E. split; [|done]. intros _. apply Exists_exists in Hex as (p & Hp & Hbad). exists p. split; [done|].
    intros i Hi. assert (proposer_ok p = Ok tt) as Ep by (apply update_proposer; [by apply Hup|by exists i]). by rewrite Ep in Hbad.
  - rewrite (sm_bind_run _ _ b1 tt b1); cycle 1.
    { apply proposers_of_type_run. apply Forall_forall. intros p Hp. destruct (proposer_ok p) as [[]|e|] eqn:Ep; [done|..].
      all: exfalso; apply Hno, Exists_exists; exists p; by rewrite Ep. }
    split.
    + intros Hpanic. exfalso. revert Hpanic.
      match goal with |- context [?m b1] => assert (never_panics m) as Hn by (repeat (apply never_bind; [apply plain_never; apply _|intros _]); apply plain_never; apply _);
        specialize (Hn b1); destruct (m b1) as [[]] end; done.
    + intros (p & Hp & Hbad). exfalso. apply Hno, Exists_exists. exists p. split; [done|].
      destruct (proposer_ok p) as [[]|e|] eqn:Ep; [|done..].
      apply update_proposer in Ep as (i & Hi); [by destruct (Hbad i)|by apply Hup].
Qed.

(** What the filter of the proposers leaves. *)
Lemma proposers_left s b b' : filter_out_invalid_proposers s b = Ok b' ->
  exists a u us r p ri ei g, b' = mk_bundle a u us r p ri ei g (custom_proposals b) /\
    left_by s proposer_ok (additions b) a /\ left_by s proposer_ok (updates b) u /\
    left_by s proposer_ok (removals b) r /\ left_by s proposer_ok (psks b) p /\
    left_by s proposer_ok (reinitializations b) ri /\ left_by s proposer_ok (external_initializations b) ei /\
    left_by s proposer_ok (group_context_extensions b) g.
Proof.
  unfold filter_out_invalid_proposers. rewrite sm_exec_Ok. intros (x & E).
  apply sm_bind_Ok in E as (? & b1 & E1 & E). apply sm_bind_Ok in E as (? & b2 & E2 & E). apply sm_bind_Ok in E as (? & b3 & E3 & E).
  apply sm_bind_Ok in E as (? & b4 & E4 & E). apply sm_bind_Ok in E as (? & b5 & E5 & E). apply sm_bind_Ok in E as (? & b6 & E6 & E).
  apply proposers_of_type_left in E1 as (a & us1 & Ha & ->); [|apply _|exact (remove_plain_removes AddProposal)].
  apply proposers_of_type_left in E2 as (u & us2 & Hu & ->); [|apply _|exact remove_update_removes].
  apply proposers_of_type_left in E3 as (r & us3 & Hr & ->); [|apply _|exact (remove_plain_removes RemoveProposal)].
  apply proposers_of_type_left in E4 as (p & us4 & Hp & ->); [|apply _|exact (remove_plain_removes PreSharedKeyProposal)].
  apply proposers_of_type_left in E5 as (ri & us5 & Hri & ->); [|apply _|exact (remove_plain_removes ReInitProposal)].
  apply proposers_of_type_left in E6 as (ei & us6 & Hei & ->); [|apply _|exact (remove_plain_removes ExternalInit)].
  apply proposers_of_type_left in E as (g & us7 & Hg & ->); [|apply _|exact (remove_plain_removes ExtensionList)].
  exists a, u, us7, r, p, ri, ei, g. by split_and!.
Qed.

(** All proposers may propose what they do. *)
Record proposers_ok (b : ProposalBundle) : Prop := {
  po_add : Forall (fun p => proposer_ok p = Ok tt) (additions b);
  po_update : Forall (fun p => proposer_ok p = Ok tt) (updates b);
  po_remove : Forall (fun p => proposer_ok p = Ok tt) (removals b);
  po_psk : Forall (fun p => proposer_ok p = Ok tt) (psks b);
  po_reinit : Forall (fun p => proposer_ok p = Ok tt) (reinitializations b);
  po_external : Forall (fun p => proposer_ok p = Ok tt) (external_initializations b);
  po_extensions : Forall (fun p => proposer_ok p = Ok tt) (group_context_extensions b);
}.

Lemma proposers_run s b : proposers_ok b -> filter_out_invalid_proposers s b = Ok b.
Proof.
  intros []. unfold filter_out_invalid_proposers, sm_exec.
  do 6 (erewrite sm_bind_run by (by apply proposers_of_type_run)). by rewrite proposers_of_type_run.
Qed.

(** ** The filters of the commit of a member *)

Section member_filters.
Context {idp : IdentityProvider} `{CipherSuiteProvider} {P : Type} `{!PreSharedKeyStorage P}.
Context (a : ProposalApplier) (psk_storage : P).

Notation psk_ok p := (psk_valid psk_storage (psk (proposal p)) true = Ok tt).

Lemma psk_valid_new id b : psk_valid psk_storage id b = Ok tt -> b = true /\ psk_valid psk_storage id true = Ok tt.
Proof using Type.
  destruct b; [by split|]. unfold psk_valid. by repeat case_match.
Qed.

Lemma psks_loop_left s i l seen bad : psks_loop s psk_storage i l seen = Ok bad ->
  Forall (fun j => i <= j) bad /\ narrows s l (drop_at i bad l) /\ Forall (fun p => psk_ok p) (drop_at i bad l) /\
  NoDup ((fun p => psk (proposal p)) <$> drop_at i bad l) /\ forall p, p ∈ drop_at i bad l -> psk (proposal p) ∉ seen.
Proof using Type.
  revert i seen bad. induction l as [|p l IH]; intros i seen bad E; simpl in E.
  { injection E as <-. split_and!; [constructor|apply narrows_refl|constructor|constructor|by intros p ?%elem_of_nil]. }
  apply bind_Ok in E as (k & Ek & (bad' & E & [= <-])%bind_Ok).
  destruct (IH _ _ _ E) as (Hb & Hn & Hok & Hnd & Hseen).
  assert (Forall (fun j => i <= j) bad') as Hb' by (eapply Forall_impl; [exact Hb|]; simpl; lia).
  apply apply_strategy_Ok in Ek as [[Hp ->]|(e & Hp & Hi & ->)].
  - rewrite drop_at_cons by done. apply psk_valid_new in Hp as [Hnew Hp]. apply negb_true_iff, bool_decide_eq_false in Hnew.
    split; [done|]. split; [|split; [by constructor|split]].
    + destruct Hn as [H1 H2 H3]. split; [by apply sublist_skip| |intros ->; by rewrite H3].
      intros q [->|Hq]%elem_of_cons Hv; [by left|right; auto].
    + rewrite fmap_cons. apply NoDup_cons. split; [|done]. intros (q & Hq & Hin)%list_elem_of_fmap.
      apply (Hseen q Hin). rewrite <- Hq. by left.
    + intros q [->|Hq]%elem_of_cons; [done|]. intros Hs. apply (Hseen q Hq). by right.
  - rewrite drop_at_here by done. split; [by constructor|]. split; [|split; [done|split; [done|]]].
    + destruct Hn as [H1 H2 H3]. split; [by apply sublist_cons| |intros ->; done].
      intros q [->|Hq]%elem_of_cons Hv; [by rewrite (ignore_by_value s) in Hi|auto].
    + intros q Hq Hs. apply (Hseen q Hq). by right.
Qed.

Lemma psks_loop_run s i l seen : Forall (fun p => psk_ok p) l -> NoDup ((fun p => psk (proposal p)) <$> l) ->
  (forall p, p ∈ l -> psk (proposal p) ∉ seen) -> psks_loop s psk_storage i l seen = Ok [].
Proof using Type.
  intros Hok. revert i seen. induction Hok as [|p l Hp _ IH]; intros i seen Hnd Hseen; [done|].
  rewrite fmap_cons in Hnd. apply NoDup_cons in Hnd as [Hnew Hnd]. simpl.
  rewrite (bool_decide_false (psk (proposal p) ∈ seen)) by (apply Hseen; by left). simpl. rewrite Hp. simpl.
  rewrite IH; [done|done|]. intros q Hq [E|Hs]%elem_of_cons; [|by apply (Hseen q); [right|]].
  apply Hnew. apply list_elem_of_fmap. by exists q.
Qed.

(** What a bundle must be for a member to commit it. *)
Record member_bundle_ok (committer : Z) (commit_time : option Z) (b : ProposalBundle) : Prop := {
  mb_proposers : proposers_ok b;
  mb_updates : Forall (fun p => sender p <> SenderMember committer) (updates b);
  mb_senders : mapM_res leaf_index_of_update_sender (updates b) = Ok (update_senders b);
  mb_removals : Forall (fun p => to_remove (proposal p) <> committer) (removals b);
  mb_psks : Forall (fun p => psk_ok p) (psks b);
  mb_psk_ids : NoDup ((fun p => psk (proposal p)) <$> psks b);
  mb_extensions : Forall (fun p => group_extensions_valid (proposal p) commit_time = Ok tt) (group_context_extensions b);
  mb_one_extensions : (length (group_context_extensions b) <= 1)%nat;
  mb_reinit : Forall (fun p => protocol_version (original_context a) <= ri_version (proposal p)) (reinitializations b);
  mb_reinit_alone : reinitializations b = [] \/ bundle_length b = 1;
  mb_external : external_initializations b = [];
}.

(** [b'] is left of [b]. *)
Record narrowed (s : FilterStrategy) (b b' : ProposalBundle) : Prop := {
  nb_add : narrows s (additions b) (additions b');
  nb_update : narrows s (updates b) (updates b');
  nb_remove : narrows s (removals b) (removals b');
  nb_psk : narrows s (psks b) (psks b');
  nb_reinit : narrows s (reinitializations b) (reinitializations b');
  nb_external : narrows s (external_initializations b) (external_initializations b');
  nb_extensions : narrows s (group_context_extensions b) (group_context_extensions b');
  nb_custom : custom_proposals b' = custom_proposals b;
}.

Lemma extra_left s b b' : filter_out_extra_group_context_extensions s b = Ok b' ->
  exists g, b' = set_group_context_extensions g b /\ narrows s (group_context_extensions b) g /\ (length g <= 1)%nat.
Proof using Type.
  unfold filter_out_extra_group_context_extensions. destruct (group_context_extensions b) as [|first rest] eqn:Eg.
  { intros [= <-]. exists []. split; [destruct b; simpl in *; by subst|]. split; [apply narrows_refl|simpl; lia]. }
  destruct (retain_loop _ rest) as [r kept] eqn:Er. intros ([] & Hr & [= <-])%bind_Ok. subst r.
  apply (retain_left s (fun _ => Err MoreThanOneGroupContextExtensionsProposal)) in Er as [Er _].
  destruct (Er eq_refl) as [Hl _]. pose proof (left_by_narrows _ _ _ _ Hl) as Hn. pose proof (left_by_valid _ _ _ _ Hl) as Hv.
  assert (kept = []) as -> by (destruct Hv; [done|discriminate]). exists [first]. split; [done|]. split; [|simpl; lia].
  destruct Hn as [H1 H2 H3]. split; [apply sublist_skip; apply sublist_nil_l| |intros Hs; by rewrite <- (H3 Hs)].
  intros q [->|Hq]%elem_of_cons Hv'; [by left|right; auto].
Qed.

Lemma reinit_left s b b' : filter_out_reinit_if_other_proposals (is_ignore s) b = Ok b' ->
  exists ri, b' = set_reinitializations ri b /\ narrows s (reinitializations b) ri /\ (ri = [] \/ bundle_length b' = 1).
Proof using Type.
  unfold filter_out_reinit_if_other_proposals.
  destruct (negb (zlen (reinitializations b) =? 0) && negb (bundle_length b =? 1)) eqn:Eh.
  2:{ intros [= <-]. exists (reinitializations b). split; [by destruct b|]. split; [apply narrows_refl|].
      apply andb_false_iff in Eh as [Eh|Eh]; apply negb_false_iff, Z.eqb_eq in Eh; [left|by right].
      apply nil_length_inv. unfold zlen in Eh. lia. }
  destruct (existsb is_by_value (reinitializations b)) eqn:Ev; simpl; [done|].
  assert (forall p, p ∈ reinitializations b -> is_by_value p = true -> False) as Hnov.
  { intros p Hp%list_elem_of_In Hv. assert (existsb is_by_value (reinitializations b) = true); [|congruence].
    apply existsb_exists. by exists p. }
  destruct s; simpl; [|done]. destruct (Z.ltb_spec (zlen (reinitializations b)) (bundle_length b)) as [Hlt|Hge]; intros [= <-].
  - exists []. split; [done|]. split; [|by left]. split; [apply sublist_nil_l| |done]. intros p Hp Hv. by destruct (Hnov p).
  - exists (take 1 (reinitializations b)). split; [done|]. split.
    + split; [apply sublist_take| |done]. intros p Hp Hv. by destruct (Hnov p).
    + right. unfold bundle_length in *. destruct b as [? ? ? ? ? l ? ? ?]; simpl in *.
      apply andb_true_iff in Eh as [Eh%negb_true_iff%Z.eqb_neq _]. unfold zlen in *.
      destruct l as [|x l]; simpl in *; lia.
Qed.

Lemma custom_of b f l : custom_proposals (set_update_senders f (set_updates l b)) = custom_proposals b.
Proof using Type. done. Qed.

(** What the filters leave of a bundle. *)
Lemma filter_from_member_left s c b t b' : filter_from_member a psk_storage s c b t = Ok b' ->
  member_bundle_ok c t b' /\ narrowed s b b'.
Proof using Type.
  unfold filter_from_member.
  intros (b1 & E1 & (b2 & E2 & (us & Es & (b3 & E3 & (b4 & E4 & (b5 & E5 & (b6 & E6 & (b7 & E7 & (b8 & E8 &
    E9)%bind_Ok)%bind_Ok)%bind_Ok)%bind_Ok)%bind_Ok)%bind_Ok)%bind_Ok)%bind_Ok)%bind_Ok.
  apply proposers_left in E1 as (ad & up & us0 & re & ps & ri & ei & gx & -> & Ha & Hu & Hr & Hp & Hri & Hei & Hg).
  apply retain_by_type_left in E2 as (up' & Hu' & ->).
  apply (retain_by_type_left s (fun p => guard_or CommitterSelfRemoval (negb (to_remove (proposal p) =? c)))) in E3 as (re' & Hr' & ->).
  unfold filter_out_invalid_psks in E4. apply bind_Ok in E4 as (bad & E4 & [= <-]). rewrite remove_all_drop in E5 by apply _.
  apply psks_loop_left in E4 as (_ & Hp1 & Hp2 & Hp3 & _).
  set (ps' := drop_at 0 bad _) in *.
  unfold filter_out_invalid_group_extensions in E5. apply bind_Ok in E5 as (bad' & E5 & [= <-]). rewrite remove_all_drop in E6 by apply _.
  apply (bad_loop_left s (fun p => group_extensions_valid (proposal p) t)) in E5 as Hg'.
  set (gx' := drop_at 0 bad' _) in *.
  apply extra_left in E6 as (gx'' & -> & Hgn & Hg1).
  apply (retain_by_type_left s (fun p => guard_or InvalidProtocolVersionInReInit
    (protocol_version (original_context a) <=? ri_version (proposal p)))) in E7 as (ri' & Hri' & ->).
  apply reinit_left in E8 as (ri'' & -> & Hrn & Halone).
  apply (retain_by_type_left s (fun _ => Err InvalidProposalTypeForSender)) in E9 as (ei' & Hei' & ->).
  cbn [bundle_filter bundle_set update_proposable remove_proposable psk_proposable extensions_proposable reinit_proposable
    external_init_proposable set_updates set_update_senders set_removals set_psks set_group_context_extensions
    set_reinitializations set_external_initializations additions updates update_senders removals psks reinitializations
    external_initializations group_context_extensions custom_proposals] in *.
  pose proof (left_by_valid _ _ _ _ Hei') as Hev.
  assert (ei' = []) as -> by (destruct Hev; [done|discriminate]).
  assert (forall b1 : bool, b1 = true <-> b1 = true) as _ by done.
  split.
  - split; cbn [bundle_set external_init_proposable set_external_initializations additions updates update_senders removals
      psks reinitializations external_initializations group_context_extensions custom_proposals].
    + split; cbn [additions updates removals psks reinitializations external_initializations group_context_extensions].
      * by eapply left_by_valid.
      * eapply narrows_Forall; [by eapply left_by_narrows|by eapply left_by_valid].
      * eapply narrows_Forall; [by eapply left_by_narrows|by eapply left_by_valid].
      * eapply narrows_Forall; [done|by eapply left_by_valid].
      * eapply narrows_Forall; [done|]. eapply narrows_Forall; [by eapply left_by_narrows|by eapply left_by_valid].
      * constructor.
      * eapply narrows_Forall; [done|]. eapply narrows_Forall; [by eapply left_by_narrows|by eapply left_by_valid].
    + apply left_by_valid in Hu'. eapply Forall_impl; [exact Hu'|]. simpl. intros p Hq%guard_or_Ok.
      by apply negb_true_iff, bool_decide_eq_false in Hq.
    + done.
    + apply left_by_valid in Hr'. eapply Forall_impl; [exact Hr'|]. simpl. intros p Hq%guard_or_Ok. lia.
    + done.
    + done.
    + eapply narrows_Forall; [done|]. by apply left_by_valid in Hg'.
    + done.
    + eapply narrows_Forall; [done|]. apply left_by_valid in Hri'. eapply Forall_impl; [exact Hri'|]. simpl.
      intros p Hq%guard_or_Ok. lia.
    + destruct Halone as [->|Hl]; [by left|].
      destruct ri'' as [|x ri'']; [by left|right]. unfold bundle_length, zlen in *. simpl in *. lia.
    + done.
  - split; cbn [bundle_set external_init_proposable set_external_initializations additions updates update_senders removals
      psks reinitializations external_initializations group_context_extensions custom_proposals].
    + by eapply left_by_narrows.
    + eapply narrows_trans; by eapply left_by_narrows.
    + eapply narrows_trans; by eapply left_by_narrows.
    + eapply narrows_trans; [by eapply left_by_narrows|done].
    + eapply narrows_trans; [|done]. eapply narrows_trans; by eapply left_by_narrows.
    + eapply narrows_trans; by eapply left_by_narrows.
    + eapply narrows_trans; [|done]. eapply narrows_trans; by eapply left_by_narrows.
    + done.
Qed.

Lemma guard_true {E} (e : E) b : b = true -> guard_or e b = Ok tt.
Proof using Type. by intros ->. Qed.

(** A bundle that a member can commit passes the strict filters. *)
Lemma filter_from_member_run s c t b us : member_bundle_ok c t b ->
  filter_from_member a psk_storage s c (set_update_senders us b) t = Ok b.
Proof using Type.
  intros [Hprop Hupd Hsend Hrem Hpsk Hids Hext Hone Hre Halone Hei]. unfold filter_from_member.
  rewrite proposers_run by (destruct Hprop; by split). cbn [mbind res_bind].
  unfold filter_out_update_for_committer.
  rewrite (retain_by_type_run s (fun p : ProposalInfo UpdateProposal =>
    guard_or InvalidCommitSelfUpdate (negb (bool_decide (sender p = SenderMember c))))).
  2:{ eapply Forall_impl; [exact Hupd|]. simpl. intros p Hq. apply guard_true, negb_true_iff. by apply bool_decide_eq_false. }
  cbn [mbind res_bind]. rewrite set_filter.
  change (updates (set_update_senders us b)) with (updates b). rewrite Hsend. cbn [mbind res_bind].
  change (set_update_senders (update_senders b) (set_update_senders us b)) with (set_update_senders (update_senders b) b).
  rewrite senders_same. unfold filter_out_removal_of_committer.
  rewrite (retain_by_type_run s (fun p : ProposalInfo RemoveProposal =>
    guard_or CommitterSelfRemoval (negb (to_remove (proposal p) =? c)))).
  2:{ eapply Forall_impl; [exact Hrem|]. simpl. intros p Hq. apply guard_true. lia. }
  cbn [mbind res_bind]. rewrite set_filter. unfold filter_out_invalid_psks.
  rewrite psks_loop_run by (try done; by intros p _ ?%elem_of_nil). cbn [mbind res_bind].
  unfold filter_out_invalid_group_extensions. change (remove_all PreSharedKeyProposal [] b) with b.
  rewrite (bad_loop_run s (fun p => group_extensions_valid (proposal p) t)) by done. cbn [mbind res_bind].
  change (remove_all ExtensionList [] b) with b.
  assert (filter_out_extra_group_context_extensions s b = Ok b) as ->.
  { unfold filter_out_extra_group_context_extensions. destruct (group_context_extensions b) as [|x [|y l]] eqn:Eg; [done| |simpl in Hone; lia].
    simpl. rewrite <- Eg. by destruct b. }
  cbn [mbind res_bind]. unfold filter_out_invalid_reinit.
  rewrite (retain_by_type_run s (fun p : ProposalInfo ReInitProposal => guard_or InvalidProtocolVersionInReInit
    (protocol_version (original_context a) <=? ri_version (proposal p)))).
  2:{ eapply Forall_impl; [exact Hre|]. simpl. intros p Hq. apply guard_true. lia. }
  cbn [mbind res_bind]. rewrite set_filter.
  assert (filter_out_reinit_if_other_proposals (is_ignore s) b = Ok b) as ->.
  { unfold filter_out_reinit_if_other_proposals. destruct Halone as [->| ->]; [done|]. by rewrite andb_false_r. }
  cbn [mbind res_bind]. unfold filter_out_external_init.
  rewrite (retain_by_type_run s (fun _ : ProposalInfo ExternalInit => Err InvalidProposalTypeForSender)).
  - by rewrite set_filter.
  - change (bundle_filter b) with (external_initializations b). by rewrite Hei.
Qed.

Lemma narrowed_strict b b' : narrowed IgnoreNone b b' -> b' = set_update_senders (update_senders b') b.
Proof using Type.
  intros [[_ _ H1] [_ _ H2] [_ _ H3] [_ _ H4] [_ _ H5] [_ _ H6] [_ _ H7] H8].
  destruct b, b'. simpl in *. rewrite (H1 eq_refl), (H2 eq_refl), (H3 eq_refl), (H4 eq_refl), (H5 eq_refl), (H6 eq_refl), (H7 eq_refl), H8.
  done.
Qed.
End member_filters.

(** C14: the proposals of a member's commit.  A receiver's filters accept a
    bundle exactly if it is one that the member may commit -- every proposer may
    propose what it does, the committer neither updates nor removes itself,
    pre-shared keys are usable and distinct, at most one change of the group's
    extensions, a re-initialisation stands alone -- and they leave it as it is.
    A sender's filters leave such a bundle, in order and with all the proposals
    by value, which the receivers' filters accept unchanged. *)
Theorem member_filtering {idp : IdentityProvider} `{CipherSuiteProvider} {P} `{!PreSharedKeyStorage P}
    (a : ProposalApplier) (store : P) (c : Z) (t : option Z) (b b' : ProposalBundle) :
  (filter_from_member a store IgnoreNone c b t = Ok b' <->
   member_bundle_ok a store c t b' /\ b' = set_update_senders (update_senders b') b) /\
  (filter_from_member a store IgnoreByRef c b t = Ok b' ->
   member_bundle_ok a store c t b' /\ narrowed IgnoreByRef b b' /\
   forall us, filter_from_member a store IgnoreNone c (set_update_senders us b') t = Ok b').
Proof.
  split; [split|].
  - intros E. apply filter_from_member_left in E as [Hok Hn]. split; [done|]. by apply narrowed_strict.
  - intros [Hok E]. rewrite <- (filter_from_member_run a store IgnoreNone c t b' (update_senders b) Hok). f_equal.
    rewrite E. by destruct b.
  - intros E. apply filter_from_member_left in E as [Hok Hn]. split; [done|]. split; [done|].
    intros us. by apply filter_from_member_run.
Qed.

(** C40: an update that its sender may not propose.  A committer filters the
    proposals of its cache and its own ones, none of the updates among them
    given by value.  Before the updates are looked at, [update_senders] is empty
    -- the bundle is built that way, and it is filled only later.  The filter of
    the proposers then panics exactly when the sender of some update is not a
    member -- an external sender can have one cached -- whatever else the bundle
    holds; and so does the whole application of the proposals. *)
Theorem external_update_panics {idp : IdentityProvider} `{CipherSuiteProvider} {P} `{!PreSharedKeyStorage P}
    (a : ProposalApplier) (store : P) (c : Z) (t : option Z) (b : ProposalBundle)
    (Hs : update_senders b = [])
    (Hadd : forall p, p ∈ additions b -> is_by_reference p = true \/ exists i, sender p = SenderMember i)
    (Hup : forall p, p ∈ updates b -> is_by_reference p = true) :
  (filter_out_invalid_proposers IgnoreByRef b = Panic <-> exists p, p ∈ updates b /\ forall i, sender p <> SenderMember i) /\
  ((exists p, p ∈ updates b /\ forall i, sender p <> SenderMember i) ->
   apply_proposals a store IgnoreByRef (SenderMember c) b t =
   match leaf_index_try_from c with Ok _ => Panic | Err e => Err e | Panic => Panic end).
Proof.
  pose proof (proposers_panic b Hs Hadd Hup) as Hf. split; [done|]. intros Hex. apply Hf in Hex.
  unfold apply_proposals, apply_proposals_from_member, filter_from_member. by rewrite Hex; destruct (leaf_index_try_from c).
Qed.

(** The addition of a member, and the update of an external sender. *)
Definition external_update_bundle : ProposalBundle :=
  bundle_from_iter [(PAdd (mk_add (mk_key_package 1 1 [8] (member_leaf 4) [] [])), SenderMember 0, ByValue);
    (PUpdate (mk_update (member_leaf 5)), SenderExternal 0, ByReference [7]);
    (PUpdate (mk_update (member_leaf 6)), SenderMember 1, ByReference [8])].

Lemma external_update_panics_witness :
  apply_proposals (idp := plain_provider) (H := Toy.provider) (mk_applier group_of_two sample_context None) (∅ : gmap bytes PreSharedKey)
    IgnoreByRef (SenderMember 0) external_update_bundle None = Panic.
Proof.
  refine (proj2 (external_update_panics (idp := plain_provider) (H := Toy.provider) (mk_applier group_of_two sample_context None)
    (∅ : gmap bytes PreSharedKey) 0 None external_update_bundle eq_refl _ _) _).
  - intros p Hp. apply list_elem_of_singleton in Hp as ->. right. by exists 0.
  - intros p [->|[->|Hp%elem_of_nil]%elem_of_cons]%elem_of_cons; done.
  - eexists. split; [by left|]. done.
Defined.

(** A bundle with a valid addition and the removal of the committer. *)
Definition mixed_bundle : ProposalBundle :=
  bundle_from_iter [(PAdd (mk_add (mk_key_package 1 1 [8] (member_leaf 4) [] [])), SenderMember 0, ByValue);
    (PRemove (mk_remove 0), SenderMember 1, ByReference [7])].

Definition sample_applier : ProposalApplier := mk_applier group_of_two sample_context None.

Lemma member_filtering_witness : exists b',
  filter_from_member (idp := plain_provider) (H := Toy.provider) sample_applier (∅ : gmap bytes PreSharedKey) IgnoreByRef 0 mixed_bundle None = Ok b' /\
  removals b' = [] /\ length (additions b') = 1%nat /\
  filter_from_member (idp := plain_provider) (H := Toy.provider) sample_applier (∅ : gmap bytes PreSharedKey) IgnoreNone 0 b' None = Ok b'.
Proof.
  destruct (filter_from_member (idp := plain_provider) (H := Toy.provider) sample_applier (∅ : gmap bytes PreSharedKey) IgnoreByRef 0
    mixed_bundle None) as [b'| |] eqn:E; [|by vm_compute in E..].
  exists b'. split; [done|].
  destruct (member_filtering (idp := plain_provider) (H := Toy.provider) sample_applier (∅ : gmap bytes PreSharedKey) 0 None mixed_bundle b')
    as [_ Hr].
  destruct (Hr E) as (_ & _ & Hs). specialize (Hs (update_senders b')). rewrite senders_same in Hs.
  vm_compute in E. injection E as <-. done.
Defined.

(** ** Applying without filtering *)

Section strict_application.
Context {idp : IdentityProvider} `{CipherSuiteProvider} {P : Type} `{!PreSharedKeyStorage P}.
Context (a : ProposalApplier) (psk_storage : P).

(** An update and an addition that the receiver accepts in the context of the
    extensions [ext]. *)
Definition update_accepted (ext : ExtensionList) (t : option Z) (u : ProposalInfo UpdateProposal * Z) : Prop :=
  exists old, get_leaf_node (original_tree a) (snd u) = Ok old /\
    valid_update a (ForCommit (original_context a) ext) ext t (fst u) (snd u) old = Ok tt.

Definition add_accepted (ext : ExtensionList) (t : option Z) (p : ProposalInfo AddProposal) : Prop :=
  validate_new_node a (ForCommit (original_context a) ext) (key_package (proposal p)) t = Ok tt.

Lemma strategy_none (b k : bool) r : apply_strategy IgnoreNone b r = Ok k -> k = true /\ r = Ok tt.
Proof using Type. intros [[-> ->]|(e & _ & ? & _)]%apply_strategy_Ok; done. Qed.

Lemma apply_tree_changes_strict b ext t out : apply_tree_changes a IgnoreNone b ext t = Ok out ->
  Forall (update_accepted ext t) (zip (updates b) (update_senders b)) /\
  Forall (add_accepted ext t) (additions b) /\
  exists added s', batch_edit ext false (mk_edit_state (original_tree a) b) = (Ok added, s') /\
    out = mk_apply_output (es_tree s') added None (es_bundle s') (proposal <$> group_context_extensions_proposal (es_bundle s')).
Proof using Type.
  unfold apply_tree_changes, validate_new_nodes.
  intros (b' & (bad & Eu & (b1 & E1 & (bad' & Ea & [= <-])%bind_Ok)%bind_Ok)%bind_Ok & E)%bind_Ok.
  apply (bad_loop_strict _ (update_accepted ext t)) in Eu as [-> Hu].
  2:{ intros [p i] k (old & Hold & [-> Hv]%strategy_none)%bind_Ok. split; [done|]. by exists old. }
  injection E1 as <-. apply (bad_loop_strict _ (add_accepted ext t)) in Ea as [-> Ha].
  2:{ intros p k [-> Hv]%strategy_none. by split. }
  split; [done|]. split; [done|]. change (remove_all AddProposal [] b) with b in E. cbn [is_ignore] in E.
  destruct (batch_edit ext false _) as [[added|e|] s'] eqn:Eb; [|done|done]. injection E as <-. by exists added, s'.
Qed.

(** The extensions of the group after the proposals of [b]. *)
Definition extensions_after (b : ProposalBundle) : ExtensionList :=
  match group_context_extensions_proposal b with
  | Some p => proposal p
  | None => gc_extensions (original_context a)
  end.

(** Every member of the new tree supports the changed extensions. *)
Definition extensions_supported (b : ProposalBundle) (tree : TreeKemPublic) : Prop :=
  match group_context_extensions_proposal b with
  | Some p => new_capabilities_supported a tree (proposal p) = Ok tt /\ new_extensions_supported tree (proposal p) = Ok tt
  | None => True
  end.

Lemma apply_proposal_changes_strict b t out : apply_proposal_changes a IgnoreNone b t = Ok out ->
  let ext := extensions_after b in
  Forall (update_accepted ext t) (zip (updates b) (update_senders b)) /\
  Forall (add_accepted ext t) (additions b) /\ extensions_supported b (new_tree out) /\
  exists added s', batch_edit ext false (mk_edit_state (original_tree a) b) = (Ok added, s') /\
    out = mk_apply_output (es_tree s') added None (es_bundle s') (proposal <$> group_context_extensions_proposal (es_bundle s')).
Proof using Type.
  unfold apply_proposal_changes, extensions_after, extensions_supported.
  destruct (group_context_extensions_proposal b) as [p|].
  - unfold apply_proposals_with_new_capabilities. intros (out' & Hout & E)%bind_Ok.
    apply apply_tree_changes_strict in Hout as (Hu & Ha & Hb).
    destruct (new_capabilities_supported a (new_tree out') (proposal p)) as [[]|e|] eqn:Ec;
      destruct (new_extensions_supported (new_tree out') (proposal p)) as [[]|e'|] eqn:Ee; try done.
    injection E as <-. by split_and!.
  - intros Hout. apply apply_tree_changes_strict in Hout as (Hu & Ha & Hb). by split_and!.
Qed.

(** What a received bundle is by its wire format. *)
Definition received_ok (b : ProposalBundle) : Prop :=
  Forall (fun p => leaf_index_wf (to_remove (proposal p))) (removals b) /\
  Forall (fun p => match sender p with SenderMember i => 0 <= i | _ => True end) (updates b) /\
  Forall (fun p => encodable leaf_node_codec (up_leaf_node (proposal p))) (updates b) /\
  Forall (fun p => encodable leaf_node_codec (kp_leaf_node (key_package (proposal p)))) (additions b).

Lemma update_senders_ok us senders : Forall (fun p => match sender p with SenderMember i => 0 <= i | _ => True end) us ->
  mapM_res leaf_index_of_update_sender us = Ok senders -> length senders = length us /\ Forall leaf_index_wf senders.
Proof using Type.
  intros Hus E%mapM_res_Ok. split; [symmetry; by eapply Forall2_length|].
  induction E as [|p i us senders Hp _ IH]; [done|]. apply Forall_cons in Hus as [Hnn Hus]. constructor; [|by apply IH].
  unfold leaf_index_of_update_sender, leaf_index_try_from in Hp. destruct (sender p) as [j| | |]; try done.
  destruct (Z.ltb_spec MAX_LEAF_INDEX j); [done|]. injection Hp as <-. done.
Qed.

Lemma received_leaves b : received_ok b -> mapM_res leaf_index_of_update_sender (updates b) = Ok (update_senders b) ->
  bundle_leaves_ok b.
Proof using Type.
  intros (H1 & H2 & H3 & H4) Hs. destruct (update_senders_ok _ _ H2 Hs) as [Hl Hf]. by split_and!.
Qed.

Lemma apply_from_member_strict idf c b t out :
  (forall s ext, identity s ext = Ok (idf s)) -> HashLaws -> tree_ok idf (original_tree a) ->
  tree_encodable (nodes (original_tree a)) -> hashes_current (nodes (original_tree a)) (tree_hashes (original_tree a)) ->
  received_ok b -> zlen (nodes (original_tree a)) + 2 * zlen (additions b) <= 2 ^ 25 ->
  apply_proposals_from_member a psk_storage IgnoreNone c b t = Ok out ->
  let b' := applied_proposals out in
  let ext := extensions_after b' in
  member_bundle_ok a psk_storage c t b' /\ b' = set_update_senders (update_senders b') b /\
  Forall (update_accepted ext t) (zip (updates b') (update_senders b')) /\
  Forall (add_accepted ext t) (additions b') /\ extensions_supported b' (new_tree out) /\
  new_context_extensions out = proposal <$> group_context_extensions_proposal b' /\ external_init_index out = None /\
  edited idf (mk_edit_state (original_tree a) b') (indexes_of_added_kpkgs out) (mk_edit_state (new_tree out) b').
Proof using Type.
  intros Hid Hh Ht Henc Hcur Hrec Hroom (b' & Hf & E)%bind_Ok.
  apply filter_from_member_left in Hf as [Hok Hn%narrowed_strict].
  apply apply_proposal_changes_strict in E as (Hu & Ha & Hsup & added & s' & Eb & ->).
  assert (bundle_leaves_ok b') as Hleaves.
  { apply received_leaves; [by rewrite Hn|by apply (mb_senders _ _ _ _ _ Hok)]. }
  pose proof (batch_edit_spec idf (extensions_after b') (mk_edit_state (original_tree a) b') (fun s => Hid s _) Ht Henc Hcur Hleaves
    ltac:(cbn [es_tree es_bundle]; rewrite Hn; exact Hroom)) as Hed.
  rewrite Eb in Hed. pose proof Hed as (_ & _ & _ & _ & _ & Hbun & _). cbn [es_bundle] in Hbun.
  cbn [applied_proposals new_tree new_context_extensions external_init_index indexes_of_added_kpkgs] in *. rewrite Hbun in *.
  split_and!; try done. destruct s' as [tr' bu']. simpl in *. by subst bu'.
Qed.
End strict_application.

(** ** What a receiver accepts, a sender keeps *)

Section unfiltered.
Context {idp : IdentityProvider} `{CipherSuiteProvider} {P : Type} `{!PreSharedKeyStorage P}.
Context (a : ProposalApplier) (psk_storage : P).

Lemma strict_any s (b k : bool) r : apply_strategy IgnoreNone b r = Ok k -> apply_strategy s b r = Ok k.
Proof using Type. by intros [-> ->]%strategy_none. Qed.

Lemma bad_loop_any {A} (check check' : A -> mres bool) i l bad :
  (forall x k, check x = Ok k -> check' x = Ok k) -> bad_loop check i l = Ok bad -> bad_loop check' i l = Ok bad.
Proof using Type.
  intros Hc. revert i bad. induction l as [|x l IH]; intros i bad; [done|]. cbn [bad_loop].
  intros (k & Hk & (bad' & Hb & [= <-])%bind_Ok)%bind_Ok. by rewrite (Hc _ _ Hk); cbn [mbind res_bind]; rewrite (IH _ _ Hb).
Qed.

Lemma apply_tree_changes_any s b ext t out :
  apply_tree_changes a IgnoreNone b ext t = Ok out -> apply_tree_changes a s b ext t = Ok out.
Proof using Type.
  unfold apply_tree_changes, validate_new_nodes.
  intros (b' & (bad & Eu & (b1 & E1 & (bad' & Ea & [= <-])%bind_Ok)%bind_Ok)%bind_Ok & E)%bind_Ok.
  rewrite (bad_loop_any (check_update a IgnoreNone (ForCommit (original_context a) ext) ext t) _ 0 _ bad); [| |exact Eu].
  2:{ intros [p i] k (old & Hold & Hv)%bind_Ok. unfold check_update. rewrite Hold. by apply strict_any. }
  cbn [mbind res_bind]. rewrite E1. cbn [mbind res_bind].
  rewrite (bad_loop_any (check_add a IgnoreNone (ForCommit (original_context a) ext) t) _ 0 _ bad'); [| |exact Ea].
  2:{ intros p k. apply strict_any. }
  cbn [mbind res_bind]. destruct s; [|done]. cbn [is_ignore] in *.
  destruct (batch_edit ext false _) as [[added|e|] s'] eqn:Eb; [|done|done].
  by rewrite (batch_edit_unfiltered _ _ _ _ Eb).
Qed.

Lemma apply_proposal_changes_any s b t out :
  apply_proposal_changes a IgnoreNone b t = Ok out -> apply_proposal_changes a s b t = Ok out.
Proof using Type.
  unfold apply_proposal_changes, apply_proposals_with_new_capabilities.
  destruct (group_context_extensions_proposal b) as [p|]; [|apply apply_tree_changes_any].
  intros (out' & Hout%(apply_tree_changes_any s) & E)%bind_Ok. rewrite Hout. cbn [mbind res_bind].
  by destruct (res_and _ _) as [[]|e|].
Qed.

Lemma apply_proposals_any s from b t out :
  apply_proposals a psk_storage IgnoreNone from b t = Ok out -> apply_proposals a psk_storage s from b t = Ok out.
Proof using Type.
  unfold apply_proposals. destruct from as [c| | |]; [|done..]. intros (i & Hi & (b' & Hf & E)%bind_Ok)%bind_Ok.
  rewrite Hi. cbn [mbind res_bind]. unfold apply_proposals_from_member.
  apply filter_from_member_left in Hf as [Hok Hn%narrowed_strict].
  assert (b = set_update_senders (update_senders b) b') as Eb by (rewrite Hn; by destruct b).
  rewrite Eb. rewrite (filter_from_member_run a psk_storage s _ _ _ _ Hok). by apply apply_proposal_changes_any.
Qed.
End unfiltered.

(** C13: receiving a member's commit.  When a receiver with a well-formed tree
    applies the proposals of a member's commit, it has applied all of them: the
    bundle is one that the member may commit, every update and addition passed
    the validation of its leaf in the context of the group's new extensions, the
    new extensions are supported by all members, the roster is the old one after
    the removals, updates and additions, and the tree is well formed with current
    hashes. *)
Theorem receiver_applies_all {idp : IdentityProvider} `{CipherSuiteProvider, !HashLaws} {P} `{!PreSharedKeyStorage P}
    (a : ProposalApplier) (store : P) (idf : SigningIdentity -> bytes) (c : Z) (b : ProposalBundle) (t : option Z)
    (out : ApplyProposalsOutput)
    (Hid : forall s ext, identity s ext = Ok (idf s)) (Ht : tree_ok idf (original_tree a))
    (Henc : tree_encodable (nodes (original_tree a)))
    (Hcur : hashes_current (nodes (original_tree a)) (tree_hashes (original_tree a)))
    (Hb : received_ok b) (Hroom : zlen (nodes (original_tree a)) + 2 * zlen (additions b) <= 2 ^ 25)
    (E : apply_proposals a store IgnoreNone (SenderMember c) b t = Ok out) :
  let b' := applied_proposals out in
  let ext := extensions_after a b' in
  member_bundle_ok a store c t b' /\ b' = set_update_senders (update_senders b') b /\
  Forall (update_accepted a ext t) (zip (updates b') (update_senders b')) /\
  Forall (add_accepted a ext t) (additions b') /\ extensions_supported a b' (new_tree out) /\
  new_context_extensions out = proposal <$> group_context_extensions_proposal b' /\
  roster_run (leaf_map (nodes (original_tree a))) (bundle_edits b' (indexes_of_added_kpkgs out)) (leaf_map (nodes (new_tree out))) /\
  tree_ok idf (new_tree out) /\ hashes_current (nodes (new_tree out)) (tree_hashes (new_tree out)).
Proof.
  unfold apply_proposals in E. apply bind_Ok in E as (i & Hi & E). unfold leaf_index_try_from in Hi.
  destruct (_ <? _); [done|]. injection Hi as ->.
  apply (apply_from_member_strict a store idf) in E as (H1 & H2 & H3 & H4 & H5 & H6 & _ & _ & H7 & H8 & H9 & _); [|done..].
  by split_and!.
Qed.

Definition removal_bundle : ProposalBundle := bundle_from_iter [(PRemove (mk_remove 1), SenderMember 0, ByValue)].

Lemma receiver_applies_all_witness : exists out,
  apply_proposals (idp := plain_provider) (H := Toy.provider) sample_applier (∅ : gmap bytes PreSharedKey) IgnoreNone (SenderMember 0)
    removal_bundle None = Ok out /\
  roster_run (leaf_map (nodes group_of_two)) [EditRemove 1] (leaf_map (nodes (new_tree out))).
Proof.
  destruct (apply_proposals (idp := plain_provider) (H := Toy.provider) sample_applier (∅ : gmap bytes PreSharedKey) IgnoreNone
    (SenderMember 0) removal_bundle None) as [out| |] eqn:E; [|by vm_compute in E..].
  exists out. split; [done|].
  pose proof (receiver_applies_all (idp := plain_provider) (H := Toy.provider) (H0 := Toy.hash_laws) sample_applier
    (∅ : gmap bytes PreSharedKey) signature_key 0 removal_bundle None out ltac:(reflexivity) group_of_two_ok group_of_two_encodable
    (no_hashes_current (H := Toy.provider) _) ltac:(split_and!; repeat constructor; done) ltac:(vm_compute; discriminate) E)
    as (_ & _ & _ & _ & _ & _ & Hr & _).
  cbn [original_tree sample_applier] in Hr. vm_compute in E. injection E as <-. exact Hr.
Defined.
