(* ===== verification/GroupState.v ===== *)
(** * The state of a group between two epochs

    The parts of a group that its members share: the roster
    (mls-rs/src/group/roster.rs), the rules of the application
    (mls-rs/src/group/mls_rules.rs), the cache of the proposals of the epoch
    (mls-rs/src/group/proposal_cache.rs), the state itself
    (mls-rs/src/group/state.rs) and the state a commit leads to
    ([ProvisionalState] of message_processor.rs, [apply_resolved] of
    proposal_cache.rs, [validate_update_path] of tree_kem/update_path.rs); with
    the descriptions of processed messages and the wire form of all of these,
    in which they are stored.

    A [HashMap] is a [gmap]; the order in which its entries are visited is the
    instance of [MapOrder], which any permutation of them satisfies. *)

From S2P Require Import Prelude Codec Crypto TreeMath SecretTree Data NodeVec TreeIndex TreeHash ParentHash TreeInv Proposals TreeKem TreePath LeafNodes Kem Framing KeySchedule MessageProtection EpochStore Filtering.

#[local] Set Default Goal Selector "!".
Local Open Scope Z_scope.

(** ** Iteration over maps *)

Class MapOrder := map_order : forall (K V : Type) (EqK : EqDecision K) (CntK : Countable K), gmap K V -> list (K * V).

Definition map_iter `{MapOrder} {K V} `{Countable K} (m : gmap K V) : list (K * V) := map_order K V _ _ m.

Class MapOrderLaws `{MapOrder} : Prop :=
  map_iter_perm : forall (K V : Type) (EqK : EqDecision K) (CntK : Countable K) (m : gmap K V), map_iter m ≡ₚ map_to_list m.

Definition plain_order : MapOrder := fun K V _ _ m => map_to_list m.

#[export] Instance plain_order_laws : MapOrderLaws (H := plain_order).
Proof. intros K V ?? m. reflexivity. Qed.

(** ** The roster *)

Record Member := mk_member {
  m_index : Z;
  m_signing_identity : SigningIdentity;
  m_capabilities : Capabilities;
  m_extensions : ExtensionList;
}.

Definition member_from_leaf_node (l : LeafNode) (i : Z) : Member :=
  mk_member i (signing_identity l) (capabilities l) (leaf_extensions l).

Notation Roster := NodeVec (only parsing).

Definition members_iter (r : Roster) : list Member := (fun '(i, l) => member_from_leaf_node l i) <$> non_empty_leaves r.

Definition member_with_index (r : Roster) (i : Z) : mres Member :=
  i ← leaf_index_try_from i;
  (fun l => member_from_leaf_node l i) <$> borrow_as_leaf r i.

Definition member_identities_iter (r : Roster) : list SigningIdentity := (fun '(_, l) => signing_identity l) <$> non_empty_leaves r.

(** ** The rules of the application *)

Inductive CommitSource :=
| ExistingMember (m : Member)
| NewMember (id : SigningIdentity).

Record CommitOptions := mk_commit_options {
  path_required : bool;
  ratchet_tree_extension : bool;
  single_welcome_message : bool;
  allow_external_commit : bool;
  always_out_of_band_ratchet_tree : bool;
}.

Definition commit_options_default : CommitOptions := mk_commit_options false true true false false.

Record EncryptionOptions := mk_encryption_options { encrypt_control_messages : bool; padding_mode : PaddingMode }.

Definition encryption_options_default : EncryptionOptions := mk_encryption_options false StepFunction.

Definition control_wire_format (o : EncryptionOptions) (sender : Sender) : WireFormat :=
  match sender with
  | SenderMember _ => if encrypt_control_messages o then WfPrivateMessage else WfPublicMessage
  | _ => WfPublicMessage
  end.

Class MlsRules (R : Type) := {
  rules_filter_proposals : R -> CommitDirection -> CommitSource -> Roster -> GroupContext -> ProposalBundle ->
    res AnyError ProposalBundle;
  rules_commit_options : R -> Roster -> GroupContext -> ProposalBundle -> res AnyError CommitOptions;
  rules_encryption_options : R -> Roster -> GroupContext -> res AnyError EncryptionOptions;
}.

Record DefaultMlsRules := mk_default_rules {
  dr_commit_options : CommitOptions;
  dr_encryption_options : EncryptionOptions;
}.

#[export] Instance default_mls_rules : MlsRules DefaultMlsRules := {|
  rules_filter_proposals _ _ _ _ _ proposals := Ok proposals;
  rules_commit_options r _ _ _ := Ok (dr_commit_options r);
  rules_encryption_options r _ _ := Ok (dr_encryption_options r);
|}.

Definition from_rules {A} (m : res AnyError A) : mres A := map_err MlsRulesError m.

(** ** The cache of proposals *)

Record CachedProposal := mk_cached_proposal { cp_proposal : Proposal; cp_sender : Sender }.

Inductive ProposalSender :=
| ProposerMember (i : Z)
| ProposerExternal (i : Z)
| ProposerNewMember.

(** [TryFrom<Sender> for ProposalSender]. *)
Definition proposal_sender_try_from (s : Sender) : mres ProposalSender :=
  match s with
  | SenderMember i => Ok (ProposerMember i)
  | SenderExternal i => Ok (ProposerExternal i)
  | NewMemberProposal => Ok ProposerNewMember
  | NewMemberCommit => Err InvalidSender
  end.

Record ProposalMessageDescription := mk_proposal_description {
  pd_sender : ProposalSender;
  pd_proposal : Proposal;
  pd_authenticated_data : bytes;
  pd_proposal_ref : ProposalRef;
}.

Definition proposal_description_new `{CipherSuiteProvider} (content : AuthenticatedContent) (p : Proposal) :
    mres ProposalMessageDescription :=
  s ← proposal_sender_try_from (fc_sender (ac_content content));
  r ← proposal_ref_from_content content;
  Ok (mk_proposal_description s p (authenticated_data (ac_content content)) r).

Record ProposalCache := mk_proposal_cache {
  pc_protocol_version : Z;
  pc_group_id : bytes;
  pc_proposals : gmap bytes CachedProposal;
  pc_own_proposals : gmap bytes ProposalMessageDescription;
}.

Definition cache_new (protocol_version : Z) (group_id : bytes) : ProposalCache :=
  mk_proposal_cache protocol_version group_id ∅ ∅.

Definition cache_clear (c : ProposalCache) : ProposalCache :=
  mk_proposal_cache (pc_protocol_version c) (pc_group_id c) ∅ ∅.

Definition cache_is_empty (c : ProposalCache) : bool := bool_decide (pc_proposals c = ∅).

Definition cache_insert (r : ProposalRef) (p : Proposal) (s : Sender) (c : ProposalCache) : ProposalCache :=
  mk_proposal_cache (pc_protocol_version c) (pc_group_id c) (<[r := mk_cached_proposal p s]> (pc_proposals c))
    (pc_own_proposals c).

Definition insert_own `{CipherSuiteProvider} (p : ProposalMessageDescription) (message : MlsMessage) (s : Sender) :
    SM ProposalCache MlsError unit :=
  _ ← sm_modify (cache_insert (pd_proposal_ref p) (pd_proposal p) s);
  h ← sm_lift (message_hash_compute message);
  sm_modify (fun c => mk_proposal_cache (pc_protocol_version c) (pc_group_id c) (pc_proposals c)
                        (<[h := p]> (pc_own_proposals c))).

Definition get_own `{CipherSuiteProvider} (c : ProposalCache) (message : MlsMessage) :
    mres (option ProposalMessageDescription) :=
  h ← message_hash_compute message;
  Ok (pc_own_proposals c !! h).

(** The entries of the cache as proposals by reference. *)
Definition by_refs (l : list (ProposalRef * CachedProposal)) : list (Proposal * Sender * ProposalSource) :=
  (fun '(r, p) => (cp_proposal p, cp_sender p, ByReference r)) <$> l.

Definition prepare_commit `{MapOrder} (c : ProposalCache) (sender : Sender) (additional_proposals : list Proposal) :
    ProposalBundle :=
  bundle_from_iter (by_refs (map_iter (pc_proposals c)) ++ ((fun p => (p, sender, ByValue)) <$> additional_proposals)).

Fixpoint resolve_loop (c : ProposalCache) (sender : Sender) (proposal_list : list ProposalOrRef) (b : ProposalBundle) :
    mres ProposalBundle :=
  match proposal_list with
  | [] => Ok b
  | OrProposal p :: l => resolve_loop c sender l (bundle_add p sender ByValue b)
  | OrReference r :: l =>
      p ← ok_or ProposalNotFound (pc_proposals c !! r);
      resolve_loop c sender l (bundle_add (cp_proposal p) (cp_sender p) (ByReference r) b)
  end.

Definition resolve_for_commit (c : ProposalCache) (sender : Sender) (proposal_list : list ProposalOrRef) :
    mres ProposalBundle :=
  resolve_loop c sender proposal_list bundle_empty.

(** ** The state *)

Record GroupState := mk_group_state {
  st_proposals : ProposalCache;
  st_context : GroupContext;
  st_public_tree : TreeKemPublic;
  st_interim_transcript_hash : bytes;
  st_pending_reinit : option ReInitProposal;
  st_confirmation_tag : ConfirmationTag;
}.

Definition group_state_new (context : GroupContext) (current_tree : TreeKemPublic) (interim_transcript_hash : bytes)
    (confirmation_tag : ConfirmationTag) : GroupState :=
  mk_group_state (cache_new (protocol_version context) (group_id context)) context current_tree
    interim_transcript_hash None confirmation_tag.

Definition set_st_proposals (c : ProposalCache) (s : GroupState) : GroupState :=
  mk_group_state c (st_context s) (st_public_tree s) (st_interim_transcript_hash s) (st_pending_reinit s)
    (st_confirmation_tag s).
Definition set_pending_reinit (r : option ReInitProposal) (s : GroupState) : GroupState :=
  mk_group_state (st_proposals s) (st_context s) (st_public_tree s) (st_interim_transcript_hash s) r
    (st_confirmation_tag s).

Definition zoom_cache {A} : SM ProposalCache MlsError A -> SM GroupState MlsError A :=
  sm_zoom st_proposals set_st_proposals.

Definition member_at_index (s : GroupState) (i : Z) : option Member :=
  match leaf_index_try_from i with
  | Ok i => (fun l => member_from_leaf_node l i) <$> res_ok (get_leaf_node (st_public_tree s) i)
  | _ => None
  end.

Definition set_epoch (e : Z) (c : GroupContext) : GroupContext :=
  mk_group_context (protocol_version c) (gc_cipher_suite c) (group_id c) e (tree_hash c) (confirmed_transcript_hash c)
    (gc_extensions c).
Definition set_gc_extensions (x : ExtensionList) (c : GroupContext) : GroupContext :=
  mk_group_context (protocol_version c) (gc_cipher_suite c) (group_id c) (epoch c) (tree_hash c)
    (confirmed_transcript_hash c) x.
Definition set_confirmed_transcript_hash (h : bytes) (c : GroupContext) : GroupContext :=
  mk_group_context (protocol_version c) (gc_cipher_suite c) (group_id c) (epoch c) (tree_hash c) h (gc_extensions c).

(** ** The state a commit leads to *)

Record ProvisionalState := mk_provisional_state {
  pv_public_tree : TreeKemPublic;
  pv_applied_proposals : ProposalBundle;
  pv_group_context : GroupContext;
  pv_external_init_index : option Z;
  pv_indexes_of_added_kpkgs : list Z;
  pv_unused_proposals : list (ProposalInfo Proposal);
}.

Definition set_pv_public_tree (t : TreeKemPublic) (p : ProvisionalState) : ProvisionalState :=
  mk_provisional_state t (pv_applied_proposals p) (pv_group_context p) (pv_external_init_index p)
    (pv_indexes_of_added_kpkgs p) (pv_unused_proposals p).
Definition set_pv_applied_proposals (b : ProposalBundle) (p : ProvisionalState) : ProvisionalState :=
  mk_provisional_state (pv_public_tree p) b (pv_group_context p) (pv_external_init_index p)
    (pv_indexes_of_added_kpkgs p) (pv_unused_proposals p).
Definition set_pv_group_context (c : GroupContext) (p : ProvisionalState) : ProvisionalState :=
  mk_provisional_state (pv_public_tree p) (pv_applied_proposals p) c (pv_external_init_index p)
    (pv_indexes_of_added_kpkgs p) (pv_unused_proposals p).

Definition path_update_required (b : ProposalBundle) : bool :=
  negb (zlen (external_initializations b) =? 0) || negb (zlen (updates b) =? 0) || (bundle_length b =? 0) ||
  bool_decide (is_Some (group_context_extensions_proposal b)) || negb (zlen (removals b) =? 0).

Definition has_ref (b : ProposalBundle) (reference : ProposalRef) : bool :=
  existsb (fun p => bool_decide (source p = ByReference reference)) (iter_proposals b).

Definition unused_proposals (all_proposals accepted : ProposalBundle) : list (ProposalInfo Proposal) :=
  List.filter (fun p => match source p with ByReference r => negb (has_ref accepted r) | _ => false end)
    (into_proposals all_proposals).

Definition commit_origin (roster : Roster) (sender : Sender) (external_leaf : option LeafNode) : mres CommitSource :=
  match sender with
  | SenderMember i => ExistingMember <$> member_with_index roster i
  | NewMemberProposal | SenderExternal _ => Err InvalidSender
  | NewMemberCommit => ok_or ExternalCommitMustHaveNewLeaf ((fun l => NewMember (signing_identity l)) <$> external_leaf)
  end.

Definition commit_sender (s : Sender) (p : ProvisionalState) : mres Z :=
  match s with
  | SenderMember i => leaf_index_try_from i
  | SenderExternal _ => Err ExternalSenderCannotCommit
  | NewMemberProposal => Err ExpectedAddProposalForNewMemberProposal
  | NewMemberCommit => ok_or ExternalCommitMissingExternalInit (pv_external_init_index p)
  end.

Section provisional.
Context {idp : IdentityProvider} `{CipherSuiteProvider, MapOrder} {P R : Type} `{!PreSharedKeyStorage P, !MlsRules R}.

Definition apply_resolved (s : GroupState) (sender : Sender) (proposals : ProposalBundle) (external_leaf : option LeafNode)
    (psk_storage : P) (user_rules : R) (commit_time : option Z) (direction : CommitDirection) : mres ProvisionalState :=
  let roster := nodes (st_public_tree s) in
  let all_proposals := proposals in
  origin ← commit_origin roster sender external_leaf;
  proposals ← prepare_proposals_for_mls_rules proposals direction (st_public_tree s);
  proposals ← from_rules (rules_filter_proposals user_rules direction origin roster (st_context s) proposals);
  let applier := mk_applier (st_public_tree s) (st_context s) external_leaf in
  output ← apply_proposals applier psk_storage (strategy_from direction) sender proposals commit_time;
  let unused := unused_proposals
    match direction with
    | Send => all_proposals
    | Receive => bundle_from_iter (by_refs (map_iter (pc_proposals (st_proposals s))))
    end (applied_proposals output) in
  let context := set_epoch (wrap 64 (epoch (st_context s) + 1)) (st_context s) in
  let context := match new_context_extensions output with Some x => set_gc_extensions x context | None => context end in
  Ok (mk_provisional_state (new_tree output) (applied_proposals output) context (external_init_index output)
        (indexes_of_added_kpkgs output) unused).

Definition validate_update_path (path : UpdatePath) (state : ProvisionalState) (sender : Z) (commit_time : option Z)
    (current_context : GroupContext) : mres ValidatedUpdatePath :=
  let new_context := pv_group_context state in
  let leaf := path_leaf_node path in
  _ ← check_if_valid (ForCommit current_context (gc_extensions new_context)) leaf
        (VCommit (group_id new_context) sender commit_time);
  let check_identity_eq := zlen (external_initializations (pv_applied_proposals state)) =? 0 in
  _ ← (if check_identity_eq then
         existing ← borrow_as_leaf (nodes (pv_public_tree state)) sender;
         valid ← from_identity (valid_successor (signing_identity existing) (signing_identity leaf)
                   (gc_extensions new_context));
         _ ← guard_or InvalidSuccessor valid;
         guard_or (SameHpkeKey sender) (negb (bool_decide (leaf_public_key existing = leaf_public_key leaf)))
       else Ok tt);
  fs ← filtered (nodes (pv_public_tree state)) sender;
  unfiltered_nodes ← unfilter fs (path_nodes path);
  Ok (mk_validated_update_path leaf unfiltered_nodes).
End provisional.

(** ** Descriptions of processed messages *)

Record NewEpoch := mk_new_epoch {
  ne_epoch : Z;
  ne_prior_state : GroupState;
  ne_applied_proposals : list (ProposalInfo Proposal);
  ne_unused_proposals : list (ProposalInfo Proposal);
}.

Definition new_epoch_new (prior_state : GroupState) (p : ProvisionalState) : NewEpoch :=
  mk_new_epoch (epoch (pv_group_context p)) prior_state (into_proposals (pv_applied_proposals p)) (pv_unused_proposals p).

Inductive CommitEffect :=
| EffectNewEpoch (e : NewEpoch)
| EffectRemoved (new_epoch : NewEpoch) (remover : Sender)
| EffectReInit (r : ProposalInfo ReInitProposal).

Record ApplicationMessageDescription := mk_application_description {
  amd_sender_index : Z;
  amd_data : bytes;
  amd_authenticated_data : bytes;
}.

Record CommitMessageDescription := mk_commit_description {
  cmd_is_external : bool;
  cmd_committer : Z;
  cmd_effect : CommitEffect;
  cmd_authenticated_data : bytes;
}.

(** ** Wire form *)

Definition ratchet_tree_codec : codec NodeVec := node_vec_codec.

Definition type_counter_codec : codec TypeCounter :=
  struct_codec (fun c => (supported c, used c)) (fun '(s, u) => mk_type_counter s u) (pair_codec u32_codec u32_codec).

Section tree_codecs.
Context `{MapOrder}.

Definition tree_index_codec : codec TreeIndex :=
  struct_codec
    (fun t => (credential_signature_key t, (hpke_key t, (identities t, (credential_type_counters t, proposal_type_counter t)))))
    (fun '(s, (h, (i, (c, p)))) => mk_tree_index s h i c p)
    (pair_codec (map_codec byte_vec_codec leaf_index_codec map_iter) (pair_codec (map_codec byte_vec_codec leaf_index_codec map_iter)
      (pair_codec (map_codec byte_vec_codec leaf_index_codec map_iter)
        (pair_codec (map_codec u16_codec type_counter_codec map_iter) (map_codec u16_codec u32_codec map_iter))))).

Definition tree_kem_public_codec : codec TreeKemPublic :=
  struct_codec (fun t => (index t, (nodes t, tree_hashes t))) (fun '(i, (n, h)) => mk_tree_kem_public i n h)
    (pair_codec tree_index_codec (pair_codec node_vec_codec (vec_codec byte_vec_codec))).

(** The orders of the maps of a secret tree. *)
Definition epoch_secrets_stored_codec : codec EpochSecrets :=
  epoch_secrets_codec (fun h => (map_iter h).*2) map_iter.
End tree_codecs.

Definition proposal_sender_codec : codec ProposalSender :=
  enum_codec u8_codec
    (fun s => match s with ProposerMember _ => 1 | ProposerExternal _ => 2 | ProposerNewMember => 3 end)
    (fun t =>
       if t =? 1 then
         Some (variant_codec ProposerMember (fun s => match s with ProposerMember i => Some i | _ => None end) u32_codec)
       else if t =? 2 then
         Some (variant_codec ProposerExternal (fun s => match s with ProposerExternal i => Some i | _ => None end) u32_codec)
       else if t =? 3 then
         Some (variant_codec (fun _ => ProposerNewMember)
                 (fun s => match s with ProposerNewMember => Some tt | _ => None end) unit_codec)
       else None).

(** The codecs of what contains proposals, for the codec [pc] of the proposals. *)
Section state_codecs.
Context `{MapOrder} (pc : codec Proposal).

Definition cached_proposal_codec_with : codec CachedProposal :=
  struct_codec (fun p => (cp_proposal p, cp_sender p)) (fun '(p, s) => mk_cached_proposal p s) (pair_codec pc sender_codec).

Definition proposal_description_codec_with : codec ProposalMessageDescription :=
  struct_codec (fun d => (pd_sender d, (pd_proposal d, (pd_authenticated_data d, pd_proposal_ref d))))
    (fun '(s, (p, (a, r))) => mk_proposal_description s p a r)
    (pair_codec proposal_sender_codec (pair_codec pc (pair_codec (vec_codec u8_codec) byte_vec_codec))).

Definition cached_map_codec_with : codec (gmap bytes CachedProposal) :=
  map_codec byte_vec_codec cached_proposal_codec_with map_iter.

Definition own_map_codec_with : codec (gmap bytes ProposalMessageDescription) :=
  map_codec byte_vec_codec proposal_description_codec_with map_iter.

Definition proposal_cache_codec_with : codec ProposalCache :=
  struct_codec (fun c => (pc_protocol_version c, (pc_group_id c, (pc_proposals c, pc_own_proposals c))))
    (fun '(v, (g, (p, o))) => mk_proposal_cache v g p o)
    (pair_codec u16_codec (pair_codec (vec_codec u8_codec) (pair_codec cached_map_codec_with own_map_codec_with))).

Definition group_state_codec_with : codec GroupState :=
  struct_codec
    (fun s => (st_proposals s, (st_context s, (st_public_tree s, (st_interim_transcript_hash s,
                (st_pending_reinit s, st_confirmation_tag s))))))
    (fun '(p, (c, (t, (i, (r, g))))) => mk_group_state p c t i r g)
    (pair_codec proposal_cache_codec_with (pair_codec group_context_codec (pair_codec tree_kem_public_codec
      (pair_codec byte_vec_codec (pair_codec (option_codec reinit_codec) byte_vec_codec))))).

Definition new_epoch_codec_with : codec NewEpoch :=
  struct_codec (fun e => (ne_epoch e, (ne_prior_state e, (ne_applied_proposals e, ne_unused_proposals e))))
    (fun '(n, (s, (a, u))) => mk_new_epoch n s a u)
    (pair_codec u64_codec (pair_codec group_state_codec_with
      (pair_codec (vec_codec (proposal_info_codec pc)) (vec_codec (proposal_info_codec pc))))).

Definition commit_effect_codec_with : codec CommitEffect :=
  enum_codec u8_codec
    (fun e => match e with EffectNewEpoch _ => 1 | EffectRemoved _ _ => 2 | EffectReInit _ => 3 end)
    (fun t =>
       if t =? 1 then
         Some (variant_codec EffectNewEpoch (fun e => match e with EffectNewEpoch n => Some n | _ => None end) new_epoch_codec_with)
       else if t =? 2 then
         Some (variant_codec (fun '(n, r) => EffectRemoved n r)
                 (fun e => match e with EffectRemoved n r => Some (n, r) | _ => None end)
                 (pair_codec new_epoch_codec_with sender_codec))
       else if t =? 3 then
         Some (variant_codec EffectReInit (fun e => match e with EffectReInit r => Some r | _ => None end)
                 (proposal_info_codec reinit_codec))
       else None).

Definition commit_description_codec_with : codec CommitMessageDescription :=
  struct_codec (fun d => (cmd_is_external d, (cmd_committer d, (cmd_effect d, cmd_authenticated_data d))))
    (fun '(x, (c, (e, a))) => mk_commit_description x c e a)
    (pair_codec bool_codec (pair_codec u32_codec (pair_codec commit_effect_codec_with byte_vec_codec))).
End state_codecs.

Definition group_state_codec `{MapOrder} : codec GroupState := group_state_codec_with proposal_codec.

(** * Correctness *)

(** ** Codec laws *)

Definition type_counter_wf (c : TypeCounter) : Prop := is_u32 (supported c) /\ is_u32 (used c).

#[export] Instance type_counter_codec_ok : CodecOk type_counter_codec type_counter_wf.
Proof. struct_ok. Qed.

Definition proposal_sender_wf (s : ProposalSender) : Prop :=
  match s with ProposerMember i | ProposerExternal i => is_u32 i | ProposerNewMember => True end.

(** The laws of an enum with and without payloads. *)
Lemma unit_arg {A} (P : A -> unit -> Prop) : (forall x, P x tt) -> forall x b, P x b.
Proof. intros HP x []. apply HP. Qed.

Ltac mixed_variants disc :=
  variant_cases; split;
    first [eapply variant_codec_canonical; [apply _..|]|eapply (variant_ok_disc _ _ _ _ disc); [apply _| |by intros|]];
    try (by intros [] ?; naive_solver); try (apply unit_arg; intros []; naive_solver);
    intros [] ? ?; try done; eauto; by exists tt.

Lemma proposal_sender_variants t cv :
  (if t =? 1 then
     Some (variant_codec ProposerMember (fun s => match s with ProposerMember i => Some i | _ => None end) u32_codec)
   else if t =? 2 then
     Some (variant_codec ProposerExternal (fun s => match s with ProposerExternal i => Some i | _ => None end) u32_codec)
   else if t =? 3 then
     Some (variant_codec (fun _ => ProposerNewMember)
             (fun s => match s with ProposerNewMember => Some tt | _ => None end) unit_codec)
   else None) = Some cv ->
  CodecOk cv (fun x => match x with ProposerMember _ => 1 | ProposerExternal _ => 2 | ProposerNewMember => 3 end = t /\
    proposal_sender_wf x) /\ CodecCanonical cv.
Proof.
  revert t cv.
  mixed_variants (fun x => match x with ProposerMember _ => 1 | ProposerExternal _ => 2 | ProposerNewMember => 3 end).
Qed.

#[export] Instance proposal_sender_codec_ok : CodecOk proposal_sender_codec proposal_sender_wf.
Proof. enum_ok (uint_codec 1) (in_uint 8) proposal_sender_wf proposal_sender_variants. Qed.

Definition source_wf (s : ProposalSource) : Prop := match s with ByReference r => bytes_ok r | _ => True end.

Lemma source_variants t cv :
  (if t =? 1 then
     Some (variant_codec (fun _ => ByValue) (fun s => match s with ByValue => Some tt | _ => None end) unit_codec)
   else if t =? 2 then
     Some (variant_codec ByReference (fun s => match s with ByReference r => Some r | _ => None end) byte_vec_codec)
   else if t =? 3 then
     Some (variant_codec (fun _ => Local_) (fun s => match s with Local_ => Some tt | _ => None end) unit_codec)
   else None) = Some cv ->
  CodecOk cv (fun x => match x with ByValue => 1 | ByReference _ => 2 | Local_ => 3 end = t /\ source_wf x) /\ CodecCanonical cv.
Proof. revert t cv. mixed_variants (fun x => match x with ByValue => 1 | ByReference _ => 2 | Local_ => 3 end). Qed.

#[export] Instance source_codec_ok : CodecOk proposal_source_codec source_wf.
Proof. enum_ok (uint_codec 1) (in_uint 8) source_wf source_variants. Qed.

Section map_laws.
Context `{MapOrder, !MapOrderLaws}.

#[export] Instance iter_map_codec_ok {K V} `{Countable K} (kc : codec K) (vc : codec V) wfk wfv
    `{!CodecOk kc wfk, !CodecOk vc wfv, !CodecProgress kc} :
  CodecOk (map_codec kc vc map_iter) (map_wf wfk wfv).
Proof. apply map_codec_ok; try apply _. intros m. apply map_iter_perm. Qed.

Definition tree_index_wf (t : TreeIndex) : Prop :=
  map_wf bytes_ok leaf_index_wf (credential_signature_key t) /\ map_wf bytes_ok leaf_index_wf (hpke_key t) /\
  map_wf bytes_ok leaf_index_wf (identities t) /\ map_wf is_u16 type_counter_wf (credential_type_counters t) /\
  map_wf is_u16 is_u32 (proposal_type_counter t).

#[export] Instance tree_index_codec_ok : CodecOk tree_index_codec tree_index_wf.
Proof. struct_ok. Qed.

Definition tree_kem_public_wf (t : TreeKemPublic) : Prop :=
  tree_index_wf (index t) /\ Forall (option_wf tree_node_wf) (nodes t) /\ Forall bytes_ok (tree_hashes t).

#[export] Instance tree_hashes_codec_ok : CodecOk (vec_codec byte_vec_codec) (Forall bytes_ok).
Proof. apply (vec_codec_ok _ bytes_ok). Qed.

#[export] Instance tree_kem_public_codec_ok : CodecOk tree_kem_public_codec tree_kem_public_wf.
Proof. struct_ok. Qed.

#[export] Instance epoch_secrets_stored_codec_ok : CodecOk epoch_secrets_stored_codec epoch_secrets_wf.
Proof.
  unfold epoch_secrets_stored_codec. apply epoch_secrets_codec_ok.
  - intros h. exact (Permutation_map snd (map_iter_perm _ _ _ _ h)).
  - exact (map_iter_perm _ _ _ _).
Qed.
End map_laws.

(** *** What contains proposals, with the codec of proposals that refuses none *)

Definition info_wf {T} (wf : T -> Prop) (p : ProposalInfo T) : Prop :=
  wf (proposal p) /\ sender_wf (sender p) /\ source_wf (source p).

#[export] Instance proposal_info_codec_ok {T} (c : codec T) wf `{!CodecOk c wf} :
  CodecOk (proposal_info_codec c) (info_wf wf).
Proof. struct_ok. Qed.

#[export] Instance proposal_info_codec_progress {T} (c : codec T) wf `{!CodecOk c wf, !CodecProgress c} :
  CodecProgress (proposal_info_codec c).
Proof. struct_progress. Qed.

#[export] Instance unchecked_codec_progress : CodecProgress unchecked_codec.
Proof.
  eapply (enum_codec_progress u16_codec (in_uint 16)); [|apply _]. intros t cv [= <-]. apply proposal_variant_ok.
Qed.

Definition cached_proposal_wf (p : CachedProposal) : Prop := proposal_wf (cp_proposal p) /\ sender_wf (cp_sender p).

Definition proposal_description_wf (d : ProposalMessageDescription) : Prop :=
  proposal_sender_wf (pd_sender d) /\ proposal_wf (pd_proposal d) /\ bytes_ok (pd_authenticated_data d) /\
  bytes_ok (pd_proposal_ref d).

#[export] Instance u8_vec_codec_ok : CodecOk (vec_codec u8_codec) bytes_ok.
Proof. apply (vec_codec_ok _ is_u8). Qed.
#[export] Instance cached_proposal_codec_ok : CodecOk (cached_proposal_codec_with unchecked_codec) cached_proposal_wf.
Proof. struct_ok. Qed.
#[export] Instance proposal_description_codec_ok :
  CodecOk (proposal_description_codec_with unchecked_codec) proposal_description_wf.
Proof. struct_ok. Qed.
#[export] Instance infos_codec_ok {T} (c : codec T) wf `{!CodecOk c wf, !CodecProgress c} :
  CodecOk (vec_codec (proposal_info_codec c)) (Forall (info_wf wf)).
Proof. apply (vec_codec_ok _ (info_wf wf)). Qed.

Definition reinit_wf (r : ReInitProposal) : Prop :=
  bytes_ok (ri_group_id r) /\ is_u16 (ri_version r) /\ is_u16 (ri_cipher_suite r) /\ extension_list_wf (ri_extensions r).

#[export] Instance reinit_option_codec_ok : CodecOk (option_codec reinit_codec) (option_wf reinit_wf).
Proof. apply (option_codec_ok _ reinit_wf). Qed.

Definition proposal_cache_wf (c : ProposalCache) : Prop :=
  is_u16 (pc_protocol_version c) /\ bytes_ok (pc_group_id c) /\ map_wf bytes_ok cached_proposal_wf (pc_proposals c) /\
  map_wf bytes_ok proposal_description_wf (pc_own_proposals c).

Definition group_state_wf (s : GroupState) : Prop :=
  proposal_cache_wf (st_proposals s) /\ group_context_wf (st_context s) /\ tree_kem_public_wf (st_public_tree s) /\
  bytes_ok (st_interim_transcript_hash s) /\ option_wf reinit_wf (st_pending_reinit s) /\
  bytes_ok (st_confirmation_tag s).

Definition new_epoch_wf (e : NewEpoch) : Prop :=
  is_u64 (ne_epoch e) /\ group_state_wf (ne_prior_state e) /\ Forall (info_wf proposal_wf) (ne_applied_proposals e) /\
  Forall (info_wf proposal_wf) (ne_unused_proposals e).

Definition commit_effect_wf (e : CommitEffect) : Prop :=
  match e with
  | EffectNewEpoch n => new_epoch_wf n
  | EffectRemoved n r => new_epoch_wf n /\ sender_wf r
  | EffectReInit r => info_wf reinit_wf r
  end.

Definition commit_description_wf (d : CommitMessageDescription) : Prop :=
  is_u32 (cmd_committer d) /\ commit_effect_wf (cmd_effect d) /\ bytes_ok (cmd_authenticated_data d).

Section state_laws.
Context `{MapOrder, !MapOrderLaws}.

#[export] Instance proposal_cache_codec_ok : CodecOk (proposal_cache_codec_with unchecked_codec) proposal_cache_wf.
Proof. struct_ok. Qed.
#[export] Instance group_state_codec_ok : CodecOk (group_state_codec_with unchecked_codec) group_state_wf.
Proof. struct_ok. Qed.
#[export] Instance new_epoch_codec_ok : CodecOk (new_epoch_codec_with unchecked_codec) new_epoch_wf.
Proof. struct_ok. Qed.
End state_laws.

(** ** Commits by reference *)

Definition transmitted {T} (p : ProposalInfo T) : bool := match source p with Local_ => false | _ => true end.

(** A proposal the holder of the cache [c] takes a commit of [s] to contain. *)
Definition sourced (c : ProposalCache) (s : Sender) (i : ProposalInfo Proposal) : Prop :=
  match source i with
  | ByValue => sender i = s
  | ByReference r => pc_proposals c !! r = Some (mk_cached_proposal (proposal i) (sender i))
  | Local_ => False
  end.

Definition or_ref (p : ProposalInfo Proposal) : option ProposalOrRef :=
  match source p with
  | ByValue => Some (OrProposal (proposal p))
  | ByReference r => Some (OrReference r)
  | Local_ => None
  end.

Definition from_info (p : ProposalInfo Proposal) : Proposal * Sender * ProposalSource := (proposal p, sender p, source p).

Definition add_infos (l : list (ProposalInfo Proposal)) (b : ProposalBundle) : ProposalBundle :=
  foldl (fun b p => bundle_add (proposal p) (sender p) (source p) b) b l.

Lemma add_infos_from_iter l : add_infos l bundle_empty = bundle_from_iter (from_info <$> l).
Proof.
  unfold add_infos, bundle_from_iter. generalize bundle_empty. induction l as [|p l IH]; intros b; [done|]. cbn. apply IH.
Qed.

Lemma resolve_loop_sourced c s l b : Forall (sourced c s) l -> resolve_loop c s (omap or_ref l) b = Ok (add_infos l b).
Proof.
  intros Hl. revert b. induction Hl as [|p l Hp Hl IH]; intros b; [done|].
  unfold sourced in Hp. cbn [omap list_omap]. unfold or_ref at 1.
  destruct p as [p sd [|r|]]; cbn [source sender proposal] in *; [subst sd|..|done].
  - apply IH.
  - cbn [resolve_loop]. rewrite Hp. apply IH.
Qed.

(** A commit names its references and proposals one by one, and fails exactly
    for a reference that is not cached. *)
Lemma resolve_loop_missing c s l b :
  (exists b', resolve_loop c s l b = Ok b') \/
  (resolve_loop c s l b = Err ProposalNotFound /\ exists r, OrReference r ∈ l /\ pc_proposals c !! r = None).
Proof.
  revert b. induction l as [|[p|r] l IH]; intros b; cbn [resolve_loop]; [by left; eexists|..].
  - destruct (IH (bundle_add p s ByValue b)) as [?|(? & r & ? & ?)]; [by left|]. right. split; [done|]. exists r. set_solver.
  - destruct (pc_proposals c !! r) as [p|] eqn:E; [|right; split; [done|exists r; set_solver]]. cbn [ok_or mbind res_bind].
    destruct (IH (bundle_add (cp_proposal p) (cp_sender p) (ByReference r) b)) as [?|(? & r' & ? & ?)]; [by left|].
    right. split; [done|]. exists r'. set_solver.
Qed.

(** *** A bundle is the list of its proposals *)

Lemma add_infos_app l l' b : add_infos (l ++ l') b = add_infos l' (add_infos l b).
Proof. apply foldl_app. Qed.

Lemma add_segment {T} (inj : T -> Proposal) (get : ProposalBundle -> list (ProposalInfo T))
    (put : list (ProposalInfo T) -> ProposalBundle -> ProposalBundle) :
  (forall x s o b, bundle_add (inj x) s o b = put (get b ++ [mk_info x s o]) b) ->
  (forall l b, get (put l b) = l) -> (forall l l' b, put l (put l' b) = put l b) -> (forall b, put (get b) b = b) ->
  forall l b, add_infos (info_map inj <$> l) b = put (get b ++ l) b.
Proof.
  intros Hadd Hget Hput Hid l. induction l as [|[x s o] l IH]; intros b; [by rewrite app_nil_r, Hid|].
  rewrite fmap_cons. cbn [add_infos foldl info_map proposal sender source]. rewrite Hadd. change (foldl _ ?b ?l) with (add_infos l b).
  by rewrite IH, Hget, Hput, <-app_assoc.
Qed.

Lemma add_iter_proposals b : add_infos (iter_proposals b) bundle_empty = set_update_senders [] b.
Proof.
  unfold iter_proposals. rewrite !add_infos_app.
  rewrite (add_segment PAdd additions set_additions) by (try done; by intros []).
  rewrite (add_segment PRemove removals set_removals) by (try done; by intros []).
  rewrite (add_segment PReInit reinitializations set_reinitializations) by (try done; by intros []).
  rewrite (add_segment PUpdate updates set_updates) by (try done; by intros []).
  rewrite (add_segment PPsk psks set_psks) by (try done; by intros []).
  rewrite (add_segment PExternalInit external_initializations set_external_initializations) by (try done; by intros []).
  rewrite (add_segment PGroupContextExtensions group_context_extensions set_group_context_extensions) by (try done; by intros []).
  rewrite (add_segment PCustom custom_proposals set_custom_proposals) by (try done; by intros []).
  by destruct b.
Qed.

Lemma resolve_rebuilds c s b :
  Forall (sourced c s) (iter_proposals b) -> resolve_for_commit c s (proposals_or_refs b) = Ok (set_update_senders [] b).
Proof.
  intros Hs. unfold resolve_for_commit. rewrite <-add_iter_proposals. by apply (resolve_loop_sourced c s _ bundle_empty).
Qed.

(** *** What a member prepares *)

Lemma iter_from_iter l : iter_proposals (bundle_from_iter l) ≡ₚ to_info <$> l.
Proof.
  induction l as [|[[p s] o] l IH] using rev_ind; [done|].
  rewrite from_iter_snoc, iter_add, IH, fmap_app. cbn. by rewrite <-Permutation_cons_append.
Qed.

Lemma prepare_commit_sourced `{MapOrder, !MapOrderLaws} c s ps : Forall (sourced c s) (iter_proposals (prepare_commit c s ps)).
Proof.
  unfold prepare_commit. rewrite iter_from_iter, fmap_app. apply Forall_app. split.
  - unfold by_refs. rewrite map_iter_perm, Forall_fmap, Forall_fmap. apply Forall_forall. intros [r p] Hp.
    apply elem_of_map_to_list in Hp. unfold sourced. cbn. rewrite Hp. by destruct p.
  - rewrite !Forall_fmap. by apply Forall_forall.
Qed.

Lemma resolve_loop_found c s l b b' r : resolve_loop c s l b = Ok b' -> OrReference r ∈ l -> is_Some (pc_proposals c !! r).
Proof.
  revert b. induction l as [|[p|r'] l IH]; intros b Hl Hr; [set_solver|..]; cbn [resolve_loop] in Hl.
  - eapply IH; [exact Hl|]. set_solver.
  - destruct (pc_proposals c !! r') as [p|] eqn:E; [|done]. apply elem_of_cons in Hr as [[= ->]|Hr]; [by eexists|].
    eapply IH; [exact Hl|done].
Qed.

Lemma resolve_for_commit_spec c s l :
  (exists b, resolve_for_commit c s l = Ok b) /\ (forall r, OrReference r ∈ l -> is_Some (pc_proposals c !! r)) \/
  resolve_for_commit c s l = Err ProposalNotFound /\ (exists r, OrReference r ∈ l /\ pc_proposals c !! r = None).
Proof.
  destruct (resolve_loop_missing c s l bundle_empty) as [(b & Hb)|?]; [left|by right].
  split; [by exists b|]. intros r Hr. by eapply resolve_loop_found.
Qed.

(** C9: a receiver that has cached the proposals the committer had rebuilds,
    from the references and values in the commit, the very bundle the committer
    applied, with the senders and sources the committer knew, for every bundle
    of prepared proposals that survived the committer's filters; a commit is
    refused exactly when one of its references is not cached. *)
Theorem commit_proposals_resolve `{MapOrder, !MapOrderLaws} (c c' : ProposalCache) (s : Sender) (ps : list Proposal)
    (b : ProposalBundle) (Hb : forall i, i ∈ iter_proposals b -> i ∈ iter_proposals (prepare_commit c s ps))
    (Hc : pc_proposals c ⊆ pc_proposals c') :
  resolve_for_commit c' s (proposals_or_refs b) = Ok (set_update_senders [] b) /\
  (forall l, (exists r, OrReference r ∈ l /\ pc_proposals c' !! r = None) <-> resolve_for_commit c' s l = Err ProposalNotFound) /\
  (forall l, (exists b', resolve_for_commit c' s l = Ok b') \/ resolve_for_commit c' s l = Err ProposalNotFound).
Proof.
  split_and!.
  - apply resolve_rebuilds. apply Forall_forall. intros i Hi.
    pose proof (proj1 (Forall_forall _ _) (prepare_commit_sourced c s ps) i (Hb i Hi)) as Hs.
    unfold sourced in *. destruct (source i); [done| |done]. by eapply lookup_weaken.
  - intros l. destruct (resolve_for_commit_spec c' s l) as [[(b' & E) Hall]|[E Hex]]; [|naive_solver].
    split; [|by rewrite E]. intros (r & Hr & Hn). destruct (Hall r Hr). congruence.
  - intros l. destruct (resolve_for_commit_spec c' s l) as [[? ?]|[? ?]]; auto.
Qed.

Definition sample_cache : ProposalCache :=
  cache_insert [2] (PRemove (mk_remove 4)) (SenderMember 3)
    (cache_insert [1] (PUpdate (mk_update sample_leaf)) (SenderMember 2) (cache_new 1 [7])).

(** The removal by reference was filtered out. *)
Definition sample_commit_bundle : ProposalBundle :=
  bundle_from_iter [(PUpdate (mk_update sample_leaf), SenderMember 2, ByReference [1]); (PRemove (mk_remove 5), SenderMember 0, ByValue)].

Lemma commit_proposals_resolve_witness :
  proposals_or_refs sample_commit_bundle = [OrProposal (PRemove (mk_remove 5)); OrReference [1]] /\
  resolve_for_commit sample_cache (SenderMember 0) (proposals_or_refs sample_commit_bundle) = Ok sample_commit_bundle.
Proof.
  destruct (commit_proposals_resolve (H := plain_order) sample_cache sample_cache (SenderMember 0) [PRemove (mk_remove 5)]
    sample_commit_bundle) as (H1 & _); [|done|split; [done|exact H1]].
  intros i Hi. unfold sample_commit_bundle in Hi. rewrite iter_from_iter in Hi. unfold prepare_commit. rewrite iter_from_iter, fmap_app. apply elem_of_app.
  cbn in Hi. apply elem_of_cons in Hi as [->|Hi]; [left|right; apply elem_of_cons in Hi as [->|Hi]; [by left|set_solver]].
  apply list_elem_of_fmap. exists (PUpdate (mk_update sample_leaf), SenderMember 2, ByReference [1]). split; [done|].
  unfold by_refs. apply list_elem_of_fmap. exists ([1], mk_cached_proposal (PUpdate (mk_update sample_leaf)) (SenderMember 2)).
  split; [done|]. change (map_iter (H := plain_order) ?m) with (map_to_list m). by apply elem_of_map_to_list.
Defined.
