(* ===== verification/Processor.v ===== *)
(** * Processing of messages

    The trait [MessageProcessor] of mls-rs/src/group/message_processor.rs, whose
    methods with a body process a message for a member of a group and for an
    observer of it: the class below states what an implementation provides, the
    definitions after it are the trait's own methods.  With it the checks that
    these methods share with joining a group (mls-rs/src/group/util.rs).

    A method on [&mut self] returns the new state.  [now] is the time of
    [MlsTime::now()]. *)

From S2P Require Import Prelude Codec Crypto TreeMath SecretTree Data NodeVec TreeIndex TreeHash ParentHash TreeInv Proposals TreeKem TreePath LeafNodes Kem Framing KeySchedule MessageProtection EpochStore Filtering GroupState.

#[local] Set Default Goal Selector "!".
Local Open Scope Z_scope.

(** ** Equality of group contexts and trees

    The derived [PartialEq], which compares extension lists as sets. *)

Definition group_context_eq (c c' : GroupContext) : bool :=
  bool_decide (protocol_version c = protocol_version c') && bool_decide (gc_cipher_suite c = gc_cipher_suite c') &&
  bool_decide (group_id c = group_id c') && bool_decide (epoch c = epoch c') &&
  bool_decide (tree_hash c = tree_hash c') && bool_decide (confirmed_transcript_hash c = confirmed_transcript_hash c') &&
  ext_list_eq (gc_extensions c) (gc_extensions c').

Definition node_eq (n n' : option Node) : bool :=
  match n, n' with
  | None, None => true
  | Some (NodeLeaf l), Some (NodeLeaf l') => leaf_node_eq l l'
  | Some (NodeParent p), Some (NodeParent p') => bool_decide (p = p')
  | _, _ => false
  end.

Definition node_vec_eq (v v' : NodeVec) : bool :=
  (length v =? length v')%nat && forallb (fun '(n, n') => node_eq n n') (zip v v').

(** ** Group infos *)

Section validation.
Context {idp : IdentityProvider} `{CipherSuiteProvider}.

Definition validate_group_info_common (msg_version : Z) (group_info : GroupInfo) (signer : SigningIdentity) : mres unit :=
  if negb (msg_version =? protocol_version (gi_group_context group_info)) then Err ProtocolVersionMismatch
  else if negb (gc_cipher_suite (gi_group_context group_info) =? cipher_suite) then Err CipherSuiteMismatch
  else signable_verify (signature_key signer) tt group_info.

Definition group_info_tree (group_info : GroupInfo) : mres (option NodeVec) :=
  from_extension_error (ext_get_as EXT_RATCHET_TREE ratchet_tree_codec (gi_extensions group_info)).

Definition validate_group_info_member (self_state : GroupState) (msg_version : Z) (group_info : GroupInfo) : mres unit :=
  signer ← get_leaf_node (st_public_tree self_state) (gi_signer group_info);
  _ ← validate_group_info_common msg_version group_info (signing_identity signer);
  tree ← group_info_tree group_info;
  _ ← match tree with
      | Some tree => guard_or InvalidGroupInfo (node_vec_eq tree (nodes (st_public_tree self_state)))
      | None => Ok tt
      end;
  guard_or InvalidGroupInfo (group_context_eq (gi_group_context group_info) (st_context self_state) &&
    bool_decide (gi_confirmation_tag group_info = st_confirmation_tag self_state)).

Definition validate_tree_joiner (group_info : GroupInfo) (tree : option NodeVec) (maybe_time : option Z) :
    mres TreeKemPublic :=
  ext ← group_info_tree group_info;
  tree ← match ext with Some t => Ok t | None => ok_or RatchetTreeNotFound tree end;
  let context := gi_group_context group_info in
  t ← import_node_data tree (gc_extensions context);
  match validate_tree context maybe_time t with
  | (Ok _, t) => Ok t
  | (Err e, _) => Err e
  | (Panic, _) => Panic
  end.

Definition validate_group_info_joiner (msg_version : Z) (group_info : GroupInfo) (signer : SigningIdentity) : mres unit :=
  let context := gi_group_context group_info in
  ext ← from_extension_error (ext_get_as EXT_EXTERNAL_SENDERS external_senders_codec (gc_extensions context));
  _ ← match ext with
      | Some senders => from_identity (verify_all senders None (gc_extensions context))
      | None => Ok tt
      end;
  validate_group_info_common msg_version group_info signer.

Definition validate_tree_and_info_joiner (msg_version : Z) (group_info : GroupInfo) (tree : option NodeVec)
    (maybe_time : option Z) : mres TreeKemPublic :=
  public_tree ← validate_tree_joiner group_info tree maybe_time;
  signer ← get_leaf_node public_tree (gi_signer group_info);
  _ ← validate_group_info_joiner msg_version group_info (signing_identity signer);
  Ok public_tree.

(** [validate_key_package] of message_processor.rs. *)
Definition validate_key_package (now : Z) (key_package : KeyPackage) (version : Z) (time : option Z) : mres unit :=
  let context := match time with Some t => Some t | None => Some now end in
  _ ← check_if_valid NoContext (kp_leaf_node key_package) (VAdd context);
  validate_key_package_properties key_package version.
End validation.

(** The first of the secrets whose key package is stored. *)
Fixpoint find_key_package_generation {K} `{KeyPackageStorage K} (key_package_repo : K) (secrets : list EncryptedGroupSecrets) :
    mres (EncryptedGroupSecrets * KeyPackageGeneration) :=
  match secrets with
  | [] => Err WelcomeKeyPackageNotFound
  | secret :: secrets =>
      maybe_data ← map_err KeyPackageRepoError (kps_get key_package_repo (new_member secret));
      match maybe_data with
      | Some data => (fun kpg => (secret, kpg)) <$> from_storage (new_member secret) data
      | None => find_key_package_generation key_package_repo secrets
      end
  end.

(** ** What a message leads to *)

Inductive ReceivedMessage :=
| ReceivedApplicationMessage (d : ApplicationMessageDescription)
| ReceivedCommit (d : CommitMessageDescription)
| ReceivedProposal (d : ProposalMessageDescription)
| ReceivedGroupInfo (g : GroupInfo)
| ReceivedWelcome
| ReceivedKeyPackage (k : KeyPackage).

(** The conversions an output type has. *)
Class MessageOutput (O : Type) := {
  out_application : ApplicationMessageDescription -> mres O;
  out_commit : CommitMessageDescription -> O;
  out_proposal : ProposalMessageDescription -> O;
  out_group_info : GroupInfo -> O;
  out_welcome : Welcome -> O;
  out_key_package : KeyPackage -> O;
}.

#[export] Instance received_message_output : MessageOutput ReceivedMessage := {|
  out_application d := Ok (ReceivedApplicationMessage d);
  out_commit := ReceivedCommit;
  out_proposal := ReceivedProposal;
  out_group_info := ReceivedGroupInfo;
  out_welcome _ := ReceivedWelcome;
  out_key_package := ReceivedKeyPackage;
|}.

Inductive EventOrContent (E : Type) :=
| Event (e : E)
| EventContent (c : AuthenticatedContent).
Arguments Event {_} _.
Arguments EventContent {_} _.

(** What a commit gives a member: its private keys and the commit secret. *)
Notation CommitSecretKeys := (option (TreeKemPrivate * PathSecret)) (only parsing).

Class MessageProcessor (M : Type) {idp : IdentityProvider} `{CipherSuiteProvider} (O R P : Type) := {
  mp_group_state : M -> GroupState;
  mp_set_group_state : GroupState -> M -> M;
  mp_mls_rules : M -> R;
  mp_psk_storage : M -> P;
  mp_removal_proposal : M -> ProvisionalState -> option (ProposalInfo RemoveProposal);
  mp_min_epoch_available : M -> option Z;
  mp_process_ciphertext : PrivateMessage -> SM M MlsError (EventOrContent O);
  mp_verify_plaintext_authentication : M -> PublicMessage -> mres (EventOrContent O);
  (** With the provisional state as it is after the call. *)
  mp_apply_update_path : Coins -> Z -> ValidatedUpdatePath -> ProvisionalState ->
    SM M MlsError (CommitSecretKeys * ProvisionalState);
  mp_update_key_schedule : CommitSecretKeys -> bytes -> ConfirmationTag -> ProvisionalState -> SM M MlsError unit;
}.

(** The implementation that keeps no private state: [apply_update_path] of the
    trait, which a member of the group replaces. *)
Definition default_apply_update_path {M} {idp : IdentityProvider} `{CipherSuiteProvider} (sender : Z)
    (update_path : ValidatedUpdatePath) (pv : ProvisionalState) : SM M MlsError (CommitSecretKeys * ProvisionalState) :=
  t ← sm_lift (sm_exec (apply_update_path sender update_path (gc_extensions (pv_group_context pv))) (pv_public_tree pv));
  mret (None, set_pv_public_tree t pv).

(** A method of the tree of a provisional state, which a failure discards. *)
Definition on_pv_tree {A} (m : SM TreeKemPublic MlsError A) (pv : ProvisionalState) : mres (A * ProvisionalState) :=
  match m (pv_public_tree pv) with
  | (Ok a, t) => Ok (a, set_pv_public_tree t pv)
  | (Err e, _) => Err e
  | (Panic, _) => Panic
  end.

(** ** The methods of the trait *)

Section processor.
Context {M : Type} {idp : IdentityProvider} `{CipherSuiteProvider} {O R P : Type} {mp : MessageProcessor M O R P}.
Context `{MapOrder, !MlsRules R, !PreSharedKeyStorage P, !MessageOutput O}.

Definition zoom_group_state {A} : SM GroupState MlsError A -> SM M MlsError A := sm_zoom mp_group_state mp_set_group_state.

(** The group, epoch and content type of a message that has them. *)
Definition message_metadata (message : MlsMessage) : option (bytes * Z * ContentType) :=
  match payload message with
  | Plain p => Some (fc_group_id (pm_content p), fc_epoch (pm_content p), content_type (fc_content (pm_content p)))
  | Cipher c => Some (prm_group_id c, prm_epoch c, prm_content_type c)
  | _ => None
  end.

Definition check_metadata (m : M) (message : MlsMessage) : mres unit :=
  let context := st_context (mp_group_state m) in
  _ ← guard_or ProtocolVersionMismatch (msg_version message =? protocol_version context);
  match message_metadata message with
  | Some (gid, e, ct) =>
      _ ← guard_or GroupIdMismatch (bool_decide (gid = group_id context));
      _ ← match ct with
          | CtCommit => guard_or InvalidEpoch (epoch context =? e)
          | CtProposal => guard_or InvalidEpoch (epoch context =? e)
          | CtApplication =>
              match mp_min_epoch_available m with
              | Some min => guard_or InvalidEpoch (negb (e <? min))
              | None => Ok tt
              end
          end;
      let check_epoch := bool_decide (ct = CtCommit) || bool_decide (ct = CtProposal) in
      _ ← guard_or InvalidEpoch (negb (check_epoch && negb (e =? epoch context)));
      guard_or UnencryptedApplicationMessage
        (negb (negb (match payload message with Cipher _ => true | _ => false end) && bool_decide (ct = CtApplication)))
  | None => Ok tt
  end.

Definition validate_welcome (m : M) (welcome : Welcome) (version : Z) : mres unit :=
  let context := st_context (mp_group_state m) in
  guard_or InvalidWelcomeMessage
    ((w_cipher_suite welcome =? gc_cipher_suite context) && (version =? protocol_version context)).

Definition process_application_message (data : bytes) (sender : Sender) (authenticated_data : bytes) :
    mres ApplicationMessageDescription :=
  match sender with
  | SenderMember sender_index => Ok (mk_application_description sender_index data authenticated_data)
  | _ => Err InvalidSender
  end.

Definition process_proposal (auth_content : AuthenticatedContent) (proposal : Proposal) (cache_proposal : bool) :
    SM M MlsError ProposalMessageDescription :=
  d ← sm_lift (proposal_description_new auth_content proposal);
  _ ← (if cache_proposal : bool then
         zoom_group_state (zoom_cache (sm_modify
           (cache_insert (pd_proposal_ref d) (pd_proposal d) (fc_sender (ac_content auth_content)))))
       else mret tt);
  mret d.

(** *** Commits *)

(** What the part of [process_commit] before its first effect computes. *)
Record CheckedCommit := mk_checked {
  ch_interim : bytes;
  ch_confirmed : bytes;
  ch_provisional : ProvisionalState;
  ch_sender : Z;
  ch_self_removed : option (ProposalInfo RemoveProposal);
  ch_update_path : option ValidatedUpdatePath;
}.

Definition check_commit (m : M) (auth_content : AuthenticatedContent) (time_sent : option Z) : mres CheckedCommit :=
  let state := mp_group_state m in
  let from := fc_sender (ac_content auth_content) in
  _ ← guard_or GroupUsedAfterReInit (bool_decide (st_pending_reinit state = None));
  '(interim, confirmed) ← transcript_hashes (st_interim_transcript_hash state) auth_content;
  commit ← match fc_content (ac_content auth_content) with
           | ContentCommit commit => Ok commit
           | _ => Err UnexpectedMessageType
           end;
  proposals ← resolve_for_commit (st_proposals state) from (commit_proposals commit);
  pv ← apply_resolved state from proposals (path_leaf_node <$> commit_path commit) (mp_psk_storage m) (mp_mls_rules m)
         time_sent Receive;
  sender ← commit_sender from pv;
  _ ← guard_or CommitMissingPath
        (negb (path_update_required (pv_applied_proposals pv) && bool_decide (commit_path commit = None)));
  let self_removed := mp_removal_proposal m pv in
  update_path ← match commit_path commit with
                | Some update_path => Some <$> validate_update_path update_path pv sender time_sent (st_context state)
                | None => Ok None
                end;
  Ok (mk_checked interim confirmed pv sender self_removed update_path).

(** The effect of a commit; the last of its re-initializations is taken out of
    the bundle, and recorded in the state. *)
Definition take_commit_effect (self_removed : option (ProposalInfo RemoveProposal)) (pv : ProvisionalState) :
    SM M MlsError (CommitEffect * ProvisionalState) :=
  m ← sm_get;
  match last (reinitializations (pv_applied_proposals pv)) with
  | Some reinit =>
      _ ← zoom_group_state (sm_modify (set_pending_reinit (Some (proposal reinit))));
      mret (EffectReInit reinit,
            set_pv_applied_proposals
              (set_reinitializations (removelast (reinitializations (pv_applied_proposals pv))) (pv_applied_proposals pv)) pv)
  | None =>
      let new_epoch := new_epoch_new (mp_group_state m) pv in
      mret (match self_removed with
            | Some remove_proposal => EffectRemoved new_epoch (sender remove_proposal)
            | None => EffectNewEpoch new_epoch
            end, pv)
  end.

(** The new hashes of the context, once the update path is applied. *)
Definition finish_context (sender : Z) (confirmed : bytes) (pv : ProvisionalState) : mres ProvisionalState :=
  let pv := set_pv_group_context (set_confirmed_transcript_hash confirmed (pv_group_context pv)) pv in
  '(_, pv) ← on_pv_tree (update_hashes [sender]) pv;
  '(h, pv) ← on_pv_tree tree_kem_tree_hash pv;
  Ok (set_pv_group_context (set_context_tree_hash h (pv_group_context pv)) pv).

Definition process_commit (coins : Coins) (auth_content : AuthenticatedContent) (time_sent : option Z) :
    SM M MlsError CommitMessageDescription :=
  m ← sm_get;
  c ← sm_lift (check_commit m auth_content time_sent);
  let is_self_removed := bool_decide (is_Some (ch_self_removed c)) in
  '(effect, pv) ← take_commit_effect (ch_self_removed c) (ch_provisional c);
  '(new_secrets, pv) ← match ch_update_path c with
                       | Some update_path =>
                           if is_self_removed then mret (None, pv)
                           else mp_apply_update_path coins (ch_sender c) update_path pv
                       | None => mret (None, pv)
                       end;
  pv ← sm_lift (finish_context (ch_sender c) (ch_confirmed c) pv);
  match confirmation_tag (ac_auth auth_content) with
  | Some tag =>
      _ ← (if is_self_removed : bool then mret tt else mp_update_key_schedule new_secrets (ch_interim c) tag pv);
      mret (mk_commit_description (bool_decide (fc_sender (ac_content auth_content) = NewMemberCommit)) (ch_sender c)
              effect (authenticated_data (ac_content auth_content)))
  | None => sm_lift (Err InvalidConfirmationTag)
  end.

(** *** Messages *)

Definition process_auth_content (coins : Coins) (auth_content : AuthenticatedContent) (cache_proposal : bool)
    (time_sent : option Z) : SM M MlsError O :=
  let content := ac_content auth_content in
  match fc_content content with
  | ContentApplication data =>
      sm_lift (d ← process_application_message data (fc_sender content) (authenticated_data content);
               out_application d)
  | ContentCommit _ => d ← process_commit coins auth_content time_sent; mret (out_commit d)
  | ContentProposal p => d ← process_proposal auth_content p cache_proposal; mret (out_proposal d)
  end.

Definition process_event_or_content (coins : Coins) (event_or_content : EventOrContent O) (cache_proposal : bool)
    (time_sent : option Z) : SM M MlsError O :=
  match event_or_content with
  | Event event => mret event
  | EventContent content => process_auth_content coins content cache_proposal time_sent
  end.

Definition get_event_from_incoming_message (now : Z) (message : MlsMessage) (time : option Z) :
    SM M MlsError (EventOrContent O) :=
  m ← sm_get;
  _ ← sm_lift (check_metadata m message);
  match payload message with
  | Plain plaintext => sm_lift (mp_verify_plaintext_authentication m plaintext)
  | Cipher cipher_text => mp_process_ciphertext cipher_text
  | PayloadGroupInfo group_info =>
      _ ← sm_lift (validate_group_info_member (mp_group_state m) (msg_version message) group_info);
      mret (Event (out_group_info group_info))
  | PayloadWelcome welcome =>
      _ ← sm_lift (validate_welcome m welcome (msg_version message));
      mret (Event (out_welcome welcome))
  | PayloadKeyPackage key_package =>
      _ ← sm_lift (validate_key_package now key_package (msg_version message) time);
      mret (Event (out_key_package key_package))
  end.

Definition mp_process_incoming_message_with_time (coins : Coins) (now : Z) (message : MlsMessage) (cache_proposal : bool)
    (time_sent : option Z) : SM M MlsError O :=
  event_or_content ← get_event_from_incoming_message now message time_sent;
  process_event_or_content coins event_or_content cache_proposal time_sent.

Definition mp_process_incoming_message (coins : Coins) (now : Z) (message : MlsMessage) (cache_proposal : bool) :
    SM M MlsError O :=
  mp_process_incoming_message_with_time coins now message cache_proposal None.
End processor.

(** * Correctness *)

Section messages.
Context {M : Type} {idp : IdentityProvider} `{CipherSuiteProvider} {O R P : Type} {mp : MessageProcessor M O R P}.
Context `{MapOrder, !MlsRules R, !PreSharedKeyStorage P, !MessageOutput O}.

(** A message of the group that its state can process: of its version, and if
    it belongs to a group of this one; handshake messages of its epoch only,
    application messages encrypted. *)
Definition addressed (m : M) (message : MlsMessage) : Prop :=
  let context := st_context (mp_group_state m) in
  msg_version message = protocol_version context /\
  forall gid e ct, message_metadata message = Some (gid, e, ct) -> gid = group_id context /\
    match ct with
    | CtApplication => (exists c, payload message = Cipher c) /\ forall min, mp_min_epoch_available m = Some min -> min <= e
    | CtProposal | CtCommit => e = epoch context
    end.

Lemma guard_or_cases {E} (e : E) (b : bool) : guard_or e b = Ok tt /\ b = true \/ guard_or e b = Err e /\ b = false.
Proof. destruct b; auto. Qed.

Lemma check_metadata_spec m message :
  check_metadata m message = Ok tt /\ addressed m message \/
  ~ addressed m message /\ exists e, check_metadata m message = Err e /\
    e ∈ [ProtocolVersionMismatch; GroupIdMismatch; InvalidEpoch; UnencryptedApplicationMessage].
Proof.
  unfold check_metadata, addressed. set (context := st_context (mp_group_state m)).
  destruct (guard_or_cases ProtocolVersionMismatch (msg_version message =? protocol_version context)) as [[-> Ev]|[-> Ev]];
    [apply Z.eqb_eq in Ev|right; split; [intros [? _]; lia|eexists; split; [done|set_solver]]].
  cbn [mbind res_bind].
  destruct (message_metadata message) as [[[gid e] ct]|] eqn:Em; [|by left].
  destruct (guard_or_cases GroupIdMismatch (bool_decide (gid = group_id context))) as [[-> Eg]|[-> Eg]];
    [apply bool_decide_eq_true in Eg
    |apply bool_decide_eq_false in Eg; right; split; [intros [_ Hx]; by destruct (Hx _ _ _ eq_refl)|eexists; split; [done|set_solver]]].
  cbn [mbind res_bind]. destruct ct; cbn [bool_decide orb andb negb].
  - assert (match payload message with Cipher _ => true | _ => false end = true <-> exists c, payload message = Cipher c) as Hc.
    { destruct (payload message); naive_solver. }
    destruct (mp_min_epoch_available m) as [min|]; cbn [guard_or mbind res_bind]; [destruct (Z.ltb_spec e min)|];
      cbn [guard_or mbind res_bind negb andb].
    + right. split; [|eexists; split; [done|set_solver]]. intros [_ Hx]. destruct (Hx _ _ _ eq_refl) as (_ & _ & Hm).
      specialize (Hm min eq_refl). lia.
    + destruct (match payload message with Cipher _ => true | _ => false end) eqn:Ep.
      * left. split; [done|]. split; [done|]. intros ??? [= <- <- <-]. split_and!; [done|by apply Hc|]. intros ? [= <-]. lia.
      * right. split; [|eexists; split; [done|set_solver]]. intros [_ Hx]. destruct (Hx _ _ _ eq_refl) as (_ & Hp & _).
        apply Hc in Hp. congruence.
    + destruct (match payload message with Cipher _ => true | _ => false end) eqn:Ep.
      * left. split; [done|]. split; [done|]. intros ??? [= <- <- <-]. split_and!; [done|by apply Hc|done].
      * right. split; [|eexists; split; [done|set_solver]]. intros [_ Hx]. destruct (Hx _ _ _ eq_refl) as (_ & Hp & _).
        apply Hc in Hp. congruence.
  - destruct (Z.eqb_spec (epoch context) e) as [<-|Hne]; cbn [guard_or mbind res_bind].
    + rewrite Z.eqb_refl. cbn [negb andb guard_or]. rewrite andb_false_r. left. split; [done|]. split; [done|].
      by intros ??? [= <- <- <-].
    + right. split; [|eexists; split; [done|set_solver]]. intros [_ Hx]. by destruct (Hx _ _ _ eq_refl) as (_ & ->).
  - destruct (Z.eqb_spec (epoch context) e) as [<-|Hne]; cbn [guard_or mbind res_bind].
    + rewrite Z.eqb_refl. cbn [negb andb guard_or]. rewrite andb_false_r. left. split; [done|]. split; [done|].
      by intros ??? [= <- <- <-].
    + right. split; [|eexists; split; [done|set_solver]]. intros [_ Hx]. by destruct (Hx _ _ _ eq_refl) as (_ & ->).
Qed.

(** C19: whatever the implementation of the processor, a message of another
    protocol version, of another group, a handshake message of another epoch
    and an application message that is not encrypted or too old are refused,
    with the state as it was; every other message passes the check. *)
Theorem foreign_messages_refused (m : M) (coins : Coins) (now : Z) (message : MlsMessage) (cache_proposal : bool)
    (time : option Z) :
  (check_metadata m message = Ok tt <-> addressed m message) /\
  (~ addressed m message -> exists e,
     e ∈ [ProtocolVersionMismatch; GroupIdMismatch; InvalidEpoch; UnencryptedApplicationMessage] /\
     mp_process_incoming_message_with_time coins now message cache_proposal time m = (Err e, m)).
Proof.
  destruct (check_metadata_spec m message) as [[E Ha]|[Ha (e & E & He)]]; [naive_solver|].
  split; [by rewrite E|]. intros _. exists e. split; [done|].
  unfold mp_process_incoming_message_with_time, get_event_from_incoming_message. apply sm_bind_err. rewrite sm_get_run.
  apply sm_bind_err. unfold sm_lift. by rewrite E.
Qed.
End messages.
