(* ===== verification/Group.v ===== *)
(** * A member's view of a group

    The type [Group] of mls-rs/src/group/mod.rs: its state, the messages it
    sends and receives, and how it is stored (mls-rs/src/group/snapshot.rs).
    [Group] is a [MessageProcessor]; creating commits is in Commit.v.

    The configuration of a client is a type with a [ClientConfig] instance.  The
    provider of a cipher suite is the class instance in scope; where a group is
    created or joined the provider is looked up in the crypto provider, and the
    result carries it.  [now] is the time of [MlsTime::now()]. *)

From S2P Require Import Prelude Codec Crypto TreeMath SecretTree Data NodeVec TreeIndex TreeHash ParentHash TreeInv Proposals TreeKem TreePath LeafNodes Kem Framing KeySchedule MessageProtection EpochStore Filtering GroupState Processor.

#[local] Set Default Goal Selector "!".
Local Open Scope Z_scope.

(** ** The configuration of a client *)

(** The provider of a suite with what it draws; the operations that look up a
    provider take their coins for any suite. *)
Record Suite := mk_suite { suite_provider : CipherSuiteProvider; suite_coins : Z -> @Coins suite_provider }.

Record CryptoProvider := mk_crypto_provider {
  supported_cipher_suites : list Z;
  crypto_suite : Z -> option Suite;
}.

(** [cipher_suite_provider] of util.rs. *)
Definition cipher_suite_provider (crypto : CryptoProvider) (cs : Z) : mres Suite :=
  ok_or (UnsupportedCipherSuite cs) (crypto_suite crypto cs).

Class ClientConfig (C K P S R : Type) := {
  supported_extensions : C -> list Z;
  supported_custom_proposals : C -> list Z;
  supported_protocol_versions : C -> list Z;
  cfg_key_package_repo : C -> K;
  cfg_mls_rules : C -> R;
  secret_store : C -> P;
  group_state_storage : C -> S;
  crypto_provider : C -> CryptoProvider;
  (** With the current time. *)
  config_lifetime : C -> Z -> option Z -> Lifetime;
  (** The storages are shared handles: what is written to one is seen by the
      next reader of the configuration. *)
  cfg_set_key_package_repo : K -> C -> C;
  cfg_set_group_state_storage : S -> C -> C;
}.

Section config.
Context {C K P S R : Type} {cc : ClientConfig C K P S R} {idp : IdentityProvider}.

Definition config_capabilities (c : C) : Capabilities :=
  mk_capabilities (supported_protocol_versions c) (supported_cipher_suites (crypto_provider c)) (supported_extensions c)
    (supported_custom_proposals c) supported_types.

Definition version_supported (c : C) (version : Z) : bool := bool_decide (version ∈ supported_protocol_versions c).

Definition leaf_properties (c : C) (leaf_node_extensions : ExtensionList) : ConfigProperties :=
  mk_config_properties (config_capabilities c) leaf_node_extensions.
End config.

(** [TreeKemPublic::derive]. *)
Definition tree_kem_derive {idp : IdentityProvider} `{CipherSuiteProvider} (leaf_node : LeafNode) (secret_key : HpkeSecretKey)
    (extensions : ExtensionList) : mres (TreeKemPublic * TreeKemPrivate) :=
  public_tree ← sm_exec (add_leaf leaf_node extensions None) tree_kem_new;
  Ok (public_tree, new_self_leaf 0 secret_key).

(** ** Pending commits *)

(** What applying an own commit installs (commit.rs). *)
Record PendingCommit := mk_pending_commit {
  pnd_state : GroupState;
  pnd_epoch_secrets : EpochSecrets;
  pnd_private_tree : TreeKemPrivate;
  pnd_key_schedule : KeySchedule;
  pnd_signer : SignatureSecretKey;
  pnd_output : CommitMessageDescription;
  pnd_commit_message_hash : bytes;
}.

Definition pending_commit_codec_with `{MapOrder} (pc : codec Proposal) : codec PendingCommit :=
  struct_codec
    (fun p => (pnd_state p, (pnd_epoch_secrets p, (pnd_private_tree p, (pnd_key_schedule p, (pnd_signer p,
                (pnd_output p, pnd_commit_message_hash p)))))))
    (fun '(s, (e, (t, (k, (g, (o, h)))))) => mk_pending_commit s e t k g o h)
    (pair_codec (group_state_codec_with pc) (pair_codec epoch_secrets_stored_codec (pair_codec tree_kem_private_codec
      (pair_codec key_schedule_codec (pair_codec byte_vec_codec
        (pair_codec (commit_description_codec_with pc) byte_vec_codec)))))).

Definition pending_commit_codec `{MapOrder} : codec PendingCommit := pending_commit_codec_with proposal_codec.

Record LegacyPendingCommit := mk_legacy_commit {
  lpc_content : AuthenticatedContent;
  lpc_private_tree : TreeKemPrivate;
  lpc_commit_secret : PathSecret;
  lpc_commit_message_hash : bytes;
}.

Definition legacy_commit_codec_with (pc : codec Proposal) : codec LegacyPendingCommit :=
  struct_codec (fun l => (lpc_content l, (lpc_private_tree l, (lpc_commit_secret l, lpc_commit_message_hash l))))
    (fun '(c, (t, (s, h))) => mk_legacy_commit c t s h)
    (pair_codec (authenticated_content_codec_with pc) (pair_codec tree_kem_private_codec
      (pair_codec path_secret_codec byte_vec_codec))).

Inductive PendingCommitSnapshot :=
| NoPendingCommit
| LegacyPending (l : LegacyPendingCommit)
| PendingBytes (b : bytes).

Definition pending_snapshot_codec_with (pc : codec Proposal) : codec PendingCommitSnapshot :=
  enum_codec u8_codec
    (fun s => match s with NoPendingCommit => 0 | LegacyPending _ => 1 | PendingBytes _ => 2 end)
    (fun t =>
       if t =? 0 then
         Some (variant_codec (fun _ => NoPendingCommit)
                 (fun s => match s with NoPendingCommit => Some tt | _ => None end) unit_codec)
       else if t =? 1 then
         Some (variant_codec LegacyPending (fun s => match s with LegacyPending l => Some l | _ => None end)
                 (legacy_commit_codec_with pc))
       else if t =? 2 then
         Some (variant_codec PendingBytes (fun s => match s with PendingBytes b => Some b | _ => None end) byte_vec_codec)
       else None).

Definition pending_is_none (s : PendingCommitSnapshot) : bool :=
  match s with NoPendingCommit => true | _ => false end.

(** [PendingCommitSnapshot::commit_hash]. *)
Definition commit_hash `{MapOrder} (s : PendingCommitSnapshot) : mres (option bytes) :=
  match s with
  | NoPendingCommit => Ok None
  | PendingBytes b => '(p, _) ← from_codec (mls_decode pending_commit_codec b); Ok (Some (pnd_commit_message_hash p))
  | LegacyPending l => Ok (Some (lpc_commit_message_hash l))
  end.

(** [CommitSecrets]. *)
Definition commit_secrets_from_bytes (b : bytes) : mres PendingCommitSnapshot :=
  fst <$> from_codec (mls_decode (pending_snapshot_codec_with proposal_codec) b).

Definition commit_secrets_to_bytes (s : PendingCommitSnapshot) : mres bytes :=
  from_codec (mls_encode_to_vec (pending_snapshot_codec_with proposal_codec) s).

(** ** The stored form of a group *)

Record RawGroupState := mk_raw_state {
  rw_context : GroupContext;
  rw_proposals : gmap bytes CachedProposal;
  rw_own_proposals : gmap bytes ProposalMessageDescription;
  rw_public_tree : TreeKemPublic;
  rw_interim_transcript_hash : bytes;
  rw_pending_reinit : option ReInitProposal;
  rw_confirmation_tag : ConfirmationTag;
}.

Definition raw_state_export (state : GroupState) : RawGroupState :=
  mk_raw_state (st_context state) (pc_proposals (st_proposals state)) (pc_own_proposals (st_proposals state))
    (st_public_tree state) (st_interim_transcript_hash state) (st_pending_reinit state) (st_confirmation_tag state).

(** [ProposalCache::import] is the constructor. *)
Definition raw_state_import {idp : IdentityProvider} `{CipherSuiteProvider} (r : RawGroupState) : mres GroupState :=
  let context := rw_context r in
  let proposals := mk_proposal_cache (protocol_version context) (group_id context) (rw_proposals r) (rw_own_proposals r) in
  public_tree ← sm_exec (initialize_index_if_necessary (gc_extensions context)) (rw_public_tree r);
  Ok (mk_group_state proposals context public_tree (rw_interim_transcript_hash r) (rw_pending_reinit r)
        (rw_confirmation_tag r)).

Definition raw_state_codec_with `{MapOrder} (pc : codec Proposal) : codec RawGroupState :=
  struct_codec
    (fun r => (rw_context r, (rw_proposals r, (rw_own_proposals r, (rw_public_tree r, (rw_interim_transcript_hash r,
                (rw_pending_reinit r, rw_confirmation_tag r)))))))
    (fun '(c, (p, (o, (t, (i, (r, g)))))) => mk_raw_state c p o t i r g)
    (pair_codec group_context_codec (pair_codec (cached_map_codec_with pc) (pair_codec (own_map_codec_with pc)
      (pair_codec tree_kem_public_codec (pair_codec byte_vec_codec (pair_codec (option_codec reinit_codec)
        byte_vec_codec)))))).

Notation PendingUpdates := (gmap bytes (HpkeSecretKey * option SignatureSecretKey)).

Record Snapshot := mk_snapshot {
  sn_version : Z;
  sn_state : RawGroupState;
  sn_private_tree : TreeKemPrivate;
  sn_epoch_secrets : EpochSecrets;
  sn_key_schedule : KeySchedule;
  sn_pending_updates : PendingUpdates;
  sn_pending_commit : PendingCommitSnapshot;
  sn_signer : SignatureSecretKey;
}.

Definition pending_update_codec : codec (HpkeSecretKey * option SignatureSecretKey) :=
  pair_codec byte_vec_codec (option_codec byte_vec_codec).

Definition snapshot_codec_with `{MapOrder} (pc : codec Proposal) : codec Snapshot :=
  struct_codec
    (fun s => (sn_version s, (sn_state s, (sn_private_tree s, (sn_epoch_secrets s, (sn_key_schedule s,
                (sn_pending_updates s, (sn_pending_commit s, sn_signer s))))))))
    (fun '(v, (r, (t, (e, (k, (u, (c, g))))))) => mk_snapshot v r t e k u c g)
    (pair_codec u16_codec (pair_codec (raw_state_codec_with pc) (pair_codec tree_kem_private_codec
      (pair_codec epoch_secrets_stored_codec (pair_codec key_schedule_codec
        (pair_codec (map_codec byte_vec_codec pending_update_codec map_iter)
          (pair_codec (pending_snapshot_codec_with pc) byte_vec_codec))))))).

Definition snapshot_codec `{MapOrder} : codec Snapshot := snapshot_codec_with proposal_codec.

Definition prior_epoch_stored_codec `{MapOrder} : codec PriorEpoch :=
  prior_epoch_codec (fun h => (map_iter h).*2) map_iter.

(** ** The group *)

Record Group (C S K : Type) := mk_group {
  g_config : C;
  g_state_repo : GroupStateRepository S K;
  g_state : GroupState;
  g_epoch_secrets : EpochSecrets;
  g_private_tree : TreeKemPrivate;
  g_key_schedule : KeySchedule;
  g_pending_updates : PendingUpdates;
  g_pending_commit : PendingCommitSnapshot;
  g_previous_psk : option PskSecretInput;
  g_signer : SignatureSecretKey;
}.
Arguments mk_group {_ _ _} _ _ _ _ _ _ _ _ _ _.
Arguments g_config {_ _ _} _.
Arguments g_state_repo {_ _ _} _.
Arguments g_state {_ _ _} _.
Arguments g_epoch_secrets {_ _ _} _.
Arguments g_private_tree {_ _ _} _.
Arguments g_key_schedule {_ _ _} _.
Arguments g_pending_updates {_ _ _} _.
Arguments g_pending_commit {_ _ _} _.
Arguments g_previous_psk {_ _ _} _.
Arguments g_signer {_ _ _} _.

Section setters.
Context {C S K : Type}.
Notation Grp := (Group C S K).

Definition set_g_state_repo (r : GroupStateRepository S K) (g : Grp) : Grp :=
  mk_group (g_config g) r (g_state g) (g_epoch_secrets g) (g_private_tree g) (g_key_schedule g) (g_pending_updates g)
    (g_pending_commit g) (g_previous_psk g) (g_signer g).
Definition set_g_state (s : GroupState) (g : Grp) : Grp :=
  mk_group (g_config g) (g_state_repo g) s (g_epoch_secrets g) (g_private_tree g) (g_key_schedule g) (g_pending_updates g)
    (g_pending_commit g) (g_previous_psk g) (g_signer g).
Definition set_g_epoch_secrets (e : EpochSecrets) (g : Grp) : Grp :=
  mk_group (g_config g) (g_state_repo g) (g_state g) e (g_private_tree g) (g_key_schedule g) (g_pending_updates g)
    (g_pending_commit g) (g_previous_psk g) (g_signer g).
Definition set_g_private_tree (t : TreeKemPrivate) (g : Grp) : Grp :=
  mk_group (g_config g) (g_state_repo g) (g_state g) (g_epoch_secrets g) t (g_key_schedule g) (g_pending_updates g)
    (g_pending_commit g) (g_previous_psk g) (g_signer g).
Definition set_g_key_schedule (k : KeySchedule) (g : Grp) : Grp :=
  mk_group (g_config g) (g_state_repo g) (g_state g) (g_epoch_secrets g) (g_private_tree g) k (g_pending_updates g)
    (g_pending_commit g) (g_previous_psk g) (g_signer g).
Definition set_g_pending_updates (u : PendingUpdates) (g : Grp) : Grp :=
  mk_group (g_config g) (g_state_repo g) (g_state g) (g_epoch_secrets g) (g_private_tree g) (g_key_schedule g) u
    (g_pending_commit g) (g_previous_psk g) (g_signer g).
Definition set_g_pending_commit (p : PendingCommitSnapshot) (g : Grp) : Grp :=
  mk_group (g_config g) (g_state_repo g) (g_state g) (g_epoch_secrets g) (g_private_tree g) (g_key_schedule g)
    (g_pending_updates g) p (g_previous_psk g) (g_signer g).
Definition set_g_previous_psk (p : option PskSecretInput) (g : Grp) : Grp :=
  mk_group (g_config g) (g_state_repo g) (g_state g) (g_epoch_secrets g) (g_private_tree g) (g_key_schedule g)
    (g_pending_updates g) (g_pending_commit g) p (g_signer g).
Definition set_g_signer (k : SignatureSecretKey) (g : Grp) : Grp :=
  mk_group (g_config g) (g_state_repo g) (g_state g) (g_epoch_secrets g) (g_private_tree g) (g_key_schedule g)
    (g_pending_updates g) (g_pending_commit g) (g_previous_psk g) k.

Definition zoom_g_state {A} : SM GroupState MlsError A -> SM Grp MlsError A := sm_zoom g_state set_g_state.
Definition zoom_g_repo {A} : SM (GroupStateRepository S K) MlsError A -> SM Grp MlsError A :=
  sm_zoom g_state_repo set_g_state_repo.

#[export] Instance group_state_provider : GroupStateProvider Grp := {|
  gsp_group_context g := st_context (g_state g);
  gsp_self_index g := self_index (g_private_tree g);
  gsp_epoch_secrets := g_epoch_secrets;
  gsp_set_epoch_secrets := set_g_epoch_secrets;
|}.

#[export] Instance group_state_provider_laws : GroupStateProviderLaws Grp.
Proof. by split. Qed.
End setters.

(** ** Creating and joining a group *)

Record NewMemberInfo := mk_new_member_info { nmi_group_info_extensions : ExtensionList; nmi_sender : Z }.

Section joining.
Context {idp : IdentityProvider} {C K P S R : Type} {cc : ClientConfig C K P S R}.
Context `{MapOrder, !GroupStateStorage S, !KeyPackageStorage K, !PreSharedKeyStorage P}.
Notation Grp := (Group C S K).

(** What creating a group draws. *)
Record NewGroupCoins {cs : CipherSuiteProvider} := mk_new_group_coins {
  ngc_leaf_key : Coins;
  ngc_leaf_signature : Coins;
  ngc_group_id : Coins;
  ngc_epoch_secret : Coins;
}.

(** [Group::new], with the provider of the cipher suite. *)
Definition group_new_with {cs : CipherSuiteProvider} (coins : NewGroupCoins) (now : Z) (config : C) (gid : option bytes)
    (version : Z) (signing_identity : SigningIdentity) (group_context_extensions leaf_node_extensions : ExtensionList)
    (signer : SignatureSecretKey) (maybe_now_time : option Z) : mres Grp :=
  '(leaf_node, leaf_node_secret) ← leaf_generate (ngc_leaf_key coins) (ngc_leaf_signature coins)
      (leaf_properties config leaf_node_extensions) signing_identity signer (config_lifetime config now maybe_now_time);
  '(public_tree, private_tree) ← tree_kem_derive leaf_node leaf_node_secret group_context_extensions;
  '(tree_hash, public_tree) ← match tree_kem_tree_hash public_tree with
                              | (Ok h, t) => Ok (h, t)
                              | (Err e, _) => Err e
                              | (Panic, _) => Panic
                              end;
  gid ← match gid with
        | Some gid => Ok gid
        | None => from_crypto (random_bytes_vec (ngc_group_id coins) kdf_extract_size)
        end;
  let context := group_context_new version cipher_suite gid tree_hash group_context_extensions in
  leaf ← get_leaf_node public_tree 0;
  _ ← check_if_valid (ForNewGroup context) leaf (VAdd maybe_now_time);
  let state_repo := repository_new (group_id context) (group_state_storage config) (cfg_key_package_repo config) None in
  r ← from_random_epoch_secret (ngc_epoch_secret coins) (total_leaf_count (nodes public_tree));
  tag ← confirmation_tag_create (confirmation_key r) [];
  interim_hash ← interim_transcript_create [] tag;
  Ok (mk_group config state_repo (group_state_new context public_tree interim_hash tag) (epoch_secrets r) private_tree
        (kd_key_schedule r) ∅ NoPendingCommit None signer).

Definition psk_secret {cs : CipherSuiteProvider} (config : C) (psks : list PreSharedKeyID)
    (additional_psk : option PskSecretInput) : mres PskSecret :=
  match additional_psk with
  | Some psk =>
      psk_id ← ok_or UnexpectedPskId (head psks);
      _ ← match key_id psk_id with
          | Resumption r => match usage r with UsageApplication => Err UnexpectedPskId | _ => Ok tt end
          | External _ => Err UnexpectedPskId
          end;
      psk_calculate [mk_psk_input (mk_psk_id (key_id (pi_id psk)) (psk_nonce psk_id)) (pi_psk psk)]
  | None =>
      resolve_to_secret (S := S) (K := K) prior_epoch_stored_codec (mk_resolver None None None (secret_store config)) psks
  end.

(** [decrypt_group_info_internal], with the provider of the suite of the
    welcome message. *)
Definition decrypt_welcome {cs : CipherSuiteProvider} (version : Z) (welcome : Welcome) (config : C)
    (additional_psk : option PskSecretInput) : mres (GroupInfo * KeyPackageGeneration * GroupSecrets * PskSecret) :=
  '(secrets, generation) ← find_key_package_generation (cfg_key_package_repo config) (w_secrets welcome);
  _ ← guard_or ProtocolVersionMismatch (kp_version (kpg_key_package generation) =? version);
  group_secrets ← he_decrypt (A := GroupSecrets) (kpg_init_secret_key generation)
      (hpke_init_key (kpg_key_package generation)) (encrypted_group_info welcome) (encrypted_group_secrets secrets);
  psk ← psk_secret config (gs_psks group_secrets) additional_psk;
  welcome_secret ← welcome_from_joiner_secret (joiner_secret group_secrets) psk;
  decrypted_group_info ← welcome_decrypt welcome_secret (encrypted_group_info welcome);
  '(group_info, _) ← from_codec (mls_decode group_info_codec decrypted_group_info);
  Ok (group_info, generation, group_secrets, psk).

Definition decrypt_group_info_internal (welcome : MlsMessage) (config : C) (additional_psk : option PskSecretInput) :
    mres (GroupInfo * KeyPackageGeneration * GroupSecrets * PskSecret) :=
  let version := msg_version welcome in
  _ ← guard_or (UnsupportedProtocolVersion version) (version_supported config version);
  match payload welcome with
  | PayloadWelcome w =>
      cipher_suite_provider (crypto_provider config) (w_cipher_suite w) ≫= fun s : Suite => let cs := suite_provider s in
      decrypt_welcome (cs := cs) version w config additional_psk
  | _ => Err UnexpectedMessageType
  end.

Definition decrypt_group_info (welcome : MlsMessage) (config : C) : mres GroupInfo :=
  (fun r => r.1.1.1) <$> decrypt_group_info_internal welcome config None.

(** [join_with]; the provider is that of the suite of the group. *)
Definition join_with {cs : CipherSuiteProvider} (config : C) (group_info : GroupInfo) (public_tree : TreeKemPublic)
    (key_schedule : KeySchedule) (epoch_secrets : EpochSecrets) (private_tree : TreeKemPrivate)
    (used_key_package_ref : option KeyPackageRef) (signer : SignatureSecretKey) : mres (Grp * NewMemberInfo) :=
  interim ← interim_transcript_create (confirmed_transcript_hash (gi_group_context group_info))
              (gi_confirmation_tag group_info);
  let state_repo := repository_new (group_id (gi_group_context group_info)) (group_state_storage config)
                      (cfg_key_package_repo config) used_key_package_ref in
  Ok (mk_group config state_repo
        (group_state_new (gi_group_context group_info) public_tree interim (gi_confirmation_tag group_info))
        epoch_secrets private_tree key_schedule ∅ NoPendingCommit None signer,
      mk_new_member_info (gi_extensions group_info) (gi_signer group_info)).

(** [from_welcome_message] from the decrypted group info on; without the feature
    [last_resort_key_package_ext] every key package is deleted when it is used. *)
Definition join_group_info {cs : CipherSuiteProvider} (coins : Coins) (version : Z) (group_info : GroupInfo)
    (generation : KeyPackageGeneration) (group_secrets : GroupSecrets) (psk_secret : PskSecret) (tree_data : option NodeVec)
    (config : C) (signer : SignatureSecretKey) (maybe_time : option Z) : mres (Grp * NewMemberInfo) :=
  public_tree ← validate_tree_and_info_joiner version group_info tree_data maybe_time;
  let key_package := kpg_key_package generation in
  self_index ← ok_or WelcomeKeyPackageNotFound (find_leaf_node public_tree (kp_leaf_node key_package));
  let is_last_resort := false in
  let used_key_package_ref := if is_last_resort : bool then None else Some (kpg_reference generation) in
  let private_tree := new_self_leaf self_index (kpg_leaf_node_secret_key generation) in
  private_tree ← match gs_path_secret group_secrets with
                 | Some path_secret =>
                     sm_exec (update_secrets coins (gi_signer group_info) path_secret public_tree) private_tree
                 | None => Ok private_tree
                 end;
  r ← from_joiner (joiner_secret group_secrets) (gi_group_context group_info) (total_leaf_count (nodes public_tree)) psk_secret;
  matches ← confirmation_tag_matches (gi_confirmation_tag group_info) (confirmation_key r)
              (confirmed_transcript_hash (gi_group_context group_info));
  _ ← guard_or InvalidConfirmationTag matches;
  join_with config group_info public_tree (kd_key_schedule r) (epoch_secrets r) private_tree used_key_package_ref signer.

Definition from_welcome_message (coins : forall s : Suite, @Coins (suite_provider s)) (welcome : MlsMessage)
    (tree_data : option NodeVec) (config : C) (signer : SignatureSecretKey) (additional_psk : option PskSecretInput)
    (maybe_time : option Z) : mres (Suite * (Grp * NewMemberInfo)) :=
  '(group_info, generation, group_secrets, psk) ← decrypt_group_info_internal welcome config additional_psk;
  cipher_suite_provider (crypto_provider config) (gc_cipher_suite (gi_group_context group_info)) ≫=
  fun s : Suite => let cs := suite_provider s in
  r ← join_group_info (cs := cs) (coins s) (msg_version welcome) group_info generation group_secrets psk tree_data config
        signer maybe_time;
  Ok (s, r).

Definition join (coins : forall s : Suite, @Coins (suite_provider s)) (welcome : MlsMessage) (tree_data : option NodeVec)
    (config : C) (signer : SignatureSecretKey) (maybe_time : option Z) :
    mres (Suite * (Grp * NewMemberInfo)) :=
  from_welcome_message coins welcome tree_data config signer None maybe_time.

(** [Group::new]. *)
Definition group_new (coins : forall s : Suite, NewGroupCoins (cs := suite_provider s)) (now : Z) (config : C) (gid : option bytes)
    (suite version : Z) (signing_identity : SigningIdentity) (group_context_extensions leaf_node_extensions : ExtensionList)
    (signer : SignatureSecretKey) (maybe_now_time : option Z) : mres (Suite * Grp) :=
  cipher_suite_provider (crypto_provider config) suite ≫= fun s : Suite => let cs := suite_provider s in
  g ← group_new_with (coins s) now config gid version signing_identity group_context_extensions leaf_node_extensions
        signer maybe_now_time;
  Ok (s, g).

(** ** Storing a group *)

Definition group_snapshot (g : Grp) : Snapshot :=
  mk_snapshot 1 (raw_state_export (g_state g)) (g_private_tree g) (g_epoch_secrets g) (g_key_schedule g)
    (g_pending_updates g) (g_pending_commit g) (g_signer g).

(** The repository writes a snapshot under the group id of its context. *)
Definition store_snapshot (s : Snapshot) : SM Grp MlsError unit :=
  zoom_g_repo (repo_write_to_storage prior_epoch_stored_codec (mls_encode_to_vec snapshot_codec s)
    (group_id (rw_context (sn_state s)))).

Definition write_to_storage : SM Grp MlsError unit :=
  g ← sm_get;
  store_snapshot (group_snapshot g).

Definition without_tree (s : Snapshot) : Snapshot :=
  let r := sn_state s in
  mk_snapshot (sn_version s)
    (mk_raw_state (rw_context r) (rw_proposals r) (rw_own_proposals r) (set_nodes [] (rw_public_tree r))
      (rw_interim_transcript_hash r) (rw_pending_reinit r) (rw_confirmation_tag r))
    (sn_private_tree s) (sn_epoch_secrets s) (sn_key_schedule s) (sn_pending_updates s) (sn_pending_commit s) (sn_signer s).

Definition write_to_storage_without_ratchet_tree : SM Grp MlsError unit :=
  g ← sm_get;
  store_snapshot (without_tree (group_snapshot g)).

Definition from_snapshot (config : C) (sn : Snapshot) : mres (Suite * Grp) :=
  cipher_suite_provider (crypto_provider config) (gc_cipher_suite (rw_context (sn_state sn))) ≫=
  fun s : Suite => let cs := suite_provider s in
  let state_repo := repository_new (group_id (rw_context (sn_state sn))) (group_state_storage config)
                      (cfg_key_package_repo config) None in
  state ← raw_state_import (sn_state sn);
  Ok (s, mk_group config state_repo state (sn_epoch_secrets sn) (sn_private_tree sn) (sn_key_schedule sn)
        (sn_pending_updates sn) (sn_pending_commit sn) None (sn_signer sn)).
End joining.

(** ** Operations of a member *)

(** [MlsMessage::into_key_package]. *)
Definition into_key_package (m : MlsMessage) : option KeyPackage :=
  match payload m with PayloadKeyPackage kp => Some kp | _ => None end.

(** component_operation.rs. *)
Record ComponentOperationLabel := mk_component_label { col_label : bytes; col_component_id : Z; col_context : bytes }.

Definition component_label_codec : codec ComponentOperationLabel :=
  struct_codec (fun l => (col_label l, (col_component_id l, col_context l))) (fun '(b, (i, c)) => mk_component_label b i c)
    (pair_codec (vec_codec u8_codec) (pair_codec u32_codec (vec_codec u8_codec))).

Definition component_label_new (component_id : Z) (context : bytes) : ComponentOperationLabel :=
  mk_component_label (bstr "MLS 1.0 Application") component_id context.

Section operations.
Context {idp : IdentityProvider} {cs : CipherSuiteProvider} {C K P S R : Type} {cc : ClientConfig C K P S R}.
Context `{MapOrder, !GroupStateStorage S, !KeyPackageStorage K, !PreSharedKeyStorage P, !MlsRules R}.
Notation Grp := (Group C S K).

(** *** Reading the state *)

Definition group_context (g : Grp) : GroupContext := st_context (g_state g).
Definition current_epoch (g : Grp) : Z := epoch (group_context g).
Definition current_epoch_tree (g : Grp) : TreeKemPublic := st_public_tree (g_state g).
Definition current_member_index (g : Grp) : Z := self_index (g_private_tree g).

Definition current_user_leaf_node (g : Grp) : mres LeafNode :=
  get_leaf_node (current_epoch_tree g) (self_index (g_private_tree g)).

Definition current_member_signing_identity (g : Grp) : mres SigningIdentity :=
  signing_identity <$> current_user_leaf_node g.

Definition group_member_at_index (g : Grp) (i : Z) : option Member := member_at_index (g_state g) i.

Definition member_with_identity (g : Grp) (id : bytes) : mres Member :=
  i ← ok_or MemberNotFound (get_leaf_index_with_identity (index (current_epoch_tree g)) id);
  node ← get_leaf_node (current_epoch_tree g) i;
  Ok (member_from_leaf_node node i).

Definition encryption_options (g : Grp) : mres EncryptionOptions :=
  from_rules (rules_encryption_options (cfg_mls_rules (g_config g)) (nodes (current_epoch_tree g)) (group_context g)).

Definition has_pending_commit (g : Grp) : bool := negb (pending_is_none (g_pending_commit g)).
Definition clear_pending_commit (g : Grp) : Grp := set_g_pending_commit NoPendingCommit g.
Definition commit_required (g : Grp) : bool := negb (cache_is_empty (st_proposals (g_state g))).

Definition clear_proposal_cache : SM Grp MlsError unit := zoom_g_state (zoom_cache (sm_modify cache_clear)).

(** *** Exporting and encrypting outside of messages *)

Definition epoch_authenticator (g : Grp) : bytes := authentication_secret (g_key_schedule g).

Definition group_export_secret (g : Grp) (label context : bytes) (len : Z) : mres bytes :=
  export_secret (g_key_schedule g) label context len.

Definition group_delete_exporter (g : Grp) : Grp := set_g_key_schedule (delete_exporter (g_key_schedule g)) g.

Definition export_tree (g : Grp) : NodeVec := nodes (current_epoch_tree g).

(** [hpke_encrypt_to_recipient_with_generic_context]. *)
Definition hpke_encrypt_to_recipient (coins : Coins) (g : Grp) (recipient_index : Z) (context_info : bytes)
    (associated_data : option bytes) (plaintext : bytes) : mres HpkeCiphertext :=
  i ← leaf_index_try_from recipient_index;
  member_leaf_node ← get_leaf_node (current_epoch_tree g) i;
  from_crypto (hpke_seal coins (leaf_public_key member_leaf_node) context_info associated_data plaintext).

Definition safe_encrypt_with_context_to_recipient (coins : Coins) (g : Grp) (recipient_index component_id : Z)
    (context : bytes) (associated_data : option bytes) (plaintext : bytes) : mres HpkeCiphertext :=
  label ← from_codec (mls_encode_to_vec component_label_codec (component_label_new component_id context));
  hpke_encrypt_to_recipient coins g recipient_index label associated_data plaintext.

Definition hpke_decrypt_for_current_member (g : Grp) (context_info : bytes) (associated_data : option bytes)
    (hpke_ciphertext : HpkeCiphertext) : mres bytes :=
  key ← unwrap (zget (secret_keys (g_private_tree g)) 0);
  self_private_key ← ok_or InvalidTreeKemPrivateKey key;
  leaf ← current_user_leaf_node g;
  from_crypto (hpke_open hpke_ciphertext self_private_key (leaf_public_key leaf) context_info associated_data).

Definition safe_decrypt_with_context_for_current_member (g : Grp) (component_id : Z) (context : bytes)
    (associated_data : option bytes) (hpke_ciphertext : HpkeCiphertext) : mres bytes :=
  label ← from_codec (mls_encode_to_vec component_label_codec (component_label_new component_id context));
  hpke_decrypt_for_current_member g label associated_data hpke_ciphertext.

(** *** Sending messages *)

Definition create_plaintext (g : Grp) (auth_content : AuthenticatedContent) : mres PublicMessage :=
  membership_tag ← match fc_sender (ac_content auth_content) with
                   | SenderMember _ => Some <$> get_membership_tag (g_key_schedule g) auth_content (group_context g)
                   | _ => Ok None
                   end;
  Ok (mk_public_message (ac_content auth_content) (ac_auth auth_content) membership_tag).

(** [coins] is what the reuse guard draws. *)
Definition create_ciphertext (coins : Coins) (auth_content : AuthenticatedContent) : SM Grp MlsError PrivateMessage :=
  g ← sm_get;
  options ← sm_lift (encryption_options g);
  seal coins auth_content (padding_mode options).

Definition format_for_wire (coins : Coins) (content : AuthenticatedContent) : SM Grp MlsError MlsMessage :=
  g ← sm_get;
  payload ← (if bool_decide (wire_format content = WfPrivateMessage) : bool
             then c ← create_ciphertext coins content; mret (Cipher c)
             else sm_lift (Plain <$> create_plaintext g content));
  mret (mk_message (protocol_version (group_context g)) payload).

Definition encrypt_application_message (c_sign c_guard : Coins) (message authenticated_data : bytes) :
    SM Grp MlsError MlsMessage :=
  g ← sm_get;
  if negb (cache_is_empty (st_proposals (g_state g))) : bool then sm_lift (Err CommitRequired)
  else
    auth_content ← sm_lift (auth_content_new_signed c_sign (group_context g) (SenderMember (current_member_index g))
                     (ContentApplication message) (g_signer g) WfPrivateMessage authenticated_data);
    format_for_wire c_guard auth_content.

Definition proposal_message (c_sign c_guard : Coins) (proposal : Proposal) (authenticated_data : bytes) :
    SM Grp MlsError MlsMessage :=
  g ← sm_get;
  let sender := SenderMember (current_member_index g) in
  options ← sm_lift (encryption_options g);
  auth_content ← sm_lift (auth_content_new_signed c_sign (group_context g) sender (ContentProposal proposal) (g_signer g)
                   (control_wire_format options sender) authenticated_data);
  proposal_desc ← sm_lift (proposal_description_new auth_content proposal);
  message ← format_for_wire c_guard auth_content;
  _ ← zoom_g_state (zoom_cache (insert_own proposal_desc message (fc_sender (ac_content auth_content))));
  mret message.

(** *** Proposals *)

Definition add_proposal (kp : MlsMessage) : mres Proposal :=
  kp ← ok_or UnexpectedMessageType (into_key_package kp);
  Ok (PAdd (mk_add kp)).

Definition update_proposal (c_key c_sign : Coins) (signer : option SignatureSecretKey)
    (signing_identity : option SigningIdentity) (leaf_node_extensions : option ExtensionList) : SM Grp MlsError Proposal :=
  g ← sm_get;
  leaf ← sm_lift (current_user_leaf_node g);
  let exts := default (leaf_extensions leaf) leaf_node_extensions in
  '(secret_key, leaf) ← sm_lift
    match leaf_update c_key c_sign (group_id (group_context g)) (current_member_index g)
            (Some (leaf_properties (g_config g) exts)) signing_identity (default (g_signer g) signer) leaf with
    | (Ok k, l) => Ok (k, l)
    | (Err e, _) => Err e
    | (Panic, _) => Panic
    end;
  _ ← sm_modify (set_g_pending_updates (<[leaf_public_key leaf := (secret_key, signer)]> (g_pending_updates g)));
  mret (PUpdate (mk_update leaf)).

Definition remove_proposal (g : Grp) (i : Z) : mres Proposal :=
  leaf_index ← leaf_index_try_from i;
  _ ← get_leaf_node (current_epoch_tree g) leaf_index;
  Ok (PRemove (mk_remove leaf_index)).

Definition psk_proposal (coins : Coins) (key_id : JustPreSharedKeyID) : mres Proposal :=
  id ← psk_id_new coins key_id;
  Ok (PPsk (mk_psk_proposal id)).

Definition resumption_psk_id (g : Grp) (psk_epoch : Z) : JustPreSharedKeyID :=
  Resumption (mk_resumption_psk UsageApplication (group_id (group_context g)) psk_epoch).

Definition reinit_proposal (coins : Coins) (gid : option bytes) (version suite : Z) (extensions : ExtensionList) :
    mres Proposal :=
  gid ← match gid with
        | Some gid => Ok gid
        | None => from_crypto (random_bytes_vec coins kdf_extract_size)
        end;
  Ok (PReInit (mk_reinit gid version suite extensions)).

Definition propose_add (c_sign c_guard : Coins) (kp : MlsMessage) (authenticated_data : bytes) : SM Grp MlsError MlsMessage :=
  proposal ← sm_lift (add_proposal kp);
  proposal_message c_sign c_guard proposal authenticated_data.

Definition propose_update (c_key c_leaf c_sign c_guard : Coins) (authenticated_data : bytes) : SM Grp MlsError MlsMessage :=
  proposal ← update_proposal c_key c_leaf None None None;
  proposal_message c_sign c_guard proposal authenticated_data.

Definition propose_update_with_identity (c_key c_leaf c_sign c_guard : Coins) (signer : SignatureSecretKey)
    (signing_identity : SigningIdentity) (authenticated_data : bytes) : SM Grp MlsError MlsMessage :=
  proposal ← update_proposal c_key c_leaf (Some signer) (Some signing_identity) None;
  proposal_message c_sign c_guard proposal authenticated_data.

Definition propose_remove (c_sign c_guard : Coins) (i : Z) (authenticated_data : bytes) : SM Grp MlsError MlsMessage :=
  g ← sm_get;
  proposal ← sm_lift (remove_proposal g i);
  proposal_message c_sign c_guard proposal authenticated_data.

Definition propose_external_psk (c_nonce c_sign c_guard : Coins) (psk_id : bytes) (authenticated_data : bytes) :
    SM Grp MlsError MlsMessage :=
  proposal ← sm_lift (psk_proposal c_nonce (External psk_id));
  proposal_message c_sign c_guard proposal authenticated_data.

Definition propose_resumption_psk (c_nonce c_sign c_guard : Coins) (psk_epoch : Z) (authenticated_data : bytes) :
    SM Grp MlsError MlsMessage :=
  g ← sm_get;
  proposal ← sm_lift (psk_proposal c_nonce (resumption_psk_id g psk_epoch));
  proposal_message c_sign c_guard proposal authenticated_data.

Definition propose_reinit (c_gid c_sign c_guard : Coins) (gid : option bytes) (version suite : Z) (extensions : ExtensionList)
    (authenticated_data : bytes) : SM Grp MlsError MlsMessage :=
  proposal ← sm_lift (reinit_proposal c_gid gid version suite extensions);
  proposal_message c_sign c_guard proposal authenticated_data.

Definition propose_group_context_extensions (c_sign c_guard : Coins) (extensions : ExtensionList)
    (authenticated_data : bytes) : SM Grp MlsError MlsMessage :=
  proposal_message c_sign c_guard (PGroupContextExtensions extensions) authenticated_data.

Definition propose_custom (c_sign c_guard : Coins) (proposal : CustomProposal) (authenticated_data : bytes) :
    SM Grp MlsError MlsMessage :=
  proposal_message c_sign c_guard (PCustom proposal) authenticated_data.

(** *** Keys of the next epoch *)

(** The loop of [provisional_private_tree] over the direct path. *)
Fixpoint forget_blank_keys (v : NodeVec) (items : list (Z * CopathNode)) : SM TreeKemPrivate MlsError unit :=
  match items with
  | [] => mret tt
  | (i, n) :: items =>
      blank ← sm_lift (is_blank v (path n));
      _ ← (if blank : bool then put_key (i + 1) None else mret tt);
      forget_blank_keys v items
  end.

Definition own_update (i : Z) (b : ProposalBundle) : option (ProposalInfo UpdateProposal) :=
  List.find (fun p => bool_decide (sender p = SenderMember i)) (updates b).

Definition provisional_private_tree (g : Grp) (pv : ProvisionalState) :
    mres (TreeKemPrivate * option SignatureSecretKey) :=
  let i := self_index (g_private_tree g) in
  let v := nodes (pv_public_tree pv) in
  let path := vec_direct_copath v i in
  t ← sm_exec (forget_blank_keys v (enumerate path)) (resize_keys (zlen path + 1) (g_private_tree g));
  match own_update i (pv_applied_proposals pv) with
  | Some p =>
      let entry := g_pending_updates g !! leaf_public_key (up_leaf_node (proposal p)) in
      let new_signer := '(_, sk) ← entry; sk in
      key ← ok_or UpdateErrorNoSecretKey (fst <$> entry);
      t ← sm_exec (update_own_leaf key) t;
      Ok (t, new_signer)
  | None => Ok (t, None)
  end.

Definition get_psk (g : Grp) (psks : list (ProposalInfo PreSharedKeyProposal)) : mres (PskSecret * list PreSharedKeyID) :=
  match g_previous_psk g with
  | Some psk => secret ← psk_calculate [psk]; Ok (secret, [pi_id psk])
  | None =>
      let ids := (fun p => psk (proposal p)) <$> psks in
      secret ← resolve_to_secret prior_epoch_stored_codec
          (mk_resolver (Some (group_context g)) (Some (g_epoch_secrets g)) (Some (g_state_repo g)) (secret_store (g_config g)))
          ids;
      Ok (secret, ids)
  end.

Definition past_epoch (g : Grp) : PriorEpoch :=
  mk_prior_epoch (group_context g) (self_index (g_private_tree g)) (g_epoch_secrets g)
    (option_map (fun n => signature_key (signing_identity n)) <$> leaves (nodes (current_epoch_tree g))).

Definition insert_past_epoch : SM Grp MlsError unit :=
  g ← sm_get;
  zoom_g_repo (repo_insert (past_epoch g)).

(** *** Receiving messages *)

(** A method of the epoch a slot of the repository points to. *)
Definition zoom_slot {A} (s : Slot) (m : SM PriorEpoch MlsError A) : SM (GroupStateRepository S K) MlsError A := fun r =>
  match slot_get s r with
  | Some e => let '(x, e) := m e in (x, slot_set s e r)
  | None => (Panic, r)
  end.

Definition decrypt_in_prior_epoch (message : PrivateMessage) : SM PriorEpoch MlsError AuthenticatedContent :=
  content ← open message;
  e ← sm_get;
  _ ← sm_lift (verify_auth_content_signature (KeyList (pe_signature_public_keys e)) (pe_context e) content []);
  mret content.

Definition decrypt_incoming_ciphertext (message : PrivateMessage) : SM Grp MlsError AuthenticatedContent :=
  g ← sm_get;
  if bool_decide (prm_epoch message = current_epoch g) : bool then
    content ← open message;
    _ ← sm_lift (verify_auth_content_signature (RatchetTree (current_epoch_tree g)) (group_context g) content []);
    mret content
  else
    slot ← zoom_g_repo (get_epoch_mut prior_epoch_stored_codec (prm_epoch message));
    slot ← sm_lift (ok_or EpochNotFound slot);
    zoom_g_repo (zoom_slot slot (decrypt_in_prior_epoch message)).

(** The method [apply_update_path] of the group. *)
Definition group_apply_update_path (coins : Coins) (sender : Z) (update_path : ValidatedUpdatePath) (pv : ProvisionalState) :
    SM Grp MlsError (CommitSecretKeys * ProvisionalState) :=
  g ← sm_get;
  '(private_tree, new_signer) ← sm_lift (provisional_private_tree g pv);
  _ ← match new_signer with Some signer => sm_modify (set_g_signer signer) | None => mret tt end;
  '(_, pv) ← sm_lift (on_pv_tree (apply_update_path sender update_path (gc_extensions (pv_group_context pv))) pv);
  if sender =? self_index (g_private_tree g) then
    match g_pending_commit g with
    | LegacyPending l => mret (Some (lpc_private_tree l, lpc_commit_secret l), pv)
    | _ => sm_lift (Err CantProcessMessageFromSelf)
    end
  else
    '(h, pv) ← sm_lift (on_pv_tree tree_kem_tree_hash pv);
    let pv := set_pv_group_context (set_context_tree_hash h (pv_group_context pv)) pv in
    context_bytes ← sm_lift (from_codec (mls_encode_to_vec group_context_codec (pv_group_context pv)));
    '(root_secret, private_tree) ← sm_lift
      match decap coins (pv_public_tree pv) sender update_path (pv_indexes_of_added_kpkgs pv) context_bytes private_tree with
      | (Ok s, t) => Ok (s, t)
      | (Err e, _) => Err e
      | (Panic, _) => Panic
      end;
    mret (Some (private_tree, root_secret), pv).

(** The key schedule an epoch is derived from: that of the sender of an
    external commit is not the own one. *)
Definition last_key_schedule (g : Grp) (pv : ProvisionalState) : mres KeySchedule :=
  match head (external_initializations (pv_applied_proposals pv)) with
  | Some ext_init =>
      if pending_is_none (g_pending_commit g) then
        derive_for_external (g_key_schedule g) (ei_kem_output (proposal ext_init))
      else Ok (g_key_schedule g)
  | None => Ok (g_key_schedule g)
  end.

(** The secrets of the next epoch and its confirmation tag. *)
Definition next_epoch_secrets (g : Grp) (commit_secret : PathSecret) (pv : ProvisionalState) :
    mres (KeyScheduleDerivationResult * ConfirmationTag) :=
  key_schedule ← last_key_schedule g pv;
  '(psk, _) ← get_psk g (psks (pv_applied_proposals pv));
  r ← from_key_schedule key_schedule commit_secret (pv_group_context pv) (total_leaf_count (nodes (pv_public_tree pv))) psk;
  tag ← confirmation_tag_create (confirmation_key r) (confirmed_transcript_hash (pv_group_context pv));
  Ok (r, tag).

(** The state of the new epoch, the proposals of the old one cleared. *)
Definition next_state (interim_transcript_hash : bytes) (tag : ConfirmationTag) (pv : ProvisionalState) (s : GroupState) :
    GroupState :=
  mk_group_state (cache_clear (st_proposals s)) (pv_group_context pv) (pv_public_tree pv) interim_transcript_hash
    (st_pending_reinit s) tag.

(** The method [update_key_schedule] of the group. *)
Definition group_update_key_schedule (secrets : CommitSecretKeys) (interim_transcript_hash : bytes)
    (tag : ConfirmationTag) (pv : ProvisionalState) : SM Grp MlsError unit :=
  commit_secret ← match secrets with
                  | Some (private_tree, secret) => _ ← sm_modify (set_g_private_tree private_tree); mret secret
                  | None => mret path_secret_empty
                  end;
  g ← sm_get;
  '(r, new_tag) ← sm_lift (next_epoch_secrets g commit_secret pv);
  _ ← sm_lift (guard_or InvalidConfirmationTag (bool_decide (new_tag = tag)));
  _ ← insert_past_epoch;
  _ ← sm_modify (set_g_epoch_secrets (epoch_secrets r));
  _ ← zoom_g_state (sm_modify (next_state interim_transcript_hash new_tag pv));
  _ ← sm_modify (set_g_key_schedule (kd_key_schedule r));
  _ ← sm_modify (set_g_pending_updates ∅);
  sm_modify (set_g_pending_commit NoPendingCommit).

Definition group_removal_proposal (g : Grp) (pv : ProvisionalState) : option (ProposalInfo RemoveProposal) :=
  List.find (fun p => to_remove (proposal p) =? self_index (g_private_tree g)) (removals (pv_applied_proposals pv)).

#[export] Instance group_processor : MessageProcessor Grp ReceivedMessage R P := {|
  mp_group_state := g_state;
  mp_set_group_state := set_g_state;
  mp_mls_rules g := cfg_mls_rules (g_config g);
  mp_psk_storage g := secret_store (g_config g);
  mp_removal_proposal := group_removal_proposal;
  mp_min_epoch_available _ := None;
  mp_process_ciphertext cipher_text := (c ← decrypt_incoming_ciphertext cipher_text; mret (EventContent c));
  mp_verify_plaintext_authentication g message :=
    (c ← verify_plaintext_authentication message (Some (membership_key (g_key_schedule g))) (group_context g)
           (RatchetTree (current_epoch_tree g));
     Ok (EventContent c));
  mp_apply_update_path := group_apply_update_path;
  mp_update_key_schedule := group_update_key_schedule;
|}.

(** *** Applying a pending commit *)

Definition apply_detached_commit (commit_secrets : PendingCommitSnapshot) : SM Grp MlsError CommitMessageDescription :=
  pending ← sm_lift match commit_secrets with
                    | PendingBytes b => fst <$> from_codec (mls_decode pending_commit_codec b)
                    | _ => Err PendingCommitNotFound
                    end;
  _ ← insert_past_epoch;
  _ ← sm_modify (set_g_state (pnd_state pending));
  _ ← sm_modify (set_g_epoch_secrets (pnd_epoch_secrets pending));
  _ ← sm_modify (set_g_private_tree (pnd_private_tree pending));
  _ ← sm_modify (set_g_key_schedule (pnd_key_schedule pending));
  _ ← sm_modify (set_g_signer (pnd_signer pending));
  mret (pnd_output pending).

Definition apply_pending_commit : SM Grp MlsError CommitMessageDescription :=
  g ← sm_get;
  _ ← sm_modify (set_g_pending_commit NoPendingCommit);
  apply_detached_commit (g_pending_commit g).

Definition apply_detached_commit_backwards_compatible (coins : Coins) (commit_secrets : PendingCommitSnapshot) :
    SM Grp MlsError CommitMessageDescription :=
  match commit_secrets with
  | LegacyPending legacy_pending =>
      _ ← sm_modify (set_g_pending_commit (LegacyPending legacy_pending));
      process_commit coins (lpc_content legacy_pending) None
  | _ => apply_detached_commit commit_secrets
  end.

Definition apply_pending_commit_backwards_compatible (coins : Coins) : SM Grp MlsError CommitMessageDescription :=
  g ← sm_get;
  _ ← sm_modify (set_g_pending_commit NoPendingCommit);
  apply_detached_commit_backwards_compatible coins (g_pending_commit g).

(** *** Messages of the group *)

(** [process_incoming_message] and [process_incoming_message_with_time], whose
    [time] is present. *)
Definition group_process_incoming_message (coins : Coins) (now : Z) (message : MlsMessage) (time : option Z) :
    SM Grp MlsError ReceivedMessage :=
  g ← sm_get;
  pending ← sm_lift (commit_hash (g_pending_commit g));
  own ← match pending with
        | Some pending =>
            message_hash ← sm_lift (message_hash_compute message);
            mret (bool_decide (message_hash = pending))
        | None => mret false
        end;
  if own : bool then
    d ← apply_pending_commit;
    mret (ReceivedCommit d)
  else
    cached ← (if bool_decide (message_wire_format message = WfPrivateMessage) : bool
              then sm_lift (get_own (st_proposals (g_state g)) message)
              else mret None);
    match cached with
    | Some cached => mret (ReceivedProposal cached)
    | None => mp_process_incoming_message_with_time coins now message true time
    end.

(** *** Group infos *)

Definition group_info_message_internal (coins : Coins) (g : Grp) (initial_extensions : ExtensionList)
    (with_tree_in_extension : bool) : mres MlsMessage :=
  extensions ← (if with_tree_in_extension : bool
                then from_extension_error (ext_set_from EXT_RATCHET_TREE ratchet_tree_codec initial_extensions
                       (nodes (current_epoch_tree g)))
                else Ok initial_extensions);
  let info := mk_group_info (group_context g) extensions (st_confirmation_tag (g_state g)) (self_index (g_private_tree g)) [] in
  info ← signable_sign coins (g_signer g) tt info;
  Ok (mk_message (protocol_version (group_context g)) (PayloadGroupInfo info)).

Definition group_info_message_allowing_ext_commit (coins : Coins) (g : Grp) (with_tree_in_extension : bool) : mres MlsMessage :=
  external_pub ← get_external_key_pair_ext (g_key_schedule g);
  extensions ← from_extension_error (ext_set_from EXT_EXTERNAL_PUB external_pub_codec [] external_pub);
  group_info_message_internal coins g extensions with_tree_in_extension.

Definition group_info_message (coins : Coins) (g : Grp) (with_tree_in_extension : bool) : mres MlsMessage :=
  group_info_message_internal coins g [] with_tree_in_extension.
End operations.
