(* ===== verification/Commit.v ===== *)
(** * Creating commits

    A member commits to the proposals of the epoch
    (mls-rs/src/group/commit.rs); a client that is not a member joins a group
    with a commit of its own (mls-rs/src/group/external_commit.rs). *)

From S2P Require Import Prelude Codec Crypto TreeMath SecretTree Data NodeVec TreeIndex TreeHash ParentHash TreeInv Proposals TreeKem TreePath LeafNodes Kem Framing KeySchedule MessageProtection EpochStore Filtering GroupState Processor Group.

#[local] Set Default Goal Selector "!".
Local Open Scope Z_scope.

(** What a commit draws: for the path, the signatures of the commit and of the
    group infos, the encryption to the new members by their leaves, and the
    reuse guard. *)
Record CommitCoins {cs : CipherSuiteProvider} := mk_commit_coins {
  cmc_path_secret : Coins;
  cmc_leaf_key : Coins;
  cmc_leaf_signature : Coins;
  cmc_path_seal : Z -> Z -> Coins;
  cmc_signature : Coins;
  cmc_external_info : Coins;
  cmc_welcome_info : Coins;
  cmc_group_secrets : Z -> Coins;
  cmc_guard : Coins;
}.

Record CommitOutput := mk_commit_output {
  co_commit_message : MlsMessage;
  co_welcome_messages : list MlsMessage;
  co_ratchet_tree : option NodeVec;
  co_external_commit_group_info : option MlsMessage;
  co_unused_proposals : list (ProposalInfo Proposal);
  co_contains_update_path : bool;
}.

(** The path of a commit, if it has one, and the provisional state with it. *)
Record CommitPath := mk_commit_path {
  cpa_update_path : option UpdatePath;
  cpa_path_secrets : option (list (option PathSecret));
  cpa_commit_secret : PathSecret;
  cpa_provisional : ProvisionalState;
  cpa_private_tree : TreeKemPrivate;
}.

Section commits.
Context {idp : IdentityProvider} {cs : CipherSuiteProvider} {C K P S R : Type} {cc : ClientConfig C K P S R}.
Context `{MapOrder, !GroupStateStorage S, !KeyPackageStorage K, !PreSharedKeyStorage P, !MlsRules R}.
Notation Grp := (Group C S K).

Definition make_group_info (coins : Coins) (g : Grp) (context : GroupContext) (extensions : ExtensionList)
    (tag : ConfirmationTag) (signer : SignatureSecretKey) : mres GroupInfo :=
  signable_sign coins signer tt (mk_group_info context extensions tag (self_index (g_private_tree g)) []).

Definition make_welcome_message (g : Grp) (secrets : list EncryptedGroupSecrets) (encrypted_group_info : bytes) : MlsMessage :=
  mk_message (protocol_version (group_context g))
    (PayloadWelcome (mk_welcome (gc_cipher_suite (group_context g)) secrets encrypted_group_info)).

Definition encrypt_group_secrets (coins : Coins) (g : Grp) (key_package : KeyPackage) (leaf_index : Z)
    (joiner_secret : JoinerSecret) (path_secrets : option (list (option PathSecret))) (psks : list PreSharedKeyID)
    (encrypted_group_info : bytes) : mres EncryptedGroupSecrets :=
  path_secret ← match path_secrets with
                | Some secrets =>
                    level ← unwrap (leaf_lca_level (self_index (g_private_tree g)) leaf_index);
                    Some <$> ok_or InvalidTreeKemPrivateKey (mjoin (zget secrets (wrap 64 (level - 1))))
                | None => Ok None
                end;
  let group_secrets := mk_group_secrets joiner_secret path_secret psks in
  ct ← he_encrypt coins group_secrets (hpke_init_key key_package) encrypted_group_info;
  r ← to_reference key_package;
  Ok (mk_encrypted_secrets r ct).

(** The path update of [commit_internal], or the tree hash without one. *)
Definition make_path (coins : CommitCoins) (g : Grp) (perform_path_update : bool) (external_leaf : option LeafNode)
    (new_signer : SignatureSecretKey) (new_signing_identity : option SigningIdentity)
    (new_leaf_node_extensions : option ExtensionList) (pv : ProvisionalState) (private_tree : TreeKemPrivate) :
    mres CommitPath :=
  if perform_path_update then
    let new_leaf_node_extensions :=
      match new_leaf_node_extensions with Some e => Some e | None => leaf_extensions <$> external_leaf end in
    exts ← match new_leaf_node_extensions with
           | Some extensions => Ok extensions
           | None => leaf_extensions <$> current_user_leaf_node g
           end;
    match
      encap (cmc_path_secret coins) (cmc_leaf_key coins) (cmc_leaf_signature coins) (cmc_path_seal coins)
        (pv_indexes_of_added_kpkgs pv) new_signer (Some (leaf_properties (g_config g) exts)) new_signing_identity
        (mk_kem_state (pv_public_tree pv) (mk_key_state private_tree psg_new) (pv_group_context pv))
    with
    | (Ok gen, s) =>
        Ok (mk_commit_path (Some (eg_update_path gen)) (Some (eg_path_secrets gen)) (eg_commit_secret gen)
              (set_pv_group_context (ke_context s) (set_pv_public_tree (ke_tree s) pv)) (ks_private (ke_keys s)))
    | (Err e, _) => Err e
    | (Panic, _) => Panic
    end
  else
    '(_, pv) ← on_pv_tree (update_hashes [self_index private_tree]) pv;
    '(h, pv) ← on_pv_tree tree_kem_tree_hash pv;
    Ok (mk_commit_path None None path_secret_empty (set_pv_group_context (set_context_tree_hash h (pv_group_context pv)) pv)
          private_tree).

(** The group info for external commits. *)
Definition external_group_info (coins : Coins) (g : Grp) (r : KeyScheduleDerivationResult) (options : CommitOptions)
    (context : GroupContext) (tree : option NodeVec) (tag : ConfirmationTag) (signer : SignatureSecretKey) :
    mres (option MlsMessage) :=
  if allow_external_commit options then
    external_pub ← get_external_key_pair_ext (kd_key_schedule r);
    extensions ← from_extension_error (ext_set_from EXT_EXTERNAL_PUB external_pub_codec [] external_pub);
    extensions ← match tree with
                 | Some tree =>
                     if negb (always_out_of_band_ratchet_tree options)
                     then from_extension_error (ext_set_from EXT_RATCHET_TREE ratchet_tree_codec extensions tree)
                     else Ok extensions
                 | None => Ok extensions
                 end;
    info ← make_group_info coins g context extensions tag signer;
    Ok (Some (mk_message (protocol_version (group_context g)) (PayloadGroupInfo info)))
  else Ok None.

(** The welcome messages. *)
Definition welcomes (coins : CommitCoins) (g : Grp) (r : KeyScheduleDerivationResult) (options : CommitOptions)
    (path : CommitPath) (psk : PskSecret) (psks : list PreSharedKeyID) (extensions : ExtensionList)
    (tree : option NodeVec) (tag : ConfirmationTag) (signer : SignatureSecretKey) : mres (list MlsMessage) :=
  let pv := cpa_provisional path in
  extensions ← match tree with
               | Some tree => from_extension_error (ext_set_from EXT_RATCHET_TREE ratchet_tree_codec extensions tree)
               | None => Ok extensions
               end;
  info ← make_group_info (cmc_welcome_info coins) g (pv_group_context pv) extensions tag signer;
  welcome_secret ← welcome_from_joiner_secret (kd_joiner_secret r) psk;
  info ← from_codec (mls_encode_to_vec group_info_codec info);
  encrypted_group_info ← welcome_encrypt welcome_secret info;
  encrypted_path_secrets ← mapM_res (fun '(key_package, leaf_index) =>
      encrypt_group_secrets (cmc_group_secrets coins leaf_index) g key_package leaf_index (kd_joiner_secret r)
        (cpa_path_secrets path) psks encrypted_group_info)
    (zip ((fun info => key_package (proposal info)) <$> additions (pv_applied_proposals pv)) (pv_indexes_of_added_kpkgs pv));
  Ok (if single_welcome_message options && negb (zlen encrypted_path_secrets =? 0)
      then [make_welcome_message g encrypted_path_secrets encrypted_group_info]
      else (fun s => make_welcome_message g [s] encrypted_group_info) <$> encrypted_path_secrets).

(** The commit with its confirmation tag, and the new secrets. *)
Record SealedCommit := mk_sealed {
  sl_auth_content : AuthenticatedContent;
  sl_path : CommitPath;
  sl_derivation : KeyScheduleDerivationResult;
  sl_tag : ConfirmationTag;
  sl_interim : bytes;
}.

Definition seal_commit (coins : CommitCoins) (g : Grp) (sender : Sender) (path : CommitPath) (psk : PskSecret)
    (old_signer : SignatureSecretKey) (authenticated_data : bytes) : mres SealedCommit :=
  let pv := cpa_provisional path in
  let commit := mk_commit (proposals_or_refs (pv_applied_proposals pv)) (cpa_update_path path) in
  options ← encryption_options g;
  auth_content ← auth_content_new_signed (cmc_signature coins) (group_context g) sender (ContentCommit commit) old_signer
                   (control_wire_format options sender) authenticated_data;
  confirmed ← confirmed_transcript_create (st_interim_transcript_hash (g_state g)) auth_content;
  let pv := set_pv_group_context (set_confirmed_transcript_hash confirmed (pv_group_context pv)) pv in
  r ← from_key_schedule (g_key_schedule g) (cpa_commit_secret path) (pv_group_context pv)
        (total_leaf_count (nodes (pv_public_tree pv))) psk;
  tag ← confirmation_tag_create (confirmation_key r) confirmed;
  interim ← interim_transcript_create confirmed tag;
  Ok (mk_sealed (set_confirmation_tag (Some tag) auth_content)
        (mk_commit_path (cpa_update_path path) (cpa_path_secrets path) (cpa_commit_secret path) pv (cpa_private_tree path))
        r tag interim).

(** The pending commit; [prior] is the state the commit is created in. *)
Definition make_pending (prior : GroupState) (s : SealedCommit) (commit_message_hash : bytes)
    (signer : SignatureSecretKey) : PendingCommit :=
  let pv := cpa_provisional (sl_path s) in
  let pending_reinit := head (reinitializations (pv_applied_proposals pv)) in
  let content := ac_content (sl_auth_content s) in
  mk_pending_commit
    (mk_group_state (cache_new (protocol_version (st_context prior)) (group_id (st_context prior))) (pv_group_context pv)
      (pv_public_tree pv) (sl_interim s) (proposal <$> pending_reinit) (sl_tag s))
    (epoch_secrets (sl_derivation s)) (cpa_private_tree (sl_path s)) (kd_key_schedule (sl_derivation s)) signer
    (mk_commit_description (bool_decide (fc_sender content = NewMemberCommit)) (self_index (cpa_private_tree (sl_path s)))
      match pending_reinit with
      | Some r => EffectReInit r
      | None => EffectNewEpoch (new_epoch_new prior pv)
      end (authenticated_data content))
    commit_message_hash.

(** [commit_internal]. *)
Definition commit_internal (coins : CommitCoins) (now : Z) (proposals : list Proposal) (external_leaf : option LeafNode)
    (authenticated_data : bytes) (welcome_group_info_extensions : ExtensionList) (new_signer : option SignatureSecretKey)
    (new_signing_identity : option SigningIdentity) (new_leaf_node_extensions : option ExtensionList)
    (commit_time : option Z) : SM Grp MlsError (CommitOutput * PendingCommit) :=
  g ← sm_get;
  _ ← sm_lift (guard_or ExistingPendingCommit (pending_is_none (g_pending_commit g)));
  _ ← sm_lift (guard_or GroupUsedAfterReInit (bool_decide (st_pending_reinit (g_state g) = None)));
  let rules := cfg_mls_rules (g_config g) in
  let sender := match external_leaf with
                | Some _ => NewMemberCommit
                | None => SenderMember (self_index (g_private_tree g))
                end in
  let old_signer := g_signer g in
  let new_signer := default (g_signer g) new_signer in
  let time := match commit_time with Some t => Some t | None => Some now end in
  let bundle := prepare_commit (st_proposals (g_state g)) sender proposals in
  pv ← sm_lift (apply_resolved (g_state g) sender bundle external_leaf (secret_store (g_config g)) rules time Send);
  '(private_tree, _) ← sm_lift (provisional_private_tree g pv);
  private_tree ← match external_leaf with
                 | Some _ =>
                     i ← sm_lift (ok_or ExternalCommitMissingExternalInit (pv_external_init_index pv));
                     _ ← sm_modify (fun g => set_g_private_tree (mk_private i (secret_keys (g_private_tree g))) g);
                     mret (mk_private i (secret_keys private_tree))
                 | None => mret private_tree
                 end;
  g ← sm_get;
  options ← sm_lift (from_rules (rules_commit_options rules (nodes (pv_public_tree pv)) (pv_group_context pv)
                                  (pv_applied_proposals pv)));
  let perform_path_update := path_required options || path_update_required (pv_applied_proposals pv) in
  path ← sm_lift (make_path coins g perform_path_update external_leaf new_signer new_signing_identity
                    new_leaf_node_extensions pv private_tree);
  '(psk, psks) ← sm_lift (get_psk g (psks (pv_applied_proposals pv)));
  s ← sm_lift (seal_commit coins g sender path psk old_signer authenticated_data);
  let pv := cpa_provisional (sl_path s) in
  let tree := if ratchet_tree_extension options then Some (nodes (pv_public_tree pv)) else None in
  external_info ← sm_lift (external_group_info (cmc_external_info coins) g (sl_derivation s) options (pv_group_context pv)
                             tree (sl_tag s) new_signer);
  welcome_messages ← sm_lift (welcomes coins g (sl_derivation s) options (sl_path s) psk psks
                                welcome_group_info_extensions tree (sl_tag s) new_signer);
  commit_message ← format_for_wire (cmc_guard coins) (sl_auth_content s);
  let ratchet_tree := if negb (ratchet_tree_extension options) || always_out_of_band_ratchet_tree options
                      then Some (nodes (pv_public_tree pv)) else None in
  commit_message_hash ← sm_lift (message_hash_compute commit_message);
  mret (mk_commit_output commit_message welcome_messages ratchet_tree external_info (pv_unused_proposals pv)
          perform_path_update,
        make_pending (g_state g) s commit_message_hash new_signer).

(** ** The builder of commits *)

Record CommitBuilder := mk_commit_builder {
  cb_proposals : list Proposal;
  cb_authenticated_data : bytes;
  cb_group_info_extensions : ExtensionList;
  cb_new_signer : option SignatureSecretKey;
  cb_new_signing_identity : option SigningIdentity;
  cb_new_leaf_node_extensions : option ExtensionList;
  cb_commit_time : option Z;
}.

(** [commit_builder]. *)
Definition commit_builder : CommitBuilder := mk_commit_builder [] [] [] None None None None.

Definition raw_proposals (ps : list Proposal) (b : CommitBuilder) : CommitBuilder :=
  mk_commit_builder (cb_proposals b ++ ps) (cb_authenticated_data b) (cb_group_info_extensions b) (cb_new_signer b)
    (cb_new_signing_identity b) (cb_new_leaf_node_extensions b) (cb_commit_time b).

Definition raw_proposal (p : Proposal) (b : CommitBuilder) : CommitBuilder := raw_proposals [p] b.

Definition push_built (p : mres Proposal) (b : CommitBuilder) : mres CommitBuilder := p ← p; Ok (raw_proposal p b).

Definition add_member (key_package : MlsMessage) (b : CommitBuilder) : mres CommitBuilder :=
  push_built (add_proposal key_package) b.

Definition remove_member (g : Grp) (i : Z) (b : CommitBuilder) : mres CommitBuilder := push_built (remove_proposal g i) b.

Definition set_group_context_ext (extensions : ExtensionList) (b : CommitBuilder) : mres CommitBuilder :=
  Ok (raw_proposal (PGroupContextExtensions extensions) b).

Definition add_external_psk (coins : Coins) (psk_id : bytes) (b : CommitBuilder) : mres CommitBuilder :=
  push_built (psk_proposal coins (External psk_id)) b.

Definition add_resumption_psk (coins : Coins) (g : Grp) (psk_epoch : Z) (b : CommitBuilder) : mres CommitBuilder :=
  push_built (psk_proposal coins (resumption_psk_id g psk_epoch)) b.

Definition builder_reinit (coins : Coins) (gid : option bytes) (version suite : Z) (extensions : ExtensionList)
    (b : CommitBuilder) : mres CommitBuilder :=
  push_built (reinit_proposal coins gid version suite extensions) b.

Definition builder_custom_proposal (p : CustomProposal) (b : CommitBuilder) : CommitBuilder := raw_proposal (PCustom p) b.

Definition set_group_info_ext (extensions : ExtensionList) (b : CommitBuilder) : CommitBuilder :=
  mk_commit_builder (cb_proposals b) (cb_authenticated_data b) extensions (cb_new_signer b) (cb_new_signing_identity b)
    (cb_new_leaf_node_extensions b) (cb_commit_time b).

Definition builder_authenticated_data (data : bytes) (b : CommitBuilder) : CommitBuilder :=
  mk_commit_builder (cb_proposals b) data (cb_group_info_extensions b) (cb_new_signer b) (cb_new_signing_identity b)
    (cb_new_leaf_node_extensions b) (cb_commit_time b).

Definition set_new_signing_identity (signer : SignatureSecretKey) (signing_identity : SigningIdentity) (b : CommitBuilder) :
    CommitBuilder :=
  mk_commit_builder (cb_proposals b) (cb_authenticated_data b) (cb_group_info_extensions b) (Some signer)
    (Some signing_identity) (cb_new_leaf_node_extensions b) (cb_commit_time b).

Definition set_leaf_node_extensions (extensions : ExtensionList) (b : CommitBuilder) : CommitBuilder :=
  mk_commit_builder (cb_proposals b) (cb_authenticated_data b) (cb_group_info_extensions b) (cb_new_signer b)
    (cb_new_signing_identity b) (Some extensions) (cb_commit_time b).

Definition builder_commit_time (time : Z) (b : CommitBuilder) : CommitBuilder :=
  mk_commit_builder (cb_proposals b) (cb_authenticated_data b) (cb_group_info_extensions b) (cb_new_signer b)
    (cb_new_signing_identity b) (cb_new_leaf_node_extensions b) (Some time).

Definition build_internal (coins : CommitCoins) (now : Z) (b : CommitBuilder) : SM Grp MlsError (CommitOutput * PendingCommit) :=
  commit_internal coins now (cb_proposals b) None (cb_authenticated_data b) (cb_group_info_extensions b) (cb_new_signer b)
    (cb_new_signing_identity b) (cb_new_leaf_node_extensions b) (cb_commit_time b).

(** [TryFrom<PendingCommit> for PendingCommitSnapshot]. *)
Definition pending_try_from (p : PendingCommit) : mres PendingCommitSnapshot :=
  b ← from_codec (mls_encode_to_vec pending_commit_codec p);
  Ok (PendingBytes b).

Definition build (coins : CommitCoins) (now : Z) (b : CommitBuilder) : SM Grp MlsError CommitOutput :=
  '(output, pending_commit) ← build_internal coins now b;
  snapshot ← sm_lift (pending_try_from pending_commit);
  _ ← sm_modify (set_g_pending_commit snapshot);
  mret output.

Definition build_detached (coins : CommitCoins) (now : Z) (b : CommitBuilder) :
    SM Grp MlsError (CommitOutput * PendingCommitSnapshot) :=
  '(output, pending_commit) ← build_internal coins now b;
  snapshot ← sm_lift (pending_try_from pending_commit);
  mret (output, snapshot).

(** [Group::commit] and [commit_detached]. *)
Definition group_commit (coins : CommitCoins) (now : Z) (authenticated_data : bytes) : SM Grp MlsError CommitOutput :=
  build coins now (builder_authenticated_data authenticated_data commit_builder).

Definition commit_detached (coins : CommitCoins) (now : Z) (authenticated_data : bytes) :
    SM Grp MlsError (CommitOutput * PendingCommitSnapshot) :=
  build_detached coins now (builder_authenticated_data authenticated_data commit_builder).
End commits.

(** ** External commits *)

Record ExternalCommitBuilder (C : Type) := mk_external_builder {
  ecb_signer : SignatureSecretKey;
  ecb_signing_identity : SigningIdentity;
  ecb_leaf_node_extensions : ExtensionList;
  ecb_config : C;
  ecb_tree_data : option NodeVec;
  ecb_to_remove : option Z;
  ecb_external_psks : list bytes;
  ecb_authenticated_data : bytes;
  ecb_custom_proposals : list Proposal;
  ecb_received_custom_proposals : list MlsMessage;
  ecb_commit_time : option Z;
}.
Arguments mk_external_builder {_} _ _ _ _ _ _ _ _ _ _ _.
Arguments ecb_signer {_} _.
Arguments ecb_signing_identity {_} _.
Arguments ecb_leaf_node_extensions {_} _.
Arguments ecb_config {_} _.
Arguments ecb_tree_data {_} _.
Arguments ecb_to_remove {_} _.
Arguments ecb_external_psks {_} _.
Arguments ecb_authenticated_data {_} _.
Arguments ecb_custom_proposals {_} _.
Arguments ecb_received_custom_proposals {_} _.
Arguments ecb_commit_time {_} _.

Definition external_builder_new {C} (signer : SignatureSecretKey) (signing_identity : SigningIdentity) (config : C) :
    ExternalCommitBuilder C :=
  mk_external_builder signer signing_identity [] config None None [] [] [] [] None.

(** What an external commit draws. *)
Record ExternalCommitCoins {cs : CipherSuiteProvider} := mk_external_coins {
  ecc_leaf_key : Coins;
  ecc_leaf_signature : Coins;
  ecc_external_init : Coins;
  ecc_psk_nonce : Z -> Coins;
  ecc_processing : Coins;
  ecc_commit : CommitCoins;
}.

Section external_commits.
Context {idp : IdentityProvider} {C K P S R : Type} {cc : ClientConfig C K P S R}.
Context `{MapOrder, !GroupStateStorage S, !KeyPackageStorage K, !PreSharedKeyStorage P, !MlsRules R}.
Notation Grp := (Group C S K).

(** The loop over the received custom proposals: each is authenticated without
    a membership key and processed as a message of the group. *)
Fixpoint process_received_custom {cs : CipherSuiteProvider} (coins : Coins) (messages : list MlsMessage) : SM Grp MlsError unit :=
  match messages with
  | [] => mret tt
  | message :: messages =>
      g ← sm_get;
      plaintext ← sm_lift match payload message with Plain p => Ok p | _ => Err UnexpectedMessageType end;
      _ ← sm_lift (verify_plaintext_authentication plaintext None (group_context g) (RatchetTree (current_epoch_tree g)));
      _ ← process_event_or_content coins (EventContent (from_public_message plaintext)) true None;
      process_received_custom coins messages
  end.

(** [build] of an external commit from its third step on, for the provider of
    the suite of the group. *)
Definition external_commit_with {cs : CipherSuiteProvider} (coins : ExternalCommitCoins) (now version : Z)
    (group_info : GroupInfo) (b : ExternalCommitBuilder C) : mres (Grp * MlsMessage) :=
  ext ← from_extension_error (ext_get_as EXT_EXTERNAL_PUB external_pub_codec (gi_extensions group_info));
  external_pub ← ok_or MissingExternalPubExtension ext;
  public_tree ← validate_tree_and_info_joiner version group_info (ecb_tree_data b) (ecb_commit_time b);
  '(leaf_node, _) ← leaf_generate (ecc_leaf_key coins) (ecc_leaf_signature coins)
      (leaf_properties (ecb_config b) (ecb_leaf_node_extensions b)) (ecb_signing_identity b) (ecb_signer b)
      (config_lifetime (ecb_config b) now (ecb_commit_time b));
  '(init_secret, kem_output) ← encode_for_external (ecc_external_init coins) external_pub;
  '(group, _) ← join_with (ecb_config b) group_info public_tree (key_schedule_new init_secret)
      (mk_epoch_secrets [] [] secret_tree_empty) new_for_external None (ecb_signer b);
  psks ← mapM_res (fun '(i, id) => psk_proposal (ecc_psk_nonce coins i) (External id)) (enumerate (ecb_external_psks b));
  let proposals := [PExternalInit (mk_external_init kem_output)] ++ psks ++ ecb_custom_proposals b in
  group ← sm_exec (process_received_custom (ecc_processing coins) (ecb_received_custom_proposals b)) group;
  proposals ← match ecb_to_remove b with
              | Some r => i ← leaf_index_try_from r; Ok (proposals ++ [PRemove (mk_remove i)])
              | None => Ok proposals
              end;
  let m :=
    '(output, pending_commit) ← commit_internal (ecc_commit coins) now proposals (Some leaf_node) (ecb_authenticated_data b)
        [] None None None (ecb_commit_time b);
    snapshot ← sm_lift (pending_try_from pending_commit);
    _ ← sm_modify (set_g_pending_commit snapshot);
    _ ← apply_pending_commit;
    mret (co_commit_message output) in
  match m group with
  | (Ok message, group) => Ok (group, message)
  | (Err e, _) => Err e
  | (Panic, _) => Panic
  end.

Definition external_commit_build (coins : forall s : Suite, ExternalCommitCoins (cs := suite_provider s)) (now : Z)
    (group_info : MlsMessage) (b : ExternalCommitBuilder C) : mres (Suite * (Grp * MlsMessage)) :=
  let version := msg_version group_info in
  _ ← guard_or (UnsupportedProtocolVersion version) (version_supported (ecb_config b) version);
  match payload group_info with
  | PayloadGroupInfo group_info =>
      cipher_suite_provider (crypto_provider (ecb_config b)) (gc_cipher_suite (gi_group_context group_info)) ≫=
      fun s : Suite => let cs := suite_provider s in
      r ← external_commit_with (coins s) now version group_info b;
      Ok (s, r)
  | _ => Err UnexpectedMessageType
  end.
End external_commits.
