(* ===== verification/Client.v ===== *)
(** * Clients

    The configuration a client builder makes (mls-rs/src/client_builder.rs), the
    operations of a client (mls-rs/src/client.rs), and the groups that continue
    another one: branches and re-initializations (mls-rs/src/group/resumption.rs). *)

From S2P Require Import Prelude Codec Crypto TreeMath SecretTree Data NodeVec TreeIndex TreeHash ParentHash TreeInv Proposals TreeKem TreePath LeafNodes Kem Framing KeySchedule MessageProtection EpochStore Filtering GroupState Processor Group Commit.

#[local] Set Default Goal Selector "!".
Local Open Scope Z_scope.

(** ** The configuration of the builder *)

Record Settings := mk_settings {
  settings_extension_types : list Z;
  settings_protocol_versions : list Z;
  settings_custom_proposal_types : list Z;
  settings_validity : Z;
}.

Definition settings_default : Settings := mk_settings [] [] [] (365 * 24 * 3600).

Record ConfigInner (K P S R : Type) := mk_config {
  ci_settings : Settings;
  ci_key_package_repo : K;
  ci_psk_store : P;
  ci_group_state_storage : S;
  ci_mls_rules : R;
  ci_crypto_provider : CryptoProvider;
}.
Arguments mk_config {_ _ _ _} _ _ _ _ _ _.
Arguments ci_settings {_ _ _ _} _.
Arguments ci_key_package_repo {_ _ _ _} _.
Arguments ci_psk_store {_ _ _ _} _.
Arguments ci_group_state_storage {_ _ _ _} _.
Arguments ci_mls_rules {_ _ _ _} _.
Arguments ci_crypto_provider {_ _ _ _} _.

(** [ConfigInner::lifetime]; the sum of seconds wraps around. *)
Definition settings_lifetime (s : Settings) (now : Z) (timestamp : option Z) : Lifetime :=
  let now_timestamp := default now timestamp in
  mk_lifetime now_timestamp (wrap 64 (now_timestamp + settings_validity s)).

#[export] Instance config_inner_client_config {K P S R} : ClientConfig (ConfigInner K P S R) K P S R := {|
  supported_extensions c := settings_extension_types (ci_settings c);
  supported_custom_proposals c := settings_custom_proposal_types (ci_settings c);
  supported_protocol_versions c := settings_protocol_versions (ci_settings c);
  cfg_key_package_repo := ci_key_package_repo;
  cfg_mls_rules := ci_mls_rules;
  secret_store := ci_psk_store;
  group_state_storage := ci_group_state_storage;
  crypto_provider := ci_crypto_provider;
  config_lifetime c := settings_lifetime (ci_settings c);
  cfg_set_key_package_repo k c := mk_config (ci_settings c) k (ci_psk_store c) (ci_group_state_storage c) (ci_mls_rules c)
                                    (ci_crypto_provider c);
  cfg_set_group_state_storage s c := mk_config (ci_settings c) (ci_key_package_repo c) (ci_psk_store c) s (ci_mls_rules c)
                                       (ci_crypto_provider c);
|}.

(** ** Clients *)

Record Client (C : Type) := mk_client {
  cl_config : C;
  cl_signing_identity : option (SigningIdentity * Z);
  cl_signer : option SignatureSecretKey;
  cl_version : Z;
}.
Arguments mk_client {_} _ _ _ _.
Arguments cl_config {_} _.
Arguments cl_signing_identity {_} _.
Arguments cl_signer {_} _.
Arguments cl_version {_} _.

Definition client_signer {C} (c : Client C) : mres SignatureSecretKey := ok_or SignerNotFound (cl_signer c).
Definition client_signing_identity {C} (c : Client C) : mres (SigningIdentity * Z) :=
  ok_or SignerNotFound (cl_signing_identity c).

Definition set_cl_config {C} (config : C) (c : Client C) : Client C :=
  mk_client config (cl_signing_identity c) (cl_signer c) (cl_version c).

(** What generating a key package draws. *)
Record KeyPackageCoins {cs : CipherSuiteProvider} := mk_key_package_coins {
  kpc_init_key : Coins;
  kpc_leaf_key : Coins;
  kpc_leaf_signature : Coins;
  kpc_signature : Coins;
}.

Section client.
Context {idp : IdentityProvider} {C K P S R : Type} {cc : ClientConfig C K P S R}.
Context `{MapOrder, !GroupStateStorage S, !KeyPackageStorage K, !PreSharedKeyStorage P, !MlsRules R}.
Notation Grp := (Group C S K).

Definition zoom_key_package_repo {A} : SM K MlsError A -> SM (Client C) MlsError A :=
  sm_zoom (fun c => cfg_key_package_repo (cl_config c)) (fun k c => set_cl_config (cfg_set_key_package_repo k (cl_config c)) c).

Definition generate_key_package (coins : forall s : Suite, KeyPackageCoins (cs := suite_provider s)) (now : Z)
    (key_package_extensions leaf_node_extensions : ExtensionList) (timestamp : option Z) :
    SM (Client C) MlsError KeyPackageGeneration :=
  c ← sm_get;
  '(signing_identity, suite) ← sm_lift (client_signing_identity c);
  generation ← sm_lift (cipher_suite_provider (crypto_provider (cl_config c)) suite ≫= fun s : Suite => let cs := suite_provider s in
    signing_key ← client_signer c;
    let coins := coins s in
    key_package_generate (kpc_init_key coins) (kpc_leaf_key coins) (kpc_leaf_signature coins) (kpc_signature coins)
      (cl_version c) signing_identity signing_key (config_lifetime (cl_config c) now timestamp)
      (config_capabilities (cl_config c)) key_package_extensions leaf_node_extensions);
  '(id, data) ← sm_lift (to_storage generation);
  _ ← zoom_key_package_repo (fun k => let '(x, k) := kps_insert id data k in (map_err KeyPackageRepoError x, k));
  mret generation.

(** [key_package_message] of a generated key package. *)
Definition key_package_message (generation : KeyPackageGeneration) : MlsMessage :=
  mk_message (kp_version (kpg_key_package generation)) (PayloadKeyPackage (kpg_key_package generation)).

Definition generate_key_package_message (coins : forall s : Suite, KeyPackageCoins (cs := suite_provider s)) (now : Z)
    (key_package_extensions leaf_node_extensions : ExtensionList) (timestamp : option Z) : SM (Client C) MlsError MlsMessage :=
  generation ← generate_key_package coins now key_package_extensions leaf_node_extensions timestamp;
  mret (key_package_message generation).

Definition create_group_of (gid : option bytes) (coins : forall s : Suite, NewGroupCoins (cs := suite_provider s)) (now : Z)
    (c : Client C) (group_context_extensions leaf_node_extensions : ExtensionList) (timestamp : option Z) :
    mres (Suite * Grp) :=
  '(signing_identity, suite) ← client_signing_identity c;
  signer ← client_signer c;
  group_new coins now (cl_config c) gid suite (cl_version c) signing_identity group_context_extensions leaf_node_extensions
    signer timestamp.

(** [create_group_with_id] and [create_group]. *)
Definition create_group_with_id (coins : forall s : Suite, NewGroupCoins (cs := suite_provider s)) (now : Z) (c : Client C) (gid : bytes) :=
  create_group_of (Some gid) coins now c.
Definition create_group (coins : forall s : Suite, NewGroupCoins (cs := suite_provider s)) (now : Z) (c : Client C) :=
  create_group_of None coins now c.

Definition join_group (coins : forall s : Suite, @Coins (suite_provider s)) (c : Client C) (tree_data : option NodeVec)
    (welcome_message : MlsMessage) (maybe_time : option Z) : mres (Suite * (Grp * NewMemberInfo)) :=
  signer ← client_signer c;
  join coins welcome_message tree_data (cl_config c) signer maybe_time.

Definition examine_welcome_message (c : Client C) (welcome_message : MlsMessage) : mres GroupInfo :=
  decrypt_group_info (P := P) (S := S) welcome_message (cl_config c).

Definition validate_group_info (c : Client C) (message : MlsMessage) (signer : SigningIdentity) : mres unit :=
  match payload message with
  | PayloadGroupInfo group_info =>
      cipher_suite_provider (crypto_provider (cl_config c)) (gc_cipher_suite (gi_group_context group_info)) ≫=
      fun s : Suite => let cs := suite_provider s in
      _ ← validate_group_info_joiner (msg_version message) group_info signer;
      from_identity (validate_member signer None (ForNewGroup (gi_group_context group_info)))
  | _ => Err UnexpectedMessageType
  end.

Definition external_commit_builder (c : Client C) : mres (ExternalCommitBuilder C) :=
  signer ← client_signer c;
  '(signing_identity, _) ← client_signing_identity c;
  Ok (external_builder_new signer signing_identity (cl_config c)).

Definition commit_external (coins : forall s : Suite, ExternalCommitCoins (cs := suite_provider s)) (now : Z) (c : Client C)
    (group_info_msg : MlsMessage) : mres (Suite * (Grp * MlsMessage)) :=
  b ← external_commit_builder c;
  external_commit_build coins now group_info_msg b.

Definition load_snapshot (c : Client C) (gid : bytes) : mres Snapshot :=
  snapshot ← from_storage_err (st_state (group_state_storage (cl_config c)) gid);
  snapshot ← ok_or GroupNotFound snapshot;
  fst <$> from_codec (mls_decode snapshot_codec snapshot).

Definition load_group (c : Client C) (gid : bytes) : mres (Suite * Grp) :=
  snapshot ← load_snapshot c gid;
  from_snapshot (cl_config c) snapshot.

Definition with_tree (tree_data : NodeVec) (s : Snapshot) : Snapshot :=
  let r := sn_state s in
  mk_snapshot (sn_version s)
    (mk_raw_state (rw_context r) (rw_proposals r) (rw_own_proposals r) (set_nodes tree_data (rw_public_tree r))
      (rw_interim_transcript_hash r) (rw_pending_reinit r) (rw_confirmation_tag r))
    (sn_private_tree s) (sn_epoch_secrets s) (sn_key_schedule s) (sn_pending_updates s) (sn_pending_commit s) (sn_signer s).

Definition load_group_with_ratchet_tree (c : Client C) (gid : bytes) (tree_data : NodeVec) :
    mres (Suite * Grp) :=
  snapshot ← load_snapshot c gid;
  from_snapshot (cl_config c) (with_tree tree_data snapshot).

(** The first check refuses a version only when it is the version of the
    client. *)
Definition external_add_proposal (c_key : forall s : Suite, KeyPackageCoins (cs := suite_provider s))
    (c_sign : forall s : Suite, @Coins (suite_provider s)) (now : Z) (group_info : MlsMessage) (tree_data : option NodeVec)
    (authenticated_data : bytes) (key_package_extensions leaf_node_extensions : ExtensionList) (timestamp : option Z) :
    SM (Client C) MlsError MlsMessage :=
  c ← sm_get;
  let version := msg_version group_info in
  _ ← sm_lift (guard_or (UnsupportedProtocolVersion version)
                 (negb (negb (version_supported (cl_config c) version) && (version =? cl_version c))));
  group_info ← sm_lift match payload group_info with PayloadGroupInfo g => Ok g | _ => Err UnexpectedMessageType end;
  let context := gi_group_context group_info in
  let suite := gc_cipher_suite context in
  _ ← sm_lift (cipher_suite_provider (crypto_provider (cl_config c)) suite ≫= fun s : Suite => let cs := suite_provider s in
                 validate_tree_and_info_joiner version group_info tree_data timestamp);
  generation ← generate_key_package c_key now key_package_extensions leaf_node_extensions timestamp;
  let key_package := kpg_key_package generation in
  _ ← sm_lift (guard_or (UnsupportedCipherSuite suite) (kp_cipher_suite key_package =? suite));
  message ← sm_lift (cipher_suite_provider (crypto_provider (cl_config c)) suite ≫= fun s : Suite => let cs := suite_provider s in
    signer ← client_signer c;
    auth_content_new_signed (c_sign s) context NewMemberProposal (ContentProposal (PAdd (mk_add key_package))) signer
      WfPublicMessage authenticated_data);
  mret (mk_message version (Plain (mk_public_message (ac_content message) (ac_auth message) None))).
End client.

(** ** Groups that continue a group *)

Record ResumptionGroupParameters := mk_resumption_parameters {
  rgp_group_id : bytes;
  rgp_cipher_suite : Z;
  rgp_version : Z;
  rgp_extensions : ExtensionList;
}.

Record ReinitClient (C : Type) := mk_reinit_client {
  rc_client : Client C;
  rc_reinit : ReInitProposal;
  rc_psk_input : PskSecretInput;
}.
Arguments mk_reinit_client {_} _ _ _.
Arguments rc_client {_} _.
Arguments rc_reinit {_} _.
Arguments rc_psk_input {_} _.

Section resumption.
Context {idp : IdentityProvider} {C K P S R : Type} {cc : ClientConfig C K P S R}.
Context `{MapOrder, !GroupStateStorage S, !KeyPackageStorage K, !PreSharedKeyStorage P, !MlsRules R}.
Notation Grp := (Group C S K).

Definition resumption_psk_input {cs : CipherSuiteProvider} (coins : Coins) (g : Grp) (usage : ResumptionPSKUsage) :
    mres PskSecretInput :=
  id ← psk_id_new coins (Resumption (mk_resumption_psk usage (group_id (group_context g)) (current_epoch g)));
  Ok (mk_psk_input id (resumption_secret (g_epoch_secrets g))).

Fixpoint add_members (kps : list MlsMessage) (b : CommitBuilder) : mres CommitBuilder :=
  match kps with
  | [] => Ok b
  | kp :: kps => b ← add_member kp b; add_members kps b
  end.

Definition resumption_create_group (c_group : forall s : Suite, NewGroupCoins (cs := suite_provider s))
    (c_commit : forall s : Suite, CommitCoins (cs := suite_provider s)) (now : Z) (config : C) (new_key_packages : list MlsMessage)
    (params : ResumptionGroupParameters) (signing_identity : SigningIdentity) (signer : SignatureSecretKey)
    (leaf_node_extensions : ExtensionList) (psk_input : PskSecretInput) (timestamp : option Z) :
    mres (Suite * (Grp * list MlsMessage)) :=
  '(suite, group) ← group_new c_group now config (Some (rgp_group_id params)) (rgp_cipher_suite params) (rgp_version params)
      signing_identity (rgp_extensions params) leaf_node_extensions signer timestamp;
  let group := set_g_previous_psk (Some psk_input) group in
  commit ← add_members new_key_packages commit_builder;
  match (output ← build (cs := suite_provider suite) (c_commit suite) now commit;
         _ ← apply_pending_commit;
         mret output) group with
  | (Ok output, group) => Ok (suite, (set_g_previous_psk None group, co_welcome_messages output))
  | (Err e, _) => Err e
  | (Panic, _) => Panic
  end.

Definition resumption_join_group (coins : forall s : Suite, @Coins (suite_provider s)) (config : C) (signer : SignatureSecretKey)
    (welcome : MlsMessage) (tree_data : option NodeVec) (expected : ResumptionGroupParameters) (verify_group_id : bool)
    (psk_input : PskSecretInput) (maybe_time : option Z) : mres (Suite * (Grp * NewMemberInfo)) :=
  '(suite, (group, info)) ← from_welcome_message coins welcome tree_data config signer (Some psk_input) maybe_time;
  let context := group_context group in
  if negb (protocol_version context =? rgp_version expected) then Err ProtocolVersionMismatch
  else if negb (gc_cipher_suite context =? rgp_cipher_suite expected) then Err CipherSuiteMismatch
  else if verify_group_id && negb (bool_decide (group_id context = rgp_group_id expected)) then Err GroupIdMismatch
  else if negb (ext_list_eq (gc_extensions context) (rgp_extensions expected)) then Err ReInitExtensionsMismatch
  else Ok (suite, (group, info)).

(** [Group::branch]. *)
Definition branch {cs : CipherSuiteProvider} (c_nonce : Coins) (c_group : forall s : Suite, NewGroupCoins (cs := suite_provider s))
    (c_commit : forall s : Suite, CommitCoins (cs := suite_provider s)) (now : Z) (g : Grp) (sub_group_id : bytes)
    (new_key_packages : list MlsMessage) (timestamp : option Z) : mres (Suite * (Grp * list MlsMessage)) :=
  let context := group_context g in
  let params := mk_resumption_parameters sub_group_id (gc_cipher_suite context) (protocol_version context)
                  (gc_extensions context) in
  leaf ← current_user_leaf_node g;
  psk ← resumption_psk_input c_nonce g UsageBranch;
  resumption_create_group c_group c_commit now (g_config g) new_key_packages params (signing_identity leaf) (g_signer g)
    (leaf_extensions leaf) psk timestamp.

Definition join_subgroup {cs : CipherSuiteProvider} (c_nonce : Coins) (coins : forall s : Suite, @Coins (suite_provider s)) (g : Grp)
    (welcome : MlsMessage) (tree_data : option NodeVec) (maybe_time : option Z) :
    mres (Suite * (Grp * NewMemberInfo)) :=
  let context := group_context g in
  let params := mk_resumption_parameters [] (gc_cipher_suite context) (protocol_version context) (gc_extensions context) in
  psk ← resumption_psk_input c_nonce g UsageBranch;
  resumption_join_group coins (g_config g) (g_signer g) welcome tree_data params false psk maybe_time.

Definition get_reinit_client {cs : CipherSuiteProvider} (c_nonce : Coins) (g : Grp) (new_signer : option SignatureSecretKey)
    (new_signing_identity : option SigningIdentity) : mres (ReinitClient C) :=
  psk_input ← resumption_psk_input c_nonce g UsageReinit;
  new_signing_identity ← match new_signing_identity with
                         | Some i => Ok i
                         | None => current_member_signing_identity g
                         end;
  reinit ← ok_or PendingReInitNotFound (st_pending_reinit (g_state g));
  Ok (mk_reinit_client
        (mk_client (g_config g) (Some (new_signing_identity, ri_cipher_suite reinit)) (Some (default (g_signer g) new_signer))
          (ri_version reinit))
        reinit psk_input).

Definition reinit_parameters (r : ReInitProposal) : ResumptionGroupParameters :=
  mk_resumption_parameters (ri_group_id r) (ri_cipher_suite r) (ri_version r) (ri_extensions r).

Definition reinit_commit (c_group : forall s : Suite, NewGroupCoins (cs := suite_provider s))
    (c_commit : forall s : Suite, CommitCoins (cs := suite_provider s)) (now : Z) (c : ReinitClient C) (new_key_packages : list MlsMessage)
    (new_leaf_node_extensions : ExtensionList) (timestamp : option Z) : mres (Suite * (Grp * list MlsMessage)) :=
  '(signing_identity, _) ← unwrap (cl_signing_identity (rc_client c));
  signer ← unwrap (cl_signer (rc_client c));
  resumption_create_group c_group c_commit now (cl_config (rc_client c)) new_key_packages (reinit_parameters (rc_reinit c))
    signing_identity signer new_leaf_node_extensions (rc_psk_input c) timestamp.

Definition reinit_join (coins : forall s : Suite, @Coins (suite_provider s)) (c : ReinitClient C) (welcome : MlsMessage)
    (tree_data : option NodeVec) (maybe_time : option Z) : mres (Suite * (Grp * NewMemberInfo)) :=
  signer ← unwrap (cl_signer (rc_client c));
  resumption_join_group coins (cl_config (rc_client c)) signer welcome tree_data (reinit_parameters (rc_reinit c)) true
    (rc_psk_input c) maybe_time.
End resumption.
