(* ===== verification/Scenario.v ===== *)
(** * A group at work

    A group of three clients over the toy provider and the storages in memory,
    through the operations of clients and groups: it is created, two members
    join with welcome messages, messages are exchanged and commits processed.
    The theorems about groups take their concrete instances from here. *)

From S2P Require Import Prelude Codec Crypto TreeMath SecretTree Data NodeVec TreeIndex TreeHash ParentHash TreeInv Proposals TreeKem TreePath LeafNodes Kem Framing KeySchedule MessageProtection EpochStore Filtering GroupState Processor Group Commit Client.

#[local] Set Default Goal Selector "!".
Local Open Scope Z_scope.

#[local] Existing Instance plain_provider.
#[local] Existing Instance plain_order.
#[local] Existing Instance Toy.provider.

Notation ToyConfig := (ConfigInner (gmap bytes KeyPackageData) (gmap bytes PreSharedKey) InMemoryGroupStateStorage DefaultMlsRules).
Notation ToyGroup := (Group ToyConfig InMemoryGroupStateStorage (gmap bytes KeyPackageData)).

Definition toy_suite : Suite := mk_suite Toy.provider (fun n => Z.to_nat n).

Definition toy_crypto : CryptoProvider := mk_crypto_provider [1] (fun s => if s =? 1 then Some toy_suite else None).

Definition toy_rules : DefaultMlsRules := mk_default_rules commit_options_default encryption_options_default.

(** Suite 1 and version 1, identities and keys [[n]]. *)
Definition toy_config : ToyConfig := mk_config (mk_settings [] [1] [] 1000) ∅ ∅ memory_storage_new toy_rules toy_crypto.

Definition toy_client (n : Z) : Client ToyConfig :=
  mk_client toy_config (Some (mk_signing_identity [n] (Basic [n]), 1)) (Some [n]) 1.

(** Coins that differ from draw to draw, from [k] on. *)
Definition group_coins (k : Z) (s : Suite) : NewGroupCoins (cs := suite_provider s) :=
  @mk_new_group_coins (suite_provider s) (suite_coins s k) (suite_coins s (k + 1)) (suite_coins s (k + 2)) (suite_coins s (k + 3)).

Definition package_coins (k : Z) (s : Suite) : KeyPackageCoins (cs := suite_provider s) :=
  @mk_key_package_coins (suite_provider s) (suite_coins s k) (suite_coins s (k + 1)) (suite_coins s (k + 2)) (suite_coins s (k + 3)).

Definition toy_commit_coins (k : nat) : CommitCoins (cs := Toy.provider) :=
  @mk_commit_coins Toy.provider k (k + 1)%nat (k + 2)%nat (fun _ _ => (k + 3)%nat) (k + 4)%nat (k + 5)%nat (k + 6)%nat
    (fun _ => (k + 7)%nat) (k + 8)%nat.

(** A group to stand for the result of an operation that failed; none of those
    below does. *)
Definition no_group : ToyGroup :=
  mk_group toy_config (repository_new [] memory_storage_new ∅ None)
    (group_state_new (mk_group_context 1 1 [] 0 [] [] []) tree_kem_new [] []) (mk_epoch_secrets [] [] secret_tree_empty)
    (mk_private 0 []) (key_schedule_new []) ∅ NoPendingCommit None [].

Definition value {E A} (d : A) (m : res E A) : A := match m with Ok a => a | _ => d end.

Lemma value_ok {E A} (d : A) (m : res E A) : is_ok m = true -> m = Ok (value d m).
Proof. by destruct m. Qed.

(** *** The group is created *)

Definition alice_0 : ToyGroup :=
  value no_group (group_new_with (cs := Toy.provider) (group_coins 10 toy_suite) 100 toy_config (Some [7]) 1
    (mk_signing_identity [1] (Basic [1])) [] [] [1] None).

(** *** Bob and Carol join *)

Definition no_message : MlsMessage := mk_message 0 (PayloadWelcome (mk_welcome 0 [] [])).

Definition package (k n : Z) : MlsMessage * Client ToyConfig :=
  let '(m, c) := generate_key_package_message (package_coins k) 100 [] [] None (toy_client n) in (value no_message m, c).

Definition adding : CommitBuilder :=
  value commit_builder (b ← add_member (package 20 2).1 commit_builder; add_member (package 30 3).1 b).

Definition no_output : CommitOutput := mk_commit_output no_message [] None None [] false.

(** Build a commit and apply it. *)
Definition commit_with (k : nat) (b : CommitBuilder) (g : ToyGroup) : CommitOutput * ToyGroup :=
  let '(o, g) := build (cs := Toy.provider) (toy_commit_coins k) 100 b g in
  (value no_output o, (apply_pending_commit g).2).

Definition alice_1 : ToyGroup := (commit_with 40 adding alice_0).2.

Definition welcome : MlsMessage := default no_message (head (co_welcome_messages (commit_with 40 adding alice_0).1)).

Definition joined (k n : Z) : ToyGroup :=
  value no_group ((fun r => r.2.1) <$> join_group (fun s => suite_coins s 60) (package k n).2 None welcome None).

Definition bob_1 : ToyGroup := joined 20 2.
Definition carol_1 : ToyGroup := joined 30 3.

(** *** Bob commits, and the others process it *)

Definition receive (m : MlsMessage) (g : ToyGroup) : res MlsError ReceivedMessage * ToyGroup :=
  group_process_incoming_message (cs := Toy.provider) 0%nat 100 m None g.

Definition bob_commit : CommitOutput * ToyGroup := commit_with 70 commit_builder bob_1.
Definition bob_2 : ToyGroup := bob_commit.2.
Definition alice_2 : ToyGroup := (receive (co_commit_message bob_commit.1) alice_1).2.
Definition carol_2 : ToyGroup := (receive (co_commit_message bob_commit.1) carol_1).2.

(** The members agree on the epoch, its context and its secrets. *)
Definition same_view (g g' : ToyGroup) : bool :=
  bool_decide (st_context (g_state g) = st_context (g_state g')) && bool_decide (g_key_schedule g = g_key_schedule g') &&
  node_vec_eq (nodes (st_public_tree (g_state g))) (nodes (st_public_tree (g_state g'))).

Example members_agree :
  same_view alice_1 bob_1 && same_view alice_1 carol_1 && same_view alice_2 bob_2 && same_view alice_2 carol_2 = true /\
  epoch (st_context (g_state alice_2)) = 2.
Proof. split; vm_compute; reflexivity. Qed.

(** *** Messages *)

Definition hello : res MlsError MlsMessage * ToyGroup :=
  encrypt_application_message (cs := Toy.provider) 80%nat 81%nat [104; 105] [9] alice_2.

Example hello_arrives :
  (receive (value no_message hello.1) bob_2).1 = Ok (ReceivedApplicationMessage (mk_application_description 0 [104; 105] [9])) /\
  (receive (value no_message hello.1) (receive (value no_message hello.1) bob_2).2).1 = Err (KeyMissing 0).
Proof. split; vm_compute; reflexivity. Qed.

(** *** A commit with a wrong confirmation tag

    Bob sends a commit that the signature and the membership tag authenticate,
    with a tag that does not confirm the next epoch. *)

Definition forge (m : MlsMessage) (g : ToyGroup) : MlsMessage :=
  match payload m with
  | Plain p =>
      let auth := mk_auth_content WfPublicMessage (pm_content p) (mk_auth_data (ad_signature (pm_auth p)) (Some [0])) in
      mk_message (msg_version m) (Plain (value p (create_plaintext g auth)))
  | _ => m
  end.

Definition forged : MlsMessage :=
  forge (co_commit_message (value no_output (group_commit (cs := Toy.provider) (toy_commit_coins 90) 100 [] bob_2).1)) bob_2.

(** *** A newcomer while a commit is pending

    Dave joins with an external commit.  Alice accepts it, unless she has a
    commit of her own pending: then she derives the epoch from her own initial
    secret, and refuses the confirmation tag. *)

Definition alice_info : GroupInfo :=
  match payload (value no_message (group_info_message_allowing_ext_commit (cs := Toy.provider) 100%nat alice_1 true)) with
  | PayloadGroupInfo i => i
  | _ => mk_group_info (st_context (g_state no_group)) [] [] 0 []
  end.

Definition toy_external_coins (k : nat) : ExternalCommitCoins (cs := Toy.provider) :=
  @mk_external_coins Toy.provider k (k + 1)%nat (k + 2)%nat (fun _ => (k + 3)%nat) (k + 4)%nat (toy_commit_coins (k + 5)).

Definition dave_joins : ToyGroup * MlsMessage :=
  value (no_group, no_message)
    (external_commit_with (cs := Toy.provider) (toy_external_coins 110) 100 1 alice_info
       (external_builder_new [4] (mk_signing_identity [4] (Basic [4])) toy_config)).

Definition alice_pending : ToyGroup := (group_commit (cs := Toy.provider) (toy_commit_coins 130) 100 [] alice_1).2.

Example pending_commit_blocks_newcomers :
  same_view (receive dave_joins.2 alice_1).2 dave_joins.1 = true /\
  has_pending_commit alice_pending = true /\ (receive dave_joins.2 alice_pending).1 = Err InvalidConfirmationTag /\
  is_ok (receive (co_commit_message bob_commit.1) alice_pending).1 = true.
Proof. split_and!; vm_compute; reflexivity. Qed.
