(* ===== verification/Snapshots.v ===== *)
(** * Stored groups

    What is written of a group can be read again: the laws of the codecs of
    pending commits and snapshots, for the values whose proposals can be sent;
    a pending commit that is built is the one that is applied, and a group that
    is loaded is the group that was stored. *)

From S2P Require Import Prelude Codec Crypto TreeMath SecretTree Data NodeVec TreeIndex TreeHash ParentHash TreeInv Proposals TreeKem TreePath LeafNodes Kem Framing KeySchedule MessageProtection EpochStore Filtering GroupState Processor Group Commit Client Scenario.

#[local] Set Default Goal Selector "!".
Local Open Scope Z_scope.

(** ** Codec laws *)

Definition keys_wf (ks : list (option HpkeSecretKey)) : Prop := Forall (option_wf bytes_ok) ks.

Definition private_wf (p : TreeKemPrivate) : Prop := leaf_index_wf (self_index p) /\ keys_wf (secret_keys p).

#[export] Instance tree_kem_private_codec_ok : CodecOk tree_kem_private_codec private_wf.
Proof. struct_ok. Qed.

Definition key_schedule_wf (k : KeySchedule) : Prop :=
  bytes_ok (exporter_secret k) /\ bytes_ok (authentication_secret k) /\ bytes_ok (external_secret k) /\
  bytes_ok (membership_key k) /\ bytes_ok (init_secret k).

#[export] Instance key_schedule_codec_ok : CodecOk key_schedule_codec key_schedule_wf.
Proof. struct_ok. Qed.

Definition pending_update_wf (u : HpkeSecretKey * option SignatureSecretKey) : Prop := bytes_ok u.1 /\ option_wf bytes_ok u.2.

#[export] Instance pending_update_codec_ok : CodecOk pending_update_codec pending_update_wf.
Proof. unfold pending_update_codec. apply _. Qed.

Lemma reinit_ok : CodecOk reinit_codec reinit_wf.
Proof. apply reinit_codec_ok. Qed.

Definition effect_tag (e : CommitEffect) : Z := match e with EffectNewEpoch _ => 1 | EffectRemoved _ _ => 2 | EffectReInit _ => 3 end.

Definition pending_commit_wf (p : PendingCommit) : Prop :=
  group_state_wf (pnd_state p) /\ epoch_secrets_wf (pnd_epoch_secrets p) /\ private_wf (pnd_private_tree p) /\
  key_schedule_wf (pnd_key_schedule p) /\ bytes_ok (pnd_signer p) /\ commit_description_wf (pnd_output p) /\
  bytes_ok (pnd_commit_message_hash p).

Definition legacy_commit_wf (l : LegacyPendingCommit) : Prop :=
  authenticated_content_wf (lpc_content l) /\ private_wf (lpc_private_tree l) /\ bytes_ok (lpc_commit_secret l) /\
  bytes_ok (lpc_commit_message_hash l).

Definition pending_snapshot_wf (s : PendingCommitSnapshot) : Prop :=
  match s with
  | NoPendingCommit => True
  | LegacyPending l => legacy_commit_wf l
  | PendingBytes b => bytes_ok b
  end.

Definition raw_state_wf (r : RawGroupState) : Prop :=
  group_context_wf (rw_context r) /\ map_wf bytes_ok cached_proposal_wf (rw_proposals r) /\
  map_wf bytes_ok proposal_description_wf (rw_own_proposals r) /\ tree_kem_public_wf (rw_public_tree r) /\
  bytes_ok (rw_interim_transcript_hash r) /\ option_wf reinit_wf (rw_pending_reinit r) /\ bytes_ok (rw_confirmation_tag r).

Definition snapshot_wf (s : Snapshot) : Prop :=
  is_u16 (sn_version s) /\ raw_state_wf (sn_state s) /\ private_wf (sn_private_tree s) /\
  epoch_secrets_wf (sn_epoch_secrets s) /\ key_schedule_wf (sn_key_schedule s) /\
  map_wf bytes_ok pending_update_wf (sn_pending_updates s) /\ pending_snapshot_wf (sn_pending_commit s) /\
  bytes_ok (sn_signer s).

Section stored_laws.
Context `{MapOrder, !MapOrderLaws}.

Lemma effect_variants t cv :
  (if t =? 1 then
     Some (variant_codec EffectNewEpoch (fun e => match e with EffectNewEpoch n => Some n | _ => None end)
             (new_epoch_codec_with unchecked_codec))
   else if t =? 2 then
     Some (variant_codec (fun '(n, r) => EffectRemoved n r)
             (fun e => match e with EffectRemoved n r => Some (n, r) | _ => None end)
             (pair_codec (new_epoch_codec_with unchecked_codec) sender_codec))
   else if t =? 3 then
     Some (variant_codec EffectReInit (fun e => match e with EffectReInit r => Some r | _ => None end)
             (proposal_info_codec reinit_codec))
   else None) = Some cv -> CodecOk cv (fun e => effect_tag e = t /\ commit_effect_wf e).
Proof using Type*.
  pose proof reinit_ok. revert t cv. variant_cases;
    (eapply (variant_ok_disc _ _ _ _ effect_tag); [apply _| | |]).
  all: try by intros []. all: try (by intros [] ?; naive_solver). all: try by intros [] ? ?; naive_solver.
  - intros [] [n' r']; naive_solver.
  - intros [|n' r'|] ? ?; try done. by exists (n', r').
Qed.

#[export] Instance commit_effect_codec_ok : CodecOk (commit_effect_codec_with unchecked_codec) commit_effect_wf.
Proof using Type*.
  eapply codec_ok_iff; [|apply (enum_codec_ok u8_codec is_u8 _ _ commit_effect_wf)].
  - intros x. split; [by intros []|]. intros Hx. split; [by destruct x|done].
  - intros t cv Hv. by apply effect_variants in Hv.
  - by intros [].
Qed.

#[export] Instance commit_description_codec_ok :
  CodecOk (commit_description_codec_with unchecked_codec) commit_description_wf.
Proof using Type*. eapply struct_codec_ok_iff; [apply _|by intros []|by intros; split_pairs|]. intros []. unfold commit_description_wf. simpl. tauto. Qed.

#[export] Instance pending_commit_codec_ok : CodecOk (pending_commit_codec_with unchecked_codec) pending_commit_wf.
Proof using Type*. struct_ok. Qed.

#[export] Instance legacy_commit_codec_ok : CodecOk (legacy_commit_codec_with unchecked_codec) legacy_commit_wf.
Proof using Type. struct_ok. Qed.

Lemma pending_variants t cv :
  (if t =? 0 then
     Some (variant_codec (fun _ => NoPendingCommit)
             (fun s => match s with NoPendingCommit => Some tt | _ => None end) unit_codec)
   else if t =? 1 then
     Some (variant_codec LegacyPending (fun s => match s with LegacyPending l => Some l | _ => None end)
             (legacy_commit_codec_with unchecked_codec))
   else if t =? 2 then
     Some (variant_codec PendingBytes (fun s => match s with PendingBytes b => Some b | _ => None end) byte_vec_codec)
   else None) = Some cv ->
  CodecOk cv (fun s => match s with NoPendingCommit => 0 | LegacyPending _ => 1 | PendingBytes _ => 2 end = t /\ pending_snapshot_wf s).
Proof using Type.
  revert t cv. variant_cases;
    (eapply (variant_ok_disc _ _ _ _ (fun s => match s with NoPendingCommit => 0 | LegacyPending _ => 1 | PendingBytes _ => 2 end)); [apply _| | |]).
  all: try by intros []. all: try (by intros [] ?; naive_solver). all: try by intros [] ? ?; naive_solver.
  intros [] []; naive_solver.
Qed.

#[export] Instance pending_snapshot_codec_ok : CodecOk (pending_snapshot_codec_with unchecked_codec) pending_snapshot_wf.
Proof using Type.
  eapply codec_ok_iff; [|apply (enum_codec_ok u8_codec is_u8 _ _ pending_snapshot_wf)].
  - intros x. split; [by intros []|]. intros Hx. split; [by destruct x|done].
  - intros t cv Hv. by apply pending_variants in Hv.
  - by intros [].
Qed.

#[export] Instance raw_state_codec_ok : CodecOk (raw_state_codec_with unchecked_codec) raw_state_wf.
Proof using Type*. struct_ok. Qed.

#[export] Instance snapshot_codec_ok : CodecOk (snapshot_codec_with unchecked_codec) snapshot_wf.
Proof using Type*. struct_ok. Qed.
End stored_laws.

(** ** Proposals that can be sent *)

Lemma agree_map {K V} `{Countable K} (Pv : V -> Prop) (kc : codec K) (vc vc' : codec V) iter
    (Hiter : forall m : gmap K V, iter m ≡ₚ map_to_list m) :
  codec_agree Pv vc vc' -> codec_agree (map_Forall (fun _ v => Pv v)) (map_codec kc vc iter) (map_codec kc vc' iter).
Proof.
  intros Ha. pose proof (agree_vec _ _ _ (agree_pair (fun _ => True) Pv kc kc vc vc' (agree_refl _ _) Ha)) as [L E _].
  assert (forall m, map_Forall (fun _ v => Pv v) m -> Forall (fun x : K * V => True /\ Pv x.2) (iter m)) as Hall.
  { intros m Hm. apply Forall_forall. intros [k v] Hkv. rewrite Hiter in Hkv. apply elem_of_map_to_list in Hkv.
    split; [done|]. by eapply Hm. }
  assert (forall n bs acc, decode_map_items kc vc n bs acc = decode_map_items kc vc' n bs acc) as HD.
  { induction n as [|n IH]; intros [|b bs] acc; try done. cbn [decode_map_items].
    destruct (mls_decode kc (b :: bs)) as [[k r]| |]; [|done|done]. cbn [mbind res_bind].
    rewrite (agree_dec _ _ _ Ha). destruct (mls_decode vc' r) as [[v r']| |]; [|done|done]. cbn [mbind res_bind]. apply IH. }
  split.
  - intros m Hm. exact (L _ (Hall m Hm)).
  - intros m w Hm. exact (E _ w (Hall m Hm)).
  - intros bs. cbn [mls_decode map_codec]. unfold mls_decode_collection.
    destruct (mls_decode_split_on_collection bs) as [[d r]| |]; cbn [mbind res_bind]; [|done|done]. by rewrite HD.
Qed.

Definition cached_sendable (p : CachedProposal) : Prop := sendable (cp_proposal p).
Definition description_sendable (d : ProposalMessageDescription) : Prop := sendable (pd_proposal d).
Definition info_sendable (i : ProposalInfo Proposal) : Prop := sendable (proposal i).

Definition cache_sendable (c : ProposalCache) : Prop :=
  map_Forall (fun _ => cached_sendable) (pc_proposals c) /\ map_Forall (fun _ => description_sendable) (pc_own_proposals c).

Definition epoch_sendable (n : NewEpoch) : Prop :=
  cache_sendable (st_proposals (ne_prior_state n)) /\ Forall info_sendable (ne_applied_proposals n) /\
  Forall info_sendable (ne_unused_proposals n).

Definition effect_sendable (e : CommitEffect) : Prop :=
  match e with EffectNewEpoch n | EffectRemoved n _ => epoch_sendable n | EffectReInit _ => True end.

Definition pending_sendable (p : PendingCommit) : Prop :=
  cache_sendable (st_proposals (pnd_state p)) /\ effect_sendable (cmd_effect (pnd_output p)).

Definition pending_snapshot_sendable (s : PendingCommitSnapshot) : Prop :=
  match s with LegacyPending l => content_sendable (fc_content (ac_content (lpc_content l))) | _ => True end.

Definition snapshot_sendable (s : Snapshot) : Prop :=
  map_Forall (fun _ => cached_sendable) (rw_proposals (sn_state s)) /\
  map_Forall (fun _ => description_sendable) (rw_own_proposals (sn_state s)) /\
  pending_snapshot_sendable (sn_pending_commit s).

(** A field that is the same in both codecs. *)
Ltac same := apply (agree_refl (fun _ => True)).

Section agreement.
Context `{MapOrder, !MapOrderLaws}.

Lemma cached_agree : codec_agree cached_sendable (cached_proposal_codec_with proposal_codec) (cached_proposal_codec_with unchecked_codec).
Proof using Type.
  eapply agree_weaken; [|apply agree_struct, agree_pair; [apply proposal_codec_agree|same]]. by intros x Hx.
Qed.

Lemma description_agree : codec_agree description_sendable (proposal_description_codec_with proposal_codec)
  (proposal_description_codec_with unchecked_codec).
Proof using Type.
  eapply agree_weaken; [|apply agree_struct, agree_pair; [same|]; apply agree_pair; [apply proposal_codec_agree|same]].
  by intros x Hx.
Qed.

Lemma cached_map_agree : codec_agree (map_Forall (fun _ => cached_sendable)) (cached_map_codec_with proposal_codec)
  (cached_map_codec_with unchecked_codec).
Proof using Type*. unfold cached_map_codec_with. apply (agree_map cached_sendable _ _ _ _ (map_iter_perm _ _ _ _) cached_agree). Qed.

Lemma own_map_agree : codec_agree (map_Forall (fun _ => description_sendable)) (own_map_codec_with proposal_codec)
  (own_map_codec_with unchecked_codec).
Proof using Type*. unfold own_map_codec_with. apply (agree_map description_sendable _ _ _ _ (map_iter_perm _ _ _ _) description_agree). Qed.

Lemma cache_agree : codec_agree cache_sendable (proposal_cache_codec_with proposal_codec) (proposal_cache_codec_with unchecked_codec).
Proof using Type*.
  eapply agree_weaken; [|apply agree_struct, agree_pair; [same|]; apply agree_pair; [same|]; apply agree_pair;
    [apply cached_map_agree|apply own_map_agree]]. by intros x Hx.
Qed.

Lemma state_agree : codec_agree (fun s => cache_sendable (st_proposals s)) (group_state_codec_with proposal_codec)
  (group_state_codec_with unchecked_codec).
Proof using Type*.
  eapply agree_weaken; [|apply agree_struct, agree_pair; [apply cache_agree|same]]. by intros x Hx.
Qed.

Lemma info_agree : codec_agree info_sendable (proposal_info_codec proposal_codec) (proposal_info_codec unchecked_codec).
Proof using Type.
  eapply agree_weaken; [|apply agree_struct, agree_pair; [apply proposal_codec_agree|same]]. by intros x Hx.
Qed.

Lemma new_epoch_agree : codec_agree epoch_sendable (new_epoch_codec_with proposal_codec) (new_epoch_codec_with unchecked_codec).
Proof using Type*.
  eapply agree_weaken; [|apply agree_struct, agree_pair; [same|]; apply agree_pair; [apply state_agree|];
    apply agree_pair; apply agree_vec, info_agree]. by intros x Hx.
Qed.

Lemma effect_agree : codec_agree effect_sendable (commit_effect_codec_with proposal_codec) (commit_effect_codec_with unchecked_codec).
Proof using Type*.
  apply agree_enum. intros t. destruct (t =? 1); [|destruct (t =? 2); [|destruct (t =? 3); [apply agree_refl|done]]].
  - eapply agree_weaken; [|apply agree_variant, new_epoch_agree]. by intros [] ? ? [= <-].
  - eapply agree_weaken; [|apply agree_variant, agree_pair; [apply new_epoch_agree|same]]. by intros [] ? ? [= <-].
Qed.

Lemma commit_description_agree : codec_agree (fun d => effect_sendable (cmd_effect d))
  (commit_description_codec_with proposal_codec) (commit_description_codec_with unchecked_codec).
Proof using Type*.
  eapply agree_weaken; [|apply agree_struct, agree_pair; [same|]; apply agree_pair; [same|]; apply agree_pair;
    [apply effect_agree|same]]. by intros x Hx.
Qed.

Lemma pending_commit_agree : codec_agree pending_sendable pending_commit_codec (pending_commit_codec_with unchecked_codec).
Proof using Type*.
  eapply agree_weaken; [|apply agree_struct, agree_pair; [apply state_agree|]; apply agree_pair; [same|];
    apply agree_pair; [same|]; apply agree_pair; [same|]; apply agree_pair; [same|]; apply agree_pair;
    [apply commit_description_agree|same]]. intros x [? ?]. simpl. tauto.
Qed.

Lemma pending_snapshot_agree : codec_agree pending_snapshot_sendable (pending_snapshot_codec_with proposal_codec)
  (pending_snapshot_codec_with unchecked_codec).
Proof using Type*.
  apply agree_enum. intros t. destruct (t =? 0); [apply agree_refl|]. destruct (t =? 1); [|destruct (t =? 2); [apply agree_refl|done]].
  eapply agree_weaken; [|apply agree_variant, agree_struct, agree_pair; [apply authenticated_content_codec_agree|same]].
  by intros [] ? ? [= <-].
Qed.

Lemma raw_state_agree :
  codec_agree (fun r => map_Forall (fun _ => cached_sendable) (rw_proposals r) /\
      map_Forall (fun _ => description_sendable) (rw_own_proposals r))
    (raw_state_codec_with proposal_codec) (raw_state_codec_with unchecked_codec).
Proof using Type*.
  eapply agree_weaken; [|apply agree_struct, agree_pair; [same|]; apply agree_pair; [apply cached_map_agree|];
    apply agree_pair; [apply own_map_agree|same]]. intros x [? ?]. simpl. tauto.
Qed.

Lemma snapshot_agree : codec_agree snapshot_sendable snapshot_codec (snapshot_codec_with unchecked_codec).
Proof using Type*.
  eapply agree_weaken; [|apply agree_struct, agree_pair; [same|]; apply agree_pair; [apply raw_state_agree|];
    do 4 (apply agree_pair; [same|]); apply agree_pair; [apply pending_snapshot_agree|same]].
  intros x (? & ? & ?). simpl. tauto.
Qed.

(** What is encoded decodes. *)
Lemma agree_roundtrip {A} (Pr wf : A -> Prop) (c c' : codec A) `{!CodecOk c' wf} x b :
  codec_agree Pr c c' -> wf x -> Pr x -> mls_encode_to_vec c x = Ok b -> mls_decode c b = Ok (x, []) /\ bytes_ok b.
Proof using Type.
  intros Ha Hx HP E. destruct (agree_good Pr wf c c' Ha) as [Hg _]. specialize (Hg x Hx HP). unfold enc_good in Hg.
  unfold mls_encode_to_vec in E. rewrite E in Hg. destruct Hg as (Hb & _ & Hd). specialize (Hd [] (Forall_nil_2 _)).
  by rewrite app_nil_r in Hd.
Qed.

Lemma pending_roundtrip p s : pending_commit_wf p -> pending_sendable p -> pending_try_from p = Ok s ->
  exists b, s = PendingBytes b /\ mls_decode pending_commit_codec b = Ok (p, []) /\ bytes_ok b.
Proof using Type*.
  unfold pending_try_from. intros Hp Hs E. apply bind_Ok in E as (b & Eb & [= <-]). apply map_err_Ok in Eb. exists b.
  split; [done|]. by apply (agree_roundtrip _ pending_commit_wf _ _ p b pending_commit_agree).
Qed.

Lemma snapshot_roundtrip s b : snapshot_wf s -> snapshot_sendable s -> mls_encode_to_vec snapshot_codec s = Ok b ->
  mls_decode snapshot_codec b = Ok (s, []).
Proof using Type*. intros ? ? E. by eapply (agree_roundtrip _ snapshot_wf _ _ s b snapshot_agree) in E as [? _]. Qed.
End agreement.

(** *** Deciding it *)

Definition cached_unreserved (m : gmap bytes CachedProposal) : bool :=
  forallb (fun kv => negb (reserved (cp_proposal kv.2))) (map_to_list m).
Definition own_unreserved (m : gmap bytes ProposalMessageDescription) : bool :=
  forallb (fun kv => negb (reserved (pd_proposal kv.2))) (map_to_list m).
Definition infos_unreserved (l : list (ProposalInfo Proposal)) : bool := forallb (fun i => negb (reserved (proposal i))) l.

Definition effect_unreserved (e : CommitEffect) : bool :=
  match e with
  | EffectNewEpoch n | EffectRemoved n _ =>
      cached_unreserved (pc_proposals (st_proposals (ne_prior_state n))) &&
      own_unreserved (pc_own_proposals (st_proposals (ne_prior_state n))) &&
      infos_unreserved (ne_applied_proposals n) && infos_unreserved (ne_unused_proposals n)
  | EffectReInit _ => true
  end.

Definition pending_unreserved (p : PendingCommit) : bool :=
  cached_unreserved (pc_proposals (st_proposals (pnd_state p))) && own_unreserved (pc_own_proposals (st_proposals (pnd_state p))) &&
  effect_unreserved (cmd_effect (pnd_output p)).

Lemma cached_decides m : map_wf bytes_ok cached_proposal_wf m -> cached_unreserved m = true ->
  map_Forall (fun _ => cached_sendable) m.
Proof.
  intros Hw Hu k v Hkv. unfold cached_unreserved in Hu. rewrite forallb_forall in Hu.
  specialize (Hu (k, v)). rewrite <- list_elem_of_In, elem_of_map_to_list in Hu. specialize (Hu Hkv).
  split; [apply (Hw _ _ Hkv)|]. by apply negb_true_iff in Hu.
Qed.

Lemma own_decides m : map_wf bytes_ok proposal_description_wf m -> own_unreserved m = true ->
  map_Forall (fun _ => description_sendable) m.
Proof.
  intros Hw Hu k v Hkv. unfold own_unreserved in Hu. rewrite forallb_forall in Hu.
  specialize (Hu (k, v)). rewrite <- list_elem_of_In, elem_of_map_to_list in Hu. specialize (Hu Hkv).
  split; [apply (Hw _ _ Hkv)|]. by apply negb_true_iff in Hu.
Qed.

Lemma infos_decide l : Forall (info_wf proposal_wf) l -> infos_unreserved l = true -> Forall info_sendable l.
Proof.
  unfold infos_unreserved. rewrite forallb_forall, !Forall_forall. intros Hw Hu i Hi. split; [by apply Hw|].
  specialize (Hu i). rewrite <- list_elem_of_In in Hu. by apply negb_true_iff, Hu.
Qed.

Lemma cache_decides c : proposal_cache_wf c -> cached_unreserved (pc_proposals c) && own_unreserved (pc_own_proposals c) = true ->
  cache_sendable c.
Proof. intros (_ & _ & Hp & Ho) [H1 H2]%andb_prop. split; [by apply cached_decides|by apply own_decides]. Qed.

Lemma pending_decides p : pending_commit_wf p -> pending_unreserved p = true -> pending_sendable p.
Proof.
  intros (Hs & _ & _ & _ & _ & (_ & He & _) & _) [H1 H2]%andb_prop. split; [apply cache_decides; [apply Hs|done]|].
  assert (forall n, new_epoch_wf n -> effect_unreserved (EffectNewEpoch n) = true -> epoch_sendable n) as Hn.
  { intros n (_ & Hst & Ha & Hu) [[H3 H4]%andb_prop H5]%andb_prop.
    split; [apply cache_decides; [apply Hst|done]|]. split; by apply infos_decide. }
  destruct (cmd_effect (pnd_output p)) as [n|n r|r]; cbn in *; [by apply Hn|apply Hn; [apply He|done]|done].
Qed.

Lemma snapshot_decides s : snapshot_wf s ->
  cached_unreserved (rw_proposals (sn_state s)) && own_unreserved (rw_own_proposals (sn_state s)) = true ->
  pending_snapshot_sendable (sn_pending_commit s) -> snapshot_sendable s.
Proof.
  intros (_ & (_ & Hp & Ho & _) & _) [H1 H2]%andb_prop Hs. split; [by apply cached_decides|]. split; [by apply own_decides|done].
Qed.

(** A value that decodes from bytes is well-formed. *)
Lemma decoded_wf {A} (c : codec A) wf `{!CodecOk c wf} b x :
  forallb (fun z => (0 <=? z) && (z <? 256)) b = true -> mls_decode c b = Ok (x, []) -> wf x.
Proof.
  intros Hb Hd. assert (bytes_ok b) as Hok.
  { apply Forall_forall. intros z Hz. rewrite forallb_forall in Hb. specialize (Hb z). rewrite <- list_elem_of_In in Hb.
    specialize (Hb Hz). unfold is_u8, in_uint. lia. }
  pose proof (dec_spec (c := c) b Hok) as Hg. unfold dec_good in Hg. rewrite Hd in Hg. apply Hg.
Qed.

(** ** Writing and loading *)

(** What was written last of a group is what the storage answers. *)
Class GroupStateStored (S : Type) `{!GroupStateStorage S} : Prop := {
  st_state_written s gid data ins upd s' :
    st_write (mk_stored_state gid data) ins upd s = (Ok tt, s') -> st_state s' gid = Ok (Some data);
}.

Lemma foldl_update_state upd d : state_data (foldl (fun d e => update_epoch e d) d upd) = state_data d.
Proof.
  revert d. induction upd as [|u upd IH]; intros d; [done|]. simpl. rewrite IH. unfold update_epoch.
  by destruct (get_epoch_data_index d (rec_id u)).
Qed.

#[export] Instance memory_state_stored : GroupStateStored InMemoryGroupStateStorage.
Proof.
  split. intros s gid data ins upd s' [= <-]. unfold st_state, memory_group_storage, memory_write. cbn.
  rewrite lookup_insert_eq. cbn. rewrite foldl_update_state. destruct (foldl_insert_data ins (match inner s !! gid with
    | Some d => mk_group_data data (epoch_data d) | None => group_data_new data end)) as [_ Hs].
  rewrite Hs. by destruct (inner s !! gid).
Qed.

Lemma repo_write_Ok {S K} `{!GroupStateStorage S, !KeyPackageStorage K} pec snapshot gid (r r' : GroupStateRepository S K) :
  repo_write_to_storage pec snapshot gid r = (Ok tt, r') ->
  exists data ins upd, snapshot = Ok data /\ encode_records pec (pending_inserts r) = Ok ins /\
    encode_records pec (pending_updates r) = Ok upd /\
    st_write (mk_stored_state gid data) ins upd (repo_storage r) = (Ok tt, repo_storage r') /\
    pending_inserts r' = [] /\ pending_updates r' = [] /\ repo_group_id r' = repo_group_id r.
Proof.
  unfold repo_write_to_storage. rewrite sm_get_run. intros Hr.
  apply sm_bind_Ok in Hr as (ins & r1 & [= Hins <-] & Hr). apply sm_bind_Ok in Hr as (upd & r2 & [= Hupd <-] & Hr).
  apply sm_bind_Ok in Hr as (data & r3 & [= Hd <-] & Hr). apply map_err_Ok in Hd.
  apply sm_bind_Ok in Hr as ([] & r4 & Hw & Hr). unfold sm_zoom in Hw.
  destruct (st_write _ ins upd (repo_storage r)) as [x s'] eqn:Ew. injection Hw as Hx <-. apply map_err_Ok in Hx as ->.
  exists data, ins, upd. split; [done|]. split; [done|]. split; [done|].
  apply sm_bind_Ok in Hr as ([] & r5 & Hk & Hr). rewrite sm_modify_run in Hr. injection Hr as <-. cbn.
  destruct (pending_key_package_removal r) as [ref|].
  - unfold sm_zoom in Hk. destruct (kps_delete _ _) as [y k']. by injection Hk as _ <-.
  - by injection Hk as <-.
Qed.

Section loading.
Context {idp : IdentityProvider} {C K P S R : Type} {cc : ClientConfig C K P S R}.
Context `{MapOrder, !MapOrderLaws, !GroupStateStorage S, !GroupStateStored S, !KeyPackageStorage K, !PreSharedKeyStorage P}.
Notation Grp := (Group C S K).

(** The group [g], in the client with configuration [c]; only the pre-shared
    key of a resumption and the cached epochs are not part of it. *)
Definition reloaded (c : C) (g : Grp) : Grp :=
  mk_group c (repository_new (group_id (st_context (g_state g))) (group_state_storage c) (cfg_key_package_repo c) None)
    (g_state g) (g_epoch_secrets g) (g_private_tree g) (g_key_schedule g) (g_pending_updates g) (g_pending_commit g) None
    (g_signer g).

Lemma store_snapshot_Ok (sn : Snapshot) (g g' : Grp) :
  snapshot_wf sn -> snapshot_sendable sn -> store_snapshot sn g = (Ok tt, g') ->
  exists r', g' = set_g_state_repo r' g /\ pending_inserts r' = [] /\ pending_updates r' = [] /\
    forall cl : Client C, group_state_storage (cl_config cl) = repo_storage r' ->
      load_snapshot cl (group_id (rw_context (sn_state sn))) = Ok sn.
Proof using Type*.
  intros Hw Hs E. unfold store_snapshot, zoom_g_repo, sm_zoom in E. destruct (repo_write_to_storage _ _ _ _) as [x r'] eqn:Er.
  injection E as -> <-. exists r'. split; [done|].
  apply repo_write_Ok in Er as (data & ins & upd & Ed & _ & _ & Ew & ? & ? & _). split; [done|]. split; [done|].
  intros cl Hcl. unfold load_snapshot. rewrite Hcl, (st_state_written _ _ _ _ _ _ Ew).
  cbn [from_storage_err map_err ok_or mbind res_bind]. by rewrite (snapshot_roundtrip sn data Hw Hs Ed).
Qed.

Lemma from_snapshot_reloads (c : C) (s : Suite) (g : Grp) :
  crypto_suite (crypto_provider c) (gc_cipher_suite (st_context (g_state g))) = Some s ->
  pc_protocol_version (st_proposals (g_state g)) = protocol_version (st_context (g_state g)) ->
  pc_group_id (st_proposals (g_state g)) = group_id (st_context (g_state g)) ->
  is_initialized (index (st_public_tree (g_state g))) = true ->
  from_snapshot c (group_snapshot g) = Ok (s, reloaded c g).
Proof using Type.
  intros Hs Hv Hg Hi. unfold from_snapshot, cipher_suite_provider. cbn [group_snapshot sn_state raw_state_export rw_context].
  rewrite Hs. cbn [ok_or mbind res_bind]. unfold raw_state_import. cbn [raw_state_export rw_context rw_public_tree].
  unfold initialize_index_if_necessary, sm_exec. rewrite sm_get_run, Hi. cbn.
  unfold reloaded. destruct g as [c0 r0 [[v gid p o] x t i pr tag] e q k u pc ps sg]. cbn in *. by subst.
Qed.

Lemma without_tree_wf (g : Grp) : snapshot_wf (group_snapshot g) -> snapshot_wf (without_tree (group_snapshot g)).
Proof using Type.
  intros (Hv & (Hc & Hp & Ho & (Hi & _ & Hh) & Hr) & Hsn). split; [done|]. split; [|done].
  split; [done|]. split; [done|]. split; [done|]. split; [|done]. split; [done|]. by split.
Qed.

(** C11: a group written to the storage and loaded again, by any client whose
    storage holds what was written and whose crypto provider has the suite of
    the group, is the same group: its state, secrets, private keys, pending
    updates and pending commit.  So is a group written without its tree and
    loaded with the tree it exported; and a group that was not stored is not
    found. *)
Theorem stored_group_loads (g g' : Grp) (cl : Client C) (s : Suite)
    (Hw : snapshot_wf (group_snapshot g)) (Hs : snapshot_sendable (group_snapshot g))
    (Hv : pc_protocol_version (st_proposals (g_state g)) = protocol_version (st_context (g_state g)))
    (Hg : pc_group_id (st_proposals (g_state g)) = group_id (st_context (g_state g)))
    (Hi : is_initialized (index (st_public_tree (g_state g))) = true)
    (Hc : crypto_suite (crypto_provider (cl_config cl)) (gc_cipher_suite (st_context (g_state g))) = Some s)
    (Hcl : group_state_storage (cl_config cl) = repo_storage (g_state_repo g')) :
  (write_to_storage g = (Ok tt, g') ->
    load_group cl (group_id (st_context (g_state g))) = Ok (s, reloaded (cl_config cl) g)) /\
  (write_to_storage_without_ratchet_tree g = (Ok tt, g') ->
    load_group_with_ratchet_tree cl (group_id (st_context (g_state g))) (export_tree g) = Ok (s, reloaded (cl_config cl) g)) /\
  (forall gid, st_state (group_state_storage (cl_config cl)) gid = Ok None -> load_group (S := S) (K := K) cl gid = Err GroupNotFound).
Proof using Type*.
  split_and!.
  - intros E. apply store_snapshot_Ok in E as (r' & -> & _ & _ & Hl); [|done..]. unfold load_group.
    pose proof (Hl cl Hcl) as El. cbn in El. rewrite El. cbn [mbind res_bind]. by apply from_snapshot_reloads.
  - intros E. apply store_snapshot_Ok in E as (r' & -> & _ & _ & Hl); [|by apply without_tree_wf|done].
    unfold load_group_with_ratchet_tree. pose proof (Hl cl Hcl) as El. cbn in El. rewrite El. cbn [mbind res_bind].
    replace (with_tree (export_tree g) (without_tree (group_snapshot g))) with (group_snapshot g) by
      (unfold with_tree, without_tree, group_snapshot, raw_state_export, export_tree, current_epoch_tree; cbn;
       by destruct (st_public_tree (g_state g))).
    by apply from_snapshot_reloads.
  - intros gid E. unfold load_group, load_snapshot. by rewrite E.
Qed.
End loading.

(** Bob's group of the scenario, stored and loaded by a client with his name. *)
Section stored_at_work.
#[local] Existing Instance plain_provider.
#[local] Existing Instance plain_order.
#[local] Existing Instance Toy.provider.

Definition bob_stored : ToyGroup := (write_to_storage bob_2).2.

Definition bob_again : Client ToyConfig :=
  set_cl_config (cfg_set_group_state_storage (repo_storage (g_state_repo bob_stored)) toy_config) (toy_client 2).

Lemma bob_snapshot_wf : snapshot_wf (group_snapshot bob_2).
Proof.
  apply (decoded_wf (snapshot_codec_with unchecked_codec) _
    (value [] (mls_encode_to_vec (snapshot_codec_with unchecked_codec) (group_snapshot bob_2)))); vm_compute; reflexivity.
Qed.

Lemma stored_group_loads_witness :
  write_to_storage bob_2 = (Ok tt, bob_stored) /\
  load_group bob_again [7] = Ok (toy_suite, reloaded (cl_config bob_again) bob_2) /\
  load_group (S := InMemoryGroupStateStorage) (K := gmap bytes KeyPackageData) bob_again [8] = Err GroupNotFound.
Proof.
  assert (write_to_storage bob_2 = (Ok tt, bob_stored)) as E.
  { unfold bob_stored. assert ((write_to_storage bob_2).1 = Ok tt) as E by (vm_compute; reflexivity). by destruct (write_to_storage bob_2) as [r g]; cbn in *; subst. }
  split; [exact E|]. 
  destruct (stored_group_loads bob_2 bob_stored bob_again toy_suite) as (Hl & _ & Hn).
  - apply bob_snapshot_wf.
  - apply snapshot_decides; [apply bob_snapshot_wf|vm_compute; reflexivity|].
    assert (g_pending_commit bob_2 = NoPendingCommit) as Ep by (vm_compute; reflexivity). cbn. by rewrite Ep.
  - vm_compute. reflexivity.
  - vm_compute. reflexivity.
  - vm_compute. reflexivity.
  - cbn. assert (gc_cipher_suite (st_context (g_state bob_2)) = 1) as -> by (vm_compute; reflexivity). reflexivity.
  - reflexivity.
  - split; [|apply Hn; vm_compute; reflexivity].
    assert (group_id (st_context (g_state bob_2)) = [7]) as Eg by (vm_compute; reflexivity). rewrite <- Eg. by apply Hl.
Defined.
End stored_at_work.
