(* ===== verification/Observer.v ===== *)
(** * Observers of a group

    A client that is not a member follows the public state of a group
    (mls-rs/src/external_client.rs, external_client/group.rs and builder.rs, of
    the feature [external_client]).  [ExternalGroup] is the second
    [MessageProcessor]: it has no secrets, so that it takes commits without
    their confirmation. *)

From S2P Require Import Prelude Codec Crypto TreeMath SecretTree Data NodeVec TreeIndex TreeHash ParentHash TreeInv Proposals TreeKem TreePath LeafNodes Kem Framing KeySchedule MessageProtection EpochStore Filtering GroupState Processor Group Client.

#[local] Set Default Goal Selector "!".
Local Open Scope Z_scope.

(** ** What an observer receives *)

Inductive ExternalReceivedMessage :=
| ExtCommit (d : CommitMessageDescription)
| ExtProposal (d : ProposalMessageDescription)
| ExtCiphertext (t : ContentType)
| ExtGroupInfo (g : GroupInfo)
| ExtWelcome
| ExtKeyPackage (k : KeyPackage).

#[export] Instance external_message_output : MessageOutput ExternalReceivedMessage := {|
  out_application _ := Err UnencryptedApplicationMessage;
  out_commit := ExtCommit;
  out_proposal := ExtProposal;
  out_group_info := ExtGroupInfo;
  out_welcome _ := ExtWelcome;
  out_key_package := ExtKeyPackage;
|}.

(** psk.rs: every external pre-shared key is found. *)
Inductive AlwaysFoundPskStorage := AlwaysFound.

#[export] Instance always_found_storage : PreSharedKeyStorage AlwaysFoundPskStorage := {|
  pss_get _ _ := Ok (Some []);
|}.

(** ** Proposals kept by the application

    The record [CachedProposal] of message_processor.rs, a proposal with its
    reference. *)

Record MpCachedProposal := mk_mp_cached_proposal {
  mcp_proposal : Proposal;
  mcp_proposal_ref : ProposalRef;
  mcp_sender : Sender;
}.

Definition mp_cached_proposal_codec_with (pc : codec Proposal) : codec MpCachedProposal :=
  struct_codec (fun p => (mcp_proposal p, (mcp_proposal_ref p, mcp_sender p))) (fun '(p, (r, s)) => mk_mp_cached_proposal p r s)
    (pair_codec pc (pair_codec byte_vec_codec sender_codec)).

Definition cached_proposal_from_bytes (b : bytes) : mres MpCachedProposal :=
  fst <$> from_codec (mls_decode (mp_cached_proposal_codec_with proposal_codec) b).

Definition cached_proposal_to_bytes (p : MpCachedProposal) : mres bytes :=
  from_codec (mls_encode_to_vec (mp_cached_proposal_codec_with proposal_codec) p).

(** [ProposalMessageDescription::cached_proposal]. *)
Definition cached_proposal (d : ProposalMessageDescription) : MpCachedProposal :=
  mk_mp_cached_proposal (pd_proposal d) (pd_proposal_ref d)
    match pd_sender d with
    | ProposerMember i => SenderMember i
    | ProposerExternal i => SenderExternal i
    | ProposerNewMember => NewMemberProposal
    end.

(** ** Configurations *)

Class ExternalClientConfig (C R : Type) := {
  ecfg_protocol_versions : C -> list Z;
  ecfg_crypto_provider : C -> CryptoProvider;
  ecfg_external_signing_key : C -> bytes -> option SignaturePublicKey;
  ecfg_mls_rules : C -> R;
  ecfg_cache_proposals : C -> bool;
  ecfg_max_epoch_jitter : C -> option Z;
}.

Definition ecfg_version_supported {C R} `{ExternalClientConfig C R} (c : C) (version : Z) : bool :=
  bool_decide (version ∈ ecfg_protocol_versions c).

Record ExternalSettings := mk_external_settings {
  xs_extension_types : list Z;
  xs_custom_proposal_types : list Z;
  xs_protocol_versions : list Z;
  xs_external_signing_keys : gmap bytes SignaturePublicKey;
  xs_max_epoch_jitter : option Z;
  xs_cache_proposals : bool;
}.

Definition external_settings_default : ExternalSettings := mk_external_settings [] [] [] ∅ None true.

Record ExternalConfig (R : Type) := mk_external_config {
  xc_settings : ExternalSettings;
  xc_mls_rules : R;
  xc_crypto_provider : CryptoProvider;
  xc_signing_data : option (SignatureSecretKey * SigningIdentity);
}.
Arguments mk_external_config {_} _ _ _ _.
Arguments xc_settings {_} _.
Arguments xc_mls_rules {_} _.
Arguments xc_crypto_provider {_} _.
Arguments xc_signing_data {_} _.

#[export] Instance external_config_instance {R} : ExternalClientConfig (ExternalConfig R) R := {|
  ecfg_protocol_versions c := xs_protocol_versions (xc_settings c);
  ecfg_crypto_provider := xc_crypto_provider;
  ecfg_external_signing_key c id := xs_external_signing_keys (xc_settings c) !! id;
  ecfg_mls_rules := xc_mls_rules;
  ecfg_cache_proposals c := xs_cache_proposals (xc_settings c);
  ecfg_max_epoch_jitter c := xs_max_epoch_jitter (xc_settings c);
|}.

(** *** The builder *)

Section builder.
Context {R : Type}.

Definition map_external_settings (f : ExternalSettings -> ExternalSettings) (c : ExternalConfig R) : ExternalConfig R :=
  mk_external_config (f (xc_settings c)) (xc_mls_rules c) (xc_crypto_provider c) (xc_signing_data c).

Definition xb_extension_types (types : list Z) : ExternalConfig R -> ExternalConfig R :=
  map_external_settings (fun s => mk_external_settings (xs_extension_types s ++ types) (xs_custom_proposal_types s)
    (xs_protocol_versions s) (xs_external_signing_keys s) (xs_max_epoch_jitter s) (xs_cache_proposals s)).

Definition xb_custom_proposal_types (types : list Z) : ExternalConfig R -> ExternalConfig R :=
  map_external_settings (fun s => mk_external_settings (xs_extension_types s) (xs_custom_proposal_types s ++ types)
    (xs_protocol_versions s) (xs_external_signing_keys s) (xs_max_epoch_jitter s) (xs_cache_proposals s)).

Definition xb_protocol_versions (versions : list Z) : ExternalConfig R -> ExternalConfig R :=
  map_external_settings (fun s => mk_external_settings (xs_extension_types s) (xs_custom_proposal_types s)
    (xs_protocol_versions s ++ versions) (xs_external_signing_keys s) (xs_max_epoch_jitter s) (xs_cache_proposals s)).

Definition xb_external_signing_key (id : bytes) (key : SignaturePublicKey) : ExternalConfig R -> ExternalConfig R :=
  map_external_settings (fun s => mk_external_settings (xs_extension_types s) (xs_custom_proposal_types s)
    (xs_protocol_versions s) (<[id := key]> (xs_external_signing_keys s)) (xs_max_epoch_jitter s) (xs_cache_proposals s)).

Definition xb_max_epoch_jitter (max_jitter : Z) : ExternalConfig R -> ExternalConfig R :=
  map_external_settings (fun s => mk_external_settings (xs_extension_types s) (xs_custom_proposal_types s)
    (xs_protocol_versions s) (xs_external_signing_keys s) (Some max_jitter) (xs_cache_proposals s)).

Definition xb_cache_proposals (cache_proposals : bool) : ExternalConfig R -> ExternalConfig R :=
  map_external_settings (fun s => mk_external_settings (xs_extension_types s) (xs_custom_proposal_types s)
    (xs_protocol_versions s) (xs_external_signing_keys s) (xs_max_epoch_jitter s) cache_proposals).

Definition xb_signer (signer : SignatureSecretKey) (signing_identity : SigningIdentity) (c : ExternalConfig R) :
    ExternalConfig R :=
  mk_external_config (xc_settings c) (xc_mls_rules c) (xc_crypto_provider c) (Some (signer, signing_identity)).

Definition xb_crypto_provider (crypto_provider : CryptoProvider) (c : ExternalConfig R) : ExternalConfig R :=
  mk_external_config (xc_settings c) (xc_mls_rules c) crypto_provider (xc_signing_data c).

Definition xb_mls_rules {R'} (mls_rules : R') (c : ExternalConfig R) : ExternalConfig R' :=
  mk_external_config (xc_settings c) mls_rules (xc_crypto_provider c) (xc_signing_data c).

(** [ProtocolVersion::all]. *)
Definition all_versions : list Z := [1].

Definition xb_build_config (c : ExternalConfig R) : ExternalConfig R :=
  if bool_decide (xs_protocol_versions (xc_settings c) = []) then xb_protocol_versions all_versions c else c.
End builder.

(** ** The state of an observer *)

Record ExternalGroup (C : Type) := mk_external_group {
  xg_config : C;
  xg_state : GroupState;
  xg_signing_data : option (SignatureSecretKey * SigningIdentity);
}.
Arguments mk_external_group {_} _ _ _.
Arguments xg_config {_} _.
Arguments xg_state {_} _.
Arguments xg_signing_data {_} _.

Definition set_xg_state {C} (s : GroupState) (x : ExternalGroup C) : ExternalGroup C :=
  mk_external_group (xg_config x) s (xg_signing_data x).

Section observer.
Context {idp : IdentityProvider} {cs : CipherSuiteProvider} {C R : Type} `{!ExternalClientConfig C R, MapOrder, !MlsRules R}.
Notation XGroup := (ExternalGroup C).

Definition zoom_xg_state {A} : SM GroupState MlsError A -> SM XGroup MlsError A := sm_zoom xg_state set_xg_state.

(** The method [update_key_schedule] of an observer: no schedule, and the tag is
    taken as it is. *)
Definition external_update_key_schedule (secrets : CommitSecretKeys) (interim_transcript_hash : bytes)
    (tag : ConfirmationTag) (pv : ProvisionalState) : SM XGroup MlsError unit :=
  zoom_xg_state (sm_modify (next_state interim_transcript_hash tag pv)).

(** The subtraction of the jitter wraps around. *)
Definition external_min_epoch_available (x : XGroup) : option Z :=
  option_map (fun j => wrap 64 (epoch (st_context (xg_state x)) - j)) (ecfg_max_epoch_jitter (xg_config x)).

#[export] Instance external_processor : MessageProcessor XGroup ExternalReceivedMessage R AlwaysFoundPskStorage := {|
  mp_group_state := xg_state;
  mp_set_group_state := set_xg_state;
  mp_mls_rules x := ecfg_mls_rules (xg_config x);
  mp_psk_storage _ := AlwaysFound;
  mp_removal_proposal _ _ := None;
  mp_min_epoch_available := external_min_epoch_available;
  mp_process_ciphertext cipher_text := mret (Event (ExtCiphertext (prm_content_type cipher_text)));
  mp_verify_plaintext_authentication x message :=
    (c ← verify_plaintext_authentication message None (st_context (xg_state x)) (RatchetTree (st_public_tree (xg_state x)));
     Ok (EventContent c));
  mp_apply_update_path _ := default_apply_update_path;
  mp_update_key_schedule := external_update_key_schedule;
|}.

(** [ExternalGroup::process_incoming_message] and [process_incoming_message_with_time]. *)
Definition external_process_incoming_message (coins : Coins) (now : Z) (message : MlsMessage) (time : option Z) :
    SM XGroup MlsError ExternalReceivedMessage :=
  x ← sm_get;
  mp_process_incoming_message_with_time coins now message (ecfg_cache_proposals (xg_config x)) time.

(** *** Proposals *)

Definition external_cache_insert (r : ProposalRef) (p : Proposal) (s : Sender) : SM XGroup MlsError unit :=
  zoom_xg_state (zoom_cache (sm_modify (cache_insert r p s))).

Definition insert_proposal_from_message (message : MlsMessage) : SM XGroup MlsError unit :=
  ptxt ← sm_lift match payload message with Plain p => Ok p | _ => Err UnexpectedMessageType end;
  let auth_content := from_public_message ptxt in
  r ← sm_lift (proposal_ref_from_content auth_content);
  proposal ← sm_lift match fc_content (ac_content auth_content) with
                     | ContentProposal p => Ok p
                     | _ => Err UnexpectedMessageType
                     end;
  external_cache_insert r proposal (fc_sender (ac_content auth_content)).

Definition insert_proposal (proposal : MpCachedProposal) : SM XGroup MlsError unit :=
  external_cache_insert (mcp_proposal_ref proposal) (mcp_proposal proposal) (mcp_sender proposal).

Definition external_propose (coins : Coins) (proposal : Proposal) (authenticated_data : bytes) : SM XGroup MlsError MlsMessage :=
  x ← sm_get;
  '(signer, signing_identity) ← sm_lift (ok_or SignerNotFound (xg_signing_data x));
  let context := st_context (xg_state x) in
  ext ← sm_lift (from_extension_error (ext_get_as EXT_EXTERNAL_SENDERS external_senders_codec (gc_extensions context)));
  allowed_senders ← sm_lift (ok_or ExternalProposalsDisabled ext);
  sender_index ← sm_lift (ok_or InvalidExternalSigningIdentity
                            (find_position (fun s => bool_decide (signing_identity = s)) allowed_senders));
  let sender := SenderExternal (wrap 32 sender_index) in
  auth_content ← sm_lift (auth_content_new_signed coins context sender (ContentProposal proposal) signer WfPublicMessage
                            authenticated_data);
  r ← sm_lift (proposal_ref_from_content auth_content);
  _ ← external_cache_insert r proposal sender;
  mret (mk_message (protocol_version context)
          (Plain (mk_public_message (ac_content auth_content) (ac_auth auth_content) None))).

Definition external_propose_add (coins : Coins) (key_package : MlsMessage) (authenticated_data : bytes) :
    SM XGroup MlsError MlsMessage :=
  key_package ← sm_lift (ok_or UnexpectedMessageType (into_key_package key_package));
  external_propose coins (PAdd (mk_add key_package)) authenticated_data.

Definition external_propose_remove (coins : Coins) (i : Z) (authenticated_data : bytes) : SM XGroup MlsError MlsMessage :=
  to_remove ← sm_lift (leaf_index_try_from i);
  x ← sm_get;
  _ ← sm_lift (get_leaf_node (st_public_tree (xg_state x)) to_remove);
  external_propose coins (PRemove (mk_remove to_remove)) authenticated_data.

Definition external_psk_proposal (coins : Coins) (key_id : JustPreSharedKeyID) : mres Proposal :=
  psk_nonce ← from_crypto (random_bytes_vec coins kdf_extract_size);
  Ok (PPsk (mk_psk_proposal (mk_psk_id key_id psk_nonce))).

Definition external_propose_external_psk (c_nonce c_sign : Coins) (psk : bytes) (authenticated_data : bytes) :
    SM XGroup MlsError MlsMessage :=
  proposal ← sm_lift (external_psk_proposal c_nonce (External psk));
  external_propose c_sign proposal authenticated_data.

Definition external_propose_resumption_psk (c_nonce c_sign : Coins) (psk_epoch : Z) (authenticated_data : bytes) :
    SM XGroup MlsError MlsMessage :=
  x ← sm_get;
  let key_id := mk_resumption_psk UsageApplication (group_id (st_context (xg_state x))) psk_epoch in
  proposal ← sm_lift (external_psk_proposal c_nonce (Resumption key_id));
  external_propose c_sign proposal authenticated_data.

Definition external_propose_group_context_extensions (coins : Coins) (extensions : ExtensionList) (authenticated_data : bytes) :
    SM XGroup MlsError MlsMessage :=
  external_propose coins (PGroupContextExtensions extensions) authenticated_data.

Definition external_propose_reinit (c_gid c_sign : Coins) (gid : option bytes) (version suite : Z) (extensions : ExtensionList)
    (authenticated_data : bytes) : SM XGroup MlsError MlsMessage :=
  proposal ← sm_lift (reinit_proposal c_gid gid version suite extensions);
  external_propose c_sign proposal authenticated_data.

Definition external_propose_custom (coins : Coins) (proposal : CustomProposal) (authenticated_data : bytes) :
    SM XGroup MlsError MlsMessage :=
  external_propose coins (PCustom proposal) authenticated_data.

Definition external_clear_proposal_cache : SM XGroup MlsError unit := zoom_xg_state (zoom_cache (sm_modify cache_clear)).

(** *** Reading *)

Definition external_export_tree (x : XGroup) : mres bytes :=
  from_codec (mls_encode_to_vec node_vec_codec (nodes (st_public_tree (xg_state x)))).

Definition get_member_with_identity (x : XGroup) (identity_id : SigningIdentity) : mres Member :=
  id ← from_identity (identity identity_id (gc_extensions (st_context (xg_state x))));
  let tree := st_public_tree (xg_state x) in
  i ← ok_or MemberNotFound (get_leaf_index_with_identity (index tree) id);
  node ← get_leaf_node tree i;
  Ok (member_from_leaf_node node i).
End observer.

(** ** Snapshots *)

Record ExternalSnapshot := mk_external_snapshot { xsn_version : Z; xsn_state : RawGroupState }.

Definition external_snapshot_codec_with `{MapOrder} (pc : codec Proposal) : codec ExternalSnapshot :=
  struct_codec (fun s => (xsn_version s, xsn_state s)) (fun '(v, s) => mk_external_snapshot v s)
    (pair_codec u16_codec (raw_state_codec_with pc)).

Definition external_snapshot_codec `{MapOrder} : codec ExternalSnapshot := external_snapshot_codec_with proposal_codec.

Definition external_to_bytes `{MapOrder} (s : ExternalSnapshot) : mres bytes :=
  from_codec (mls_encode_to_vec external_snapshot_codec s).

Definition external_from_bytes `{MapOrder} (b : bytes) : mres ExternalSnapshot :=
  fst <$> from_codec (mls_decode external_snapshot_codec b).

Definition external_snapshot {C} (x : ExternalGroup C) : ExternalSnapshot := mk_external_snapshot 1 (raw_state_export (xg_state x)).

Definition external_without_tree (s : ExternalSnapshot) (v : NodeVec) : ExternalSnapshot :=
  let r := xsn_state s in
  mk_external_snapshot (xsn_version s)
    (mk_raw_state (rw_context r) (rw_proposals r) (rw_own_proposals r) (set_nodes v (rw_public_tree r))
      (rw_interim_transcript_hash r) (rw_pending_reinit r) (rw_confirmation_tag r)).

Definition external_snapshot_without_ratchet_tree {C} (x : ExternalGroup C) : ExternalSnapshot :=
  external_without_tree (external_snapshot x) [].

(** ** External clients *)

Record ExternalClient (C : Type) := mk_external_client {
  xcl_config : C;
  xcl_signing_data : option (SignatureSecretKey * SigningIdentity);
}.
Arguments mk_external_client {_} _ _.
Arguments xcl_config {_} _.
Arguments xcl_signing_data {_} _.

(** [ExternalClientBuilder::build]. *)
Definition xb_build {R} (c : ExternalConfig R) : ExternalClient (ExternalConfig R) :=
  let c := xb_build_config c in
  mk_external_client (mk_external_config (xc_settings c) (xc_mls_rules c) (xc_crypto_provider c) None) (xc_signing_data c).

Section external_client.
Context {idp : IdentityProvider} {C R : Type} `{!ExternalClientConfig C R}.

(** [ExternalGroup::join], with the provider of the suite of the group. *)
Definition external_join_with {cs : CipherSuiteProvider} (config : C) (signing_data : option (SignatureSecretKey * SigningIdentity))
    (version : Z) (group_info : GroupInfo) (tree_data : option NodeVec) (maybe_time : option Z) : mres (ExternalGroup C) :=
  public_tree ← validate_tree_and_info_joiner version group_info tree_data maybe_time;
  interim ← interim_transcript_create (confirmed_transcript_hash (gi_group_context group_info)) (gi_confirmation_tag group_info);
  Ok (mk_external_group config
        (group_state_new (gi_group_context group_info) public_tree interim (gi_confirmation_tag group_info)) signing_data).

Definition observe_group (c : ExternalClient C) (group_info : MlsMessage) (tree_data : option NodeVec) (maybe_time : option Z) :
    mres (Suite * ExternalGroup C) :=
  let version := msg_version group_info in
  _ ← guard_or (UnsupportedProtocolVersion version) (ecfg_version_supported (xcl_config c) version);
  match payload group_info with
  | PayloadGroupInfo group_info =>
      cipher_suite_provider (ecfg_crypto_provider (xcl_config c)) (gc_cipher_suite (gi_group_context group_info)) ≫=
      fun s : Suite => let cs := suite_provider s in
      x ← external_join_with (xcl_config c) (xcl_signing_data c) version group_info tree_data maybe_time;
      Ok (s, x)
  | _ => Err UnexpectedMessageType
  end.

Definition external_load_group (c : ExternalClient C) (snapshot : ExternalSnapshot) : mres (Suite * ExternalGroup C) :=
  cipher_suite_provider (ecfg_crypto_provider (xcl_config c)) (gc_cipher_suite (rw_context (xsn_state snapshot))) ≫=
  fun s : Suite => let cs := suite_provider s in
  state ← raw_state_import (xsn_state snapshot);
  Ok (s, mk_external_group (xcl_config c) state (xcl_signing_data c)).

Definition external_load_group_with_ratchet_tree (c : ExternalClient C) (snapshot : ExternalSnapshot) (tree_data : NodeVec) :
    mres (Suite * ExternalGroup C) :=
  external_load_group c (external_without_tree snapshot tree_data).

Definition external_validate_key_package (now : Z) (c : ExternalClient C) (message : MlsMessage) (timestamp : option Z) :
    mres KeyPackage :=
  key_package ← ok_or UnexpectedMessageType (into_key_package message);
  cipher_suite_provider (ecfg_crypto_provider (xcl_config c)) (kp_cipher_suite key_package) ≫=
  fun s : Suite => let cs := suite_provider s in
  _ ← validate_key_package now key_package (msg_version message) timestamp;
  Ok key_package.
End external_client.
