(* ===== verification/Following.v ===== *)
(** * What an observer follows

    The correctness of observers: what a member of the group accepts of its
    public messages, the observer accepts, and both have the same public state
    after it; the ways to cache a proposal agree; and what an observer stores is
    what it loads. *)

From S2P Require Import Prelude Codec Crypto TreeMath SecretTree Data NodeVec TreeIndex TreeHash ParentHash TreeInv Proposals TreeKem TreePath LeafNodes Kem Framing KeySchedule MessageProtection EpochStore Filtering GroupState Processor Group Commit Client StateLogic Scenario Snapshots Observer.

#[local] Set Default Goal Selector "!".
Local Open Scope Z_scope.

(** ** What is public

    The state of a group without the descriptions a member keeps of its own
    proposals. *)

Definition public_cache (c : ProposalCache) : ProposalCache :=
  mk_proposal_cache (pc_protocol_version c) (pc_group_id c) (pc_proposals c) ∅.

Definition public_state (s : GroupState) : GroupState := set_st_proposals (public_cache (st_proposals s)) s.

Definition public_epoch (e : NewEpoch) : NewEpoch :=
  mk_new_epoch (ne_epoch e) (public_state (ne_prior_state e)) (ne_applied_proposals e) (ne_unused_proposals e).

(** A member that is removed learns so from the effect. *)
Definition public_effect (e : CommitEffect) : CommitEffect :=
  match e with
  | EffectNewEpoch e => EffectNewEpoch (public_epoch e)
  | EffectRemoved e r => EffectRemoved (public_epoch e) r
  | EffectReInit r => EffectReInit r
  end.

Definition public_commit (d : CommitMessageDescription) : CommitMessageDescription :=
  mk_commit_description (cmd_is_external d) (cmd_committer d) (public_effect (cmd_effect d)) (cmd_authenticated_data d).

(** What a member and an observer are told of the same message. *)
Definition member_sees (r : ReceivedMessage) : option ExternalReceivedMessage :=
  match r with
  | ReceivedCommit d => Some (ExtCommit (public_commit d))
  | ReceivedProposal d => Some (ExtProposal d)
  | ReceivedGroupInfo g => Some (ExtGroupInfo g)
  | ReceivedWelcome => Some ExtWelcome
  | ReceivedKeyPackage k => Some (ExtKeyPackage k)
  | ReceivedApplicationMessage _ => None
  end.

Definition observer_sees (r : ExternalReceivedMessage) : ExternalReceivedMessage :=
  match r with
  | ExtCommit d => ExtCommit (public_commit d)
  | r => r
  end.

(** ** The checks of a commit do not depend on secrets *)

Section hashes.
Context {cs : CipherSuiteProvider}.

Definition same_length (hs hs' : list TreeHash) : Prop := length hs' = length hs.

#[local] Instance same_length_preorder : PreOrder same_length.
Proof. split; [done|]. unfold same_length. intros a b c. congruence. Qed.

Lemma store_hash_keeps i h : keeps same_length (store_hash i h).
Proof. intros hs. unfold store_hash, same_length, zset. destruct (_ && _); [|done]. destruct (_ <? _); [done|]. apply length_insert. Qed.
Hint Resolve store_hash_keeps : keeps.

Lemma hash_leaves_keeps v filtered n ls : keeps same_length (hash_leaves v filtered n ls).
Proof. induction ls as [|l ls IH]; simpl; keeps. Qed.

Lemma hash_queue_keeps fuel v filtered n queue : keeps same_length (hash_queue fuel v filtered n queue).
Proof. revert queue. induction fuel as [|fuel IH]; intros [|x queue]; simpl; keeps. Qed.
Hint Resolve hash_leaves_keeps hash_queue_keeps : keeps.

Lemma compute_hashes_length v ls filtered n hs :
  0 < n -> (compute_tree_hash v ls filtered n hs).2 <> [].
Proof.
  intros Hn. unfold compute_tree_hash. rewrite sm_modify_run.
  match goal with |- (?m ?s).2 <> [] => assert (keeps same_length m) as Hk by keeps; specialize (Hk s) end.
  intros E. rewrite E in Hk. unfold same_length, resize in Hk. rewrite length_app, length_take, length_replicate in Hk. simpl in Hk. lia.
Qed.

Lemma total_leaf_count_pos v : 0 < total_leaf_count v.
Proof. unfold total_leaf_count, next_power_of_two. apply Z.pow_pos_nonneg; [lia|apply Z.log2_up_nonneg]. Qed.

Lemma update_hashes_cached ls t t' : update_hashes ls t = (Ok tt, t') -> tree_hashes t' <> [].
Proof.
  unfold update_hashes. rewrite sm_get_run. unfold zoom_hashes, sm_zoom.
  pose proof (compute_hashes_length (nodes t) (Some (ls ++ missing_leaves (tree_hashes t) (Z.to_nat (total_leaf_count (nodes t))))) []
    (total_leaf_count (nodes t)) (tree_hashes t) (total_leaf_count_pos _)) as Hne.
  destruct (compute_tree_hash _ _ _ _ _) as [r hs]. by intros [= -> <-].
Qed.

Lemma cached_hash_same t h t' : tree_hashes t <> [] -> tree_kem_tree_hash t = (Ok h, t') -> t' = t.
Proof.
  intros Hne. unfold tree_kem_tree_hash. intros (u & t1 & Ei & E)%sm_bind_Ok. rewrite sm_get_run in E. injection E as E <-.
  unfold initialize_hashes in Ei. rewrite sm_get_run in Ei. destruct (tree_hashes t); [done|]. by injection Ei.
Qed.

(** Applying an update path ends with an update of the hashes. *)
Lemma apply_path_cached {idp : IdentityProvider} i path ext t t' :
  apply_update_path i path ext t = (Ok tt, t') -> tree_hashes t' <> [].
Proof.
  unfold apply_update_path. rewrite sm_get_run. intros E. do 2 apply sm_bind_Ok in E as (? & ? & _ & E).
  apply sm_bind_Ok in E as (? & ? & _ & E). rewrite sm_get_run in E. do 3 apply sm_bind_Ok in E as (? & ? & _ & E).
  unfold update_parent_hashes in E. do 2 apply sm_bind_Ok in E as (? & ? & _ & E). rewrite sm_get_run in E.
  do 2 apply sm_bind_Ok in E as (? & ? & _ & E). by eapply update_hashes_cached.
Qed.
End hashes.

Section pre_shared_keys.
Context {idp : IdentityProvider} {cs : CipherSuiteProvider} {P : Type} `{!PreSharedKeyStorage P}.

Lemma psk_valid_found (storage : P) id b : psk_valid storage id b = Ok tt -> psk_valid AlwaysFound id b = Ok tt.
Proof.
  unfold psk_valid. destruct (key_id id) as [e|r]; [|done]. cbn [psk_contains pss_get always_found_storage map_err fmap res_fmap guard_or].
  destruct (psk_contains storage e) as [found| |]; cbn [mbind res_bind]; [|by repeat case_match..].
  destruct found; cbn [guard_or]; [done|]. by repeat case_match.
Qed.

Lemma psks_loop_found (storage : P) i l seen bad :
  psks_loop IgnoreNone storage i l seen = Ok bad -> psks_loop IgnoreNone AlwaysFound i l seen = Ok bad.
Proof.
  revert i seen bad. induction l as [|p l IH]; intros i seen bad; [done|]. simpl. intros E.
  apply bind_Ok in E as (k & Ek & E). apply bind_Ok in E as (bad' & E' & E).
  apply apply_strategy_Ok in Ek as [[Hp ->]|(e & _ & Hi & _)]; [|done].
  apply psk_valid_found in Hp. rewrite Hp. cbn [apply_strategy mbind res_bind]. by rewrite (IH _ _ _ E').
Qed.

Lemma apply_proposals_found a (storage : P) from b time out :
  apply_proposals a storage IgnoreNone from b time = Ok out -> apply_proposals a AlwaysFound IgnoreNone from b time = Ok out.
Proof.
  assert (forall b b', filter_out_invalid_psks IgnoreNone storage b = Ok b' -> filter_out_invalid_psks IgnoreNone AlwaysFound b = Ok b') as Hpsk.
  { unfold filter_out_invalid_psks. intros b0 b1 (bad & E & [= <-])%bind_Ok. apply psks_loop_found in E. by rewrite E. }
  unfold apply_proposals. destruct from as [i|i| |]; [|done|done|].
  - intros (j & -> & E)%bind_Ok. cbn [mbind res_bind]. revert E.
    unfold apply_proposals_from_member, filter_from_member. intros (b1 & E & Eout)%bind_Ok.
    do 4 (apply bind_Ok in E as (? & -> & E); cbn [mbind res_bind]).
    apply bind_Ok in E as (b2 & Epsk & E). apply Hpsk in Epsk as ->. cbn [mbind res_bind]. by rewrite E.
  - unfold apply_proposals_from_new_member. intros E.
    do 6 (apply bind_Ok in E as (? & -> & E); cbn [mbind res_bind]).
    apply bind_Ok in E as (b2 & Epsk & E). apply Hpsk in Epsk as ->. exact E.
Qed.

Lemma apply_resolved_found {R} `{MapOrder, !MlsRules R} s from b leaf (storage : P) (rules : R) time pv :
  apply_resolved s from b leaf storage rules time Receive = Ok pv ->
  apply_resolved s from b leaf AlwaysFound rules time Receive = Ok pv.
Proof.
  unfold apply_resolved. intros E. do 3 (apply bind_Ok in E as (? & -> & E); cbn [mbind res_bind]).
  apply bind_Ok in E as (out & Eout & E). apply apply_proposals_found in Eout.
  change (strategy_from Receive) with IgnoreNone. by rewrite Eout.
Qed.
End pre_shared_keys.

(** ** The member and the observer, step by step *)

Section following.
Context {idp : IdentityProvider} {cs : CipherSuiteProvider} {C K P S R : Type} {cc : ClientConfig C K P S R}.
Context {X : Type} `{!ExternalClientConfig X R}.
Context `{MapOrder, !GroupStateStorage S, !KeyPackageStorage K, !PreSharedKeyStorage P, !MlsRules R}.
Notation Grp := (Group C S K).
Notation XGroup := (ExternalGroup X).

(** An observer that has the public state of a member and its rules. *)
Record follows (x : XGroup) (g : Grp) : Prop := {
  fo_state : public_state (xg_state x) = public_state (g_state g);
  fo_rules : ecfg_mls_rules (xg_config x) = cfg_mls_rules (g_config g);
}.

(** States that are the same but for own proposals. *)
Lemma public_state_cases s s' : public_state s = public_state s' ->
  exists own, s = set_st_proposals (mk_proposal_cache (pc_protocol_version (st_proposals s')) (pc_group_id (st_proposals s'))
                    (pc_proposals (st_proposals s')) own) s'.
Proof. destruct s as [[v i p own] c t h r tag], s' as [[v' i' p' own'] c' t' h' r' tag']. intros [= <- <- <- <- <- <- <- <-]. by exists own. Qed.

Lemma follows_cases x g : follows x g ->
  exists own, xg_state x = set_st_proposals (mk_proposal_cache (pc_protocol_version (st_proposals (g_state g)))
    (pc_group_id (st_proposals (g_state g))) (pc_proposals (st_proposals (g_state g))) own) (g_state g).
Proof. intros [Hs _]. by apply public_state_cases. Qed.

Lemma plain_metadata x g message p : follows x g -> payload message = Plain p ->
  check_metadata (mp := group_processor) g message = Ok tt -> check_metadata (mp := external_processor) x message = Ok tt.
Proof.
  intros (own & Es)%follows_cases Hp. unfold check_metadata, message_metadata. cbn [mp_group_state mp_min_epoch_available group_processor external_processor].
  rewrite Es, Hp. cbn [st_context set_st_proposals]. intros E. apply bind_Ok in E as (? & -> & E). cbn [mbind res_bind] in E |- *.
  apply bind_Ok in E as (? & -> & E). cbn [mbind res_bind] in E |- *.
  destruct (content_type (fc_content (pm_content p))); [|exact E..].
  rewrite bool_decide_true in E by done. by repeat (cbn in E; case_match).
Qed.

Lemma plain_authentic x g p a : follows x g ->
  mp_verify_plaintext_authentication (MessageProcessor := group_processor) g p = Ok (EventContent a) ->
  mp_verify_plaintext_authentication (MessageProcessor := external_processor) x p = Ok (EventContent a).
Proof.
  intros (own & Es)%follows_cases E. cbn [mp_verify_plaintext_authentication group_processor external_processor] in *.
  rewrite Es. apply bind_Ok in E as (a' & E & [= ->]). unfold verify_plaintext_authentication in E |- *.
  unfold group_context, current_epoch_tree in E. cbn [st_context st_public_tree set_st_proposals].
  apply bind_Ok in E as (ext & -> & E). cbn [mbind res_bind]. apply bind_Ok in E as ([] & Etag & E).
  destruct (fc_sender _); [|rewrite Etag..]; cbn [mbind res_bind]; exact E || by rewrite E.
Qed.

Lemma resolve_loop_own c c' from l b : pc_proposals c = pc_proposals c' -> resolve_loop c from l b = resolve_loop c' from l b.
Proof. intros Ec. revert b. induction l as [|[p|r] l IH]; intros b; simpl; [done|apply IH|]. rewrite Ec. destruct (_ !! _); [apply IH|done]. Qed.

(** The part of a commit that both check. *)
Lemma check_commit_follows x g content time c : follows x g ->
  check_commit (mp := group_processor) g content time = Ok c ->
  check_commit (mp := external_processor) x content time =
    Ok (mk_checked (ch_interim c) (ch_confirmed c) (ch_provisional c) (ch_sender c) None (ch_update_path c)).
Proof.
  intros Hf. pose proof (fo_rules _ _ Hf) as Hr. apply follows_cases in Hf as (own & Es). unfold check_commit.
  cbn [mp_group_state mp_psk_storage mp_mls_rules mp_removal_proposal group_processor external_processor]. rewrite Es, Hr.
  cbn [st_context st_pending_reinit st_interim_transcript_hash st_proposals set_st_proposals]. intros E.
  apply bind_Ok in E as (? & -> & E); cbn [mbind res_bind]. apply bind_Ok in E as ([i h] & -> & E); cbn [mbind res_bind].
  apply bind_Ok in E as (co & -> & E). cbn [mbind res_bind]. apply bind_Ok in E as (b & Eb & E).
  unfold resolve_for_commit in *. rewrite (resolve_loop_own _ (st_proposals (g_state g))) by done. rewrite Eb. cbn [mbind res_bind].
  apply bind_Ok in E as (pv & Epv & E). apply apply_resolved_found in Epv.
  change (apply_resolved (set_st_proposals ?c ?s) ?f ?b ?l ?p ?r ?t ?d) with (apply_resolved s f b l p r t d).
  unfold apply_resolved in *; cbn [st_public_tree st_context st_proposals pc_proposals set_st_proposals]; rewrite Epv; cbn [mbind res_bind].
  do 2 (apply bind_Ok in E as (? & -> & E); cbn [mbind res_bind]).
  apply bind_Ok in E as (path & Ep & [= <-]). rewrite Ep. done.
Qed.

(** What the update path of a commit makes of the provisional state: the same
    for both, up to a tree hash in the context that is replaced afterwards. *)
Lemma apply_path_follows coins i path pv (g g' : Grp) secrets pv' :
  group_apply_update_path coins i path pv g = (Ok (secrets, pv'), g') ->
  g_state g' = g_state g /\ exists t h,
    apply_update_path i path (gc_extensions (pv_group_context pv)) (pv_public_tree pv) = (Ok tt, t) /\
    (pv' = set_pv_public_tree t pv \/
     pv' = set_pv_group_context (set_context_tree_hash h (pv_group_context pv)) (set_pv_public_tree t pv)).
Proof.
  unfold group_apply_update_path. rewrite sm_get_run. intros E. apply sm_bind_Ok in E as ([t k] & g1 & [= _ <-] & E).
  apply sm_bind_Ok in E as ([] & g2 & Eg & E).
  assert (g_state g2 = g_state g) as Hg2 by (destruct k; by injection Eg as <-).
  apply sm_bind_Ok in E as ([[] pv1] & g3 & [= E1 <-] & E). unfold on_pv_tree in E1.
  destruct (apply_update_path _ _ _ _) as [r t1] eqn:Et; destruct r as [[]| |]; [|done..]. injection E1 as <-.
  destruct (_ =? _).
  - destruct (g_pending_commit g); [done| |done]. injection E as <- <- <-. split; [done|]. exists t1, []. split; [done|by left].
  - apply sm_bind_Ok in E as ([h pv2] & g4 & [= E2 <-] & E). unfold on_pv_tree in E2.
    destruct (tree_kem_tree_hash _) as [r2 t2] eqn:Eh; destruct r2 as [h'| |]; [|done..]. injection E2 as -> <-.
    pose proof (cached_hash_same _ _ _ (apply_path_cached _ _ _ _ _ Et) Eh) as ->.
    apply sm_bind_Ok in E as (b & g5 & [= _ <-] & E). apply sm_bind_Ok in E as ([s t'] & g6 & [= _ <-] & E).
    injection E as <- <- <-. split; [done|]. exists t1, h. split; [done|by right].
Qed.

Lemma finish_context_hash i confirmed pv h :
  finish_context i confirmed (set_pv_group_context (set_context_tree_hash h (pv_group_context pv)) pv) = finish_context i confirmed pv.
Proof.
  unfold finish_context, on_pv_tree. cbn [pv_public_tree set_pv_group_context].
  destruct (update_hashes [i] (pv_public_tree pv)) as [[]]; [|done..]. cbn [mbind res_bind].
  cbn [pv_public_tree set_pv_group_context set_pv_public_tree].
  destruct (tree_kem_tree_hash _) as [[]]; done.
Qed.
(** The member's configuration stays, and so does the absence of an own commit. *)
Definition settled (g g' : Grp) : Prop :=
  g_config g' = g_config g /\ (g_pending_commit g = NoPendingCommit -> g_pending_commit g' = NoPendingCommit).

#[local] Instance settled_preorder : PreOrder settled.
Proof. split; [by split|]. intros a b c [E1 P1] [E2 P2]. split; [congruence|auto]. Qed.

Lemma process_settled coins content cache time : keeps settled (process_auth_content (mp := group_processor) coins content cache time).
Proof.
  unfold process_auth_content, process_commit, process_proposal, take_commit_effect, zoom_group_state, zoom_cache.
  cbn [mp_apply_update_path mp_update_key_schedule mp_group_state mp_set_group_state group_processor].
  unfold group_apply_update_path, group_update_key_schedule, insert_past_epoch, zoom_g_repo, zoom_g_state.
  assert (forall e : PriorEpoch, keeps settled (sm_zoom g_state_repo set_g_state_repo (repo_insert e))) as Hrepo
    by (intros e; by apply (keeps_zoom _ _ _ _ (fun _ _ => True))).
  keeps; by split.
Qed.

(** What a member's [update_key_schedule] makes of the state. *)
Lemma key_schedule_state secrets interim tag pv (g g' : Grp) :
  group_update_key_schedule secrets interim tag pv g = (Ok tt, g') -> g_state g' = next_state interim tag pv (g_state g).
Proof.
  unfold group_update_key_schedule. intros E. apply sm_bind_Ok in E as (secret & g1 & E1 & E).
  assert (g_state g1 = g_state g) as Hg1 by (destruct secrets as [[t s]|]; by injection E1 as _ <-).
  rewrite sm_get_run in E. apply sm_bind_Ok in E as ([r tag'] & g2 & [= _ <-] & E).
  apply sm_bind_Ok in E as ([] & g3 & [= Et <-] & E). apply guard_or_Ok, bool_decide_eq_true in Et as ->.
  apply sm_bind_Ok in E as ([] & g4 & Ei & E).
  assert (g_state g4 = g_state g1) as Hg4.
  { unfold insert_past_epoch in Ei. rewrite sm_get_run in Ei. unfold zoom_g_repo, sm_zoom in Ei.
    destruct (repo_insert _ _) as [r' s']. by injection Ei as _ <-. }
  rewrite !sm_modify_run in E. unfold zoom_g_state in E. injection E as <-. cbn. by rewrite Hg4, Hg1.
Qed.

Lemma public_next_state interim tag pv s s' :
  public_state s = public_state s' -> public_state (next_state interim tag pv s) = public_state (next_state interim tag pv s').
Proof. intros (own & ->)%public_state_cases. done. Qed.

Lemma public_reinit r s s' : public_state s = public_state s' -> public_state (set_pending_reinit r s) = public_state (set_pending_reinit r s').
Proof. intros (own & ->)%public_state_cases. done. Qed.

(** The effect both report, before the key schedule moves on. *)
Lemma take_effect_follows x g self_removed pv r g' : follows x g ->
  take_commit_effect (mp := group_processor) self_removed pv g = (Ok r, g') ->
  exists e x', take_commit_effect (mp := external_processor) None pv x = (Ok (e, r.2), x') /\
    public_state (xg_state x') = public_state (g_state g') /\ xg_config x' = xg_config x /\
    st_context (g_state g') = st_context (g_state g) /\ (self_removed = None -> public_effect e = public_effect r.1).
Proof.
  intros Hf. unfold take_commit_effect. rewrite !sm_get_run. destruct (last _) as [reinit|].
  - intros [= <- <-]. do 2 eexists. split; [done|]. split; [|done]. apply public_reinit, (fo_state _ _ Hf).
  - intros [= <- <-]. do 2 eexists. split; [done|]. split; [apply (fo_state _ _ Hf)|]. split_and!; [done..|].
    intros ->. cbn. unfold new_epoch_new, public_epoch. cbn. by rewrite (fo_state _ _ Hf).
Qed.

(** A commit that moves the member to the next epoch moves the observer. *)
Lemma process_commit_follows coins coins' content time x g d g' : follows x g ->
  process_commit (mp := group_processor) coins content time g = (Ok d, g') -> st_context (g_state g') <> st_context (g_state g) ->
  exists d' x', process_commit (mp := external_processor) coins' content time x = (Ok d', x') /\
    public_commit d' = public_commit d /\ public_state (xg_state x') = public_state (g_state g') /\ xg_config x' = xg_config x.
Proof.
  intros Hf E Hmoved. unfold process_commit in E |- *. rewrite sm_get_run in E. rewrite sm_get_run.
  apply sm_bind_Ok in E as (c & ? & [= Ec <-] & E). apply (check_commit_follows x) in Ec; [|done].
  rewrite (sm_lift_run _ _ _ _ Ec). cbn [ch_self_removed ch_interim ch_confirmed ch_provisional ch_sender ch_update_path].
  apply sm_bind_Ok in E as ([effect pv] & g1 & Et & E). destruct (take_effect_follows _ _ _ _ _ _ Hf Et) as (e & x1 & Ex & Hx1 & Hc1 & Hctx & He).
  rewrite (sm_bind_run _ _ _ _ _ Ex). cbn [fst snd] in *.
  apply sm_bind_Ok in E as ([secrets pv2] & g2 & Ep & E). apply sm_bind_Ok in E as (pv3 & ? & [= Ef <-] & E).
  destruct (confirmation_tag (ac_auth content)) as [tag|]; [|done]. apply sm_bind_Ok in E as ([] & g3 & Ek & E). injection E as <- <-.
  destruct (ch_self_removed c) as [removed|] eqn:Er.
  { (* the member is removed: it keeps its epoch *)
    exfalso. apply Hmoved. injection Ek as <-. rewrite <- Hctx. f_equal.
    destruct (ch_update_path c); by injection Ep as _ _ <-. }
  cbn [bool_decide] in *.
  assert (g_state g2 = g_state g1 /\ exists pv2', (match ch_update_path c with
      | Some path => default_apply_update_path (M := XGroup) (ch_sender c) path pv
      | None => mret (None, pv)
      end) x1 = (Ok (None, pv2'), x1) /\ finish_context (ch_sender c) (ch_confirmed c) pv2' = Ok pv3) as (Hg2 & pv2' & Ed & Ef').
  { destruct (ch_update_path c) as [path|]; [|injection Ep as <- <- <-; by eauto].
    apply apply_path_follows in Ep as (Hg & t & h & Ea & Hpv). split; [done|]. exists (set_pv_public_tree t pv). split.
    - unfold default_apply_update_path, sm_exec. by rewrite (sm_lift_run _ _ _ t) by (by rewrite Ea).
    - destruct Hpv as [-> | ->]; [done|]. by rewrite <- Ef, <- (finish_context_hash _ _ _ h). }
  exists (mk_commit_description (bool_decide (fc_sender (ac_content content) = NewMemberCommit)) (ch_sender c) e
    (authenticated_data (ac_content content))), (set_xg_state (next_state (ch_interim c) tag pv3 (xg_state x1)) x1).
  split.
  - destruct (ch_update_path c); rewrite (sm_bind_run _ _ _ _ _ Ed); by rewrite (sm_lift_run _ _ _ _ Ef').
  - split; [unfold public_commit; cbn; by rewrite He|]. apply key_schedule_state in Ek. split; [|done].
    rewrite Ek, Hg2. by apply public_next_state.
Qed.

Lemma process_proposal_follows x g content proposal cache d g' : follows x g ->
  process_proposal (mp := group_processor) content proposal cache g = (Ok d, g') ->
  exists x', process_proposal (mp := external_processor) content proposal cache x = (Ok d, x') /\
    public_state (xg_state x') = public_state (g_state g') /\ xg_config x' = xg_config x.
Proof.
  intros Hf. unfold process_proposal. intros E. apply sm_bind_Ok in E as (d' & g1 & [= Ed <-] & E).
  rewrite (sm_lift_run _ _ _ _ Ed). destruct cache.
  - injection E as <- <-. eexists. split; [done|]. split; [|done]. cbn.
    destruct (follows_cases _ _ Hf) as (own & ->). done.
  - injection E as <- <-. eexists. split; [done|]. split; [apply Hf|done].
Qed.

Lemma check_metadata_not_plain (g : Grp) message :
  check_metadata (mp := group_processor) g message = Ok tt ->
  forall gid e, message_metadata message = Some (gid, e, CtApplication) -> exists c, payload message = Cipher c.
Proof.
  intros E gid e Em. destruct (check_metadata_spec g message) as [[_ [_ Ha]]|[_ (? & E' & _)]]; [|congruence].
  by destruct (Ha _ _ _ Em) as (_ & ? & _).
Qed.

(** Any message that is not encrypted. *)
Lemma process_plain_follows coins coins' now now' message p cache time x g r g' : follows x g -> payload message = Plain p ->
  mp_process_incoming_message_with_time (mp := group_processor) coins now message cache time g = (Ok r, g') ->
  (content_type (fc_content (pm_content p)) = CtCommit -> st_context (g_state g') <> st_context (g_state g)) ->
  exists r' x', mp_process_incoming_message_with_time (mp := external_processor) coins' now' message cache time x = (Ok r', x') /\
    member_sees r = Some (observer_sees r') /\ follows x' g' /\ xg_config x' = xg_config x /\ settled g g'.
Proof.
  intros Hf Hp E Hmoved. unfold mp_process_incoming_message_with_time, get_event_from_incoming_message in E |- *.
  apply sm_bind_Ok in E as (ev & g1 & Ev & E). rewrite sm_get_run in Ev. apply sm_bind_Ok in Ev as ([] & g2 & [= Em <-] & Ev).
  rewrite Hp in Ev. injection Ev as Ev <-.
  assert (exists a, ev = EventContent a /\ a = from_public_message p) as (a & -> & Ea).
  { cbn in Ev. apply bind_Ok in Ev as (a & Ea & [= <-]). exists a. split; [done|].
    unfold verify_plaintext_authentication in Ea. by do 3 (apply bind_Ok in Ea as (? & _ & Ea)); injection Ea. }
  pose proof (plain_metadata _ _ _ _ Hf Hp Em) as Ex. pose proof (plain_authentic _ _ _ _ Hf Ev) as Exv.
  match goal with |- context [(?m ≫= _) x] => assert (m x = (Ok (EventContent a), x)) as Hx end.
  { rewrite sm_get_run, (sm_lift_run _ _ _ _ Ex), Hp. unfold sm_lift. by rewrite Exv. }
  setoid_rewrite (sm_bind_run _ _ _ _ _ Hx).
  cbn [process_event_or_content] in E. unfold process_event_or_content.
  assert (settled g g') as Hs by exact (keeps_run _ _ _ _ _ (process_settled coins a cache time) E).
  assert (ecfg_mls_rules (xg_config x) = cfg_mls_rules (g_config g')) as Hrules by (rewrite (proj1 Hs); apply Hf).
  unfold process_auth_content in E |- *. subst a. cbn [from_public_message ac_content ac_auth] in E |- *.
  destruct (fc_content (pm_content p)) as [data|proposal|commit] eqn:Ect.
  - exfalso. assert (exists c, payload message = Cipher c) as [? ?]; [|congruence].
    eapply (check_metadata_not_plain g); [done|]. unfold message_metadata. by rewrite Hp, Ect.
  - apply sm_bind_Ok in E as (d & g2 & E & [= <- <-]).
    destruct (process_proposal_follows _ _ _ _ _ _ _ Hf E) as (x' & Ex' & Hx' & Hc).
    exists (ExtProposal d), x'. rewrite (sm_bind_run _ _ _ _ _ Ex'). split_and!; try done. split; [done|]. by rewrite Hc.
  - apply sm_bind_Ok in E as (d & g2 & E & [= <- <-]).
    destruct (process_commit_follows _ coins' _ _ _ _ _ _ Hf E (Hmoved eq_refl)) as (d' & x' & Ex' & Hd & Hx' & Hc).
    exists (ExtCommit d'), x'. rewrite (sm_bind_run _ _ _ _ _ Ex'). split_and!; try done; [by cbn; rewrite Hd|]. split; [done|]. by rewrite Hc.
Qed.
(** ** Sequences of messages *)

(** A member processes public messages with no commit of its own pending, and
    remains a member: every commit moves it to another epoch. *)
Inductive member_run : Grp -> list (MlsMessage * option Z) -> list ReceivedMessage -> Grp -> Prop :=
| member_stops g : member_run g [] [] g
| member_step g coins now message p time r g1 ms rs g' :
    payload message = Plain p ->
    group_process_incoming_message coins now message time g = (Ok r, g1) ->
    (content_type (fc_content (pm_content p)) = CtCommit -> st_context (g_state g1) <> st_context (g_state g)) ->
    member_run g1 ms rs g' -> member_run g ((message, time) :: ms) (r :: rs) g'.

Inductive observer_run : XGroup -> list (MlsMessage * option Z) -> list ExternalReceivedMessage -> XGroup -> Prop :=
| observer_stops x : observer_run x [] [] x
| observer_step x coins now message time r x1 ms rs x' :
    external_process_incoming_message coins now message time x = (Ok r, x1) ->
    observer_run x1 ms rs x' -> observer_run x ((message, time) :: ms) (r :: rs) x'.

(** Without a pending commit, a member has no other use for a public message. *)
Lemma group_process_plain coins now message p time (g : Grp) : payload message = Plain p -> g_pending_commit g = NoPendingCommit ->
  group_process_incoming_message coins now message time g =
  mp_process_incoming_message_with_time (mp := group_processor) coins now message true time g.
Proof.
  intros Hp Hn. unfold group_process_incoming_message. rewrite sm_get_run, Hn. cbn [commit_hash].
  rewrite (sm_lift_run _ _ _ None) by done. unfold message_wire_format. by rewrite Hp.
Qed.

(** C5: observers.  An observer that has the public state of a member, knows the
    same rules and keeps proposals, processes every sequence of public messages
    the member processes -- without the membership tags, the pre-shared keys, the
    path secrets and the confirmation of the next epoch that the member checks
    with -- and is told the same: it never refuses what a member accepted, and
    its public state stays that of the member. *)
Theorem observer_follows (g g' : Grp) (x : XGroup) (ms : list (MlsMessage * option Z)) (rs : list ReceivedMessage)
    (Hg : member_run g ms rs g') (Hn : g_pending_commit g = NoPendingCommit) (Hx : follows x g)
    (Hc : ecfg_cache_proposals (xg_config x) = true) (coins : Coins) (now : Z) :
  exists xs x', observer_run x ms xs x' /\ member_sees <$> rs = Some ∘ observer_sees <$> xs /\ follows x' g' /\
    xg_config x' = xg_config x.
Proof.
  revert x Hx Hc. induction Hg as [g|g coins1 now1 message p time r g1 ms rs g' Hp E Hmoved Hg IH]; intros x Hx Hc.
  { exists [], x. split; [constructor|done]. }
  rewrite (group_process_plain _ _ _ _ _ _ Hp Hn) in E.
  destruct (process_plain_follows _ coins _ now _ _ _ _ _ _ _ _ Hx Hp E Hmoved) as (r' & x1 & Ex & Hr & Hx1 & Hc1 & [_ Hn1]).
  destruct (IH (Hn1 Hn) x1 Hx1 ltac:(congruence)) as (xs & x' & Hrun & Hrs & Hx' & Hc').
  exists (r' :: xs), x'. split_and!; [|by rewrite !fmap_cons, Hr, Hrs|done|congruence].
  econstructor; [|exact Hrun]. unfold external_process_incoming_message. rewrite sm_get_run, Hc. exact Ex.
Qed.
End following.

(** *** An observer of the group of Alice, Bob and Carol *)

#[local] Existing Instance plain_provider.
#[local] Existing Instance plain_order.
#[local] Existing Instance Toy.provider.

Definition observer_config : ExternalConfig DefaultMlsRules :=
  xb_build_config (mk_external_config external_settings_default toy_rules toy_crypto None).

Definition observer_client : ExternalClient (ExternalConfig DefaultMlsRules) := xb_build observer_config.

Definition no_observer : ExternalGroup (ExternalConfig DefaultMlsRules) := mk_external_group observer_config (g_state no_group) None.

Definition observer_1 : ExternalGroup (ExternalConfig DefaultMlsRules) :=
  value no_observer (snd <$> observe_group observer_client
    (value no_message (group_info_message (cs := Toy.provider) 50%nat alice_1 true)) None None).

(** Bob's commit, and then his proposal to remove Carol. *)
Notation observed_commit := (co_commit_message bob_commit.1).
Definition observed_proposal : MlsMessage := value no_message (propose_remove (cs := Toy.provider) 81%nat 82%nat 2 [] bob_2).1.

Lemma observed_plain : (exists p, payload observed_commit = Plain p) /\ (exists p, payload observed_proposal = Plain p).
Proof. split; vm_compute; by eexists. Qed.

Lemma observer_joined : public_state (xg_state observer_1) = public_state (g_state alice_1).
Proof. vm_compute. reflexivity. Qed.

Definition nothing_seen : ReceivedMessage := ReceivedWelcome.

Lemma run_value {E A T} (d : A) (r : res E A * T) : is_ok r.1 = true -> r = (Ok (value d r.1), r.2).
Proof. by destruct r as [[] ?]. Qed.

Lemma alice_received : is_ok (receive observed_commit alice_1).1 && is_ok (receive observed_proposal alice_2).1 = true /\
  epoch (st_context (g_state alice_2)) <> epoch (st_context (g_state alice_1)).
Proof. vm_compute. done. Qed.

Lemma observer_follows_witness :
  exists rs xs x',
    member_run alice_1 [(observed_commit, None); (observed_proposal, None)] rs (receive observed_proposal alice_2).2 /\
    observer_run observer_1 [(observed_commit, None); (observed_proposal, None)] xs x' /\
    member_sees <$> rs = Some ∘ observer_sees <$> xs /\ length xs = 2%nat /\
    public_state (xg_state x') = public_state (g_state (receive observed_proposal alice_2).2).
Proof.
  destruct alice_received as [[H1 H2]%andb_prop He]. destruct observed_plain as [[p1 Hp1] [p2 Hp2]].
  apply (run_value nothing_seen) in H1, H2.
  assert (member_run alice_1 [(observed_commit, None); (observed_proposal, None)] [value nothing_seen (receive observed_commit alice_1).1;
     value nothing_seen (receive observed_proposal alice_2).1] (receive observed_proposal alice_2).2) as Hrun.
  { eapply (member_step (cs := Toy.provider) _ 0%nat 100 _ p1 _ _ alice_2); [exact Hp1| | |].
    - exact H1.
    - intros _ Hc. apply He. by rewrite Hc.
    - eapply (member_step (cs := Toy.provider) _ 0%nat 100 _ p2 _ _ (receive observed_proposal alice_2).2); [exact Hp2| | |constructor].
      + exact H2.
      + vm_compute in Hp2. injection Hp2 as <-. intros Hct. vm_compute in Hct. discriminate Hct. }
  destruct (observer_follows (cs := Toy.provider) _ _ observer_1 _ _ Hrun) with (coins := 0%nat) (now := 100) as (xs & x' & Hx & Hs & [Hf _] & _).
  - vm_compute. reflexivity.
  - split; [exact observer_joined|reflexivity].
  - reflexivity.
  - eexists _, xs, x'. split_and!; [exact Hrun|exact Hx|exact Hs| |exact Hf].
    apply (f_equal length) in Hs. rewrite !length_fmap in Hs. by rewrite <- Hs.
Defined.

(** ** Proposals and groups that are stored *)

Definition mp_cached_proposal_wf (p : MpCachedProposal) : Prop :=
  proposal_wf (mcp_proposal p) /\ bytes_ok (mcp_proposal_ref p) /\ sender_wf (mcp_sender p).

#[export] Instance mp_cached_proposal_codec_ok : CodecOk (mp_cached_proposal_codec_with unchecked_codec) mp_cached_proposal_wf.
Proof. struct_ok. Qed.

Lemma mp_cached_agree : codec_agree (fun p => sendable (mcp_proposal p)) (mp_cached_proposal_codec_with proposal_codec)
  (mp_cached_proposal_codec_with unchecked_codec).
Proof. eapply agree_weaken; [|apply agree_struct, agree_pair; [apply proposal_codec_agree|same]]. by intros x Hx. Qed.

Definition raw_sendable (r : RawGroupState) : Prop :=
  map_Forall (fun _ => cached_sendable) (rw_proposals r) /\ map_Forall (fun _ => description_sendable) (rw_own_proposals r).

Section storing.
Context `{MapOrder, !MapOrderLaws}.

Definition external_snapshot_wf (s : ExternalSnapshot) : Prop := is_u16 (xsn_version s) /\ raw_state_wf (xsn_state s).

#[export] Instance external_snapshot_codec_ok : CodecOk (external_snapshot_codec_with unchecked_codec) external_snapshot_wf.
Proof. struct_ok. Qed.

Lemma external_snapshot_agree : codec_agree (fun s => raw_sendable (xsn_state s)) external_snapshot_codec
  (external_snapshot_codec_with unchecked_codec).
Proof using Type*.
  eapply agree_weaken; [|apply agree_struct, agree_pair; [same|apply raw_state_agree]]. by intros x Hx.
Qed.

Lemma external_bytes_load s b : external_snapshot_wf s -> raw_sendable (xsn_state s) -> external_to_bytes s = Ok b ->
  external_from_bytes b = Ok s.
Proof using Type*.
  unfold external_to_bytes, external_from_bytes, from_codec. intros Hw Hs E. apply map_err_Ok in E.
  apply (agree_roundtrip _ external_snapshot_wf _ _ s b external_snapshot_agree Hw Hs) in E as [E _]. by rewrite E.
Qed.
End storing.

Section observers.
Context {idp : IdentityProvider} {X R : Type} `{!ExternalClientConfig X R, MapOrder, !MapOrderLaws}.
Notation XGroup := (ExternalGroup X).

Lemma cached_bytes_load p b : mp_cached_proposal_wf p -> sendable (mcp_proposal p) -> cached_proposal_to_bytes p = Ok b ->
  cached_proposal_from_bytes b = Ok p.
Proof using Type.
  unfold cached_proposal_to_bytes, cached_proposal_from_bytes, from_codec. intros Hw Hs E. apply map_err_Ok in E.
  apply (agree_roundtrip _ mp_cached_proposal_wf _ _ p b mp_cached_agree Hw Hs) in E as [E _]. by rewrite E.
Qed.

(** The ways an observer caches a proposal agree.  A proposal that is
    processed without being cached, turned into bytes, read back and inserted by
    the application leaves the observer as if it had been cached at once; and so
    does inserting it from the public message itself. *)
Theorem kept_proposals_restored {cs : CipherSuiteProvider} `{!MlsRules R} (x x' : XGroup) (message : MlsMessage)
    (p : PublicMessage) (proposal : Proposal) (d : ProposalMessageDescription) (b : bytes)
    (Hm : payload message = Plain p) (Hp : fc_content (pm_content p) = ContentProposal proposal)
    (Hw : mp_cached_proposal_wf (cached_proposal d)) (Hs : sendable proposal)
    (Hx : process_proposal (mp := external_processor) (from_public_message p) proposal true x = (Ok d, x'))
    (Hb : cached_proposal_to_bytes (cached_proposal d) = Ok b) :
  process_proposal (mp := external_processor) (from_public_message p) proposal false x = (Ok d, x) /\
  (exists c, cached_proposal_from_bytes b = Ok c /\ insert_proposal c x = (Ok tt, x')) /\
  insert_proposal_from_message message x = (Ok tt, x').
Proof using Type*.
  unfold process_proposal in *. apply sm_bind_Ok in Hx as (d' & x1 & [= Ed <-] & E). injection E as <- <-.
  rewrite (sm_lift_run _ _ _ _ Ed). unfold proposal_description_new in Ed.
  apply bind_Ok in Ed as (s & Es & Ed). apply bind_Ok in Ed as (r & Er & [= <-]).
  cbn [from_public_message ac_content ac_auth pd_proposal_ref pd_proposal] in *.
  split_and!; [done| |].
  - eexists. split; [by apply cached_bytes_load|]. unfold insert_proposal, external_cache_insert.
    assert (mcp_sender (cached_proposal (mk_proposal_description s proposal (authenticated_data (pm_content p)) r)) =
      fc_sender (pm_content p)) as Hsd by (unfold proposal_sender_try_from in Es; by destruct (fc_sender (pm_content p)); simplify_eq).
    by rewrite Hsd.
  - unfold insert_proposal_from_message. rewrite Hm. cbn. rewrite (sm_lift_run _ _ _ p) by done.
    unfold from_public_message. rewrite (sm_lift_run _ _ _ r) by done. cbn [ac_content]. rewrite Hp.
    by rewrite (sm_lift_run _ _ _ proposal).
Qed.

(** C12: an observer that is stored and loaded again, by a client whose crypto
    provider has the suite of the group, has the state it had; so has one that
    is stored without its tree and loaded with the tree it exported. *)
Theorem stored_observer_loads (x : XGroup) (cl : ExternalClient X) (s : Suite) (b b' tree : bytes)
    (Hw : raw_state_wf (raw_state_export (xg_state x))) (Hs : raw_sendable (raw_state_export (xg_state x)))
    (Hv : pc_protocol_version (st_proposals (xg_state x)) = protocol_version (st_context (xg_state x)))
    (Hg : pc_group_id (st_proposals (xg_state x)) = group_id (st_context (xg_state x)))
    (Hi : is_initialized (index (st_public_tree (xg_state x))) = true)
    (Hc : crypto_suite (ecfg_crypto_provider (xcl_config cl)) (gc_cipher_suite (st_context (xg_state x))) = Some s)
    (Hb : external_to_bytes (external_snapshot x) = Ok b)
    (Hb' : external_to_bytes (external_snapshot_without_ratchet_tree x) = Ok b')
    (Ht : external_export_tree x = Ok tree) :
  let loaded := Ok (s, mk_external_group (xcl_config cl) (xg_state x) (xcl_signing_data cl)) in
  (sn ← external_from_bytes b; external_load_group cl sn) = loaded /\
  (sn ← external_from_bytes b';
   v ← fst <$> from_codec (mls_decode node_vec_codec tree);
   external_load_group_with_ratchet_tree cl sn v) = loaded.
Proof using Type*.
  assert (external_load_group cl (external_snapshot x) = Ok (s, mk_external_group (xcl_config cl) (xg_state x) (xcl_signing_data cl))) as Hl.
  { unfold external_load_group, cipher_suite_provider. cbn [external_snapshot xsn_state raw_state_export rw_context].
    rewrite Hc. cbn [ok_or mbind res_bind]. unfold raw_state_import, initialize_index_if_necessary, sm_exec.
    rewrite sm_get_run. cbn [rw_public_tree raw_state_export]. rewrite Hi. cbn. do 3 f_equal.
    destruct (xg_state x) as [[v gid ps own] c t h r tag]. cbn in *. by subst. }
  assert (is_u16 1) as H1 by (by unfold is_u16, in_uint; lia).
  assert (external_snapshot_wf (external_snapshot_without_ratchet_tree x)) as Hw'.
  { destruct Hw as (W1 & W2 & W3 & (W4 & _ & W5) & W6). split; [done|]. do 3 (split; [done|]). split; [|done]. split; [done|]. by split. }
  split.
  - by rewrite (external_bytes_load (external_snapshot x) b (conj H1 Hw) Hs Hb).
  - rewrite (external_bytes_load (external_snapshot_without_ratchet_tree x) b' Hw' Hs Hb'). cbn [mbind res_bind].
    unfold external_export_tree, from_codec in *. apply map_err_Ok in Ht.
    pose proof (enc_spec (c := node_vec_codec) (nodes (st_public_tree (xg_state x))) ltac:(apply Hw)) as Hn.
    unfold enc_good in Hn. unfold mls_encode_to_vec in Ht. rewrite Ht in Hn. destruct Hn as (_ & _ & Hd).
    specialize (Hd [] (Forall_nil_2 _)). rewrite app_nil_r in Hd. rewrite Hd. cbn [map_err fmap res_fmap fst mbind res_bind].
    unfold external_load_group_with_ratchet_tree. etrans; [|exact Hl]. f_equal.
    unfold external_without_tree, external_snapshot_without_ratchet_tree, external_snapshot, raw_state_export. cbn.
    by destruct (st_public_tree (xg_state x)).
Qed.
End observers.

Section observer_at_work.
#[local] Existing Instance plain_provider.
#[local] Existing Instance plain_order.
#[local] Existing Instance Toy.provider.

Definition observer_bytes : bytes := value [] (external_to_bytes (external_snapshot observer_1)).
Definition observer_bytes_no_tree : bytes := value [] (external_to_bytes (external_snapshot_without_ratchet_tree observer_1)).
Definition observer_tree : bytes := value [] (external_export_tree observer_1).

Lemma observer_wf : raw_state_wf (raw_state_export (xg_state observer_1)).
Proof.
  apply (decoded_wf (raw_state_codec_with unchecked_codec) _
    (value [] (mls_encode_to_vec (raw_state_codec_with unchecked_codec) (raw_state_export (xg_state observer_1)))));
    vm_compute; reflexivity.
Qed.

Lemma stored_observer_loads_witness :
  observer_bytes <> observer_bytes_no_tree /\
  (sn ← external_from_bytes observer_bytes; external_load_group observer_client sn) =
    Ok (toy_suite, mk_external_group (xcl_config observer_client) (xg_state observer_1) None).
Proof.
  split; [vm_compute; discriminate|].
  refine (proj1 (stored_observer_loads observer_1 observer_client toy_suite observer_bytes observer_bytes_no_tree observer_tree
    observer_wf _ _ _ _ _ _ _ _)).
  - destruct observer_wf as (_ & Hp & Ho & _). split; [apply cached_decides|apply own_decides]; first [exact Hp|exact Ho|vm_compute; reflexivity].
  - vm_compute. reflexivity.
  - vm_compute. reflexivity.
  - vm_compute. reflexivity.
  - assert (gc_cipher_suite (st_context (xg_state observer_1)) = 1) as -> by (vm_compute; reflexivity). reflexivity.
  - vm_compute. reflexivity.
  - vm_compute. reflexivity.
  - vm_compute. reflexivity.
Defined.

(** Bob's proposal, received by an observer of the second epoch. *)
Definition observer_2 : ExternalGroup (ExternalConfig DefaultMlsRules) :=
  value no_observer (snd <$> observe_group observer_client
    (value no_message (group_info_message (cs := Toy.provider) 50%nat alice_2 true)) None None).

Definition no_public : PublicMessage := mk_public_message (mk_framed_content [] 0 (SenderMember 0) [] (ContentApplication [])) (mk_auth_data [] None) None.
Definition proposal_plain : PublicMessage := match payload observed_proposal with Plain p => p | _ => no_public end.

Notation proposal_seen := (process_proposal (mp := external_processor (cs := Toy.provider)) (from_public_message proposal_plain)
  (PRemove (mk_remove 2)) true observer_2).

Definition no_description : ProposalMessageDescription := mk_proposal_description ProposerNewMember (PRemove (mk_remove 0)) [] [].
Notation description_seen := (value no_description proposal_seen.1).

Lemma kept_proposals_restored_witness :
  exists c, cached_proposal_from_bytes (value [] (cached_proposal_to_bytes (cached_proposal description_seen))) = Ok c /\
    insert_proposal c observer_2 = (Ok tt, proposal_seen.2) /\
    insert_proposal_from_message (cs := Toy.provider) observed_proposal observer_2 = (Ok tt, proposal_seen.2).
Proof.
  assert (is_ok proposal_seen.1 = true) as Ho by (vm_compute; reflexivity).
  assert (mp_cached_proposal_wf (cached_proposal description_seen)) as Hw.
  { apply (decoded_wf (mp_cached_proposal_codec_with unchecked_codec) _
      (value [] (mls_encode_to_vec (mp_cached_proposal_codec_with unchecked_codec) (cached_proposal description_seen))));
      vm_compute; reflexivity. }
  destruct (kept_proposals_restored (cs := Toy.provider) observer_2 proposal_seen.2 observed_proposal proposal_plain
    (PRemove (mk_remove 2)) description_seen (value [] (cached_proposal_to_bytes (cached_proposal description_seen))))
    as (_ & (c & Hc & Hi) & Hm).
  - vm_compute. reflexivity.
  - vm_compute. reflexivity.
  - exact Hw.
  - split; [|reflexivity]. assert (mcp_proposal (cached_proposal description_seen) = PRemove (mk_remove 2)) as <-
      by (vm_compute; reflexivity). exact (proj1 Hw).
  - exact (run_value no_description proposal_seen Ho).
  - apply value_ok. vm_compute. reflexivity.
  - exists c. exact (conj Hc (conj Hi Hm)).
Defined.
End observer_at_work.
