(* ===== verification/Builder.v ===== *)
(** * Builders

    How an application puts a client or an external commit together: the builder
    of clients (mls-rs/src/client_builder.rs) and the setters of the builder of
    external commits (mls-rs/src/group/external_commit.rs).

    A component that has not been chosen yet is [Missing]; a client can be built
    only once all are there.  The identity provider is the class instance in
    scope and has no setter. *)

From S2P Require Import Prelude Codec Crypto TreeMath SecretTree Data NodeVec TreeIndex TreeHash ParentHash TreeInv Proposals TreeKem TreePath LeafNodes Kem Framing KeySchedule MessageProtection EpochStore Filtering GroupState Processor Group Commit Client Scenario.

#[local] Set Default Goal Selector "!".
Local Open Scope Z_scope.

(** ** The builder of clients *)

Inductive Missing := missing.

(** The configuration of client_builder.rs before a client is built, with the
    signer and the identity that the client takes out of it. *)
Record ClientBuilder (K P S R Cp : Type) := mk_client_builder {
  cb_settings : Settings;
  cb_key_package_repo : K;
  cb_psk_store : P;
  cb_group_state_storage : S;
  cb_mls_rules : R;
  cb_crypto_provider : Cp;
  cb_signer : option SignatureSecretKey;
  cb_signing_identity : option (SigningIdentity * Z);
  cb_version : Z;
}.
Arguments mk_client_builder {_ _ _ _ _} _ _ _ _ _ _ _ _ _.
Arguments cb_settings {_ _ _ _ _} _.
Arguments cb_key_package_repo {_ _ _ _ _} _.
Arguments cb_psk_store {_ _ _ _ _} _.
Arguments cb_group_state_storage {_ _ _ _ _} _.
Arguments cb_mls_rules {_ _ _ _ _} _.
Arguments cb_crypto_provider {_ _ _ _ _} _.
Arguments cb_signer {_ _ _ _ _} _.
Arguments cb_signing_identity {_ _ _ _ _} _.
Arguments cb_version {_ _ _ _ _} _.

Notation BaseBuilder := (ClientBuilder (gmap bytes KeyPackageData) (gmap bytes PreSharedKey) InMemoryGroupStateStorage
  DefaultMlsRules Missing).
Notation EmptyBuilder := (ClientBuilder Missing Missing Missing Missing Missing).

Definition default_rules_new : DefaultMlsRules := mk_default_rules commit_options_default encryption_options_default.

Definition builder_new : BaseBuilder :=
  mk_client_builder settings_default ∅ ∅ memory_storage_new default_rules_new missing None None 1.

Definition builder_new_empty : EmptyBuilder :=
  mk_client_builder settings_default missing missing missing missing missing None None 1.

Section setters.
Context {K P S R Cp : Type}.
Notation Builder := (ClientBuilder K P S R Cp).

Definition map_settings (f : Settings -> Settings) (b : Builder) : Builder :=
  mk_client_builder (f (cb_settings b)) (cb_key_package_repo b) (cb_psk_store b) (cb_group_state_storage b) (cb_mls_rules b)
    (cb_crypto_provider b) (cb_signer b) (cb_signing_identity b) (cb_version b).

Definition with_extension_types (types : list Z) : Builder -> Builder :=
  map_settings (fun s => mk_settings (settings_extension_types s ++ types) (settings_protocol_versions s)
    (settings_custom_proposal_types s) (settings_validity s)).
Definition with_extension_type (type_ : Z) : Builder -> Builder := with_extension_types [type_].

Definition with_custom_proposal_types (types : list Z) : Builder -> Builder :=
  map_settings (fun s => mk_settings (settings_extension_types s) (settings_protocol_versions s)
    (settings_custom_proposal_types s ++ types) (settings_validity s)).
Definition with_custom_proposal_type (type_ : Z) : Builder -> Builder := with_custom_proposal_types [type_].

Definition with_protocol_versions (versions : list Z) : Builder -> Builder :=
  map_settings (fun s => mk_settings (settings_extension_types s) (settings_protocol_versions s ++ versions)
    (settings_custom_proposal_types s) (settings_validity s)).
Definition with_protocol_version (version : Z) : Builder -> Builder := with_protocol_versions [version].

(** In seconds. *)
Definition with_key_package_lifetime (lifetime : Z) : Builder -> Builder :=
  map_settings (fun s => mk_settings (settings_extension_types s) (settings_protocol_versions s)
    (settings_custom_proposal_types s) lifetime).

Definition with_key_package_repo {K'} (k : K') (b : Builder) : ClientBuilder K' P S R Cp :=
  mk_client_builder (cb_settings b) k (cb_psk_store b) (cb_group_state_storage b) (cb_mls_rules b) (cb_crypto_provider b)
    (cb_signer b) (cb_signing_identity b) (cb_version b).

Definition with_psk_store {P'} (p : P') (b : Builder) : ClientBuilder K P' S R Cp :=
  mk_client_builder (cb_settings b) (cb_key_package_repo b) p (cb_group_state_storage b) (cb_mls_rules b)
    (cb_crypto_provider b) (cb_signer b) (cb_signing_identity b) (cb_version b).

Definition with_group_state_storage {S'} (s : S') (b : Builder) : ClientBuilder K P S' R Cp :=
  mk_client_builder (cb_settings b) (cb_key_package_repo b) (cb_psk_store b) s (cb_mls_rules b) (cb_crypto_provider b)
    (cb_signer b) (cb_signing_identity b) (cb_version b).

Definition with_crypto_provider {Cp'} (c : Cp') (b : Builder) : ClientBuilder K P S R Cp' :=
  mk_client_builder (cb_settings b) (cb_key_package_repo b) (cb_psk_store b) (cb_group_state_storage b) (cb_mls_rules b) c
    (cb_signer b) (cb_signing_identity b) (cb_version b).

Definition with_mls_rules {R'} (r : R') (b : Builder) : ClientBuilder K P S R' Cp :=
  mk_client_builder (cb_settings b) (cb_key_package_repo b) (cb_psk_store b) (cb_group_state_storage b) r
    (cb_crypto_provider b) (cb_signer b) (cb_signing_identity b) (cb_version b).

Definition with_used_protocol_version (version : Z) (b : Builder) : Builder :=
  mk_client_builder (cb_settings b) (cb_key_package_repo b) (cb_psk_store b) (cb_group_state_storage b) (cb_mls_rules b)
    (cb_crypto_provider b) (cb_signer b) (cb_signing_identity b) version.

Definition with_signing_identity (signing_identity : SigningIdentity) (signer : SignatureSecretKey) (suite : Z) (b : Builder) :
    Builder :=
  mk_client_builder (cb_settings b) (cb_key_package_repo b) (cb_psk_store b) (cb_group_state_storage b) (cb_mls_rules b)
    (cb_crypto_provider b) (Some signer) (Some (signing_identity, suite)) (cb_version b).

Definition with_signer (signer : SignatureSecretKey) (b : Builder) : Builder :=
  mk_client_builder (cb_settings b) (cb_key_package_repo b) (cb_psk_store b) (cb_group_state_storage b) (cb_mls_rules b)
    (cb_crypto_provider b) (Some signer) (cb_signing_identity b) (cb_version b).

(** [ProtocolVersion::all]. *)
Definition all_protocol_versions : list Z := [1].

Definition build_config (b : Builder) : Builder :=
  if bool_decide (settings_protocol_versions (cb_settings b) = []) then
    map_settings (fun s => mk_settings (settings_extension_types s) all_protocol_versions (settings_custom_proposal_types s)
      (settings_validity s)) b
  else b.
End setters.

(** [ClientBuilder::psk], with the storage in memory. *)
Definition with_psk {K S R Cp} (id : bytes) (psk : PreSharedKey) (b : ClientBuilder K (gmap bytes PreSharedKey) S R Cp) :
    ClientBuilder K (gmap bytes PreSharedKey) S R Cp :=
  with_psk_store (<[id := psk]> (cb_psk_store b)) b.

Definition builder_config {K P S R} (b : ClientBuilder K P S R CryptoProvider) : ConfigInner K P S R :=
  mk_config (cb_settings b) (cb_key_package_repo b) (cb_psk_store b) (cb_group_state_storage b) (cb_mls_rules b)
    (cb_crypto_provider b).

Definition build_client {K P S R} (b : ClientBuilder K P S R CryptoProvider) : Client (ConfigInner K P S R) :=
  let b := build_config b in
  mk_client (builder_config b) (cb_signing_identity b) (cb_signer b) (cb_version b).

(** *** Builders of clients that exist *)

Section recreate.
Context {C K P S R : Type} {cc : ClientConfig C K P S R}.

(** The lifetime is the difference of two times, which wraps around. *)
Definition recreate_config (now : Z) (c : C) (signer : option SignatureSecretKey)
    (signing_identity : option (SigningIdentity * Z)) (version : Z) (timestamp : option Z) :
    ClientBuilder K P S R CryptoProvider :=
  let l := config_lifetime c now timestamp in
  mk_client_builder
    (mk_settings (supported_extensions c) (supported_protocol_versions c) (supported_custom_proposals c)
      (wrap 64 (not_after l - not_before l)))
    (cfg_key_package_repo c) (secret_store c) (group_state_storage c) (cfg_mls_rules c) (crypto_provider c) signer
    signing_identity version.

Definition to_builder (now : Z) (c : Client C) (timestamp : option Z) : ClientBuilder K P S R CryptoProvider :=
  recreate_config now (cl_config c) (cl_signer c) (cl_signing_identity c) (cl_version c) timestamp.
End recreate.

(** ** The builder of external commits *)

Section external_setters.
Context {C : Type}.
Notation Builder := (ExternalCommitBuilder C).

Definition with_tree_data (tree_data : NodeVec) (b : Builder) : Builder :=
  mk_external_builder (ecb_signer b) (ecb_signing_identity b) (ecb_leaf_node_extensions b) (ecb_config b) (Some tree_data)
    (ecb_to_remove b) (ecb_external_psks b) (ecb_authenticated_data b) (ecb_custom_proposals b)
    (ecb_received_custom_proposals b) (ecb_commit_time b).
Definition with_removal (to_remove : Z) (b : Builder) : Builder :=
  mk_external_builder (ecb_signer b) (ecb_signing_identity b) (ecb_leaf_node_extensions b) (ecb_config b) (ecb_tree_data b)
    (Some to_remove) (ecb_external_psks b) (ecb_authenticated_data b) (ecb_custom_proposals b)
    (ecb_received_custom_proposals b) (ecb_commit_time b).
Definition with_authenticated_data (data : bytes) (b : Builder) : Builder :=
  mk_external_builder (ecb_signer b) (ecb_signing_identity b) (ecb_leaf_node_extensions b) (ecb_config b) (ecb_tree_data b)
    (ecb_to_remove b) (ecb_external_psks b) data (ecb_custom_proposals b) (ecb_received_custom_proposals b)
    (ecb_commit_time b).
Definition with_external_psk (psk : bytes) (b : Builder) : Builder :=
  mk_external_builder (ecb_signer b) (ecb_signing_identity b) (ecb_leaf_node_extensions b) (ecb_config b) (ecb_tree_data b)
    (ecb_to_remove b) (ecb_external_psks b ++ [psk]) (ecb_authenticated_data b) (ecb_custom_proposals b)
    (ecb_received_custom_proposals b) (ecb_commit_time b).
Definition with_custom_proposal (proposal : CustomProposal) (b : Builder) : Builder :=
  mk_external_builder (ecb_signer b) (ecb_signing_identity b) (ecb_leaf_node_extensions b) (ecb_config b) (ecb_tree_data b)
    (ecb_to_remove b) (ecb_external_psks b) (ecb_authenticated_data b) (ecb_custom_proposals b ++ [PCustom proposal])
    (ecb_received_custom_proposals b) (ecb_commit_time b).
Definition with_received_custom_proposal (proposal : MlsMessage) (b : Builder) : Builder :=
  mk_external_builder (ecb_signer b) (ecb_signing_identity b) (ecb_leaf_node_extensions b) (ecb_config b) (ecb_tree_data b)
    (ecb_to_remove b) (ecb_external_psks b) (ecb_authenticated_data b) (ecb_custom_proposals b)
    (ecb_received_custom_proposals b ++ [proposal]) (ecb_commit_time b).
Definition with_leaf_node_extensions (extensions : ExtensionList) (b : Builder) : Builder :=
  mk_external_builder (ecb_signer b) (ecb_signing_identity b) extensions (ecb_config b) (ecb_tree_data b) (ecb_to_remove b)
    (ecb_external_psks b) (ecb_authenticated_data b) (ecb_custom_proposals b) (ecb_received_custom_proposals b)
    (ecb_commit_time b).
Definition with_commit_time (commit_time : Z) (b : Builder) : Builder :=
  mk_external_builder (ecb_signer b) (ecb_signing_identity b) (ecb_leaf_node_extensions b) (ecb_config b) (ecb_tree_data b)
    (ecb_to_remove b) (ecb_external_psks b) (ecb_authenticated_data b) (ecb_custom_proposals b)
    (ecb_received_custom_proposals b) (Some commit_time).
End external_setters.

(** ** The builder at work *)

(** A client and the builder made from it build the same client, when its
    lifetimes do not overflow. *)
Lemma rebuilt_client {K P S R} (now : Z) (c : Client (ConfigInner K P S R)) :
  settings_protocol_versions (ci_settings (cl_config c)) <> [] -> is_u64 now ->
  is_u64 (settings_validity (ci_settings (cl_config c))) -> build_client (to_builder now c None) = c.
Proof.
  intros Hv Hn Hl. unfold build_client, build_config. cbn [to_builder recreate_config cb_settings settings_protocol_versions supported_protocol_versions config_inner_client_config].
  rewrite bool_decide_false by done. unfold builder_config. cbn. destruct c as [[[e v p t] k ps s r cp] id sg ver]. cbn in *.
  do 3 f_equal. unfold is_u64, in_uint, wrap in *. rewrite Zminus_mod_idemp_l. rewrite Z.mod_small; lia.
Qed.

(** The clients of the scenario. *)
Example toy_client_built n :
  build_client (with_signing_identity (mk_signing_identity [n] (Basic [n])) [n] 1 (with_crypto_provider toy_crypto
    (with_key_package_lifetime 1000 builder_new))) = toy_client n.
Proof. reflexivity. Qed.
