(* ===== verification/PathAgreement.v ===== *)
(** * Agreement on the path of a commit

    Every member that processes the path a member generated ([encap] of
    mls-rs/src/tree_kem/kem.rs) ends with the sender's tree and the sender's
    commit secret ([apply_update_path] of mls-rs/src/tree_kem/mod.rs and
    [decap] of kem.rs), and its private keys belong to the new tree.  The file
    first compares two trees with the same path, then describes the sender's
    run, the receivers' tree and the receivers' secrets. *)

From S2P Require Import Prelude Codec Crypto TreeMath Data NodeVec TreeIndex TreeHash ParentHash TreeInv Proposals TreeKem TreePath LeafNodes Kem.

#[local] Set Default Goal Selector "!".
Local Open Scope Z_scope.

(** ** Two trees with the same path *)

(** The links of a path determine its parent hashes. *)
Lemma linked_unique `{CipherSuiteProvider} v v' hs hs' cps : forall h h',
  (forall cp, cp ∈ cps ->
     (forall s s', zget hs (copath cp) = Some s -> zget hs' (copath cp) = Some s' -> s' = s) /\
     forall p p', parent_at v (path cp) = Some p -> parent_at v' (path cp) = Some p' ->
       parent_public_key p' = parent_public_key p /\ unmerged_leaves p' = unmerged_leaves p) ->
  linked v hs h cps -> linked v' hs' h' cps ->
  h' = h /\ forall cp, cp ∈ cps -> exists p, parent_at v (path cp) = Some p /\ parent_at v' (path cp) = Some p.
Proof.
  induction cps as [|cp cps IH]; intros h h' Heq Hl Hl'.
  { cbn in Hl, Hl'. subst. split; [done|]. by intros ? ?%elem_of_nil. }
  destruct Hl as (p & s & Hp & Hs & Hn & Hl), Hl' as (p' & s' & Hp' & Hs' & Hn' & Hl').
  destruct (IH (parent_hash p) (parent_hash p')) as [E Hall]; [intros; apply Heq; by right|done|done|].
  destruct (Heq cp ltac:(by left)) as [Hss Hpp]. destruct (Hpp p p' Hp Hp') as [Ek Eu].
  assert (p' = p) as -> by (destruct p, p'; cbn in *; by subst).
  rewrite (Hss s s' Hs Hs'), Hn in Hn'. injection Hn' as ->. split; [done|].
  intros cp' [->|Hin]%elem_of_cons; [by exists p|by apply Hall].
Qed.

(** The child of [above i (S k)] on the other side of the path. *)
Lemma sibling_child i (k : nat) : 0 <= i -> exists b, (b = 0 \/ b = 1) /\
  Z.lxor (Z.shiftr i (Z.of_nat k)) 1 = 2 * Z.shiftr i (Z.of_nat (S k)) + b.
Proof.
  intros Hi. pose proof (shiftr_child i k Hi) as Hc. set (q := Z.shiftr i (Z.of_nat (S k))) in *.
  assert (0 <= q) by (apply Z.shiftr_nonneg; lia).
  destruct Hc as [-> | ->]; rewrite shiftr1_lxor, Z.shiftr_div_pow2 by lia; change (2 ^ 1) with 2;
    rewrite Z.bit0_odd, ?Z.odd_add, odd_double; cbn -[Z.mul Z.div]; [exists 1|exists 0]; split; try lia; divlia.
Qed.

Lemma live_sub v cps cp : cp ∈ live v cps -> cp ∈ cps.
Proof. unfold live. by intros [?%list_elem_of_In _]%list_elem_of_In%filter_In. Qed.

Lemma nodes_ext (v v' : NodeVec) : zlen v = zlen v' -> (forall x, nd v x = nd v' x) -> v = v'.
Proof.
  intros Hz Hn. apply list_eq_same_length with (length v); [unfold zlen in Hz; lia|done|].
  intros n x y _ Hx Hy. specialize (Hn (Z.of_nat n)). unfold nd in Hn. rewrite !zget_nat, Hx, Hy in Hn. done.
Qed.

Section agree.
Context `{CipherSuiteProvider, !HashLaws} (t t' t2 t2' : TreeKemPublic) (i : Z) (h h' : ParentHash).
Context (Hv : vec_inv [] (nodes t)) (Hv' : vec_inv [] (nodes t'))
  (Hl : is_Some (leaf_at (nodes t) i)) (Hl' : is_Some (leaf_at (nodes t') i))
  (Hz : zlen (nodes t') = zlen (nodes t)) (Hsame : forall x, x <> 2 * i -> nd (nodes t') x = nd (nodes t) x)
  (Hc : committed i t h t2) (Hc' : committed i t' h' t2').

Lemma agree_copath : vec_direct_copath (nodes t') i = vec_direct_copath (nodes t) i.
Proof using Hz. unfold vec_direct_copath, total_leaf_count. by rewrite Hz. Qed.

Lemma agree_member j : is_Some (leaf_at (nodes t') j) <-> is_Some (leaf_at (nodes t) j).
Proof using Hl Hl' Hsame.
  destruct (decide (j = i)) as [->|Hne]; [done|]. unfold leaf_at. by rewrite Hsame by lia.
Qed.

Lemma agree_empty (k : nat) j : 0 <= j -> resolution (nodes t') k j = [] <-> resolution (nodes t) k j = [].
Proof using Hv Hv' Hl Hl' Hsame.
  intros Hj. assert (resolution (nodes t') k j <> [] <-> resolution (nodes t) k j <> []) as E.
  { rewrite !resolution_members by done. apply exist_proper. intros l. by rewrite agree_member. }
  destruct (decide (resolution (nodes t') k j = [])), (decide (resolution (nodes t) k j = [])); tauto.
Qed.

Lemma agree_live : live (nodes t') (vec_direct_copath (nodes t') i) = live (nodes t) (vec_direct_copath (nodes t) i).
Proof using Hv Hv' Hl Hl' Hz Hsame.
  rewrite agree_copath. destruct Hl as [l El]. destruct (leaf_range _ _ _ Hv El) as (Hi & Hd & _ & _ & _ & ->).
  unfold live. apply filter_ext_in. intros cp Hin%list_elem_of_In.
  destruct (copath_spec_in_tree _ i Hd Hi cp Hin) as (k & Hk & [_ [Hj _]] & -> & _).
  rewrite !is_resolution_empty_eq by (done || lia).
  by rewrite (bool_decide_ext _ _ (agree_empty k (Z.lxor (Z.shiftr i (Z.of_nat k)) 1) Hj)).
Qed.

(** Blank nodes of the path are those that are not live. *)
Lemma dead_blank cp : cp ∈ vec_direct_copath (nodes t) i -> cp ∉ live (nodes t) (vec_direct_copath (nodes t) i) ->
  nd (nodes t) (path cp) = None.
Proof using Hv Hl.
  destruct Hl as [l El]. destruct (leaf_range _ _ _ Hv El) as (Hi & Hd & _ & _ & _ & E). rewrite E.
  intros Hin Hnot. destruct (copath_spec_in_tree _ i Hd Hi cp Hin) as (k & Hk & [_ [Hj _]] & Ec & Ep).
  destruct (nd (nodes t) (path cp)) as [n|] eqn:En; [exfalso|done]. apply Hnot.
  apply list_elem_of_In, filter_In. split; [by apply list_elem_of_In|]. rewrite Ec, is_resolution_empty_eq by (done || lia).
  rewrite bool_decide_eq_false_2; [done|]. apply resolution_members; [done|done|].
  assert (exists p, n = NodeParent p) as [p ->].
  { apply (vi_parity _ _ Hv) in En. destruct n as [|p]; [|by exists p]. rewrite Ep, odd_node_S in En; [done|].
    apply Z.shiftr_nonneg. lia. }
  destruct (sibling_child i k ltac:(lia)) as (b & Hb & ->). rewrite Ep in En.
  apply (vi_members _ _ Hv k _ p); [apply Z.shiftr_nonneg; lia|unfold parent_at; by rewrite En|by intros ? ?%elem_of_nil|done].
Qed.

Lemma agree_hash cp s s' : cp ∈ vec_direct_copath (nodes t) i ->
  zget (tree_hashes t2) (copath cp) = Some s -> zget (tree_hashes t2') (copath cp) = Some s' -> s' = s.
Proof using Type*.
  destruct Hl as [l El]. destruct (leaf_range _ _ _ Hv El) as (Hi & Hd & _ & _ & _ & E). pose proof agree_copath as Ecp.
  pose proof (fun x => committed_off i t h t2 x Hc) as Hoff. pose proof (fun x => committed_off i t' h' t2' x Hc') as Hoff'.
  destruct Hc as (_ & Hcur & _), Hc' as (_ & Hcur' & _). rewrite Ecp, E in *.
  intros Hin Hs Hs'. destruct (copath_spec_in_tree _ i Hd Hi cp Hin) as (k & Hk & [_ [Hj _]] & Ec & _). rewrite Ec in *.
  destruct (Hcur k _ Hj (proj2 (zget_Some_bound _ _ _ Hs))) as (x & Hx & Hzx).
  destruct (Hcur' k _ Hj (proj2 (zget_Some_bound _ _ _ Hs'))) as (y & Hy & Hzy).
  rewrite (copath_hash_ext i (nodes t2) (nodes t2')) in Hy; [congruence| |done].
  apply (path_change_same i _ _ (depth (nodes t))); [done|done|]. intros z Hz1 Hz2.
  by rewrite Hoff, Hoff', Hsame.
Qed.

Lemma agree_shape cp p p' : cp ∈ vec_direct_copath (nodes t) i ->
  parent_at (nodes t2) (path cp) = Some p -> parent_at (nodes t2') (path cp) = Some p' ->
  parent_public_key p' = parent_public_key p /\ unmerged_leaves p' = unmerged_leaves p.
Proof using Type*.
  destruct Hl as [l El]. destruct (leaf_range _ _ _ Hv El) as (Hi & Hd & _ & _ & _ & E).
  destruct Hc as (_ & _ & _ & _ & Hsh & _), Hc' as (_ & _ & _ & _ & Hsh' & _).
  intros Hin Hp%nd_parent_at Hp'%nd_parent_at. rewrite E in Hin.
  assert (path cp <> 2 * i) as Hne.
  { destruct (copath_spec_in_tree _ i Hd Hi cp Hin) as (k & _ & _ & _ & ->). intros E'.
    assert (Z.odd (2 * i) = true) as Ho by (rewrite <- E'; apply odd_node_S, Z.shiftr_nonneg; lia). by rewrite odd_double in Ho. }
  destruct (Hsh _ Hne) as [E1|(q & hq & _ & E1 & E1')], (Hsh' _ Hne) as [E2|(q' & hq' & _ & E2 & E2')];
    rewrite Hsame in E2 by done; try rewrite Hp in *; try rewrite Hp' in *; naive_solver.
Qed.

(** The parent hashes of the path and of the leaf are the same, and so are all
    nodes but the leaf. *)
Lemma paths_agree : h' = h /\ forall x, x <> 2 * i -> nd (nodes t2') x = nd (nodes t2) x.
Proof using Type*.
  pose proof agree_live as Elive. pose proof agree_copath as Ecp.
  pose proof (fun x => committed_off i t h t2 x Hc) as Hoff. pose proof (fun x => committed_off i t' h' t2' x Hc') as Hoff'.
  pose proof Hc as (Hlk & _ & _ & _ & Hsh & _). pose proof Hc' as (Hlk' & _ & _ & _ & Hsh' & _).
  rewrite Elive in Hlk'. edestruct linked_unique as [Eh Hall]; [|exact Hlk|exact Hlk'|].
  { intros cp Hin%live_sub. split; intros ? ?; [by apply agree_hash|by apply agree_shape]. }
  split; [done|]. intros x Hx.
  destruct (decide (x ∈ path <$> vec_direct_copath (nodes t) i)) as [Hin|Hnot].
  - apply list_elem_of_fmap in Hin as (cp & -> & Hin).
    destruct (decide (cp ∈ live (nodes t) (vec_direct_copath (nodes t) i))) as [Hlv|Hdead].
    + destruct (Hall cp Hlv) as (p & Hp & Hp'). apply nd_parent_at in Hp, Hp'. congruence.
    + pose proof (dead_blank cp Hin Hdead) as Hn. 
      destruct (Hsh _ Hx) as [E1|(q & hq & _ & E1 & _)], (Hsh' _ Hx) as [E2|(q' & hq' & _ & E2 & _)];
        rewrite Hsame in E2 by done; congruence.
  - rewrite Hoff, Hoff' by (by rewrite ?Ecp). by apply Hsame.
Qed.
End agree.

(** ** What [encap] does *)

Lemma leaf_commit_inv `{CipherSuiteProvider} c1 c2 gid i props id signer l sk l' :
  leaf_commit c1 c2 gid i props id signer l = (Ok sk, l') ->
  is_key_pair sk (leaf_public_key l') /\ leaf_node_source l' = leaf_node_source l.
Proof.
  unfold leaf_commit. intros Hr. apply sm_bind_Ok in Hr as ([sk' pk] & l1 & Hk & Hr). injection Hk as Hk <-.
  apply map_err_Ok in Hk. rewrite sm_modify_run, sm_get_run in Hr.
  apply sm_bind_Ok in Hr as (l2 & l3 & [= Hs <-] & Hr). injection Hr as <- <-.
  unfold signable_sign in Hs. apply bind_Ok in Hs as (b & _ & (sig & _ & [= <-])%bind_Ok).
  split; [|done]. right. by exists c1.
Qed.

Lemma zoom_ke_tree_inv {A} (m : SM TreeKemPublic MlsError A) s a s' : zoom_ke_tree m s = (Ok a, s') ->
  m (ke_tree s) = (Ok a, ke_tree s') /\ ke_keys s' = ke_keys s /\ ke_context s' = ke_context s.
Proof. unfold zoom_ke_tree, sm_zoom. destruct (m (ke_tree s)) as [r t]. by intros [= -> <-]. Qed.

Lemma zoom_leaf_inv {A} i (m : SM LeafNode MlsError A) t a t' : zoom_leaf i m t = (Ok a, t') ->
  exists l l', borrow_as_leaf_mut (nodes t) i = Ok l /\ m l = (Ok a, l') /\
    t' = set_nodes (zset (nodes t) (node_index i) (Some (NodeLeaf l'))) t.
Proof.
  unfold zoom_leaf. destruct (borrow_as_leaf_mut (nodes t) i) as [l| |]; try done.
  destruct (m l) as [r l'] eqn:E. intros [= -> <-]. by exists l, l'.
Qed.

Section encap_inv.
Context `{CipherSuiteProvider} (c1 c2 c3 : Coins) (c4 : Z -> Z -> Coins) (excl : list Z) (signer : SignatureSecretKey)
  (props : option ConfigProperties) (id : option SigningIdentity).
Context (t : TreeKemPublic) (p : TreeKemPrivate) (ctx : GroupContext) (gen : EncapGeneration) (s' : KemState).
Notation i := (self_index p).
Notation cps := (vec_direct_copath (nodes t) i).

(** The steps of a successful run. *)
Record encap_steps : Prop := mk_encap_steps {
  es_run : exists fs ds g g' t1 t2 t3 t4 old new leaf_key h ctxb ns,
    filtered (nodes t) i = Ok fs /\ draws c1 fs psg_new ds g /\
    update_path_nodes (path_node <$> ds) cps t = (Ok tt, t1) /\
    update_parent_hashes i false t1 = (Ok tt, t2) /\
    borrow_as_leaf_mut (nodes t2) i = Ok old /\
    leaf_commit c2 c3 (group_id ctx) i props id signer old = (Ok leaf_key, new) /\
    t3 = set_nodes (zset (nodes t2) (node_index i) (Some (NodeLeaf new))) t2 /\
    borrow_as_leaf_mut (nodes t3) i = Ok (path_leaf_node (eg_update_path gen)) /\
    update_hashes [i] t3 = (Ok tt, t4) /\ tree_kem_tree_hash t4 = (Ok h, ke_tree s') /\
    ke_context s' = set_context_tree_hash h ctx /\
    mls_encode_to_vec group_context_codec (ke_context s') = Ok ctxb /\
    encrypt_path_secrets c4 (ke_tree s') cps (drawn_secret <$> ds) ctxb excl = Ok ns /\
    path_nodes (eg_update_path gen) = ns /\ eg_path_secrets gen = drawn_secret <$> ds /\
    next_secret c1 g = (Ok (eg_commit_secret gen), g') /\
    0 < zlen (secret_keys (ks_private (ke_keys s'))) /\
    ks_private (ke_keys s') =
      set_keys (zset (put_keys 0 ds (secret_keys (resize_keys (zlen cps + 1) p))) 0 (Some leaf_key)) p;
}.

Lemma encap_inv :
  encap c1 c2 c3 c4 excl signer props id (mk_kem_state t (mk_key_state p psg_new) ctx) = (Ok gen, s') -> encap_steps.
Proof using Type*.
  unfold encap. rewrite sm_get_run. cbn [ke_keys ks_private ke_tree ke_context].
  intros Hr. apply sm_bind_Ok in Hr as (fs & s0 & [= Hf <-] & Hr).
  apply sm_bind_Ok in Hr as ([] & s1 & [= <-] & Hr).
  apply sm_bind_Ok in Hr as (ss & s2 & Hloop & Hr). 
  apply (encap_loop_inv c1 fs cps 0) in Hloop as (ds & Hd & -> & Hc2 & Hp2 & Hu).
  2: { unfold filtered in Hf. apply mapM_res_Ok, Forall2_length in Hf. exact Hf. }
  cbn [ke_keys ks_gen ks_private ke_tree ke_context resize_keys set_keys self_index] in Hd, Hc2, Hp2, Hu.
  apply sm_bind_Ok in Hr as ([] & s3 & (Hph & Hk3 & Hc3)%zoom_ke_tree_inv & Hr).
  apply sm_bind_Ok in Hr as (leaf_key & s4 & ((old & new & Hold & Hnew & Et3)%zoom_leaf_inv & Hk4 & Hc4)%zoom_ke_tree_inv & Hr).
  apply sm_bind_Ok in Hr as ([] & s5 & Hput & Hr).
  unfold zoom_ke_keys, zoom_private, sm_zoom in Hput. rewrite Hk4, Hk3, Hp2 in Hput.
  destruct (put_key 0 (Some leaf_key) _) as [r p5] eqn:Eput. injection Hput as -> <-.
  apply put_key_inv in Eput as [Hlen ->]. cbn [set_keys secret_keys] in Hlen.
  rewrite sm_get_run in Hr. cbn [ke_tree] in Hr.
  apply sm_bind_Ok in Hr as (uleaf & s6 & [= Hul <-] & Hr).
  apply sm_bind_Ok in Hr as ([] & s7 & (Huh & Hk7 & Hc7)%zoom_ke_tree_inv & Hr).
  apply sm_bind_Ok in Hr as (h & s8 & (Hth & Hk8 & Hc8)%zoom_ke_tree_inv & Hr).
  rewrite sm_modify_run, sm_get_run in Hr. cbn [ke_tree ke_keys ke_context] in *.
  apply sm_bind_Ok in Hr as (ctxb & s9 & [= Hctx <-] & Hr).
  apply sm_bind_Ok in Hr as (ns & s10 & [= Hns <-] & Hr).
  apply sm_bind_Ok in Hr as (cs & s11 & Hcs & Hr). injection Hr as Eg Es.
  unfold zoom_ke_keys, zoom_gen, sm_zoom in Hcs. rewrite Hk8, Hk7 in Hcs. cbn [ks_gen ks_private ke_keys ke_tree ke_context] in *.
  destruct (next_secret c1 (ks_gen (ke_keys s2))) as [r g'] eqn:Ecs. injection Hcs as -> Es11. rewrite <- Es11 in Es.
  cbn [eg_update_path path_leaf_node path_nodes eg_path_secrets eg_commit_secret ke_tree ke_keys ke_context ks_private] in *.
  rewrite Hc8, Hc7, Hc4, Hc3, Hc2 in Hctx. unfold from_codec in Hctx. apply map_err_Ok in Hctx.
  split. exists fs, ds, (ks_gen (ke_keys s2)), g', (ke_tree s2), (ke_tree s3), (ke_tree s4), (ke_tree s7), old, new, leaf_key, h, ctxb, ns.
  rewrite <- Eg, <- Es.
  cbn [eg_update_path path_leaf_node path_nodes eg_path_secrets eg_commit_secret ke_tree ke_keys ke_context ks_private].
  rewrite Hc8, Hc7, Hc4, Hc3, Hc2. split_and!; try done. unfold resize_keys in *. cbn [set_keys secret_keys] in *. rewrite zlen_zset. lia.
Qed.
End encap_inv.

(** ** The tree after a commit *)

Lemma draws_keys `{CipherSuiteProvider} coins fs g ds g' d : draws coins fs g ds g' -> Some d ∈ ds ->
  is_key_pair (dr_private d) (dr_public d).
Proof.
  revert g ds. induction fs as [|[] fs IH]; intros g [|[d'|] ds] Hd Hin; try done; try (by apply elem_of_nil in Hin); cbn in Hd.
  - apply elem_of_cons in Hin as [?|Hin]; [done|]. by eapply IH.
  - destruct Hd as (g1 & _ & Hk & Hd). apply elem_of_cons in Hin as [[= ->]|Hin]; [|by eapply IH].
    unfold to_hpke_key_pair in Hk. apply bind_Ok in Hk as (s & _ & Hk). apply map_err_Ok in Hk. left. by exists s.
Qed.

Lemma zset_same (v : NodeVec) x : 0 <= x < zlen v -> zset v x (nd v x) = v.
Proof.
  intros Hx. apply nodes_ext; [by rewrite zlen_zset|]. intros y. destruct (decide (x = y)) as [<-|]; [by rewrite nd_zset_eq|by rewrite nd_zset_ne].
Qed.

Lemma rehash_run `{CipherSuiteProvider, !HashLaws} i v t : zlen (nodes t) <= 2 ^ 26 -> tree_encodable (nodes t) ->
  hashes_current v (tree_hashes t) -> path_change i v (nodes t) -> 0 <= i ->
  exists hs, update_hashes [i] t = (Ok tt, set_tree_hashes hs t) /\ sized (depth (nodes t)) hs /\ hashes_current (nodes t) hs.
Proof. apply update_hashes_total. Qed.

Lemma tree_hash_run `{CipherSuiteProvider, !HashLaws} t : zlen (nodes t) <= 2 ^ 26 ->
  sized (depth (nodes t)) (tree_hashes t) -> hashes_current (nodes t) (tree_hashes t) ->
  exists h, node_hash (nodes t) [] (depth (nodes t)) 0 = Ok h /\ tree_kem_tree_hash t = (Ok h, t).
Proof.
  intros Hlen Hs Hc. destruct (total_leaf_count_depth _ Hlen) as [E Hd]. set (d := depth (nodes t)) in *.
  assert (0 < 2 ^ Z.of_nat d) by (apply Z.pow_pos_nonneg; lia).
  destruct (Hc d 0 ltac:(lia)) as (h & Hh & Hz); [rewrite Hs; unfold node; lia|].
  exists h. split; [done|]. unfold tree_kem_tree_hash, initialize_hashes.
  rewrite (sm_bind_run _ _ _ tt t).
  2: { rewrite sm_get_run. destruct (tree_hashes t); [|done].
    apply zget_Some_bound in Hz. change (zlen []) with 0 in Hz. lia. }
  rewrite sm_get_run, E. unfold sm_lift. rewrite root_pow2 by lia. by rewrite Hz.
Qed.

Section sender.
Context {idp : IdentityProvider} `{CipherSuiteProvider, !HashLaws, !HpkeLaws} (idf : SigningIdentity -> bytes)
  (c1 c2 c3 : Coins) (c4 : Z -> Z -> Coins) (excl : list Z) (signer : SignatureSecretKey)
  (props : option ConfigProperties) (id : option SigningIdentity).
Context (t : TreeKemPublic) (p : TreeKemPrivate) (ctx : GroupContext) (gen : EncapGeneration) (s' : KemState) (old : LeafNode).
Notation i := (self_index p).
Notation cps := (vec_direct_copath (nodes t) i).
Notation new := (path_leaf_node (eg_update_path gen)).
Context (Ht : tree_ok idf t) (Henc : tree_encodable (nodes t)) (Hcur : hashes_current (nodes t) (tree_hashes t))
  (Hold : leaf_at (nodes t) i = Some old) (Hnewenc : encodable leaf_node_codec new)
  (Hrun : encap_steps c1 c2 c3 c4 excl signer props id t p ctx gen s').

(** What a successful run establishes. *)
Record sender_done (fs : list bool) (ds : list (option Drawn)) (g g' : PathSecretGenerator) (v : NodeVec) (h : ParentHash)
    (t1 t2 : TreeKemPublic) : Prop := {
  sd_filtered : filtered (nodes t) i = Ok fs;
  sd_draws : draws c1 fs psg_new ds g;
  sd_installed : installed t i old (path_node <$> ds) v;
  sd_t1 : t1 = mk_tree_kem_public (index t) v (tree_hashes t);
  sd_committed : committed i t1 h t2;
  sd_source : leaf_node_source new = SourceCommit h;
  sd_nodes : nodes (ke_tree s') = zset (nodes t2) (2 * i) (Some (NodeLeaf new));
  sd_hash : node_hash (nodes (ke_tree s')) [] (depth (nodes (ke_tree s'))) 0 = Ok (Data.tree_hash (ke_context s'));
  sd_encrypt ctxb : mls_encode_to_vec group_context_codec (ke_context s') = Ok ctxb ->
    encrypt_path_secrets c4 (ke_tree s') cps (drawn_secret <$> ds) ctxb excl = Ok (path_nodes (eg_update_path gen));
  sd_secret : next_secret c1 g = (Ok (eg_commit_secret gen), g');
  sd_path_secrets : eg_path_secrets gen = drawn_secret <$> ds;
  sd_keys : exists leaf_key, is_key_pair leaf_key (leaf_public_key new) /\ ks_private (ke_keys s') =
      set_keys (zset (put_keys 0 ds (secret_keys (resize_keys (zlen cps + 1) p))) 0 (Some leaf_key)) p;
}.

Lemma sender_spec : exists fs ds g g' v h t1 t2, sender_done fs ds g g' v h t1 t2.
Proof using Type*.
  destruct Hrun as [(fs & ds & g & g' & t1 & t2 & t3 & t4 & old2 & new' & lk & h & ctxb & ns & Hf & Hd & Hu & Hph & Hol & Hcm & E3 &
    Hnl & Huh & Hth & Ectx & Hcb & Hns & Ens & Ess & Hcs & Hlen & Ekeys)].
  pose proof (to_vec _ _ Ht) as Hv. destruct (vec_inv_len _ _ Hv) as [H25 H26].
  destruct (leaf_range _ _ _ Hv Hold) as (Hi & Hdep & Hb & H31 & _ & Ecp).
  pose proof (draws_shape _ _ _ _ _ Hd) as Esh.
  assert (filtered (nodes t) i = Ok (blank_pos <$> (path_node <$> ds))) as Hfull.
  { rewrite Hf, Esh. f_equal. rewrite <- list_fmap_compose. apply list_fmap_ext. by intros _ [d|] _. }
  destruct (install_nodes t i old old (path_node <$> ds) Hv Hold Hfull (index t)) as (v & Hrun1 & Hinst).
  assert (zset (nodes t) (2 * i) (Some (NodeLeaf old)) = nodes t) as Ezs.
  { rewrite <- (nd_leaf_at _ _ _ Hold). apply zset_same. lia. }
  rewrite Ezs in Hrun1. assert (mk_tree_kem_public (index t) (nodes t) (tree_hashes t) = t) as Et by (by destruct t).
  rewrite Et, Hu in Hrun1. injection Hrun1 as ->.
  pose proof (installed_inv t i old old _ Hv Hold Hfull v Hinst) as Hv1.
  pose proof (installed_leaf t i old old _ Hv Hold Hfull v Hinst i) as Hl1. rewrite decide_True in Hl1 by done.
  pose proof (installed_encodable t i old old _ Hv Hold Hfull v Hinst Henc (proj1 Henc i old Hold)) as Henc1.
  assert (tree_encodable v) as Henc1'.
  { apply Henc1. intros n Hin. apply list_elem_of_fmap in Hin as ([d|] & En & Hin); [|done]. injection En as ->.
    cbn. apply (draws_keys _ _ _ _ _ _ Hd), key_pair_size in Hin. change varint_max with 1073741823. lia. }
  destruct (vec_inv_len _ _ Hv1) as [_ H26v].
  destruct (update_parent_hashes_spec (nodes t) (mk_tree_kem_public (index t) v (tree_hashes t)) i old)
    as (ph & (t2' & Hph' & Hcom & Hl2) & _); try done.
  { apply (installed_change t i old old _ Hv Hold Hfull v Hinst). }
  { apply (installed_live t i old old _ Hv Hold Hfull v Hinst). }
  rewrite Hph in Hph'. injection Hph' as <-.
  rewrite (borrow_as_leaf_mut_eq _ _ _ Hl2 H31) in Hol. injection Hol as <-.
  apply leaf_commit_inv in Hcm as [Hlk Hsrc]. rewrite node_index_eq in E3 by done.
  pose proof Hcom as (_ & Hcur2 & _ & Hz2 & Hshape & Hoff2 & Hsz2). cbn [nodes] in Hz2, Hshape, Hoff2, Hsz2.
  pose proof (nd_bound _ _ _ (nd_leaf_at _ _ _ Hl2)) as Hb2.
  assert (new = new') as En.
  { rewrite (borrow_as_leaf_mut_eq (nodes t3) i new') in Hnl; [by injection Hnl as <-| |done].
    rewrite E3. unfold leaf_at. cbn [nodes set_nodes]. by rewrite nd_zset_eq. }
  rewrite <- En in *. clear En new'.
  assert (zlen (nodes t3) = zlen v) as Hz3 by (rewrite E3; cbn [nodes set_nodes]; by rewrite zlen_zset).
  assert (tree_encodable (nodes t3)) as Henc3.
  { rewrite E3. cbn [nodes set_nodes]. split.
    - intros j l. unfold leaf_at. destruct (decide (2 * i = 2 * j)) as [Ej|Ej].
      + rewrite <- Ej, nd_zset_eq by done. by intros [= <-].
      + rewrite nd_zset_ne by done. destruct (Hshape (2 * j) ltac:(lia)) as [<-|(q & hq & _ & _ & ->)]; [apply Henc1'|done].
    - intros x q. unfold parent_at. destruct (decide (2 * i = x)) as [Ex|Ex]; [by rewrite <- Ex, nd_zset_eq|].
      rewrite nd_zset_ne by done. destruct (Hshape x ltac:(done)) as [<-|(q' & hq & Hzq & Eq' & ->)]; [apply Henc1'|].
      intros [= <-]. apply encodable_set_parent_hash; [|done]. apply (proj2 Henc1' x). unfold parent_at. by rewrite Eq'. }
  destruct (rehash_run i (nodes t2) t3) as (hs & Huh' & Hs3 & Hc3); [lia|done|by rewrite E3| |lia|].
  { apply (path_change_same i _ _ (depth (nodes t))); [done|done|]. intros x Hx _. rewrite E3. apply nd_zset_ne. lia. }
  rewrite Huh in Huh'. injection Huh' as E4. 
  destruct (tree_hash_run t4) as (h4 & Hh4 & Hth4); [rewrite E4; cbn; lia|by rewrite E4|by rewrite E4|].
  rewrite Hth in Hth4. injection Hth4 as -> E5.
  exists fs, ds, g, g', v, ph, (mk_tree_kem_public (index t) v (tree_hashes t)), t2. split; try done.
  - by rewrite E5, E4, E3.
  - rewrite E5, Hh4, Ectx. done.
  - intros ctxb' Hcb'. rewrite Hcb in Hcb'. injection Hcb' as <-. by rewrite Hns, Ens.
  - by exists lk.
Qed.
End sender.

Arguments sd_filtered {_ _ _ _ _ _ _ _ _ _ _ _ _ _ _ _ _} _.
Arguments sd_draws {_ _ _ _ _ _ _ _ _ _ _ _ _ _ _ _ _} _.
Arguments sd_installed {_ _ _ _ _ _ _ _ _ _ _ _ _ _ _ _ _} _.
Arguments sd_t1 {_ _ _ _ _ _ _ _ _ _ _ _ _ _ _ _ _} _.
Arguments sd_committed {_ _ _ _ _ _ _ _ _ _ _ _ _ _ _ _ _} _.
Arguments sd_source {_ _ _ _ _ _ _ _ _ _ _ _ _ _ _ _ _} _.
Arguments sd_nodes {_ _ _ _ _ _ _ _ _ _ _ _ _ _ _ _ _} _.
Arguments sd_hash {_ _ _ _ _ _ _ _ _ _ _ _ _ _ _ _ _} _.
Arguments sd_secret {_ _ _ _ _ _ _ _ _ _ _ _ _ _ _ _ _} _.
Arguments sd_path_secrets {_ _ _ _ _ _ _ _ _ _ _ _ _ _ _ _ _} _.
Arguments sd_keys {_ _ _ _ _ _ _ _ _ _ _ _ _ _ _ _ _} _.
Arguments sd_encrypt {_ _ _ _ _ _ _ _ _ _ _ _ _ _ _ _ _} _ {_}.

(** ** The receivers' tree *)

Lemma installed_unique t i new ns ns' v v' : installed t i new ns v -> installed t i new ns' v' ->
  Forall2 (fun n n' => upn_public_key <$> n = upn_public_key <$> n') ns ns' -> v = v'.
Proof.
  intros (Hz & Hl & Hp & Ho) (Hz' & Hl' & Hp' & Ho') Hf. apply nodes_ext; [congruence|]. intros x.
  destruct (decide (x = 2 * i)) as [->|Hx]; [congruence|].
  destruct (path_or_not (zip ns (vec_direct_copath (nodes t) i)) x) as [(n & cp & Hin & ->)|Hnot].
  - rewrite (Hp n cp Hin). apply list_elem_of_lookup in Hin as [m Hm]. apply lookup_zip_Some in Hm as [Hn Hcp].
    destruct (Forall2_lookup_l _ _ _ _ _ Hf Hn) as ([n'|] & Hn' & E); [|done]. injection E as E.
    rewrite (Hp' n' cp); [by unfold path_parent; rewrite E|]. apply list_elem_of_lookup. exists m. by apply lookup_zip_Some.
  - rewrite Ho, Ho'; [done|done| |done|done]. intros n' cp Hin ->. apply list_elem_of_lookup in Hin as [m Hm].
    apply lookup_zip_Some in Hm as [Hn' Hcp]. destruct (Forall2_lookup_r _ _ _ _ _ Hf Hn') as ([n|] & Hn & E); [|done].
    apply (Hnot n cp); [|done]. apply list_elem_of_lookup. exists m. by apply lookup_zip_Some.
Qed.

(** Blank positions at the end of a path do nothing. *)
Lemma update_path_nodes_pad ns k : forall cps t,
  update_path_nodes (ns ++ replicate k None) cps t = update_path_nodes ns cps t.
Proof.
  induction ns as [|n ns IH]; intros [|cp cps] t; cbn [app update_path_nodes].
  - by destruct k.
  - revert cp cps t. induction k as [|k IHk]; intros cp cps t; [done|]. cbn [replicate update_path_nodes].
    destruct cps as [|cp' cps]; [by destruct k|]. erewrite sm_bind_run by reflexivity. apply IHk.
  - by destruct n.
  - destruct n as [n|].
    + unfold mbind, sm_bind. destruct (update_node _ _ _) as [[]]; [|done..]. by rewrite IH.
    + erewrite sm_bind_run by reflexivity. erewrite sm_bind_run by reflexivity. apply IH.
Qed.

Lemma sm_bind_ext {S E A B} (m m' : SM S E A) (f f' : A -> SM S E B) s :
  m s = m' s -> (forall a s, f a s = f' a s) -> (m ≫= f) s = (m' ≫= f') s.
Proof. intros Hm Hf. unfold mbind, sm_bind. rewrite Hm. by destruct (m' s) as [[]]. Qed.

Lemma apply_update_path_pad {idp : IdentityProvider} `{CipherSuiteProvider} sender leaf ns k extensions t :
  apply_update_path sender (mk_validated_update_path leaf (ns ++ replicate k None)) extensions t =
  apply_update_path sender (mk_validated_update_path leaf ns) extensions t.
Proof.
  unfold apply_update_path. cbn [vup_leaf_node vup_nodes].
  do 5 (apply sm_bind_ext; [done|intros ? ?]). apply sm_bind_ext; [apply update_path_nodes_pad|done].
Qed.

Section receiver.
Context {idp : IdentityProvider} `{CipherSuiteProvider, !HashLaws, !HpkeLaws} (idf : SigningIdentity -> bytes)
  (extensions : ExtensionList) (Hid : forall s, identity s extensions = Ok (idf s))
  (c1 : Coins) (c4 : Z -> Z -> Coins) (excl : list Z).
Context (t : TreeKemPublic) (p : TreeKemPrivate) (gen : EncapGeneration) (s' : KemState) (old : LeafNode).
Notation i := (self_index p).
Notation cps := (vec_direct_copath (nodes t) i).
Notation new := (path_leaf_node (eg_update_path gen)).
Notation V := (nodes (ke_tree s')).
Context (Ht : tree_ok idf t) (Henc : tree_encodable (nodes t)) (Hcur : hashes_current (nodes t) (tree_hashes t))
  (Hold : leaf_at (nodes t) i = Some old) (Hnewenc : encodable leaf_node_codec new)
  (fs : list bool) (ds : list (option Drawn)) (g g' : PathSecretGenerator) (v : NodeVec) (h : ParentHash)
  (t1 t2 : TreeKemPublic)
  (Hsd : sender_done c1 c4 excl t p gen s' old fs ds g g' v h t1 t2).

Lemma sd_full : filtered (nodes t) i = Ok (blank_pos <$> (path_node <$> ds)).
Proof using Hsd.
  rewrite (sd_filtered Hsd), (draws_shape _ _ _ _ _ (sd_draws Hsd)).
  f_equal. rewrite <- list_fmap_compose. apply list_fmap_ext. by intros _ [d|] _.
Qed.

(** The nodes with the new leaf, before the parent hashes. *)
Notation vn := (zset v (2 * i) (Some (NodeLeaf new))).

Lemma vn_installed : installed t i new (path_node <$> ds) vn /\ (forall x, x <> 2 * i -> nd vn x = nd v x) /\ zlen vn = zlen v /\
  nd vn (2 * i) = Some (NodeLeaf new).
Proof using Hsd Hold Ht.
  destruct (sd_installed Hsd) as (Hz & Hl & Hp & Ho).
  destruct (leaf_range _ _ _ (to_vec _ _ Ht) Hold) as (_ & _ & Hb & _).
  assert (0 <= 2 * i < zlen v) as Hi by (pose proof (nd_bound _ _ _ Hl); lia).
  assert (forall x, x <> 2 * i -> nd vn x = nd v x) as Hne by (intros; by apply nd_zset_ne).
  split_and!; [|done|by rewrite zlen_zset|by apply nd_zset_eq].
  split_and!; [by rewrite zlen_zset|by apply nd_zset_eq| |].
  - intros n cp Hin. rewrite Hne; [by apply Hp|]. intros E. specialize (Hp n cp Hin). rewrite E in Hp. congruence.
  - intros x Hx Hnot. rewrite Hne by done. by apply Ho.
Qed.

Lemma V_shape : (forall x, node_shape (nd vn x) (nd V x)) /\ zlen V = zlen vn /\ nd V (2 * i) = Some (NodeLeaf new) /\
  (forall x, x <> 2 * i -> nd V x = nd (nodes t2) x).
Proof using Hsd Hold Ht.
  destruct vn_installed as (_ & Hne & Hz & Hnl).
  destruct (sd_committed Hsd) as (_ & _ & _ & Hz2 & Hsh & _).
  rewrite (sd_t1 Hsd) in Hz2, Hsh. cbn [nodes] in Hz2, Hsh.
  rewrite (sd_nodes Hsd). pose proof (nd_bound _ _ _ Hnl).
  assert (nd (zset (nodes t2) (2 * i) (Some (NodeLeaf new))) (2 * i) = Some (NodeLeaf new)) as Hl by (apply nd_zset_eq; lia).
  split_and!; [|rewrite zlen_zset; lia|done|intros; by apply nd_zset_ne].
  intros x. destruct (decide (x = 2 * i)) as [->|Hx]; [rewrite Hl, Hnl; by left|].
  rewrite (nd_zset_ne (nodes t2)), Hne by done. by apply Hsh.
Qed.

Lemma V_inv : vec_inv [] V.
Proof using Hsd Hold Ht.
  destruct vn_installed as (Hinst & _ & Hz & _). destruct V_shape as (Hsh & HzV & _).
  eapply vec_inv_shape; [|exact Hsh|done]. exact (installed_inv t i old new _ (to_vec _ _ Ht) Hold sd_full _ Hinst).
Qed.

(** What a receiver's run needs of the nodes of the path. *)
Definition path_matches (us : list (option UpdatePathNode)) : Prop :=
  Forall2 (fun u d => upn_public_key <$> u = dr_public <$> d) us ds.

Lemma us_full us : path_matches us -> filtered (nodes t) i = Ok (blank_pos <$> us).
Proof using Hsd.
  intros Hus. rewrite sd_full. f_equal. symmetry. apply list_eq_same_length with (length us); rewrite ?length_fmap;
    [by rewrite <- (Forall2_length _ _ _ Hus)|done|].
  intros m x y _ Hx Hy. rewrite !list_lookup_fmap in Hx. rewrite !list_lookup_fmap in Hy.
  destruct (us !! m) as [u|] eqn:Eu; [|done]. destruct (Forall2_lookup_l _ _ _ _ _ Hus Eu) as (d & Ed & E).
  rewrite Ed in Hy. injection Hx as <-. injection Hy as <-. by destruct u, d.
Qed.

Lemma us_keys us n : path_matches us -> Some n ∈ us -> zlen (upn_public_key n) <= varint_max.
Proof using Hsd H1.
  intros Hus [m Hm]%list_elem_of_lookup. destruct (Forall2_lookup_l _ _ _ _ _ Hus Hm) as ([d|] & Hd & E); [|done].
  injection E as ->. apply list_elem_of_lookup_2 in Hd. apply (draws_keys _ _ _ _ _ _ (sd_draws Hsd)), key_pair_size in Hd.
  change varint_max with 1073741823. lia.
Qed.

Lemma same_nodes t0 h0 x0 : committed i (mk_tree_kem_public x0 vn (tree_hashes t)) h0 t0 ->
  h0 = h /\ forall x, x <> 2 * i -> nd (nodes t0) x = nd (nodes t2) x.
Proof using Hsd Hold Ht H0.
  intros Hc. destruct vn_installed as (Hinst & Hne & Hz & Hnl). pose proof (sd_full) as Hfull.
  pose proof (sd_committed Hsd) as Hc1. rewrite (sd_t1 Hsd) in Hc1.
  apply (paths_agree (mk_tree_kem_public (index t) v (tree_hashes t)) (mk_tree_kem_public x0 vn (tree_hashes t)) t2 t0 i);
    cbn [nodes]; try done.
  - exact (installed_inv t i old old _ (to_vec _ _ Ht) Hold Hfull _ (sd_installed Hsd)).
  - exact (installed_inv t i old new _ (to_vec _ _ Ht) Hold Hfull _ Hinst).
  - rewrite (installed_leaf t i old old _ (to_vec _ _ Ht) Hold Hfull _ (sd_installed Hsd)). by rewrite decide_True.
  - unfold leaf_at. by rewrite Hnl.
Qed.

Lemma receive_path us : path_matches us ->
  (forall j l, j <> i -> leaf_at (nodes t) j = Some l -> compatible idf new l) ->
  exists t', apply_update_path i (mk_validated_update_path new us) extensions t = (Ok tt, t') /\
    nodes t' = V /\ tree_ok idf t' /\ leaf_map (nodes t') = <[i := new]> (leaf_map (nodes t)) /\
    hashes_current (nodes t') (tree_hashes t') /\
    tree_kem_tree_hash t' = (Ok (Data.tree_hash (ke_context s')), t').
Proof using Type*.
  intros Hus Hcompat. destruct vn_installed as (Hinst & Hne & Hz & Hnl). pose proof (us_full us Hus) as Hfull.
  destruct (apply_update_path_spec idf extensions t i old (mk_validated_update_path new us) Hid Ht Henc Hcur Hold Hfull Hnewenc
    (fun n => us_keys us n Hus)) as (v' & h' & t0 & Hinst' & Hu0 & Hl0 & Hrun). cbn [vup_leaf_node vup_nodes] in *.
  assert (v' = vn) as ->.
  { symmetry. eapply installed_unique; [exact Hinst|exact Hinst'|]. apply Forall2_flip. clear -Hus. 
    unfold path_matches in Hus. apply Forall2_fmap_r. eapply Forall2_impl; [exact Hus|].
    intros [u|] [d|]; cbn; congruence. }
  assert (tree_encodable vn) as Hencn.
  { apply (installed_encodable t i old new us (to_vec _ _ Ht) Hold Hfull vn Hinst'); [done|done|]. intros n. by apply us_keys. }
  pose proof (installed_inv t i old new us (to_vec _ _ Ht) Hold Hfull vn Hinst') as Hvn.
  destruct (vec_inv_len _ _ Hvn) as [_ H26].
  destruct (update_parent_hashes_spec (nodes t) (mk_tree_kem_public (reindex idf extensions i old new t).2 vn (tree_hashes t)) i new)
    as (h'' & (t0' & Hu0' & Hc0 & Hl0') & _); try done.
  { unfold leaf_at. cbn [nodes]. by rewrite Hnl. }
  { apply (installed_change t i old new us (to_vec _ _ Ht) Hold Hfull vn Hinst'). }
  { apply (installed_live t i old new us (to_vec _ _ Ht) Hold Hfull vn Hinst'). }
  rewrite Hu0 in Hu0'. injection Hu0' as <-. rewrite Hl0 in Hl0'. injection Hl0' as <-.
  destruct (same_nodes _ _ _ Hc0) as [-> _]. pose proof (sd_source Hsd) as Hsrc.
  destruct (apply_update_path i _ extensions t) as [[[]|e|] t'] eqn:Erun; [|exfalso; tauto|done].
  destruct Hrun as (_ & _ & Hok & Hmap & Hlink & Hshape & Hcur' & Hz' & Hoff & Hsz).
  exists t'. split; [done|]. destruct V_shape as (_ & HzV & HlV & HVo).
  destruct (same_nodes t' h (index t')) as [_ Hn'].
  { split; [done|]. split; [done|]. split; [done|]. split; [done|]. split; [by intros; apply Hshape|].
    split; [|done]. intros x _. apply Hoff. }
  assert (nodes t' = V) as EV.
  { apply nodes_ext; [by rewrite HzV|]. intros x. destruct (decide (x = 2 * i)) as [->|Hx].
    - rewrite HlV. apply nd_leaf_at. rewrite <- lookup_leaf_map, Hmap. by rewrite lookup_insert_eq.
    - by rewrite Hn', HVo. }
  split_and!; try done. destruct (tree_hash_run t') as (hh & Hh & Hth).
  { destruct (vec_inv_len _ _ (to_vec _ _ Hok)). done. }
  { unfold depth, total_leaf_count. rewrite Hz'. exact Hsz. }
  { done. }
  rewrite Hth. rewrite EV, (sd_hash Hsd) in Hh. by injection Hh as ->.
Qed.
End receiver.

(** ** The receivers' secrets *)

(** The position of the common ancestor of two members. *)
Lemma lca_position_spec v r i lr li : vec_inv [] v -> leaf_at v r = Some lr -> leaf_at v i = Some li -> r <> i ->
  exists L : nat, lca_position r i = Ok (Z.of_nat L) /\ (L < depth v)%nat /\
    (forall k : nat, (L < k)%nat -> above r k = above i k) /\
    Z.lxor (Z.shiftr i (Z.of_nat L)) 1 = Z.shiftr r (Z.of_nat L) /\
    forall k : nat, (k <= L)%nat -> Z.shiftr r (Z.of_nat k) <> Z.shiftr i (Z.of_nat k).
Proof.
  intros Hv Hr Hi Hne. destruct (leaf_range _ _ _ Hv Hr) as (Hr0 & Hd & _ & H31 & _), (leaf_range _ _ _ Hv Hi) as (Hi0 & _ & _ & H31' & _).
  destruct (leaf_lca_level_leaves (Z.of_nat (depth v)) r i) as (m & Hm & Hmd & Heq & Hmin); [lia|done|done|done|].
  exists (Z.to_nat m). unfold lca_position. rewrite !node_index_eq, Hm by done. cbn [unwrap mbind res_bind].
  rewrite wrap_small by (unfold in_uint; change (2 ^ 64) with 18446744073709551616; lia).
  rewrite Z2Nat.id by lia. split; [f_equal; lia|]. split; [lia|]. split; [|split].
  - intros k Hk. unfold above. f_equal. replace (Z.of_nat k) with ((m + 1) + (Z.of_nat k - (m + 1))) by lia.
    rewrite <- !(Z.shiftr_shiftr _ (m + 1)) by lia. by rewrite Heq.
  - apply lxor_sibling; [apply Z.shiftr_nonneg; lia| |intros E; by apply (Hmin m); [lia|]].
    by rewrite !Z.shiftr_shiftr, Heq by lia.
  - intros k Hk. apply Hmin. lia.
Qed.

Lemma above_inj a b (k k' : nat) : 0 <= a -> 0 <= b -> above a k = above b k' -> k = k' /\ Z.shiftr a (Z.of_nat k) = Z.shiftr b (Z.of_nat k').
Proof.
  intros Ha Hb E. apply node_inj in E as [E1 E2]; [|lia|apply Z.shiftr_nonneg; lia|lia|apply Z.shiftr_nonneg; lia].
  split; [lia|done].
Qed.

(** A generator that has a secret draws no randomness. *)
Definition seeded (g : PathSecretGenerator) : Prop := is_Some (psg_starting_with g) \/ is_Some (psg_last g).

Lemma next_secret_coins `{CipherSuiteProvider} c c' g : seeded g -> next_secret c g = next_secret c' g.
Proof.
  unfold next_secret. intros [[s E]|[s E]]; rewrite E; [done|]. by destruct (psg_starting_with g).
Qed.

Lemma draws_coins `{CipherSuiteProvider} c c' fs g ds g' : seeded g -> draws c fs g ds g' -> draws c' fs g ds g' /\ seeded g'.
Proof.
  revert g ds. induction fs as [|[] fs IH]; intros g [|[d|] ds] Hg Hd; try done; cbn in Hd.
  - by subst.
  - by apply IH.
  - destruct Hd as (g1 & Hn & Hk & Hd). pose proof (next_secret_state _ _ _ _ Hn) as E.
    apply IH in Hd as [Hd Hs]; [|rewrite E; right; by eexists]. split; [|done]. exists g1.
    by rewrite (next_secret_coins c' c).
Qed.

Lemma decrypt_encrypt `{CipherSuiteProvider, !HpkeLaws} coins (s : PathSecret) sk pk ctx ct : is_key_pair sk pk ->
  he_encrypt coins s pk ctx = Ok ct -> he_decrypt sk pk ctx ct = Ok s.
Proof.
  intros Hk He. unfold he_encrypt in He. apply bind_Ok in He as (c & Hc & He).
  unfold he_decrypt. rewrite Hc. cbn [mbind res_bind he_get_bytes path_secret_encryptable he_from_bytes] in *.
  apply map_err_Ok in He. by rewrite (hpke_open_seal _ _ _ _ _ _ _ Hk He).
Qed.

(** The two filters for the leaves added by the commit agree. *)
Lemma same_recipients (excl : list Z) l : Forall (fun e => 0 <= e < 2 ^ 31) excl ->
  List.filter (fun idx => (idx mod 2 =? 1) || negb (bool_decide (leaf_from_node_index_unchecked idx ∈ excl))) l =
  List.filter (fun idx => negb (bool_decide (idx ∈ (list_to_set (node_index <$> excl) : gset Z)))) l.
Proof.
  intros He. rewrite Forall_forall in He. apply filter_ext_in. intros x _. unfold leaf_from_node_index_unchecked.
  rewrite Z.shiftr_div_pow2 by lia. change (2 ^ 1) with 2.
  destruct (Z.eqb_spec (x mod 2) 1) as [Ho|Ho]; cbn [orb].
  - rewrite bool_decide_false; [done|]. rewrite elem_of_list_to_set. intros (e & -> & Hin)%list_elem_of_fmap.
    rewrite node_index_eq in Ho by (by apply He). revert Ho. by rewrite Z.mul_comm, Z.mod_mul.
  - f_equal. apply bool_decide_ext. rewrite elem_of_list_to_set, list_elem_of_fmap. split.
    + intros Hin. exists (x `div` 2). rewrite node_index_eq by (by apply He). split; [divlia|done].
    + intros (e & -> & Hin). rewrite node_index_eq, Z.mul_comm, Z.div_mul by (done || by apply He). done.
Qed.

Section decap.
Context `{CipherSuiteProvider, !HashLaws, !HpkeLaws} (idf : SigningIdentity -> bytes)
  (c1 : Coins) (c4 : Z -> Z -> Coins) (excl : list Z) (t : TreeKemPublic) (p : TreeKemPrivate) (gen : EncapGeneration)
  (s' : KemState) (old : LeafNode).
Notation i := (self_index p).
Notation cps := (vec_direct_copath (nodes t) i).
Notation new := (path_leaf_node (eg_update_path gen)).
Notation V := (nodes (ke_tree s')).
Context (Ht : tree_ok idf t) (Hold : leaf_at (nodes t) i = Some old)
  (fs : list bool) (ds : list (option Drawn)) (g g' : PathSecretGenerator) (v : NodeVec) (h : ParentHash)
  (t1 t2 : TreeKemPublic) (Hsd : sender_done c1 c4 excl t p gen s' old fs ds g g' v h t1 t2).

Lemma ds_length : length ds = depth (nodes t).
Proof using Type*.
  destruct (path_positions t i old (path_node <$> ds) (to_vec _ _ Ht) Hold (sd_full c1 c4 excl t p gen s' old fs ds g g' v h t1 t2 Hsd))
    as [E _]. by rewrite length_fmap in E.
Qed.

Lemma V_depth : depth V = depth (nodes t) /\ zlen V = zlen (nodes t).
Proof using Type*.
  destruct (V_shape idf c1 c4 excl t p gen s' old Ht Hold fs ds g g' v h t1 t2 Hsd) as (_ & Hz & _).
  destruct (sd_installed Hsd) as (Hz' & _). rewrite zlen_zset in Hz.
  assert (zlen V = zlen (nodes t)) as E by lia. split; [|done]. unfold depth, total_leaf_count. by rewrite E.
Qed.

(** The nodes of the sender's path, and all the others. *)
Lemma V_path (m : nat) d : ds !! m = Some (Some d) ->
  exists q, nd V (above i (S m)) = Some (NodeParent q) /\ parent_public_key q = dr_public d /\ unmerged_leaves q = [].
Proof using Type*.
  intros Hm. destruct (V_shape idf c1 c4 excl t p gen s' old Ht Hold fs ds g g' v h t1 t2 Hsd) as (Hsh & _).
  destruct (vn_installed idf c1 c4 excl t p gen s' old Ht Hold fs ds g g' v h t1 t2 Hsd) as ((_ & _ & Hp & _) & _).
  destruct (path_positions t i old (path_node <$> ds) (to_vec _ _ Ht) Hold (sd_full c1 c4 excl t p gen s' old fs ds g g' v h t1 t2 Hsd))
    as (Hlen & Ecp & Hpos). pose proof (lookup_lt_Some _ _ _ Hm) as Hlt. rewrite ds_length in Hlt.
  destruct (lookup_lt_is_Some_2 cps m) as [cp Hcp].
  { rewrite Ecp, length_copath_spec. lia. }
  assert ((path_node <$> ds) !! m = Some (Some (mk_update_path_node (dr_public d) []))) as Hn by (by rewrite list_lookup_fmap, Hm).
  destruct (Hpos m _ cp Hn Hcp) as (E & _). specialize (Hp (mk_update_path_node (dr_public d) []) cp). rewrite E in Hp. fold (above i (S m)) in Hp.
  assert (nd (zset v (2 * i) (Some (NodeLeaf new))) (above i (S m)) =
    Some (NodeParent (path_parent (nodes t) (above i (S m)) (mk_update_path_node (dr_public d) [])))) as Hnd.
  { apply Hp. apply list_elem_of_lookup. exists m. by apply lookup_zip_Some. }
  destruct (Hsh (above i (S m))) as [Es|(q & hq & _ & Es & Es')].
  - rewrite <- Es, Hnd. by eexists.
  - rewrite Hnd in Es. injection Es as <-. rewrite Es'. by eexists.
Qed.

Lemma V_filtered (m : nat) : ds !! m = Some None -> nd V (above i (S m)) = None.
Proof using Type*.
  intros Hm. pose proof (V_inv idf c1 c4 excl t p gen s' old Ht Hold fs ds g g' v h t1 t2 Hsd) as HV.
  destruct (vn_installed idf c1 c4 excl t p gen s' old Ht Hold fs ds g g' v h t1 t2 Hsd) as (Hinst & _).
  destruct (V_shape idf c1 c4 excl t p gen s' old Ht Hold fs ds g g' v h t1 t2 Hsd) as (Hsh & _).
  pose proof (sd_full c1 c4 excl t p gen s' old fs ds g g' v h t1 t2 Hsd) as Hfull.
  destruct (path_positions t i old (path_node <$> ds) (to_vec _ _ Ht) Hold Hfull) as (Hlen & Ecp & Hpos).
  pose proof (lookup_lt_Some _ _ _ Hm) as Hlt. rewrite ds_length in Hlt.
  destruct (lookup_lt_is_Some_2 cps m) as [cp Hcp]; [rewrite Ecp, length_copath_spec; lia|].
  destruct (Hpos m None cp) as (_ & _ & Hj & Hb); [by rewrite list_lookup_fmap, Hm|done|].
  symmetry in Hb. apply bool_decide_eq_true in Hb.
  destruct (leaf_range _ _ _ (to_vec _ _ Ht) Hold) as (Hi & _).
  destruct (nd V (above i (S m))) as [n|] eqn:En; [exfalso|done].
  assert (exists q, n = NodeParent q) as [q ->].
  { apply (vi_parity _ _ HV) in En. destruct n as [|q]; [|by exists q]. unfold above in En. rewrite odd_node_S in En; [done|].
    apply Z.shiftr_nonneg. lia. }
  destruct (sibling_child i m ltac:(lia)) as (b & Hbb & Eb).
  destruct (vi_members _ _ HV m (Z.shiftr i (Z.of_nat (S m))) q) with (b := b) as (l & Hl0 & El & [lf Hlf]);
    [apply Z.shiftr_nonneg; lia|unfold parent_at; unfold above in En; by rewrite En|by intros ? ?%elem_of_nil|done|].
  assert (is_Some (leaf_at (nodes t) l)) as Hlt'.
  { apply (installed_occupied t i old new (path_node <$> ds) (to_vec _ _ Ht) Hold Hfull _ Hinst). unfold leaf_at in *.
    destruct (Hsh (2 * l)) as [->|(q' & hq & _ & _ & E')]; [by rewrite Hlf|by rewrite E' in Hlf]. }
  assert (resolution (nodes t) m (Z.lxor (Z.shiftr i (Z.of_nat m)) 1) <> []) as Hr; [|done].
  apply resolution_members; [apply (to_vec _ _ Ht)|done|]. exists l. by rewrite Eb.
Qed.

Lemma V_off x : (forall k : nat, x <> above i k) -> nd V x = nd (nodes t) x.
Proof using Type*.
  intros Hx. destruct (leaf_range _ _ _ (to_vec _ _ Ht) Hold) as (Hi & Hd & _ & _ & _ & Ecp).
  assert (x <> 2 * i) as Hx0.
  { intros ->. apply (Hx 0%nat). unfold above. change (Z.of_nat 0) with 0. by rewrite Z.shiftr_0_r, node_0. }
  destruct (V_shape idf c1 c4 excl t p gen s' old Ht Hold fs ds g g' v h t1 t2 Hsd) as (_ & _ & _ & Ho). rewrite Ho by done.
  pose proof (fun x => committed_off _ _ _ _ x (sd_committed Hsd)) as Hoff. rewrite (sd_t1 Hsd) in Hoff. cbn [nodes] in Hoff.
  assert (vec_direct_copath v i = cps) as Ev.
  { unfold vec_direct_copath, total_leaf_count. by rewrite (proj1 (sd_installed Hsd)). }
  assert (forall cp, cp ∈ cps -> x <> path cp) as Hnp.
  { intros cp Hin ->. rewrite Ecp in Hin. destruct (copath_spec_in_tree _ i Hd Hi cp Hin) as (k & _ & _ & _ & E). by apply (Hx (S k)). }
  rewrite Hoff; [|done|rewrite Ev; intros (cp & -> & Hin)%list_elem_of_fmap; by apply (Hnp cp)].
  destruct (sd_installed Hsd) as (_ & _ & _ & Hrest). apply Hrest; [done|]. intros n cp Hin. apply Hnp. by eapply elem_of_zip_r.
Qed.

(** What the sender encrypts at position [m]: the secret, for the public key of
    every recipient. *)
Definition encrypted (ctxb : bytes) (m : nat) (d : Drawn) (u : UpdatePathNode) : Prop :=
  Forall2 (fun idx ct => exists n c, borrow_node V idx = Ok (Some n) /\
      he_encrypt c (dr_secret d) (node_public_key n) ctxb = Ok ct)
    (List.filter (fun idx => negb (bool_decide (idx ∈ (list_to_set (node_index <$> excl) : gset Z))))
       (resolution V m (Z.lxor (Z.shiftr i (Z.of_nat m)) 1)))
    (encrypted_path_secret u).

Lemma encrypt_spec ctxb : mls_encode_to_vec group_context_codec (ke_context s') = Ok ctxb ->
  exists us, omap id us = path_nodes (eg_update_path gen) /\
    Forall2 (fun u d => upn_public_key <$> u = dr_public <$> d) us ds /\
    forall (m : nat) d u, ds !! m = Some (Some d) -> us !! m = Some (Some u) -> encrypted ctxb m d u.
Proof using Type*.
  intros Hctx. pose proof (sd_encrypt Hsd Hctx) as He. unfold encrypt_path_secrets in He.
  apply mapM_omap in He as (us & Hom & Hf). exists us. split; [done|].
  destruct (leaf_range _ _ _ (to_vec _ _ Ht) Hold) as (Hi & Hd & _ & _ & H26 & Ecp). pose proof ds_length as Hdl.
  destruct (V_depth) as [Edep EzV].
  assert (total_leaf_count V = 2 ^ Z.of_nat (depth (nodes t))) as Elc.
  { unfold total_leaf_count. rewrite EzV. by apply total_leaf_count_depth. }
  assert (length us = length ds) as Hul.
  { rewrite <- (Forall2_length _ _ _ Hf), length_zip, length_fmap, Ecp, length_copath_spec. lia. }
  assert (forall (m : nat) d u, ds !! m = Some d -> us !! m = Some u ->
    match d, u with
    | Some d, Some u => encrypt_copath_node_resolution c4 (ke_tree s') (dr_secret d)
        (node (Z.of_nat m) (Z.lxor (Z.shiftr i (Z.of_nat m)) 1)) ctxb (list_to_set (node_index <$> excl)) = Ok u
    | None, None => True
    | _, _ => False
    end) as Hpos.
  { intros m d u Hm Hu. destruct (Forall2_lookup_r _ _ _ _ _ Hf Hu) as ([cp sec] & Hz & Hmatch).
    apply lookup_zip_Some in Hz as [Hcp Hs]. rewrite list_lookup_fmap, Hm in Hs. injection Hs as <-.
    rewrite Ecp, lookup_copath_spec in Hcp by (apply lookup_lt_Some in Hm; lia). injection Hcp as <-.
    destruct d as [d|], u as [u|]; cbn in Hmatch; try done. }
  assert (forall (m : nat) d u, ds !! m = Some (Some d) -> us !! m = Some (Some u) ->
    encrypted ctxb m d u /\ upn_public_key u = dr_public d) as Hboth.
  { intros m d u Hm Hu. specialize (Hpos m _ _ Hm Hu). cbn in Hpos. pose proof (lookup_lt_Some _ _ _ Hm) as Hlt.
    assert (in_tree (Z.of_nat (depth (nodes t))) (0 + Z.of_nat m) (Z.shiftr i (Z.of_nat m))) as Hin by (apply in_tree_ancestor; lia).
    pose proof (in_tree_sibling _ _ _ Hin ltac:(lia)) as Hsib. rewrite Z.add_0_l in Hin, Hsib.
    assert (0 <= Z.lxor (Z.shiftr i (Z.of_nat m)) 1) as Hj by (destruct Hsib; lia).
    unfold encrypt_copath_node_resolution in Hpos. rewrite get_resolution_index_eq in Hpos by (done || lia).
    cbn [mbind res_bind] in Hpos. apply bind_Ok in Hpos as (cts & Hcts & Hpos). apply mapM_res_Ok in Hcts.
    rewrite Elc, (parent_sibling_node 32 ltac:(lia)) in Hpos by (done || lia).
    destruct (Z.eqb_spec (Z.of_nat m) (Z.of_nat (depth (nodes t)))) as [?|_]; [lia|]. cbn [ok_or mbind res_bind parent] in Hpos.
    assert (Z.shiftr (Z.lxor (Z.shiftr i (Z.of_nat m)) 1) 1 = Z.shiftr i (Z.of_nat (S m))) as Eup.
    { rewrite Z.shiftr_lxor. change (Z.shiftr 1 1) with 0. rewrite Z.lxor_0_r, Z.shiftr_shiftr by lia. f_equal. lia. }
    rewrite Eup in Hpos. replace (Z.of_nat m + 1) with (Z.of_nat (S m)) in Hpos by lia.
    destruct (V_path m d Hm) as (q & Hq & Epk & _). fold (above i (S m)) in Hpos.
    unfold borrow_as_parent in Hpos. rewrite borrow_node_nd, Hq in Hpos by (by eapply nd_bound).
    injection Hpos as <-. split; [|done]. unfold encrypted. cbn [encrypted_path_secret].
    eapply Forall2_impl; [exact Hcts|]. intros idx ct Hct. cbn beta in Hct.
    apply bind_Ok in Hct as ([n|] & Hn & Hct); [|done]. exists n. eexists. split; [done|]. exact Hct. }
  split; [|intros m d u Hm Hu; by apply (Hboth m)].
  apply Forall2_same_length_lookup. split; [done|]. intros m u d Hu Hm. specialize (Hpos m _ _ Hm Hu).
  destruct d as [d|], u as [u|]; [|done..]. cbn. by rewrite (proj2 (Hboth m d u Hm Hu)).
Qed.

Lemma V_below (r : Z) (L : nat) (k : nat) : 0 <= r -> (k <= L)%nat ->
  (forall k : nat, (k <= L)%nat -> Z.shiftr r (Z.of_nat k) <> Z.shiftr i (Z.of_nat k)) ->
  nd V (above r k) = nd (nodes t) (above r k).
Proof using Type*.
  intros Hr Hk Hne. destruct (leaf_range _ _ _ (to_vec _ _ Ht) Hold) as (Hi & _).
  apply V_off. intros k' E. apply above_inj in E as [<- E]; [|lia|lia]. by apply (Hne k).
Qed.

Lemma leaf_at_V r : r <> i -> leaf_at V r = leaf_at (nodes t) r.
Proof using Type*.
  intros Hne. unfold leaf_at. destruct (leaf_range _ _ _ (to_vec _ _ Ht) Hold) as (Hi & _).
  destruct (decide (0 <= r)) as [Hr|Hr].
  - assert (2 * r = above r 0) as -> by (unfold above; change (Z.of_nat 0) with 0; by rewrite Z.shiftr_0_r, node_0).
    rewrite (V_below r 0 0); [done|done|lia|]. intros k Hk. replace k with 0%nat by lia. by rewrite !Z.shiftr_0_r.
  - destruct (nd V (2 * r)) eqn:E1; [apply nd_bound in E1; lia|]. by destruct (nd (nodes t) (2 * r)) eqn:E2; [apply nd_bound in E2; lia|].
Qed.

Lemma resize_lookup n q (k : nat) : (k < length (secret_keys q))%nat -> Z.of_nat k < n ->
  secret_keys (resize_keys n q) !! k = secret_keys q !! k.
Proof using Type.
  intros Hk Hn. unfold resize_keys. cbn [secret_keys set_keys]. rewrite lookup_app_l by (rewrite length_take; lia).
  apply lookup_take_lt. lia.
Qed.

Lemma resize_len n q : 0 <= n -> zlen (secret_keys (resize_keys n q)) = n.
Proof using Type.
  intros Hn. unfold resize_keys. cbn [secret_keys set_keys]. unfold zlen. rewrite length_app, length_take, length_replicate. lia.
Qed.

(** The position of the ancestor that another member has in common with the
    sender has a secret; below it nothing changes. *)
Lemma common_secret r lr : leaf_at (nodes t) r = Some lr -> r <> i ->
  exists (L : nat) d, lca_position r i = Ok (Z.of_nat L) /\ (L < depth (nodes t))%nat /\
    (forall k : nat, (L < k)%nat -> above r k = above i k) /\
    Z.lxor (Z.shiftr i (Z.of_nat L)) 1 = Z.shiftr r (Z.of_nat L) /\
    (forall k : nat, (k <= L)%nat -> nd V (above r k) = nd (nodes t) (above r k)) /\ ds !! L = Some (Some d).
Proof using Type*.
  intros Hlr Hne. pose proof (to_vec _ _ Ht) as Hv. destruct (leaf_range _ _ _ Hv Hlr) as (Hr & _).
  destruct (lca_position_spec _ r i lr old Hv Hlr Hold Hne) as (L & Hpos & HL & Hab & Hsib & Hbelow).
  destruct (lookup_lt_is_Some_2 ds L ltac:(pose proof ds_length; lia)) as [[d'|] Hd].
  - exists L, d'. split_and!; try done. intros k Hk. by apply (V_below r L); [lia|..].
  - exfalso. pose proof (sd_full c1 c4 excl t p gen s' old fs ds g g' v h t1 t2 Hsd) as Hfull.
    destruct (path_positions t i old (path_node <$> ds) Hv Hold Hfull) as (_ & Ecp & Hpp).
    destruct (lookup_lt_is_Some_2 (vec_direct_copath (nodes t) i) L) as [cp Hcp].
    { rewrite Ecp, length_copath_spec. lia. }
    destruct (Hpp L None cp) as (_ & _ & Hj & Hb); [by rewrite list_lookup_fmap, Hd|done|].
    symmetry in Hb. apply bool_decide_eq_true in Hb. rewrite Hsib in *.
    assert (resolution (nodes t) L (Z.shiftr r (Z.of_nat L)) <> []) as Hn; [|done].
    apply resolution_members; [done|done|]. exists r. split; [lia|]. split; [done|by rewrite Hlr].
Qed.

(** The keys put along the path belong to the sender's new nodes. *)
Lemma path_keys_ok r (L : nat) ds1 k0 ks : drop L ds = ds1 ++ replicate k0 None ->
  (forall k : nat, (L < k)%nat -> above r k = above i k) -> Z.of_nat L + zlen ds1 < zlen ks ->
  forall k n, (L < k <= depth V)%nat -> nd V (above r k) = Some n ->
  exists sk, zget (put_keys (Z.of_nat L) ds1 ks) (Z.of_nat k) = Some (Some sk) /\ is_key_pair sk (node_public_key n).
Proof using Type*.
  intros Hds Hab Hl k n Hk Hn. rewrite Hab in Hn by lia. destruct V_depth as [Ed _]. pose proof ds_length as Hdl.
  destruct k as [|k]; [lia|]. destruct (lookup_lt_is_Some_2 ds k ltac:(lia)) as [d Hd].
  destruct d as [d|]; [|by rewrite (V_filtered k Hd) in Hn].
  destruct (V_path k d Hd) as (q & Hq & Epk & _). rewrite Hq in Hn. injection Hn as <-. cbn [node_public_key]. rewrite Epk.
  assert (ds1 !! (k - L)%nat = Some (Some d)) as Hd1.
  { assert (drop L ds !! (k - L)%nat = Some (Some d)) as E by (rewrite lookup_drop; by replace (L + (k - L))%nat with k by lia).
    rewrite Hds in E. apply lookup_app_Some in E as [E|[_ E]]; [done|]. apply lookup_replicate in E as [E _]. done. }
  exists (dr_private d). split.
  - replace (Z.of_nat (S k)) with (Z.of_nat L + Z.of_nat (k - L) + 1) by lia.
    by rewrite (put_keys_new _ _ _ _ (Some d)) by (done || lia).
  - apply (draws_keys _ _ _ _ _ _ (sd_draws Hsd)). by eapply list_elem_of_lookup_2.
Qed.

Lemma sender_keys_ok : private_ok V (ks_private (ke_keys s')).
Proof using Type*.
  destruct (sd_keys Hsd) as (lk & Hlk & ->). destruct V_depth as [Ed _]. pose proof ds_length as Hdl.
  destruct (leaf_range _ _ _ (to_vec _ _ Ht) Hold) as (Hi & Hd & _).
  destruct (V_shape idf c1 c4 excl t p gen s' old Ht Hold fs ds g g' v h t1 t2 Hsd) as (_ & _ & Hleaf & _).
  rewrite (own_path_len (nodes t) i old (to_vec _ _ Ht) Hold). set (ks := secret_keys (resize_keys _ p)).
  assert (zlen ks = Z.of_nat (depth (nodes t)) + 1) as Hks by (apply resize_len; lia).
  assert (forall k n, (0 < k <= depth V)%nat -> nd V (above i k) = Some n ->
    exists sk, zset (put_keys 0 ds ks) 0 (Some lk) !! k = Some (Some sk) /\ is_key_pair sk (node_public_key n)) as Hpath.
  { intros k n Hk Hn. destruct (path_keys_ok i 0 ds 0 ks) with (k := k) (n := n) as (sk & Hsk & Hp); try done.
    - by rewrite app_nil_r.
    - unfold zlen in *. lia.
    - exists sk. split; [|done]. by rewrite <- zget_nat, zget_zset_ne by lia. }
  assert (nd V (above i 0) = Some (NodeLeaf new)) as Hnd0 by (unfold above; change (Z.of_nat 0) with 0; by rewrite Z.shiftr_0_r, node_0).
  assert (zset (put_keys 0 ds ks) 0 (Some lk) !! 0%nat = Some (Some lk)) as Hk0.
  { rewrite <- zget_nat. apply zget_zset_eq. rewrite put_keys_len. lia. }
  split; cbn [self_index set_keys secret_keys].
  - unfold leaf_at. by rewrite Hleaf.
  - pose proof (zlen_zset (put_keys 0 ds ks) 0 (Some lk)) as E. rewrite put_keys_len, Hks in E. unfold zlen in E. lia.
  - intros [|k] sk n Hk Hsk Hn.
    + rewrite Hk0 in Hsk. injection Hsk as <-. rewrite Hnd0 in Hn. by injection Hn as <-.
    + destruct (Hpath (S k) n ltac:(lia) Hn) as (sk' & Hsk' & Hp). congruence.
  - intros [|k] n Hk Hsk Hn; [congruence|]. destruct (Hpath (S k) n ltac:(lia) Hn) as (sk' & Hsk' & _). congruence.
Qed.
End decap.

Section receive.
Context `{CipherSuiteProvider, !HashLaws, !HpkeLaws} (idf : SigningIdentity -> bytes)
  (c1 : Coins) (c4 : Z -> Z -> Coins) (excl : list Z) (t : TreeKemPublic) (p : TreeKemPrivate) (gen : EncapGeneration)
  (s' : KemState) (old : LeafNode).
Notation i := (self_index p).
Notation V := (nodes (ke_tree s')).
Context (Ht : tree_ok idf t) (Hold : leaf_at (nodes t) i = Some old)
  (fs : list bool) (ds : list (option Drawn)) (g g' : PathSecretGenerator) (v : NodeVec) (h : ParentHash)
  (t1 t2 : TreeKemPublic) (Hsd : sender_done c1 c4 excl t p gen s' old fs ds g g' v h t1 t2).
Context (ctxb : bytes) (us vs : list (option UpdatePathNode)) (k0 : nat)
  (Hkeys : Forall2 (fun u d => upn_public_key <$> u = dr_public <$> d) us ds)
  (Hcts : forall (m : nat) d u, ds !! m = Some (Some d) -> us !! m = Some (Some u) -> encrypted excl p s' ctxb m d u)
  (Hvs : us = vs ++ replicate k0 None) (Hexcl : Forall (fun e => 0 <= e < 2 ^ 31) excl).
(** The receiver. *)
Context (c' : Coins) (q : TreeKemPrivate) (Hq : private_ok (nodes t) q) (Hne : self_index q <> i) (Hnew : self_index q ∉ excl).
Notation r := (self_index q).

Lemma V_depth' : depth V = depth (nodes t).
Proof using Hsd Hold Ht H0 H1. exact (proj1 (V_depth idf c1 c4 excl t p gen s' old Ht Hold fs ds g g' v h t1 t2 Hsd)). Qed.

(** The position of the ancestor in common with the sender has a secret. *)
Lemma common_position : exists (L : nat) d u, lca_position r i = Ok (Z.of_nat L) /\ (L < depth (nodes t))%nat /\
  (forall k : nat, (L < k)%nat -> above r k = above i k) /\
  Z.lxor (Z.shiftr i (Z.of_nat L)) 1 = Z.shiftr r (Z.of_nat L) /\
  keys_ok L V q /\ (forall k : nat, (k <= L)%nat -> nd V (above r k) = nd (nodes t) (above r k)) /\
  ds !! L = Some (Some d) /\ us !! L = Some (Some u) /\ vs !! L = Some (Some u).
Proof using Type*.
  destruct (po_member _ _ _ Hq) as [lr Hlr].
  destruct (common_secret idf c1 c4 excl t p gen s' old Ht Hold fs ds g g' v h t1 t2 Hsd r lr Hlr Hne)
    as (L & d' & Hpos & HL & Hab & Hsib & Hsame & Hd).
  destruct (Forall2_lookup_r _ _ _ _ _ Hkeys Hd) as ([u|] & Hu & E); [|done].
  exists L, d', u. split_and!; try done.
  - split.
    + rewrite (leaf_at_V idf c1 c4 excl t p gen s' old Ht Hold fs ds g g' v h t1 t2 Hsd) by done. by rewrite Hlr.
    + pose proof (po_length _ _ _ Hq). lia.
    + intros k sk n Hk Hsk Hn. rewrite Hsame in Hn by done. apply (po_pair _ _ _ Hq k); [lia|done|done].
    + intros k n Hk Hsk Hn. rewrite Hsame in Hn by done. apply (po_have _ _ _ Hq k); [lia|done|done].
  - rewrite Hvs in Hu. apply lookup_app_Some in Hu as [Hu|[_ Hu]]; [done|]. apply lookup_replicate in Hu as [? _]. done.
Qed.

(** The receiver decrypts the secret of that ancestor. *)
Lemma decap_secret_spec leaf t' L d u : nodes t' = V -> lca_position r i = Ok (Z.of_nat L) -> (L < depth (nodes t))%nat ->
  Z.lxor (Z.shiftr i (Z.of_nat L)) 1 = Z.shiftr r (Z.of_nat L) -> keys_ok L V q ->
  ds !! L = Some (Some d) -> us !! L = Some (Some u) -> vs !! L = Some (Some u) ->
  decap_secret t' q i (mk_validated_update_path leaf vs) excl ctxb = Ok (Z.of_nat L, dr_secret d).
Proof using Type*.
  intros EV Hpos HL Hsib Hk Hd Hu Hvu. pose proof (V_inv idf c1 c4 excl t p gen s' old Ht Hold fs ds g g' v h t1 t2 Hsd) as HV.
  destruct (po_member _ _ _ Hk) as [lr Hlr]. pose proof V_depth' as Edep.
  unfold decap_secret. rewrite Hpos, EV. cbn [mbind res_bind vup_nodes]. fold (own_path V r).
  destruct (find_resolved_spec V q L HV Hk ltac:(lia) L ltac:(lia)) as (m & sk & n & Hfind & Hm & Hsk & Hn & Hpair & Hres & Hodd).
  rewrite Hfind. cbn [mbind res_bind].
  destruct (own_path_lookup V r lr HV Hlr L ltac:(lia)) as (cpL & HcpL & EL), (own_path_lookup V r lr HV Hlr m ltac:(lia)) as (cpm & Hcpm & Em).
  rewrite !zget_nat, HcpL, Hcpm. cbn [unwrap mbind res_bind]. rewrite EL, Em.
  destruct (find_ciphertext_spec V q L HV Hk ltac:(lia) L (above r m) excl ltac:(lia) Hres) as (c & Hc & Hcn).
  { destruct Hodd as [->|Ho]; [right|by left]. unfold above. change (Z.of_nat 0) with 0.
    rewrite Z.shiftr_0_r, node_0. by rewrite (Z.shiftr_div_pow2 _ 1), Z.mul_comm, Z.div_mul by lia. }
  rewrite Hc. cbn [mbind res_bind]. rewrite Hvu. cbn [unwrap ok_or mbind res_bind].
  rewrite same_recipients in Hcn by done. pose proof (Hcts L d u Hd Hu) as Henc. unfold encrypted in Henc. rewrite Hsib in Henc.
  destruct (Forall2_lookup_l _ _ _ _ _ Henc Hcn) as (ct & Hct & n' & coins & Hb & He).
  rewrite zget_nat, Hct. cbn [ok_or mbind res_bind]. rewrite Hsk. cbn [unwrap ok_or mbind res_bind].
  rewrite Hb. cbn [ok_or mbind res_bind].
  assert (n' = n) as ->.
  { rewrite borrow_node_nd in Hb by (by eapply nd_bound). rewrite Hn in Hb. by injection Hb. }
  by rewrite (decrypt_encrypt coins (dr_secret d)).
Qed.

Lemma decap_spec leaf t' : nodes t' = V ->
  exists q', decap c' t' i (mk_validated_update_path leaf vs) excl ctxb q = (Ok (eg_commit_secret gen), q') /\
    private_ok V q' /\ self_index q' = r.
Proof using Type*.
  intros EV. destruct common_position as (L & d & u & Hpos & HL & Hab & Hsib & Hk & Hsame & Hd & Hu & Hvu).
  unfold decap. rewrite (decap_secret_spec leaf t' L d u EV Hpos HL Hsib Hk Hd Hu Hvu).
  pose proof (V_inv idf c1 c4 excl t p gen s' old Ht Hold fs ds g g' v h t1 t2 Hsd) as HV.
  destruct (po_member _ _ _ Hk) as [lr Hlr]. pose proof V_depth' as Edep.
  assert (length ds = depth (nodes t)) as Hdl by exact (ds_length idf c1 c4 excl t p gen s' old Ht Hold fs ds g g' v h t1 t2 Hsd).
  rewrite EV, (own_path_len V r lr HV Hlr). cbn [vup_nodes]. rewrite Nat2Z.id, drop_enumerate.
  pose proof (Forall2_length _ _ _ Hkeys) as Hul. pose proof (lookup_lt_Some _ _ _ Hvu) as HLv.
  assert (length us = (length vs + k0)%nat) as Hul2 by (rewrite Hvs, length_app, length_replicate; done).
  pose proof (draws_suffix _ _ _ _ _ _ _ (sd_draws Hsd) Hd) as Hsuf.
  assert (drop L fs = (blank_pos <$> drop L vs) ++ replicate k0 true) as Efs.
  { assert (fs = blank_pos <$> us) as ->.
    { rewrite (draws_shape _ _ _ _ _ (sd_draws Hsd)). apply list_eq_Forall2, Forall2_fmap, Forall2_flip.
      eapply Forall2_impl; [exact Hkeys|]. by intros [?|] [?|]. }
    rewrite Hvs, fmap_app, fmap_replicate, drop_app_le, fmap_drop by (rewrite length_fmap; lia). done. }
  rewrite Efs in Hsuf. apply draws_app in Hsuf as (ds1 & ds2 & g1 & Eds & Hl1 & Hd1 & Hd2).
  apply draws_true in Hd2 as [-> ->]. rewrite length_fmap, length_drop in Hl1.
  apply (draws_coins c1 c') in Hd1 as [Hd1 Hg]; [|by left].
  set (q0 := resize_keys (Z.of_nat (depth V) + 2) q).
  assert (zlen (secret_keys q0) = Z.of_nat (depth (nodes t)) + 2) as Hq0 by (unfold q0; rewrite resize_len by lia; lia).
  assert (decap_loop c' (enum_from (Z.of_nat L) (drop L vs)) (mk_key_state q0 (psg_starting (dr_secret d))) =
    (Ok tt, mk_key_state (set_keys (put_keys (Z.of_nat L) ds1 (secret_keys q0)) q0) g)) as Hloop.
  { apply decap_loop_run; [done| |lia|rewrite Hq0; unfold zlen; rewrite length_drop; lia].
    assert (Forall2 (fun u d => upn_public_key <$> u = dr_public <$> d) (drop L us) (drop L ds)) as Hf by (by apply Forall2_drop).
    rewrite Eds, Hvs, drop_app_le in Hf by lia. apply Forall2_app_inv in Hf as [Hf _]; [done|]. rewrite length_drop. lia. }
  erewrite sm_bind_run by exact Hloop. unfold zoom_gen, sm_zoom. cbn [ks_gen ks_private].
  rewrite (next_secret_coins c' c1), (sd_secret Hsd) by done.
  eexists. split; [done|]. cbn [ks_private]. split; [|done]. 
  assert (Z.of_nat L + zlen ds1 < zlen (secret_keys q0)) as Hfit by (rewrite Hq0; unfold zlen; lia).
  assert (forall k : nat, (k <= L)%nat -> put_keys (Z.of_nat L) ds1 (secret_keys q0) !! k = secret_keys q !! k) as Hlow.
  { intros k Hk'. rewrite <- zget_nat, put_keys_old, zget_nat by lia. unfold q0. pose proof (po_length _ _ _ Hk).
    apply resize_lookup; lia. }
  assert (forall k n, (L < k <= depth V)%nat -> nd V (above r k) = Some n ->
    exists sk, put_keys (Z.of_nat L) ds1 (secret_keys q0) !! k = Some (Some sk) /\ is_key_pair sk (node_public_key n)) as Hhigh.
  { intros k n Hk' Hn. rewrite <- zget_nat.
    apply (path_keys_ok idf c1 c4 excl t p gen s' old Ht Hold fs ds g g' v h t1 t2 Hsd r L ds1 k0); done. }
  split; cbn [self_index set_keys secret_keys q0 resize_keys].
  - by rewrite Hlr.
  - pose proof (put_keys_len (Z.of_nat L) ds1 (secret_keys q0)) as E. rewrite Hq0 in E. unfold zlen in E.
    change (secret_keys q0) with (secret_keys (resize_keys (Z.of_nat (depth V) + 2) q)) in E. unfold resize_keys in E. cbn [secret_keys set_keys] in E. lia.
  - intros k sk n Hk' Hsk Hn. change (put_keys (Z.of_nat L) ds1 (secret_keys q0) !! k = Some (Some sk)) in Hsk.
    destruct (decide (k <= L)%nat) as [Hle|Hgt].
    + rewrite Hlow in Hsk by done. by apply (po_pair _ _ _ Hk k).
    + destruct (Hhigh k n ltac:(lia) Hn) as (sk' & Hsk' & Hp). congruence.
  - intros k n Hk' Hsk Hn. change (put_keys (Z.of_nat L) ds1 (secret_keys q0) !! k = Some None) in Hsk.
    destruct (decide (k <= L)%nat) as [Hle|Hgt].
    + rewrite Hlow in Hsk by done. by apply (po_have _ _ _ Hk k).
    + destruct (Hhigh k n ltac:(lia) Hn) as (sk' & Hsk' & _). congruence.
Qed.
End receive.

(** ** Theorems *)

Lemma path_agreement {idp : IdentityProvider} `{CipherSuiteProvider, !HashLaws, !HpkeLaws}
    (idf : SigningIdentity -> bytes) (extensions : ExtensionList)
    (c1 c2 c3 : Coins) (c4 : Z -> Z -> Coins) (excluding : list Z) (signer : SignatureSecretKey)
    (props : option ConfigProperties) (id : option SigningIdentity)
    (t : TreeKemPublic) (p : TreeKemPrivate) (ctx : GroupContext) (gen : EncapGeneration) (s' : KemState) (old : LeafNode)
    (ctxb : bytes)
    (Hid : forall s, identity s extensions = Ok (idf s))
    (Ht : tree_ok idf t) (Henc : tree_encodable (nodes t)) (Hcur : hashes_current (nodes t) (tree_hashes t))
    (Hold : leaf_at (nodes t) (self_index p) = Some old)
    (Hexcl : Forall (fun e => 0 <= e < 2 ^ 31) excluding)
    (Hrun : encap c1 c2 c3 c4 excluding signer props id (mk_kem_state t (mk_key_state p psg_new) ctx) = (Ok gen, s'))
    (Hctxb : mls_encode_to_vec group_context_codec (ke_context s') = Ok ctxb)
    (Hleaf : encodable leaf_node_codec (path_leaf_node (eg_update_path gen)))
    (Hcompat : forall j l, j <> self_index p -> leaf_at (nodes t) j = Some l ->
       compatible idf (path_leaf_node (eg_update_path gen)) l) :
  let sender := self_index p in
  let up := eg_update_path gen in
  exists fs vs t', filtered (nodes t) sender = Ok fs /\ unfilter fs (path_nodes up) = Ok vs /\
    let vup := mk_validated_update_path (path_leaf_node up) vs in
    apply_update_path sender vup extensions t = (Ok tt, t') /\
    nodes t' = nodes (ke_tree s') /\ tree_ok idf t' /\
    leaf_map (nodes t') = <[sender := path_leaf_node up]> (leaf_map (nodes t)) /\
    hashes_current (nodes t') (tree_hashes t') /\
    tree_kem_tree_hash t' = (Ok (tree_hash (ke_context s')), t') /\
    private_ok (nodes t') (ks_private (ke_keys s')) /\
    forall c' q, private_ok (nodes t) q -> self_index q <> sender -> self_index q ∉ excluding ->
      exists q', decap c' t' sender vup excluding ctxb q = (Ok (eg_commit_secret gen), q') /\
        private_ok (nodes t') q' /\ self_index q' = self_index q.
Proof.
  apply encap_inv in Hrun.
  destruct (sender_spec idf c1 c2 c3 c4 excluding signer props id t p ctx gen s' old Ht Henc Hcur Hold Hleaf Hrun)
    as (fs & ds & g & g' & v & h & t1 & t2 & Hsd).
  destruct (encrypt_spec idf c1 c4 excluding t p gen s' old Ht Hold fs ds g g' v h t1 t2 Hsd ctxb Hctxb) as (us & Hom & Hkeys & Hcts).
  destruct (unfilter_full us) as (vs & k & Hun & Evs).
  destruct (receive_path idf extensions Hid c1 c4 excluding t p gen s' old Ht Henc Hcur Hold Hleaf fs ds g g' v h t1 t2 Hsd us Hkeys Hcompat)
    as (t' & Happ & EV & Hok & Hmap & Hc' & Hth).
  exists fs, vs, t'. split; [exact (sd_filtered Hsd)|]. split.
  { rewrite <- Hom. pose proof (us_full c1 c4 excluding t p gen s' old fs ds g g' v h t1 t2 Hsd us Hkeys) as E.
    rewrite (sd_filtered Hsd) in E. injection E as ->. done. }
  split; [rewrite <- (apply_update_path_pad _ _ _ k), <- Evs; exact Happ|]. split_and!; try done.
  - rewrite EV. exact (sender_keys_ok idf c1 c4 excluding t p gen s' old Ht Hold fs ds g g' v h t1 t2 Hsd).
  - intros c' q Hq Hne Hnew. rewrite EV.
    exact (decap_spec idf c1 c4 excluding t p gen s' old Ht Hold fs ds g g' v h t1 t2 Hsd ctxb us vs k Hkeys Hcts Evs Hexcl c' q Hq Hne Hnew _ t' EV).
Qed.

(** C6: a commit path agrees on everything.  Let a member of a well-formed tree
    with current hashes generate a path ([encap]), leaving out the leaves
    [excluding] that the commit adds, and let the new leaf clash with no other
    member.  Then its nodes fit the positions of the path, and every processor
    that installs it in the same tree gets the sender's tree, whose tree hash is
    the one of the sender's context.  Every member that is not left out, whose
    private keys belong to its tree, decrypts the path to the sender's commit
    secret, with no error; and the private keys of the sender and of that member
    belong to the new tree. *)
Theorem commit_path_agreement {idp : IdentityProvider} `{CipherSuiteProvider, !HashLaws, !HpkeLaws}
    (idf : SigningIdentity -> bytes) (extensions : ExtensionList)
    (c1 c2 c3 : Coins) (c4 : Z -> Z -> Coins) (excluding : list Z) (signer : SignatureSecretKey)
    (props : option ConfigProperties) (id : option SigningIdentity)
    (t : TreeKemPublic) (p : TreeKemPrivate) (ctx : GroupContext) (gen : EncapGeneration) (s' : KemState) (old : LeafNode)
    (ctxb : bytes)
    (Hid : forall s, identity s extensions = Ok (idf s))
    (Ht : tree_ok idf t) (Henc : tree_encodable (nodes t)) (Hcur : hashes_current (nodes t) (tree_hashes t))
    (Hold : leaf_at (nodes t) (self_index p) = Some old)
    (Hexcl : Forall (fun e => 0 <= e < 2 ^ 31) excluding)
    (Hrun : encap c1 c2 c3 c4 excluding signer props id (mk_kem_state t (mk_key_state p psg_new) ctx) = (Ok gen, s'))
    (Hctxb : mls_encode_to_vec group_context_codec (ke_context s') = Ok ctxb)
    (Hleaf : encodable leaf_node_codec (path_leaf_node (eg_update_path gen)))
    (Hcompat : forall j l, j <> self_index p -> leaf_at (nodes t) j = Some l ->
       compatible idf (path_leaf_node (eg_update_path gen)) l) :
  let sender := self_index p in
  let up := eg_update_path gen in
  exists fs vs t', filtered (nodes t) sender = Ok fs /\ unfilter fs (path_nodes up) = Ok vs /\
    let vup := mk_validated_update_path (path_leaf_node up) vs in
    apply_update_path sender vup extensions t = (Ok tt, t') /\
    nodes t' = nodes (ke_tree s') /\ tree_ok idf t' /\
    leaf_map (nodes t') = <[sender := path_leaf_node up]> (leaf_map (nodes t)) /\
    hashes_current (nodes t') (tree_hashes t') /\
    tree_kem_tree_hash t' = (Ok (tree_hash (ke_context s')), t') /\
    private_ok (nodes t') (ks_private (ke_keys s')) /\
    forall c' q, private_ok (nodes t) q -> self_index q <> sender -> self_index q ∉ excluding ->
      exists q', decap c' t' sender vup excluding ctxb q = (Ok (eg_commit_secret gen), q') /\
        private_ok (nodes t') q' /\ self_index q' = self_index q.
Proof. by eapply path_agreement. Qed.

(** The first member of the group of two commits, the second follows. *)
Definition two_context : GroupContext := mk_group_context 1 1 [7] 3 [] [] [].
Definition first_keys : TreeKemPrivate := mk_private 0 [Some [1]].
Definition second_keys : TreeKemPrivate := mk_private 1 [Some [2]; None].

Definition two_encap : res MlsError EncapGeneration * KemState :=
  encap (H := Toy.provider) 3%nat 4%nat 5%nat (fun _ _ => 0%nat) [] [1] None None
    (mk_kem_state group_of_two (mk_key_state first_keys psg_new) two_context).

Lemma second_keys_ok : keys_ok (H := Toy.provider) (depth (nodes group_of_two)) (nodes group_of_two) second_keys.
Proof.
  assert (depth (nodes group_of_two) = 1%nat) as -> by by vm_compute.
  split; [by vm_compute; eexists|by vm_compute; lia| |].
  - intros [|[|k]] sk n Hk Hsk Hn; [|done|lia]. injection Hsk as <-. vm_compute in Hn. injection Hn as <-.
    right. by exists 2%nat.
  - intros [|[|k]] n Hk Hsk Hn; [done| |lia]. by vm_compute in Hn.
Qed.

Lemma commit_path_agreement_witness : exists gen s' vs t' q', two_encap = (Ok gen, s') /\
  apply_update_path (idp := plain_provider) (H := Toy.provider) 0 (mk_validated_update_path (path_leaf_node (eg_update_path gen)) vs) []
    group_of_two = (Ok tt, t') /\ nodes t' = nodes (ke_tree s') /\
  exists ctxb, decap (H := Toy.provider) 9%nat t' 0 (mk_validated_update_path (path_leaf_node (eg_update_path gen)) vs) [] ctxb second_keys
    = (Ok (eg_commit_secret gen), q').
Proof.
  destruct two_encap as [[gen|e|] s'] eqn:E; [|by vm_compute in E..].
  destruct (mls_encode_to_vec group_context_codec (ke_context s')) as [ctxb|e|] eqn:Ec;
    [|by vm_compute in E; injection E as <- <-; vm_compute in Ec..].
  destruct (commit_path_agreement (idp := plain_provider) (H := Toy.provider) (H0 := Toy.hash_laws) (H1 := Toy.hpke_laws)
    signature_key [] 3%nat 4%nat 5%nat (fun _ _ => 0%nat) [] [1] None None group_of_two first_keys two_context gen s' (member_leaf 1) ctxb
    ltac:(reflexivity) group_of_two_ok group_of_two_encodable (no_hashes_current (H := Toy.provider) _)
    ltac:(vm_compute; reflexivity) ltac:(constructor) E Ec) as (fs & vs & t' & _ & _ & Happ & En & _ & _ & _ & _ & _ & Hall).
  - vm_compute in E. injection E as <- <-. eexists. vm_compute. reflexivity.
  - intros j l Hj Hl. assert (j = 1 /\ l = member_leaf 2) as [-> ->].
    { pose proof (nd_bound _ _ _ (nd_leaf_at _ _ _ Hl)) as Hb. change (zlen (nodes group_of_two)) with 3 in Hb.
      change (self_index first_keys) with 0 in Hj. assert (j = 1) as -> by lia. split; [done|]. vm_compute in Hl. by injection Hl as <-. }
    vm_compute in E. injection E as <- <-. repeat split; try discriminate; by left.
  - destruct (Hall 9%nat second_keys second_keys_ok ltac:(discriminate) ltac:(apply not_elem_of_nil)) as (q' & Hd & _).
    exists gen, s', vs, t', q'. split; [reflexivity|]. split; [exact Happ|]. split; [exact En|]. exists ctxb. exact Hd.
Defined.

(** The group of two after the first commit, and a second commit whose path has
    no nodes: its leaf carries the parent hash that the unchanged path gives. *)
Definition committed_two : TreeKemPublic := ke_tree two_encap.2.

Definition short_hash : ParentHash := Eval vm_compute in
  match leaf_at (nodes (update_parent_hashes (H := Toy.provider) 0 false
    (set_nodes (zset (nodes committed_two) 0 (Some (NodeLeaf (commit_leaf [])))) committed_two)).2) 0 with
  | Some l => match leaf_node_source l with SourceCommit h => h | _ => [] end
  | None => []
  end.

Definition short_path : ValidatedUpdatePath := mk_validated_update_path (commit_leaf short_hash) [].

(** A path with too few nodes is not refused.  A member of a group whose
    root is occupied can send a commit path without nodes: the positions accept
    it, [apply_update_path] installs its leaf, whose parent hash is right, and
    [decap] of the other member panics on the missing node. *)
Theorem short_path_panics : exists fs t',
  filtered (nodes committed_two) 0 = Ok fs /\ unfilter fs [] = Ok (vup_nodes short_path) /\
  apply_update_path (idp := plain_provider) (H := Toy.provider) 0 short_path [] committed_two = (Ok tt, t') /\
  leaf_at (nodes t') 0 = Some (vup_leaf_node short_path) /\
  forall c ctxb, (decap (H := Toy.provider) c t' 0 short_path [] ctxb second_keys).1 = Panic.
Proof.
  destruct (apply_update_path (idp := plain_provider) (H := Toy.provider) 0 short_path [] committed_two) as [r t'] eqn:E.
  exists [false], t'. vm_compute in E. injection E as <- <-. by split_and!; vm_compute.
Qed.
