(* ===== verification/GroupInv.v ===== *)
(** * Invariants of a group

    What the operations of a member preserve, however they end: the group it
    belongs to, the agreement of the context with the tree, and the order of the
    epochs it has stored.  The operations are the steps of a transition system
    whose reachable states satisfy the invariant. *)

From S2P Require Import Prelude Codec Crypto TreeMath SecretTree Data NodeVec TreeIndex TreeHash ParentHash TreeInv Proposals TreeKem TreePath LeafNodes Kem Framing KeySchedule MessageProtection EpochStore Filtering GroupState Processor Group Commit StateLogic PathAgreement Client Scenario Snapshots.

#[local] Set Default Goal Selector "!".
Local Open Scope Z_scope.

(** ** Contexts of one group *)

(** Everything but the hashes. *)
Record same_context (c c' : GroupContext) : Prop := {
  sc_version : protocol_version c' = protocol_version c;
  sc_suite : gc_cipher_suite c' = gc_cipher_suite c;
  sc_group : group_id c' = group_id c;
  sc_epoch : epoch c' = epoch c;
}.

Record next_context (c c' : GroupContext) : Prop := {
  nc_version : protocol_version c' = protocol_version c;
  nc_suite : gc_cipher_suite c' = gc_cipher_suite c;
  nc_group : group_id c' = group_id c;
  nc_epoch : epoch c' = wrap 64 (epoch c + 1);
}.

#[export] Instance same_context_refl : Reflexive same_context.
Proof. done. Qed.
#[export] Instance same_context_trans : Transitive same_context.
Proof. intros a b c [] []. split; congruence. Qed.

Lemma next_same c c' c'' : next_context c c' -> same_context c' c'' -> next_context c c''.
Proof. intros [] []. split; congruence. Qed.

(** The tree has the hashes of its nodes cached, and the context the root's. *)
Definition hash_matches (c : GroupContext) (t : TreeKemPublic) `{CipherSuiteProvider} : Prop :=
  tree_kem_tree_hash t = (Ok (tree_hash c), t).

Section context_steps.
Context {idp : IdentityProvider} {cs : CipherSuiteProvider} `{MapOrder} {P R : Type} `{!PreSharedKeyStorage P, !MlsRules R}.

Lemma apply_resolved_next s from b leaf (psk_storage : P) (rules : R) time dir pv :
  apply_resolved s from b leaf psk_storage rules time dir = Ok pv -> next_context (st_context s) (pv_group_context pv).
Proof.
  unfold apply_resolved. intros E. apply bind_Ok in E as (o & _ & E). apply bind_Ok in E as (b1 & _ & E).
  apply bind_Ok in E as (b2 & _ & E). apply bind_Ok in E as (out & _ & [= <-]).
  cbn [pv_group_context]. by destruct (new_context_extensions out).
Qed.

Lemma on_pv_tree_context {A} (m : SM TreeKemPublic MlsError A) pv a pv' :
  on_pv_tree m pv = Ok (a, pv') ->
  pv_group_context pv' = pv_group_context pv /\ m (pv_public_tree pv) = (Ok a, pv_public_tree pv') /\
  pv_applied_proposals pv' = pv_applied_proposals pv.
Proof. unfold on_pv_tree. destruct (m (pv_public_tree pv)) as [[] t]; [|done..]. by intros [= -> <-]. Qed.

Lemma tree_hash_cached t h t' : tree_kem_tree_hash t = (Ok h, t') -> tree_kem_tree_hash t' = (Ok h, t').
Proof.
  unfold tree_kem_tree_hash. intros (u & t1 & Ei & E)%sm_bind_Ok. rewrite sm_get_run in E.
  injection E as E <-. apply unwrap_Ok in E.
  assert (tree_hashes t1 <> []) as Hne.
  { intros Hn. rewrite Hn in E. apply zget_Some_bound in E. unfold zlen in E. simpl in E. lia. }
  rewrite (sm_bind_run initialize_hashes _ t1 tt t1), sm_get_run; [unfold sm_lift; by rewrite E|].
  unfold initialize_hashes. rewrite sm_get_run. by destruct (tree_hashes t1).
Qed.

Lemma finish_context_spec i confirmed pv pv' : finish_context i confirmed pv = Ok pv' ->
  same_context (pv_group_context pv) (pv_group_context pv') /\ hash_matches (pv_group_context pv') (pv_public_tree pv').
Proof.
  unfold finish_context. intros E. apply bind_Ok in E as ([[] p1] & E1 & E). apply bind_Ok in E as ([h p2] & E2 & [= <-]).
  apply on_pv_tree_context in E1 as (C1 & _ & _). apply on_pv_tree_context in E2 as (C2 & T2 & _).
  cbn [pv_group_context set_pv_group_context] in *. rewrite C2, C1. split; [done|].
  unfold hash_matches. cbn. by eapply tree_hash_cached.
Qed.
End context_steps.

(** ** Operations that stay in the epoch *)

Record same_ids (c c' : ProposalCache) : Prop := {
  si_version : pc_protocol_version c' = pc_protocol_version c;
  si_group : pc_group_id c' = pc_group_id c;
}.

#[export] Instance same_ids_preorder : PreOrder same_ids.
Proof. split; [done|]. intros a b c [] []. split; congruence. Qed.

Section stays.
Context {C S K : Type}.
Notation Grp := (Group C S K).
Notation Repo := (GroupStateRepository S K).

(** The same epochs, their secrets apart. *)
Record same_epochs (r r' : Repo) : Prop := {
  se_group : repo_group_id r' = repo_group_id r;
  se_inserts : epoch_id <$> pending_inserts r' = epoch_id <$> pending_inserts r;
  se_storage : repo_storage r' = repo_storage r;
}.

#[export] Instance same_epochs_preorder : PreOrder same_epochs.
Proof. split; [done|]. intros a b c [] []. split; congruence. Qed.

(** The same epoch of the same member; the pending commit may be dropped. *)
Record stays (g g' : Grp) : Prop := {
  sy_context : st_context (g_state g') = st_context (g_state g);
  sy_tree : st_public_tree (g_state g') = st_public_tree (g_state g);
  sy_cache : same_ids (st_proposals (g_state g)) (st_proposals (g_state g'));
  sy_pending : g_pending_commit g' = g_pending_commit g \/ g_pending_commit g' = NoPendingCommit;
  sy_epochs : same_epochs (g_state_repo g) (g_state_repo g');
  sy_index : self_index (g_private_tree g') = self_index (g_private_tree g);
}.

#[export] Instance stays_preorder : PreOrder stays.
Proof.
  split; [intros g; split; try done; by left|].
  intros a b c [A1 A2 Hc1 Hp1 He1 A3] [B1 B2 Hc2 Hp2 He2 B3]. split; [congruence|congruence|by etrans| |by etrans|congruence].
  destruct Hp1, Hp2; [left|right|right|right]; congruence.
Qed.

Lemma stays_state g s' : st_context s' = st_context (g_state g) -> st_public_tree s' = st_public_tree (g_state g) ->
  same_ids (st_proposals (g_state g)) (st_proposals s') -> stays g (set_g_state s' g).
Proof. intros. split; try done. by left. Qed.

Lemma stays_repo g r' : same_epochs (g_state_repo g) r' -> stays g (set_g_state_repo r' g).
Proof. intros. split; try done. by left. Qed.

Lemma stays_secrets g e : stays g (set_g_epoch_secrets e g).
Proof. split; try done. by left. Qed.

Lemma stays_private g t : self_index t = self_index (g_private_tree g) -> stays g (set_g_private_tree t g).
Proof. split; try done. by left. Qed.

Lemma stays_signer g k : stays g (set_g_signer k g).
Proof. split; try done. by left. Qed.

Lemma stays_updates g u : stays g (set_g_pending_updates u g).
Proof. split; try done. by left. Qed.

Lemma stays_schedule g k : stays g (set_g_key_schedule k g).
Proof. split; try done. by left. Qed.

Lemma stays_no_pending g : stays g (set_g_pending_commit NoPendingCommit g).
Proof. split; try done. by right. Qed.

Lemma zoom_cache_keeps {A} (m : SM ProposalCache MlsError A) : keeps same_ids m -> keeps stays (zoom_g_state (S := S) (zoom_cache m)).
Proof.
  intros Hm. apply (keeps_zoom _ _ _ _ (fun s s' => st_context s' = st_context s /\ st_public_tree s' = st_public_tree s /\
    same_ids (st_proposals s) (st_proposals s'))).
  - by apply (keeps_zoom _ _ _ _ same_ids).
  - intros g s' (? & ? & ?). by apply stays_state.
Qed.

Lemma zoom_repo_keeps {A} (m : SM Repo MlsError A) : keeps same_epochs m -> keeps stays (zoom_g_repo m).
Proof. intros Hm. apply (keeps_zoom _ _ _ _ _ Hm). intros. by apply stays_repo. Qed.
End stays.

#[export] Hint Resolve stays_secrets stays_signer stays_updates stays_schedule stays_no_pending zoom_cache_keeps zoom_repo_keeps : keeps.

(** *** Messages *)

Section message_frames.
Context {cs : CipherSuiteProvider} {GS : Type} `{!GroupStateProvider GS} (Rel : GS -> GS -> Prop) `{!PreOrder Rel}.
Context (Hset : forall e g, Rel g (gsp_set_epoch_secrets e g)).

Lemma zoom_secret_tree_keeps {A} (m : SM SecretTree MlsError A) : keeps Rel (zoom_secret_tree m).
Proof using Hset. by apply (keeps_zoom _ _ _ _ (fun _ _ => True)). Qed.

Hint Resolve zoom_secret_tree_keeps : keeps.

Lemma open_keeps message : keeps Rel (open message).
Proof using Type*. unfold open, decryption_key. keeps. Qed.

Lemma seal_keeps coins content padding : keeps Rel (seal coins content padding).
Proof using Type*. unfold seal, next_encryption_key. keeps. Qed.
End message_frames.

Section frames.
Context {idp : IdentityProvider} {cs : CipherSuiteProvider} {C K P S R : Type} {cc : ClientConfig C K P S R}.
Context `{MapOrder, !GroupStateStorage S, !KeyPackageStorage K, !PreSharedKeyStorage P, !MlsRules R}.
Notation Grp := (Group C S K).
Notation stays := (stays (C := C) (S := S) (K := K)).

Lemma prior_epoch_keeps message : keeps (fun e e' => pe_context e' = pe_context e) (decrypt_in_prior_epoch message).
Proof using Type*.
  assert (PreOrder (fun e e' => pe_context e' = pe_context e)) by (split; [done|intros ??? -> ->; done]).
  unfold decrypt_in_prior_epoch. apply (keeps_bind _); [by apply (open_keeps _)|]. keeps.
Qed.

Lemma zoom_slot_keeps {A} s (m : SM PriorEpoch MlsError A) : keeps (fun e e' => pe_context e' = pe_context e) m ->
  keeps same_epochs (zoom_slot (S := S) (K := K) s m).
Proof using Type*.
  intros Hm r. unfold zoom_slot. destruct (slot_get s r) as [e|] eqn:Es; [|done]. specialize (Hm e).
  destruct (m e) as [x e']. simpl in *. destruct s as [i|i]; simpl in *; split; try done. cbn.
  apply zget_nat_inv in Es as (n & -> & Hn). rewrite zset_nth, list_fmap_insert. apply list_insert_id.
  rewrite list_lookup_fmap, Hn. simpl. unfold epoch_id. by rewrite Hm.
Qed.

Lemma get_epoch_mut_keeps pec id : keeps same_epochs (get_epoch_mut (S := S) (K := K) pec id).
Proof using Type*.
  unfold get_epoch_mut, epoch_from_storage. keeps; by split.
Qed.
Hint Resolve get_epoch_mut_keeps zoom_slot_keeps prior_epoch_keeps : keeps.

Lemma decrypt_keeps message : keeps stays (decrypt_incoming_ciphertext message).
Proof using Type*.
  assert (forall message, keeps stays (open message)) by (intros; apply (open_keeps _); intros; apply stays_secrets).
  unfold decrypt_incoming_ciphertext. keeps.
Qed.

Lemma format_for_wire_keeps coins content : keeps stays (format_for_wire (S := S) (K := K) coins content).
Proof using Type*.
  assert (forall coins c p, keeps stays (seal coins c p)) by (intros; apply (seal_keeps _); intros; apply stays_secrets).
  unfold format_for_wire, create_ciphertext. keeps.
Qed.
Hint Resolve format_for_wire_keeps decrypt_keeps : keeps.

Lemma insert_own_keeps d message s : keeps same_ids (insert_own d message s).
Proof using Type*. unfold insert_own. keeps; by split. Qed.
Hint Resolve insert_own_keeps : keeps.

Lemma proposal_message_keeps c1 c2 proposal ad : keeps stays (proposal_message (S := S) (K := K) c1 c2 proposal ad).
Proof using Type*. unfold proposal_message. keeps. Qed.

Lemma update_proposal_keeps c1 c2 signer id exts :
  keeps stays (update_proposal (S := S) (K := K) c1 c2 signer id exts).
Proof using Type*. unfold update_proposal. keeps. Qed.

Lemma encrypt_application_keeps c1 c2 message ad :
  keeps stays (encrypt_application_message (S := S) (K := K) c1 c2 message ad).
Proof using Type*. unfold encrypt_application_message. keeps. Qed.

Lemma clear_cache_keeps : keeps stays (clear_proposal_cache (S := S) (K := K)).
Proof using Type*. unfold clear_proposal_cache. apply zoom_cache_keeps. by intros c. Qed.

Lemma process_proposal_keeps content p cache : keeps stays (process_proposal (mp := group_processor) content p cache).
Proof using Type*.
  unfold process_proposal, zoom_group_state. keeps. by apply stays_state.
Qed.
End frames.

(** *** Private keys *)

Definition same_member (t t' : TreeKemPrivate) : Prop := self_index t' = self_index t.

#[export] Instance same_member_preorder : PreOrder same_member.
Proof. split; [done|]. unfold same_member. intros a b c. congruence. Qed.

Section private_frames.
Context {cs : CipherSuiteProvider}.

Lemma put_key_keeps i k : keeps same_member (put_key i k).
Proof. intros p. unfold put_key. by case_bool_decide. Qed.
Hint Resolve put_key_keeps : keeps.

Lemma forget_keys_keeps v items : keeps same_member (forget_blank_keys v items).
Proof. induction items as [|[i n] items IH]; simpl; keeps. Qed.

Lemma own_leaf_keeps k : keeps same_member (update_own_leaf k).
Proof. unfold update_own_leaf. keeps. done. Qed.

Definition same_key_member (s s' : KeyState) : Prop := same_member (ks_private s) (ks_private s').

#[export] Instance same_key_member_preorder : PreOrder same_key_member.
Proof. split; [done|]. unfold same_key_member. intros a b c ??. by etrans. Qed.

Lemma zoom_private_keeps {A} (m : SM TreeKemPrivate MlsError A) : keeps same_member m -> keeps same_key_member (zoom_private m).
Proof. intros Hm. by apply (keeps_zoom _ _ _ _ _ Hm). Qed.

Lemma zoom_gen_keeps {A} (m : SM PathSecretGenerator MlsError A) : keeps same_key_member (zoom_gen m).
Proof. by apply (keeps_zoom _ _ _ _ (fun _ _ => True)). Qed.
Hint Resolve zoom_private_keeps zoom_gen_keeps : keeps.

Lemma decap_loop_keeps coins items : keeps same_key_member (decap_loop coins items).
Proof. induction items as [|[i [n|]] items IH]; simpl; keeps. Qed.
Hint Resolve decap_loop_keeps : keeps.

Lemma decap_keeps coins t sender path added context : keeps same_member (decap coins t sender path added context).
Proof.
  intros p. unfold decap. destruct (decap_secret t p sender path added context) as [[i s]| |]; [|done..].
  match goal with |- context [?m (mk_key_state ?q ?g)] => assert (keeps same_key_member m) as Hk by keeps; specialize (Hk (mk_key_state q g));
    destruct (m (mk_key_state q g)) as [r s'] end.
  exact Hk.
Qed.
End private_frames.

(** ** Commits *)

(** The epoch [e] is stored after the others. *)
Record stored_after {S K} (e : Z) (r r' : GroupStateRepository S K) : Prop := {
  sa_group : repo_group_id r' = repo_group_id r;
  sa_inserts : epoch_id <$> pending_inserts r' = (epoch_id <$> pending_inserts r) ++ [e];
  sa_storage : repo_storage r' = repo_storage r;
}.

(** The next epoch of the same group, with nothing pending. *)
Record advances {C S K} `{CipherSuiteProvider} (g g' : Group C S K) : Prop := {
  ad_context : next_context (st_context (g_state g)) (st_context (g_state g'));
  ad_hash : hash_matches (st_context (g_state g')) (st_public_tree (g_state g'));
  ad_cache : same_ids (st_proposals (g_state g)) (st_proposals (g_state g'));
  ad_pending : g_pending_commit g' = NoPendingCommit;
  ad_epochs : stored_after (epoch (st_context (g_state g))) (g_state_repo g) (g_state_repo g');
  ad_index : self_index (g_private_tree g') = self_index (g_private_tree g);
}.

Lemma stays_advances {C S K} `{CipherSuiteProvider} (g g' g'' : Group C S K) : stays g g' -> advances g' g'' -> advances g g''.
Proof.
  intros [A1 A2 A3 A4 [A5 A6 A7] A8] [B1 B2 B3 B4 [B5 B6 B7] B8]. rewrite A1 in *. split; try done.
  - by etrans.
  - split; congruence.
  - congruence.
Qed.

Section commit_frames.
Context {idp : IdentityProvider} {cs : CipherSuiteProvider} {C K P S R : Type} {cc : ClientConfig C K P S R}.
Context `{MapOrder, !GroupStateStorage S, !KeyPackageStorage K, !PreSharedKeyStorage P, !MlsRules R}.
Notation Grp := (Group C S K).
Notation stays := (stays (C := C) (S := S) (K := K)).

Lemma check_commit_next (g : Grp) content time c :
  check_commit (mp := group_processor) g content time = Ok c ->
  next_context (st_context (g_state g)) (pv_group_context (ch_provisional c)).
Proof using Type*.
  unfold check_commit. intros E. apply bind_Ok in E as (u & _ & E). apply bind_Ok in E as ([i h] & _ & E).
  apply bind_Ok in E as (co & _ & E). apply bind_Ok in E as (b & _ & E). apply bind_Ok in E as (pv & Epv & E).
  apply bind_Ok in E as (s & _ & E). apply bind_Ok in E as (u2 & _ & E). apply bind_Ok in E as (p & _ & [= <-]).
  by eapply apply_resolved_next.
Qed.

Lemma take_effect_runs self_removed pv (g : Grp) :
  runs (take_commit_effect (mp := group_processor) self_removed pv) g
    (fun r g' => stays g g' /\ pv_group_context r.2 = pv_group_context pv) (stays g).
Proof using Type*.
  unfold take_commit_effect. apply runs_get_bind.
  destruct (last (reinitializations (pv_applied_proposals pv))) as [r|]; [|done].
  apply (runs_bind _ _ _ (fun _ => stays g)).
  - apply keeps_runs. intros g'. by apply stays_state.
  - intros [] g' Hg. done.
Qed.

Lemma provisional_private_index (g : Grp) pv t k : provisional_private_tree g pv = Ok (t, k) -> same_member (g_private_tree g) t.
Proof using Type*.
  unfold provisional_private_tree, sm_exec. intros E. apply bind_Ok in E as (t1 & E1 & E).
  assert (same_member (g_private_tree g) t1) as H1.
  { destruct (forget_blank_keys _ _ _) as [[] ?] eqn:Ef; try done. injection E1 as ->.
    apply (keeps_run same_member _ _ _ _ (forget_keys_keeps _ _)) in Ef. exact Ef. }
  destruct (own_update _ _) as [p|].
  - apply bind_Ok in E as (key & _ & E). apply bind_Ok in E as (t2 & E2 & [= <- _]). etrans; [exact H1|].
    destruct (update_own_leaf _ _) as [[] ?] eqn:Ef; try done. injection E2 as ->.
    by apply (keeps_run same_member _ _ _ _ (own_leaf_keeps _)) in Ef.
  - by injection E as <- _.
Qed.

(** A pending commit of an older version is of the member itself. *)
Definition own_legacy (g : Grp) : Prop :=
  forall l, g_pending_commit g = LegacyPending l -> same_member (g_private_tree g) (lpc_private_tree l).

(** The secrets an update path gives are of the same member; the private keys
    of the group are replaced only by [update_key_schedule]. *)
Lemma apply_path_runs coins sender path pv (g : Grp) :
  own_legacy g ->
  runs (group_apply_update_path coins sender path pv) g
    (fun r g' => stays g g' /\ same_context (pv_group_context pv) (pv_group_context r.2) /\
       forall t s, r.1 = Some (t, s) -> same_member (g_private_tree g) t) (stays g).
Proof using Type*.
  intros Hlegacy. unfold group_apply_update_path. apply runs_get_bind. apply runs_lift_bind; [done|]. intros [t k] Et.
  apply provisional_private_index in Et.
  apply (runs_bind _ _ _ (fun _ => stays g)); [apply keeps_runs; keeps|]. intros [] g1 Hg1.
  apply runs_lift_bind; [done|]. intros [[] pv1] E1. apply on_pv_tree_context in E1 as (C1 & _ & _).
  destruct (_ =? _).
  - destruct (g_pending_commit g) as [|l|] eqn:Ep; [done| |done]. apply runs_ret. split; [done|]. simpl. rewrite C1.
    split; [done|]. intros t' s' [= <- <-]. by apply Hlegacy.
  - apply runs_lift_bind; [done|]. intros [h pv2] E2. apply on_pv_tree_context in E2 as (C2 & _ & _).
    apply runs_lift_bind; [done|]. intros b _. apply runs_lift_bind; [done|]. intros [s t'] Ed.
    apply runs_ret. split; [done|]. simpl. rewrite C2, C1. split; [by split|]. intros t2 s2 [= <- <-].
    destruct (decap _ _ _ _ _ _ t) as [[] t3] eqn:Ed3; try done. injection Ed as -> ->. etrans; [exact Et|].
    by apply (keeps_run same_member _ _ _ _ (decap_keeps _ _ _ _ _ _)) in Ed3.
Qed.

Lemma insert_past_runs (g : Grp) : runs insert_past_epoch g
  (fun _ g' => exists r', g' = set_g_state_repo r' g /\ stored_after (epoch (st_context (g_state g))) (g_state_repo g) r')
  (fun g' => g' = g).
Proof using Type*.
  unfold insert_past_epoch. apply runs_get_bind. apply runs_zoom. unfold repo_insert. apply runs_get_bind.
  assert (set_g_state_repo (g_state_repo g) g = g) as Hg by by destruct g.
  destruct (negb (bool_decide _)); [done|]. apply runs_lift_bind; [done|]. intros m _.
  assert (forall r : GroupStateRepository S K, stored_after (epoch (st_context (g_state g))) r
    (set_pending_inserts (pending_inserts r ++ [past_epoch g]) r)) as Hs.
  { intros r. split; try done. cbn. by rewrite fmap_app. }
  destruct m as [id|]; [destruct (negb _); [done|]|]; apply runs_modify; eexists; (split; [done|apply Hs]).
Qed.

Lemma key_schedule_runs secrets interim tag pv (g : Grp) :
  next_context (st_context (g_state g)) (pv_group_context pv) -> hash_matches (pv_group_context pv) (pv_public_tree pv) ->
  (forall t s, secrets = Some (t, s) -> same_member (g_private_tree g) t) ->
  runs (group_update_key_schedule secrets interim tag pv) g (fun _ g' => advances g g') (stays g).
Proof using Type*.
  intros Hn Hh Hs. unfold group_update_key_schedule.
  apply (runs_bind _ _ _ (fun _ g1 => g1 = g \/ exists t, g1 = set_g_private_tree t g /\ same_member (g_private_tree g) t)).
  { destruct secrets as [[t s]|]; [|by left]. apply runs_modify_bind, runs_ret. right. exists t. naive_solver. }
  intros secret g1 Hg1.
  assert (stays g g1) as Hst by (destruct Hg1 as [->|(t & -> & Ht)]; [done|by apply stays_private]).
  assert (g_state g1 = g_state g) as Es by by destruct Hg1 as [->|(t & -> & _)].
  rewrite <- Es in Hn. apply runs_get_bind. apply runs_lift_bind; [done|]. intros [r tag'] _.
  apply runs_lift_bind; [done|]. intros [] _.
  apply (runs_bind _ _ _ (fun _ g2 => exists r', g2 = set_g_state_repo r' g1 /\
    stored_after (epoch (st_context (g_state g1))) (g_state_repo g1) r')).
  { eapply runs_mono; [apply insert_past_runs|done|by intros g2 ->]. }
  intros [] g2 (r' & -> & Ha). repeat apply runs_modify_bind.
  eapply stays_advances; [exact Hst|]. by split.
Qed.

Lemma process_commit_runs coins content time (g : Grp) :
  own_legacy g ->
  runs (process_commit (mp := group_processor) coins content time) g
    (fun _ g' => stays g g' \/ advances g g') (stays g).
Proof using Type*.
  intros Hl. unfold process_commit. apply runs_get_bind. apply runs_lift_bind; [done|]. intros c Hc.
  apply check_commit_next in Hc.
  apply (runs_bind _ _ _ (fun r g1 => g_pending_commit g1 = g_pending_commit g /\ stays g g1 /\ pv_group_context r.2 = pv_group_context (ch_provisional c))).
  { unfold take_commit_effect. apply runs_get_bind. destruct (last _) as [r|]; [|done].
    apply runs_modify_bind, runs_ret. split_and!; [done|by apply stays_state|done]. }
  intros [effect pv] g1 (Ep1 & Hg1 & Cpv). simpl in Cpv. rewrite <- Cpv in Hc.
  apply (runs_bind _ _ _ (fun r g2 => stays g g2 /\ same_context (pv_group_context pv) (pv_group_context r.2) /\
    forall t s, r.1 = Some (t, s) -> same_member (g_private_tree g) t)).
  { destruct (ch_update_path c) as [path|]; [destruct (bool_decide _)|]; [done| |done].
    eapply runs_mono; [apply apply_path_runs| |].
    - intros l E. unfold same_member. rewrite (sy_index _ _ Hg1). apply Hl. congruence.
    - intros r g2 (Hg2 & Hs & Hm). split; [by etrans|]. split; [done|]. intros t s Ht. specialize (Hm t s Ht).
      unfold same_member in *. rewrite Hm. apply Hg1.
    - intros g2 Hg2. by etrans. }
  intros [secrets pv2] g2 (Hg2 & Hs & Hm). simpl in Hs, Hm. apply runs_lift_bind; [done|]. intros pv3 E3.
  apply finish_context_spec in E3 as [Hs3 Hh].
  assert (next_context (st_context (g_state g2)) (pv_group_context pv3)) as Hn.
  { rewrite (sy_context _ _ Hg2). eapply next_same; [|exact Hs3]. by eapply next_same. }
  destruct (confirmation_tag (ac_auth content)) as [tag|]; [|by apply runs_lift].
  apply (runs_bind _ _ _ (fun _ g' => stays g g' \/ advances g g')); [|intros [] g' Hg'; exact Hg'].
  destruct (bool_decide _); [by left|].
  eapply runs_mono; [apply key_schedule_runs; [done|done|]| |].
  - intros t s Ht. specialize (Hm t s Ht). unfold same_member in *. rewrite Hm. symmetry. apply Hg2.
  - intros [] g' Hg'. right. by eapply stays_advances.
  - intros g' Hg'. by etrans.
Qed.
End commit_frames.

(** ** The epochs of a group, over any storage *)

(** The epochs [ids] follow the epoch [o], up to the one before [e]. *)
Definition epochs_upto (o : option Z) (ids : list Z) (e : Z) : Prop :=
  (forall (i : nat) id, ids !! i = Some id -> id = e - zlen ids + Z.of_nat i) /\
  (forall m, o = Some m -> m = e - zlen ids - 1).

Lemma epochs_snoc o ids e : epochs_upto o ids e -> epochs_upto o (ids ++ [e]) (e + 1).
Proof.
  intros [Hi Ho]. assert (zlen (ids ++ [e]) = zlen ids + 1) as Hl by (rewrite zlen_app; done).
  split; [|intros m Hm; rewrite (Ho m Hm); lia]. intros i id Hid.
  apply lookup_app_Some in Hid as [Hid|[Hle Hid]]; [rewrite (Hi _ _ Hid); lia|].
  apply list_lookup_singleton_Some in Hid as [Hz <-]. unfold zlen in *. lia.
Qed.

(** The epoch that is inserted next. *)
Lemma epochs_last o ids e id : epochs_upto o ids e -> (match last ids with Some i => Some i | None => o end) = Some id -> id = e - 1.
Proof.
  intros [Hi Ho] Hid. destruct (last ids) as [i|] eqn:El.
  - injection Hid as ->. rewrite last_lookup in El. pose proof (lookup_lt_Some _ _ _ El). rewrite (Hi _ _ El).
    unfold zlen. destruct ids; simpl in *; lia.
  - apply last_None in El as ->. rewrite (Ho _ Hid). unfold zlen. simpl. lia.
Qed.

(** What a storage promises, of a group it keeps properly ([st_ok]).  It knows the
    last epoch it has stored ([st_last]); asked for it, it gives it or fails.  A
    write is a transaction: one that fails changes nothing, and one that succeeds
    stores the epochs, if it keeps any. *)
Class GroupStateStorageLaws (S : Type) `{!GroupStateStorage S} := {
  st_ok : S -> bytes -> Prop;
  st_last : S -> bytes -> option Z;
  st_max_law s gid : st_ok s gid -> st_max_epoch_id s gid = Ok (st_last s gid) \/ exists e, st_max_epoch_id s gid = Err e;
  st_write_law s gid data ins upd e r s' :
    st_ok s gid -> epochs_upto (st_last s gid) (rec_id <$> ins) e ->
    st_write (mk_stored_state gid data) ins upd s = (r, s') -> st_ok s' gid /\
    if is_ok r then epochs_upto (st_last s' gid) [] e else st_last s' gid = st_last s gid;
}.

(** *** The storage in memory *)

Definition ids_from (base : Z) (l : list EpochRecord) : Prop :=
  forall (i : nat) rec, l !! i = Some rec -> rec_id rec = base + Z.of_nat i.

Lemma ids_insert base ins d : ids_from (base + zlen (epoch_data d)) ins -> ids_from base (epoch_data d) ->
  ids_from base (epoch_data (foldl (fun d e => insert_epoch e d) d ins)).
Proof.
  intros Hi Hd. destruct (foldl_insert_data ins d) as [-> _]. intros i rec Hrec.
  apply lookup_app_Some in Hrec as [Hrec|[Hle Hrec]]; [by apply Hd|]. rewrite (Hi _ _ Hrec). unfold zlen. lia.
Qed.

Lemma ids_update base upd d : ids_from base (epoch_data d) ->
  ids_from base (epoch_data (foldl (fun d e => update_epoch e d) d upd)) /\
  length (epoch_data (foldl (fun d e => update_epoch e d) d upd)) = length (epoch_data d).
Proof.
  revert d. induction upd as [|u upd IH]; intros d Hd; [done|]. simpl.
  assert (ids_from base (epoch_data (update_epoch u d)) /\ length (epoch_data (update_epoch u d)) = length (epoch_data d)) as [Hu Hl].
  { unfold update_epoch, get_epoch_data_index. destruct (epoch_data d) as [|r0 l] eqn:Ed; [by rewrite Ed|].
    destruct (Z.leb_spec (rec_id r0) (rec_id u)) as [Hle|]; [|by rewrite Ed].
    cbn [epoch_data]. pose proof (Hd 0%nat r0 eq_refl) as H0. unfold zset. destruct (Z.ltb_spec (rec_id u - rec_id r0) 0); [lia|].
    split; [|by rewrite length_insert]. intros i rec Hrec.
    apply list_lookup_insert_Some in Hrec as [(<- & <- & _)|(_ & Hrec)]; [lia|by apply Hd]. }
  destruct (IH _ Hu) as [IH1 IH2]. split; [done|]. congruence.
Qed.

Lemma ids_trim base n l : 0 <= n -> ids_from base l -> ids_from (base + Z.of_nat (length l - Z.to_nat n)) (trim_loop n l).
Proof. intros Hn Hl. rewrite trim_drop by done. intros i rec Hr. rewrite lookup_drop in Hr. rewrite (Hl _ _ Hr). lia. Qed.

Lemma ids_last base l rec : ids_from base l -> last l = Some rec -> rec_id rec = base + zlen l - 1.
Proof.
  intros Hl Hr. rewrite last_lookup in Hr. rewrite (Hl _ _ Hr). pose proof (lookup_lt_Some _ _ _ Hr). unfold zlen. lia.
Qed.

Lemma trim_last n l : 0 < n -> last (trim_loop n l) = last l.
Proof.
  intros Hn. rewrite trim_drop by lia. destruct (decide (l = [])) as [->|Hne]; [by rewrite drop_nil|].
  rewrite !last_lookup, lookup_drop, length_drop. f_equal. assert (length l <> 0%nat) by by destruct l. lia.
Qed.

#[export] Program Instance memory_storage_laws : GroupStateStorageLaws InMemoryGroupStateStorage := {|
  st_ok s gid := 0 < max_epoch_retention s /\ exists base, ids_from base (stored s gid);
  st_last s gid := rec_id <$> last (stored s gid);
|}.
Next Obligation.
  intros s gid _. left. unfold st_max_epoch_id, memory_group_storage, stored. by destruct (inner s !! gid).
Qed.
Next Obligation.
  intros s gid data ins upd e r s' [Hret (base & Hb)] [Hi Hm] [= <- <-].
  set (d0 := match inner s !! gid with Some d => mk_group_data data (epoch_data d) | None => group_data_new data end).
  assert (epoch_data d0 = stored s gid) as Hd0 by (unfold d0, stored; by destruct (inner s !! gid)).
  rewrite <- Hd0 in Hm.
  assert (zlen (rec_id <$> ins) = zlen ins) as Hzl by (unfold zlen; by rewrite length_fmap). rewrite Hzl in *.
  assert (exists b, ids_from b (epoch_data d0) /\ b + zlen (epoch_data d0) = e - zlen ins) as (b & Hb0 & Hbe).
  { rewrite <- Hd0 in Hb. destruct (last (epoch_data d0)) as [rec|] eqn:El.
    - exists base. split; [done|]. pose proof (ids_last _ _ _ Hb El). specialize (Hm _ eq_refl). lia.
    - apply last_None in El. rewrite El. exists (e - zlen ins). split; [by intros i rec|unfold zlen; simpl; lia]. }
  assert (ids_from (b + zlen (epoch_data d0)) ins) as Hins.
  { intros i rec Hr. rewrite Hbe. apply Hi. by rewrite list_lookup_fmap, Hr. }
  pose proof (ids_insert _ _ _ Hins Hb0) as H1. set (d1 := foldl (fun d e => insert_epoch e d) d0 ins) in *.
  destruct (ids_update _ upd _ H1) as [H2 Hl2]. set (d2 := foldl (fun d e => update_epoch e d) d1 upd) in *.
  assert (zlen (epoch_data d2) = zlen (epoch_data d0) + zlen ins) as Hlen.
  { unfold zlen. rewrite Hl2. unfold d1. destruct (foldl_insert_data ins d0) as [-> _]. rewrite length_app. lia. }
  assert (inner (memory_write (mk_stored_state gid data) ins upd s) !! gid = Some (trim_epochs (max_epoch_retention s) d2)) as Es
    by apply lookup_insert_eq.
  split.
  - split; [done|]. eexists. unfold stored. rewrite Es. apply ids_trim; [lia|exact H2].
  - cbn [is_ok]. unfold stored. rewrite Es. cbn [epoch_data trim_epochs].
    rewrite trim_last by done. split; [done|]. intros m Em.
    destruct (last (epoch_data d2)) as [rec|] eqn:El; [|done]. injection Em as <-. rewrite (ids_last _ _ _ H2 El).
    unfold zlen at 2. simpl. lia.
Qed.

(** ** The invariant *)

(** Contexts of one group, whatever the epoch. *)
Record same_group (c c' : GroupContext) : Prop := {
  sg_version : protocol_version c' = protocol_version c;
  sg_suite : gc_cipher_suite c' = gc_cipher_suite c;
  sg_group : group_id c' = group_id c;
}.

#[export] Instance same_group_preorder : PreOrder same_group.
Proof. split; [done|]. intros a b c [] []. split; congruence. Qed.

#[export] Instance same_group_symmetric : Symmetric same_group.
Proof. intros a b []. by split. Qed.

Lemma next_group c c' : next_context c c' -> same_group c c'.
Proof. by intros []. Qed.

Section invariant.
Context {idp : IdentityProvider} {cs : CipherSuiteProvider} {C K P S R : Type} {cc : ClientConfig C K P S R}.
Context `{MapOrder, !MapOrderLaws, !GroupStateStorage S, !GroupStateStorageLaws S, !KeyPackageStorage K}.
Context `{!PreSharedKeyStorage P, !MlsRules R}.
Notation Grp := (Group C S K).
Notation stays := (stays (C := C) (S := S) (K := K)).
Notation Repo := (GroupStateRepository S K).

(** The repository is of the group [gid] and its last epoch is the one before
    [e]. *)
Record repo_at (gid : bytes) (e : Z) (r : Repo) : Prop := {
  ra_group : repo_group_id r = gid;
  ra_storage : st_ok (repo_storage r) gid;
  ra_epochs : epochs_upto (st_last (repo_storage r) gid) (epoch_id <$> pending_inserts r) e;
}.

(** What a commit of a member prepares: some epoch of its group. *)
Record prepared (g : Grp) (p : PendingCommit) : Prop := {
  pr_context : same_group (st_context (g_state g)) (st_context (pnd_state p));
  pr_hash : hash_matches (st_context (pnd_state p)) (st_public_tree (pnd_state p));
  pr_cache : same_ids (st_proposals (g_state g)) (st_proposals (pnd_state p));
  pr_index : same_member (g_private_tree g) (pnd_private_tree p);
}.

(** It leads to the next epoch. *)
Record leads_to (g : Grp) (p : PendingCommit) : Prop := {
  lt_prepared : prepared g p;
  lt_epoch : epoch (st_context (pnd_state p)) = wrap 64 (epoch (st_context (g_state g)) + 1);
}.

(** The secrets of a commit decode to one that satisfies [Q]. *)
Definition secrets_of (Q : PendingCommit -> Prop) (s : PendingCommitSnapshot) : Prop :=
  exists b p, s = PendingBytes b /\ mls_decode pending_commit_codec b = Ok (p, []) /\ Q p.

(** The pending commit of the group, if there is one. *)
Definition pending_of (Q : PendingCommit -> Prop) (g : Grp) : Prop :=
  match g_pending_commit g with
  | NoPendingCommit => True
  | LegacyPending l => same_member (g_private_tree g) (lpc_private_tree l)
  | PendingBytes b => secrets_of Q (PendingBytes b)
  end.

(** What holds of a group however it is used. *)
Record group_sound (g : Grp) : Prop := {
  gs_cache_version : pc_protocol_version (st_proposals (g_state g)) = protocol_version (st_context (g_state g));
  gs_cache_group : pc_group_id (st_proposals (g_state g)) = group_id (st_context (g_state g));
  gs_hash : hash_matches (st_context (g_state g)) (st_public_tree (g_state g));
  gs_repo : repo_group_id (g_state_repo g) = group_id (st_context (g_state g));
  gs_pending : pending_of (prepared g) g;
}.

(** What holds of one that is used with care. *)
Record group_ok (g : Grp) : Prop := {
  ok_sound : group_sound g;
  ok_repo : repo_at (group_id (st_context (g_state g))) (epoch (st_context (g_state g))) (g_state_repo g);
  ok_pending : pending_of (leads_to g) g;
}.

Lemma secrets_of_mono (Q Q' : PendingCommit -> Prop) s : (forall p, Q p -> Q' p) -> secrets_of Q s -> secrets_of Q' s.
Proof using Type. intros HQ (b & p & -> & Hd & Hq). exists b, p. auto. Qed.

Lemma prepared_same g g' p : same_group (st_context (g_state g)) (st_context (g_state g')) ->
  same_ids (st_proposals (g_state g)) (st_proposals (g_state g')) -> same_member (g_private_tree g) (g_private_tree g') ->
  prepared g p -> prepared g' p.
Proof using Type.
  intros Hc [Hi Hi'] Hm [B1 B2 [B3 B3'] B4]. split; [etrans; [symmetry|]; done|done|split; congruence|].
  unfold same_member in *. congruence.
Qed.

Lemma leads_to_stays g g' p : stays g g' -> leads_to g p -> leads_to g' p.
Proof using Type.
  intros [A1 A2 A3 A4 A5 A6] [Hp He]. split; [apply (prepared_same g); [by rewrite A1|done|done|done]|by rewrite A1].
Qed.

Lemma pending_of_same (Q Q' : PendingCommit -> Prop) g g' : (forall p, Q p -> Q' p) ->
  g_pending_commit g' = g_pending_commit g \/ g_pending_commit g' = NoPendingCommit ->
  same_member (g_private_tree g) (g_private_tree g') -> pending_of Q g -> pending_of Q' g'.
Proof using Type.
  intros HQ Hp Hm Hs. unfold pending_of in *. destruct Hp as [-> | ->]; [|done].
  destruct (g_pending_commit g) as [|l|b]; [done| |by eapply secrets_of_mono].
  unfold same_member in *. congruence.
Qed.

Lemma stays_sound g g' : stays g g' -> group_sound g -> group_sound g'.
Proof using Type.
  intros Hst [H1 H2 H3 H4 H5]. pose proof Hst as [A1 A2 [A3 A3'] A4 [A5 A6 A7] A8]. split; [congruence..|].
  eapply pending_of_same; [|done|done|exact H5]. intros p. apply prepared_same; [by rewrite A1|done|done].
Qed.

Lemma stays_ok g g' : stays g g' -> group_ok g -> group_ok g'.
Proof using Type.
  intros Hst [Hs [H4 H5 H6] H7]. pose proof Hst as [A1 A2 [A3 A3'] A4 [A5 A6 A7] A8]. split; [by eapply stays_sound| |].
  - rewrite A1. split; [congruence|congruence|]. by rewrite A6, A7.
  - eapply pending_of_same; [|done|done|exact H7]. intros p. by apply leads_to_stays.
Qed.

Lemma advances_sound g g' : advances g g' -> group_sound g -> group_sound g'.
Proof using Type.
  intros [[N1 N2 N3 N4] A2 [A3 A3'] A4 [A5 A6 A7] A8] [H1 H2 H3 H4 H5]. split; [congruence|congruence|done|congruence|].
  unfold pending_of. by rewrite A4.
Qed.

Lemma advances_ok g g' : epoch (st_context (g_state g)) + 1 < 2 ^ 64 -> 0 <= epoch (st_context (g_state g)) ->
  advances g g' -> group_ok g -> group_ok g'.
Proof using Type.
  intros Hb Hz Ha [Hs [H4 H5 H6] H7]. split; [by eapply advances_sound| |].
  - destruct Ha as [[N1 N2 N3 N4] A2 _ A4 [A5 A6 A7] A8]. rewrite wrap_small in N4 by (unfold in_uint; lia).
    rewrite N3, N4. split; [congruence|congruence|]. rewrite A6, A7. by apply epochs_snoc.
  - unfold pending_of. by rewrite (ad_pending _ _ Ha).
Qed.

(** In the invariant, the current epoch can be stored, if the storage answers
    when it is asked. *)
Definition storage_answers (r : Repo) : Prop :=
  pending_inserts r = [] -> is_ok (st_max_epoch_id (repo_storage r) (repo_group_id r)) = true.

Lemma find_max_answers gid e (r : Repo) : repo_at gid e r -> storage_answers r ->
  find_max_id r = Ok (match last (epoch_id <$> pending_inserts r) with Some i => Some i | None => st_last (repo_storage r) gid end).
Proof using Type.
  intros [<- Hst _] Ha. unfold find_max_id. rewrite fmap_last. destruct (last (pending_inserts r)) as [x|] eqn:El; [done|].
  apply last_None, Ha in El. destruct (st_max_law _ _ Hst) as [E|[er E]]; rewrite E in *; done.
Qed.

Lemma insert_past_ok (g : Grp) : group_ok g -> storage_answers (g_state_repo g) -> 0 <= epoch (st_context (g_state g)) < 2 ^ 64 ->
  insert_past_epoch g = (Ok tt, set_g_state_repo (set_pending_inserts (pending_inserts (g_state_repo g) ++ [past_epoch g]) (g_state_repo g)) g).
Proof using Type.
  intros [_ Hr _] Ha Hz. unfold insert_past_epoch. rewrite sm_get_run. unfold zoom_g_repo, sm_zoom, repo_insert.
  rewrite sm_get_run. rewrite bool_decide_true by (by rewrite (ra_group _ _ _ Hr)). cbn [negb].
  rewrite (sm_lift_run _ _ _ _ (find_max_answers _ _ _ Hr Ha)).
  destruct (match last _ with Some i => Some i | None => _ end) as [id|] eqn:El; [|done].
  pose proof (epochs_last _ _ _ _ (ra_epochs _ _ _ Hr) El) as ->.
  assert (epoch_id (past_epoch g) = epoch (st_context (g_state g))) as Hid by done. rewrite Hid.
  replace (epoch (st_context (g_state g)) - 1 + 1) with (epoch (st_context (g_state g))) by lia.
  rewrite wrap_small, Z.eqb_refl by done. done.
Qed.

(** If it does not, nothing happens. *)
Lemma insert_past_fails (g : Grp) e : repo_group_id (g_state_repo g) = group_id (st_context (g_state g)) ->
  pending_inserts (g_state_repo g) = [] ->
  st_max_epoch_id (repo_storage (g_state_repo g)) (repo_group_id (g_state_repo g)) = Err e ->
  insert_past_epoch g = (Err (GroupStorageError e), g).
Proof using Type.
  intros Hg Hn He. unfold insert_past_epoch. rewrite sm_get_run. unfold zoom_g_repo, sm_zoom, repo_insert.
  rewrite sm_get_run. rewrite bool_decide_true by done. cbn [negb].
  assert (find_max_id (g_state_repo g) = Err (GroupStorageError e)) as -> by (unfold find_max_id; rewrite Hn; cbn; by rewrite He).
  cbn. by destruct g.
Qed.

(** *** Applying a commit of the own *)

(** The state of the group once the commit is applied. *)
Definition installed (p : PendingCommit) (r : Repo) (g : Grp) : Grp :=
  set_g_signer (pnd_signer p) (set_g_key_schedule (pnd_key_schedule p) (set_g_private_tree (pnd_private_tree p)
    (set_g_epoch_secrets (pnd_epoch_secrets p) (set_g_state (pnd_state p) (set_g_state_repo r g))))).

(** [g'] is [g] with the commit of the secrets [s] applied. *)
Definition applies (s : PendingCommitSnapshot) (g g' : Grp) : Prop :=
  exists b p rest r, s = PendingBytes b /\ mls_decode pending_commit_codec b = Ok (p, rest) /\
    stored_after (epoch (st_context (g_state g))) (g_state_repo g) r /\ g' = installed p r g.

Lemma apply_detached_runs s (g : Grp) : runs (apply_detached_commit s) g (fun _ g' => applies s g g') (fun g' => g' = g).
Proof using Type*.
  unfold apply_detached_commit. apply runs_lift_bind; [done|]. intros p Hp. destruct s as [|l|b]; [done|done|].
  destruct (mls_decode pending_commit_codec b) as [[p' rest]| |] eqn:Ed; [|done..]. injection Hp as ->.
  eapply runs_bind; [apply insert_past_runs|]. intros [] g1 (r & -> & Hr). repeat apply runs_modify_bind. apply runs_ret.
  by exists b, p, rest, r.
Qed.

Lemma applies_prepared s (g g' : Grp) : secrets_of (prepared g) s -> group_sound g -> applies s g g' ->
  group_sound g' /\ same_group (st_context (g_state g)) (st_context (g_state g')) /\
  same_ids (st_proposals (g_state g)) (st_proposals (g_state g')) /\ same_member (g_private_tree g) (g_private_tree g').
Proof using Type.
  intros (b & p & -> & Hd & Hp) [H1 H2 H3 H4 H5] (b' & p' & rest & r & [= <-] & Hd' & Hr & ->).
  rewrite Hd in Hd'. injection Hd' as <- <-. pose proof Hp as [[P1 P2 P3] P4 [P5 P6] P7]. destruct Hr as [R1 R2 R3].
  split; [|by split_and!]. split; cbn; [congruence|congruence|done|congruence|].
  apply (pending_of_same (prepared g) _ g); [|by left|exact P7|exact H5]. intros q. apply prepared_same; [apply Hp|apply Hp|exact P7].
Qed.

Lemma applies_next s (g g' : Grp) : secrets_of (leads_to g) s -> g_pending_commit g = NoPendingCommit -> applies s g g' -> advances g g'.
Proof using Type.
  intros (b & p & -> & Hd & [[[P1 P2 P3] P4 P5 P7] He]) Hn (b' & p' & rest & r & [= <-] & Hd' & Hr & ->).
  rewrite Hd in Hd'. injection Hd' as <- <-. by split.
Qed.

(** With the pending commit. *)
Lemma apply_pending_runs (g : Grp) : runs apply_pending_commit g
  (fun _ g' => applies (g_pending_commit g) (clear_pending_commit g) g') (fun g' => g' = clear_pending_commit g).
Proof using Type*. unfold apply_pending_commit. apply runs_get_bind, runs_modify_bind, apply_detached_runs. Qed.

Lemma apply_pending_ok (g : Grp) b : group_ok g -> storage_answers (g_state_repo g) ->
  0 <= epoch (st_context (g_state g)) -> epoch (st_context (g_state g)) + 1 < 2 ^ 64 ->
  g_pending_commit g = PendingBytes b ->
  exists p r, mls_decode pending_commit_codec b = Ok (p, []) /\ leads_to g p /\
    stored_after (epoch (st_context (g_state g))) (g_state_repo g) r /\
    apply_pending_commit g = (Ok (pnd_output p), installed p r (clear_pending_commit g)).
Proof using Type.
  intros Hok Ha Hz Hb Ep. pose proof (ok_pending _ Hok) as Hp. unfold pending_of in Hp. rewrite Ep in Hp.
  destruct Hp as (b' & p & [= <-] & Hd & Hl). unfold apply_pending_commit. rewrite sm_get_run, sm_modify_run, Ep. unfold apply_detached_commit.
  rewrite (sm_lift_run _ _ _ p) by (by rewrite Hd).
  assert (group_ok (clear_pending_commit g)) as Hok0 by (eapply stays_ok; [apply stays_no_pending|done]).
  rewrite (sm_bind_run _ _ _ _ _ (insert_past_ok (clear_pending_commit g) Hok0 Ha ltac:(cbn; lia))). rewrite !sm_modify_run.
  eexists p, _. split; [done|]. split; [done|]. split; [|reflexivity]. split; try done. cbn. by rewrite fmap_app.
Qed.

Lemma apply_pending_fails (g : Grp) b e : group_ok g -> g_pending_commit g = PendingBytes b ->
  pending_inserts (g_state_repo g) = [] ->
  st_max_epoch_id (repo_storage (g_state_repo g)) (repo_group_id (g_state_repo g)) = Err e ->
  apply_pending_commit g = (Err (GroupStorageError e), clear_pending_commit g).
Proof using Type.
  intros Hok Ep Hn He. pose proof (ok_pending _ Hok) as Hp. unfold pending_of in Hp. rewrite Ep in Hp.
  destruct Hp as (b' & p & [= <-] & Hd & Hl). unfold apply_pending_commit. rewrite sm_get_run, sm_modify_run, Ep. unfold apply_detached_commit.
  rewrite (sm_lift_run _ _ _ p) by (by rewrite Hd).
  pose proof (insert_past_fails (clear_pending_commit g) e (gs_repo _ (ok_sound _ Hok)) Hn He) as Hf.
  unfold mbind, sm_bind. change (set_g_pending_commit NoPendingCommit g) with (clear_pending_commit g). by rewrite Hf.
Qed.
End invariant.

(** ** Every operation keeps the invariant *)

Section operations.
Context {idp : IdentityProvider} {cs : CipherSuiteProvider} {C K P S R : Type} {cc : ClientConfig C K P S R}.
Context `{MapOrder, !MapOrderLaws, !GroupStateStorage S, !GroupStateStorageLaws S, !KeyPackageStorage K}.
Context `{!PreSharedKeyStorage P, !MlsRules R}.
Notation Grp := (Group C S K).
Notation stays := (stays (C := C) (S := S) (K := K)).

(** *** Receiving *)

Lemma process_content_runs coins content cache time (g : Grp) : own_legacy g ->
  runs (process_auth_content (mp := group_processor) coins content cache time) g
    (fun _ g' => stays g g' \/ advances g g') (stays g).
Proof using Type*.
  intros Hl. unfold process_auth_content. destruct (fc_content (ac_content content)).
  - apply runs_lift; [done|]. by left.
  - apply (runs_bind _ _ _ (fun _ => stays g)); [apply keeps_runs, process_proposal_keeps|]. intros d g' Hg'. by left.
  - apply (runs_bind _ _ _ (fun _ g' => stays g g' \/ advances g g')); [by apply process_commit_runs|]. done.
Qed.

Lemma legacy_stays g g' : stays g g' -> own_legacy g -> own_legacy g'.
Proof using Type.
  intros Hst Hl l El. destruct (sy_pending _ _ Hst) as [Ep|Ep]; [|congruence]. unfold same_member.
  rewrite (sy_index _ _ Hst). apply Hl. congruence.
Qed.

Lemma mp_process_runs coins now message cache time (g : Grp) : own_legacy g ->
  runs (mp_process_incoming_message_with_time (mp := group_processor) coins now message cache time) g
    (fun _ g' => stays g g' \/ advances g g') (stays g).
Proof using Type*.
  intros Hl. unfold mp_process_incoming_message_with_time.
  apply (runs_bind _ _ _ (fun _ => stays g)).
  - apply keeps_runs. intros g0. unfold get_event_from_incoming_message. revert g0. pose proof decrypt_keeps as Hd.
    change (keeps stays (m ← sm_get;
      _ ← sm_lift (check_metadata (mp := group_processor) m message);
      match payload message with
      | Plain plaintext => sm_lift (mp_verify_plaintext_authentication m plaintext)
      | Cipher cipher_text => mp_process_ciphertext cipher_text
      | PayloadWelcome welcome =>
          _ ← sm_lift (validate_welcome m welcome (msg_version message));
          mret (Event (out_welcome welcome))
      | PayloadGroupInfo group_info =>
          _ ← sm_lift (validate_group_info_member (mp_group_state m) (msg_version message) group_info);
          mret (Event (out_group_info group_info))
      | PayloadKeyPackage key_package =>
          _ ← sm_lift (validate_key_package now key_package (msg_version message) time);
          mret (Event (out_key_package key_package))
      end)).
    apply (keeps_bind _); [auto with keeps|]. intros m. apply (keeps_bind _); [auto with keeps|]. intros [].
    destruct (payload message); keeps.
  - intros ev g1 Hg1. unfold process_event_or_content. destruct ev as [o|content]; [by left|].
    eapply runs_mono; [apply process_content_runs; by eapply legacy_stays| |].
    + intros o g2 [Hg2|Hg2]; [left; by etrans|right; by eapply stays_advances].
    + intros g2 Hg2. by etrans.
Qed.

Lemma pending_own_legacy Q (g : Grp) : pending_of Q g -> own_legacy g.
Proof using Type. intros Hp l El. unfold pending_of in Hp. by rewrite El in Hp. Qed.

(** A received message leaves the group in its epoch, takes it to the next one,
    or applies the pending commit, if it is the message of that commit. *)
Lemma receive_runs coins now message time (g : Grp) : own_legacy g ->
  runs (group_process_incoming_message coins now message time) g
    (fun _ g' => stays g g' \/ advances g g' \/ applies (g_pending_commit g) (clear_pending_commit g) g') (stays g).
Proof using Type*.
  intros Hl. unfold group_process_incoming_message. apply runs_get_bind. apply runs_lift_bind; [done|]. intros pending _.
  apply (runs_bind _ _ _ (fun _ g' => g' = g)).
  { destruct pending; [|done]. apply runs_lift_bind; [done|]. done. }
  intros own g1 ->. destruct own.
  - apply (runs_bind _ _ _ (fun _ g' => applies (g_pending_commit g) (clear_pending_commit g) g')).
    + eapply runs_mono; [apply apply_pending_runs|done|]. intros g' ->. apply stays_no_pending.
    + intros d g' Hg'. right. by right.
  - apply (runs_bind _ _ _ (fun _ g' => g' = g)).
    { destruct (bool_decide _); [|done]. by apply runs_lift. }
    intros cached g1 ->. destruct cached; [by left|].
    eapply runs_mono; [by apply mp_process_runs| |done]. intros o g' [Hg'|Hg']; [by left|right; by left].
Qed.

(** The same for the commits that are applied as older versions did it. *)
Lemma apply_compatible_runs coins s (g : Grp) : own_legacy (set_g_pending_commit s g) ->
  runs (apply_detached_commit_backwards_compatible coins s) g
    (fun _ g' => applies s g g' \/ exists l, s = LegacyPending l /\
       (stays (set_g_pending_commit s g) g' \/ advances (set_g_pending_commit s g) g'))
    (fun g' => g' = g \/ exists l, s = LegacyPending l /\ stays (set_g_pending_commit s g) g').
Proof using Type*.
  intros Hl. unfold apply_detached_commit_backwards_compatible. destruct s as [|l|b].
  1,3: eapply runs_mono; [apply apply_detached_runs|by left|by left].
  apply runs_modify_bind. eapply runs_mono; [by apply process_commit_runs| |]; cbn.
  - intros d g' Hg'. right. by exists l.
  - intros g' Hg'. right. by exists l.
Qed.

(** *** Committing *)

Lemma encap_result c1 c2 c3 c4 excl signer props id t p ctx gen s' :
  encap c1 c2 c3 c4 excl signer props id (mk_kem_state t (mk_key_state p psg_new) ctx) = (Ok gen, s') ->
  same_context ctx (ke_context s') /\ hash_matches (ke_context s') (ke_tree s') /\ same_member p (ks_private (ke_keys s')).
Proof using Type.
  intros E. apply encap_inv in E as [(fs & ds & g & g' & t1 & t2 & t3 & t4 & old & new & lk & h & cb & ns & E)].
  destruct E as (_ & _ & _ & _ & _ & _ & _ & _ & _ & Hh & Hc & _ & _ & _ & _ & _ & _ & Hp).
  rewrite Hc, Hp. split; [done|]. split; [|done]. unfold hash_matches. cbn. by eapply tree_hash_cached.
Qed.

Lemma make_path_result coins (g : Grp) update signer id exts pv t path :
  make_path coins g update None signer id exts pv t = Ok path ->
  same_context (pv_group_context pv) (pv_group_context (cpa_provisional path)) /\
  hash_matches (pv_group_context (cpa_provisional path)) (pv_public_tree (cpa_provisional path)) /\
  same_member t (cpa_private_tree path).
Proof using Type.
  unfold make_path. destruct update.
  - intros E. apply bind_Ok in E as (ex & _ & E). destruct (encap _ _ _ _ _ _ _ _ _) as [[gen| |] s] eqn:Ee; try done.
    injection E as <-. cbn. by apply encap_result in Ee.
  - intros E. apply bind_Ok in E as ([[] p1] & E1 & E). apply bind_Ok in E as ([h p2] & E2 & [= <-]).
    apply on_pv_tree_context in E1 as (C1 & _ & _). apply on_pv_tree_context in E2 as (C2 & T2 & _). cbn.
    rewrite C2, C1. split; [done|]. split; [|done]. unfold hash_matches. cbn. by eapply tree_hash_cached.
Qed.

Lemma seal_commit_result coins (g : Grp) sender path psk signer ad s :
  seal_commit coins g sender path psk signer ad = Ok s ->
  same_context (pv_group_context (cpa_provisional path)) (pv_group_context (cpa_provisional (sl_path s))) /\
  tree_hash (pv_group_context (cpa_provisional (sl_path s))) = tree_hash (pv_group_context (cpa_provisional path)) /\
  pv_public_tree (cpa_provisional (sl_path s)) = pv_public_tree (cpa_provisional path) /\
  cpa_private_tree (sl_path s) = cpa_private_tree path.
Proof using Type.
  unfold seal_commit. intros E. repeat (apply bind_Ok in E as (? & _ & E)). injection E as <-. done.
Qed.

Lemma commit_internal_runs coins now proposals ad exts signer id lexts time (g : Grp) : group_sound g ->
  runs (commit_internal coins now proposals None ad exts signer id lexts time) g
    (fun r g' => stays g g' /\ g_pending_commit g' = NoPendingCommit /\ leads_to g r.2) (stays g).
Proof using Type*.
  intros Hok. unfold commit_internal. apply runs_get_bind.
  apply runs_lift_bind; [done|]. intros [] Hnone. apply guard_or_Ok in Hnone. apply runs_lift_bind; [done|]. intros [] _.
  apply runs_lift_bind; [done|]. intros pv Hpv. apply apply_resolved_next in Hpv.
  apply runs_lift_bind; [done|]. intros [t k] Ht. apply provisional_private_index in Ht. apply runs_ret_bind, runs_get_bind.
  apply runs_lift_bind; [done|]. intros options _. apply runs_lift_bind; [done|]. intros path Hpath.
  apply make_path_result in Hpath as (P1 & P2 & P3). apply runs_lift_bind; [done|]. intros [psk psks] _.
  apply runs_lift_bind; [done|]. intros s Hs. apply seal_commit_result in Hs as (S1 & S2 & S3 & S4).
  apply runs_lift_bind; [done|]. intros info _. apply runs_lift_bind; [done|]. intros welcomes _.
  apply (runs_bind _ _ _ (fun _ g' => stays g g')); [apply keeps_runs, format_for_wire_keeps|].
  intros message g1 Hg1. apply runs_lift_bind; [done|]. intros h _. apply runs_ret. split; [done|].
  assert (g_pending_commit g = NoPendingCommit) as Hn by by destruct (g_pending_commit g).
  split; [destruct (sy_pending _ _ Hg1); congruence|]. cbn [snd make_pending].
  assert (next_context (st_context (g_state g)) (pv_group_context (cpa_provisional (sl_path s)))) as Hsc
    by (eapply next_same; [done|by etrans]).
  split; [split|apply Hsc]; cbn.
  - by apply next_group.
  - unfold hash_matches in *. by rewrite S2, S3.
  - split; cbn; symmetry; apply Hok.
  - rewrite S4. by etrans.
Qed.

(** A commit whose values have the types of the program. *)
Definition typed_commit (r : res MlsError (CommitOutput * PendingCommit) * Grp) : Prop :=
  forall o p, r.1 = Ok (o, p) -> pending_commit_wf p /\ pending_sendable p.

(** The secrets of the commit that is built. *)
Lemma build_detached_runs coins now b (g : Grp) : group_sound g -> typed_commit (build_internal coins now b g) ->
  runs (build_detached coins now b) g
    (fun r g' => stays g g' /\ g_pending_commit g' = NoPendingCommit /\ secrets_of (leads_to g) r.2) (stays g).
Proof using Type*.
  intros Hok Ht. pose proof (commit_internal_runs coins now (cb_proposals b) (cb_authenticated_data b)
    (cb_group_info_extensions b) (cb_new_signer b) (cb_new_signing_identity b) (cb_new_leaf_node_extensions b)
    (cb_commit_time b) g Hok) as Hr. fold (build_internal coins now b) in Hr. unfold build_detached.
  unfold typed_commit in Ht. unfold runs in *. unfold mbind, sm_bind.
  destruct (build_internal coins now b g) as [[[o p]|e|] g1]; cbn [fst snd] in *; [|done..].
  destruct Hr as (Hst & Hno & Hl). destruct (Ht o p eq_refl) as [Hw Hs]. unfold sm_lift.
  destruct (pending_try_from p) as [s|e|] eqn:Ep; [|done..].
  destruct (pending_roundtrip p s Hw Hs Ep) as (bs & -> & Hd & _). cbn. split; [done|]. split; [done|]. by exists bs, p.
Qed.

(** [build] keeps them in the group. *)
Lemma build_run coins now b (g : Grp) :
  build coins now b g = match build_detached coins now b g with
                        | (Ok (o, s), g') => (Ok o, set_g_pending_commit s g')
                        | (Err e, g') => (Err e, g')
                        | (Panic, g') => (Panic, g')
                        end.
Proof using Type.
  unfold build, build_detached, mbind, sm_bind. destruct (build_internal coins now b g) as [[[o p]|e|] g1]; [|done..].
  unfold sm_lift. by destruct (pending_try_from p).
Qed.
End operations.

(** *** Writing to the storage *)

Lemma encode_records_ids pec l recs : encode_records pec l = Ok recs -> rec_id <$> recs = epoch_id <$> l.
Proof.
  revert recs. induction l as [|e l IH]; intros recs; simpl; [by intros [= <-]|].
  intros E. apply bind_Ok in E as (b & _ & E). apply bind_Ok in E as (rs & Hrs & [= <-]). cbn. by rewrite (IH rs Hrs).
Qed.

(** The key package that was used to join, if it is still to be deleted, can be
    deleted.  If it cannot, the epochs that were just stored stay in the cache
    and are written again the next time. *)
Definition removal_succeeds {S K} `{!KeyPackageStorage K} (r : GroupStateRepository S K) : Prop :=
  forall ref, pending_key_package_removal r = Some ref -> is_ok (kps_delete ref (key_package_repo r)).1 = true.

Section storing.
Context {S K : Type} `{!GroupStateStorage S, !GroupStateStorageLaws S, !KeyPackageStorage K}.

Lemma repo_write_group pec snapshot gid (r : GroupStateRepository S K) :
  repo_group_id (repo_write_to_storage pec snapshot gid r).2 = repo_group_id r.
Proof using Type*.
  assert (PreOrder (fun r r' : GroupStateRepository S K => repo_group_id r' = repo_group_id r)) by (split; [done|intros ??? -> ->; done]).
  revert r. change (keeps (fun r r' : GroupStateRepository S K => repo_group_id r' = repo_group_id r) (repo_write_to_storage pec snapshot gid)).
  unfold repo_write_to_storage. keeps; try done. all: by apply (keeps_zoom _ _ _ _ (fun _ _ => True)).
Qed.

Lemma repo_write_at pec snapshot gid e (r : GroupStateRepository S K) : repo_at gid e r -> removal_succeeds r ->
  repo_at gid e (repo_write_to_storage pec snapshot gid r).2.
Proof using Type*.
  intros Hr Hrm. pose proof Hr as [Hg Hst He].
  cut (runs (repo_write_to_storage pec snapshot gid) r (fun _ => repo_at gid e) (repo_at gid e)).
  { unfold runs. by destruct (repo_write_to_storage pec snapshot gid r) as [[]]. }
  unfold repo_write_to_storage. apply runs_get_bind. apply runs_lift_bind; [done|]. intros ins Hins.
  apply runs_lift_bind; [done|]. intros upd Hupd. apply runs_lift_bind; [done|]. intros data _.
  assert (epochs_upto (st_last (repo_storage r) gid) (rec_id <$> ins) e) as He' by by rewrite (encode_records_ids _ _ _ Hins).
  destruct (st_write (mk_stored_state gid data) ins upd (repo_storage r)) as [x s'] eqn:Ew.
  destruct (st_write_law _ _ _ _ _ _ _ _ Hst He' Ew) as (Hst' & Hx).
  apply (runs_bind _ _ _ (fun _ r' => r' = set_storage s' r /\ epochs_upto (st_last s' gid) [] e)).
  { unfold runs, sm_zoom. rewrite Ew. destruct x as [[]|er|]; cbn in *; [done| |]; (split; [done|done|cbn; by rewrite Hx]). }
  intros [] r1 [-> Ho2]. apply (runs_bind _ _ _ (fun _ r' => exists k', r' = set_key_package_repo k' (set_storage s' r))).
  { cbn. destruct (pending_key_package_removal r) as [ref|] eqn:Er; [|exists (key_package_repo r); by destruct r].
    specialize (Hrm ref Er). unfold runs, sm_zoom. cbn. destruct (kps_delete ref (key_package_repo r)) as [[u|er|] k'] eqn:Ek; [|done..].
    cbn. by exists k'. }
  intros [] r2 [k' ->]. apply runs_modify_bind, runs_modify. by split.
Qed.
End storing.

(** ** The states a group can reach *)

Section reachable.
Context {idp : IdentityProvider} {cs : CipherSuiteProvider} {C K P S R : Type} {cc : ClientConfig C K P S R}.
Context `{MapOrder, !MapOrderLaws, !GroupStateStorage S, !GroupStateStorageLaws S, !KeyPackageStorage K}.
Context `{!PreSharedKeyStorage P, !MlsRules R}.
Notation Grp := (Group C S K).
Notation stays := (stays (C := C) (S := S) (K := K)).

(** An operation of the group, whether it succeeds or not; [op_keys] is any
    request for keys of the secret tree, [op_lookup] the search of an epoch. *)
Inductive op (g : Grp) : Grp -> Prop :=
| op_receive coins now message time : op g (group_process_incoming_message coins now message time g).2
| op_encrypt c1 c2 message ad : op g (encrypt_application_message c1 c2 message ad g).2
| op_keys {A} (m : SM SecretTree MlsError A) : op g (zoom_secret_tree m g).2
| op_lookup id : op g (zoom_g_repo (get_epoch_mut prior_epoch_stored_codec id) g).2
| op_propose c1 c2 proposal ad : op g (proposal_message c1 c2 proposal ad g).2
| op_update c1 c2 signer id exts : op g (update_proposal c1 c2 signer id exts g).2
| op_commit coins now b : typed_commit (build_internal coins now b g) -> op g (build coins now b g).2
| op_apply : op g (apply_pending_commit g).2
| op_apply_compatible coins : op g (apply_pending_commit_backwards_compatible coins g).2
| op_clear : op g (clear_pending_commit g)
| op_clear_cache : op g (clear_proposal_cache g).2
| op_exporter : op g (group_delete_exporter g).

(** A member: its group, and the secrets of the detached commits it has built,
    each with the epoch it was built in. *)
Record Member := mk_member { mb_group : Grp; mb_secrets : list (Z * PendingCommitSnapshot) }.

Definition held (g : Grp) (r : mres (CommitOutput * PendingCommitSnapshot)) : list (Z * PendingCommitSnapshot) :=
  match r with Ok (_, s) => [(epoch (st_context (g_state g)), s)] | _ => [] end.

(** A step of the member.  One that is [careful] applies a detached commit only
    in the epoch it was built in, and not over another commit that is pending;
    and its key packages can be deleted. *)
Inductive step (careful : bool) (m : Member) : Member -> Prop :=
| step_op g' : op (mb_group m) g' -> step careful m (mk_member g' (mb_secrets m))
| step_detach coins now b : typed_commit (build_internal coins now b (mb_group m)) ->
    step careful m (mk_member (build_detached coins now b (mb_group m)).2
      (held (mb_group m) (build_detached coins now b (mb_group m)).1 ++ mb_secrets m))
| step_apply_detached e s : (e, s) ∈ mb_secrets m ->
    (careful = true -> e = epoch (st_context (g_state (mb_group m))) /\ g_pending_commit (mb_group m) = NoPendingCommit) ->
    step careful m (mk_member (apply_detached_commit s (mb_group m)).2 (mb_secrets m))
| step_apply_detached_compatible coins e s : (e, s) ∈ mb_secrets m ->
    (careful = true -> e = epoch (st_context (g_state (mb_group m))) /\ g_pending_commit (mb_group m) = NoPendingCommit) ->
    step careful m (mk_member (apply_detached_commit_backwards_compatible coins s (mb_group m)).2 (mb_secrets m))
| step_write : (careful = true -> removal_succeeds (g_state_repo (mb_group m))) ->
    step careful m (mk_member (write_to_storage (mb_group m)).2 (mb_secrets m))
| step_write_without_tree : (careful = true -> removal_succeeds (g_state_repo (mb_group m))) ->
    step careful m (mk_member (write_to_storage_without_ratchet_tree (mb_group m)).2 (mb_secrets m)).

(** A new group, or one that was joined with a welcome message, over a storage
    without later epochs of it. *)
Inductive starts (g : Grp) : Prop :=
| starts_new coins now config gid version identity context_exts leaf_exts signer time :
    group_new_with coins now config gid version identity context_exts leaf_exts signer time = Ok g ->
    st_ok (group_state_storage config) (group_id (st_context (g_state g))) ->
    st_max_epoch_id (group_state_storage config) (group_id (st_context (g_state g))) = Ok None -> starts g
| starts_joined coins version group_info generation secrets psk tree config signer time info o :
    join_group_info coins version group_info generation secrets psk tree config signer time = Ok (g, info) ->
    0 <= epoch (gi_group_context group_info) ->
    st_ok (group_state_storage config) (group_id (gi_group_context group_info)) ->
    st_max_epoch_id (group_state_storage config) (group_id (gi_group_context group_info)) = Ok o ->
    (forall m, o = Some m -> m = epoch (gi_group_context group_info) - 1) -> starts g.

(** *** What an operation leads to *)

(** The place of the member: its group, and its leaf there. *)
Record same_place (g g' : Grp) : Prop := {
  sp_group : same_group (st_context (g_state g)) (st_context (g_state g'));
  sp_ids : same_ids (st_proposals (g_state g)) (st_proposals (g_state g'));
  sp_member : same_member (g_private_tree g) (g_private_tree g');
}.

#[local] Instance same_place_preorder : PreOrder same_place.
Proof using Type.
  split; [by intros g|]. intros a b c [] []. split; by etrans.
Qed.

Lemma stays_place g g' : stays g g' -> same_place g g'.
Proof using Type. intros [A1 A2 A3 A4 A5 A6]. split; [by rewrite A1|done|done]. Qed.

Lemma advances_place g g' : advances g g' -> same_place g g'.
Proof using Type. intros []. split; [by apply next_group|done|done]. Qed.

Inductive outcome (g g' : Grp) : Prop :=
| out_stays : stays g g' -> outcome g g'
| out_advances : advances g g' -> outcome g g'
| out_applies : applies (g_pending_commit g) (clear_pending_commit g) g' -> outcome g g'
| out_commits g1 s : stays g g1 -> secrets_of (leads_to g) s -> g' = set_g_pending_commit s g1 -> outcome g g'.

Lemma runs_outcome {A} (m : SM Grp MlsError A) g (Q : A -> Grp -> Prop) (X : Grp -> Prop) :
  runs m g Q X -> (forall a g', Q a g' -> outcome g g') -> (forall g', X g' -> outcome g g') -> outcome g (m g).2.
Proof using Type. unfold runs. intros Hr HQ HX. destruct (m g) as [[a|e|] g']; cbn; eauto. Qed.

Lemma op_outcome g g' : op g g' -> group_sound g -> outcome g g'.
Proof using Type*.
  intros Hop Hs. pose proof (pending_own_legacy _ _ (gs_pending _ Hs)) as Hl. destruct Hop.
  - eapply runs_outcome; [by apply receive_runs| |]; cbn; [|by constructor 1].
    intros o g' [Ho|[Ho|Ho]]; [by constructor 1|by constructor 2|by constructor 3].
  - constructor 1. apply encrypt_application_keeps.
  - constructor 1. apply (zoom_secret_tree_keeps stays). intros. apply stays_secrets.
  - constructor 1. apply zoom_repo_keeps, get_epoch_mut_keeps.
  - constructor 1. apply proposal_message_keeps.
  - constructor 1. apply update_proposal_keeps.
  - pose proof (build_detached_runs coins now b g Hs ltac:(done)) as Hr. rewrite build_run. unfold runs in Hr.
    destruct (build_detached coins now b g) as [[[o s]|e|] g1]; cbn; [|by constructor 1..].
    destruct Hr as (Hst & _ & Hse). by econstructor 4.
  - eapply runs_outcome; [apply apply_pending_runs| |]; cbn; [by constructor 3|].
    intros g' ->. constructor 1. apply stays_no_pending.
  - unfold apply_pending_commit_backwards_compatible. rewrite sm_get_run, sm_modify_run.
    fold (clear_pending_commit g).
    assert (set_g_pending_commit (g_pending_commit g) (clear_pending_commit g) = g) as Hg by by destruct g.
    pose proof (apply_compatible_runs coins (g_pending_commit g) (clear_pending_commit g)) as Hr. rewrite Hg in Hr.
    specialize (Hr Hl). unfold runs in Hr.
    destruct (apply_detached_commit_backwards_compatible coins (g_pending_commit g) (clear_pending_commit g)) as [[o|e|] g']; cbn.
    + destruct Hr as [Hr|(l & _ & [Hr|Hr])]; [by constructor 3|by constructor 1|by constructor 2].
    + destruct Hr as [->|(l & _ & Hr)]; [constructor 1; apply stays_no_pending|by constructor 1].
    + destruct Hr as [->|(l & _ & Hr)]; [constructor 1; apply stays_no_pending|by constructor 1].
  - constructor 1. apply stays_no_pending.
  - constructor 1. apply clear_cache_keeps.
  - constructor 1. apply stays_schedule.
Qed.

Lemma leads_to_prepared (g : Grp) s : secrets_of (leads_to g) s -> secrets_of (prepared g) s.
Proof using Type. apply secrets_of_mono. by intros p []. Qed.

Lemma prepared_place (g g' : Grp) s (e : Z) : same_place g g' ->
  secrets_of (fun p => prepared g p /\ epoch (st_context (pnd_state p)) = e) s ->
  secrets_of (fun p => prepared g' p /\ epoch (st_context (pnd_state p)) = e) s.
Proof using Type.
  intros [H1 H2 H3]. apply secrets_of_mono. intros p [Hp He]. split; [|done]. by apply (prepared_same g).
Qed.

Lemma set_pending_of (Q Q' : PendingCommit -> Prop) (g : Grp) s : (forall p, Q p -> Q' p) -> secrets_of Q s ->
  pending_of Q' (set_g_pending_commit s g).
Proof using Type.
  intros HQ Hs. apply (secrets_of_mono _ _ _ HQ) in Hs. unfold pending_of. cbn. pose proof Hs as (b & p & -> & _). exact Hs.
Qed.

Lemma set_pending_sound (g : Grp) s : group_sound g -> secrets_of (prepared g) s -> group_sound (set_g_pending_commit s g).
Proof using Type.
  intros [H1 H2 H3 H4 H5] Hs. split; try done. eapply set_pending_of; [|exact Hs]. intros q. by apply (prepared_same g).
Qed.

Lemma clear_sound (g : Grp) : group_sound g -> group_sound (clear_pending_commit g).
Proof using Type. apply stays_sound, stays_no_pending. Qed.

Lemma outcome_sound g g' : outcome g g' -> group_sound g -> group_sound g' /\ same_place g g'.
Proof using Type.
  intros [Hst|Ha|Hap|g1 s Hst Hs ->] Hok.
  - split; [by eapply stays_sound|by apply stays_place].
  - split; [by eapply advances_sound|by apply advances_place].
  - assert (secrets_of (prepared (clear_pending_commit g)) (g_pending_commit g)) as Hs.
    { pose proof Hap as (b & p & rest & r & Ep & Hd & _). pose proof (gs_pending _ Hok) as Hp. unfold pending_of in Hp. rewrite Ep in *.
      eapply secrets_of_mono; [|exact Hp]. intros q. by apply (prepared_same g). }
    destruct (applies_prepared _ _ _ Hs (clear_sound g Hok) Hap) as (Hg & Hgr & Hi & Hm). split; [done|]. by split.
  - split; [|by destruct (stays_place _ _ Hst)]. apply set_pending_sound; [by eapply stays_sound|].
    apply leads_to_prepared. eapply secrets_of_mono; [|exact Hs]. intros p. by apply leads_to_stays.
Qed.

Lemma outcome_ok g g' : outcome g g' -> group_ok g ->
  0 <= epoch (st_context (g_state g)) -> epoch (st_context (g_state g)) + 1 < 2 ^ 64 ->
  group_ok g' /\ (st_context (g_state g') = st_context (g_state g) \/ next_context (st_context (g_state g)) (st_context (g_state g'))).
Proof using Type.
  intros Ho Hok Hz Hb.
  assert (forall g', advances g g' -> group_ok g' /\ (st_context (g_state g') = st_context (g_state g) \/ next_context (st_context (g_state g)) (st_context (g_state g')))) as Hadv.
  { intros g1 Ha. split; [by apply (advances_ok g)|]. right. apply Ha. }
  pose proof Ho as [Hst|Ha|Hap|g1 s Hst Hs ->].
  - split; [by eapply stays_ok|]. left. apply Hst.
  - by apply Hadv.
  - assert (secrets_of (leads_to (clear_pending_commit g)) (g_pending_commit g)) as Hs.
    { pose proof Hap as (b & p & rest & r & Ep & Hd & _). pose proof (ok_pending _ Hok) as Hp. unfold pending_of in Hp. rewrite Ep in *.
      eapply secrets_of_mono; [|exact Hp]. intros q. apply leads_to_stays, stays_no_pending. }
    apply Hadv. eapply stays_advances; [apply stays_no_pending|]. by apply (applies_next (g_pending_commit g)).
  - pose proof (stays_ok _ _ Hst Hok) as [Hs1 Hr1 _]. split; [|left; apply Hst].
    assert (secrets_of (leads_to g1) s) as Hs' by (eapply secrets_of_mono; [|exact Hs]; intros p; by apply leads_to_stays).
    split; [by apply set_pending_sound, leads_to_prepared|exact Hr1|].
    eapply set_pending_of; [|exact Hs']. intros p [Hp He]. split; [by apply (prepared_same g1)|done].
Qed.

(** *** Storing *)

Lemma store_sound snap (g : Grp) : group_sound g -> group_sound (store_snapshot snap g).2 /\ same_place g (store_snapshot snap g).2.
Proof using Type*.
  intros [H1 H2 H3 H4 H5]. unfold store_snapshot, zoom_g_repo, sm_zoom.
  pose proof (repo_write_group prior_epoch_stored_codec (mls_encode_to_vec snapshot_codec snap)
    (group_id (rw_context (sn_state snap))) (g_state_repo g)) as Hw.
  destruct (repo_write_to_storage _ _ _ _) as [x r']. cbn in *. split; [|done]. split; cbn; try done; [by rewrite Hw|].
  apply (pending_of_same (prepared g) _ g); [|by left|done|exact H5]. intros q. by apply (prepared_same g).
Qed.

Lemma store_ok snap (g : Grp) : group_id (rw_context (sn_state snap)) = group_id (st_context (g_state g)) ->
  group_ok g -> removal_succeeds (g_state_repo g) ->
  group_ok (store_snapshot snap g).2 /\ st_context (g_state (store_snapshot snap g).2) = st_context (g_state g).
Proof using Type*.
  intros Hid [H1 H4 H5] Hrm. destruct (store_sound snap g H1) as [Hs _]. split; [split; [done| |]|].
  all: unfold store_snapshot, zoom_g_repo, sm_zoom; rewrite Hid.
  all: pose proof (repo_write_at prior_epoch_stored_codec (mls_encode_to_vec snapshot_codec snap) _ _ _ H4 Hrm) as Hw.
  all: destruct (repo_write_to_storage _ _ _ _) as [x r']; cbn in *. 1: exact Hw. 2: done.
  apply (pending_of_same (leads_to g) _ g); [|by left|done|exact H5]. intros p [Hp He]. split; [by apply (prepared_same g)|done].
Qed.

(** *** The steps *)

(** The member and every commit it holds are of one group. *)
Record member_sound (m : Member) : Prop := {
  ms_group : group_sound (mb_group m);
  ms_held e s : (e, s) ∈ mb_secrets m ->
    secrets_of (fun p => prepared (mb_group m) p /\ epoch (st_context (pnd_state p)) = wrap 64 (e + 1)) s;
}.

Lemma member_moves g' m : member_sound m -> group_sound g' -> same_place (mb_group m) g' -> member_sound (mk_member g' (mb_secrets m)).
Proof using Type.
  intros [Hg Hh] Hg' Hp. split; [done|]. intros e s Hs. eapply prepared_place; [exact Hp|by apply Hh].
Qed.

Lemma held_commit m e s : member_sound m -> (e, s) ∈ mb_secrets m ->
  secrets_of (prepared (mb_group m)) s /\ (e = epoch (st_context (g_state (mb_group m))) -> secrets_of (leads_to (mb_group m)) s).
Proof using Type.
  intros Hm Hs. pose proof (ms_held _ Hm _ _ Hs) as Hq. split; [|intros ->]; eapply secrets_of_mono; try exact Hq.
  - by intros p [].
  - intros p []. by split.
Qed.

Lemma detached_place m e s (x : Grp) : member_sound m -> (e, s) ∈ mb_secrets m ->
  x = mb_group m \/ applies s (mb_group m) x -> group_sound x /\ same_place (mb_group m) x.
Proof using Type.
  intros Hm Hs [->|Ha]; [split; [apply Hm|done]|]. destruct (held_commit m e s Hm Hs) as [Hp _].
  destruct (applies_prepared _ _ _ Hp (ms_group _ Hm) Ha) as (Hg & ? & ? & ?). split; [done|]. by split.
Qed.

Lemma detached_run m e s : member_sound m -> (e, s) ∈ mb_secrets m ->
  (apply_detached_commit s (mb_group m)).2 = mb_group m \/ applies s (mb_group m) (apply_detached_commit s (mb_group m)).2.
Proof using Type*.
  intros Hm Hs. pose proof (apply_detached_runs s (mb_group m)) as Hr. unfold runs in Hr.
  destruct (apply_detached_commit s (mb_group m)) as [[o|er|] g']; cbn; auto.
Qed.

(** The secrets the member holds are of the current format. *)
Lemma detached_compatible coins m e s : member_sound m -> (e, s) ∈ mb_secrets m ->
  apply_detached_commit_backwards_compatible coins s (mb_group m) = apply_detached_commit s (mb_group m).
Proof using Type. intros Hm Hs. by destruct (ms_held _ Hm _ _ Hs) as (b & p & -> & _). Qed.

Lemma detach_run coins now b m : member_sound m -> typed_commit (build_internal coins now b (mb_group m)) ->
  stays (mb_group m) (build_detached coins now b (mb_group m)).2 /\
  forall e s, (e, s) ∈ held (mb_group m) (build_detached coins now b (mb_group m)).1 ->
    e = epoch (st_context (g_state (mb_group m))) /\ secrets_of (leads_to (mb_group m)) s.
Proof using Type*.
  intros Hm Ht. pose proof (build_detached_runs coins now b _ (ms_group _ Hm) Ht) as Hr. unfold runs in Hr.
  destruct (build_detached coins now b (mb_group m)) as [[[o s0]|er|] g']; cbn.
  - destruct Hr as (Hst & _ & Hs). split; [done|]. intros e s Hin. apply list_elem_of_singleton in Hin as [= -> ->]. done.
  - split; [done|]. intros e s Hin. by apply elem_of_nil in Hin.
  - split; [done|]. intros e s Hin. by apply elem_of_nil in Hin.
Qed.

Lemma step_sound careful m m' : step careful m m' -> member_sound m ->
  member_sound m' /\ same_place (mb_group m) (mb_group m').
Proof using Type*.
  intros Hs Hm.
  assert (forall g', group_sound g' /\ same_place (mb_group m) g' ->
    member_sound (mk_member g' (mb_secrets m)) /\ same_place (mb_group m) g') as Hmv.
  { intros g' [Hg Hp]. split; [by apply member_moves|done]. }
  destruct Hs as [g' Hop|coins now b Ht|e s Hin _|coins e s Hin _|_|_]; cbn [mb_group].
  - apply Hmv. eapply outcome_sound; [|apply Hm]. apply op_outcome; [done|apply Hm].
  - destruct (detach_run coins now b m Hm Ht) as [Hst Hh]. split; [|by apply stays_place].
    pose proof (stays_place _ _ Hst) as Hp. split; [eapply stays_sound; [done|apply Hm]|]. cbn. intros e s [Hin|Hin]%elem_of_app.
    + destruct (Hh e s Hin) as [-> Hs]. eapply prepared_place; [exact Hp|]. eapply secrets_of_mono; [|exact Hs].
      by intros p [].
    + eapply prepared_place; [exact Hp|by apply Hm].
  - apply Hmv. eapply detached_place; [done|done|]. by eapply detached_run.
  - rewrite (detached_compatible _ _ _ _ Hm Hin). apply Hmv. eapply detached_place; [done|done|]. by eapply detached_run.
  - apply Hmv, store_sound, Hm.
  - apply Hmv, store_sound, Hm.
Qed.

Lemma step_ok m m' : step true m m' -> member_sound m -> group_ok (mb_group m) ->
  0 <= epoch (st_context (g_state (mb_group m))) -> epoch (st_context (g_state (mb_group m))) + 1 < 2 ^ 64 ->
  group_ok (mb_group m') /\ (st_context (g_state (mb_group m')) = st_context (g_state (mb_group m)) \/
    next_context (st_context (g_state (mb_group m))) (st_context (g_state (mb_group m')))).
Proof using Type*.
  intros Hs Hm Hok Hz Hb.
  assert (forall e s, (e, s) ∈ mb_secrets m -> e = epoch (st_context (g_state (mb_group m))) /\ g_pending_commit (mb_group m) = NoPendingCommit ->
    group_ok (apply_detached_commit s (mb_group m)).2 /\
    (st_context (g_state (apply_detached_commit s (mb_group m)).2) = st_context (g_state (mb_group m)) \/
     next_context (st_context (g_state (mb_group m))) (st_context (g_state (apply_detached_commit s (mb_group m)).2)))) as Hap.
  { intros e s Hin [He Hn]. destruct (held_commit m e s Hm Hin) as [_ Hl]. apply (outcome_ok (mb_group m)); [|done..].
    destruct (detached_run m e s Hm Hin) as [->|Ha]; [by constructor 1|]. constructor 2. eapply applies_next; [by apply Hl|done|done]. }
  destruct Hs as [g' Hop|coins now b Ht|e s Hin Hc|coins e s Hin Hc|Hc|Hc]; cbn [mb_group].
  - eapply outcome_ok; [|done..]. apply op_outcome; [done|apply Hm].
  - destruct (detach_run coins now b m Hm Ht) as [Hst Hh]. split; [by eapply stays_ok|]. left. apply Hst.
  - eapply Hap; [exact Hin|by apply Hc].
  - rewrite (detached_compatible _ _ _ _ Hm Hin). eapply Hap; [exact Hin|by apply Hc].
  - destruct (store_ok (group_snapshot (mb_group m)) _ eq_refl Hok (Hc eq_refl)). split; [done|by left].
  - destruct (store_ok (without_tree (group_snapshot (mb_group m))) _ eq_refl Hok (Hc eq_refl)). split; [done|by left].
Qed.

Lemma validate_tree_hash_matches context time t u t' : validate_tree context time t = (Ok u, t') -> hash_matches context t'.
Proof using Type.
  unfold validate_tree, validate_tree_hash. intros E. apply sm_bind_Ok in E as ([] & t1 & E1 & E).
  apply sm_bind_Ok in E1 as (h & t2 & Eh & E1). case_bool_decide as Hh; [|done]. injection E1 as ->.
  rewrite sm_get_run in E. repeat (apply sm_bind_Ok in E as (? & ? & [= _ <-] & E)). injection E as _ <-.
  unfold hash_matches. rewrite <- Hh. by eapply tree_hash_cached.
Qed.

(** The storage knows the last epoch it gives. *)
Lemma max_is_last (s : S) gid o : st_ok s gid -> st_max_epoch_id s gid = Ok o -> st_last s gid = o.
Proof using Type. intros Hst E. destruct (st_max_law _ _ Hst) as [E'|[e E']]; congruence. Qed.

Lemma starts_ok g : starts g -> group_ok g /\ 0 <= epoch (st_context (g_state g)).
Proof using Type*.
  intros [coins now config gid version identity context_exts leaf_exts signer time E Hst Hmax
         |coins version group_info generation secrets psk tree config signer time info o E Hz Hst Hmax Ho].
  - apply (max_is_last _ _ _ Hst) in Hmax.
    unfold group_new_with in E. apply bind_Ok in E as ([leaf key] & _ & E). apply bind_Ok in E as ([t p] & _ & E).
    apply bind_Ok in E as ([h t'] & Eh & E). destruct (tree_kem_tree_hash t) as [[h0|e|] t0] eqn:Et; try done.
    injection Eh as -> ->. apply bind_Ok in E as (id & _ & E). repeat (apply bind_Ok in E as (? & _ & E)).
    injection E as <-. cbn in *. split; [|done]. split; [split; try done|split; try done|done].
    + unfold hash_matches. cbn. by eapply tree_hash_cached.
    + cbn in *. by rewrite Hmax.
  - apply (max_is_last _ _ _ Hst) in Hmax.
    unfold join_group_info in E. apply bind_Ok in E as (t & Et & E). apply bind_Ok in E as (i & _ & E).
    apply bind_Ok in E as (p & _ & E). repeat (apply bind_Ok in E as (? & _ & E)).
    unfold join_with in E. repeat (apply bind_Ok in E as (? & _ & E)). injection E as <- _. cbn in *. split; [|done].
    split; [split; try done|split; try done|done].
    + unfold validate_tree_and_info_joiner in Et. apply bind_Ok in Et as (t1 & Et1 & Et).
      repeat (apply bind_Ok in Et as (? & _ & Et)). injection Et as ->.
      unfold validate_tree_joiner in Et1. repeat (apply bind_Ok in Et1 as (? & _ & Et1)).
      destruct (validate_tree _ _ _) as [[u|e|] t2] eqn:Ev; try done. injection Et1 as ->.
      by eapply validate_tree_hash_matches.
    + cbn in *. rewrite Hmax. split; [by intros i0 id|]. intros m ->. rewrite (Ho m eq_refl). unfold zlen. cbn. lia.
Qed.

Lemma starts_sound g : starts g -> member_sound (mk_member g []).
Proof using Type*. intros Hs. destruct (starts_ok g Hs) as [Hok _]. split; [apply Hok|]. intros e s Hin. by apply elem_of_nil in Hin. Qed.

Lemma reach_sound careful n m0 m : nsteps (step careful) n m0 m -> member_sound m0 ->
  member_sound m /\ same_place (mb_group m0) (mb_group m).
Proof using Type*.
  induction 1 as [m|n m m1 m2 Hs Hn IH]; intros Hm; [done|]. destruct (step_sound _ _ _ Hs Hm) as [Hm1 Hp1].
  destruct (IH Hm1) as [Hm2 Hp2]. split; [done|by etrans].
Qed.

Lemma reach_ok n m0 m : nsteps (step true) n m0 m -> member_sound m0 -> group_ok (mb_group m0) ->
  0 <= epoch (st_context (g_state (mb_group m0))) -> epoch (st_context (g_state (mb_group m0))) + Z.of_nat n < 2 ^ 64 ->
  group_ok (mb_group m) /\
  epoch (st_context (g_state (mb_group m0))) <= epoch (st_context (g_state (mb_group m)))
    <= epoch (st_context (g_state (mb_group m0))) + Z.of_nat n.
Proof using Type*.
  induction 1 as [m|n m m1 m2 Hs Hn IH]; intros Hm Hok Hz Hb; [split; [done|lia]|].
  destruct (step_sound _ _ _ Hs Hm) as [Hm1 _]. destruct (step_ok _ _ Hs Hm Hok Hz) as [Hok1 Hc]; [lia|].
  assert (epoch (st_context (g_state (mb_group m))) <= epoch (st_context (g_state (mb_group m1)))
    <= epoch (st_context (g_state (mb_group m))) + 1) as [E1 E2].
  { destruct Hc as [->|[_ _ _ ->]]; [lia|]. rewrite wrap_small by (unfold in_uint; lia). lia. }
  destruct (IH Hm1 Hok1) as [Hok2 ?]; [lia|lia|]. split; [done|lia].
Qed.

(** C3: a group never leaves its invariant. A member creates a group, or
    joins one with a welcome message, and then, in any order and however
    each operation ends, it receives messages, encrypts, proposes, takes
    keys from the secret tree, commits, detaches commits, applies the
    pending commit or any commit it has ever detached, drops what is
    pending, stores the group. The storages may fail. The group keeps its
    identifier, version and cipher suite and the member its place; the
    context has the hash of the tree; the cached proposals are those of the
    group; a pending commit decodes to some epoch of the same group and
    member. If the member is careful, applying a detached commit only in the
    epoch it was made in and with no other pending, and its key packages can
    be deleted when it stores the group, then, for fewer than 2^64 steps,
    moreover the epochs only grow, the stored epochs end just before the
    current one, and the pending commit leads to the next epoch. *)
Theorem group_invariant (careful : bool) (g0 : Grp) (m : Member) (n : nat) (Hstart : starts g0)
    (Hn : nsteps (step careful) n (mk_member g0 []) m) :
  group_sound (mb_group m) /\ same_member (g_private_tree g0) (g_private_tree (mb_group m)) /\
  same_group (st_context (g_state g0)) (st_context (g_state (mb_group m))) /\
  (careful = true -> epoch (st_context (g_state g0)) + Z.of_nat n < 2 ^ 64 ->
   group_ok (mb_group m) /\
   epoch (st_context (g_state g0)) <= epoch (st_context (g_state (mb_group m))) <= epoch (st_context (g_state g0)) + Z.of_nat n).
Proof using Type*.
  destruct (reach_sound _ _ _ _ Hn (starts_sound g0 Hstart)) as [[Hs _] [H1 H2 H3]]. split_and!; [done..|].
  intros -> Hb. destruct (starts_ok g0 Hstart). by apply (reach_ok n (mk_member g0 []) m Hn (starts_sound g0 Hstart)).
Qed.

(** C4: the pending commit of a careful member can be applied.  In every state
    such a member can reach, applying the commit it built installs what the
    commit prepared, and takes the group to the next epoch with nothing
    pending, which is again a state of the invariant, unless the storage fails
    when it is asked for the last epoch it has.  It is asked only if no epoch
    waits to be written; if it fails then, the pending commit is lost and
    nothing else has changed. *)
Theorem pending_commit_applies (g0 : Grp) (m : Member) (n : nat) (b : bytes) (Hstart : starts g0)
    (Hn : nsteps (step true) n (mk_member g0 []) m) (Hb : epoch (st_context (g_state g0)) + Z.of_nat n + 1 < 2 ^ 64)
    (Hp : g_pending_commit (mb_group m) = PendingBytes b) :
  let g := mb_group m in
  let asked := st_max_epoch_id (repo_storage (g_state_repo g)) (repo_group_id (g_state_repo g)) in
  exists p, mls_decode pending_commit_codec b = Ok (p, []) /\
    ((exists e, pending_inserts (g_state_repo g) = [] /\ asked = Err e /\
        apply_pending_commit g = (Err (GroupStorageError e), clear_pending_commit g)) \/
     ((pending_inserts (g_state_repo g) = [] -> is_ok asked = true) /\
      exists g', apply_pending_commit g = (Ok (pnd_output p), g') /\
        g_state g' = pnd_state p /\ g_private_tree g' = pnd_private_tree p /\ g_key_schedule g' = pnd_key_schedule p /\
        g_epoch_secrets g' = pnd_epoch_secrets p /\ g_signer g' = pnd_signer p /\
        g_pending_commit g' = NoPendingCommit /\ epoch (st_context (g_state g')) = epoch (st_context (g_state g)) + 1 /\
        group_ok g')).
Proof using Type*.
  intros g asked. destruct (starts_ok g0 Hstart) as [Hok0 Hz0].
  destruct (reach_ok n _ m Hn (starts_sound g0 Hstart) Hok0 Hz0) as (Hok & E1 & E2); [cbn; lia|]. cbn in E1, E2. fold g in Hok, E1, E2, Hp.
  assert (storage_answers (g_state_repo g) ->
    exists p, mls_decode pending_commit_codec b = Ok (p, []) /\ leads_to g p /\
      exists g', apply_pending_commit g = (Ok (pnd_output p), g') /\ g' = installed p (g_state_repo g') (clear_pending_commit g) /\
        advances (clear_pending_commit g) g') as Hsucc.
  { intros Ha. destruct (apply_pending_ok g b Hok Ha) as (p & r & Hd & Hl & Hr & E); [lia|lia|done|].
    exists p. split; [done|]. split; [done|]. eexists. split; [exact E|]. split; [done|].
    apply (applies_next (PendingBytes b)); [|done|by exists b, p, [], r]. exists b, p.
    split_and!; [done|done|]. eapply leads_to_stays; [apply stays_no_pending|done]. }
  destruct (st_max_law _ _ (ra_storage _ _ _ (ok_repo _ Hok))) as [Eo|[e Ee]].
  2: destruct (pending_inserts (g_state_repo g)) as [|x l] eqn:Ei.
  2: { pose proof (ok_pending _ Hok) as Hpd. unfold pending_of in Hpd. rewrite Hp in Hpd. destruct Hpd as (b' & p & [= <-] & Hd & _).
    exists p. split; [done|]. left. exists e. rewrite <- (gs_repo _ (ok_sound _ Hok)) in Ee. split_and!; [done|exact Ee|].
    by apply (apply_pending_fails g b). }
  all: destruct Hsucc as (p & Hd & Hl & g' & Ha & Hi & Hadv);
    [unfold storage_answers; rewrite ?(gs_repo _ (ok_sound _ Hok)), ?Eo, ?Ei; done|].
  all: exists p; (split; [done|]); right; (split; [unfold asked; rewrite ?(gs_repo _ (ok_sound _ Hok)), ?Eo; done|]).
  all: exists g'; pose proof (advances_ok (clear_pending_commit g) g' ltac:(cbn; lia) ltac:(cbn; lia) Hadv
    (stays_ok _ _ (stays_no_pending g) Hok)) as Hok'.
  all: pose proof (nc_epoch _ _ (ad_context _ _ Hadv)) as He; rewrite wrap_small in He by (unfold in_uint; cbn; lia).
  all: split_and!; [done| | | | | |apply Hadv|exact He|exact Hok']; by rewrite Hi.
Qed.
End reachable.

(** ** What a message that is rejected leaves behind *)

(** Everything is as it was but the secrets that decryption uses up, the keys
    and the signer of the member, and the pending re-initialization. *)
Record rejected {C S K} (g g' : Group C S K) : Prop := {
  rj_config : g_config g' = g_config g;
  rj_state : exists r, g_state g' = set_pending_reinit r (g_state g);
  rj_epochs : same_epochs (g_state_repo g) (g_state_repo g');
  rj_secrets : exists t, g_epoch_secrets g' = set_secret_tree t (g_epoch_secrets g);
  rj_index : self_index (g_private_tree g') = self_index (g_private_tree g);
  rj_schedule : g_key_schedule g' = g_key_schedule g;
  rj_updates : g_pending_updates g' = g_pending_updates g;
  rj_pending : g_pending_commit g' = g_pending_commit g;
  rj_psk : g_previous_psk g' = g_previous_psk g;
}.

Section rejection.
Context {idp : IdentityProvider} {cs : CipherSuiteProvider} {C K P S R : Type} {cc : ClientConfig C K P S R}.
Context `{MapOrder, !GroupStateStorage S, !KeyPackageStorage K, !PreSharedKeyStorage P, !MlsRules R}.
Notation Grp := (Group C S K).
Notation rejected := (rejected (C := C) (S := S) (K := K)).

#[local] Instance rejected_preorder : PreOrder rejected.
Proof using Type.
  split.
  - intros g. split; try done.
    + exists (st_pending_reinit (g_state g)). by destruct (g_state g).
    + exists (secret_tree (g_epoch_secrets g)). by destruct (g_epoch_secrets g).
  - intros a b c [A1 [ra A2] A3 [ta A4] A5 A6 A7 A8 A9] [B1 [rb B2] B3 [tb B4] B5 B6 B7 B8 B9].
    split; try congruence; [exists rb; by rewrite B2, A2|by etrans|exists tb; by rewrite B4, A4].
Qed.

Lemma rejected_set_state r (g : Grp) : rejected g (set_g_state (set_pending_reinit r (g_state g)) g).
Proof using Type. split; try done; [by exists r|]. exists (secret_tree (g_epoch_secrets g)). cbn. by destruct (g_epoch_secrets g). Qed.

Lemma rejected_same (g g' : Grp) : g_config g' = g_config g -> g_state g' = g_state g -> g_state_repo g' = g_state_repo g ->
  g_epoch_secrets g' = g_epoch_secrets g -> self_index (g_private_tree g') = self_index (g_private_tree g) ->
  g_key_schedule g' = g_key_schedule g -> g_pending_updates g' = g_pending_updates g ->
  g_pending_commit g' = g_pending_commit g -> g_previous_psk g' = g_previous_psk g -> rejected g g'.
Proof using Type.
  intros ? Hs Hr He ? ? ? ? ?. split; try done.
  - exists (st_pending_reinit (g_state g)). rewrite Hs. by destruct (g_state g).
  - by rewrite Hr.
  - exists (secret_tree (g_epoch_secrets g)). rewrite He. by destruct (g_epoch_secrets g).
Qed.

Lemma rejected_repo r' (g : Grp) : same_epochs (g_state_repo g) r' -> rejected g (set_g_state_repo r' g).
Proof using Type.
  intros Hr. split; try done.
  - exists (st_pending_reinit (g_state g)). cbn. by destruct (g_state g).
  - exists (secret_tree (g_epoch_secrets g)). cbn. by destruct (g_epoch_secrets g).
Qed.

Lemma rejected_secrets t (g : Grp) : rejected g (set_g_epoch_secrets (set_secret_tree t (g_epoch_secrets g)) g).
Proof using Type. split; try done; [|by exists t]. exists (st_pending_reinit (g_state g)). cbn. by destruct (g_state g). Qed.

Lemma group_open_rejects message : keeps rejected (open message).
Proof using Type.
  assert (forall A (m : SM SecretTree MlsError A), keeps rejected (zoom_secret_tree m)).
  { intros A m. apply (keeps_zoom _ _ _ _ (fun _ _ => True)); [done|]. intros. apply rejected_secrets. }
  unfold open, decryption_key. keeps.
Qed.

Lemma zoom_repo_rejects {A} (m : SM (GroupStateRepository S K) MlsError A) : keeps same_epochs m -> keeps rejected (zoom_g_repo m).
Proof using Type. intros Hm. apply (keeps_zoom _ _ _ _ _ Hm). intros. by apply rejected_repo. Qed.

Lemma decrypt_rejects message : keeps rejected (decrypt_incoming_ciphertext message).
Proof using Type*.
  pose proof group_open_rejects as Ho.
  assert (forall id, keeps rejected (zoom_g_repo (get_epoch_mut prior_epoch_stored_codec id))) by (intros; apply zoom_repo_rejects, get_epoch_mut_keeps).
  assert (forall s, keeps rejected (zoom_g_repo (zoom_slot s (decrypt_in_prior_epoch message))))
    by (intros; apply zoom_repo_rejects, zoom_slot_keeps, prior_epoch_keeps).
  unfold decrypt_incoming_ciphertext. keeps.
Qed.

Lemma key_schedule_rejects secrets interim tag pv (g : Grp) :
  (forall t s, secrets = Some (t, s) -> same_member (g_private_tree g) t) ->
  runs (group_update_key_schedule secrets interim tag pv) g (fun _ _ => True) (rejected g).
Proof using Type*.
  intros Hs. unfold group_update_key_schedule. apply (runs_bind _ _ _ (fun _ => rejected g)).
  { destruct secrets as [[t s]|]; [|apply runs_ret; reflexivity]. apply runs_modify_bind, runs_ret.
    apply rejected_same; try done. by eapply Hs. }
  intros secret g1 Hg1. apply runs_get_bind. apply runs_lift_bind; [done|]. intros [r tag'] _.
  apply runs_lift_bind; [done|]. intros [] _. apply (runs_bind _ _ _ (fun _ _ => True)); [|done].
  eapply runs_mono; [apply insert_past_runs|done|]. by intros g2 ->.
Qed.

Lemma apply_path_rejects coins sender path pv : keeps rejected (group_apply_update_path coins sender path pv).
Proof using Type*.
  unfold group_apply_update_path. keeps. intros. by apply rejected_same.
Qed.

Lemma process_commit_rejects coins content time (g : Grp) : own_legacy g ->
  runs (process_commit (mp := group_processor) coins content time) g (fun _ _ => True) (rejected g).
Proof using Type*.
  intros Hl. unfold process_commit. apply runs_get_bind. apply runs_lift_bind; [reflexivity|]. intros c _.
  apply (runs_bind _ _ _ (fun r g1 => g_pending_commit g1 = g_pending_commit g /\ rejected g g1)).
  { unfold take_commit_effect. apply runs_get_bind. destruct (last _) as [r|]; [|by apply runs_ret].
    apply runs_modify_bind, runs_ret. split; [done|]. apply rejected_set_state. }
  intros [effect pv] g1 (Ep1 & Hg1). assert (own_legacy g1) as Hl1.
  { intros l El. unfold same_member. rewrite (rj_index _ _ Hg1). apply Hl. congruence. }
  apply (runs_bind _ _ _ (fun r g2 => rejected g g2 /\ forall t s, r.1 = Some (t, s) -> same_member (g_private_tree g) t)).
  { destruct (ch_update_path c) as [path|]; [destruct (bool_decide _)|]; [done| |done].
    pose proof (apply_path_runs coins (ch_sender c) path pv g1 Hl1) as Hr.
    pose proof (apply_path_rejects coins (ch_sender c) path pv g1) as Hk. unfold runs in *. cbn in *.
    destruct (group_apply_update_path _ _ _ _ g1) as [[[o pv']|e|] g2]; cbn in *; [|by etrans..].
    split; [by etrans|]. destruct Hr as (_ & _ & Hm). intros t s Ht. specialize (Hm t s Ht). unfold same_member in *.
    rewrite Hm. apply Hg1. }
  intros [secrets pv2] g2 (Hg2 & Hm). apply runs_lift_bind; [done|]. intros pv3 _.
  destruct (confirmation_tag (ac_auth content)) as [tag|]; [|by apply runs_lift].
  apply (runs_bind _ _ _ (fun _ _ => True)); [|done]. destruct (bool_decide _); [done|].
  eapply runs_mono; [apply key_schedule_rejects|done|intros g3 Hg3; by etrans].
  intros t s Ht. specialize (Hm t s Ht). unfold same_member in *. rewrite Hm. symmetry. apply Hg2.
Qed.

(** C10: a message that is rejected does not move the group.  Whatever the
    message and the error, the state of the group, its stored epochs, key
    schedule, pending updates and pending commit are as they were.  What can
    change are the ratchets that decryption consumed, the pending
    re-initialization, and, when a commit fails after its path was opened, the
    private keys and the signer of the member; a commit that fails the checks
    before that changes nothing. *)
Theorem rejected_message (g g' : Grp) (coins : Coins) (now : Z) (message : MlsMessage) (cache : bool) (time : option Z)
    (r : mres ReceivedMessage) (Hl : own_legacy g)
    (Hr : mp_process_incoming_message_with_time (mp := group_processor) coins now message cache time g = (r, g'))
    (Hno : is_ok r = false) :
  rejected g g' /\
  forall content, get_event_from_incoming_message (mp := group_processor) now message time g = (Ok (EventContent content), g) ->
    is_ok (check_commit (mp := group_processor) g content time) = false -> g' = g.
Proof using Type*.
  split.
  - assert (runs (mp_process_incoming_message_with_time (mp := group_processor) coins now message cache time) g
      (fun _ _ => True) (rejected g)) as Hruns.
    { unfold mp_process_incoming_message_with_time. apply (runs_bind _ _ _ (fun _ => rejected g)).
      - apply keeps_runs. unfold get_event_from_incoming_message. apply (keeps_bind _); [auto with keeps|]. intros m.
        apply (keeps_bind _); [auto with keeps|]. intros []. pose proof decrypt_rejects. destruct (payload message); keeps.
      - intros ev g1 Hg1. unfold process_event_or_content. destruct ev as [o|content]; [done|]. unfold process_auth_content.
        destruct (fc_content (ac_content content)).
        + by apply runs_lift.
        + apply (runs_bind _ _ _ (fun _ _ => True)); [|done]. unfold process_proposal.
          apply runs_lift_bind; [done|]. intros d _. apply (runs_bind _ _ _ (fun _ _ => True)); [by destruct cache|done].
        + apply (runs_bind _ _ _ (fun _ _ => True)); [|done].
          eapply runs_mono; [apply process_commit_rejects|done|intros g2 Hg2; by etrans].
          intros l El. unfold same_member. rewrite (rj_index _ _ Hg1). apply Hl. by rewrite <- (rj_pending _ _ Hg1). }
    unfold runs in Hruns. rewrite Hr in Hruns. by destruct r.
  - intros content He Hc. unfold mp_process_incoming_message_with_time in Hr. rewrite (sm_bind_run _ _ _ _ _ He) in Hr.
    unfold process_event_or_content, process_auth_content in Hr. destruct (fc_content (ac_content content)) as [d|p|c].
    + by injection Hr as _ <-.
    + unfold process_proposal, mbind, sm_bind, sm_lift in Hr.
      destruct (proposal_description_new content p); [|by injection Hr as _ <-..].
      destruct cache; injection Hr as <- _; done.
    + unfold process_commit, mbind, sm_bind, sm_get, sm_lift in Hr.
      destruct (check_commit g content time); [done|by injection Hr as _ <-..].
Qed.
End rejection.

(** ** The invariant at work *)

Section at_work.
#[local] Existing Instance plain_provider.
#[local] Existing Instance plain_order.
#[local] Existing Instance Toy.provider.

(** Alice, with Bob and Carol to be added, before and after she stored the
    group, and once her commit is applied. *)
Definition alice_committing : ToyGroup := (build (toy_commit_coins 40) 100 adding alice_0).2.
Definition alice_stored : ToyGroup := (write_to_storage alice_committing).2.
Definition alice_applied : ToyGroup := (apply_pending_commit alice_stored).2.

(** The same commit, detached. *)
Definition alice_detaching := build_detached (toy_commit_coins 40) 100 adding alice_0.
Definition alice_secrets : PendingCommitSnapshot := match alice_detaching.1 with Ok (_, s) => s | _ => NoPendingCommit end.
Definition alice_detached : ToyGroup := (apply_detached_commit alice_secrets (write_to_storage alice_detaching.2).2).2.

Lemma alice_starts : starts alice_0.
Proof.
  assert (is_ok (group_new_with (cs := Toy.provider) (group_coins 10 toy_suite) 100 toy_config (Some [7]) 1
    (mk_signing_identity [1] (Basic [1])) [] [] [1] None) = true) as E by (vm_compute; reflexivity).
  apply (value_ok no_group) in E. eapply starts_new; [exact E| |].
  - split; [vm_compute; reflexivity|]. exists 0. intros i rec Hi. by vm_compute in Hi.
  - vm_compute. reflexivity.
Qed.

(** A commit that can be encoded, decoded and sent is typed. *)
Definition check_typed (r : res MlsError (CommitOutput * PendingCommit)) : Prop :=
  match r with
  | Ok (_, p) =>
      let b := value [] (mls_encode_to_vec (pending_commit_codec_with unchecked_codec) p) in
      forallb (fun z => (0 <=? z) && (z <? 256)) b = true /\
      mls_decode (pending_commit_codec_with unchecked_codec) b = Ok (p, []) /\ pending_unreserved p = true
  | _ => True
  end.

Lemma check_typed_ok r : check_typed r.1 -> typed_commit (C := ToyConfig) (S := InMemoryGroupStateStorage) (K := gmap bytes KeyPackageData) r.
Proof.
  intros Hc o p E. rewrite E in Hc. destruct Hc as (Hb & Hd & Hu). pose proof (decoded_wf _ pending_commit_wf _ _ Hb Hd) as Hw.
  split; [done|]. by apply pending_decides.
Qed.

Lemma alice_typed : typed_commit (build_internal (toy_commit_coins 40) 100 adding alice_0).
Proof. apply check_typed_ok. vm_compute. split; [|split]; reflexivity. Qed.

Lemma alice_holds : held alice_0 alice_detaching.1 = [(0, alice_secrets)].
Proof.
  assert (is_ok alice_detaching.1 = true) as E by (vm_compute; reflexivity). unfold alice_secrets.
  destruct alice_detaching.1 as [[o s]|e|]; [reflexivity|discriminate..].
Qed.

Lemma alice_detaches careful : step careful (mk_member alice_0 []) (mk_member alice_detaching.2 [(0, alice_secrets)]).
Proof.
  pose proof (step_detach careful (mk_member alice_0 []) (toy_commit_coins 40) 100 adding alice_typed) as Hs.
  cbn [mb_group mb_secrets] in Hs. fold alice_detaching in Hs. by rewrite app_nil_r, alice_holds in Hs.
Qed.

(** Alice stores the group between building the commit and applying it. *)
Lemma group_invariant_witness :
  nsteps (step true) 3 (mk_member alice_0 []) (mk_member alice_detached [(0, alice_secrets)]) /\ group_ok alice_detached /\
  epoch (st_context (g_state alice_detached)) = 1.
Proof.
  assert (nsteps (step true) 3 (mk_member alice_0 []) (mk_member alice_detached [(0, alice_secrets)])) as Hn.
  { econstructor; [apply alice_detaches|]. econstructor; [apply step_write|].
    { intros _ ref Href. vm_compute in Href. discriminate. }
    econstructor; [eapply (step_apply_detached _ _ 0 alice_secrets)|constructor].
    - left.
    - intros _. split; vm_compute; reflexivity. }
  split; [exact Hn|]. split; [|vm_compute; reflexivity].
  apply (group_invariant true alice_0 _ 3 alice_starts Hn); [reflexivity|]. vm_compute. reflexivity.
Defined.

Lemma pending_commit_applies_witness : exists p g', apply_pending_commit alice_stored = (Ok (pnd_output p), g') /\
  epoch (st_context (g_state g')) = 1.
Proof.
  assert (nsteps (step true) 2 (mk_member alice_0 []) (mk_member alice_stored [])) as Hn.
  { econstructor; [apply step_op, op_commit, alice_typed|]. econstructor; [apply step_write|constructor].
    intros _ ref Href. vm_compute in Href. discriminate. }
  destruct (pending_commit_applies alice_0 (mk_member alice_stored []) 2
    (match g_pending_commit alice_stored with PendingBytes b => b | _ => [] end) alice_starts Hn)
    as (p & _ & [(e & _ & He & _)|(_ & g' & Ha & _ & _ & _ & _ & _ & _ & He & _)]).
  - vm_compute. reflexivity.
  - vm_compute. reflexivity.
  - vm_compute in He. discriminate.
  - exists p, g'. split; [exact Ha|]. rewrite He. vm_compute. reflexivity.
Defined.

(** A member that is not careful goes back.  Alice detaches a commit, then makes
    and applies two others; the detached one, of epoch 0, takes the group from
    epoch 2 to epoch 1 again. *)
Definition alice_second : ToyGroup := (build (toy_commit_coins 60) 100 adding alice_detaching.2).2.
Definition alice_once : ToyGroup := (apply_pending_commit alice_second).2.
Definition alice_third : ToyGroup := (build (toy_commit_coins 70) 100 commit_builder alice_once).2.
Definition alice_twice : ToyGroup := (apply_pending_commit alice_third).2.
Definition alice_back : ToyGroup := (apply_detached_commit alice_secrets alice_twice).2.

Lemma stale_commit_goes_back :
  epoch (st_context (g_state alice_twice)) = 2 /\
  is_ok (apply_detached_commit alice_secrets alice_twice).1 = true /\ epoch (st_context (g_state alice_back)) = 1 /\
  nsteps (step false) 6 (mk_member alice_0 []) (mk_member alice_back [(0, alice_secrets)]).
Proof.
  split; [vm_compute; reflexivity|]. split; [vm_compute; reflexivity|]. split; [vm_compute; reflexivity|].
  assert (typed_commit (build_internal (toy_commit_coins 60) 100 adding alice_detaching.2)) as T1
    by (apply check_typed_ok; vm_compute; split; [|split]; reflexivity).
  assert (typed_commit (build_internal (toy_commit_coins 70) 100 commit_builder alice_once)) as T2
    by (apply check_typed_ok; vm_compute; split; [|split]; reflexivity).
  set (h := [(0, alice_secrets)]).
  assert ((0, alice_secrets) ∈ h) as Hin by left.
  assert (false = true -> 0 = epoch (st_context (g_state alice_twice)) /\ g_pending_commit alice_twice = NoPendingCommit) as Hc by done.
  eapply nsteps_l; [exact (alice_detaches false)|].
  eapply nsteps_l; [exact (step_op false (mk_member alice_detaching.2 h) alice_second (op_commit _ _ _ _ T1))|].
  eapply nsteps_l; [exact (step_op false (mk_member alice_second h) alice_once (op_apply _))|].
  eapply nsteps_l; [exact (step_op false (mk_member alice_once h) alice_third (op_commit _ _ _ _ T2))|].
  eapply nsteps_l; [exact (step_op false (mk_member alice_third h) alice_twice (op_apply _))|].
  eapply nsteps_l; [exact (step_apply_detached false (mk_member alice_twice h) 0 alice_secrets Hin Hc)|]. constructor.
Qed.

(** Alice rejects the forged commit; the key she has for the node above her and
    Bob is no longer the key of that node. *)
Definition alice_rejecting : ToyGroup :=
  (mp_process_incoming_message_with_time (mp := group_processor) 0%nat 100 forged true None alice_2).2.

Lemma rejected_message_witness :
  mp_process_incoming_message_with_time (mp := group_processor) 0%nat 100 forged true None alice_2 =
    (Err InvalidConfirmationTag, alice_rejecting) /\
  rejected alice_2 alice_rejecting /\
  zget (secret_keys (g_private_tree alice_2)) 1 <> zget (secret_keys (g_private_tree alice_rejecting)) 1.
Proof.
  assert (mp_process_incoming_message_with_time (mp := group_processor) 0%nat 100 forged true None alice_2 =
    (Err InvalidConfirmationTag, alice_rejecting)) as E.
  { assert (forall (m : res MlsError ReceivedMessage * ToyGroup) (e : MlsError), m.1 = Err e -> m = (Err e, m.2)) as Hp.
    { intros [r g] e; cbn. by intros ->. }
    apply Hp. vm_compute. reflexivity. }
  split; [exact E|]. split.
  - refine (proj1 (rejected_message alice_2 alice_rejecting 0%nat 100 forged true None _ _ E eq_refl)).
    intros l El. vm_compute in El. discriminate.
  - vm_compute. discriminate.
Defined.
End at_work.
