(* ===== verification/Agreement.v ===== *)
(** * Commits agree

    The sender of a commit and those that process it: what a member's commit
    with proposals that are all valid makes of the group, other members in the
    same epoch accept, and all arrive in the same epoch. *)

From S2P Require Import Prelude Codec Crypto TreeMath SecretTree Data NodeVec TreeIndex TreeHash ParentHash TreeInv Proposals TreeKem TreePath LeafNodes Kem Framing KeySchedule MessageProtection EpochStore Filtering GroupState Processor Group Commit Client StateLogic Scenario Snapshots Observer Following PathAgreement GroupInv.

#[local] Set Default Goal Selector "!".
Local Open Scope Z_scope.

(** ** The roster of a commit *)

Lemma roster_run_kept m es m' i l : roster_run m es m' -> m !! i = Some l ->
  EditRemove i ∉ es -> (forall l', EditUpdate i l' ∉ es) -> m' !! i = Some l.
Proof.
  induction 1 as [|m e m1 es m2 Hs _ IH]; [done|]. intros Hi Hr Hu. apply IH.
  - inversion Hs; subst; destruct (decide (i = i0)) as [->|Hne]; try by rewrite ?lookup_delete_ne, ?lookup_insert_ne.
    + exfalso. apply Hr. by left.
    + exfalso. eapply Hu. by left.
    + congruence.
  - intros Hin. apply Hr. by right.
  - intros l' Hin. eapply Hu. by right.
Qed.

(** A member that is updated to one leaf, and not removed, has that leaf. *)
Lemma roster_run_updated m es m' i l : roster_run m es m' -> EditRemove i ∉ es ->
  (forall l', EditUpdate i l' ∈ es -> l' = l) -> m !! i = Some l \/ is_Some (m !! i) /\ EditUpdate i l ∈ es -> m' !! i = Some l.
Proof.
  induction 1 as [|m e m1 es m2 Hs _ IH]; intros Hr Hu Hi; [destruct Hi as [|[_ []%elem_of_nil]]; done|].
  apply IH; [by intros ?; apply Hr; right|intros l' ?; apply Hu; by right|].
  assert (e <> EditRemove i) as Hne by (intros ->; apply Hr; by left).
  inversion Hs; subst; destruct (decide (i0 = i)) as [->|Hx]; rewrite ?lookup_delete_ne, ?lookup_insert_ne by done.
  - done.
  - destruct Hi as [|[? [?|?]%elem_of_cons]]; [by left|congruence|by right].
  - rewrite lookup_insert_eq. left. f_equal. apply Hu. by left.
  - destruct Hi as [|[? [?|?]%elem_of_cons]]; [by left|congruence|by right].
  - destruct Hi as [|[[] _]]; congruence.
  - destruct Hi as [|[? [?|?]%elem_of_cons]]; [by left|congruence|by right].
Qed.

(** ** The private keys of a receiver *)

Lemma node_level (v : NodeVec) (k : nat) j n : zlen v <= 2 ^ 26 -> 0 <= j -> nd v (node (Z.of_nat k) j) = Some n -> (k <= depth v)%nat.
Proof.
  intros Hz Hj Hn. apply nd_bound in Hn. destruct (total_leaf_count_pow _ Hz) as (d & Hd & E & Hlen).
  destruct (total_leaf_count_depth _ Hz) as (E' & Hd'). rewrite E' in E. apply Z.pow_inj_r in E; [|lia..].
  destruct (decide (k <= depth v)%nat) as [|Hgt]; [done|exfalso].
  assert (2 ^ (d + 1) <= 2 ^ Z.of_nat k) by (apply Z.pow_le_mono_r; lia). unfold node in Hn.
  assert (2 ^ (d + 1) = 2 * 2 ^ d) by (by rewrite pow2_succ by lia). nia.
Qed.

Lemma above_0 i : above i 0 = 2 * i.
Proof. unfold above. change (Z.of_nat 0) with 0. by rewrite Z.shiftr_0_r, node_0. Qed.

(** The loop of [provisional_private_tree] drops the keys of the blank nodes. *)
Lemma forget_run v cps : forall m p, 0 <= m -> m + zlen cps < zlen (secret_keys p) ->
  Forall (fun cp => borrow_node v (path cp) = Ok (nd v (path cp))) cps ->
  exists p', forget_blank_keys v (enum_from m cps) p = (Ok tt, p') /\ self_index p' = self_index p /\
    zlen (secret_keys p') = zlen (secret_keys p) /\
    forall k, zget (secret_keys p') k = match zget cps (k - m - 1) with
      | Some cp => match nd v (path cp) with None => Some None | Some _ => zget (secret_keys p) k end
      | None => zget (secret_keys p) k
      end.
Proof.
  induction cps as [|cp cps IH]; intros m p Hm Hl Hb.
  { exists p. split; [done|]. split; [done|]. split; [done|]. intros k. unfold zget at 2. by destruct (_ <? 0). }
  apply Forall_cons in Hb as [Hcp Hb]. assert (zlen (cp :: cps) = zlen cps + 1) as Hc by (unfold zlen; simpl; lia).
  pose proof (zlen_nonneg cps). rewrite enum_from_cons. cbn [forget_blank_keys]. unfold is_blank. rewrite Hcp.
  rewrite (sm_lift_run _ _ _ (match nd v (path cp) with None => true | _ => false end)) by (by destruct (nd v (path cp))).
  set (p1 := match nd v (path cp) with None => set_keys (zset (secret_keys p) (m + 1) None) p | Some _ => p end).
  rewrite (sm_bind_run _ _ p tt p1) by (unfold p1; destruct (nd v (path cp)); [done|]; apply put_key_run; lia).
  assert (self_index p1 = self_index p /\ zlen (secret_keys p1) = zlen (secret_keys p)) as [Hs1 Hl1].
  { unfold p1. destruct (nd v (path cp)); [done|]. split; [done|]. apply zlen_zset. }
  destruct (IH (m + 1) p1) as (p' & Hrun & Hs & Hlen & Hk); [lia|lia|done|].
  exists p'. split; [exact Hrun|]. split; [congruence|]. split; [congruence|]. intros k. rewrite Hk.
  destruct (decide (k = m + 1)) as [->|Hne].
  - replace (m + 1 - (m + 1) - 1) with (-1) by lia. replace (m + 1 - m - 1) with 0 by lia.
    change (zget (cp :: cps) 0) with (Some cp). change (zget cps (-1)) with (@None CopathNode). unfold p1.
    destruct (nd v (path cp)); [done|]. cbn. apply zget_zset_eq. lia.
  - assert (zget (secret_keys p1) k = zget (secret_keys p) k) as ->.
    { unfold p1. destruct (nd v (path cp)); [done|]. by apply zget_zset_ne. }
    assert (zget (cp :: cps) (k - m - 1) = zget cps (k - (m + 1) - 1)) as ->; [|done].
    unfold zget. destruct (Z.ltb_spec (k - m - 1) 0), (Z.ltb_spec (k - (m + 1) - 1) 0); try done; [lia|lia|].
    replace (Z.to_nat (k - m - 1)) with (S (Z.to_nat (k - (m + 1) - 1))) by lia. done.
Qed.

(** The keys of a member belong to the tree once they are as many as the nodes
    of its path; a commit without a path leaves them as many as they were. *)
Definition keys_fit `{CipherSuiteProvider} (v : NodeVec) (q : TreeKemPrivate) : Prop :=
  private_ok v (resize_keys (Z.of_nat (depth v) + 1) q).

Lemma resize_key n q (k : nat) : Z.of_nat k < n -> secret_keys (resize_keys n q) !! k =
  match secret_keys q !! k with Some key => Some key | None => Some None end.
Proof.
  intros Hk. unfold resize_keys. cbn [secret_keys set_keys].
  destruct (decide (k < length (secret_keys q))%nat) as [Hlt|Hge].
  - rewrite lookup_app_l by (rewrite length_take; lia). rewrite lookup_take_lt by lia.
    by destruct (lookup_lt_is_Some_2 _ _ Hlt) as [key ->].
  - rewrite (lookup_ge_None_2 (secret_keys q)) by lia.
    rewrite lookup_app_r by (rewrite length_take; lia). rewrite length_take. apply lookup_replicate_2. unfold zlen. lia.
Qed.

Section private_keys.
Context {idp : IdentityProvider} {cs : CipherSuiteProvider}.

Lemma private_fit v q : private_ok v q -> keys_fit v q.
Proof.
  intros [Hm Hl Hp Hh]. assert (forall k : nat, (k <= depth v)%nat -> secret_keys (resize_keys (Z.of_nat (depth v) + 1) q) !! k = secret_keys q !! k) as E.
  { intros k Hk. rewrite resize_key by lia. destruct (lookup_lt_is_Some_2 (secret_keys q) k ltac:(lia)) as [key ->]. done. }
  split; cbn [self_index resize_keys set_keys].
  - done.
  - pose proof (resize_len (Z.of_nat (depth v) + 1) q ltac:(lia)) as Hz. unfold zlen in Hz. lia.
  - intros k sk n Hk. rewrite E by done. by apply Hp.
  - intros k n Hk. rewrite E by done. by apply Hh.
Qed.

(** Proposals that keep the own leaf keep the keys fitting. *)
Lemma keys_fit_proposals v v' q l : vec_inv [] v -> vec_inv [] v' -> parents_from v v' -> keys_fit v q ->
  leaf_at v (self_index q) = Some l -> leaf_at v' (self_index q) = Some l -> keys_fit v' q.
Proof.
  intros Hv Hv' Hfrom [_ _ Hpair Hhave] Hl0 Hl. cbn [self_index resize_keys set_keys] in *. set (i := self_index q) in *.
  destruct (leaf_range v' i l Hv' Hl) as (Hi & _). destruct (vec_inv_len _ _ Hv) as [_ Hz].
  (* a node of the path is the leaf, or was there before *)
  assert (forall (k : nat) n, nd v' (above i k) = Some n ->
    (k <= depth v)%nat /\ exists n0, nd v (above i k) = Some n0 /\ node_public_key n = node_public_key n0 /\
      (forall p, n0 = NodeParent p -> i ∈ unmerged_leaves p -> exists p', n = NodeParent p' /\ i ∈ unmerged_leaves p')) as Hnode.
  { intros [|k] n Hn.
    - rewrite above_0, (nd_leaf_at _ _ _ Hl) in Hn. injection Hn as <-. split; [lia|]. exists (NodeLeaf l).
      rewrite above_0. split; [by apply nd_leaf_at|]. by split.
    - pose proof (vi_parity _ _ Hv' _ _ Hn) as Ho. destruct n as [|p'].
      { unfold above in Ho. rewrite odd_node_S in Ho; [done|]. apply Z.shiftr_nonneg. lia. }
      destruct (Hfrom (above i (1 + k)) p') as (p & Hp & Ek & _ & Hu); [unfold parent_at; by rewrite (Hn : nd v' (above i (1 + k)) = _)|].
      apply nd_parent_at in Hp. split.
      + apply (node_level v (1 + k) (Z.shiftr i (Z.of_nat (1 + k))) (NodeParent p)); [done| |done]. apply Z.shiftr_nonneg. lia.
      + exists (NodeParent p). split; [done|]. split; [done|]. intros p0 [= <-] Hin. exists p'. split; [done|]. by apply Hu. }
  split; cbn [self_index resize_keys set_keys]; fold i.
  - by exists l.
  - pose proof (resize_len (Z.of_nat (depth v') + 1) q ltac:(lia)) as Hq. unfold zlen in Hq. lia.
  - intros k sk n Hk Hsk Hn. destruct (Hnode k n Hn) as (Hkv & n0 & Hn0 & -> & _).
    apply (Hpair k sk n0); [done| |done]. rewrite resize_key in Hsk |- * by lia. exact Hsk.
  - intros k n Hk Hsk Hn. destruct (Hnode k n Hn) as (Hkv & n0 & Hn0 & _ & Hun).
    destruct (Hhave k n0) as (p & -> & Hin); [done| |done|]; [rewrite resize_key in Hsk |- * by lia; exact Hsk|by apply (Hun p)].
Qed.
End private_keys.

Section provisional_keys.
Context {idp : IdentityProvider} {cs : CipherSuiteProvider} {C K P S R : Type} {cc : ClientConfig C K P S R}.
Context `{MapOrder, !GroupStateStorage S, !KeyPackageStorage K, !PreSharedKeyStorage P, !MlsRules R}.
Notation Grp := (Group C S K).

(** The keys that a member keeps for the next epoch. *)
Lemma provisional_private_spec (h : Grp) (pv : ProvisionalState) (l : LeafNode) :
  let i := self_index (g_private_tree h) in
  let v := nodes (pv_public_tree pv) in
  vec_inv [] v -> leaf_at v i = Some l -> keys_fit v (g_private_tree h) -> own_update i (pv_applied_proposals pv) = None ->
  exists t, provisional_private_tree h pv = Ok (t, None) /\ private_ok v t /\ self_index t = i.
Proof.
  intros i v Hv Hl [_ Hlen Hpair Hhave] Hown. cbn [self_index resize_keys set_keys] in Hpair, Hhave. fold i in Hpair, Hhave.
  destruct (leaf_range v i l Hv Hl) as (Hi & Hd & _ & _ & Hz & Epath). pose proof (own_path_len v i l Hv Hl) as Hpl.
  unfold provisional_private_tree. fold i v. rewrite Hpl. set (q := resize_keys _ (g_private_tree h)) in *.
  assert (zlen (secret_keys q) = Z.of_nat (depth v) + 1) as Hq by (apply resize_len; lia).
  destruct (forget_run v (vec_direct_copath v i) 0 q) as (t & Hrun & Hti & Htl & Htk); [lia|lia| |].
  { apply Forall_forall. intros cp Hin. rewrite Epath in Hin. apply list_elem_of_lookup in Hin as (k & Hk).
    pose proof (lookup_lt_Some _ _ _ Hk) as Hlt. rewrite length_copath_spec in Hlt. rewrite lookup_copath_spec in Hk by lia. injection Hk as <-.
    cbn [path]. pose proof (own_path_borrow v i l Hv Hl (1 + k) ltac:(lia)) as Hb. unfold above in Hb.
    rewrite Z.add_0_l. by replace (Z.of_nat k + 1) with (Z.of_nat (1 + k)) by lia. }
  change (enumerate (vec_direct_copath v i)) with (enum_from 0 (vec_direct_copath v i)).
  rewrite (proj2 (sm_exec_Ok _ q t)) by (by exists tt). cbn [mbind res_bind]. rewrite Hown.
  (* where there is a node, the key is kept *)
  assert (forall (k : nat) n, (k <= depth v)%nat -> nd v (above i k) = Some n -> secret_keys t !! k = secret_keys q !! k) as Hkept.
  { intros k n Hk Hn. rewrite <- !zget_nat, Htk. destruct k as [|k]; [done|].
    destruct (own_path_lookup v i l Hv Hl (1 + k) ltac:(lia)) as (cp & Hcp & Ep).
    replace (Z.of_nat (Datatypes.S k) - 0 - 1) with (Z.of_nat k) by lia. rewrite (zget_nat (vec_direct_copath v i)).
    change (vec_direct_copath v i !! k = Some cp) in Hcp. rewrite Hcp, Ep, (Hn : nd v (above i (1 + k)) = _). done. }
  exists t. split; [done|]. split; [|done]. split; rewrite ?Hti; change (self_index q) with i.
  - by exists l.
  - unfold zlen in *. lia.
  - intros k sk n Hk Hsk Hn. rewrite (Hkept k n) in Hsk by done. by apply (Hpair k sk n).
  - intros k n Hk Hsk Hn. rewrite (Hkept k n) in Hsk by done. by apply (Hhave k n).
Qed.
End provisional_keys.

(** ** The proposals of a commit *)

Section same_proposals.
Context {idp : IdentityProvider} {cs : CipherSuiteProvider}.

Lemma elem_of_unique x l : x ∈ unique l <-> x ∈ l.
Proof.
  induction l as [|y l IH]; [done|]. cbn [unique]. rewrite !elem_of_cons, list_elem_of_In, filter_In, <- list_elem_of_In, IH.
  destruct (Z.eqb_spec x y) as [->|Hne]; cbn; naive_solver.
Qed.

(** A receiver has every external pre-shared key the sender has. *)
Definition shares_keys {P P'} `{PreSharedKeyStorage P, PreSharedKeyStorage P'} (store : P) (store' : P') : Prop :=
  forall id, psk_contains store id = Ok true -> psk_contains store' id = Ok true.

(** The bundle does not depend on what the store holds besides its keys, nor on
    the leaf of a newcomer. *)
Lemma member_bundle_shared {P P'} `{!PreSharedKeyStorage P, !PreSharedKeyStorage P'} (store : P) (store' : P') tree ctx leaf leaf' c t b :
  shares_keys store store' -> member_bundle_ok (mk_applier tree ctx leaf) store c t b ->
  member_bundle_ok (mk_applier tree ctx leaf') store' c t b.
Proof.
  intros Hst [H1 H2 H3 H4 H5 H6 H7 H8 H9 H10 H11]. split; try done. eapply Forall_impl; [exact H5|]. cbn beta. intros p.
  unfold psk_valid. destruct (key_id (psk (proposal p))) as [e|r]; [|done].
  destruct (psk_contains store e) as [[]| |] eqn:Ec; cbn [mbind res_bind guard_or]; [|by repeat case_match..].
  by rewrite (Hst _ Ec).
Qed.

Lemma prepare_run b d tree us :
  Forall (fun p => can_support_proposal tree (custom_proposal_type (proposal p)) = true) (custom_proposals b) ->
  prepare_proposals_for_mls_rules (set_update_senders us b) d tree = Ok (set_update_senders us b).
Proof.
  intros Hc. unfold prepare_proposals_for_mls_rules, filter_out_unsupported_custom_proposals, sm_exec, retain_custom.
  cbn [custom_proposals set_update_senders].
  rewrite (retain_run (strategy_from d) (fun p : ProposalInfo CustomProposal => guard_or (UnsupportedCustomProposal (custom_proposal_type (proposal p)))
    (bool_decide (custom_proposal_type (proposal p) ∈ List.filter (can_support_proposal tree) (custom_proposal_types (set_update_senders us b)))))).
  - by destruct b.
  - rewrite Forall_forall in Hc |- *. intros p Hp. apply guard_true, bool_decide_eq_true. apply list_elem_of_In, filter_In.
    split; [|by apply Hc]. unfold custom_proposal_types. cbn [custom_proposals set_update_senders].
    apply list_elem_of_In, elem_of_unique, list_elem_of_fmap. by exists p.
Qed.

Lemma prepare_strict b tree b' : prepare_proposals_for_mls_rules b Receive tree = Ok b' ->
  b' = b /\ Forall (fun p => can_support_proposal tree (custom_proposal_type (proposal p)) = true) (custom_proposals b).
Proof.
  unfold prepare_proposals_for_mls_rules, filter_out_unsupported_custom_proposals, sm_exec, retain_custom. cbn [strategy_from].
  destruct (retain_loop _ _) as [[[]| |] l] eqn:E; [|done|done]. intros [= <-].
  apply (retain_left IgnoreNone (fun p : ProposalInfo CustomProposal => guard_or (UnsupportedCustomProposal (custom_proposal_type (proposal p)))
    (bool_decide (custom_proposal_type (proposal p) ∈ List.filter (can_support_proposal tree) (custom_proposal_types b))))) in E as [E _].
  destruct (E eq_refl) as [Hl _]. apply left_by_strict in Hl as [-> Hall]; [|done]. split; [by destruct b|].
  eapply Forall_impl; [exact Hall|]. cbn beta. intros p Hp. apply guard_or_Ok, bool_decide_eq_true, list_elem_of_In, filter_In in Hp. apply Hp.
Qed.

(** Rules that leave the proposals as they are, as the default ones do. *)
Definition accepts_all {R} `{!MlsRules R} (rules : R) : Prop :=
  forall d o r c b, rules_filter_proposals rules d o r c b = Ok b.

Definition set_unused (u : list (ProposalInfo Proposal)) (pv : ProvisionalState) : ProvisionalState :=
  mk_provisional_state (pv_public_tree pv) (pv_applied_proposals pv) (pv_group_context pv) (pv_external_init_index pv)
    (pv_indexes_of_added_kpkgs pv) u.

(** What a strict application makes of a member's proposals. *)
Record applied_strictly {P} `{!PreSharedKeyStorage P} (s : GroupState) (store : P) (c : Z) (time : option Z) (b : ProposalBundle)
    (pv : ProvisionalState) : Prop := {
  ap_sender : leaf_index_try_from c = Ok c;
  ap_origin : exists m, member_with_index (nodes (st_public_tree s)) c = Ok m;
  ap_custom : Forall (fun p => can_support_proposal (st_public_tree s) (custom_proposal_type (proposal p)) = true) (custom_proposals b);
  ap_bundle : pv_applied_proposals pv = set_update_senders (update_senders (pv_applied_proposals pv)) b;
  ap_ok : member_bundle_ok (mk_applier (st_public_tree s) (st_context s) None) store c time (pv_applied_proposals pv);
  ap_changes : exists out, apply_proposal_changes (mk_applier (st_public_tree s) (st_context s) None) IgnoreNone
      (pv_applied_proposals pv) time = Ok out /\
    pv_public_tree pv = new_tree out /\ pv_applied_proposals pv = applied_proposals out /\
    pv_external_init_index pv = external_init_index out /\ pv_indexes_of_added_kpkgs pv = indexes_of_added_kpkgs out /\
    pv_group_context pv = match new_context_extensions out with
      | Some x => set_gc_extensions x (set_epoch (wrap 64 (epoch (st_context s) + 1)) (st_context s))
      | None => set_epoch (wrap 64 (epoch (st_context s) + 1)) (st_context s)
      end;
}.

Section exchange.
Context `{MapOrder} {P R P' R' : Type} `{!PreSharedKeyStorage P, !MlsRules R, !PreSharedKeyStorage P', !MlsRules R'}.

Lemma bundle_senders (b b' : ProposalBundle) us : b' = set_update_senders us b -> b' = set_update_senders (update_senders b') b'.
Proof. intros ->. by destruct b. Qed.

(** Whoever has the state applies a bundle that a strict application accepts. *)
Lemma applied_exchange (s s' : GroupState) (store : P) (store' : P') (rules' : R') c time b us leaf d pv :
  st_context s' = st_context s -> st_public_tree s' = st_public_tree s -> shares_keys store store' -> accepts_all rules' ->
  applied_strictly s store c time b pv ->
  exists u, apply_resolved s' (SenderMember c) (set_update_senders us b) leaf store' rules' time d = Ok (set_unused u pv).
Proof.
  intros Ec Et Hst Hr [Hc [m Hm] Hcus Eb Hok (out & Hout & E1 & E2 & E3 & E4 & E5)]. unfold apply_resolved. rewrite Et, Ec.
  cbn [commit_origin]. rewrite Hm. cbn [fmap res_fmap mbind res_bind]. rewrite prepare_run by done. cbn [mbind res_bind].
  rewrite Hr. cbn [from_rules map_err mbind res_bind apply_proposals]. rewrite Hc. cbn [mbind res_bind].
  unfold apply_proposals_from_member.
  assert (set_update_senders us b = set_update_senders us (pv_applied_proposals pv)) as -> by (rewrite Eb; by destruct b).
  rewrite (filter_from_member_run _ store' (strategy_from d) c time _ us (member_bundle_shared store store' _ _ None leaf c time _ Hst Hok)).
  cbn [mbind res_bind].
  change (apply_proposal_changes (mk_applier ?t ?x leaf)) with (apply_proposal_changes (mk_applier t x None)).
  rewrite (apply_proposal_changes_any _ _ _ _ _ Hout). cbn [mbind res_bind]. eexists. f_equal. unfold set_unused.
  by rewrite E1, E2, E3, E4, E5.
Qed.

(** A strict application accepts the bundle as it is. *)
Lemma applied_strict (s : GroupState) (store : P) (rules : R) idf c time b pv :
  let edit t b := mk_edit_state t b in
  HashLaws -> (forall s ext, identity s ext = Ok (idf s)) -> tree_ok idf (st_public_tree s) ->
  tree_encodable (nodes (st_public_tree s)) -> hashes_current (nodes (st_public_tree s)) (tree_hashes (st_public_tree s)) ->
  received_ok b -> zlen (nodes (st_public_tree s)) + 2 * zlen (additions b) <= 2 ^ 25 ->
  accepts_all rules -> apply_resolved s (SenderMember c) b None store rules time Receive = Ok pv ->
  applied_strictly s store c time b pv /\
  edited idf (edit (st_public_tree s) (pv_applied_proposals pv)) (pv_indexes_of_added_kpkgs pv)
    (edit (pv_public_tree pv) (pv_applied_proposals pv)).
Proof.
  intros edit Hh Hid Ht Henc Hcur Hrec Hroom Hr. unfold apply_resolved. cbn [commit_origin].
  intros (o & Ho & (b1 & [-> Hcus]%prepare_strict & (b2 & E2 & (out & Eout & [= <-])%bind_Ok)%bind_Ok)%bind_Ok)%bind_Ok.
  rewrite Hr in E2. injection E2 as <-. cbn [apply_proposals strategy_from] in Eout. apply bind_Ok in Eout as (c' & Hc & Eout).
  assert (c' = c) as -> by (unfold leaf_index_try_from in Hc; destruct (_ <? _); [done|by injection Hc]).
  pose proof Eout as Hst. eapply (apply_from_member_strict _ store idf) in Hst as (Hok & Hn & _ & _ & _ & _ & _ & Hed); [|done..].
  apply bind_Ok in Eout as (b' & Hf & Eout). apply filter_from_member_left in Hf as [Hok' Hn'%narrowed_strict].
  assert (applied_proposals out = b') as Eap.
  { pose proof (mb_senders _ _ _ _ _ Hok) as S1. pose proof (mb_senders _ _ _ _ _ Hok') as S2.
    rewrite Hn in S1. rewrite Hn' in S2. cbn [updates set_update_senders update_senders] in S1, S2.
    rewrite Hn, Hn'. f_equal. congruence. }
  split; [|exact Hed]. split; cbn; try done.
  - destruct (member_with_index _ _) as [m'| |]; [by exists m'|done|done].
  - exists out. by rewrite Eap at 1.
Qed.
End exchange.
End same_proposals.

(** ** The members that stay *)

Lemma roster_present_adds m es m' i l l' : roster_run m es m' -> m !! i = Some l -> EditRemove i ∉ es -> EditAdd i l' ∉ es.
Proof.
  intros Hrun Hi. assert (is_Some (m !! i)) as Hs by (by exists l). clear Hi l.
  induction Hrun as [|m e m1 es m2 Hstep _ IH]; intros Hr; [by intros ?%elem_of_nil|].
  assert (e <> EditRemove i) as Hne by (intros ->; apply Hr; by left).
  intros [<-|Hin]%elem_of_cons; [inversion Hstep; subst; destruct Hs; congruence|].
  apply IH in Hin; [done| |by intros ?; apply Hr; right].
  inversion Hstep; subst; destruct (decide (i0 = i)) as [->|Hx]; rewrite ?lookup_delete_ne, ?lookup_insert_ne by done;
    try done; rewrite ?lookup_insert_eq; by eexists.
Qed.

Lemma roster_adds m es m' i l : roster_run m es m' -> Forall (fun e => exists j k, e = EditAdd j k) es ->
  EditAdd i l ∈ es -> 0 <= i /\ m' !! i = Some l.
Proof.
  induction 1 as [|m e m1 es m2 Hstep Hrun IH]; intros Hall; [by intros ?%elem_of_nil|].
  apply Forall_cons in Hall as [_ Hall]. intros [<-|Hin]%elem_of_cons; [|by apply IH].
  inversion Hstep; subst. split; [done|].
  apply (roster_run_kept _ _ _ _ _ Hrun); [by rewrite lookup_insert_eq|..]; rewrite Forall_forall in Hall.
  - intros Hin. by destruct (Hall _ Hin) as (? & ? & ?).
  - intros l' Hin. by destruct (Hall _ Hin) as (? & ? & ?).
Qed.

Section members.
Context `{CipherSuiteProvider} (idf : SigningIdentity -> bytes) (b : ProposalBundle) (t t' : TreeKemPublic) (added : list Z).
Context (He : edited idf (mk_edit_state t b) added (mk_edit_state t' b)).
Context (Hsenders : mapM_res leaf_index_of_update_sender (updates b) = Ok (update_senders b)).

(** The commit neither removes nor updates the member. *)
Definition untouched (i : Z) : Prop :=
  Forall (fun p => to_remove (proposal p) <> i) (removals b) /\ Forall (fun p => sender p <> SenderMember i) (updates b).

Lemma update_edit_sender i l : EditUpdate i l ∈ bundle_edits b added -> exists p, p ∈ updates b /\ sender p = SenderMember i.
Proof using Hsenders.
  unfold bundle_edits. rewrite !elem_of_app. intros [Hin|[Hin|Hin]].
  - by apply list_elem_of_fmap in Hin as (? & ? & _).
  - apply list_elem_of_fmap in Hin as ([p x] & [= -> ->] & Hin). apply list_elem_of_lookup in Hin as (k & Hk).
    apply lookup_zip_Some in Hk as [Hp Hx]. exists p. split; [by eapply list_elem_of_lookup_2|].
    apply mapM_res_Ok in Hsenders. pose proof (Forall2_lookup_lr _ _ _ _ _ _ Hsenders Hp Hx) as E. cbn beta in E.
    unfold leaf_index_of_update_sender, leaf_index_try_from in E. destruct (sender p); try done. destruct (_ <? _); [done|]. by injection E as ->.
  - by apply elem_of_lookup_zip_with in Hin as (? & ? & ? & ? & _).
Qed.

Lemma remove_edit_target i : EditRemove i ∈ bundle_edits b added -> exists p, p ∈ removals b /\ to_remove (proposal p) = i.
Proof using Type.
  unfold bundle_edits. rewrite !elem_of_app. intros [Hin|[Hin|Hin]].
  - apply list_elem_of_fmap in Hin as (j & [= ->] & Hin). apply elem_of_reverse, list_elem_of_fmap in Hin as (p & -> & Hp). by exists p.
  - by apply list_elem_of_fmap in Hin as ([? ?] & ? & _).
  - by apply elem_of_lookup_zip_with in Hin as (? & ? & ? & ? & _).
Qed.

Lemma untouched_edits i : untouched i -> EditRemove i ∉ bundle_edits b added /\ forall l, EditUpdate i l ∉ bundle_edits b added.
Proof using Hsenders.
  intros [Hr Hu]. rewrite Forall_forall in Hr; rewrite Forall_forall in Hu. split.
  - intros (p & Hp & E)%remove_edit_target. by apply (Hr p).
  - intros l (p & Hp & E)%update_edit_sender. by apply (Hu p).
Qed.

Lemma untouched_leaf i l : untouched i -> leaf_at (nodes t) i = Some l -> leaf_at (nodes t') i = Some l.
Proof using He Hsenders.
  intros [Hr Hu]%untouched_edits Hl. destruct He as (_ & Hrun & _). cbn [es_tree es_bundle] in Hrun.
  rewrite <- lookup_leaf_map in Hl |- *. by eapply roster_run_kept.
Qed.

Lemma added_edit e : e ∈ added -> exists l, EditAdd e l ∈ zip_with EditAdd added ((fun p => kp_leaf_node (key_package (proposal p))) <$> additions b).
Proof using He.
  destruct He as (Hlen & _). cbn [es_bundle] in Hlen. intros (k & Hk)%list_elem_of_lookup.
  destruct (lookup_lt_is_Some_2 ((fun p => kp_leaf_node (key_package (proposal p))) <$> additions b) k) as [l Hl].
  { rewrite length_fmap, <- Hlen. by eapply lookup_lt_Some. }
  exists l. apply elem_of_lookup_zip_with. by exists k, e, l.
Qed.

Lemma added_new i l : untouched i -> leaf_at (nodes t) i = Some l -> i ∉ added.
Proof using He Hsenders.
  intros [Hr _]%untouched_edits Hl (l' & Hin)%added_edit. destruct He as (_ & Hrun & _). cbn [es_tree es_bundle] in Hrun.
  rewrite <- lookup_leaf_map in Hl. eapply roster_present_adds in Hrun; [|exact Hl|done]. apply Hrun.
  unfold bundle_edits. rewrite !elem_of_app. right. right. exact Hin.
Qed.

(** Every new member has its leaf. *)
Lemma added_leaf e l : EditAdd e l ∈ zip_with EditAdd added ((fun p => kp_leaf_node (key_package (proposal p))) <$> additions b) ->
  0 <= e /\ leaf_at (nodes t') e = Some l.
Proof using He.
  intros Hin. destruct He as (_ & Hrun & _). cbn [es_tree es_bundle] in *.
  unfold bundle_edits in Hrun. rewrite app_assoc in Hrun.
  assert (forall m es es' m', roster_run m (es ++ es') m' -> exists m1, roster_run m1 es' m') as Hsplit.
  { clear. intros m es. revert m. induction es as [|e es IH]; intros m es' m' H1; [by exists m|]. inversion H1; subst. by eapply IH. }
  apply Hsplit in Hrun as (m1 & Hrun). rewrite <- lookup_leaf_map. eapply roster_adds; [exact Hrun| |exact Hin].
  apply Forall_forall. intros x (k & y & z & -> & _)%elem_of_lookup_zip_with. by exists y, z.
Qed.

Lemma added_bounds : Forall (fun e => 0 <= e < 2 ^ 31) added.
Proof using He.
  apply Forall_forall. intros e (l & Hin)%added_edit. apply added_leaf in Hin as [H0 Hl]. destruct He as (_ & _ & Hok & _). cbn [es_tree] in *.
  destruct (vec_inv_len _ _ (to_vec _ _ Hok)) as [_ H26].
  destruct (leaf_at_bound _ _ _ H26 Hl). change (2 ^ 31) with 2147483648. change (2 ^ 26) with 67108864 in *. lia.
Qed.
End members.

(** ** The sender *)

Section sending.
Context {idp : IdentityProvider} {cs : CipherSuiteProvider} {C K P S R : Type} {cc : ClientConfig C K P S R}.
Context `{MapOrder, !GroupStateStorage S, !KeyPackageStorage K, !PreSharedKeyStorage P, !MlsRules R}.
Notation Grp := (Group C S K).

(** The steps of a commit that a member has created. *)
Record commit_steps (coins : CommitCoins) (now : Z) (proposals : list Proposal) (ad : bytes) (signer : option SignatureSecretKey)
    (id : option SigningIdentity) (lexts : option ExtensionList) (time : option Z) (g : Grp)
    (out : CommitOutput) (p : PendingCommit) (g' : Grp) (pv : ProvisionalState) (update : bool) (t : TreeKemPrivate) (path : CommitPath)
    (psk : PskSecret) (ids : list PreSharedKeyID) (s : SealedCommit) : Prop := {
  cs_reinit : st_pending_reinit (g_state g) = None;
  cs_applied : apply_resolved (g_state g) (SenderMember (self_index (g_private_tree g)))
    (prepare_commit (st_proposals (g_state g)) (SenderMember (self_index (g_private_tree g))) proposals) None
    (secret_store (g_config g)) (cfg_mls_rules (g_config g)) (Some (default now time)) Send = Ok pv;
  cs_private : self_index t = self_index (g_private_tree g);
  cs_update : path_update_required (pv_applied_proposals pv) = true -> update = true;
  cs_path : make_path coins g update None (default (g_signer g) signer) id lexts pv t = Ok path;
  cs_psk : get_psk g (psks (pv_applied_proposals pv)) = Ok (psk, ids);
  cs_seal : seal_commit coins g (SenderMember (self_index (g_private_tree g))) path psk (g_signer g) ad = Ok s;
  cs_message : format_for_wire (cmc_guard coins) (sl_auth_content s) g = (Ok (co_commit_message out), g');
  cs_pending : exists h, p = make_pending (g_state g) s h (default (g_signer g) signer);
}.

(** What goes out to the new members. *)
Record output_steps (coins : CommitCoins) (exts : ExtensionList) (signer : option SignatureSecretKey) (g : Grp) (out : CommitOutput)
    (pv : ProvisionalState) (psk : PskSecret) (ids : list PreSharedKeyID) (s : SealedCommit) (options : CommitOptions) : Prop := {
  os_options : from_rules (rules_commit_options (cfg_mls_rules (g_config g)) (nodes (pv_public_tree pv)) (pv_group_context pv)
    (pv_applied_proposals pv)) = Ok options;
  os_welcomes : welcomes coins g (sl_derivation s) options (sl_path s) psk ids exts
    (if ratchet_tree_extension options then Some (nodes (pv_public_tree (cpa_provisional (sl_path s)))) else None) (sl_tag s)
    (default (g_signer g) signer) = Ok (co_welcome_messages out);
  os_tree : co_ratchet_tree out = if negb (ratchet_tree_extension options) || always_out_of_band_ratchet_tree options
    then Some (nodes (pv_public_tree (cpa_provisional (sl_path s)))) else None;
}.

Lemma commit_internal_steps coins now proposals ad exts signer id lexts time (g : Grp) out p g' :
  commit_internal coins now proposals None ad exts signer id lexts time g = (Ok (out, p), g') ->
  exists pv update t path psk ids s,
    commit_steps coins now proposals ad signer id lexts time g out p g' pv update t path psk ids s /\
    (exists k, provisional_private_tree g pv = Ok (t, k)) /\
    exists options, output_steps coins exts signer g out pv psk ids s options.
Proof.
  unfold commit_internal. rewrite sm_get_run. intros E.
  apply sm_bind_Ok in E as ([] & g1 & [= _ <-] & E). apply sm_bind_Ok in E as ([] & g1 & [= Hre <-] & E).
  apply guard_or_Ok, bool_decide_eq_true in Hre.
  apply sm_bind_Ok in E as (pv & g1 & [= Hpv <-] & E). apply sm_bind_Ok in E as ([t k] & g1 & [= Ht <-] & E).
  apply sm_bind_Ok in E as (t' & g1 & [= <- <-] & E). rewrite sm_get_run in E.
  apply sm_bind_Ok in E as (options & g1 & [= Ho <-] & E). apply sm_bind_Ok in E as (path & g1 & [= Hpath <-] & E).
  apply sm_bind_Ok in E as ([psk ids] & g1 & [= Hpsk <-] & E). apply sm_bind_Ok in E as (s & g1 & [= Hs <-] & E).
  apply sm_bind_Ok in E as (info & g1 & [= _ <-] & E). apply sm_bind_Ok in E as (ws & g1 & [= Hw <-] & E).
  apply sm_bind_Ok in E as (message & g1 & Hm & E). apply sm_bind_Ok in E as (h & g2 & [= _ <-] & E). injection E as <- <- <-.
  exists pv, (path_required options || path_update_required (pv_applied_proposals pv)), t, path, psk, ids, s.
  split; [|split; [by exists k|by exists options]]. split; try done.
  - destruct time; exact Hpv.
  - by apply provisional_private_index in Ht.
  - intros ->. apply orb_true_r.
  - by exists h.
Qed.

(** What [seal_commit] computes. *)
Record seal_steps (coins : CommitCoins) (g : Grp) (path : CommitPath) (psk : PskSecret) (ad : bytes) (s : SealedCommit)
    (signed : AuthenticatedContent) (confirmed : bytes) (wf : WireFormat) : Prop := {
  se_format : exists options, wf = control_wire_format options (SenderMember (self_index (g_private_tree g)));
  se_signed : auth_content_new_signed (cmc_signature coins) (group_context g) (SenderMember (self_index (g_private_tree g)))
    (ContentCommit (mk_commit (proposals_or_refs (pv_applied_proposals (cpa_provisional path))) (cpa_update_path path)))
    (g_signer g) wf ad = Ok signed;
  se_content : sl_auth_content s = set_confirmation_tag (Some (sl_tag s)) signed;
  se_confirmed : confirmed_transcript_create (st_interim_transcript_hash (g_state g)) signed = Ok confirmed;
  se_pv : cpa_provisional (sl_path s) =
    set_pv_group_context (set_confirmed_transcript_hash confirmed (pv_group_context (cpa_provisional path))) (cpa_provisional path);
  se_private : cpa_private_tree (sl_path s) = cpa_private_tree path;
  se_derived : from_key_schedule (g_key_schedule g) (cpa_commit_secret path) (pv_group_context (cpa_provisional (sl_path s)))
    (total_leaf_count (nodes (pv_public_tree (cpa_provisional path)))) psk = Ok (sl_derivation s);
  se_tag : confirmation_tag_create (confirmation_key (sl_derivation s)) confirmed = Ok (sl_tag s);
  se_interim : interim_transcript_create confirmed (sl_tag s) = Ok (sl_interim s);
}.

Lemma seal_commit_steps coins (g : Grp) path psk ad s :
  seal_commit coins g (SenderMember (self_index (g_private_tree g))) path psk (g_signer g) ad = Ok s ->
  exists signed confirmed wf, seal_steps coins g path psk ad s signed confirmed wf.
Proof.
  unfold seal_commit. intros (options & _ & (signed & Hs & (confirmed & Hc & (r & Hr & (tag & Ht & (interim & Hi & [= <-])%bind_Ok)%bind_Ok)%bind_Ok)%bind_Ok)%bind_Ok)%bind_Ok.
  exists signed, confirmed, (control_wire_format options (SenderMember (self_index (g_private_tree g)))). split; try done. by exists options.
Qed.

(** A commit that is sent as a public message. *)
Lemma plain_commit_message coins (g g' : Grp) a message p wf : wire_format a = wf ->
  format_for_wire coins a g = (Ok message, g') -> payload message = Plain p ->
  wf <> WfPrivateMessage /\ create_plaintext g a = Ok p /\ msg_version message = protocol_version (group_context g).
Proof.
  intros Hwf. unfold format_for_wire. rewrite sm_get_run. rewrite Hwf. case_bool_decide as Hb.
  - intros E. apply sm_bind_Ok in E as (py & g1 & E1 & [= <- <-]). intros Hp. cbn in Hp. subst py.
    by apply sm_bind_Ok in E1 as (? & ? & _ & [=]).
  - intros E. apply sm_bind_Ok in E as (py & g1 & [= E1 <-] & [= <- <-]). intros Hp. cbn in Hp. subst py.
    destruct (create_plaintext g a); [|done..]. injection E1 as <-. done.
Qed.
End sending.

(** ** Hashing a tree again *)

Section rehash.
Context {cs : CipherSuiteProvider}.

Lemma hash_again i t h : zlen (nodes t) <= 2 ^ 26 -> hashes_current (nodes t) (tree_hashes t) -> 0 <= i ->
  tree_kem_tree_hash t = (Ok h, t) ->
  exists hs, update_hashes [i] t = (Ok tt, set_tree_hashes hs t) /\ hashes_current (nodes t) hs /\
    tree_kem_tree_hash (set_tree_hashes hs t) = (Ok h, set_tree_hashes hs t).
Proof.
  intros Hz Hc Hi Hh. destruct (total_leaf_count_depth _ Hz) as [E Hd].
  assert (node_hash (nodes t) [] (depth (nodes t)) 0 = Ok h) as Hroot.
  { unfold tree_kem_tree_hash in Hh. apply sm_bind_Ok in Hh as ([] & t1 & _ & Hh). rewrite sm_get_run in Hh.
    injection Hh as Hr ->. destruct (zget _ _) as [h'|] eqn:Er; [injection Hr as ->|done]. rewrite E, root_pow2 in Er by lia.
    destruct (Hc (depth (nodes t)) 0 ltac:(lia)) as (h2 & Hn & Hz2).
    { apply zget_Some_bound in Er. lia. }
    congruence. }
  destruct (update_hashes_spec (nodes t) t [i] h Hz) as (hs & Hu & Hs & Hc' & Hr); [by constructor|done|by intros ? ? _ []|done|].
  exists hs. split; [done|]. split; [done|]. unfold tree_kem_tree_hash, initialize_hashes.
  rewrite (sm_bind_run _ _ _ tt (set_tree_hashes hs t)).
  - rewrite sm_get_run. unfold sm_lift. cbn [nodes tree_hashes set_tree_hashes]. by rewrite Hr.
  - rewrite sm_get_run. cbn [tree_hashes set_tree_hashes]. destruct hs; [|done].
    apply zget_Some_bound in Hr. change (zlen []) with 0 in Hr. lia.
Qed.
End rehash.

(** ** The path of a commit *)

(** The new leaf [l] of the member [i] differs from those of the other members. *)
Definition leaf_distinct (idf : SigningIdentity -> bytes) (i : Z) (v : NodeVec) (l : LeafNode) : Prop :=
  encodable leaf_node_codec l /\ forall j l', j <> i -> leaf_at v j = Some l' -> compatible idf l l'.

Section update_paths.
Context {idp : IdentityProvider} {cs : CipherSuiteProvider} `{!HashLaws, !HpkeLaws} {C K P S R : Type} {cc : ClientConfig C K P S R}.
Context `{MapOrder, !GroupStateStorage S, !KeyPackageStorage K, !PreSharedKeyStorage P, !MlsRules R}.
Notation Grp := (Group C S K).
Context (idf : SigningIdentity -> bytes) (Hid : forall s ext, identity s ext = Ok (idf s)).
Context (coins : CommitCoins) (g : Grp) (update : bool) (signer : SignatureSecretKey) (id : option SigningIdentity)
  (lexts : option ExtensionList) (pv : ProvisionalState) (t : TreeKemPrivate) (path : CommitPath) (old : LeafNode).
Notation i := (self_index t).
Notation T := (pv_public_tree pv).
Context (Ht : tree_ok idf T) (Henc : tree_encodable (nodes T)) (Hcur : hashes_current (nodes T) (tree_hashes T))
  (Hold : leaf_at (nodes T) i = Some old) (Hadded : Forall (fun e => 0 <= e < 2 ^ 31) (pv_indexes_of_added_kpkgs pv)).
Context (Hpath : make_path coins g update None signer id lexts pv t = Ok path).
Notation V := (nodes (pv_public_tree (cpa_provisional path))).

(** What [finish_context] makes of the state [pv']: what the sender has. *)
Definition finishes (pv' : ProvisionalState) : Prop := forall confirmed,
  exists pv'', finish_context i confirmed pv' = Ok pv'' /\
    pv_group_context pv'' = set_confirmed_transcript_hash confirmed (pv_group_context (cpa_provisional path)) /\
    nodes (pv_public_tree pv'') = V /\ pv_applied_proposals pv'' = pv_applied_proposals pv'.

(** A receiver's state after the same proposals. *)
Record same_provisional (pv2 : ProvisionalState) : Prop := {
  sp_tree : pv_public_tree pv2 = T;
  sp_context : pv_group_context pv2 = pv_group_context pv;
  sp_added : pv_indexes_of_added_kpkgs pv2 = pv_indexes_of_added_kpkgs pv;
}.

Lemma path_without : update = false ->
  cpa_update_path path = None /\ cpa_commit_secret path = path_secret_empty /\ cpa_private_tree path = t /\ V = nodes T /\
  forall pv2, same_provisional pv2 -> finishes pv2.
Proof using H Ht Henc Hcur Hold Hpath.
  intros ->. unfold make_path in Hpath. apply bind_Ok in Hpath as ([[] p1] & E1 & E). apply bind_Ok in E as ([hh p2] & E2 & E).
  unfold on_pv_tree in E1, E2. destruct (update_hashes [i] T) as [[[]| |] T1] eqn:Eu; [|done..]. injection E1 as <-.
  destruct (tree_kem_tree_hash (pv_public_tree (set_pv_public_tree T1 pv))) as [[h| |] T2] eqn:Eh; [|done..]. injection E2 as -> <-.
  cbn [pv_public_tree set_pv_public_tree] in Eh. injection E as Ep. unfold finishes. rewrite <- Ep.
  cbn [cpa_update_path cpa_commit_secret cpa_private_tree cpa_provisional pv_public_tree set_pv_public_tree set_pv_group_context].
  assert (nodes T2 = nodes T) as HV.
  { destruct (vec_inv_len _ _ (to_vec _ _ Ht)) as [_ H26].
    destruct (rehash_run i (nodes T) T H26 Henc Hcur) as (hs & Eu' & _); [intros k j _ Hne; by destruct Hne|by apply (leaf_at_bound _ _ _ H26 Hold)|].
    rewrite Eu in Eu'. injection Eu' as ->. pose proof (cached_hash_same _ _ _ (update_hashes_cached _ _ _ Eu) Eh) as ->. done. }
  split_and!; try done. intros pv2 [E1 E2 _] confirmed. unfold finish_context, on_pv_tree.
  cbn [pv_public_tree set_pv_group_context]. rewrite E1, Eu. cbn [mbind res_bind pv_public_tree set_pv_public_tree]. rewrite Eh.
  cbn [mbind res_bind]. eexists. split; [done|]. cbn. rewrite E2. by split_and!.
Qed.

Lemma path_applied : pv_applied_proposals (cpa_provisional path) = pv_applied_proposals pv.
Proof using Hpath.
  unfold make_path in Hpath. destruct update.
  - apply bind_Ok in Hpath as (? & _ & E). destruct (encap _ _ _ _ _ _ _ _ _) as [[| |] ?]; [|done..]. by injection E as <-.
  - apply bind_Ok in Hpath as ([? p1] & E1 & E). apply bind_Ok in E as ([? p2] & E2 & E). unfold on_pv_tree in E1, E2.
    destruct (update_hashes _ _) as [[| |] ?]; [|done..]. injection E1 as _ <-.
    destruct (tree_kem_tree_hash _) as [[| |] ?]; [|done..]. injection E2 as _ <-. by injection E as <-.
Qed.

(** A receiver that the proposals leave in the group, with its keys. *)
Lemma path_with : update = true ->
  exists up, cpa_update_path path = Some up /\ (leaf_distinct idf i (nodes T) (path_leaf_node up) ->
    private_ok V (cpa_private_tree path) /\
    exists fs vs, filtered (nodes T) i = Ok fs /\ unfilter fs (path_nodes up) = Ok vs /\
      forall (h : Grp) c q pv2, same_provisional pv2 -> provisional_private_tree h pv2 = Ok (q, None) ->
        private_ok (nodes T) q -> self_index q = self_index (g_private_tree h) -> self_index q <> i ->
        self_index q ∉ pv_indexes_of_added_kpkgs pv ->
        exists pv3 q', group_apply_update_path c i (mk_validated_update_path (path_leaf_node up) vs) pv2 h =
            (Ok (Some (q', cpa_commit_secret path), pv3), h) /\
          finishes pv3 /\ pv_applied_proposals pv3 = pv_applied_proposals pv2 /\ private_ok V q' /\ self_index q' = self_index q).
Proof using All.
  intros ->. unfold make_path in Hpath. apply bind_Ok in Hpath as (exts & _ & E).
  destruct (encap _ _ _ _ _ _ _ _ _) as [[gen| |] s'] eqn:Ee; [|done..]. injection E as Ep. unfold finishes. rewrite <- Ep.
  cbn [cpa_update_path cpa_commit_secret cpa_private_tree cpa_provisional pv_public_tree set_pv_public_tree set_pv_group_context
    pv_group_context].
  exists (eg_update_path gen). split; [done|]. intros [Hleaf Hcompat].
  pose proof Ee as Hsteps. apply encap_inv in Hsteps as [(x1 & x2 & x3 & x4 & x5 & x6 & x7 & x8 & x9 & x10 & x11 & hh & ctxb & x12 & Hs)].
  destruct Hs as (_ & _ & _ & _ & _ & _ & _ & _ & _ & _ & Hctx & Hctxb & _).
  destruct (path_agreement idf (gc_extensions (pv_group_context pv)) _ _ _ _ _ _ _ _ T t _ gen s' old ctxb (fun s => Hid s _) Ht Henc Hcur Hold
    Hadded Ee Hctxb Hleaf Hcompat) as (fs & vs & t' & Hfs & Hvs & Happ & Hnodes & Hok' & _ & Hcur' & Hth & Hsender & Hrec).
  split; [rewrite <- Hnodes; exact Hsender|]. exists fs, vs. split; [done|]. split; [done|].
  intros h c q pv2 [E1 E2 E3] Hq Hqok Hqi Hne Hnew.
  destruct (Hrec c q Hqok Hne Hnew) as (q' & Hdecap & Hq' & Hqi').
  exists (set_pv_group_context (ke_context s') (set_pv_public_tree t' pv2)), q'.
  assert (ke_context s' = set_context_tree_hash (Data.tree_hash (ke_context s')) (pv_group_context pv2)) as Hctx'
    by (rewrite E2, Hctx; done).
  split.
  { unfold group_apply_update_path. rewrite sm_get_run, (sm_lift_run _ _ _ _ Hq). cbn beta iota.
    rewrite (sm_bind_run _ _ h tt h) by done. unfold on_pv_tree. rewrite E1, E2, Happ. cbn [mbind res_bind].
    rewrite (sm_lift_run _ _ _ (tt, set_pv_public_tree t' pv2)) by done.
    destruct (Z.eqb_spec i (self_index (g_private_tree h))) as [He|_]; [congruence|].
    cbn [pv_public_tree set_pv_public_tree]. rewrite Hth. cbn [mbind res_bind].
    rewrite (sm_lift_run _ _ _ (Data.tree_hash (ke_context s'), set_pv_public_tree t' pv2)) by done.
    cbn [pv_group_context set_pv_public_tree set_pv_group_context pv_public_tree pv_indexes_of_added_kpkgs].
    rewrite <- Hctx'. unfold from_codec. rewrite Hctxb. cbn [map_err].
    rewrite (sm_lift_run _ _ _ ctxb) by done. rewrite E3, Hdecap. rewrite (sm_lift_run _ _ _ (eg_commit_secret gen, q')) by done. done. }
  split; [|split; [done|split; [by rewrite <- Hnodes|done]]]. intros confirmed.
  destruct (vec_inv_len _ _ (to_vec _ _ Hok')) as [_ H26].
  destruct (hash_again i t' (Data.tree_hash (ke_context s')) H26 Hcur') as (hs & Hu & _ & Hth');
    [destruct (vec_inv_len _ _ (to_vec _ _ Ht)) as [_ H26t]; by apply (leaf_at_bound _ _ _ H26t Hold)|done|].
  unfold finish_context, on_pv_tree. cbn [pv_public_tree set_pv_group_context set_pv_public_tree]. rewrite Hu.
  cbn [mbind res_bind pv_public_tree set_pv_public_tree]. rewrite Hth'. cbn [mbind res_bind]. eexists. split; [done|].
  cbn [pv_group_context set_pv_public_tree set_pv_group_context pv_public_tree pv_applied_proposals nodes set_tree_hashes].
  split; [by destruct (ke_context s')|]. split; [done|done].
Qed.
End update_paths.

(** ** The receiver *)

Lemma get_leaf_node_eq t i l : zlen (nodes t) <= 2 ^ 26 -> leaf_at (nodes t) i = Some l -> get_leaf_node t i = Ok l.
Proof.
  intros Hz Hl. destruct (leaf_at_bound _ _ _ Hz Hl) as [[Hi _] Hb]. change (2 ^ 26) with 67108864 in Hz.
  unfold get_leaf_node, borrow_as_leaf. rewrite node_index_eq by (change (2 ^ 31) with 2147483648; lia).
  apply nd_leaf_at in Hl. rewrite borrow_node_nd, Hl by (by eapply nd_bound). done.
Qed.

Section receiving.
Context {idp : IdentityProvider} {cs : CipherSuiteProvider} `{!SignatureLaws} {C K P S R : Type} {cc : ClientConfig C K P S R}.
Context `{MapOrder, !MapOrderLaws, !GroupStateStorage S, !GroupStateStorageLaws S, !KeyPackageStorage K, !PreSharedKeyStorage P, !MlsRules R}.
Notation Grp := (Group C S K).

(** A public message that a member of the epoch has sealed. *)
Lemma message_authentic (g h : Grp) coins i content sk wf ad signed tag m leaf ext :
  auth_content_new_signed coins (group_context h) (SenderMember i) content sk wf ad = Ok signed -> wf = WfPublicMessage ->
  zlen (nodes (current_epoch_tree h)) <= 2 ^ 26 -> leaf_at (nodes (current_epoch_tree h)) i = Some leaf ->
  leaf_index_try_from i = Ok i -> signature_key_derive_public sk = Ok (signature_key (signing_identity leaf)) ->
  external_signers (group_context h) = Ok ext -> g_key_schedule g = g_key_schedule h -> group_context g = group_context h ->
  create_plaintext g (set_confirmation_tag tag signed) = Ok m ->
  pm_content m = mk_framed_content (group_id (group_context h)) (epoch (group_context h)) (SenderMember i) ad content /\
  mp_verify_plaintext_authentication (MessageProcessor := group_processor) h m = Ok (EventContent (set_confirmation_tag tag signed)).
Proof using H.
  intros Hs -> Hz Hl Hi Hpk Hext Hks Hctx Hm. pose proof (get_leaf_node_eq _ _ _ Hz Hl) as Hg.
  destruct (new_signed_spec _ _ _ _ _ _ _ _ _ Hs Hpk) as (Hw & Hc & _ & Hv).
  unfold create_plaintext in Hm. change (ac_content (set_confirmation_tag tag signed)) with (ac_content signed) in Hm.
  rewrite Hc in Hm. cbn [fc_sender] in Hm. apply bind_Ok in Hm as (t & Ht & [= <-]). cbn [pm_content].
  split; [done|]. apply fmap_Ok in Ht as (mt & Hmt & ->). cbn [mp_verify_plaintext_authentication group_processor].
  set (p := mk_public_message _ _ _).
  assert (from_public_message p = set_confirmation_tag tag signed) as Hp
    by (unfold from_public_message, set_confirmation_tag; simpl; rewrite <- Hc; by destruct signed; simpl in *; subst).
  rewrite (proj2 (verify_plaintext_spec p (Some (membership_key (g_key_schedule h))) (group_context h) (RatchetTree (current_epoch_tree h))
    (set_confirmation_tag tag signed))); [done|]. split; [done|]. unfold authentic. rewrite Hp.
  exists ext, (signature_key (signing_identity leaf)). split; [done|]. split.
  - cbn [pm_content p fc_sender fc_content]. unfold signing_identity_for_sender. rewrite Hi. cbn [mbind res_bind signing_identity_for_member].
    by rewrite Hg.
  - split; [apply Hv|]. cbn [pm_content p fc_sender]. intros k [= <-]. exists mt. split; [done|].
    rewrite <- Hks, <- Hctx. exact Hmt.
Qed.

(** What a receiver asks of the new leaf of the sender. *)
Definition leaf_accepted (context : GroupContext) (pv : ProvisionalState) (i : Z) (time : option Z) (l : LeafNode) : Prop :=
  check_if_valid (ForCommit context (gc_extensions (pv_group_context pv))) l
    (VCommit (group_id (pv_group_context pv)) i time) = Ok tt /\
  exists old, leaf_at (nodes (pv_public_tree pv)) i = Some old /\
    valid_successor (signing_identity old) (signing_identity l) (gc_extensions (pv_group_context pv)) = Ok true /\
    leaf_public_key old <> leaf_public_key l.

Lemma validate_path_run context pv i time up fs vs : zlen (nodes (pv_public_tree pv)) <= 2 ^ 26 ->
  leaf_accepted context pv i time (path_leaf_node up) ->
  filtered (nodes (pv_public_tree pv)) i = Ok fs -> unfilter fs (path_nodes up) = Ok vs ->
  validate_update_path up pv i time context = Ok (mk_validated_update_path (path_leaf_node up) vs).
Proof using Type.
  intros Hz (Hv & old & Hold & Hsucc & Hne) Hf Hu. unfold validate_update_path. rewrite Hv. cbn [mbind res_bind].
  pose proof (get_leaf_node_eq _ _ _ Hz Hold) as Hg. unfold get_leaf_node in Hg.
  destruct (zlen _ =? 0).
  - rewrite Hg. cbn [mbind res_bind]. rewrite Hsucc. cbn [from_identity map_err mbind res_bind guard_or].
    rewrite bool_decide_false by done. cbn [negb mbind res_bind]. rewrite Hf. cbn [mbind res_bind]. by rewrite Hu.
  - cbn [mbind res_bind]. rewrite Hf. cbn [mbind res_bind]. by rewrite Hu.
Qed.

(** The effect of a commit takes at most the re-initialization. *)
Lemma take_effect_run (h : Grp) pv : st_pending_reinit (g_state h) = None ->
  (length (reinitializations (pv_applied_proposals pv)) <= 1)%nat ->
  exists effect pv2, take_commit_effect (mp := group_processor) None pv h =
      (Ok (effect, pv2), set_g_state (set_pending_reinit (proposal <$> head (reinitializations (pv_applied_proposals pv))) (g_state h)) h) /\
    same_provisional pv pv2 /\ updates (pv_applied_proposals pv2) = updates (pv_applied_proposals pv) /\
    psks (pv_applied_proposals pv2) = psks (pv_applied_proposals pv) /\
    external_initializations (pv_applied_proposals pv2) = external_initializations (pv_applied_proposals pv).
Proof using Type.
  intros Hn Hl. unfold take_commit_effect. rewrite sm_get_run.
  destruct (reinitializations (pv_applied_proposals pv)) as [|r [|]] eqn:Er; [| |simpl in Hl; lia]; cbn [last head].
  - eexists _, pv. split; [|done]. unfold mret, sm_ret. repeat f_equal. destruct h as [? ? [] ]. cbn in Hn |- *. by subst.
  - eexists _, _. split; [done|]. by split_and!.
Qed.

(** The key schedule of the sender, with the own private keys. *)
Lemma key_schedule_run (h h' : Grp) (secrets : CommitSecretKeys) interim tag pv (psk : PskSecret) ids (r : KeyScheduleDerivationResult) q :
  let secret := match secrets with Some (_, s) => s | None => path_secret_empty end in
  h' = match secrets with Some (t, _) => set_g_private_tree t h | None => h end -> q = g_private_tree h' ->
  self_index q = self_index (g_private_tree h) ->
  external_initializations (pv_applied_proposals pv) = [] -> get_psk h (psks (pv_applied_proposals pv)) = Ok (psk, ids) ->
  from_key_schedule (g_key_schedule h) secret (pv_group_context pv) (total_leaf_count (nodes (pv_public_tree pv))) psk = Ok r ->
  confirmation_tag_create (confirmation_key r) (confirmed_transcript_hash (pv_group_context pv)) = Ok tag ->
  group_ok h -> storage_answers (g_state_repo h) -> 0 <= epoch (st_context (g_state h)) < 2 ^ 64 ->
  exists h'', group_update_key_schedule secrets interim tag pv h = (Ok tt, h'') /\
    g_state h'' = next_state interim tag pv (g_state h) /\ g_private_tree h'' = q /\
    g_epoch_secrets h'' = epoch_secrets r /\ g_key_schedule h'' = kd_key_schedule r.
Proof using Type.
  intros secret Eh' Eq Hi Hext Hpsk Hr Htag Hok Ha He. unfold group_update_key_schedule.
  rewrite (sm_bind_run _ _ h secret h') by (rewrite Eh'; by destruct secrets as [[]|]). rewrite sm_get_run.
  assert (next_epoch_secrets h' secret pv = Ok (r, tag)) as Hn.
  { unfold next_epoch_secrets, last_key_schedule. rewrite Hext. cbn [head mbind res_bind].
    assert (get_psk h' (psks (pv_applied_proposals pv)) = get_psk h (psks (pv_applied_proposals pv))) as -> by (rewrite Eh'; by destruct secrets as [[]|]).
    rewrite Hpsk. cbn [mbind res_bind]. assert (g_key_schedule h' = g_key_schedule h) as -> by (rewrite Eh'; by destruct secrets as [[]|]).
    rewrite Hr. cbn [mbind res_bind]. by rewrite Htag. }
  rewrite (sm_lift_run _ _ _ _ Hn). rewrite bool_decide_true by done. rewrite (sm_lift_run _ _ _ tt) by done.
  assert (g_state h' = g_state h) as Es by (rewrite Eh'; by destruct secrets as [[]|]).
  assert (group_ok h') as Hok'.
  { eapply stays_ok; [|exact Hok]. rewrite Eh' in Eq |- *. destruct secrets as [[t s]|]; [|done]. apply stays_private. by rewrite <- Hi, Eq. }
  assert (storage_answers (g_state_repo h')) as Ha' by (rewrite Eh'; by destruct secrets as [[]|]).
  rewrite (sm_bind_run _ _ _ _ _ (insert_past_ok h' Hok' Ha' ltac:(by rewrite Es))). rewrite !sm_modify_run.
  eexists. split; [reflexivity|]. cbn. rewrite Es. by split_and!.
Qed.
End receiving.

(** ** Sender and receiver *)

(** Two states of the same epoch. *)
Record same_epoch (s s' : GroupState) : Prop := {
  sm_context : st_context s' = st_context s;
  sm_nodes : nodes (st_public_tree s') = nodes (st_public_tree s);
  sm_interim : st_interim_transcript_hash s' = st_interim_transcript_hash s;
  sm_tag : st_confirmation_tag s' = st_confirmation_tag s;
  sm_reinit : st_pending_reinit s' = st_pending_reinit s;
}.

(** The path of a commit that is sent as a public message. *)
Definition sent_path (m : PublicMessage) : option UpdatePath :=
  match fc_content (pm_content m) with ContentCommit c => commit_path c | _ => None end.

Section agreement.
Context {idp : IdentityProvider} {cs : CipherSuiteProvider} `{!HashLaws, !HpkeLaws, !SignatureLaws}.
Context {C K P S R : Type} {cc : ClientConfig C K P S R}.
Context `{MapOrder, !MapOrderLaws, !GroupStateStorage S, !GroupStateStorageLaws S, !KeyPackageStorage K, !PreSharedKeyStorage P, !MlsRules R}.
Notation Grp := (Group C S K).
Context (idf : SigningIdentity -> bytes).

(** The member [g] of a well-formed group, with the leaf [leaf], can commit. *)
Record sender_ready (g : Grp) (leaf : LeafNode) : Prop := {
  sr_tree : tree_ok idf (st_public_tree (g_state g));
  sr_encodable : tree_encodable (nodes (st_public_tree (g_state g)));
  sr_hashes : hashes_current (nodes (st_public_tree (g_state g))) (tree_hashes (st_public_tree (g_state g)));
  sr_leaf : leaf_at (nodes (st_public_tree (g_state g))) (self_index (g_private_tree g)) = Some leaf;
  sr_signer : signature_key_derive_public (g_signer g) = Ok (signature_key (signing_identity leaf));
  sr_keys : keys_fit (nodes (st_public_tree (g_state g))) (g_private_tree g);
  sr_external : exists ext, external_signers (st_context (g_state g)) = Ok ext;
  sr_rules : accepts_all (cfg_mls_rules (g_config g));
}.

(** The member [h] is in the same epoch, has no commit of its own pending, and its
    storage answers. *)
Record receiver_ready (g h : Grp) : Prop := {
  rr_state : public_state (g_state h) = public_state (g_state g);
  rr_schedule : g_key_schedule h = g_key_schedule g;
  rr_ok : group_ok h;
  rr_storage : storage_answers (g_state_repo h);
  rr_pending : g_pending_commit h = NoPendingCommit;
  rr_other : self_index (g_private_tree h) <> self_index (g_private_tree g);
  rr_leaf : is_Some (leaf_at (nodes (st_public_tree (g_state g))) (self_index (g_private_tree h)));
  rr_keys : keys_fit (nodes (st_public_tree (g_state g))) (g_private_tree h);
  rr_rules : accepts_all (cfg_mls_rules (g_config h));
  rr_store : shares_keys (secret_store (g_config g)) (secret_store (g_config h));
  rr_epoch : 0 <= epoch (st_context (g_state h)) < 2 ^ 64;
}.

(** The proposals a commit of [g] takes up. *)
Notation own_bundle g proposals :=
  (prepare_commit (st_proposals (g_state g)) (SenderMember (self_index (g_private_tree g))) proposals).

(** They are all valid: applied strictly they give [pv].  They leave [h] in the
    group with its leaf, and it finds the pre-shared keys that [g] finds. *)
Record proposals_valid (g h : Grp) (proposals : list Proposal) (time : Z) (pv : ProvisionalState) : Prop := {
  va_received : received_ok (own_bundle g proposals);
  va_room : zlen (nodes (st_public_tree (g_state g))) + 2 * zlen (additions (own_bundle g proposals)) <= 2 ^ 25;
  va_applied : apply_resolved (g_state g) (SenderMember (self_index (g_private_tree g))) (own_bundle g proposals) None
    (secret_store (g_config g)) (cfg_mls_rules (g_config g)) (Some time) Receive = Ok pv;
  va_untouched : untouched (pv_applied_proposals pv) (self_index (g_private_tree h));
  va_psks : get_psk h (psks (pv_applied_proposals pv)) = get_psk g (psks (pv_applied_proposals pv));
}.

(** The part of it that is the sender's own. *)
Record proposals_sendable (g : Grp) (proposals : list Proposal) (time : Z) (pv : ProvisionalState) : Prop := {
  ps_received : received_ok (own_bundle g proposals);
  ps_room : zlen (nodes (st_public_tree (g_state g))) + 2 * zlen (additions (own_bundle g proposals)) <= 2 ^ 25;
  ps_applied : apply_resolved (g_state g) (SenderMember (self_index (g_private_tree g))) (own_bundle g proposals) None
    (secret_store (g_config g)) (cfg_mls_rules (g_config g)) (Some time) Receive = Ok pv;
}.

Lemma valid_sendable g h proposals time pv : proposals_valid g h proposals time pv -> proposals_sendable g proposals time pv.
Proof using Type. by intros []. Qed.

Context (Hid : forall s ext, identity s ext = Ok (idf s)).

(** What the sender's proposals make of its tree. *)
Lemma own_proposals (g : Grp) leaf proposals time pv : sender_ready g leaf -> proposals_sendable g proposals time pv ->
  let T := st_public_tree (g_state g) in let T' := pv_public_tree pv in let i := self_index (g_private_tree g) in
  applied_strictly (g_state g) (secret_store (g_config g)) i (Some time) (own_bundle g proposals) pv /\
  edited idf (mk_edit_state T (pv_applied_proposals pv)) (pv_indexes_of_added_kpkgs pv) (mk_edit_state T' (pv_applied_proposals pv)) /\
  (exists u, apply_resolved (g_state g) (SenderMember i) (own_bundle g proposals) None (secret_store (g_config g))
     (cfg_mls_rules (g_config g)) (Some time) Send = Ok (set_unused u pv)) /\
  untouched (pv_applied_proposals pv) i.
Proof using H Hid.
  intros Hg [Hrec Hroom Happ] T T' i.
  destruct (applied_strict (g_state g) (secret_store (g_config g)) (cfg_mls_rules (g_config g)) idf i (Some time)
    (own_bundle g proposals) pv H Hid (sr_tree _ _ Hg) (sr_encodable _ _ Hg) (sr_hashes _ _ Hg) Hrec Hroom (sr_rules _ _ Hg) Happ)
    as [Hap Hed].
  split; [exact Hap|]. split; [exact Hed|]. split.
  - destruct (applied_exchange (g_state g) (g_state g) _ (secret_store (g_config g)) (cfg_mls_rules (g_config g)) i (Some time) _
      (update_senders (own_bundle g proposals)) None Send pv eq_refl eq_refl ltac:(by intros ?) (sr_rules _ _ Hg) Hap) as (u & Hu).
    exists u. by rewrite senders_same in Hu.
  - destruct (ap_ok _ _ _ _ _ _ Hap) as [_ Hu _ Hr _ _ _ _ _ _ _]. by split.
Qed.

Lemma untouched_no_update b j : untouched b j -> own_update j b = None.
Proof using Type.
  intros [_ Hj]. unfold own_update. destruct (List.find _ _) as [q|] eqn:Ef; [exfalso|done]. apply find_some in Ef as [Hin Hq].
  apply bool_decide_eq_true in Hq. rewrite Forall_forall in Hj. apply (Hj q); [by apply list_elem_of_In|done].
Qed.

Lemma own_tree_after (g : Grp) leaf proposals time pv : sender_ready g leaf -> proposals_sendable g proposals time pv ->
  let T' := pv_public_tree pv in let i := self_index (g_private_tree g) in
  tree_ok idf T' /\ tree_encodable (nodes T') /\ hashes_current (nodes T') (tree_hashes T') /\
  leaf_at (nodes T') i = Some leaf /\ Forall (fun e => 0 <= e < 2 ^ 31) (pv_indexes_of_added_kpkgs pv) /\
  keys_fit (nodes T') (g_private_tree g) /\ own_update i (pv_applied_proposals pv) = None.
Proof using H Hid.
  intros Hg Hps T' i. destruct (own_proposals g leaf proposals time pv Hg Hps) as (Hap & Hed & _ & Hi).
  pose proof (mb_senders _ _ _ _ _ (ap_ok _ _ _ _ _ _ Hap)) as Hsenders.
  pose proof (untouched_leaf idf _ _ _ _ Hed Hsenders i leaf Hi (sr_leaf _ _ Hg)) as Hli.
  pose proof Hed as (_ & _ & Hok & Hc & He & _ & Hfrom & _). cbn [es_tree] in *.
  do 4 (split; [done|]). split; [by apply (added_bounds idf _ _ _ _ Hed)|].
  split; [|by apply untouched_no_update].
  by apply (keys_fit_proposals (nodes (st_public_tree (g_state g))) (nodes T') _ leaf (to_vec _ _ (sr_tree _ _ Hg)) (to_vec _ _ Hok) Hfrom
    (sr_keys _ _ Hg) (sr_leaf _ _ Hg)).
Qed.

Context (g h : Grp) (leaf : LeafNode) (proposals : list Proposal) (time : Z) (pv : ProvisionalState).
Context (Hg : sender_ready g leaf) (Hh : receiver_ready g h) (Hv : proposals_valid g h proposals time pv).
Notation i := (self_index (g_private_tree g)).
Notation r := (self_index (g_private_tree h)).
Notation T := (st_public_tree (g_state g)).
Notation T' := (pv_public_tree pv).

Lemma receiver_state : st_context (g_state h) = st_context (g_state g) /\ st_public_tree (g_state h) = T /\
  pc_proposals (st_proposals (g_state h)) = pc_proposals (st_proposals (g_state g)) /\
  st_interim_transcript_hash (g_state h) = st_interim_transcript_hash (g_state g) /\
  st_pending_reinit (g_state h) = st_pending_reinit (g_state g).
Proof using Hh.
  destruct (public_state_cases _ _ (rr_state _ _ Hh)) as (own & ->). by split_and!.
Qed.

(** Both apply the same proposals. *)
Lemma proposals_shared :
  applied_strictly (g_state g) (secret_store (g_config g)) i (Some time) (own_bundle g proposals) pv /\
  edited idf (mk_edit_state T (pv_applied_proposals pv)) (pv_indexes_of_added_kpkgs pv) (mk_edit_state T' (pv_applied_proposals pv)) /\
  (exists u, apply_resolved (g_state g) (SenderMember i) (own_bundle g proposals) None (secret_store (g_config g))
     (cfg_mls_rules (g_config g)) (Some time) Send = Ok (set_unused u pv)) /\
  resolve_for_commit (st_proposals (g_state h)) (SenderMember i) (proposals_or_refs (pv_applied_proposals pv)) =
    Ok (set_update_senders [] (own_bundle g proposals)) /\
  forall l, exists u, apply_resolved (g_state h) (SenderMember i) (set_update_senders [] (own_bundle g proposals)) l
     (secret_store (g_config h)) (cfg_mls_rules (g_config h)) (Some time) Receive = Ok (set_unused u pv).
Proof using All.
  destruct receiver_state as (Ec & Et & Ep & _).
  destruct (own_proposals g leaf proposals time pv Hg (valid_sendable _ _ _ _ _ Hv)) as (Hap & Hed & Hu & _).
  split; [exact Hap|]. split; [exact Hed|]. split; [exact Hu|]. split.
  - rewrite (resolve_rebuilds (st_proposals (g_state h)) (SenderMember i) (pv_applied_proposals pv)).
    + rewrite (ap_bundle _ _ _ _ _ _ Hap). by destruct (own_bundle g proposals).
    + rewrite (ap_bundle _ _ _ _ _ _ Hap). change (iter_proposals (set_update_senders ?us ?b)) with (iter_proposals b).
      eapply Forall_impl; [apply prepare_commit_sourced|]. intros x. unfold sourced. by rewrite Ep.
  - intros l. by apply (applied_exchange (g_state g) (g_state h) (secret_store (g_config g))); [..|apply (rr_store _ _ Hh)|apply (rr_rules _ _ Hh)|].
Qed.

(** The tree after the proposals, for the sender and the receiver. *)
Lemma tree_after : tree_ok idf T' /\ tree_encodable (nodes T') /\ hashes_current (nodes T') (tree_hashes T') /\
  leaf_at (nodes T') i = Some leaf /\ is_Some (leaf_at (nodes T') r) /\ r ∉ pv_indexes_of_added_kpkgs pv /\
  Forall (fun e => 0 <= e < 2 ^ 31) (pv_indexes_of_added_kpkgs pv) /\
  keys_fit (nodes T') (g_private_tree g) /\ keys_fit (nodes T') (g_private_tree h) /\
  own_update i (pv_applied_proposals pv) = None /\ own_update r (pv_applied_proposals pv) = None.
Proof using All.
  destruct (own_tree_after g leaf proposals time pv Hg (valid_sendable _ _ _ _ _ Hv)) as (Hok & Henc & Hcur & Hli & Hb & Kg & Ng).
  destruct proposals_shared as (Hap & Hed & _). pose proof (mb_senders _ _ _ _ _ (ap_ok _ _ _ _ _ _ Hap)) as Hsenders.
  pose proof (va_untouched _ _ _ _ _ Hv) as Hur. destruct (rr_leaf _ _ Hh) as (leaf' & Hleaf').
  pose proof (untouched_leaf idf _ _ _ _ Hed Hsenders r leaf' Hur Hleaf') as Hlr.
  pose proof Hed as (_ & _ & _ & _ & _ & _ & Hfrom & _). cbn [es_tree] in *.
  do 4 (split; [done|]). split; [by exists leaf'|]. split; [by apply (added_new idf _ _ _ _ Hed Hsenders r leaf')|].
  split; [done|]. split; [done|]. split; [|split; [done|by apply untouched_no_update]].
  by apply (keys_fit_proposals (nodes T) (nodes T') _ leaf' (to_vec _ _ (sr_tree _ _ Hg)) (to_vec _ _ Hok) Hfrom (rr_keys _ _ Hh)).
Qed.

Context (coins : CommitCoins) (now : Z) (ad : bytes) (signer : option SignatureSecretKey) (id : option SigningIdentity)
  (lexts : option ExtensionList) (out : CommitOutput) (p : PendingCommit) (g' : Grp) (u : list (ProposalInfo Proposal)) (update : bool)
  (t : TreeKemPrivate) (path : CommitPath) (psk : PskSecret) (ids : list PreSharedKeyID) (s : SealedCommit)
  (signed : AuthenticatedContent) (confirmed : bytes) (wf : WireFormat).
Context (Hsteps : commit_steps coins now proposals ad signer id lexts (Some time) g out p g' (set_unused u pv) update t path psk ids s)
  (Hseal : seal_steps coins g path psk ad s signed confirmed wf).
Context (Hleaf : forall up, cpa_update_path path = Some up ->
  leaf_accepted (st_context (g_state g)) pv i (Some time) (path_leaf_node up) /\ leaf_distinct idf i (nodes T') (path_leaf_node up)).
Context (t_ok : private_ok (nodes T') t).
Notation V := (nodes (pv_public_tree (cpa_provisional path))).

(** What the receiver makes of the path. *)
Lemma path_received (h1 : Grp) c pv2 : g_private_tree h1 = g_private_tree h -> same_provisional pv pv2 ->
  updates (pv_applied_proposals pv2) = updates (pv_applied_proposals pv) ->
  private_ok V (cpa_private_tree path) /\
  exists vup pv3 secrets,
    (match cpa_update_path path with
     | Some up => Some <$> validate_update_path up pv i (Some time) (st_context (g_state g))
     | None => Ok None
     end) = Ok vup /\
    (match vup with
     | Some vup => group_apply_update_path c i vup pv2
     | None => mret (None, pv2)
     end) h1 = (Ok (secrets, pv3), h1) /\
    finishes t path pv3 /\ pv_applied_proposals pv3 = pv_applied_proposals pv2 /\
    match secrets with
    | Some (q, secret) => secret = cpa_commit_secret path /\ keys_fit V q /\ self_index q = r
    | None => cpa_commit_secret path = path_secret_empty /\ keys_fit V (g_private_tree h)
    end.
Proof using All.
  intros Eh Hsame Hu2. destruct tree_after as (Hok & Henc & Hcur & Hl & [leaf' Hlr] & Hnew & Hadd & Kg & Kh & Ng & Nh).
  destruct Hsteps as [_ _ Hti _ Hpath _ _ _ _]. rewrite <- Hti in Hl.
  destruct update eqn:Eu.
  - destruct (path_with idf Hid coins g true (default (g_signer g) signer) id lexts (set_unused u pv) t path leaf Hok Henc Hcur Hl Hadd Hpath eq_refl)
      as (up & Eup & Hup). rewrite Eup in *. destruct (Hleaf up eq_refl) as [Hacc Hdist].
    rewrite <- Hti in Hacc, Hdist |- *. destruct (Hup Hdist) as (Hpriv & fs & vs & Hfs & Hvs & Hrec). split; [done|].
    destruct (vec_inv_len _ _ (to_vec _ _ Hok)) as [_ H26].
    rewrite (validate_path_run (st_context (g_state g)) pv (self_index t) (Some time) up fs vs H26 Hacc Hfs Hvs).
    destruct (provisional_private_spec h1 pv2 leaf') as (q & Hq & Hqok & Hqi); rewrite ?(sp_tree _ _ Hsame), ?Eh.
    { apply (to_vec _ _ Hok). }
    { done. }
    { done. }
    { unfold own_update in *. by rewrite Hu2. }
    rewrite (sp_tree _ _ Hsame) in Hqok. rewrite Eh in Hqi.
    destruct (Hrec h1 c q pv2) as (pv3 & q' & Hrun & Hfin & Hap3 & Hq' & Hqi'); [by destruct Hsame|done|done|by rewrite Eh|rewrite Hqi, Hti; apply (rr_other _ _ Hh)|by rewrite Hqi|].
    exists (Some (mk_validated_update_path (path_leaf_node up) vs)), pv3, (Some (q', cpa_commit_secret path)).
    split; [done|]. split; [done|]. split; [done|]. split; [done|]. split; [done|]. split; [by apply private_fit|congruence].
  - destruct (path_without idf coins g false (default (g_signer g) signer) id lexts (set_unused u pv) t path leaf Hok Henc Hcur Hl Hpath eq_refl)
      as (Eup & Esec & Epriv & EV & Hfin). rewrite Eup, Epriv, EV. split; [done|].
    exists None, pv2, None. split; [done|]. split; [done|]. split; [apply Hfin; by destruct Hsame|]. split; [done|]. split; [done|done].
Qed.

(** What the sender has pending. *)
Notation pending_context := (st_context (pnd_state p)).

Lemma one_reinit : (length (reinitializations (pv_applied_proposals pv)) <= 1)%nat /\
  external_initializations (pv_applied_proposals pv) = [].
Proof using All.
  destruct proposals_shared as (Hap & _). destruct (ap_ok _ _ _ _ _ _ Hap) as [_ _ _ _ _ _ _ _ _ Hre He]. split; [|done].
  destruct Hre as [->|E]; [simpl; lia|]. unfold bundle_length in E.
  pose proof (zlen_nonneg (additions (pv_applied_proposals pv))). pose proof (zlen_nonneg (updates (pv_applied_proposals pv))).
  pose proof (zlen_nonneg (removals (pv_applied_proposals pv))). pose proof (zlen_nonneg (psks (pv_applied_proposals pv))).
  pose proof (zlen_nonneg (external_initializations (pv_applied_proposals pv))).
  pose proof (zlen_nonneg (group_context_extensions (pv_applied_proposals pv))).
  pose proof (zlen_nonneg (custom_proposals (pv_applied_proposals pv))). unfold zlen in *. lia.
Qed.

(** The receiver's checks of the commit. *)
Lemma check_received vup :
  (match cpa_update_path path with
   | Some up => Some <$> validate_update_path up pv i (Some time) (st_context (g_state g))
   | None => Ok None
   end) = Ok vup ->
  exists u', check_commit (mp := group_processor) h (sl_auth_content s) (Some time) =
    Ok (mk_checked (sl_interim s) confirmed (set_unused u' pv) i None vup).
Proof using All.
  intros Hvup. destruct proposals_shared as (Hap & _ & _ & Hres & Hrecv). destruct receiver_state as (Ec & _ & _ & Ei & Er).
  destruct Hsteps as [Hre _ _ Hupd Hpath _ _ _ _]. destruct Hseal as [_ Hsigned Hcont Hconf _ _ _ _ Hint].
  destruct (new_signed_spec _ _ _ _ _ _ _ _ _ Hsigned (sr_signer _ _ Hg)) as (_ & Hc & _).
  pose proof (path_applied coins g update _ id lexts (set_unused u pv) t path Hpath) as Eap. rewrite Eap in Hc.
  cbn [pv_applied_proposals set_unused] in Hc, Hupd.
  destruct (Hrecv (path_leaf_node <$> cpa_update_path path)) as (u' & Hu'). exists u'.
  unfold check_commit. cbn [mp_group_state mp_psk_storage mp_mls_rules mp_removal_proposal group_processor].
  rewrite Er, Hre, bool_decide_true by done. cbn [guard_or mbind res_bind]. rewrite Hcont.
  change (ac_content (set_confirmation_tag ?x signed)) with (ac_content signed). rewrite Hc. cbn [fc_sender fc_content].
  assert (transcript_hashes (st_interim_transcript_hash (g_state h)) (set_confirmation_tag (Some (sl_tag s)) signed) = Ok (sl_interim s, confirmed)) as ->.
  { unfold transcript_hashes. change (confirmed_transcript_create ?x (set_confirmation_tag ?y signed)) with (confirmed_transcript_create x signed).
    rewrite Ei, Hconf. cbn [mbind res_bind]. change (confirmation_tag (ac_auth (set_confirmation_tag (Some (sl_tag s)) signed))) with (Some (sl_tag s)).
    cbn [ok_or mbind res_bind]. by rewrite Hint. }
  cbn [mbind res_bind commit_proposals commit_path]. rewrite Hres. cbn [mbind res_bind]. rewrite Hu'. cbn [mbind res_bind commit_sender].
  rewrite (ap_sender _ _ _ _ _ _ Hap). cbn [mbind res_bind pv_applied_proposals set_unused].
  assert (path_update_required (pv_applied_proposals pv) && bool_decide (cpa_update_path path = None) = false) as ->.
  { destruct (path_update_required _); [|done]. specialize (Hupd eq_refl). rewrite Hupd in Hpath.
    destruct tree_after as (Hok & Henc & Hcur & Hl & _ & _ & Hadd & _).
    assert (self_index t = i) as Hti by (by destruct Hsteps). rewrite <- Hti in Hl.
    destruct (path_with idf Hid coins g true _ id lexts (set_unused u pv) t path leaf Hok Henc Hcur Hl Hadd Hpath eq_refl) as (up & -> & _).
    by rewrite bool_decide_false. }
  cbn [negb guard_or mbind res_bind].
  assert (group_removal_proposal h (set_unused u' pv) = None) as ->.
  { unfold group_removal_proposal. cbn [pv_applied_proposals set_unused]. destruct (List.find _ _) as [q|] eqn:Ef; [exfalso|done].
    apply find_some in Ef as [Hin Hq]. pose proof (va_untouched _ _ _ _ _ Hv) as [Hr _]. rewrite Forall_forall in Hr.
    apply (Hr q); [by apply list_elem_of_In|lia]. }
  rewrite Ec. destruct (cpa_update_path path) as [up|].
  - change (validate_update_path up (set_unused u' pv)) with (validate_update_path up pv).
    destruct (validate_update_path up pv i (Some time) (st_context (g_state g))) as [x| |]; [|done..]. by injection Hvup as <-.
  - by injection Hvup as <-.
Qed.

Lemma process_received c :
  exists d h', process_commit (mp := group_processor) c (sl_auth_content s) (Some time) h = (Ok d, h') /\
    same_epoch (pnd_state p) (g_state h') /\ g_epoch_secrets h' = pnd_epoch_secrets p /\ g_key_schedule h' = pnd_key_schedule p /\
    keys_fit (nodes (st_public_tree (pnd_state p))) (g_private_tree h') /\ self_index (g_private_tree h') = r /\
    keys_fit (nodes (st_public_tree (pnd_state p))) (pnd_private_tree p).
Proof using All.
  destruct one_reinit as [Hone Hnoext]. destruct receiver_state as (Ec & _ & _ & _ & Er).
  assert (st_pending_reinit (g_state h) = None) as Hre by (rewrite Er; by destruct Hsteps).
  assert (pv_applied_proposals (cpa_provisional path) = pv_applied_proposals pv) as Eap
    by (destruct Hsteps as [_ _ _ _ Hpath _ _ _ _]; by rewrite (path_applied coins g update _ id lexts (set_unused u pv) t path Hpath)).
  assert (self_index t = i) as Hti by by destruct Hsteps.
  destruct (take_effect_run h pv Hre Hone) as (_ & pv2' & _). clear pv2'.
  (* the checks *)
  destruct (path_received h c pv eq_refl) as (_ & vup & _ & _ & Hvup & _); [done|done|].
  destruct (check_received vup Hvup) as (u' & Hc).
  destruct (take_effect_run h (set_unused u' pv) Hre Hone) as (effect & pv2 & He & Hsame & Hu2 & Hp2 & Hx2).
  set (h1 := set_g_state _ h) in He.
  destruct (path_received h1 c pv2 eq_refl) as (Hpriv & vup' & pv3 & secrets & Hvup' & Hrun & Hfin & Hap3 & Hsec);
    [by destruct Hsame|done|]. rewrite Hvup in Hvup'. injection Hvup' as <-.
  destruct (Hfin confirmed) as (pv4 & Hf & Ectx & Enodes & Eap4). rewrite Hti in Hf.
  destruct Hseal as [_ _ Hcont _ Epv Hspriv Hder Htag Hint]. destruct Hsteps as [_ _ _ _ _ Hpsk _ _ [hash Ep]].
  assert (pv_group_context pv4 = pv_group_context (cpa_provisional (sl_path s))) as Ectx' by (by rewrite Ectx, Epv).
  assert (confirmed_transcript_hash (pv_group_context pv4) = confirmed) as Econf by (rewrite Ectx; done).
  assert (psks (pv_applied_proposals pv4) = psks (pv_applied_proposals pv)) as Eps by (by rewrite Eap4, Hap3, Hp2).
  assert (external_initializations (pv_applied_proposals pv4) = []) as Eex by (by rewrite Eap4, Hap3, Hx2).
  destruct (key_schedule_run h1 (match secrets with Some (q, _) => set_g_private_tree q h1 | None => h1 end) secrets (sl_interim s) (sl_tag s)
    pv4 psk ids (sl_derivation s) (g_private_tree (match secrets with Some (q, _) => set_g_private_tree q h1 | None => h1 end)))
    as (h2 & Hks & Hst & Hpt & Hes & Hsch).
  { done. }
  { done. }
  { destruct secrets as [[q sec]|]; [|done]. destruct Hsec as (_ & _ & E). exact E. }
  { done. }
  { rewrite Eps. change (get_psk h1) with (get_psk h). by rewrite (va_psks _ _ _ _ _ Hv). }
  { rewrite Ectx', Enodes. change (g_key_schedule h1) with (g_key_schedule h). rewrite (rr_schedule _ _ Hh). rewrite <- Hder.
    destruct secrets as [[q sec]|]; [by destruct Hsec as (-> & _)|by destruct Hsec as (-> & _)]. }
  { by rewrite Econf. }
  { eapply stays_ok; [|apply (rr_ok _ _ Hh)]. by apply stays_state. }
  { exact (rr_storage _ _ Hh). }
  { apply (rr_epoch _ _ Hh). }
  exists (mk_commit_description (bool_decide (fc_sender (ac_content (sl_auth_content s)) = NewMemberCommit)) i effect
    (authenticated_data (ac_content (sl_auth_content s)))), h2.
  split.
  { unfold process_commit. rewrite sm_get_run, (sm_lift_run _ _ _ _ Hc). cbn [ch_self_removed ch_provisional ch_update_path ch_sender ch_confirmed ch_interim].
    rewrite (sm_bind_run _ _ _ _ _ He). change (bool_decide (is_Some (@None (ProposalInfo RemoveProposal)))) with false.
    assert ((match vup with Some update_path => mp_apply_update_path (MessageProcessor := group_processor) c i update_path pv2
      | None => mret (None, pv2) end) h1 = (Ok (secrets, pv3), h1)) as Hrun' by exact Hrun.
    rewrite (sm_bind_run _ _ _ _ _ Hrun'), (sm_lift_run _ _ _ _ Hf), Hcont. cbn [confirmation_tag ac_auth set_confirmation_tag].
    cbn [mp_update_key_schedule group_processor]. by rewrite (sm_bind_run _ _ _ _ _ Hks). }
  rewrite Ep. cbn [pnd_state make_pending pnd_epoch_secrets pnd_key_schedule pnd_private_tree st_public_tree].
  assert (pv_public_tree (cpa_provisional (sl_path s)) = pv_public_tree (cpa_provisional path)) as Etr by (by rewrite Epv).
  assert (pv_applied_proposals (cpa_provisional (sl_path s)) = pv_applied_proposals pv) as Eaps by (by rewrite Epv).
  split; [|split; [done|split; [done|]]].
  { rewrite Hst. split; cbn; rewrite ?Etr, ?Eaps; done. }
  rewrite Etr, Hpt, Hspriv. split; [|split].
  - destruct secrets as [[q sec]|]; [exact (proj1 (proj2 Hsec))|exact (proj2 Hsec)].
  - destruct secrets as [[q sec]|]; [by destruct Hsec as (_ & _ & E)|done].
  - by apply private_fit.
Qed.
End agreement.

Section messages.
Context {idp : IdentityProvider} {cs : CipherSuiteProvider} `{!SignatureLaws} {C K P S R : Type} {cc : ClientConfig C K P S R}.
Context `{MapOrder, !GroupStateStorage S, !KeyPackageStorage K, !PreSharedKeyStorage P, !MlsRules R}.
Notation Grp := (Group C S K).

(** A public message of the epoch reaches its processing. *)
Lemma process_plain (h : Grp) c now message m time a i ad commit :
  payload message = Plain m -> g_pending_commit h = NoPendingCommit ->
  msg_version message = protocol_version (st_context (g_state h)) ->
  pm_content m = mk_framed_content (group_id (st_context (g_state h))) (epoch (st_context (g_state h))) (SenderMember i) ad (ContentCommit commit) ->
  mp_verify_plaintext_authentication (MessageProcessor := group_processor) h m = Ok (EventContent a) -> ac_content a = pm_content m ->
  forall d h', process_commit (mp := group_processor) c a time h = (Ok d, h') ->
  group_process_incoming_message c now message time h = (Ok (ReceivedCommit d), h').
Proof using Type.
  intros Hp Hn Hver Hm Hauth Ha d h' Hrun. rewrite (group_process_plain c now message m time h Hp Hn).
  unfold mp_process_incoming_message_with_time, get_event_from_incoming_message.
  assert (check_metadata (mp := group_processor) h message = Ok tt) as Hmeta.
  { unfold check_metadata, message_metadata. cbn [mp_group_state group_processor mp_min_epoch_available]. rewrite Hver, Z.eqb_refl, Hp, Hm.
    cbn [guard_or mbind res_bind fc_content fc_group_id fc_epoch content_type]. rewrite (bool_decide_true (_ = group_id (st_context (g_state h)))) by done.
    cbn [guard_or mbind res_bind]. by rewrite Z.eqb_refl. }
  rewrite (sm_bind_run _ _ h (EventContent a) h).
  2: { rewrite sm_get_run, (sm_lift_run _ _ _ _ Hmeta), Hp. unfold sm_lift. by rewrite Hauth. }
  cbn [process_event_or_content]. unfold process_event_or_content, process_auth_content. rewrite Ha, Hm. cbn [fc_content].
  by rewrite (sm_bind_run _ _ _ _ _ Hrun).
Qed.
End messages.

(** C1: a commit takes the group to one epoch.  Let a member [g] of a
    well-formed group build a commit whose proposals -- those it has cached and
    those it adds -- are all valid, and let it go out as a public message.  Any
    other member [h] of the same epoch that the commit neither removes nor
    updates, that has no commit of its own pending, whose private keys belong to
    the tree, whose storage answers, and that accepts the committer's new leaf if the commit has a
    path, processes the message with no error, and then has what [g] has
    pending: the same context with its tree and transcript hashes, the same
    nodes, the same confirmation tag, the same secrets and key schedule.  The
    private keys of both belong to the new tree. *)
Theorem commit_agreement {idp : IdentityProvider} {cs : CipherSuiteProvider} `{!HashLaws, !HpkeLaws, !SignatureLaws}
    {C K P S R : Type} {cc : ClientConfig C K P S R}
    `{MapOrder, !MapOrderLaws, !GroupStateStorage S, !GroupStateStorageLaws S, !KeyPackageStorage K, !PreSharedKeyStorage P, !MlsRules R}
    (idf : SigningIdentity -> bytes) (g h g' : Group C S K) (leaf : LeafNode) (coins : CommitCoins) (c : Coins) (now now' : Z)
    (b : CommitBuilder) (out : CommitOutput) (p : PendingCommit) (m : PublicMessage) (pv : ProvisionalState)
    (Hid : forall s ext, identity s ext = Ok (idf s))
    (Hg : sender_ready idf g leaf) (Hh : receiver_ready g h)
    (Hvalid : proposals_valid g h (cb_proposals b) (default now (cb_commit_time b)) pv)
    (Hbuild : build_internal coins now b g = (Ok (out, p), g'))
    (Hplain : payload (co_commit_message out) = Plain m)
    (Hpath : forall up, sent_path m = Some up ->
       leaf_accepted (st_context (g_state g)) pv (self_index (g_private_tree g)) (Some (default now (cb_commit_time b))) (path_leaf_node up) /\
       leaf_distinct idf (self_index (g_private_tree g)) (nodes (pv_public_tree pv)) (path_leaf_node up)) :
  exists d h',
    group_process_incoming_message c now' (co_commit_message out) (Some (default now (cb_commit_time b))) h = (Ok (ReceivedCommit d), h') /\
    same_epoch (pnd_state p) (g_state h') /\
    g_epoch_secrets h' = pnd_epoch_secrets p /\ g_key_schedule h' = pnd_key_schedule p /\
    self_index (g_private_tree h') = self_index (g_private_tree h) /\
    keys_fit (nodes (st_public_tree (pnd_state p))) (g_private_tree h') /\
    keys_fit (nodes (st_public_tree (pnd_state p))) (pnd_private_tree p).
Proof.
  set (time := default now (cb_commit_time b)) in *.
  apply commit_internal_steps in Hbuild as (pvs & update & t & path & psk & ids & s & Hsteps & (k & Hprov) & _).
  destruct (proposals_shared idf Hid g h leaf _ time pv Hg Hh Hvalid) as (Hap & _ & (u & Hu) & _).
  destruct (tree_after idf Hid g h leaf _ time pv Hg Hh Hvalid) as (Hok & _ & _ & Hl & _ & _ & _ & Kg & _ & Ng & _).
  assert (pvs = set_unused u pv) as -> by (destruct Hsteps as [_ Ha _ _ _ _ _ _ _]; fold time in Ha; rewrite Hu in Ha; by injection Ha as <-).
  destruct (provisional_private_spec g (set_unused u pv) leaf (to_vec _ _ Hok) Hl Kg Ng) as (t' & Hprov' & Htok & _).
  rewrite Hprov in Hprov'. injection Hprov' as <- _.
  assert (commit_steps coins now (cb_proposals b) (cb_authenticated_data b) (cb_new_signer b) (cb_new_signing_identity b)
    (cb_new_leaf_node_extensions b) (Some time) g out p g' (set_unused u pv) update t path psk ids s) as Hs by (by destruct Hsteps).
  pose proof (cs_seal _ _ _ _ _ _ _ _ _ _ _ _ _ _ _ _ _ _ _ Hsteps) as Hseal. apply seal_commit_steps in Hseal as (signed & confirmed & wf & Hseal).
  pose proof (cs_message _ _ _ _ _ _ _ _ _ _ _ _ _ _ _ _ _ _ _ Hsteps) as Hmsg.
  destruct (receiver_state g h Hh) as (Ec & Et & _). destruct (sr_external _ _ _ Hg) as (ext & Hext).
  destruct Hseal as [[options Hwf] Hsigned Hcont Hse1 Hse2 Hse3 Hse4 Hse5 Hse6].
  destruct (new_signed_spec _ _ _ _ _ _ _ _ _ Hsigned (sr_signer _ _ _ Hg)) as (Hw & Hc & _).
  rewrite Hcont in Hmsg. eapply plain_commit_message in Hmsg as (Hnp & Hcreate & Hver); [|exact Hw|exact Hplain].
  assert (wf = WfPublicMessage) as -> by (rewrite Hwf in Hnp |- *; unfold control_wire_format in *; by destruct (encrypt_control_messages options)).
  destruct (vec_inv_len _ _ (to_vec _ _ (sr_tree _ _ _ Hg))) as [_ H26].
  assert (group_context h = group_context g) as Ec' by exact Ec. assert (current_epoch_tree h = st_public_tree (g_state g)) as Et' by exact Et.
  pose proof Hsigned as Hsigned'. rewrite <- Ec' in Hsigned'.
  destruct (message_authentic g h _ _ _ _ _ _ signed (Some (sl_tag s)) m leaf ext Hsigned' eq_refl) as [Hm Hauth]; rewrite ?Et', ?Ec'; try done.
  { apply (sr_leaf _ _ _ Hg). }
  { apply (ap_sender _ _ _ _ _ _ Hap). }
  { apply (sr_signer _ _ _ Hg). }
  { by rewrite (rr_schedule _ _ Hh). }
  rewrite Ec' in Hm.
  assert (forall up, cpa_update_path path = Some up ->
    leaf_accepted (st_context (g_state g)) pv (self_index (g_private_tree g)) (Some time) (path_leaf_node up) /\
    leaf_distinct idf (self_index (g_private_tree g)) (nodes (pv_public_tree pv)) (path_leaf_node up)) as Hleaf.
  { intros up Eup. apply Hpath. unfold sent_path. rewrite Hm. exact Eup. }
  destruct (process_received idf Hid g h leaf _ time pv Hg Hh Hvalid coins now (cb_authenticated_data b) (cb_new_signer b)
    (cb_new_signing_identity b) (cb_new_leaf_node_extensions b) out p g' u update t path psk ids s signed confirmed WfPublicMessage Hs
    ltac:(split; try done; by exists options) Hleaf Htok c) as (d & h' & Hrun & Hsame & Hes & Hks & Kh & Hi & Kp).
  exists d, h'. split; [|by split_and!]. rewrite Hcont in Hrun.
  eapply process_plain; [exact Hplain|apply (rr_pending _ _ Hh)| | |exact Hauth| |exact Hrun].
  - by rewrite Ec.
  - rewrite Ec. exact Hm.
  - by rewrite Hm, <- Hc.
Qed.

(** *** Bob removes Alice, and Carol follows *)

#[local] Existing Instance plain_provider.
#[local] Existing Instance plain_order.
#[local] Existing Instance Toy.provider.
#[local] Existing Instance Toy.hash_laws.
#[local] Existing Instance Toy.hpke_laws.
#[local] Existing Instance Toy.signature_laws.

Notation toy_tree := (st_public_tree (g_state bob_1)).

Definition toy_leaf (n : Z) : LeafNode := default (member_leaf 0) (leaf_at (nodes toy_tree) n).

(** The members, added one after the other. *)
Definition three_members : TreeKemPublic :=
  (add_leaf (toy_leaf 2) [] None (add_leaf (toy_leaf 1) [] None (add_leaf (toy_leaf 0) [] None tree_kem_new).2).2).2.

Lemma three_members_ok : tree_ok signature_key three_members.
Proof.
  unfold three_members. apply add_leaf_ok; [done| |by vm_compute]. apply add_leaf_ok; [done| |by vm_compute].
  apply add_leaf_ok; [done|apply tree_ok_new|by vm_compute].
Qed.

Lemma toy_tree_same : nodes toy_tree = nodes three_members /\ index toy_tree = index three_members.
Proof. split; vm_compute; reflexivity. Qed.

Lemma toy_tree_ok : tree_ok signature_key toy_tree.
Proof.
  destruct toy_tree_same as [En Ei]. destruct three_members_ok as [Hv Hx]. rewrite <- En in Hv, Hx. rewrite <- Ei in Hx.
  split; [exact Hv|exact Hx].
Qed.

(** What is at the positions of a tree of three leaves. *)
Definition three_leaves (a b c : LeafNode) : NodeVec := [Some (NodeLeaf a); None; Some (NodeLeaf b); None; Some (NodeLeaf c)].

Lemma three_nodes a b c x n : nd (three_leaves a b c) x = Some n ->
  x = 0 /\ n = NodeLeaf a \/ x = 2 /\ n = NodeLeaf b \/ x = 4 /\ n = NodeLeaf c.
Proof.
  intros Hn. pose proof (nd_bound _ _ _ Hn) as Hb. change (zlen (three_leaves a b c)) with 5 in Hb.
  assert (x = 0 \/ x = 1 \/ x = 2 \/ x = 3 \/ x = 4) as [->|[->|[->|[->| ->]]]] by lia; cbn in Hn; try done;
    injection Hn as <-; auto.
Qed.

Lemma toy_tree_nodes : nodes toy_tree = three_leaves (toy_leaf 0) (toy_leaf 1) (toy_leaf 2).
Proof. vm_compute. reflexivity. Qed.

Lemma three_encodable a b c : encodable leaf_node_codec a -> encodable leaf_node_codec b -> encodable leaf_node_codec c ->
  tree_encodable (three_leaves a b c).
Proof.
  intros Ha Hb Hc. split.
  - intros i l Hl%nd_leaf_at. by apply three_nodes in Hl as [[_ [= ->]]|[[_ [= ->]]|[_ [= ->]]]].
  - intros x p Hp%nd_parent_at. by apply three_nodes in Hp as [[_ ?]|[[_ ?]|[_ ?]]].
Qed.

Lemma three_keys_fit a b c i sk : i = 1 /\ is_key_pair sk (leaf_public_key b) \/ i = 2 /\ is_key_pair sk (leaf_public_key c) ->
  keys_fit (three_leaves a b c) (mk_private i [Some sk]).
Proof.
  intros Hi. unfold keys_fit. assert (depth (three_leaves a b c) = 2%nat) as -> by done.
  assert (forall k n, (k <= 2)%nat -> nd (three_leaves a b c) (above i k) = Some n -> k = 0%nat /\ is_key_pair sk (node_public_key n)) as Hn.
  { intros k n Hk Hn. assert (k = 0 \/ k = 1 \/ k = 2)%nat as [->|[->| ->]] by lia; destruct Hi as [[-> Hp]|[-> Hp]];
      apply three_nodes in Hn as [[E ->]|[[E ->]|[E ->]]]; try (by vm_compute in E); by split. }
  split; cbn [self_index resize_keys set_keys].
  - destruct Hi as [[-> _]|[-> _]]; by eexists.
  - vm_compute. lia.
  - intros k sk' n Hk Hsk Hnd. destruct (Hn k n Hk Hnd) as [-> Hp]. vm_compute in Hsk. injection Hsk as <-. exact Hp.
  - intros k n Hk Hsk Hnd. destruct (Hn k n Hk Hnd) as [-> _]. by vm_compute in Hsk.
Qed.

Lemma toy_leaf_encodable n : n = 0 \/ n = 1 \/ n = 2 -> encodable leaf_node_codec (toy_leaf n).
Proof. intros [->|[->| ->]]; eexists; vm_compute; reflexivity. Qed.

Lemma toy_tree_encodable : tree_encodable (nodes toy_tree).
Proof. rewrite toy_tree_nodes. apply three_encodable; apply toy_leaf_encodable; auto. Qed.

Lemma toy_tree_hashes : hashes_current (nodes toy_tree) (tree_hashes toy_tree).
Proof.
  destruct (node_hash_total (nodes toy_tree) (depth (nodes toy_tree)) 0 toy_tree_encodable) as (h & Hh & _).
  destruct (initialize_hashes_spec (set_tree_hashes [] toy_tree) h) as (hs & Hi & _ & Hc & _); [by vm_compute|done|exact Hh|].
  cbn [nodes set_tree_hashes] in Hc.
  assert ((initialize_hashes (set_tree_hashes [] toy_tree)).2 = toy_tree) as E by (vm_compute; reflexivity).
  rewrite Hi in E. cbn [snd] in E. rewrite <- E at 2. exact Hc.
Qed.

Lemma toy_keys_fit : keys_fit (nodes toy_tree) (g_private_tree bob_1) /\ keys_fit (nodes toy_tree) (g_private_tree carol_1).
Proof.
  assert (g_private_tree bob_1 = mk_private 1 [Some [21]]) as -> by (vm_compute; reflexivity).
  assert (g_private_tree carol_1 = mk_private 2 [Some [31]]) as -> by (vm_compute; reflexivity).
  rewrite toy_tree_nodes. split; apply three_keys_fit; [left|right]; (split; [done|]); right.
  - exists 21%nat. vm_compute. reflexivity.
  - exists 31%nat. vm_compute. reflexivity.
Qed.

Lemma bob_ready : sender_ready signature_key bob_1 (toy_leaf 1).
Proof.
  split; [exact toy_tree_ok|exact toy_tree_encodable|exact toy_tree_hashes| | |exact (proj1 toy_keys_fit)| |by intros ?].
  - vm_compute. reflexivity.
  - vm_compute. reflexivity.
  - eexists. vm_compute. reflexivity.
Qed.

Lemma carol_ok : group_ok carol_1.
Proof.
  assert (g_pending_commit carol_1 = NoPendingCommit) as Hn by (vm_compute; reflexivity).
  split; [split| |].
  - vm_compute. reflexivity.
  - vm_compute. reflexivity.
  - unfold hash_matches. vm_compute. reflexivity.
  - vm_compute. reflexivity.
  - unfold pending_of. by rewrite Hn.
  - split; [vm_compute; reflexivity| |].
    + split; [vm_compute; reflexivity|]. exists 0. intros k rec Hk. by vm_compute in Hk.
    + split; [by intros k id Hk; vm_compute in Hk|]. intros o Ho. vm_compute in Ho. discriminate.
  - unfold pending_of. by rewrite Hn.
Qed.

Lemma carol_ready : receiver_ready bob_1 carol_1.
Proof.
  split.
  - vm_compute. reflexivity.
  - vm_compute. reflexivity.
  - exact carol_ok.
  - intros _. vm_compute. reflexivity.
  - vm_compute. reflexivity.
  - vm_compute. discriminate.
  - vm_compute. by eexists.
  - exact (proj2 toy_keys_fit).
  - by intros ?.
  - intros k Hk. vm_compute in Hk. discriminate.
  - vm_compute. split; [discriminate|reflexivity].
Qed.

(** Bob's commit, and what its proposals make of the group. *)
Definition removing : CommitBuilder := raw_proposal (PRemove (mk_remove 0)) commit_builder.
Definition no_pending : PendingCommit :=
  mk_pending_commit (g_state no_group) (g_epoch_secrets no_group) (g_private_tree no_group) (g_key_schedule no_group) []
    (mk_commit_description false 0 (EffectNewEpoch (mk_new_epoch 0 (g_state no_group) [] [])) []) [].
Notation bob_removes := (build_internal (cs := Toy.provider) (toy_commit_coins 210) 100 removing bob_1).
Notation removal_message := (co_commit_message (value (no_output, no_pending) bob_removes.1).1).

Definition no_provisional : ProvisionalState := mk_provisional_state tree_kem_new bundle_empty (mk_group_context 1 1 [] 0 [] [] []) None [] [].

Definition removed_pv : ProvisionalState := Eval vm_compute in
  value no_provisional (apply_resolved (g_state bob_1) (SenderMember 1) (prepare_commit (st_proposals (g_state bob_1)) (SenderMember 1)
    (cb_proposals removing)) None (secret_store (g_config bob_1)) (cfg_mls_rules (g_config bob_1)) (Some 100) Receive).

Notation removal_bundle := (prepare_commit (st_proposals (g_state bob_1)) (SenderMember (self_index (g_private_tree bob_1))) (cb_proposals removing)).

Lemma removal_bundle_eq : removal_bundle = bundle_add (PRemove (mk_remove 0)) (SenderMember 1) ByValue bundle_empty.
Proof. vm_compute. reflexivity. Qed.

Lemma removal_received : received_ok removal_bundle.
Proof.
  rewrite removal_bundle_eq.
  split_and!; [constructor; [split; [done|]; vm_compute; discriminate|constructor]|constructor..].
Qed.

Lemma removal_valid : proposals_valid bob_1 carol_1 (cb_proposals removing) (default 100 (cb_commit_time removing)) removed_pv.
Proof.
  split; [exact removal_received|..].
  - rewrite removal_bundle_eq. vm_compute. discriminate.
  - vm_compute. reflexivity.
  - split. + vm_compute. repeat constructor; discriminate. + vm_compute. constructor.
  - vm_compute. reflexivity.
Qed.

Lemma two_distinct idf b c l : encodable leaf_node_codec l -> compatible idf l c ->
  leaf_distinct idf 1 [None; None; Some (NodeLeaf b); None; Some (NodeLeaf c)] l.
Proof.
  intros He Hc. split; [done|]. intros j l' Hj Hl. pose proof (nd_bound _ _ _ (nd_leaf_at _ _ _ Hl)) as Hb.
  change (zlen [None; None; Some (NodeLeaf b); None; Some (NodeLeaf c)]) with 5 in Hb.
  assert (j = 0 \/ j = 2) as [->| ->] by lia; cbn in Hl; [done|]. by injection Hl as <-.
Qed.

Lemma removed_nodes : nodes (pv_public_tree removed_pv) = [None; None; Some (NodeLeaf (toy_leaf 1)); None; Some (NodeLeaf (toy_leaf 2))].
Proof. vm_compute. reflexivity. Qed.

Definition removal_path : UpdatePath := Eval vm_compute in
  match payload removal_message with Plain m => default (mk_update_path (toy_leaf 1) []) (sent_path m) | _ => mk_update_path (toy_leaf 1) [] end.

Lemma removal_plain : exists m, payload removal_message = Plain m /\ sent_path m = Some removal_path.
Proof. eexists. split; vm_compute; reflexivity. Qed.

Lemma removal_leaf_accepted : leaf_accepted (st_context (g_state bob_1)) removed_pv 1 (Some 100) (path_leaf_node removal_path).
Proof.
  split; [vm_compute; reflexivity|]. exists (toy_leaf 1).
  split; [vm_compute; reflexivity|]. split; [vm_compute; reflexivity|]. 
  assert (forall a b : list Z, bool_decide (a = b) = false -> a <> b) as Hne by (intros a b E; by apply bool_decide_eq_false in E).
  apply Hne. vm_compute. reflexivity.
Qed.

Lemma removal_leaf_distinct : leaf_distinct signature_key 1 (nodes (pv_public_tree removed_pv)) (path_leaf_node removal_path).
Proof.
  rewrite removed_nodes. apply two_distinct.
  - eexists. vm_compute. reflexivity.
  - split_and!; vm_compute; (discriminate || by left).
Qed.

(** A member processes a message at time 100. *)
Definition receive_at_100 (m : MlsMessage) (g : ToyGroup) : res MlsError ReceivedMessage * ToyGroup :=
  group_process_incoming_message (cs := Toy.provider) 0%nat 100 m (Some 100) g.

Lemma run_pair {E A B T} (d : A * B) (r : res E (A * B) * T) :
  is_ok r.1 = true -> r = (Ok ((value d r.1).1, (value d r.1).2), r.2).
Proof. by destruct r as [[[]| |] ?]. Qed.

(** Bob removes Alice, and Carol agrees. *)
Lemma commit_agreement_witness : exists (m : PublicMessage) (g' : ToyGroup) out p d (h' : ToyGroup),
  bob_removes = (Ok (out, p), g') /\ payload (co_commit_message out) = Plain m /\
  receive_at_100 (co_commit_message out) carol_1 = (Ok (ReceivedCommit d), h') /\
  same_epoch (pnd_state p) (g_state h') /\ g_epoch_secrets h' = pnd_epoch_secrets p.
Proof.
  destruct removal_plain as (m & Hm & Hup).
  assert (is_ok bob_removes.1 = true) as E by (vm_compute; reflexivity). apply (run_pair (no_output, no_pending)) in E.
  destruct (commit_agreement (idp := plain_provider) (cs := Toy.provider) signature_key bob_1 carol_1 _ (toy_leaf 1)
    (toy_commit_coins 210) 0%nat 100 100 removing _ _ m removed_pv ltac:(reflexivity) bob_ready carol_ready removal_valid E Hm)
    as (d & h' & Hrun & Hsame & Hes & _).
  - intros up Hup'. rewrite Hup in Hup'. injection Hup' as <-. exact (conj removal_leaf_accepted removal_leaf_distinct).
  - eexists m, _, _, _, d, h'. exact (conj E (conj Hm (conj Hrun (conj Hsame Hes)))).
Defined.
