(* ===== verification/StaleIndex.v ===== *)
(** * The index of a tree after one's own commit

    The leaf that a commit gives its sender is written into the nodes of the
    sender's tree by [encap], and into the index as well by those that process
    the commit ([apply_update_path]).  What this means for the sender. *)

From S2P Require Import Prelude Codec Crypto TreeMath SecretTree Data NodeVec TreeIndex TreeHash ParentHash TreeInv Proposals TreeKem TreePath LeafNodes Kem Framing KeySchedule MessageProtection EpochStore Filtering GroupState Processor Group Commit Client StateLogic Scenario PathAgreement.

#[local] Set Default Goal Selector "!".
Local Open Scope Z_scope.

(** ** What [encap] does to a tree *)

Notation same_nodes := (fun t t' : TreeKemPublic => nodes t' = nodes t).
Notation same_index := (fun t t' : TreeKemPublic => index t' = index t).

#[export] Instance same_nodes_preorder : PreOrder same_nodes.
Proof. split; [by intros ?|intros ? ? ? E1 E2; by rewrite E2]. Qed.
#[export] Instance same_index_preorder : PreOrder same_index.
Proof. split; [by intros ?|intros ? ? ? E1 E2; by rewrite E2]. Qed.

Section trees.
Context `{CipherSuiteProvider}.

(** Hashing changes the hashes only. *)
Lemma zoom_hashes_keeps {A} (m : SM _ MlsError A) : keeps same_nodes (zoom_hashes m) /\ keeps same_index (zoom_hashes m).
Proof using Type. split; intros s; unfold zoom_hashes, sm_zoom; by destruct (m _). Qed.

Lemma zoom_nodes_keeps {A} (m : SM _ MlsError A) : keeps same_index (zoom_nodes m).
Proof using Type. intros s. unfold zoom_nodes, sm_zoom. by destruct (m _). Qed.

Lemma update_hashes_keeps ls : keeps same_nodes (update_hashes ls) /\ keeps same_index (update_hashes ls).
Proof using Type. split; intros s; unfold update_hashes; rewrite sm_get_run; apply zoom_hashes_keeps. Qed.

Lemma initialize_hashes_keeps : keeps same_nodes initialize_hashes /\ keeps same_index initialize_hashes.
Proof using Type.
  split; intros s; unfold initialize_hashes; rewrite sm_get_run; destruct (tree_hashes s); try done; apply zoom_hashes_keeps.
Qed.

Lemma tree_hash_keeps : keeps same_nodes tree_kem_tree_hash /\ keeps same_index tree_kem_tree_hash.
Proof using Type.
  unfold tree_kem_tree_hash. split; (apply keeps_bind; [typeclasses eauto|apply initialize_hashes_keeps|intros []; keeps]).
Qed.

Lemma borrow_leaf_at v i l : 0 <= i < 2 ^ 31 -> borrow_as_leaf_mut v i = Ok l -> leaf_at v i = Some l.
Proof using Type.
  intros Hi. unfold borrow_as_leaf_mut, validate_index, leaf_at, nd. rewrite node_index_eq by done.
  destruct (_ <=? _); [done|]. cbn [mbind res_bind]. destruct (zget v (2 * i)) as [[[]|]|]; try done. cbn. by intros [= ->].
Qed.

Lemma parent_hash_loop_keeps cps h : keeps same_index (parent_hash_loop cps h).
Proof using Type. revert h. induction cps as [|cp cps IH]; intros h; cbn [parent_hash_loop]; keeps; try apply IH; apply zoom_nodes_keeps. Qed.

Lemma update_parent_hashes_keeps i b : keeps same_index (update_parent_hashes i b).
Proof using Type.
  unfold update_parent_hashes, parent_hash_for_leaf. pose proof (update_hashes_keeps [i]) as [_ Hu].
  keeps; try done; apply zoom_nodes_keeps || apply parent_hash_loop_keeps.
Qed.

Lemma update_path_nodes_keeps ns cps : keeps same_index (update_path_nodes ns cps).
Proof using Type.
  revert cps. induction ns as [|n ns IH]; intros [|cp cps]; cbn [update_path_nodes]; keeps; try apply IH. apply zoom_nodes_keeps.
Qed.

Section run.
Context (c1 c2 c3 : Coins) (c4 : Z -> Z -> Coins) (excl : list Z) (signer : SignatureSecretKey) (props : option ConfigProperties)
  (id : option SigningIdentity) (t : TreeKemPublic) (p : TreeKemPrivate) (ctx : GroupContext) (gen : EncapGeneration) (s' : KemState).
Context (Hrun : encap c1 c2 c3 c4 excl signer props id (mk_kem_state t (mk_key_state p psg_new) ctx) = (Ok gen, s'))
  (Hi : 0 <= self_index p < 2 ^ 31).

(** The index is what it was, and the nodes have the new leaf. *)
Lemma encap_leaf_index : index (ke_tree s') = index t /\ leaf_at (nodes (ke_tree s')) (self_index p) = Some (path_leaf_node (eg_update_path gen)).
Proof using Hrun Hi.
  apply encap_inv in Hrun as [(fs & ds & g & g' & t1 & t2 & t3 & t4 & old & new & lk & h & ctxb & ns & _ & _ & H1 & H2 & _ & _ & E3 &
    H3 & H4 & H5 & _)].
  apply (keeps_run _ _ _ _ _ (update_path_nodes_keeps _ _)) in H1. apply (keeps_run _ _ _ _ _ (update_parent_hashes_keeps _ _)) in H2.
  pose proof (keeps_run _ _ _ _ _ (proj1 (update_hashes_keeps _)) H4) as N4. apply (keeps_run _ _ _ _ _ (proj2 (update_hashes_keeps _))) in H4.
  pose proof (keeps_run _ _ _ _ _ (proj1 tree_hash_keeps) H5) as N5. apply (keeps_run _ _ _ _ _ (proj2 tree_hash_keeps)) in H5.
  cbn beta in *. split; [|rewrite N5, N4; by apply borrow_leaf_at].
  rewrite H5, H4, E3. cbn [set_nodes index]. by rewrite H2, H1.
Qed.
End run.
End trees.

(** An index that is not that of the leaves. *)
Definition index_stale (idf : SigningIdentity -> bytes) (t : TreeKemPublic) : Prop :=
  ~ index_rep idf (index t) (non_empty_leaves (nodes t)).

(** C38: the sender of a commit does not enter its own new leaf into the index
    of its tree.  After [encap] the index is what it was: it has the key of the
    old leaf at the sender's position and not that of the new one, and it is no
    longer the index of the nodes. *)
Theorem own_commit_index `{CipherSuiteProvider} (idf : SigningIdentity -> bytes) c1 c2 c3 c4 excl signer props id
    (t : TreeKemPublic) (p : TreeKemPrivate) (ctx : GroupContext) (gen : EncapGeneration) (s' : KemState) (old : LeafNode)
    (Ht : tree_ok idf t) (Hold : leaf_at (nodes t) (self_index p) = Some old)
    (Hrun : encap c1 c2 c3 c4 excl signer props id (mk_kem_state t (mk_key_state p psg_new) ctx) = (Ok gen, s'))
    (Hkey : leaf_public_key (path_leaf_node (eg_update_path gen)) <> leaf_public_key old) :
  index (ke_tree s') = index t /\
  hpke_key (index (ke_tree s')) !! leaf_public_key old = Some (self_index p) /\
  hpke_key (index (ke_tree s')) !! leaf_public_key (path_leaf_node (eg_update_path gen)) <> Some (self_index p) /\
  index_stale idf (ke_tree s').
Proof.
  destruct (leaf_range _ _ _ (to_vec _ _ Ht) Hold) as (_ & _ & _ & Hi & _).
  destruct (encap_leaf_index _ _ _ _ _ _ _ _ _ _ _ _ _ Hrun Hi) as [Ei Hl].
  pose proof (ir_hpke _ _ _ (to_index _ _ Ht)) as Hrep.
  assert (hpke_key (index t) !! leaf_public_key old = Some (self_index p)) as Hk
    by (apply Hrep; exists old; split; [by apply elem_of_members|done]).
  rewrite Ei. split; [done|]. split; [done|]. split.
  - intros (l & Hin%elem_of_members & E)%Hrep. congruence.
  - intros Ht'. pose proof (ir_hpke _ _ _ Ht') as Hrep'. rewrite Ei in Hrep'.
    apply Hrep' in Hk as (l & Hin%elem_of_members & E). congruence.
Qed.

Lemma own_commit_index_witness : exists gen s', two_encap = (Ok gen, s') /\
  index (ke_tree s') = index group_of_two /\ index_stale signature_key (ke_tree s').
Proof.
  destruct two_encap as [[gen|e|] s'] eqn:E; [|by vm_compute in E..].
  destruct (own_commit_index (H := Toy.provider) signature_key 3%nat 4%nat 5%nat (fun _ _ => 0%nat) [] [1] None None
    group_of_two first_keys two_context gen s' (member_leaf 1) group_of_two_ok ltac:(reflexivity) E) as (Hi & _ & _ & Hn).
  - vm_compute in E. injection E as <- <-. vm_compute. discriminate.
  - exists gen, s'. exact (conj eq_refl (conj Hi Hn)).
Defined.

(** ** A group that falls apart *)

#[local] Existing Instance plain_provider.
#[local] Existing Instance plain_order.
#[local] Existing Instance Toy.provider.

(** Bob commits with a new identity, whose key is 12 in place of 2. *)
Definition renewal : CommitOutput * ToyGroup :=
  commit_with 150 (set_new_signing_identity [12] (mk_signing_identity [12] (Basic [2])) commit_builder) bob_1.
Definition bob_renewed : ToyGroup := renewal.2.
Definition alice_renewed : ToyGroup := (receive (co_commit_message renewal.1) alice_1).2.
Definition carol_renewed : ToyGroup := (receive (co_commit_message renewal.1) carol_1).2.

(** Bob adds a client that has his new key, Alice one that has his old key. *)
Definition bob_adds : CommitOutput * ToyGroup :=
  commit_with 170 (value commit_builder (add_member (package 180 12).1 commit_builder)) bob_renewed.
Definition alice_adds : CommitOutput * ToyGroup :=
  commit_with 190 (value commit_builder (add_member (package 200 2).1 commit_builder)) alice_renewed.

(** All three agree on Bob's new leaf.  Bob's own tree lets a client in that has
    the signature key Bob has now, which the others refuse; and it refuses one
    that has the key Bob had before, which the others let in. *)
Example members_disagree :
  same_view alice_renewed bob_renewed && same_view carol_renewed bob_renewed = true /\
  epoch (st_context (g_state bob_adds.2)) = epoch (st_context (g_state bob_renewed)) + 1 /\
  (receive (co_commit_message bob_adds.1) alice_renewed).1 = Err (DuplicateLeafData 1) /\
  is_ok (receive (co_commit_message alice_adds.1) carol_renewed).1 = true /\
  (receive (co_commit_message alice_adds.1) bob_renewed).1 = Err (DuplicateLeafData 1).
Proof. split_and!; vm_compute; reflexivity. Qed.
