(* ===== verification/Joining.v ===== *)
(** * Joining with a welcome message

    What a member that a commit adds makes of the welcome message: it arrives in
    the epoch of the committer ([welcomes] of mls-rs/src/group/commit.rs,
    [from_welcome_message] of mls-rs/src/group/mod.rs, [update_secrets] of
    mls-rs/src/tree_kem/private.rs), and the signer a committer has afterwards. *)

From S2P Require Import Prelude Codec Crypto TreeMath SecretTree Data NodeVec TreeIndex TreeHash ParentHash TreeInv Proposals TreeKem TreePath LeafNodes Kem Framing KeySchedule MessageProtection EpochStore Filtering GroupState Processor Group Commit Client StateLogic Scenario Snapshots Observer Following PathAgreement GroupInv Agreement StaleIndex.

#[local] Set Default Goal Selector "!".
Local Open Scope Z_scope.

(** ** The keys of a newcomer *)

Lemma zset_id {A} (l : list A) i x : zget l i = Some x -> zset l i x = l.
Proof.
  unfold zget, zset. destruct (i <? 0); [done|]. apply list_insert_id.
Qed.

Lemma drop_zip {A B} (n : nat) (l : list A) (k : list B) : drop n (zip l k) = zip (drop n l) (drop n k).
Proof. revert l k. induction n as [|n IH]; intros [|x l] [|y k]; try done; cbn; [by destruct (drop n l)|apply IH]. Qed.

(** The loop of [update_secrets] puts the keys of the occupied nodes. *)
Lemma update_secrets_run `{CipherSuiteProvider} coins v fs : forall m cps ds p g g',
  draws coins fs g ds g' -> length cps = length fs ->
  (forall (n : nat) cp d, cps !! n = Some cp -> ds !! n = Some (Some d) ->
     exists q, borrow_node v (path cp) = Ok (Some (NodeParent q)) /\ parent_public_key q = dr_public d) ->
  (forall k, m < k < zlen (secret_keys p) -> zget (secret_keys p) k = Some None) ->
  0 <= m -> m + zlen fs < zlen (secret_keys p) ->
  update_secrets_loop coins v (enum_from m (zip cps fs)) (mk_key_state p g) =
    (Ok tt, mk_key_state (set_keys (put_keys m ds (secret_keys p)) p) g').
Proof.
  induction fs as [|f fs IH]; intros m [|cp cps] ds p g g' Hd Hl Hn Hk Hm Hlen; try done.
  { destruct ds; [|done]. cbn in Hd. subst. by destruct p. }
  injection Hl as Hl. assert (zlen (f :: fs) = zlen fs + 1) as E by (unfold zlen; cbn [length]; lia). rewrite E in Hlen.
  pose proof (zlen_nonneg fs). cbn [zip zip_with]. rewrite enum_from_cons. cbn [update_secrets_loop].
  destruct f, ds as [|[d|] ds]; try done; cbn [draws] in Hd.
  - cbn [put_keys]. change (dr_private <$> (None : option Drawn)) with (None : option HpkeSecretKey).
    rewrite (zset_id (secret_keys p) (m + 1) None) by (apply Hk; lia).
    apply IH; [done|done| |intros k ?; apply Hk; lia|lia|lia]. intros n. apply (Hn (S n)).
  - destruct Hd as (g1 & Hs & Hkp & Hd). destruct (Hn 0%nat cp d eq_refl eq_refl) as (q & Hq & Epk).
    erewrite sm_bind_run by (unfold zoom_gen, sm_zoom; cbn [ks_gen]; by rewrite Hs).
    rewrite (sm_lift_run _ _ _ _ Hq). cbn [fmap option_fmap option_map node_public_key ok_or].
    rewrite (sm_lift_run _ _ _ (parent_public_key q)) by done. rewrite (sm_lift_run _ _ _ _ Hkp). cbv beta iota.
    rewrite bool_decide_true by done.
    erewrite sm_bind_run by (unfold zoom_private, sm_zoom; cbn [ks_private]; by rewrite put_key_run by lia).
    cbn [ks_private ks_gen]. rewrite (IH (m + 1) cps ds _ g1 g').
    + done.
    + done.
    + done.
    + intros n. apply (Hn (S n)).
    + cbn [set_keys secret_keys]. intros k. rewrite zlen_zset. intros ?. rewrite zget_zset_ne by lia. apply Hk. lia.
    + lia.
    + cbn [set_keys secret_keys]. rewrite zlen_zset. lia.
Qed.

(** A newcomer has its leaf key, and is unmerged at the nodes above it. *)
Lemma newcomer_fits `{CipherSuiteProvider} v r l sk : leaf_at v r = Some l -> vec_inv [] v -> all_unmerged v r ->
  is_key_pair sk (leaf_public_key l) -> keys_fit v (new_self_leaf r sk).
Proof.
  intros Hl Hv Hu Hp. pose proof (leaf_range _ _ _ Hv Hl) as (Hr & _). set (q := resize_keys (Z.of_nat (depth v) + 1) (new_self_leaf r sk)).
  assert (forall k : nat, (k <= depth v)%nat -> secret_keys q !! k = match k with 0%nat => Some (Some sk) | S _ => Some None end) as Hk.
  { intros k Hk. unfold q. rewrite resize_key by lia. by destruct k. }
  unfold keys_fit. fold q. split; cbn [self_index q resize_keys set_keys new_self_leaf].
  - by exists l.
  - pose proof (resize_len (Z.of_nat (depth v) + 1) (new_self_leaf r sk) ltac:(lia)) as E. unfold zlen in E. unfold q. lia.
  - intros k sk' n Hle Hsk Hn. change (secret_keys q !! k = Some (Some sk')) in Hsk. rewrite Hk in Hsk by done.
    destruct k; [|done]. injection Hsk as <-. rewrite above_0, (nd_leaf_at _ _ _ Hl) in Hn. injection Hn as <-. exact Hp.
  - intros k n Hle Hsk Hn. change (secret_keys q !! k = Some None) in Hsk. rewrite Hk in Hsk by done.
    destruct k as [|k]; [done|]. pose proof (vi_parity _ _ Hv _ _ Hn) as Ho. destruct n as [|p].
    { unfold above in Ho. rewrite odd_node_S in Ho; [done|]. apply Z.shiftr_nonneg. lia. }
    exists p. split; [done|]. apply (Hu (S k)). unfold above in Hn. unfold parent_at. by rewrite Hn.
Qed.

Section newcomer.
Context `{CipherSuiteProvider, !HashLaws, !HpkeLaws} (idf : SigningIdentity -> bytes)
  (c1 : Coins) (c4 : Z -> Z -> Coins) (excl : list Z) (t : TreeKemPublic) (p : TreeKemPrivate) (gen : EncapGeneration)
  (s' : KemState) (old : LeafNode).
Notation i := (self_index p).
Notation V := (nodes (ke_tree s')).
Context (Ht : tree_ok idf t) (Hold : leaf_at (nodes t) i = Some old)
  (fs : list bool) (ds : list (option Drawn)) (g g' : PathSecretGenerator) (v : NodeVec) (h : ParentHash)
  (t1 t2 : TreeKemPublic) (Hsd : sender_done c1 c4 excl t p gen s' old fs ds g g' v h t1 t2).
Context (r : Z) (lr : LeafNode) (sk : HpkeSecretKey) (Hlr : leaf_at (nodes t) r = Some lr) (Hne : r <> i)
  (Hun : all_unmerged (nodes t) r) (Hsk : is_key_pair sk (leaf_public_key lr)).

Lemma V_member l : is_Some (leaf_at V l) <-> is_Some (leaf_at (nodes t) l).
Proof using Ht Hold Hsd H0 H1.
  destruct (decide (l = i)) as [->|Hl].
  - rewrite Hold. destruct (V_shape idf c1 c4 excl t p gen s' old Ht Hold fs ds g g' v h t1 t2 Hsd) as (_ & _ & Hn & _).
    unfold leaf_at. rewrite Hn. by split; eexists.
  - by rewrite (leaf_at_V idf c1 c4 excl t p gen s' old Ht Hold fs ds g g' v h t1 t2 Hsd).
Qed.

(** From the common ancestor on, the positions of the two paths that are
    filtered are the same. *)
Lemma newcomer_filtered (L : nat) d : ds !! L = Some (Some d) -> (forall k : nat, (L < k)%nat -> above r k = above i k) ->
  Z.lxor (Z.shiftr i (Z.of_nat L)) 1 = Z.shiftr r (Z.of_nat L) ->
  exists fr, filtered V r = Ok fr /\ length fr = depth (nodes t) /\ drop L fr = drop L fs.
Proof using Ht Hold Hsd Hlr H0 H1 Hne.
  intros Hd Hab Hsib. pose proof (V_inv idf c1 c4 excl t p gen s' old Ht Hold fs ds g g' v h t1 t2 Hsd) as HV.
  destruct (V_depth idf c1 c4 excl t p gen s' old Ht Hold fs ds g g' v h t1 t2 Hsd) as [Ed _].
  pose proof (to_vec _ _ Ht) as Hv. destruct (leaf_range _ _ _ Hv Hlr) as (Hr & _), (leaf_range _ _ _ Hv Hold) as (Hi & _).
  assert (leaf_at V r = Some lr) as HlV by (by rewrite (leaf_at_V idf c1 c4 excl t p gen s' old Ht Hold fs ds g g' v h t1 t2 Hsd)).
  destruct (filtered_spec V r lr HV HlV) as (fr & Efr & Hlen & Hfr).
  destruct (filtered_spec _ _ _ Hv Hold) as (fi & Efi & Hleni & Hfi). rewrite (sd_filtered Hsd) in Efi. injection Efi as <-.
  exists fr. split; [done|]. split; [by rewrite Hlen|].
  apply list_eq_same_length with (depth (nodes t) - L)%nat; rewrite ?length_drop; [lia..|].
  intros n x y Hn. rewrite !lookup_drop. intros Hx Hy. apply Hfr in Hx as [Hnd ->].
  destruct n as [|n].
  - rewrite Nat.add_0_r in *. rewrite (draws_shape _ _ _ _ _ (sd_draws Hsd)), list_lookup_fmap, Hd in Hy. injection Hy as <-.
    cbn [blank_pos]. apply bool_decide_false. rewrite <- Hsib, Z.lxor_assoc. change (Z.lxor 1 1) with 0. rewrite Z.lxor_0_r.
    apply resolution_members; [done|apply Z.shiftr_nonneg; lia|]. exists i. split; [lia|]. split; [done|].
    apply V_member. by exists old.
  - apply Hfi in Hy as [_ ->]. specialize (Hab (L + S n)%nat ltac:(lia)). apply above_inj in Hab as [_ ->]; [|lia|lia].
    set (j := Z.lxor _ 1).
    assert (0 <= j) as Hj by (apply Z.lxor_nonneg; split; [intros _; lia|intros _; apply Z.shiftr_nonneg; lia]).
    apply bool_decide_ext. 
    assert (resolution V (L + S n) j <> [] <-> resolution (nodes t) (L + S n) j <> []) as E.
    { rewrite !resolution_members by done. apply exist_proper. intros l. by rewrite V_member. }
    destruct (decide (resolution V (L + S n) j = [])), (decide (resolution (nodes t) (L + S n) j = [])); tauto.
Qed.

(** The newcomer gets the keys of the nodes it shares with the committer. *)
Lemma newcomer_secrets : exists (L : nat) d q', lca_position r i = Ok (Z.of_nat L) /\ ds !! L = Some (Some d) /\
  (forall c' t', nodes t' = V -> update_secrets c' i (dr_secret d) t' (new_self_leaf r sk) = (Ok tt, q')) /\
  private_ok V q' /\ self_index q' = r.
Proof using All.
  destruct (common_secret idf c1 c4 excl t p gen s' old Ht Hold fs ds g g' v h t1 t2 Hsd r lr Hlr Hne)
    as (L & d & Hpos & HL & Hab & Hsib & Hsame & Hd).
  pose proof (V_inv idf c1 c4 excl t p gen s' old Ht Hold fs ds g g' v h t1 t2 Hsd) as HV.
  destruct (V_depth idf c1 c4 excl t p gen s' old Ht Hold fs ds g g' v h t1 t2 Hsd) as [Edep _].
  pose proof (ds_length idf c1 c4 excl t p gen s' old Ht Hold fs ds g g' v h t1 t2 Hsd) as Hdl.
  assert (leaf_at V r = Some lr) as HlV by (by rewrite (leaf_at_V idf c1 c4 excl t p gen s' old Ht Hold fs ds g g' v h t1 t2 Hsd)).
  destruct (newcomer_filtered L d Hd Hab Hsib) as (fr & Efr & Hfl & Edrop).
  pose proof (draws_suffix _ _ _ _ _ _ _ (sd_draws Hsd) Hd) as Hsuf. rewrite <- Edrop in Hsuf.
  set (q0 := resize_keys (Z.of_nat (depth V) + 1) (new_self_leaf r sk)).
  assert (zlen (secret_keys q0) = Z.of_nat (depth (nodes t)) + 1) as Hq0 by (unfold q0; rewrite resize_len by lia; lia).
  set (q' := set_keys (put_keys (Z.of_nat L) (drop L ds) (secret_keys q0)) q0).
  pose proof (newcomer_fits _ r lr sk Hlr (to_vec _ _ Ht) Hun Hsk) as Hfit. unfold keys_fit in Hfit. rewrite <- Edep in Hfit. fold q0 in Hfit.
  assert (Z.of_nat L + zlen (drop L ds) < zlen (secret_keys q0)) as Hroom by (rewrite Hq0; unfold zlen; rewrite length_drop; lia).
  exists L, d, q'. split; [done|]. split; [done|]. split; [|split; [|done]].
  - intros c' t' EV. destruct (draws_coins c1 c' (drop L fr) (psg_starting (dr_secret d)) (drop L ds) g ltac:(by left) Hsuf) as [Hd' _].
    unfold update_secrets. rewrite EV. cbn [self_index new_self_leaf]. rewrite Hpos. cbn [mbind res_bind]. rewrite Efr.
    cbn [mbind res_bind]. rewrite (own_path_len V r lr HV HlV). fold q0. rewrite Nat2Z.id, drop_enumerate, drop_zip.
    pose proof (own_path_len V r lr HV HlV) as Hpl. unfold zlen in Hpl.
    rewrite (update_secrets_run c' V (drop L fr) (Z.of_nat L) _ (drop L ds) q0 _ g Hd'); [done| | | |lia|].
    + rewrite !length_drop. lia.
    + intros n cp d' Hcp Hd1. rewrite lookup_drop in Hcp; rewrite lookup_drop in Hd1.
      destruct (V_path idf c1 c4 excl t p gen s' old Ht Hold fs ds g g' v h t1 t2 Hsd (L + n) d' Hd1) as (q & Hq & Epk & _).
      exists q. split; [|done]. pose proof (lookup_lt_Some _ _ _ Hd1).
      destruct (own_path_lookup V r lr HV HlV (1 + (L + n)) ltac:(lia)) as (cp' & Hcp' & Ecp).
      change (vec_direct_copath V r !! (L + n)%nat = Some cp') in Hcp'. rewrite Hcp in Hcp'. injection Hcp' as <-.
      rewrite Ecp, (Hab (1 + (L + n))%nat) by lia. rewrite borrow_node_nd by exact (nd_bound _ _ _ Hq). f_equal. exact Hq.
    + intros k Hk. rewrite <- (Z2Nat.id k), zget_nat by lia. unfold q0. rewrite resize_key by lia.
      destruct (Z.to_nat k) as [|k'] eqn:Ek; [lia|done].
    + rewrite Hq0. unfold zlen. rewrite length_drop. lia.
  - assert (forall k : nat, (k <= L)%nat -> secret_keys q' !! k = secret_keys q0 !! k) as Hlow.
    { intros k Hk. unfold q'. cbn [secret_keys set_keys]. by rewrite <- zget_nat, put_keys_old, zget_nat by lia. }
    assert (forall k n, (L < k <= depth V)%nat -> nd V (above r k) = Some n ->
      exists sk, secret_keys q' !! k = Some (Some sk) /\ is_key_pair sk (node_public_key n)) as Hhigh.
    { intros k n Hk Hn. unfold q'. cbn [secret_keys set_keys]. rewrite <- zget_nat.
      apply (path_keys_ok idf c1 c4 excl t p gen s' old Ht Hold fs ds g g' v h t1 t2 Hsd r L (drop L ds) 0); try done.
      by rewrite app_nil_r. }
    destruct Hfit as [_ Hl Hp Hh]. change (self_index q0) with r in Hp, Hh.
    split; change (self_index q') with r.
    + by exists lr.
    + pose proof (put_keys_len (Z.of_nat L) (drop L ds) (secret_keys q0)) as E. rewrite Hq0 in E. unfold zlen in E.
      unfold q'. cbn [secret_keys set_keys]. lia.
    + intros k sk' n Hk Hs Hn. destruct (decide (k <= L)%nat) as [Hle|Hgt].
      * rewrite Hlow in Hs by done. rewrite Hsame in Hn by done. apply (Hp k); [lia|done|done].
      * destruct (Hhigh k n ltac:(lia) Hn) as (sk2 & Hs2 & Hp2). congruence.
    + intros k n Hk Hs Hn. destruct (decide (k <= L)%nat) as [Hle|Hgt].
      * rewrite Hlow in Hs by done. rewrite Hsame in Hn by done. apply (Hh k); [lia|done|done].
      * destruct (Hhigh k n ltac:(lia) Hn) as (sk2 & Hs2 & _). congruence.
Qed.
End newcomer.

(** The committer finds the secret of the common ancestor at its position. *)
Lemma leaf_level v r i lr li (L : nat) : vec_inv [] v -> leaf_at v r = Some lr -> leaf_at v i = Some li -> r <> i ->
  lca_position r i = Ok (Z.of_nat L) -> leaf_lca_level i r = Some (Z.of_nat L + 1).
Proof.
  intros Hv Hr Hi Hne Hpos. destruct (leaf_range _ _ _ Hv Hr) as (Hr0 & _ & _ & H31 & _), (leaf_range _ _ _ Hv Hi) as (Hi0 & _ & _ & H31' & _).
  destruct (lca_position_spec v r i lr li Hv Hr Hi Hne) as (L' & Hpos' & _ & Hab & _ & Hbelow).
  rewrite Hpos in Hpos'. injection Hpos' as E%Nat2Z.inj. subst L'.
  change (2 ^ 31) with 2147483648 in *.
  destruct (leaf_lca_level_least i r) as (k & -> & Hk & Heq & Hmin); [unfold in_uint; change (2 ^ 32) with 4294967296; lia..|].
  f_equal. specialize (Hab (L + 1)%nat ltac:(lia)). apply above_inj in Hab as [_ Hab]; [|lia|lia].
  replace (Z.of_nat (L + 1)) with (Z.of_nat L + 1) in Hab by lia.
  destruct (Z.lt_trichotomy k (Z.of_nat L + 1)) as [Hlt|[->|Hgt]]; [exfalso|done|exfalso].
  - apply (Hbelow (Z.to_nat k)); [lia|]. by rewrite Z2Nat.id by lia.
  - by apply (Hmin (Z.of_nat L + 1)); [lia|].
Qed.

(** ** What the provider makes is bytes *)

Class OutputLaws `{CipherSuiteProvider} : Prop := {
  sign_bytes coins sk data sig : sign coins sk data = Ok sig -> bytes_ok sig;
  mac_bytes key data tag : mac key data = Ok tag -> bytes_ok tag;
  expand_output prk info len x : kdf_expand prk info len = Ok x -> bytes_ok x;
  random_bytes_ok coins n b : random_bytes_vec coins n = Ok b -> bytes_ok b;
}.

Section bytes.
Context `{CipherSuiteProvider, !OutputLaws}.

Lemma expand_bytes s l c len x : kdf_expand_with_label s l c len = Ok x -> bytes_ok x.
Proof using H0. unfold kdf_expand_with_label. intros (info & _ & Hx%map_err_Ok)%bind_Ok. by apply expand_output in Hx. Qed.

Lemma derive_bytes s l x : kdf_derive_secret s l = Ok x -> bytes_ok x.
Proof using H0. apply expand_bytes. Qed.

Lemma next_secret_bytes coins g s g' : (forall x, psg_starting_with g = Some x -> bytes_ok x) ->
  next_secret coins g = (Ok s, g') -> bytes_ok s.
Proof using Type*.
  intros Hg. unfold next_secret. destruct (psg_starting_with g) as [x|] eqn:Ex.
  - intros [= <- _]. by apply Hg.
  - destruct (psg_last g) as [l|].
    + destruct (kdf_derive_secret l (bstr "path")) as [x| |] eqn:Ed; try done. intros [= <- _]. by apply derive_bytes in Ed.
    + unfold path_secret_random. destruct (random_bytes_vec coins kdf_extract_size) as [x| |] eqn:Er; try done.
      intros [= <- _]. by apply random_bytes_ok in Er.
Qed.

Lemma draws_bytes coins fs g ds g' d : (forall x, psg_starting_with g = Some x -> bytes_ok x) ->
  draws coins fs g ds g' -> Some d ∈ ds -> bytes_ok (dr_secret d).
Proof using Type*.
  revert g ds. induction fs as [|[] fs IH]; intros g [|[d'|] ds] Hg Hd Hin; try done; try (by apply elem_of_nil in Hin); cbn in Hd.
  - apply elem_of_cons in Hin as [?|Hin]; [done|]. by eapply IH.
  - destruct Hd as (g1 & Hn & _ & Hd). pose proof (next_secret_state _ _ _ _ Hn) as E.
    apply next_secret_bytes in Hn; [|done]. apply elem_of_cons in Hin as [[= ->]|Hin]; [done|].
    eapply IH; [|exact Hd|exact Hin]. rewrite E. by intros ? [=].
Qed.

Lemma joiner_bytes k secret ctx size psk r : from_key_schedule k secret ctx size psk = Ok r -> bytes_ok (kd_joiner_secret r).
Proof using H0.
  unfold from_key_schedule. intros (seed & _ & (c & _ & (j & Hj & (r' & _ & [= <-])%bind_Ok)%bind_Ok)%bind_Ok)%bind_Ok.
  by apply expand_bytes in Hj.
Qed.

Lemma tag_bytes k h tag : confirmation_tag_create k h = Ok tag -> bytes_ok tag.
Proof using H0. unfold confirmation_tag_create. intros Hm%map_err_Ok. by apply mac_bytes in Hm. Qed.
End bytes.

(** A joiner derives the epoch from the joiner secret of the committer. *)
Lemma from_joiner_same `{CipherSuiteProvider} k secret ctx size psk r : from_key_schedule k secret ctx size psk = Ok r ->
  exists r', from_joiner (kd_joiner_secret r) ctx size psk = Ok r' /\ kd_key_schedule r' = kd_key_schedule r /\
    confirmation_key r' = confirmation_key r /\ epoch_secrets r' = epoch_secrets r.
Proof.
  unfold from_key_schedule. intros (seed & _ & (c & _ & (j & Hj & (r' & Hr & [= <-])%bind_Ok)%bind_Ok)%bind_Ok)%bind_Ok.
  by exists r'.
Qed.

(** ** Sealed and opened again *)

Lemma decode_encoded {A} (c : codec A) wf `{!CodecOk c wf} x b : wf x -> mls_encode_to_vec c x = Ok b ->
  bytes_ok b /\ mls_decode c b = Ok (x, []).
Proof.
  intros Hx Hb. pose proof (enc_spec (c := c) x Hx) as Hg. unfold enc_good in Hg. unfold mls_encode_to_vec in Hb. rewrite Hb in Hg.
  destruct Hg as (Hok & _ & Hd). split; [done|]. specialize (Hd [] ltac:(done)). by rewrite app_nil_r in Hd.
Qed.

#[export] Instance group_secrets_encryptable_laws : HpkeEncryptableLaws GroupSecrets group_secrets_wf.
Proof.
  split. intros a b Ha Hb. cbn [he_get_bytes he_from_bytes group_secrets_encryptable] in *. apply map_err_Ok in Hb.
  apply (decode_encoded _ _ _ _ Ha) in Hb as [_ Hd]. by rewrite Hd.
Qed.

Lemma he_decrypt_encrypt `{CipherSuiteProvider, !HpkeLaws} {A} wf `{HpkeEncryptableLaws A wf} coins (a : A) sk pk ctx ct :
  wf a -> is_key_pair sk pk -> he_encrypt coins a pk ctx = Ok ct -> he_decrypt sk pk ctx ct = Ok a.
Proof.
  intros Ha Hk. unfold he_encrypt. intros (c & Hc & (content & Hcont & He)%bind_Ok)%bind_Ok. apply map_err_Ok in He.
  unfold he_decrypt. rewrite Hc. cbn [mbind res_bind]. rewrite (hpke_open_seal _ _ _ _ _ _ _ Hk He). cbn [from_crypto map_err mbind res_bind].
  by eapply from_get_bytes.
Qed.

(** A typed extension is read back. *)
Lemma ext_read_back {E} t (c : codec E) wf `{!CodecOk c wf} l (e : E) l' : wf e -> ext_set_from t c l e = Ok l' ->
  ext_get_as t c l' = Ok (Some e).
Proof.
  intros He. unfold ext_set_from, into_extension. intros (x & (data & Hd%map_err_Ok & [= <-])%bind_Ok & [= <-])%bind_Ok.
  unfold ext_get_as. change (List.find (fun e => extension_type e =? t) ?l) with (ext_get l t). rewrite ext_get_set. cbn [extension_type].
  rewrite Z.eqb_refl. unfold from_extension. cbn [extension_type extension_data]. rewrite Z.eqb_refl. cbn [negb].
  apply (decode_encoded c wf) in Hd as [_ Hd]; [|done]. by rewrite Hd.
Qed.

(** ** The tree and the path secrets of the committer *)

Lemma same_key_same_leaf `{CipherSuiteProvider} idf t r l j l' : tree_ok idf t -> leaf_at (nodes t) r = Some l ->
  leaf_at (nodes t) j = Some l' -> leaf_public_key l' = leaf_public_key l -> j = r.
Proof.
  intros [_ Hx] Hr Hj E. apply elem_of_members in Hr, Hj. pose proof (ir_hpke _ _ _ Hx) as Hk. unfold key_rep in Hk.
  assert (hpke_key (index t) !! leaf_public_key l = Some r) as H1 by (apply Hk; by exists l).
  assert (hpke_key (index t) !! leaf_public_key l = Some j) as H2 by (apply Hk; by exists l').
  congruence.
Qed.

(** The member at [r], whose leaf is [l] and whose leaf key is [sk], gets its
    keys from the path secrets [secrets] of the member at [i]. *)
Definition provides `{CipherSuiteProvider} (v : NodeVec) (i r : Z) (sk : HpkeSecretKey)
    (secrets : option (list (option PathSecret))) : Prop :=
  match secrets with
  | Some secrets => exists (L : nat) secret q, lca_position r i = Ok (Z.of_nat L) /\ secrets !! L = Some (Some secret) /\
      bytes_ok secret /\ (forall c t, nodes t = v -> update_secrets c i secret t (new_self_leaf r sk) = (Ok tt, q)) /\
      keys_fit v q /\ self_index q = r
  | None => keys_fit v (new_self_leaf r sk)
  end.

Section newcomer_path.
Context {idp : IdentityProvider} {cs : CipherSuiteProvider} `{!HashLaws, !HpkeLaws, !OutputLaws}.
Context {C K P S R : Type} {cc : ClientConfig C K P S R}.
Context `{MapOrder, !GroupStateStorage S, !KeyPackageStorage K, !PreSharedKeyStorage P, !MlsRules R}.
Notation Grp := (Group C S K).
Context (idf : SigningIdentity -> bytes).
Context (coins : CommitCoins) (g : Grp) (update : bool) (signer : SignatureSecretKey) (id : option SigningIdentity)
  (lexts : option ExtensionList) (pv : ProvisionalState) (t : TreeKemPrivate) (path : CommitPath) (old : LeafNode).
Notation i := (self_index t).
Notation T := (pv_public_tree pv).
Notation V := (nodes (pv_public_tree (cpa_provisional path))).
Context (Ht : tree_ok idf T) (Henc : tree_encodable (nodes T)) (Hcur : hashes_current (nodes T) (tree_hashes T))
  (Hold : leaf_at (nodes T) i = Some old).
Context (Hpath : make_path coins g update None signer id lexts pv t = Ok path).
Context (Hdist : forall up, cpa_update_path path = Some up -> leaf_distinct idf i (nodes T) (path_leaf_node up)).

(** The committer's leaf after the commit. *)
Definition own_leaf : LeafNode := match cpa_update_path path with Some up => path_leaf_node up | None => old end.

Record sent_tree : Prop := {
  st_vec : vec_inv [] V;
  st_own : leaf_at V i = Some own_leaf;
  st_others j : j <> i -> leaf_at V j = leaf_at (nodes T) j;
  st_added : pv_indexes_of_added_kpkgs (cpa_provisional path) = pv_indexes_of_added_kpkgs pv;
  st_provides r lr sk : leaf_at (nodes T) r = Some lr -> r <> i -> all_unmerged (nodes T) r ->
    is_key_pair sk (leaf_public_key lr) -> provides V i r sk (cpa_path_secrets path);
}.

Lemma make_path_tree : sent_tree.
Proof using All.
  pose proof Hpath as Hp. unfold make_path in Hp. destruct update.
  - apply bind_Ok in Hp as (exts & _ & E).
    destruct (encap _ _ _ _ _ _ _ _ _) as [[gen| |] s'] eqn:Ee; [|done..]. injection E as Ep.
    assert (cpa_update_path path = Some (eg_update_path gen)) as Eup by (by rewrite <- Ep).
    destruct (Hdist _ Eup) as [Hleaf _]. apply encap_inv in Ee.
    destruct (sender_spec idf _ _ _ _ _ _ _ _ T t _ gen s' old Ht Henc Hcur Hold Hleaf Ee) as (fs & ds & g1 & g2 & v & h & t1 & t2 & Hsd).
    assert (V = nodes (ke_tree s')) as EV by (by rewrite <- Ep).
    split.
    + rewrite EV. by eapply V_inv.
    + destruct (V_shape idf _ _ _ T t gen s' old Ht Hold fs ds g1 g2 v h t1 t2 Hsd) as (_ & _ & Hn & _).
      rewrite EV. unfold leaf_at, own_leaf. by rewrite Hn, Eup.
    + intros j Hj. rewrite EV. by eapply leaf_at_V.
    + by rewrite <- Ep.
    + intros r lr sk Hlr Hne Hun Hsk.
      destruct (newcomer_secrets idf _ _ _ T t gen s' old Ht Hold fs ds g1 g2 v h t1 t2 Hsd r lr sk Hlr Hne Hun Hsk)
        as (L & d & q & Hpos & Hd & Hrun & Hq & Hqi).
      assert (cpa_path_secrets path = Some (drawn_secret <$> ds)) as -> by (rewrite <- Ep, <- (sd_path_secrets Hsd); done).
      exists L, (dr_secret d), q. split; [done|]. split; [by rewrite list_lookup_fmap, Hd|]. split.
      { eapply draws_bytes; [|exact (sd_draws Hsd)|by eapply list_elem_of_lookup_2]. by intros ? [=]. }
      rewrite EV. split; [done|]. split; [by apply private_fit|done].
  - apply bind_Ok in Hp as ([[] p1] & E1 & E). apply bind_Ok in E as ([hh p2] & E2 & E).
    unfold on_pv_tree in E1, E2. destruct (update_hashes [i] T) as [[[]| |] T1] eqn:Eu; [|done..]. injection E1 as <-.
    destruct (tree_kem_tree_hash _) as [[h| |] T2] eqn:Eh; [|done..]. injection E2 as _ <-. injection E as Ep.
    assert (cpa_update_path path = None /\ cpa_path_secrets path = None /\
      pv_indexes_of_added_kpkgs (cpa_provisional path) = pv_indexes_of_added_kpkgs pv) as (Eup & Esec & Eadd) by (by rewrite <- Ep).
    destruct (path_without idf coins g false signer id lexts pv t path old Ht Henc Hcur Hold Hpath eq_refl) as (_ & _ & _ & EV & _).
    split; rewrite ?EV; [apply (to_vec _ _ Ht)|unfold own_leaf; by rewrite Eup|done|done|].
    intros r lr sk Hlr Hne Hun Hsk. rewrite Esec. by apply (newcomer_fits _ r lr sk Hlr (to_vec _ _ Ht) Hun Hsk).
Qed.
End newcomer_path.

(** ** The welcome message *)

Lemma newcomer_leaf `{CipherSuiteProvider} idf b t t' added (n : nat) a r :
  edited idf (mk_edit_state t b) added (mk_edit_state t' b) -> additions b !! n = Some a -> added !! n = Some r ->
  leaf_at (nodes t') r = Some (kp_leaf_node (key_package (proposal a))) /\ all_unmerged (nodes t') r.
Proof.
  intros He Ha Hr. split.
  - eapply (added_leaf idf _ _ _ _ He). apply elem_of_lookup_zip_with. exists n, r, (kp_leaf_node (key_package (proposal a))).
    split; [done|]. split; [done|]. by rewrite list_lookup_fmap, Ha.
  - destruct He as (_ & _ & _ & _ & _ & _ & _ & Hall). cbn [es_tree] in Hall. exact (Forall_lookup_1 _ _ _ _ Hall Hr).
Qed.

Section welcomes.
Context {idp : IdentityProvider} {cs : CipherSuiteProvider} {C K P S R : Type} {cc : ClientConfig C K P S R}.
Context `{MapOrder, !GroupStateStorage S, !KeyPackageStorage K, !PreSharedKeyStorage P, !MlsRules R}.
Notation Grp := (Group C S K).

(** The extensions of the group info of a welcome message. *)
Definition info_extensions (exts : ExtensionList) (tree : option NodeVec) : mres ExtensionList :=
  match tree with
  | Some tree => from_extension_error (ext_set_from EXT_RATCHET_TREE ratchet_tree_codec exts tree)
  | None => Ok exts
  end.

(** The entry [secret] of a welcome message for the [n]-th new member. *)
Record welcome_entry (coins : CommitCoins) (g : Grp) (r : KeyScheduleDerivationResult) (path : CommitPath) (psk : PskSecret)
    (ids : list PreSharedKeyID) (exts : ExtensionList) (tree : option NodeVec) (tag : ConfirmationTag) (signer : SignatureSecretKey)
    (ws : list MlsMessage) (n : nat) (kp : KeyPackage) (i : Z) (info : GroupInfo) (key : WelcomeSecret) (sealed_info : bytes)
    (secrets : list EncryptedGroupSecrets) (secret : EncryptedGroupSecrets) : Prop := {
  we_info : exists exts', info_extensions exts tree = Ok exts' /\
    make_group_info (cmc_welcome_info coins) g (pv_group_context (cpa_provisional path)) exts' tag signer = Ok info;
  we_key : welcome_from_joiner_secret (kd_joiner_secret r) psk = Ok key;
  we_sealed : exists b, mls_encode_to_vec group_info_codec info = Ok b /\ welcome_encrypt key b = Ok sealed_info;
  we_secret : encrypt_group_secrets (cmc_group_secrets coins i) g kp i (kd_joiner_secret r) (cpa_path_secrets path) ids sealed_info = Ok secret;
  we_message : make_welcome_message g secrets sealed_info ∈ ws;
  we_entry : secret ∈ secrets;
  we_others s : s ∈ secrets -> s = secret \/ exists (m : nat) a, m <> n /\
    additions (pv_applied_proposals (cpa_provisional path)) !! m = Some a /\
    to_reference (key_package (proposal a)) = Ok (new_member s);
}.

Lemma secret_reference coins (g : Grp) kp i j ps ids egi s : encrypt_group_secrets coins g kp i j ps ids egi = Ok s ->
  to_reference kp = Ok (new_member s).
Proof using Type. unfold encrypt_group_secrets. by intros (? & _ & (? & _ & (r & Hr & [= <-])%bind_Ok)%bind_Ok)%bind_Ok. Qed.

Lemma welcomes_entry coins (g : Grp) r options path psk ids exts tree tag signer ws (n : nat) a i :
  welcomes coins g r options path psk ids exts tree tag signer = Ok ws ->
  additions (pv_applied_proposals (cpa_provisional path)) !! n = Some a ->
  pv_indexes_of_added_kpkgs (cpa_provisional path) !! n = Some i ->
  exists info key sealed_info secrets secret,
    welcome_entry coins g r path psk ids exts tree tag signer ws n (key_package (proposal a)) i info key sealed_info secrets secret.
Proof using Type.
  unfold welcomes. change (match tree with Some t => _ | None => Ok exts end) with (info_extensions exts tree).
  intros (exts' & He & (info & Hi & (key & Hk & (b & Hb%map_err_Ok & (sealed & Hs & (ss & Hss%mapM_res_Ok & [= <-])%bind_Ok)%bind_Ok)%bind_Ok)%bind_Ok)%bind_Ok)%bind_Ok Ha Hidx.
  set (adds := additions _) in *. set (idxs := pv_indexes_of_added_kpkgs _) in *.
  assert (zip ((fun info => key_package (proposal info)) <$> adds) idxs !! n = Some (key_package (proposal a), i)) as Hn.
  { apply lookup_zip_Some. split; [by rewrite list_lookup_fmap, Ha|done]. }
  destruct (Forall2_lookup_l _ _ _ _ _ Hss Hn) as (s & Hsn & Henc). cbn beta iota in Henc.
  destruct (single_welcome_message options && negb (zlen ss =? 0)); exists info, key, sealed.
  - exists ss, s. split; eauto; [by left|by eapply list_elem_of_lookup_2|]. intros s' (m & Hm)%list_elem_of_lookup.
    destruct (decide (m = n)) as [->|Hne]; [left; congruence|right].
    destruct (Forall2_lookup_r _ _ _ _ _ Hss Hm) as ([kp' i'] & Hz & Henc'). cbn beta iota in Henc'.
    apply lookup_zip_Some in Hz as [Hz _]. rewrite list_lookup_fmap in Hz. apply fmap_Some in Hz as (a' & Ha' & ->).
    exists m, a'. split; [done|]. split; [done|]. by eapply secret_reference.
  - exists [s], s. split; eauto; [|by left|].
    + apply list_elem_of_fmap. exists s. split; [done|]. by eapply list_elem_of_lookup_2.
    + intros s' Hs'%list_elem_of_singleton. by left.
Qed.

(** The key package of the [n]-th new member is the only one of the commit that
    the repository [repo] has. *)
Definition only_package (repo : K) (adds : list (ProposalInfo AddProposal)) (n : nat) : Prop :=
  forall (m : nat) a ref, m <> n -> adds !! m = Some a -> to_reference (key_package (proposal a)) = Ok ref ->
    kps_get repo ref = Ok None.

Lemma find_generation (repo : K) secrets s data gen : s ∈ secrets -> kps_get repo (new_member s) = Ok (Some data) ->
  from_storage (new_member s) data = Ok gen -> (forall s', s' ∈ secrets -> s' = s \/ kps_get repo (new_member s') = Ok None) ->
  find_key_package_generation repo secrets = Ok (s, gen).
Proof using Type.
  intros Hin Hget Hgen Ho. induction secrets as [|s' ss IH]; [by apply elem_of_nil in Hin|]. cbn [find_key_package_generation].
  destruct (Ho s' ltac:(by left)) as [->|E].
  - rewrite Hget. cbn [map_err mbind res_bind]. by rewrite Hgen.
  - rewrite E. cbn [map_err mbind res_bind]. apply IH; [|intros x Hx; apply Ho; by right].
    apply elem_of_cons in Hin as [->|Hin]; [congruence|done].
Qed.
End welcomes.

(** ** Decrypting and joining *)

Section opening.
Context {idp : IdentityProvider} {cs : CipherSuiteProvider} `{!HashLaws, !HpkeLaws, !SignatureLaws, !AeadLaws, !OutputLaws}.
Context {C K P S R : Type} {cc : ClientConfig C K P S R}.
Context `{MapOrder, !GroupStateStorage S, !KeyPackageStorage K, !PreSharedKeyStorage P, !MlsRules R}.
Notation Grp := (Group C S K).

(** The keys that the newcomer at [r] makes of the path secret it receives. *)
Definition receives (v : NodeVec) (i r : Z) (sk : HpkeSecretKey) (secret : option PathSecret) (q : TreeKemPrivate) : Prop :=
  (forall c t, nodes t = v ->
     match secret with
     | Some secret => sm_exec (update_secrets c i secret t) (new_self_leaf r sk)
     | None => Ok (new_self_leaf r sk)
     end = Ok q) /\ keys_fit v q /\ self_index q = r.

(** The committer sends the secret of the common ancestor. *)
Lemma sent_secret coins (g : Grp) kp v r sk j secrets ids sealed s li lr :
  let i := self_index (g_private_tree g) in
  vec_inv [] v -> leaf_at v r = Some lr -> leaf_at v i = Some li -> r <> i ->
  provides v i r sk secrets -> encrypt_group_secrets coins g kp r j secrets ids sealed = Ok s ->
  exists secret q, receives v i r sk secret q /\ option_wf bytes_ok secret /\
    he_encrypt coins (mk_group_secrets j secret ids) (hpke_init_key kp) sealed = Ok (encrypted_group_secrets s) /\
    to_reference kp = Ok (new_member s).
Proof using Type.
  intros i Hv Hr Hi Hne Hp He. unfold encrypt_group_secrets in He. apply bind_Ok in He as (secret & Hsec & He).
  apply bind_Ok in He as (ct & Hct & (ref & Href & [= <-])%bind_Ok). cbn [encrypted_group_secrets new_member].
  exists secret. destruct secrets as [ss|]; cbn [provides] in Hp.
  - destruct Hp as (L & x & q & Hpos & HL & Hx & Hrun & Hfit & Hq). fold i in Hsec.
    rewrite (leaf_level v r i lr li L Hv Hr Hi Hne Hpos) in Hsec. cbn [unwrap mbind res_bind] in Hsec.
    replace (Z.of_nat L + 1 - 1) with (Z.of_nat L) in Hsec by lia.
    destruct (lca_position_spec v r i lr li Hv Hr Hi Hne) as (L' & Hpos' & Hd & _). rewrite Hpos in Hpos'. injection Hpos' as E%Nat2Z.inj. subst L'.
    destruct (leaf_range _ _ _ Hv Hi) as (_ & H26 & _).
    rewrite wrap_small, zget_nat, HL in Hsec by (unfold in_uint; change (2 ^ 64) with 18446744073709551616; lia).
    injection Hsec as <-. exists q. split; [|done]. split; [|done]. intros c t Ht. apply sm_exec_Ok. exists tt. by apply Hrun.
  - injection Hsec as <-. exists (new_self_leaf r sk). split; [|done]. by split.
Qed.

(** The committer's group info is well-typed. *)
Lemma info_typed coins (g : Grp) context exts tag signer info : make_group_info coins g context exts tag signer = Ok info ->
  group_context_wf context -> extension_list_wf exts -> bytes_ok tag -> leaf_index_wf (self_index (g_private_tree g)) ->
  group_info_wf info /\ gi_group_context info = context /\ gi_extensions info = exts /\ gi_confirmation_tag info = tag /\
  gi_signer info = self_index (g_private_tree g).
Proof using H3.
  unfold make_group_info, signable_sign. intros (b & _ & (sig & Hs%map_err_Ok & [= <-])%bind_Ok)%bind_Ok Hc He Ht Hi.
  apply sign_bytes in Hs. by split_and!.
Qed.

(** The newcomer decrypts its secrets and the group info. *)
Lemma welcome_opens coins (g : Grp) d path psk ids exts tree tag signer ws n kp r info key sealed secrets s
    (config : C) extra gen data version suite v li lr :
  let i := self_index (g_private_tree g) in
  welcome_entry coins g d path psk ids exts tree tag signer ws n kp r info key sealed secrets s ->
  vec_inv [] v -> leaf_at v r = Some lr -> leaf_at v i = Some li -> r <> i ->
  provides v i r (kpg_leaf_node_secret_key gen) (cpa_path_secrets path) ->
  kpg_key_package gen = kp -> kp_version kp = version -> is_key_pair (kpg_init_secret_key gen) (hpke_init_key kp) ->
  to_reference kp = Ok (kpg_reference gen) -> kps_get (cfg_key_package_repo config) (kpg_reference gen) = Ok (Some data) ->
  from_storage (kpg_reference gen) data = Ok gen ->
  only_package (cfg_key_package_repo config) (additions (pv_applied_proposals (cpa_provisional path))) n ->
  psk_secret config ids extra = Ok psk -> Forall psk_id_wf ids -> bytes_ok (kd_joiner_secret d) -> group_info_wf info ->
  exists secret q, receives v i r (kpg_leaf_node_secret_key gen) secret q /\
    decrypt_welcome version (mk_welcome suite secrets sealed) config extra =
      Ok (info, gen, mk_group_secrets (kd_joiner_secret d) secret ids, psk).
Proof using H0 H2.
  intros i [_ Hkey (b & Hb & Hsealed) Hsec _ Hin Hothers] Hv Hr Hi Hne Hprov Hkp Hver Hpair Href Hget Hgen Honly Hpsk Hids Hj Hinfo.
  destruct (sent_secret _ _ _ _ _ _ _ _ _ _ _ _ _ Hv Hr Hi Hne Hprov Hsec) as (secret & q & Hrec & Hbytes & Henc & Hnew).
  rewrite Href in Hnew. injection Hnew as Hnew. exists secret, q. split; [done|]. unfold decrypt_welcome. cbn [w_secrets encrypted_group_info].
  rewrite (find_generation (cfg_key_package_repo config) secrets s data gen Hin); [|by rewrite <- Hnew..|].
  2: { intros s' Hs'. destruct (Hothers s' Hs') as [->|(m & a & Hm & Ha & Hrm)]; [by left|right; by eapply Honly]. }
  cbn [mbind res_bind]. rewrite Hkp, Hver, Z.eqb_refl. cbn [guard_or mbind res_bind].
  assert (group_secrets_wf (mk_group_secrets (kd_joiner_secret d) secret ids)) as Hwf by exact (conj Hj (conj Hbytes Hids)).
  rewrite (he_decrypt_encrypt group_secrets_wf _ _ _ _ _ _ Hwf Hpair Henc). cbn [mbind res_bind gs_psks joiner_secret].
  rewrite Hpsk. cbn [mbind res_bind]. rewrite Hkey. cbn [mbind res_bind].
  unfold welcome_encrypt in Hsealed. apply map_err_Ok in Hsealed. unfold welcome_decrypt.
  rewrite (aead_open_seal _ _ _ _ _ Hsealed). cbn [from_crypto map_err mbind res_bind].
  apply (decode_encoded _ _ _ _ Hinfo) in Hb as [_ Hd]. by rewrite Hd.
Qed.

(** The tree [v] passes the checks of a newcomer. *)
Definition tree_accepted (context : GroupContext) (time : option Z) (v : NodeVec) : Prop :=
  exists t, import_node_data v (gc_extensions context) = Ok t /\ (validate_tree context time t).1 = Ok tt.

Lemma accepted_tree context time v : tree_accepted context time v ->
  exists t t', import_node_data v (gc_extensions context) = Ok t /\ validate_tree context time t = (Ok tt, t') /\ nodes t' = v.
Proof using Type.
  intros (t & Ht & Hv). destruct (validate_tree context time t) as [r t'] eqn:E. cbn in Hv. subst r. exists t, t'.
  split; [done|]. split; [done|]. transitivity (nodes t).
  - unfold validate_tree, validate_tree_hash in E. apply sm_bind_Ok in E as ([] & t1 & E1 & E).
    apply sm_bind_Ok in E1 as (h & t2 & Eh & E1). case_bool_decide; [|done]. injection E1 as ->.
    rewrite sm_get_run in E. repeat (apply sm_bind_Ok in E as (? & ? & [= _ <-] & E)). injection E as _ <-.
    pose proof (proj1 tree_hash_keeps t) as Hk. rewrite Eh in Hk. by symmetry.
  - unfold import_node_data, initialize_index_if_necessary in Ht. rewrite sm_get_run in Ht.
    destruct (is_initialized _); [by injection Ht as <-|]. rewrite sm_modify_run in Ht. unfold zoom_index, sm_zoom in Ht.
    destruct (index_leaves _ _ _) as [[| |] ?]; [|done..]. by injection Ht as <-.
Qed.
End opening.

Lemma leaf_node_eq_refl l : NoDup (types (leaf_extensions l)) -> leaf_node_eq l l = true.
Proof.
  intros Hn. unfold leaf_node_eq. rewrite !bool_decide_true by done. cbn [andb]. rewrite andb_true_r. by apply ext_list_eq_perm.
Qed.

(** A newcomer finds itself by its leaf. *)
Lemma find_leaf_node_own t r l : leaf_at (nodes t) r = Some l -> NoDup (types (leaf_extensions l)) ->
  (forall j l', leaf_at (nodes t) j = Some l' -> leaf_public_key l' = leaf_public_key l -> j = r) -> find_leaf_node t l = Some r.
Proof.
  intros Hl Hn Hu. unfold find_leaf_node. set (f := fun '(i, l') => _).
  assert (r ∈ omap f (non_empty_leaves (nodes t))) as Hin.
  { apply list_elem_of_omap. exists (r, l). split; [by apply elem_of_members|]. cbn. by rewrite leaf_node_eq_refl. }
  assert (forall j, j ∈ omap f (non_empty_leaves (nodes t)) -> j = r) as Hall.
  { intros j ([j' l'] & Hj & Hf)%list_elem_of_omap. cbn in Hf. destruct (leaf_node_eq l' l) eqn:E; [|done]. injection Hf as ->.
    apply elem_of_members in Hj. apply (Hu j l' Hj). unfold leaf_node_eq in E. rewrite !andb_true_iff in E.
    destruct E as [[[[[E _] _] _] _] _]. by apply bool_decide_eq_true in E. }
  destruct (omap f _) as [|j js]; [by apply elem_of_nil in Hin|]. cbn. f_equal. apply Hall. by left.
Qed.

Section joining.
Context {idp : IdentityProvider} {cs : CipherSuiteProvider} {C K P S R : Type} {cc : ClientConfig C K P S R}.
Context `{MapOrder, !GroupStateStorage S, !KeyPackageStorage K, !PreSharedKeyStorage P, !MlsRules R}.
Notation Grp := (Group C S K).

(** The newcomer accepts the group info. *)
Lemma info_accepted version info tree time context v li : gi_group_context info = context -> tree_accepted context time v ->
  (ext ← group_info_tree info; match ext with Some t => Ok t | None => ok_or RatchetTreeNotFound tree end) = Ok v ->
  zlen v <= 2 ^ 26 -> leaf_at v (gi_signer info) = Some li -> signable_verify (signature_key (signing_identity li)) tt info = Ok tt ->
  version = protocol_version context -> gc_cipher_suite context = cipher_suite ->
  group_extensions_valid (gc_extensions context) None = Ok tt ->
  exists t, validate_tree_and_info_joiner version info tree time = Ok t /\ nodes t = v.
Proof using Type.
  intros <- (t & t' & Himp & Hval & En)%accepted_tree Htree Hz Hli Hsig -> Hcs Hext. exists t'. split; [|done].
  unfold validate_tree_and_info_joiner, validate_tree_joiner. apply bind_Ok in Htree as (ext & -> & Htree). cbn [mbind res_bind].
  rewrite Htree. cbn [mbind res_bind]. rewrite Himp. cbn [mbind res_bind]. rewrite Hval. cbn [mbind res_bind].
  rewrite <- En in Hz, Hli. rewrite (get_leaf_node_eq _ _ _ Hz Hli). cbn [mbind res_bind].
  unfold validate_group_info_joiner. unfold group_extensions_valid in Hext. apply bind_Ok in Hext as (senders & -> & Hs). cbn [mbind res_bind].
  assert ((match senders with Some senders => from_identity (verify_all senders None (gc_extensions (gi_group_context info))) | None => Ok tt end) = Ok tt) as ->
    by (by destruct senders).
  cbn [mbind res_bind]. unfold validate_group_info_common. rewrite Z.eqb_refl, Hcs, Z.eqb_refl. cbn [negb]. by rewrite Hsig.
Qed.

(** The group that a newcomer makes of what it has accepted. *)
Lemma join_runs coins version info gen secrets psk tree (config : C) signer time t r q d interim :
  validate_tree_and_info_joiner version info tree time = Ok t ->
  find_leaf_node t (kp_leaf_node (kpg_key_package gen)) = Some r ->
  receives (nodes t) (gi_signer info) r (kpg_leaf_node_secret_key gen) (gs_path_secret secrets) q ->
  from_joiner (joiner_secret secrets) (gi_group_context info) (total_leaf_count (nodes t)) psk = Ok d ->
  confirmation_tag_create (confirmation_key d) (confirmed_transcript_hash (gi_group_context info)) = Ok (gi_confirmation_tag info) ->
  interim_transcript_create (confirmed_transcript_hash (gi_group_context info)) (gi_confirmation_tag info) = Ok interim ->
  exists h : Grp, join_group_info coins version info gen secrets psk tree config signer time =
      Ok (h, mk_new_member_info (gi_extensions info) (gi_signer info)) /\
    g_state h = group_state_new (gi_group_context info) t interim (gi_confirmation_tag info) /\
    g_epoch_secrets h = epoch_secrets d /\ g_key_schedule h = kd_key_schedule d /\ g_private_tree h = q /\ g_signer h = signer.
Proof using Type.
  intros Ht Hf [Hq _] Hd Htag Hint. unfold join_group_info. rewrite Ht. cbn [mbind res_bind]. rewrite Hf. cbn [ok_or mbind res_bind].
  rewrite (Hq coins t eq_refl). cbn [mbind res_bind]. rewrite Hd. cbn [mbind res_bind]. unfold confirmation_tag_matches.
  rewrite Htag. cbn [mbind res_bind]. rewrite bool_decide_true by done. cbn [guard_or mbind res_bind]. unfold join_with.
  rewrite Hint. cbn [mbind res_bind]. eexists. split; [done|]. by split_and!.
Qed.
End joining.

(** ** From the commit to the new member *)

Section arrival.
Context {idp : IdentityProvider} {cs : CipherSuiteProvider}.
Context `{!HashLaws, !HpkeLaws, !SignatureLaws, !AeadLaws, !OutputLaws}.
Context {C K P S R : Type} {cc : ClientConfig C K P S R}.
Context `{MapOrder, !MapOrderLaws, !GroupStateStorage S, !KeyPackageStorage K, !PreSharedKeyStorage P, !MlsRules R}.
Notation Grp := (Group C S K).

(** The path changes the context by the tree hash; its leaf is the committer's. *)
Lemma make_path_context coins (g : Grp) update signer id lexts pv t path old :
  make_path coins g update None signer id lexts pv t = Ok path ->
  zlen (nodes (pv_public_tree pv)) <= 2 ^ 26 -> leaf_at (nodes (pv_public_tree pv)) (self_index t) = Some old ->
  (exists h, pv_group_context (cpa_provisional path) = set_context_tree_hash h (pv_group_context pv)) /\
  forall up, cpa_update_path path = Some up ->
    leaf_at (nodes (pv_public_tree (cpa_provisional path))) (self_index t) = Some (path_leaf_node up).
Proof using Type.
  intros Hp Hz Hold. destruct (leaf_at_bound _ _ _ Hz Hold) as [Hi Hb]. unfold make_path in Hp. destruct update.
  - apply bind_Ok in Hp as (exts & _ & E). destruct (encap _ _ _ _ _ _ _ _ _) as [[gen| |] s'] eqn:Ee; [|done..].
    injection E as Ep. apply encap_inv in Ee as [(? & ? & ? & ? & t1 & t2 & t3 & t4 & ? & ? & ? & h & ? & ? & Hs)].
    destruct Hs as (_ & _ & _ & _ & _ & _ & _ & Hl & Hu & Hh & Hctx & _). rewrite <- Ep.
    cbn [cpa_provisional cpa_update_path pv_group_context set_pv_group_context pv_public_tree set_pv_public_tree].
    split; [by exists h|]. intros up [= <-]. pose proof (proj1 (update_hashes_keeps [self_index t]) t3) as K1. rewrite Hu in K1.
    pose proof (proj1 tree_hash_keeps t4) as K2. rewrite Hh in K2. cbn [snd] in K1, K2. rewrite K2, K1.
    apply borrow_leaf_at; [|exact Hl]. change (2 ^ 31) with 2147483648. change (2 ^ 26) with 67108864 in Hz. lia.
  - apply bind_Ok in Hp as ([? p1] & E1 & E). apply bind_Ok in E as ([hh p2] & E2 & E). unfold on_pv_tree in E1, E2.
    destruct (update_hashes _ _) as [[| |] ?]; [|done..]. injection E1 as _ <-.
    destruct (tree_kem_tree_hash _) as [[| |] ?]; [|done..]. injection E2 as _ <-. injection E as <-.
    split; [by exists hh|]. done.
Qed.

Lemma seal_commit_secrets coins (g : Grp) sender path psk signer ad s : seal_commit coins g sender path psk signer ad = Ok s ->
  cpa_path_secrets (sl_path s) = cpa_path_secrets path.
Proof using Type.
  unfold seal_commit. intros (? & _ & E)%bind_Ok. repeat (apply bind_Ok in E as (? & _ & E)). by injection E as <-.
Qed.

(** The committer [g] has the leaf [own] in its pending epoch: it clashes with
    no other member, and the signer the committer will use belongs to it. *)
Record committer_leaf (idf : SigningIdentity -> bytes) (g : Grp) (pv : ProvisionalState) (p : PendingCommit) (own : LeafNode) : Prop := {
  cl_own : leaf_at (nodes (st_public_tree (pnd_state p))) (self_index (g_private_tree g)) = Some own;
  cl_distinct : leaf_distinct idf (self_index (g_private_tree g)) (nodes (pv_public_tree pv)) own;
  cl_signer : signature_key_derive_public (pnd_signer p) = Ok (signature_key (signing_identity own));
}.

(** What the group info of the welcome message says is well-typed. *)
Record info_ok (exts : ExtensionList) (p : PendingCommit) : Prop := {
  io_context : group_context_wf (st_context (pnd_state p));
  io_tree : Forall (option_wf tree_node_wf) (nodes (st_public_tree (pnd_state p)));
  io_extensions : extension_list_wf exts;
  io_no_tree : ext_get exts EXT_RATCHET_TREE = None;
}.

(** The [n]-th new member of the commit can join with the configuration
    [config] and its key package [gen]. *)
Record joiner_ready (g : Grp) (pv : ProvisionalState) (p : PendingCommit) (n : nat) (config : C) (gen : KeyPackageGeneration)
    (extra : option PskSecretInput) (time : option Z) : Prop := {
  jr_added : exists a, additions (pv_applied_proposals pv) !! n = Some a /\ key_package (proposal a) = kpg_key_package gen;
  jr_version : kp_version (kpg_key_package gen) = protocol_version (st_context (g_state g));
  jr_suite : gc_cipher_suite (st_context (g_state g)) = cipher_suite;
  jr_init : is_key_pair (kpg_init_secret_key gen) (hpke_init_key (kpg_key_package gen));
  jr_leaf : is_key_pair (kpg_leaf_node_secret_key gen) (leaf_public_key (kp_leaf_node (kpg_key_package gen)));
  jr_extensions : NoDup (types (leaf_extensions (kp_leaf_node (kpg_key_package gen))));
  jr_reference : to_reference (kpg_key_package gen) = Ok (kpg_reference gen);
  jr_stored : exists data, kps_get (cfg_key_package_repo config) (kpg_reference gen) = Ok (Some data) /\
    from_storage (kpg_reference gen) data = Ok gen;
  jr_only : only_package (cfg_key_package_repo config) (additions (pv_applied_proposals pv)) n;
  jr_psks psk ids : get_psk g (psks (pv_applied_proposals pv)) = Ok (psk, ids) ->
    Forall psk_id_wf ids /\ psk_secret config ids extra = Ok psk;
  jr_tree : tree_accepted (st_context (pnd_state p)) time (nodes (st_public_tree (pnd_state p)));
  jr_senders : group_extensions_valid (gc_extensions (st_context (pnd_state p))) None = Ok tt;
}.

Lemma info_extensions_wf exts tree exts' : extension_list_wf exts ->
  (forall v, tree = Some v -> Forall (option_wf tree_node_wf) v) -> info_extensions exts tree = Ok exts' -> extension_list_wf exts'.
Proof using Type.
  intros [Hw Hn] Hv. destruct tree as [v|]; cbn [info_extensions]; [|by intros [= <-]].
  unfold from_extension_error, ext_set_from, into_extension. intros Hx%map_err_Ok.
  apply bind_Ok in Hx as (x & (data & Hd%map_err_Ok & [= <-])%bind_Ok & [= <-]).
  apply (decode_encoded ratchet_tree_codec (Forall (option_wf tree_node_wf))) in Hd as [Hd _]; [|by apply Hv].
  assert (extension_wf (mk_extension EXT_RATCHET_TREE data)) as Hx by (split; [vm_compute; by split|done]).
  split; [|by apply NoDup_ext_set]. clear Hn. induction Hw as [|e l He Hl IH]; cbn [ext_set]; [by constructor|].
  cbn [extension_type]. by destruct (_ =? _); constructor.
Qed.

(** The group [h] is where the committer's pending commit [p] leads, for the new
    member at [r]. *)
Record arrived (p : PendingCommit) (gen : KeyPackageGeneration) (r : Z) (h : Grp) : Prop := {
  ar_epoch : same_epoch (pnd_state p) (g_state h);
  ar_secrets : g_epoch_secrets h = pnd_epoch_secrets p;
  ar_schedule : g_key_schedule h = pnd_key_schedule p;
  ar_index : self_index (g_private_tree h) = r;
  ar_leaf : leaf_at (nodes (st_public_tree (g_state h))) r = Some (kp_leaf_node (kpg_key_package gen));
  ar_keys : keys_fit (nodes (st_public_tree (g_state h))) (g_private_tree h);
}.

Context (idf : SigningIdentity -> bytes) (Hid : forall s ext, identity s ext = Ok (idf s)).
Context (g g' : Grp) (leaf own : LeafNode) (coins : CommitCoins) (now : Z) (proposals : list Proposal) (ad : bytes) (exts : ExtensionList)
  (signer : option SignatureSecretKey) (id : option SigningIdentity) (lexts : option ExtensionList) (time : option Z)
  (out : CommitOutput) (p : PendingCommit) (pv : ProvisionalState).
Context (Hg : sender_ready idf g leaf) (Hsend : proposals_sendable g proposals (default now time) pv)
  (Hown : committer_leaf idf g pv p own) (Hinfo : info_ok exts p).
Notation i := (self_index (g_private_tree g)).
Notation T' := (pv_public_tree pv).
Notation V := (nodes (st_public_tree (pnd_state p))).

(** A commit that has gone through. *)
Record committed_with (update : bool) (u : list (ProposalInfo Proposal)) (t : TreeKemPrivate) (path : CommitPath) (psk : PskSecret)
    (ids : list PreSharedKeyID) (s : SealedCommit) (signed : AuthenticatedContent) (confirmed : bytes) (wf : WireFormat)
    (options : CommitOptions) : Prop := {
  cw_steps : commit_steps coins now proposals ad signer id lexts time g out p g' (set_unused u pv) update t path psk ids s;
  cw_seal : seal_steps coins g path psk ad s signed confirmed wf;
  cw_secrets : cpa_path_secrets (sl_path s) = cpa_path_secrets path;
  cw_out : output_steps coins exts signer g out (set_unused u pv) psk ids s options;
}.

Lemma commit_committed : commit_internal coins now proposals None ad exts signer id lexts time g = (Ok (out, p), g') ->
  exists update u t path psk ids s signed confirmed wf options, committed_with update u t path psk ids s signed confirmed wf options.
Proof using All.
  intros (pvs & update & t & path & psk & ids & s & Hsteps & _ & options & Hout)%commit_internal_steps.
  destruct (own_proposals idf Hid g leaf proposals (default now time) pv Hg Hsend) as (_ & _ & (u & Hu) & _).
  assert (pvs = set_unused u pv) as -> by (destruct Hsteps as [_ Ha _ _ _ _ _ _ _]; rewrite Hu in Ha; by injection Ha as <-).
  pose proof (cs_seal _ _ _ _ _ _ _ _ _ _ _ _ _ _ _ _ _ _ _ Hsteps) as Hseal.
  pose proof Hseal as (signed & confirmed & wf & Hss)%seal_commit_steps.
  exists update, u, t, path, psk, ids, s, signed, confirmed, wf, options. split; [done|done|by eapply seal_commit_secrets|done].
Qed.

Context (update : bool) (u : list (ProposalInfo Proposal)) (t : TreeKemPrivate) (path : CommitPath) (psk : PskSecret)
  (ids : list PreSharedKeyID) (s : SealedCommit) (signed : AuthenticatedContent) (confirmed : bytes) (wf : WireFormat) (options : CommitOptions)
  (Hc : committed_with update u t path psk ids s signed confirmed wf options).

(** The pending state in terms of the path. *)
Lemma pending_of_path : self_index t = i /\ V = nodes (pv_public_tree (cpa_provisional path)) /\
  st_context (pnd_state p) = pv_group_context (cpa_provisional (sl_path s)) /\
  pv_applied_proposals (cpa_provisional (sl_path s)) = pv_applied_proposals pv /\
  pv_indexes_of_added_kpkgs (cpa_provisional (sl_path s)) = pv_indexes_of_added_kpkgs (cpa_provisional path) /\
  confirmed_transcript_hash (st_context (pnd_state p)) = confirmed /\
  protocol_version (st_context (pnd_state p)) = protocol_version (st_context (g_state g)) /\
  gc_cipher_suite (st_context (pnd_state p)) = gc_cipher_suite (st_context (g_state g)).
Proof using All.
  destruct Hc as [Hsteps Hseal _ _]. destruct Hsteps as [_ _ Hti _ Hpath _ _ _ [hash Ep]].
  destruct Hseal as [_ _ _ _ Epv _ _ _ _]. rewrite Ep. cbn [make_pending pnd_state st_public_tree st_context]. rewrite Epv.
  destruct (own_tree_after idf Hid g leaf proposals (default now time) pv Hg Hsend) as (Hok & _ & _ & Hli & _).
  destruct (vec_inv_len _ _ (to_vec _ _ Hok)) as [_ H26]. rewrite <- Hti in Hli.
  destruct (make_path_context _ _ _ _ _ _ _ _ _ leaf Hpath H26 Hli) as ((hh & Ectx) & _).
  pose proof (path_applied coins g update _ id lexts (set_unused u pv) t path Hpath) as Eap.
  cbn [pv_group_context set_pv_group_context pv_public_tree pv_applied_proposals pv_indexes_of_added_kpkgs]. rewrite Ectx, Eap.
  destruct (own_proposals idf Hid g leaf proposals (default now time) pv Hg Hsend) as (Hap & _).
  destruct (ap_changes _ _ _ _ _ _ Hap) as (o & _ & _ & _ & _ & _ & E5).
  split_and!; try done; cbn [protocol_version gc_cipher_suite set_confirmed_transcript_hash set_context_tree_hash pv_group_context set_unused];
    rewrite E5; by destruct (new_context_extensions o).
Qed.

Lemma pending_tree : sent_tree pv t path leaf /\ leaf_at V i = Some own /\ own = own_leaf path leaf.
Proof using All.
  destruct pending_of_path as (Hti & EV & _). destruct Hown as [Ho Hd _]. rewrite EV in *.
  destruct (own_tree_after idf Hid g leaf proposals (default now time) pv Hg Hsend) as (Hok & Henc & Hcur & Hli & _).
  destruct (vec_inv_len _ _ (to_vec _ _ Hok)) as [_ H26]. rewrite <- Hti in Hli, Hd, Ho |- *.
  pose proof (cs_path _ _ _ _ _ _ _ _ _ _ _ _ _ _ _ _ _ _ _ (cw_steps _ _ _ _ _ _ _ _ _ _ _ Hc)) as Hpath.
  destruct (make_path_context _ _ _ _ _ _ _ _ _ leaf Hpath H26 Hli) as (_ & Hup).
  assert (sent_tree (set_unused u pv) t path leaf) as [A1 A2 A3 A4 A5].
  { apply (make_path_tree idf coins g update (default (g_signer g) signer) id lexts (set_unused u pv) t path leaf); try done.
    intros up Eup. specialize (Hup up Eup). rewrite Ho in Hup. by injection Hup as <-. }
  split; [by split|]. split; [done|]. rewrite Ho in A2. by injection A2.
Qed.

(** Where the new members are. *)
Lemma newcomer_place (n : nat) a : additions (pv_applied_proposals pv) !! n = Some a ->
  exists r, pv_indexes_of_added_kpkgs pv !! n = Some r /\ r <> i /\
    leaf_at (nodes T') r = Some (kp_leaf_node (key_package (proposal a))) /\ all_unmerged (nodes T') r.
Proof using All.
  intros Ha. destruct (own_proposals idf Hid g leaf proposals (default now time) pv Hg Hsend) as (Hap & Hed & _ & Hunt).
  pose proof (mb_senders _ _ _ _ _ (ap_ok _ _ _ _ _ _ Hap)) as Hsenders.
  destruct (lookup_lt_is_Some_2 (pv_indexes_of_added_kpkgs pv) n) as [r Hr].
  { destruct Hed as (-> & _). cbn [es_bundle]. by eapply lookup_lt_Some. }
  exists r. split; [done|]. split; [|by eapply newcomer_leaf].
  intros ->. eapply (added_new idf _ _ _ _ Hed Hsenders i leaf Hunt (sr_leaf _ _ _ Hg)). by eapply list_elem_of_lookup_2.
Qed.

Lemma newcomer_unique r l : leaf_at (nodes T') r = Some l -> r <> i ->
  leaf_at V r = Some l /\ forall j l', leaf_at V j = Some l' -> leaf_public_key l' = leaf_public_key l -> j = r.
Proof using All.
  intros Hl Hr. destruct pending_of_path as (Hti & EV & _). destruct pending_tree as ([_ _ Hoth _ _] & Ho & _). rewrite EV, Hti in *.
  split; [by rewrite Hoth|]. intros j l' Hj E. destruct (decide (j = i)) as [->|Hne].
  - rewrite Ho in Hj. injection Hj as <-. destruct Hown as [_ [_ Hd] _]. by destruct (Hd r l Hr Hl) as [? _].
  - rewrite Hoth in Hj by done. destruct (own_tree_after idf Hid g leaf proposals (default now time) pv Hg Hsend) as (Hok & _).
    by eapply (same_key_same_leaf idf).
Qed.

(** The new members read the group info, and its tree. *)
Lemma pending_info exts' info :
  info_extensions exts (if ratchet_tree_extension options then Some (nodes (pv_public_tree (cpa_provisional (sl_path s)))) else None) = Ok exts' ->
  make_group_info (cmc_welcome_info coins) g (pv_group_context (cpa_provisional (sl_path s))) exts' (sl_tag s) (default (g_signer g) signer) = Ok info ->
  group_info_wf info /\ gi_group_context info = st_context (pnd_state p) /\ gi_confirmation_tag info = sl_tag s /\ gi_signer info = i /\
  signable_verify (signature_key (signing_identity own)) tt info = Ok tt /\
  (ext ← group_info_tree info; match ext with Some t => Ok t | None => ok_or RatchetTreeNotFound (co_ratchet_tree out) end) = Ok V.
Proof using All.
  intros Hx Hmake. destruct pending_of_path as (_ & EV & Ectx & _). destruct Hc as [Hsteps Hseal _ [_ _ Etree]].
  destruct Hsteps as [_ _ _ _ _ _ _ _ [hash Ep]]. destruct Hseal as [_ _ _ _ Epv _ _ Htag _].
  assert (nodes (pv_public_tree (cpa_provisional (sl_path s))) = V) as EV' by (by rewrite EV, Epv). rewrite EV' in *.
  destruct Hinfo as [W1 W2 W3 W4]. destruct Hown as [_ _ Hsig]. rewrite Ep in Hsig. cbn [make_pending pnd_signer] in Hsig.
  assert (extension_list_wf exts') as Hw.
  { eapply info_extensions_wf; [exact W3| |exact Hx]. intros v. destruct (ratchet_tree_extension options); [|done]. by intros [= <-]. }
  rewrite <- Ectx in Hmake. pose proof Hmake as Hm.
  destruct (info_typed _ _ _ _ _ _ _ Hmake W1 Hw (tag_bytes _ _ _ Htag)) as (Hwf & E1 & E2 & E3 & E4).
  { pose proof (to_vec _ _ (sr_tree _ _ _ Hg)) as Hv. destruct (leaf_range _ _ _ Hv (sr_leaf _ _ _ Hg)) as (_ & _ & Hz & Hi & _).
    destruct (vec_inv_len _ _ Hv) as [H25 _]. change (2 ^ 25) with 33554432 in H25. unfold leaf_index_wf. change MAX_LEAF_INDEX with 16777215. lia. }
  split; [done|]. split; [done|]. split; [done|]. split; [done|]. split.
  { unfold make_group_info in Hm. by destruct (sign_verify _ _ _ _ _ _ Hm Hsig) as [_ Hv]. }
  unfold group_info_tree. rewrite E2, Etree. destruct (ratchet_tree_extension options); cbn [info_extensions negb orb] in *.
  - unfold from_extension_error in Hx. apply map_err_Ok in Hx.
    by rewrite (ext_read_back _ ratchet_tree_codec _ _ _ _ W2 Hx).
  - injection Hx as <-. unfold ext_get_as. change (List.find (fun e => extension_type e =? EXT_RATCHET_TREE) exts) with (ext_get exts EXT_RATCHET_TREE).
    by rewrite W4.
Qed.

(** The entry of the welcome message that the committer makes for a new member. *)
Lemma pending_entry (n : nat) a r : additions (pv_applied_proposals pv) !! n = Some a -> pv_indexes_of_added_kpkgs pv !! n = Some r ->
  exists info key sealed_info secrets secret,
    welcome_entry coins g (sl_derivation s) (sl_path s) psk ids exts
      (if ratchet_tree_extension options then Some (nodes (pv_public_tree (cpa_provisional (sl_path s)))) else None) (sl_tag s)
      (default (g_signer g) signer) (co_welcome_messages out) n (key_package (proposal a)) r info key sealed_info secrets secret.
Proof using All.
  intros Ha Hr. destruct pending_of_path as (_ & _ & _ & Eap & Eix & _). destruct pending_tree as ([_ _ _ Hix _] & _).
  destruct Hc as [_ _ _ [_ Hw _]]. eapply welcomes_entry; [exact Hw|by rewrite Eap|by rewrite Eix, Hix].
Qed.

(** The committer's epoch: its key schedule and its transcript. *)
Lemma pending_schedule :
  from_key_schedule (g_key_schedule g) (cpa_commit_secret path) (st_context (pnd_state p)) (total_leaf_count V) psk = Ok (sl_derivation s) /\
  confirmation_tag_create (confirmation_key (sl_derivation s)) (confirmed_transcript_hash (st_context (pnd_state p))) = Ok (sl_tag s) /\
  interim_transcript_create (confirmed_transcript_hash (st_context (pnd_state p))) (sl_tag s) = Ok (sl_interim s) /\
  st_interim_transcript_hash (pnd_state p) = sl_interim s /\ st_confirmation_tag (pnd_state p) = sl_tag s /\
  pnd_epoch_secrets p = epoch_secrets (sl_derivation s) /\ pnd_key_schedule p = kd_key_schedule (sl_derivation s).
Proof using All.
  destruct pending_of_path as (_ & -> & -> & _ & _ & Eh & _). destruct Hc as [Hsteps Hseal _ _].
  destruct Hseal as [_ _ _ _ Epv _ Hd Htag Hint]. destruct Hsteps as [_ _ _ _ _ _ _ _ [hash Ep]].
  assert (confirmed_transcript_hash (pv_group_context (cpa_provisional (sl_path s))) = confirmed) as Eh' by (by rewrite Epv).
  rewrite Eh', Ep. by split_and!.
Qed.

Lemma no_reinit (n : nat) a : additions (pv_applied_proposals pv) !! n = Some a -> st_pending_reinit (pnd_state p) = None.
Proof using All.
  intros Ha. destruct pending_of_path as (_ & _ & _ & Eap & _). destruct Hc as [[_ _ _ _ _ _ _ _ [hash ->]] _ _ _].
  cbn [make_pending pnd_state st_pending_reinit]. rewrite Eap.
  destruct (own_proposals idf Hid g leaf proposals (default now time) pv Hg Hsend) as (Hap & _).
  destruct (mb_reinit_alone _ _ _ _ _ (ap_ok _ _ _ _ _ _ Hap)) as [->|E]; [done|]. unfold bundle_length in E.
  apply lookup_lt_Some in Ha. set (b := pv_applied_proposals pv) in *.
  pose proof (zlen_nonneg (updates b)). pose proof (zlen_nonneg (removals b)). pose proof (zlen_nonneg (psks b)).
  pose proof (zlen_nonneg (external_initializations b)). pose proof (zlen_nonneg (group_context_extensions b)).
  pose proof (zlen_nonneg (custom_proposals b)). destruct (reinitializations b) as [|x xs]; [done|].
  unfold zlen in *. cbn [length] in E. lia.
Qed.

(** The new member decrypts the welcome message, accepts what it says, and is
    then where the committer is once it has applied its commit. *)
Lemma welcome_arrives (n : nat) (config : C) gen extra jtime : joiner_ready g pv p n config gen extra jtime ->
  exists r wl info gs psk', pv_indexes_of_added_kpkgs pv !! n = Some r /\
    mk_message (protocol_version (st_context (g_state g))) (PayloadWelcome wl) ∈ co_welcome_messages out /\
    w_cipher_suite wl = gc_cipher_suite (st_context (g_state g)) /\
    decrypt_welcome (protocol_version (st_context (g_state g))) wl config extra = Ok (info, gen, gs, psk') /\
    gc_cipher_suite (gi_group_context info) = gc_cipher_suite (st_context (g_state g)) /\
    forall coins' key, exists h : Grp, join_group_info coins' (protocol_version (st_context (g_state g))) info gen gs psk' (co_ratchet_tree out)
        config key jtime = Ok (h, mk_new_member_info (gi_extensions info) i) /\ arrived p gen r h /\ g_signer h = key.
Proof using All.
  intros [(a & Ha & Ekp) Hver Hsuite Hinit Hleaf Hnd Href (data & Hget & Hst) Honly Hpsks Htree Hsenders].
  destruct (newcomer_place n a Ha) as (r & Hr & Hne & Hlr & Hun). rewrite Ekp in Hlr.
  destruct (newcomer_unique r _ Hlr Hne) as [HlV Huniq].
  destruct pending_of_path as (Hti & EV & Ectx & Eap & _ & _ & Epv & Ecs).
  destruct pending_tree as ([HvV _ _ _ Hprov] & Hown' & _). rewrite Hti, <- EV in *.
  destruct (pending_entry n a r Ha Hr) as (info & key & sealed & secrets & secret & He). rewrite Ekp in He.
  pose proof He as [(exts' & Hx & Hmake) _ _ _ Hmsg _ _].
  destruct (pending_info exts' info Hx Hmake) as (Hwf & Eic & Eit & Eis & Hsig & Evt).
  destruct pending_schedule as (Hd & Htag & Hint & Ei & Et & Ees & Eks).
  destruct (Hpsks psk ids (cs_psk _ _ _ _ _ _ _ _ _ _ _ _ _ _ _ _ _ _ _ (cw_steps _ _ _ _ _ _ _ _ _ _ _ Hc))) as [Hids Hpsk].
  assert (provides V i r (kpg_leaf_node_secret_key gen) (cpa_path_secrets (sl_path s))) as Hp.
  { rewrite (cw_secrets _ _ _ _ _ _ _ _ _ _ _ Hc). by eapply Hprov. }
  destruct (welcome_opens coins g (sl_derivation s) (sl_path s) psk ids exts _ (sl_tag s) (default (g_signer g) signer)
      (co_welcome_messages out) n (kpg_key_package gen) r info key sealed secrets secret config extra gen data
      (protocol_version (st_context (g_state g))) cipher_suite V own (kp_leaf_node (kpg_key_package gen)) He HvV HlV Hown' Hne Hp
      eq_refl Hver Hinit Href Hget Hst) as (ps & q & Hrec & Hdec); try done.
  { by rewrite Eap. }
  { by eapply joiner_bytes. }
  exists r, (mk_welcome cipher_suite secrets sealed), info, (mk_group_secrets (kd_joiner_secret (sl_derivation s)) ps ids), psk.
  split; [done|]. split; [rewrite <- Hsuite; exact Hmsg|]. split; [done|]. split; [exact Hdec|]. split; [by rewrite Eic|].
  intros coins' key'.
  destruct (vec_inv_len _ _ HvV) as [_ H26].
  destruct (info_accepted (protocol_version (st_context (g_state g))) info (co_ratchet_tree out) jtime _ V own Eic Htree Evt H26)
    as (tr & Htr & Entr); try done.
  { by rewrite Eis. }
  { by rewrite Ecs. }
  destruct (from_joiner_same _ _ _ _ _ _ Hd) as (d' & Hd' & E1 & E2 & E3).
  destruct (join_runs coins' (protocol_version (st_context (g_state g))) info gen (mk_group_secrets (kd_joiner_secret (sl_derivation s)) ps ids) psk
      (co_ratchet_tree out) config key' jtime tr r q d' (sl_interim s)) as (h & Hh & Hst' & Hes & Hks & Hpt & Hsg); try done.
  { apply find_leaf_node_own; rewrite ?Entr; done. }
  { rewrite Entr, Eis. exact Hrec. }
  { rewrite Entr, Eic. exact Hd'. }
  { rewrite Eic, Eit, E2. exact Htag. }
  { rewrite Eic, Eit. exact Hint. }
  exists h. rewrite Hh, Eis. split; [done|]. split; [|done]. destruct Hrec as (_ & Hfit & Hqr).
  split; rewrite ?Hst'; cbn [group_state_new st_public_tree]; rewrite ?Entr, ?Hpt; try done.
  - split; rewrite ?Hst'; cbn [group_state_new st_context st_public_tree st_interim_transcript_hash st_confirmation_tag st_pending_reinit];
      rewrite ?Entr, ?Ei, ?Et, ?Eic, ?Eit; try done. by rewrite (no_reinit n a Ha).
  - by rewrite Hes, E3, Ees.
  - by rewrite Hks, E1, Eks.
Qed.
End arrival.


(** *** Bob removes Alice and adds Dave *)

#[local] Existing Instance plain_provider.
#[local] Existing Instance plain_order.
#[local] Existing Instance Toy.provider.
#[local] Existing Instance Toy.hash_laws.
#[local] Existing Instance Toy.hpke_laws.
#[local] Existing Instance Toy.signature_laws.
#[local] Existing Instance Toy.aead_laws.

#[local] Instance toy_output_laws : OutputLaws.
Proof.
  split.
  - intros _ sk data sig [= <-]. by apply Toy.expand_ok.
  - intros key data tag [= <-]. by apply Toy.expand_ok.
  - intros prk info len x. simpl. destruct (zlen prk <? 4); [done|]. intros [= <-].
    unfold Toy.expand. apply Forall_fmap, Forall_forall. intros j _. simpl. unfold in_uint. apply Z.mod_pos_bound. lia.
  - intros k n b [= <-]. unfold Toy.expand. apply Forall_fmap, Forall_forall. intros j _. simpl. unfold in_uint.
    apply Z.mod_pos_bound. lia.
Qed.

Notation dave := (cl_config (package 50 4).2).

Definition swapping : CommitBuilder :=
  raw_proposal (PRemove (mk_remove 0)) (value commit_builder (add_member (package 50 4).1 commit_builder)).

Notation bob_swaps := (build_internal (cs := Toy.provider) (toy_commit_coins 220) 100 swapping bob_1).

Definition swap_pv : ProvisionalState := Eval vm_compute in
  value no_provisional (apply_resolved (g_state bob_1) (SenderMember 1) (prepare_commit (st_proposals (g_state bob_1)) (SenderMember 1)
    (cb_proposals swapping)) None (secret_store (g_config bob_1)) (cfg_mls_rules (g_config bob_1)) (Some 100) Receive).

(** Bob's pending state. *)
Definition swap_pending : PendingCommit := Eval vm_compute in (value (no_output, no_pending) bob_swaps.1).2.

Notation swap_nodes := (nodes (st_public_tree (pnd_state swap_pending))).

(** What Dave has stored of its key package. *)
Definition dave_package : KeyPackage := Eval vm_compute in
  match payload (package 50 4).1 with
  | PayloadKeyPackage k => k
  | _ => mk_key_package 0 0 [] (member_leaf 0) [] []
  end.
Definition dave_reference : bytes := Eval vm_compute in value [] (to_reference dave_package).
Definition dave_stored : KeyPackageData := Eval vm_compute in
  default (mk_key_package_data [] [] [] 0) (value None (kps_get (cfg_key_package_repo dave) dave_reference)).
Definition dave_generation : KeyPackageGeneration := Eval vm_compute in
  value (mk_key_package_generation [] dave_package [] []) (from_storage dave_reference dave_stored).

Lemma three_distinct idf a b c l : encodable leaf_node_codec l -> compatible idf l a -> compatible idf l c ->
  leaf_distinct idf 1 (three_leaves a b c) l.
Proof.
  intros He Ha Hc. split; [done|]. intros j l' Hj Hl%nd_leaf_at. apply three_nodes in Hl as [[E [= ->]]|[[E [= ->]]|[E [= ->]]]]; [done|lia|done].
Qed.

Notation swap_bundle := (prepare_commit (st_proposals (g_state bob_1)) (SenderMember (self_index (g_private_tree bob_1))) (cb_proposals swapping)).

Lemma swap_bundle_eq : swap_bundle = bundle_add (PRemove (mk_remove 0)) (SenderMember 1) ByValue
  (bundle_add (PAdd (mk_add dave_package)) (SenderMember 1) ByValue bundle_empty).
Proof. vm_compute. reflexivity. Qed.

Lemma swap_sendable : proposals_sendable bob_1 (cb_proposals swapping) (default 100 (cb_commit_time swapping)) swap_pv.
Proof.
  split.
  - rewrite swap_bundle_eq. split_and!; [constructor; [split; [done|]; vm_compute; discriminate|constructor]|constructor|constructor|].
    constructor; [eexists; vm_compute; reflexivity|constructor].
  - rewrite swap_bundle_eq. vm_compute. discriminate.
  - vm_compute. reflexivity.
Qed.

Definition swap_leaf : LeafNode := Eval vm_compute in default (member_leaf 0) (leaf_at swap_nodes 1).

Lemma swap_committer : committer_leaf signature_key bob_1 swap_pv swap_pending swap_leaf.
Proof.
  split.
  - vm_compute. reflexivity.
  - assert (nodes (pv_public_tree swap_pv) = three_leaves (kp_leaf_node dave_package) (toy_leaf 1) (toy_leaf 2)) as -> by (vm_compute; reflexivity).
    assert (self_index (g_private_tree bob_1) = 1) as -> by (vm_compute; reflexivity).
    apply three_distinct; [eexists; vm_compute; reflexivity| |]; split_and!; vm_compute; (discriminate || by left).
  - vm_compute. reflexivity.
Qed.

Lemma swap_info : info_ok (cb_group_info_extensions swapping) swap_pending.
Proof.
  split.
  - apply (decoded_wf group_context_codec _ (value [] (mls_encode_to_vec group_context_codec (st_context (pnd_state swap_pending)))));
      vm_compute; reflexivity.
  - apply (decoded_wf ratchet_tree_codec (Forall (option_wf tree_node_wf)) (value [] (mls_encode_to_vec ratchet_tree_codec swap_nodes)));
      vm_compute; reflexivity.
  - split; constructor.
  - reflexivity.
Qed.

Lemma dave_ready : joiner_ready bob_1 swap_pv swap_pending 0 dave dave_generation None (Some 100).
Proof.
  split.
  - eexists. split; vm_compute; reflexivity.
  - vm_compute. reflexivity.
  - vm_compute. reflexivity.
  - right. exists 50%nat. vm_compute. reflexivity.
  - right. exists 51%nat. vm_compute. reflexivity.
  - vm_compute. constructor.
  - vm_compute. reflexivity.
  - exists dave_stored. split; vm_compute; reflexivity.
  - intros m a ref Hm Ha _. destruct m as [|m]; [done|]. vm_compute in Ha. discriminate.
  - intros psk ids E.
    assert (get_psk bob_1 (psks (pv_applied_proposals swap_pv)) = Ok ([0; 0; 0; 0], [])) as E' by (vm_compute; reflexivity).
    rewrite E' in E. injection E as <- <-. split; [constructor|]. vm_compute. reflexivity.
  - exists (value tree_kem_new (import_node_data swap_nodes (gc_extensions (st_context (pnd_state swap_pending))))).
    split; vm_compute; reflexivity.
  - vm_compute. reflexivity.
Qed.


(** *** A new identity that is not installed

    Bob adds Dave and asks for a new signing identity in the same commit, which
    needs no path.  His leaf keeps its identity, but he signs with the new key:
    Dave refuses the group info, and Carol every later commit of Bob. *)

Definition renaming : CommitBuilder :=
  set_new_signing_identity [12] (mk_signing_identity [12] (Basic [2]))
    (value commit_builder (add_member (package 50 4).1 commit_builder)).

Definition renamed : CommitOutput * ToyGroup := commit_with 230 renaming bob_1.

Definition renamed_welcome : MlsMessage := default no_message (head (co_welcome_messages renamed.1)).

Definition carol_after : ToyGroup := (receive (co_commit_message renamed.1) carol_1).2.

Example pathless_identity_lost :
  co_contains_update_path renamed.1 = false /\
  signing_identity <$> leaf_at (nodes (st_public_tree (g_state renamed.2))) 1 = Some (mk_signing_identity [2] (Basic [2])) /\
  g_signer renamed.2 = [12] /\
  (fun r => r.2.2) <$> join_group (fun s => suite_coins s 60) (package 50 4).2 (co_ratchet_tree renamed.1) renamed_welcome None = Err InvalidSignature /\
  same_view renamed.2 carol_after = true /\
  (receive (co_commit_message (commit_with 240 commit_builder renamed.2).1) carol_after).1 = Err InvalidSignature.
Proof. split_and!; vm_compute; reflexivity. Qed.
